(* ===== verification/_CoqProject ===== *)
-Q . S2P
Prelude.v
GoIO.v
Codes.v
Murmur3.v
RingQueue.v
CalRing.v
Netstring.v
MysqlPackets.v
Taf.v
ConfigFile.v
OpsFile.v
Config.v
ShardMap.v
Sharding.v
WorkerClient.v
AdaptiveQueue.v
WorkerPool.v
StateLog.v
Server.v
CmdProcessor.v
Regexp.v
SqlParser.v
Fmt.v
Adapter.v
WorkerCmd.v
WorkerFacts.v
WorkerService.v
WorkerJournal.v
WorkerRuns.v
ClientDriver.v
Coordinator.v
CoordinatorFacts.v
SessionRuns.v
EndToEnd.v
Connection.v
Cal.v
CalHandler.v
CalLog.v
ClientInfo.v
WorkerProcess.v
WorkerBroker.v
RacMaint.v
StateReport.v
ShardLoad.v
AcceptLoop.v
Startup.v
Utilities.v
Dial.v
WorkerLink.v
Background.v
WireToWire.v
SharedPool.v
SessionSafety.v
SessionRouting.v
Transactions.v
PoolSpec.v
Wakeups.v
JavaNetstring.v
JavaHash.v
JavaClient.v
JavaStatements.v
