(* ===== verification/Prelude.v ===== *)
(** * Hera: a verification development of the database gateway

    Hera multiplexes the connections of many clients over few database connections. A
    proxy process (lib/) accepts clients, reads their requests as netstrings or MySQL
    packets (utility/encoding/), decides on a shard, takes a worker of the pool of that
    shard, relays request and responses, and gives the worker back at the end of the
    transaction. Each worker is a process of its own (worker/) with one database
    connection. Both processes log to CAL (cal/) and read configuration files (config/).
    Clients reach the proxy with the Go driver (client/gosqldriver/), the Java client
    (client/java/) or the MySQL protocol.

    The definitions are translations of the functions they are named after; functions that
    were split have a comment saying which part they are. Everything is executable. Source
    paths below are relative to src/.

    ** Files

    Foundations:
    - Prelude: Go integers at their width, the result type (a value, an error, a panic,
      the end of the process, a loop out of fuel), slices, decimal printing, bit lemmas.
    - GoIO: the contract of io.Reader as a class [Reader] with [ReaderLaws], streams that
      arrive in chunks, bufio.Reader over any reader, and the monad [io] of stateful code.
    - Codes: protocol numbers (common/codes.go) and errors (lib/constants.go).
    - Regexp, SqlParser: the regular expressions of the source and the classification of
      statements with them (common/sqlParser.go). Fmt: what is used of package fmt.

    Data structures and codecs:
    - Murmur3: the shard hash (lib/murmur3.go) and the SQL hash (utility/util.go).
    - RingQueue: the queue of free workers (lib/queue.go). Class [Queue] has its
      operations and [QueueLaws] what it promises; the ring buffer is an instance.
    - CalRing: the byte ring buffer of the CAL client (cal/calringbuffer.go).
    - Netstring, MysqlPackets: the two codecs (utility/encoding/), over any reader.

    Configuration and sharding:
    - ConfigFile, OpsFile, Config: configuration files and what the proxy derives from
      them (config/, lib/config.go).
    - ShardMap, ShardLoad: the records of the shard map, its loading with retries and its
      reload (lib/shardingcfg.go).
    - Sharding: the routing of a session (lib/coordinatorsharding.go).
    - Taf: failover percentage, lock with time-out, slow queries (lib/taf.go,
      lib/lock_timeout.go, lib/tafqueries.go).

    Workers in the proxy:
    - WorkerClient, WorkerLink, WorkerProcess: a worker as the proxy sees it, its socket,
      its environment, start and end (lib/workerclient.go, utility/wrapc.go).
    - AdaptiveQueue: backlog time-outs, evictions, saturation recovery
      (lib/adaptivequemgr.go).
    - WorkerPool: the pool (lib/workerpool.go), for any queue with [QueueLaws]. Its state
      is the record [WorkerPool]; each critical section under the lock of the pool is a
      definition, and [step] and [run] interleave them in any order. PoolSpec has the
      abstract machine of leases it implements, Wakeups what its condition variable does.
    - WorkerBroker: all pools and the monitor of the processes (lib/workerbroker.go),
      against the interface [PoolOps] with [PoolLaws], which the pool implements.
    - RacMaint: restarts for the maintenance of a database (lib/racmaint.go).
    - StateLog, StateReport: counters of states and their report (lib/statelog.go).

    Sessions and connections in the proxy:
    - Coordinator: the session of a client (lib/coordinator.go, lib/coordinatortaf.go) as
      a loop over the events of its selects. CoordinatorFacts, SessionRuns, SessionSafety
      and SessionRouting have its theorems, ClientInfo its client info command.
    - Connection: the handler of a connection (lib/connectionhandler.go).
    - Server, AcceptLoop: capacity checks, the bouncer, the loop of the server and the
      listeners (lib/server.go, lib/tcp_listener.go, lib/tls_listener.go).
    - Startup: the start of the proxy (lib/main.go).
    - Utilities, Background: helpers, logger, statistics, profiler, and the loops and
      settings around the components.

    The worker:
    - Adapter: the adapters of the databases (worker/mysqlworker/, worker/oracleworker/).
    - CmdProcessor, WorkerCmd: the end of a response and the commands
      (worker/shared/cmdprocessor.go), for any driver of class [SqlDB]. WorkerFacts and
      WorkerRuns have the theorems on them.
    - WorkerService: start and loop of the worker process (worker/shared/workerservice.go).
      WorkerJournal runs it with a driver that records what was done in a transaction.

    CAL: Cal (client and messages), CalHandler (socket and file handlers), CalLog (what is
    logged arrives), all of cal/.

    Clients:
    - ClientDriver, Dial: the Go driver (client/gosqldriver/) and how it connects.
    - JavaNetstring, JavaHash, JavaClient, JavaStatements: the netstrings, the shard
      bucket, the protocol client and the statement cache of client/java/jdbc.

    Compositions: EndToEnd (Go driver and worker), WireToWire (connection handler, session,
    pool, socket, worker), SharedPool (any number of sessions and one pool), Transactions
    (sessions, readers of workers and workers).

    ** What is shown

    Each theorem has its conditions in the comment before it; where the code does not do
    what it is meant to, the theorem says what it does.
    - Workers (C1 to C9, C14): in every interleaving of sessions, recoveries and the
      goroutines of the pool no worker is held twice; the pool is a machine of leases; a
      session gives a worker back once, with its own ticket, only after the worker said
      that it is free and, with netstring commands and the switches as the code sets them,
      with nothing done in a transaction that is still open; no call that waits is
      forgotten while none times out. With MySQL commands a transaction is left open for
      the next client.
    - Requests (C10, C12, C19): a MySQL statement that is not a query from the bytes of the
      client to the database and back, through all parts; what a session is given of a
      connection, and the panic when the client hangs up; one answer when a request fails
      over.
    - Routing (C11, C22, C23): a session takes workers of configured shards, or of shard -1
      after it has been reset or closed; what the load of the shard map does with every
      kind of answer; a refused request moves the shard of a transaction.
    - Processes (C13, C15, C16, C21): the map of processes is exact and exits after the
      start are noticed, dead workers are restarted once, the proxy accepts clients only
      when it can serve them, a worker is ready exactly when its adapter's initialisation
      has succeeded.
    - The worker (C17, C18, C20): its transaction handle, its flag and its bind variables
      agree with what the driver was asked to do, what it reports of netstring commands is
      true, what it does on the recover signal on every branch.
    - The Go driver (C24, C25): its requests do not get through to a worker, and the answer
      to an execution does not get through to it, when they arrive in one piece.
    - The Java client (C26, C27, C33): rows and time-outs of a query with a server of its own
      protocol, and that it refuses every answer of this gateway.
    - Codecs, queue, hashes (C30 to C32, C34, C37, C38): round trips over every reader, for
      MySQL packets exactly when the header comes with one read; the ring buffer refines a
      list; the hashes of the gateway and of the Java client agree with the reference.
    - CAL (C28, C29), configuration (C35), failover percentage (C36), bouncer (C39), SQL
      classification (C40).

    The files have further theorems: on every branch of the operations, on inputs where the
    code panics or loses data, and on what the parts make of each other's messages.

    ** Modelling choices

    - A loop that is not structural has fuel. The fuel of a decoder is the number of bytes
      unread plus one, and [decoders_terminate] shows that it is enough, as [java_calls_end]
      does for the Java client; the loops of the ring buffer have the capacity as fuel, and
      the refinement theorem shows that they end. A session has the number of its events.
      Other loops have the length of their input; their theorems give the result, so the
      fuel is enough where they apply.
    - Time, random numbers, the order of map iteration, answers of writers and readers,
      rows of the database and whether a process starts are arguments. The drivers behind
      database/sql are a class with the documented behaviour as hypotheses.
    - A message that blocks on a full channel is left to a later step; sync.Cond is a queue
      of sleeping goroutines. Putting a worker into the queue and the signal that goes with
      it are one step, although the code signals after it has released the lock, and a
      worker that exits is restarted in one step, although the code releases the lock before
      it starts the process: states in between are not seen. The monitor deals with one
      signal in one step; the order in which the system reports dead children is any.
    - Before the monitor starts, processes may exit and pools may work, but no signal is
      kept; the pools of the broker are started one after the other.
    - A session asks for pools through an argument that stands for the error of
      GetWorkerPool; an index out of range, as that of shard -1, is a pool of its own there
      and a panic in the broker's own definition.
    - What a worker's loop is given are the packets its reader hands over; that the reader
      fails on the first netstring is [first_netstring_unreadable].
    - Streams end: a reader that waits for bytes that never come is not distinguished from
      one at the end of its stream, except where an answer that never comes is an outcome
      of its own, as in ShardLoad.
    - The theorems on the pool bound the number of steps by 2^31, the width of the backlog
      counter.

    ** Not modelled

    The database drivers, TLS and the Go runtime (profiles, the garbage collector) are not
    part of the source. Of the source, these are left out: the executable of the proxy
    (mux/mux.go), which only calls its start; the access to driver objects by reflection
    (client/gosqldriver/ext.go); the JDBC classes of the Java client, its analysis of
    escapes, hints and parameter names by regular expressions, its dates and sockets. Log
    lines are left out unless they can panic or are what a component is for, and so are CAL
    events outside of the files on CAL and the client info command. *)

From stdpp Require Import base list gmap strings numbers.
From Stdlib Require Import ZArith Lia.

Open Scope Z_scope.

(** ** Go integers

    A Go integer of [w] bits is kept as the [Z] it denotes; every operation of
    the source that can leave the range is followed by the wrap of its type. *)

Definition u8 (z : Z) : Z := z mod 2 ^ 8.
Definition u16 (z : Z) : Z := z mod 2 ^ 16.
Definition u32 (z : Z) : Z := z mod 2 ^ 32.
Definition u64 (z : Z) : Z := z mod 2 ^ 64.
Definition i32 (z : Z) : Z := (z + 2 ^ 31) mod 2 ^ 32 - 2 ^ 31.
Definition i64 (z : Z) : Z := (z + 2 ^ 63) mod 2 ^ 64 - 2 ^ 63.

Definition in_u8 (z : Z) : Prop := 0 <= z < 2 ^ 8.
Definition in_u16 (z : Z) : Prop := 0 <= z < 2 ^ 16.
Definition in_u32 (z : Z) : Prop := 0 <= z < 2 ^ 32.
Definition in_u64 (z : Z) : Prop := 0 <= z < 2 ^ 64.
Definition in_i32 (z : Z) : Prop := - 2 ^ 31 <= z < 2 ^ 31.
Definition in_i64 (z : Z) : Prop := - 2 ^ 63 <= z < 2 ^ 63.

Create HintDb hera.
Create HintDb go_int.
Create Rewrite HintDb go_int.

Lemma u8_range z : in_u8 (u8 z).
Proof. apply Z.mod_pos_bound; lia. Qed.
Lemma u16_range z : in_u16 (u16 z).
Proof. apply Z.mod_pos_bound; lia. Qed.
Lemma u32_range z : in_u32 (u32 z).
Proof. apply Z.mod_pos_bound; lia. Qed.
Lemma u64_range z : in_u64 (u64 z).
Proof. apply Z.mod_pos_bound; lia. Qed.
Lemma i32_range z : in_i32 (i32 z).
Proof. unfold in_i32, i32. pose proof (Z.mod_pos_bound (z + 2 ^ 31) (2 ^ 32)). lia. Qed.
Lemma i64_range z : in_i64 (i64 z).
Proof. unfold in_i64, i64. pose proof (Z.mod_pos_bound (z + 2 ^ 63) (2 ^ 64)). lia. Qed.

Lemma u8_id z : in_u8 z → u8 z = z.
Proof. apply Z.mod_small. Qed.
Lemma u16_id z : in_u16 z → u16 z = z.
Proof. apply Z.mod_small. Qed.
Lemma u32_id z : in_u32 z → u32 z = z.
Proof. apply Z.mod_small. Qed.
Lemma u64_id z : in_u64 z → u64 z = z.
Proof. apply Z.mod_small. Qed.
Lemma i32_id z : in_i32 z → i32 z = z.
Proof. unfold in_i32, i32. intros. rewrite Z.mod_small; lia. Qed.
Lemma i64_id z : in_i64 z → i64 z = z.
Proof. unfold in_i64, i64. intros. rewrite Z.mod_small; lia. Qed.

#[export] Hint Resolve u8_range u16_range u32_range u64_range i32_range i64_range : go_int.
#[export] Hint Rewrite u8_id u16_id u32_id u64_id i32_id i64_id using
  (unfold in_u8, in_u16, in_u32, in_u64, in_i32, in_i64 in *; lia) : go_int.

(** Unfolds the range predicates and calls [lia]. *)
Ltac go_lia :=
  unfold in_u8, in_u16, in_u32, in_u64, in_i32, in_i64 in *; lia.

(** ** Bytes and strings *)

(** A Go [byte] is a [Z] in [0..255]; a [[]byte] and a Go [string] are lists of them. *)
Abbreviation byte := Z.
Abbreviation bytes := (list Z).

Abbreviation zlen l := (Z.of_nat (length l)).

Definition is_byte (b : Z) : Prop := in_u8 b.

(** Proves that a concrete list is a list of bytes. *)
Ltac bytes_ok := repeat first [apply Forall_nil_2 | apply Forall_cons_2]; unfold is_byte, in_u8; lia.

(** The bytes of a string constant of the source. *)
Fixpoint str (s : string) : bytes :=
  match s with
  | EmptyString => []
  | String c s' => Z.of_N (Ascii.N_of_ascii c) :: str s'
  end.

Arguments str s%_string.

Lemma str_app s1 s2 : str (s1 +:+ s2) = str s1 ++ str s2.
Proof. induction s1 as [|c s1 IH]; [done|]. simpl. by rewrite IH. Qed.

(** ** Results of Go calls

    [Ret] is a normal return, [Error] a non-nil [error], [Panic] a run-time
    panic (index out of range, nil dereference, negative [make]), [Fatal] a
    [log.Fatal] that ends the process, and [Hang] the exhausted fuel of a loop
    of the model: no theorem about a call that returns can be met by [Hang]. *)

Inductive go_error : Set :=
  | io_EOF
  | WRONGPACKET
  | UNKNOWNPACKET
  | errors_New (msg : bytes).

Inductive result (A : Type) : Type :=
  | Ret (a : A)
  | Error (e : go_error)
  | Panic
  | Fatal
  | Hang.
Arguments Ret {A} _.
Arguments Error {A} _.
Arguments Panic {A}.
Arguments Fatal {A}.
Arguments Hang {A}.

#[export] Instance go_error_eq_dec : EqDecision go_error.
Proof. solve_decision. Defined.

#[export] Instance result_ret : MRet result := λ A a, Ret a.
#[export] Instance result_bind : MBind result := λ A B f r,
  match r with
  | Ret a => f a
  | Error e => Error e
  | Panic => Panic
  | Fatal => Fatal
  | Hang => Hang
  end.

(** Slice expressions of Go, which panic out of range. *)
Definition slice_from (l : bytes) (lo : Z) : result bytes :=
  if (0 <=? lo) && (lo <=? zlen l) then Ret (drop (Z.to_nat lo) l) else Panic.

Definition slice (l : bytes) (lo hi : Z) : result bytes :=
  if (0 <=? lo) && (lo <=? hi) && (hi <=? zlen l)
  then Ret (take (Z.to_nat (hi - lo)) (drop (Z.to_nat lo) l)) else Panic.

Definition index_get {A} (l : list A) (i : Z) : result A :=
  if 0 <=? i then
    match l !! Z.to_nat i with Some b => Ret b | None => Panic end
  else Panic.

Definition index_set {A} (l : list A) (i : Z) (b : A) : result (list A) :=
  if (0 <=? i) && (i <? Z.of_nat (length l)) then Ret (<[Z.to_nat i := b]> l) else Panic.

(** [make([]byte, n)] *)
Definition make_bytes (n : Z) : result bytes :=
  if 0 <=? n then Ret (replicate (Z.to_nat n) 0) else Panic.

(** Overwrites [l] with [src] from offset [off] on, dropping what does not fit:
    the effect of [copy(l[off:], src)] for an offset in range. *)
Definition overwrite (l : bytes) (off : nat) (src : bytes) : bytes :=
  take off l ++ take (length l - off) src ++ drop (off + length src) l.

(** [copy(l[off:], src)]: the new contents of [l]. *)
Definition copy_at (l : bytes) (off : Z) (src : bytes) : result bytes :=
  if (0 <=? off) && (off <=? zlen l) then Ret (overwrite l (Z.to_nat off) src) else Panic.

Lemma index_set_ok (d : bytes) i b : 0 <= i < zlen d → index_set d i b = Ret (<[Z.to_nat i := b]> d).
Proof.
  intros. unfold index_set. by rewrite (proj2 (Z.leb_le _ _)), (proj2 (Z.ltb_lt _ _)) by lia.
Qed.

Lemma length_overwrite l off src :
  (off <= length l)%nat → length (overwrite l off src) = length l.
Proof.
  intros. unfold overwrite. rewrite !length_app, !length_take, length_drop. lia.
Qed.

Lemma overwrite_mid l1 l2 l3 src :
  length l2 = length src → overwrite (l1 ++ l2 ++ l3) (length l1) src = l1 ++ src ++ l3.
Proof.
  intros Hl. unfold overwrite.
  rewrite take_app_length.
  rewrite (take_ge src) by (rewrite !length_app; lia).
  rewrite <- Hl, <- length_app, (app_assoc l1 l2 l3), drop_app_length. done.
Qed.

(** Overwriting what follows a prefix. *)
Lemma overwrite_after off l1 l2 src : length l1 = off → (length src <= length l2)%nat →
  overwrite (l1 ++ l2) off src = l1 ++ src ++ drop (length src) l2.
Proof.
  intros <- ?. rewrite <- (take_drop (length src) l2) at 1.
  apply overwrite_mid. rewrite length_take. lia.
Qed.

(** ** Inversion of monadic code *)

(** A closed decidable fact, by evaluation of its decision. *)
Ltac by_decide := apply (bool_decide_unpack _); vm_compute; exact I.

Lemma Ret_inj {A} (a b : A) : Ret a = Ret b → a = b.
Proof. congruence. Qed.

Lemma bind_Ret {A B} (r : result A) (f : A → result B) b :
  r ≫= f = Ret b → ∃ a, r = Ret a ∧ f a = Ret b.
Proof. destruct r; naive_solver. Qed.

(** Splits every [_ ≫= _ = Ret _] hypothesis into its two halves. *)
Ltac inv_bind :=
  repeat match goal with
  | H : _ ≫= _ = Ret _ |- _ =>
      let a := fresh "a" in let E := fresh "E" in
      apply bind_Ret in H as (a & E & H)
  end.

(** Turns the boolean tests of the source into propositions. *)
Ltac zb :=
  repeat match goal with
  | H : context [Z.leb ?a ?b] |- _ => destruct (Z.leb_spec a b); simpl in H
  | H : context [Z.ltb ?a ?b] |- _ => destruct (Z.ltb_spec a b); simpl in H
  | H : context [Z.eqb ?a ?b] |- _ => destruct (Z.eqb_spec a b); simpl in H
  | |- context [Z.leb ?a ?b] => destruct (Z.leb_spec a b); simpl
  | |- context [Z.ltb ?a ?b] => destruct (Z.ltb_spec a b); simpl
  | |- context [Z.eqb ?a ?b] => destruct (Z.eqb_spec a b); simpl
  end.

(** ** Bit operations at a width *)

Lemma testbit_small a n i : 0 <= a < 2 ^ n → n <= i → Z.testbit a i = false.
Proof.
  intros [Ha Hb] Hi. destruct (Z.eq_dec a 0) as [->|]; [apply Z.bits_0|].
  apply Z.bits_above_log2; [lia|].
  apply Z.lt_le_trans with n; [|done]. apply Z.log2_lt_pow2; lia.
Qed.

Lemma bits_below a n :
  0 <= n → (∀ i, n <= i → Z.testbit a i = false) → 0 <= a < 2 ^ n.
Proof.
  intros Hn Hbit.
  assert (a = a mod 2 ^ n) as ->; [|apply Z.mod_pos_bound; lia].
  apply Z.bits_inj'. intros i Hi. destruct (Z_lt_le_dec i n).
  - by rewrite Z.mod_pow2_bits_low by lia.
  - rewrite Z.mod_pow2_bits_high by lia. auto.
Qed.

Lemma lxor_range a b n : 0 <= n → 0 <= a < 2 ^ n → 0 <= b < 2 ^ n → 0 <= Z.lxor a b < 2 ^ n.
Proof.
  intros ? Ha Hb. apply bits_below; [done|]. intros i Hi.
  by rewrite Z.lxor_spec, (testbit_small a n), (testbit_small b n).
Qed.

Lemma lor_range a b n : 0 <= n → 0 <= a < 2 ^ n → 0 <= b < 2 ^ n → 0 <= Z.lor a b < 2 ^ n.
Proof.
  intros ? Ha Hb. apply bits_below; [done|]. intros i Hi.
  by rewrite Z.lor_spec, (testbit_small a n), (testbit_small b n).
Qed.

Lemma land_range a b n : 0 <= n → 0 <= a < 2 ^ n → 0 <= Z.land a b < 2 ^ n.
Proof.
  intros ? Ha. apply bits_below; [done|]. intros i Hi.
  by rewrite Z.land_spec, (testbit_small a n).
Qed.

(** Or-ing a shifted value with one that fits below the shift is addition. *)
Lemma lor_shift_add a b n : 0 <= n → 0 <= b < 2 ^ n → Z.lor (a * 2 ^ n) b = a * 2 ^ n + b.
Proof.
  intros Hn Hb. rewrite Z.add_nocarry_lxor, <- Z.lxor_lor; try done.
  all: apply Z.bits_inj'; intros i Hi; rewrite Z.land_spec, Z.bits_0;
    destruct (Z_lt_le_dec i n);
    [by rewrite Z.mul_pow2_bits_low by lia
    |rewrite (testbit_small b n) by done; apply andb_false_r].
Qed.

(** ** Ring indices *)

Section slots.
Open Scope nat_scope.

(** The slot of the [i]-th element of a ring with [c] slots and front [h]. *)
Definition slot (c h i : nat) : nat := (h + i) mod c.

Lemma slot_wrap c h i : h < c → i ≤ c → slot c h i = if h + i <? c then h + i else h + i - c.
Proof.
  intros Hh Hi. unfold slot. destruct (Nat.ltb_spec (h + i) c); [by apply Nat.mod_small|].
  symmetry. apply (Nat.mod_unique _ _ 1); lia.
Qed.

Lemma slot_lt c h i : h < c → slot c h i < c.
Proof. intros. apply Nat.mod_upper_bound. lia. Qed.

Lemma slot_inj c h i j : h < c → i < c → j < c → slot c h i = slot c h j → i = j.
Proof.
  intros ??? E. rewrite !slot_wrap in E by lia.
  destruct (Nat.ltb_spec (h + i) c), (Nat.ltb_spec (h + j) c); lia.
Qed.

Lemma slot_succ c h i : h < c → i < c → (slot c h i + 1) mod c = slot c h (i + 1).
Proof.
  intros. unfold slot. rewrite Nat.Div0.add_mod_idemp_l by lia. f_equal. lia.
Qed.

Lemma slot_0 c h : h < c → slot c h 0 = h.
Proof. intros. unfold slot. rewrite Nat.add_0_r. by apply Nat.mod_small. Qed.

Lemma slot_pred c h i : h < c → 0 < i ≤ c → (slot c h i + c - 1) mod c = slot c h (i - 1).
Proof.
  intros. replace i with (i - 1 + 1) at 1 by lia. rewrite <- slot_succ by lia.
  pose proof (slot_lt c h (i - 1)). set (s := slot c h (i - 1)) in *.
  destruct (decide (s + 1 = c)) as [E|].
  - rewrite E, Nat.Div0.mod_same. rewrite Nat.mod_small; lia.
  - rewrite (Nat.mod_small (s + 1)) by lia. replace (s + 1 + c - 1) with (s + 1 * c) by lia.
    rewrite Nat.Div0.mod_add. apply Nat.mod_small. lia.
Qed.

End slots.

Lemma lookup_overwrite (l src : bytes) off i : (off + length src <= length l)%nat →
  overwrite l off src !! i =
  if decide (off <= i < off + length src)%nat then src !! (i - off)%nat else l !! i.
Proof.
  intros Hl. unfold overwrite. rewrite (take_ge src) by lia. rewrite !lookup_app.
  destruct (decide (i < off)%nat).
  - rewrite lookup_take_lt by lia. destruct (l !! i) eqn:E; [by rewrite decide_False by lia|].
    apply lookup_ge_None in E. lia.
  - rewrite lookup_take_ge, length_take by lia. replace (off `min` length l)%nat with off by lia.
    case_decide.
    + destruct (src !! (i - off)%nat) eqn:E; [done|]. apply lookup_ge_None in E. lia.
    + rewrite (proj2 (lookup_ge_None src _)) by lia. rewrite lookup_drop. f_equal. lia.
Qed.

(** ** Decimal numbers: fmt's [%d] *)

Fixpoint digits (fuel : nat) (n : Z) (acc : bytes) : bytes :=
  match fuel with
  | O => acc
  | S fuel =>
    let acc := 48 + n mod 10 :: acc in
    if n / 10 =? 0 then acc else digits fuel (n / 10) acc
  end.

(** [fmt.Sprintf("%d", n)]; a number has at most as many digits as bits. *)
Definition itoa (n : Z) : bytes :=
  if n <? 0 then 45 :: digits (S (Z.to_nat (Z.log2 (- n)))) (- n) []
  else digits (S (Z.to_nat (Z.log2 n))) n [].

Definition is_digit (b : Z) : Prop := 48 <= b <= 57.

(** The number a list of digits stands for, read after the number [a]. *)
Definition digits_val (a : Z) (ds : bytes) : Z := fold_left (λ a d, a * 10 + (d - 48)) ds a.

Lemma digits_spec fuel n acc : 0 <= n < 10 ^ Z.of_nat fuel → (0 < fuel)%nat →
  ∃ ds, digits fuel n acc = ds ++ acc ∧ Forall is_digit ds ∧ ds ≠ [] ∧ digits_val 0 ds = n.
Proof.
  revert n acc. induction fuel as [|fuel IH]; intros n acc Hn Hf; [lia|].
  assert (is_digit (48 + n mod 10)) as Hd by (unfold is_digit; pose proof (Z.mod_pos_bound n 10); lia).
  simpl. destruct (Z.eqb_spec (n / 10) 0) as [E|E].
  - exists [48 + n mod 10]. split_and!; [done|by constructor|done|].
    unfold digits_val; simpl. pose proof (Z.div_mod n 10). lia.
  - rewrite Nat2Z.inj_succ, Z.pow_succ_r in Hn by lia.
    assert (0 < n / 10) by (pose proof (Z.div_pos n 10); lia).
    assert (0 < fuel)%nat. { destruct fuel; [|lia]. simpl in Hn. rewrite Z.div_small in E; lia. }
    destruct (IH (n / 10) (48 + n mod 10 :: acc)) as (ds & E1 & F & Hne & V);
      [split; [lia|apply Z.div_lt_upper_bound; lia]|done|].
    exists (ds ++ [48 + n mod 10]). split_and!.
    + by rewrite E1, <- app_assoc.
    + apply Forall_app; split; [done|by constructor].
    + by destruct ds.
    + unfold digits_val in *. rewrite fold_left_app, V. simpl. pose proof (Z.div_mod n 10). lia.
Qed.

Lemma itoa_spec n : 0 <= n →
  Forall is_digit (itoa n) ∧ itoa n ≠ [] ∧ digits_val 0 (itoa n) = n.
Proof.
  intros Hn. unfold itoa. rewrite (proj2 (Z.ltb_ge _ _)) by done.
  destruct (digits_spec (S (Z.to_nat (Z.log2 n))) n []) as (ds & -> & F & Hne & V); [|lia|].
  - split; [done|]. rewrite Nat2Z.inj_succ, Z2Nat.id by apply Z.log2_nonneg.
    destruct (Z.eq_dec n 0) as [->|]; [by simpl|].
    apply Z.lt_le_trans with (2 ^ Z.succ (Z.log2 n)); [apply Z.log2_spec; lia|].
    apply Z.pow_le_mono_l. lia.
  - by rewrite app_nil_r.
Qed.

Lemma length_digits fuel n acc : (length (digits fuel n acc) <= fuel + length acc)%nat.
Proof.
  revert n acc. induction fuel as [|fuel IH]; intros n acc; cbn [digits]; [lia|].
  destruct (_ =? 0); [cbn; lia|]. etrans; [apply IH|]. cbn. lia.
Qed.

Lemma length_itoa n : 0 <= n < 2 ^ 63 → (length (itoa n) <= 63)%nat.
Proof.
  intros Hn. unfold itoa. rewrite (proj2 (Z.ltb_ge _ _)) by lia. etrans; [apply length_digits|]. cbn [length].
  destruct (Z.eq_dec n 0) as [->|]; [cbn; lia|]. assert (Z.log2 n < 63) by (apply Z.log2_lt_pow2; lia). pose proof (Z.log2_nonneg n). lia.
Qed.

Lemma digits_val_cons a d ds : digits_val a (d :: ds) = digits_val (a * 10 + (d - 48)) ds.
Proof. done. Qed.

Lemma digits_val_mono a ds : 0 <= a → Forall is_digit ds → a <= digits_val a ds.
Proof.
  intros Ha F. revert a Ha. induction F as [|d ds Hd F IH]; intros a Ha; [done|].
  rewrite digits_val_cons. unfold is_digit in Hd. etrans; [|apply IH; lia]. lia.
Qed.

(** Digit bytes are told from the others by [b - '0'] on a byte. *)
Lemma digit_byte d : is_digit d → u8 (d - 48) = d - 48 ∧ 0 <= d - 48 <= 9.
Proof. unfold is_digit. intros. rewrite u8_id; go_lia. Qed.

(** Two adjacent overwrites are one. *)
Lemma overwrite_adjacent (l s1 s2 : bytes) off : (off + length s1 + length s2 <= length l)%nat →
  overwrite (overwrite l off s1) (off + length s1) s2 = overwrite l off (s1 ++ s2).
Proof.
  intros Hl. apply list_eq. intros i.
  rewrite lookup_overwrite by (rewrite length_overwrite; lia).
  rewrite !lookup_overwrite by (rewrite ?length_app; lia). rewrite length_app.
  repeat case_decide; try lia; try done.
  - rewrite lookup_app_r by lia. f_equal. lia.
  - by rewrite lookup_app_l by lia.
Qed.

Lemma overwrite_nil (l : bytes) off : overwrite l off [] = l.
Proof. unfold overwrite. rewrite take_nil, Nat.add_0_r. apply take_drop. Qed.

Lemma slice_mid (l1 l2 l3 : bytes) lo hi : lo = zlen l1 → hi = zlen l1 + zlen l2 →
  slice (l1 ++ l2 ++ l3) lo hi = Ret l2.
Proof.
  intros -> ->. unfold slice. rewrite !length_app, !(proj2 (Z.leb_le _ _)) by lia. cbn [andb].
  rewrite Nat2Z.id, drop_app_length.
  replace (Z.to_nat (zlen l1 + zlen l2 - zlen l1)) with (length l2) by lia. by rewrite take_app_length.
Qed.

(** ** Little-endian words *)

(** The number a list of bytes stands for, least significant byte first. *)
Definition le_word (bs : bytes) : Z := foldr (λ b acc, b + 256 * acc) 0 bs.

Lemma le_word_range bs : Forall is_byte bs → 0 <= le_word bs < 2 ^ (8 * zlen bs).
Proof.
  induction 1 as [|b bs Hb _ IH]; [simpl; lia|]. simpl length.
  replace (8 * Z.of_nat (S (length bs))) with (8 + 8 * zlen bs) by lia.
  rewrite Z.pow_add_r by lia. unfold is_byte in Hb. simpl le_word. go_lia.
Qed.

Lemma lor_le_word b k s : 0 <= s → 0 <= k < 2 ^ s → Z.lor k (Z.shiftl b s) = k + b * 2 ^ s.
Proof.
  intros Hs Hk. rewrite Z.shiftl_mul_pow2, Z.lor_comm, lor_shift_add by done. lia.
Qed.

Lemma le_word_inj bs1 bs2 : length bs1 = length bs2 → Forall is_byte bs1 → Forall is_byte bs2 →
  le_word bs1 = le_word bs2 → bs1 = bs2.
Proof.
  revert bs2. induction bs1 as [|b1 bs1 IH]; intros [|b2 bs2] Hl H1 H2 E; simplify_eq/=; [done|].
  apply Forall_cons_1 in H1 as [? ?], H2 as [? ?]. unfold is_byte in *.
  assert (b1 = b2) by go_lia. f_equal; [done|]. apply IH; [lia|done..|go_lia].
Qed.

(** The [k] low bytes of [n], least significant first. *)
Fixpoint le_bytes (k : nat) (n : Z) : bytes :=
  match k with
  | O => []
  | S k => u8 n :: le_bytes k (Z.shiftr n 8)
  end.

Lemma length_le_bytes k n : length (le_bytes k n) = k.
Proof. revert n. induction k; intros; simpl; auto. Qed.

Lemma le_bytes_is_byte k n : Forall is_byte (le_bytes k n).
Proof. revert n. induction k; intros; simpl; constructor; [apply u8_range|auto]. Qed.

Lemma le_word_le_bytes k n : le_word (le_bytes k n) = n mod 2 ^ (8 * Z.of_nat k).
Proof.
  revert n. induction k as [|k IH]; intros n; [by rewrite Z.mod_1_r|].
  simpl. rewrite IH, Z.shiftr_div_pow2 by lia.
  replace (8 * Z.of_nat (S k)) with (8 + 8 * Z.of_nat k) by lia.
  rewrite Z.pow_add_r by lia. rewrite Z.rem_mul_r by lia. unfold u8. lia.
Qed.

Lemma le_bytes_snoc k n : le_bytes (S k) n = le_bytes k n ++ [u8 (Z.shiftr n (8 * Z.of_nat k))].
Proof.
  revert n. induction k as [|k IH]; intros n; [done|].
  change (le_bytes (S (S k)) n) with (u8 n :: le_bytes (S k) (Z.shiftr n 8)). rewrite IH. simpl. do 4 f_equal.
  rewrite Z.shiftr_shiftr by lia. f_equal. lia.
Qed.

Lemma le_word_snoc bs b : le_word (bs ++ [b]) = le_word bs + b * 2 ^ (8 * zlen bs).
Proof.
  unfold le_word. induction bs as [|c bs IH]; simpl foldr; [simpl; lia|].
  simpl app. simpl foldr. rewrite IH. simpl length.
  replace (8 * Z.of_nat (S (length bs))) with (8 + 8 * zlen bs) by lia.
  rewrite Z.pow_add_r by lia. lia.
Qed.

(** What an overwrite that fits stores, and what it leaves. *)
Lemma take_drop_overwrite (l s : bytes) off : (off + length s <= length l)%nat →
  take (length s) (drop off (overwrite l off s)) = s.
Proof.
  intros Hl. unfold overwrite. rewrite (take_ge s) by lia.
  rewrite drop_app_length' by (rewrite length_take; lia). apply take_app_length.
Qed.

Lemma overwrite_prefix (l s : bytes) off : (off <= length l)%nat →
  take off (overwrite l off s) = take off l.
Proof. intros. unfold overwrite. apply take_app_length'. rewrite length_take. lia. Qed.

Lemma overwrite_suffix (l s : bytes) off : (off + length s <= length l)%nat →
  drop (off + length s) (overwrite l off s) = drop (off + length s) l.
Proof.
  intros. unfold overwrite. rewrite (take_ge s), app_assoc by lia.
  apply drop_app_length'. rewrite length_app, length_take. lia.
Qed.

Lemma overwrite_Forall (P : Z → Prop) (l s : bytes) off :
  Forall P l → Forall P s → Forall P (overwrite l off s).
Proof.
  intros Hl Hs. unfold overwrite. repeat apply Forall_app_2; auto using Forall_take, Forall_drop.
Qed.

Lemma index_get_mid (l1 l2 : bytes) b i : i = zlen l1 → index_get (l1 ++ b :: l2) i = Ret b.
Proof.
  intros ->. unfold index_get. rewrite (proj2 (Z.leb_le _ _)), Nat2Z.id by lia.
  by rewrite list_lookup_middle.
Qed.
