(* ===== verification/GoIO.v ===== *)
(** * Readers: the [io.Reader] contract as an interface, a stream that arrives in
    chunks (a connection or a [bytes.Reader]) and [bufio.Reader] on top of any
    reader, with the reading behaviour of the Go standard library. *)

From S2P Require Import Prelude.
From stdpp Require Import base list strings.
From Stdlib Require Import ZArith Lia.
Open Scope Z_scope.

(** ** State and errors *)

(** A Go call that updates a reader of type [S]. The reader is returned also
    when the call fails: what was consumed stays consumed. *)
Definition io (S A : Type) : Type := S → S * result A.

#[export] Instance io_ret {S} : MRet (io S) := λ A a s, (s, Ret a).
#[export] Instance io_bind {S} : MBind (io S) := λ A B f m s,
  let '(s, r) := m s in
  match r with
  | Ret a => f a s
  | Error e => (s, Error e)
  | Panic => (s, Panic)
  | Fatal => (s, Fatal)
  | Hang => (s, Hang)
  end.

(** A computation that does not touch the reader. *)
Definition lift {S A} (r : result A) : io S A := λ s, (s, r).

Definition fail {S A} (e : go_error) : io S A := λ s, (s, Error e).

Lemma io_bind_Ret {S A B} (m : io S A) (f : A → io S B) s s' a :
  m s = (s', Ret a) → (m ≫= f) s = f a s'.
Proof. intros E. unfold mbind, io_bind. by rewrite E. Qed.

Lemma io_bind_inv {S A B} (m : io S A) (f : A → io S B) s s' b :
  (m ≫= f) s = (s', Ret b) → ∃ s1 a, m s = (s1, Ret a) ∧ f a s1 = (s', Ret b).
Proof. unfold mbind, io_bind. destruct (m s) as [s1 [a| | | |]]; naive_solver. Qed.

Lemma io_bind_Error {S A B} (m : io S A) (f : A → io S B) s s' e :
  m s = (s', Error e) → (m ≫= f) s = (s', Error e).
Proof. intros E. unfold mbind, io_bind. by rewrite E. Qed.

Lemma io_bind_Panic {S A B} (m : io S A) (f : A → io S B) s s' :
  m s = (s', Panic) → (m ≫= f) s = (s', Panic).
Proof. intros E. unfold mbind, io_bind. by rewrite E. Qed.

(** ** Invariants and results of calls *)

(** [m] keeps the invariant, whatever it returns. *)
Definition keeps {S} (I : S → Prop) {A} (m : io S A) : Prop := ∀ s, I s → I (m s).1.

Lemma keeps_bind {S} (I : S → Prop) {A B} (m : io S A) (f : A → io S B) :
  keeps I m → (∀ a, keeps I (f a)) → keeps I (m ≫= f).
Proof.
  intros Hm Hf s Hs. specialize (Hm s Hs). unfold mbind, io_bind. destruct (m s) as [s' [a| | | |]]; try done.
  by apply Hf.
Qed.

Lemma keeps_mret {S} (I : S → Prop) {A} (a : A) : keeps I (mret a).
Proof. by intros s. Qed.
Lemma keeps_lift {S} (I : S → Prop) {A} (r : result A) : keeps I (lift r).
Proof. by intros s. Qed.

(** [m] returns, and keeps the invariant. *)
Definition serves {S} (I : S → Prop) {A} (m : io S A) : Prop := ∀ s, I s → ∃ s' a, m s = (s', Ret a) ∧ I s'.

Lemma serves_bind {S} (I : S → Prop) {A B} (m : io S A) (f : A → io S B) :
  serves I m → (∀ a, serves I (f a)) → serves I (m ≫= f).
Proof.
  intros Hm Hf s Hs. destruct (Hm s Hs) as (s1 & a & E & H1). destruct (Hf a s1 H1) as (s2 & b & E2 & H2).
  exists s2, b. split; [|done]. by rewrite (io_bind_Ret _ _ _ _ _ E).
Qed.

Lemma serves_mret {S} (I : S → Prop) {A} (a : A) : serves I (mret a).
Proof. intros s Hs. by exists s, a. Qed.

(** [m] returns [r] from a state of the first kind, in one of the second. *)
Definition yields {S} (P : S → Prop) {A} (m : io S A) (r : A) (Q : S → Prop) : Prop :=
  ∀ s, P s → ∃ s', m s = (s', Ret r) ∧ Q s'.

Lemma yields_bind {S} (P Q R : S → Prop) {A B} (m : io S A) a (f : A → io S B) b :
  yields P m a Q → yields Q (f a) b R → yields P (m ≫= f) b R.
Proof.
  intros H1 H2 c Hc. destruct (H1 c Hc) as (c1 & E1 & Hc1). destruct (H2 c1 Hc1) as (c2 & E2 & Hc2).
  exists c2. split; [|done]. by rewrite (io_bind_Ret _ _ _ _ _ E1).
Qed.

Lemma yields_mret {S} (P : S → Prop) {A} (a : A) : yields P (mret a) a P.
Proof. intros c Hc. by exists c. Qed.

Lemma yields_mono {S} (P Q Q' : S → Prop) {A} (m : io S A) a : yields P m a Q → (∀ c, Q c → Q' c) → yields P m a Q'.
Proof. intros H HQ c Hc. destruct (H c Hc) as (c' & E & Hc'). eauto. Qed.

(** ** The io.Reader interface *)

(** [Read n] is [Read] on a slice of length [n]: it returns the bytes stored.
    [unread] is everything the reader will still deliver before [final], the
    error it then returns on every call. *)
Class Reader (S : Type) := {
  Read : Z → io S bytes;
  unread : S → bytes;
  final : S → go_error
}.

(** A [Read] on a non-empty slice delivers between 1 and [n] of the next bytes,
    how many being the reader's choice, or the final error. *)
Class ReaderLaws (S : Type) `{Reader S} := {
  Read_some n (s : S) : 0 < n → unread s ≠ [] →
    ∃ s' d, Read n s = (s', Ret d) ∧ d ≠ [] ∧ zlen d <= n ∧
      unread s = d ++ unread s' ∧ final s' = final s;
  Read_end n (s : S) : 0 < n → unread s = [] →
    ∃ s', Read n s = (s', Error (final s)) ∧ unread s' = [] ∧ final s' = final s
}.

Lemma Read_byte {S : Type} `{ReaderLaws S} (s : S) b l : unread s = b :: l →
  ∃ s', Read 1 s = (s', Ret [b]) ∧ unread s' = l ∧ final s' = final s.
Proof.
  intros E. destruct (Read_some 1 s) as (s' & d & Hr & Hd & Hl & Hu & Hf); [lia|by rewrite E|].
  destruct d as [|c [|]]; [done| |simpl in Hl; lia].
  rewrite E in Hu. simplify_eq/=. eauto.
Qed.

(** ** A stream that arrives in chunks *)

Record stream := mkStream { chunks : list bytes; fin : go_error }.

(** One [Read] never crosses a chunk boundary; empty chunks never show. *)
Fixpoint read_chunks (n : nat) (cs : list bytes) : option (list bytes * bytes) :=
  match cs with
  | [] => None
  | [] :: cs => read_chunks n cs
  | c :: cs =>
      Some (match drop n c with [] => cs | c' => c' :: cs end, take n c)
  end.

Definition stream_Read (n : Z) : io stream bytes := λ s,
  match read_chunks (Z.to_nat n) (chunks s) with
  | None => (s, Error (fin s))
  | Some (cs, d) => (mkStream cs (fin s), Ret d)
  end.

#[global] Instance stream_Reader : Reader stream := {
  Read := stream_Read;
  unread s := concat (chunks s);
  final := fin
}.

Lemma read_chunks_Some n cs : (0 < n)%nat → concat cs ≠ [] →
  ∃ cs' d, read_chunks n cs = Some (cs', d) ∧ d ≠ [] ∧ (length d <= n)%nat ∧ concat cs = d ++ concat cs'.
Proof.
  intros Hn. induction cs as [|[|b c] cs IH]; intros Hne; [done|by apply IH|].
  destruct n as [|n]; [lia|]. eexists _, _. split; [done|].
  split_and!; [done|rewrite length_take; lia|]. simpl. f_equal.
  destruct (drop n c) as [|x r] eqn:E; rewrite <- (take_drop n c) at 1; rewrite E.
  - by rewrite app_nil_r.
  - simpl. by rewrite <- app_assoc.
Qed.

Lemma read_chunks_None n cs : concat cs = [] → read_chunks n cs = None.
Proof. induction cs as [|[|b c] cs IH]; simpl; intros; [done|auto|done]. Qed.

#[global] Instance stream_ReaderLaws : ReaderLaws stream.
Proof.
  split.
  - intros n s Hn Hne. unfold Read, unread; simpl. unfold stream_Read.
    destruct (read_chunks_Some (Z.to_nat n) (chunks s)) as (cs & d & -> & Hd & Hl & Hu); [lia|done|].
    eexists _, _. split_and!; try done. lia.
  - intros n s Hn He. unfold Read, unread in *; simpl in *. unfold stream_Read.
    rewrite read_chunks_None by done. by exists s.
Qed.

(** [bytes.NewReader(b)] *)
Definition bytes_NewReader (b : bytes) : stream := mkStream [b] io_EOF.

(** ** bufio.Reader *)

Module bufio.
Section bufio.
Context {R : Type} `{!Reader R}.

(** The unread part of the buffer and the underlying reader. The error field of
    the Go type only delays the reader's error, which is persistent. *)
Record t := mk { buf : bytes; rd : R }.

Definition defaultBufSize : Z := 4096.

Definition NewReader (r : R) : t := mk [] r.

(** Runs a call of the underlying reader. *)
Definition under {A} (m : io R A) : io t A := λ b,
  let '(r, x) := m (rd b) in (mk (buf b) r, x).

(** An empty buffer is refilled by one [Read] of the whole buffer, or bypassed
    when the destination is at least as large. *)
Definition Read (n : Z) : io t bytes := λ b,
  match buf b with
  | [] =>
    if defaultBufSize <=? n then under (GoIO.Read n) b
    else
      match GoIO.Read defaultBufSize (rd b) with
      | (r, Ret d) => (mk (drop (Z.to_nat n) d) r, Ret (take (Z.to_nat n) d))
      | (r, x) => (mk [] r, x)
      end
  | _ => (mk (drop (Z.to_nat n) (buf b)) (rd b), Ret (take (Z.to_nat n) (buf b)))
  end.

Definition ReadByte : io t byte := λ b,
  match buf b with
  | c :: l => (mk l (rd b), Ret c)
  | [] =>
    match GoIO.Read defaultBufSize (rd b) with
    | (r, Ret (c :: l)) => (mk l r, Ret c)
    | (r, Ret []) => (mk [] r, Error (errors_New (str "multiple Read calls return no data or error")))
    | (r, Error e) => (mk [] r, Error e)
    | (r, Panic) => (mk [] r, Panic)
    | (r, Fatal) => (mk [] r, Fatal)
    | (r, Hang) => (mk [] r, Hang)
    end
  end.

#[global] Instance Reader_t : Reader t := {
  Read := Read;
  unread b := buf b ++ unread (rd b);
  final b := final (rd b)
}.

Lemma take_drop_some n (d : bytes) : 0 < n → d ≠ [] →
  take (Z.to_nat n) d ≠ [] ∧ zlen (take (Z.to_nat n) d) <= n.
Proof.
  intros Hn Hd. destruct d as [|c d]; [done|].
  destruct (Z.to_nat n) eqn:E; [lia|]. split; [done|]. rewrite length_take. lia.
Qed.

#[global] Instance ReaderLaws_t `{!ReaderLaws R} : ReaderLaws t.
Proof.
  split; intros n [[|c l] r] Hn He; unfold GoIO.Read, unread, final in *; simpl in *; unfold Read; simpl.
  - destruct (Z.leb_spec defaultBufSize n).
    + destruct (Read_some n r) as (r' & d & Hr & Hd & Hl & Hu & Hf); [done..|].
      unfold under. simpl. rewrite Hr. eexists _, _. by split_and!.
    + destruct (Read_some defaultBufSize r) as (r' & d & -> & Hd & Hl & Hu & Hf); [done..|].
      destruct (take_drop_some n d) as [? ?]; [done..|].
      eexists _, _. split_and!; try done. cbn [buf rd].
      by rewrite app_assoc, take_drop.
  - destruct (take_drop_some n (c :: l)) as [? ?]; [done..|].
    eexists _, _. split_and!; try done. cbn [buf rd].
    by rewrite app_assoc, (take_drop _ (c :: l)).
  - destruct (Z.leb_spec defaultBufSize n).
    + destruct (Read_end n r) as (r' & Hr & Hu & Hf); [done..|].
      unfold under. simpl. rewrite Hr. eexists. by split_and!.
    + destruct (Read_end defaultBufSize r) as (r' & -> & Hu & Hf); [done..|]. eexists. by split_and!.
  - done.
Qed.

Lemma ReadByte_some `{!ReaderLaws R} (b : t) c l : unread b = c :: l →
  ∃ b', ReadByte b = (b', Ret c) ∧ unread b' = l ∧ final b' = final b.
Proof.
  destruct b as [[|x buf] r]; unfold unread, ReadByte, final; simpl; intros E; simplify_eq.
  - destruct (Read_some defaultBufSize r) as (r' & d & -> & Hd & Hl & Hu & Hf); [done|by rewrite E|].
    destruct d as [|y d]; [done|]. rewrite E in Hu. simplify_eq/=. eexists. by split_and!.
  - eexists. by split_and!.
Qed.

Lemma ReadByte_end `{!ReaderLaws R} (b : t) : unread b = [] →
  ∃ b', ReadByte b = (b', Error (final b)) ∧ unread b' = [].
Proof.
  destruct b as [[|x buf] r]; unfold unread, ReadByte, final; simpl; intros E; simplify_eq.
  destruct (Read_end defaultBufSize r) as (r' & -> & Hu & Hf); [done..|]. eexists. by split_and!.
Qed.

End bufio.
Arguments t _ : clear implicits.
Arguments mk {R} _ _.
End bufio.
