(* ===== verification/Codes.v ===== *)
(** * Protocol constants (common/codes.go) and the errors the
    proxy returns to clients (lib/constants.go). *)

From S2P Require Import Prelude.
From stdpp Require Import base list strings.
From Stdlib Require Import ZArith Lia.
Open Scope Z_scope.

Module Codes.

Definition RcSQLError : Z := 1.
Definition RcError : Z := 2.
Definition RcValue : Z := 3.
Definition RcHello : Z := 4.
Definition RcOK : Z := 5.
Definition RcNoMoreData : Z := 6.
Definition RcStillExecuting : Z := 7.

Definition CmdPrepare : Z := 1.
Definition CmdBindName : Z := 2.
Definition CmdBindValue : Z := 3.
Definition CmdExecute : Z := 4.
Definition CmdRows : Z := 5.
Definition CmdCols : Z := 6.
Definition CmdFetch : Z := 7.
Definition CmdCommit : Z := 8.
Definition CmdRollback : Z := 9.
Definition CmdBindType : Z := 10.
Definition CmdClientInfo : Z := 11.
Definition CmdBacktrace : Z := 12.
Definition CmdBindOutName : Z := 13.
Definition CmdPrepareSpecial : Z := 14.
Definition CmdColsInfo : Z := 22.
Definition CmdBindNum : Z := 23.
Definition CmdBindValueMaxSize : Z := 24.
Definition CmdPrepareV2 : Z := 25.
Definition CmdShardKey : Z := 27.
Definition CmdGetNumShards : Z := 28.
Definition CmdSetShardID : Z := 29.

Definition ErrBklgTimeout := errors_New (str "HERA-100: backlog timeout").
Definition ErrSaturationKill := errors_New (str "HERA-101: saturation kill").
Definition ErrCrossShardDML := errors_New (str "HERA-200: cross shard dml").
Definition ErrBadShardID := errors_New (str "HERA-201: shard id out of range").
Definition ErrChangeShardIDInTxn := errors_New (str "HERA-203: changing shard_id while in txn").
Definition ErrScuttleMarkdownR := errors_New (str "HERA-204: scuttle/wl markdown for read").
Definition ErrScuttleMarkdownW := errors_New (str "HERA-205: scuttle/wl markdown for write").
Definition ErrBklgEviction := errors_New (str "HERA-102: backlog eviction").
Definition ErrRejectDbDown := errors_New (str "HERA-103: request rejected, database down").
Definition ErrSaturationSoftSQLEviction := errors_New (str "HERA-104: saturation soft sql eviction").
Definition ErrNoShardKey :=
  errors_New (str "HERA-373: no shard key or more than one or bad logical db").
Definition ErrAutodiscoverWhileSetShardID :=
  errors_New (str "HERA-374: autodiscover while set shard id").
Definition ErrCrossKeysDML := errors_New (str "HERA-206: cross key dml").
Definition ErrOther := errors_New (str "HERA-1000: unknown error").

(** The commands of the handshake. *)
Definition CmdServerChallenge : Z := 1001.
Definition CmdServerConnectionAccepted : Z := 1002.
Definition CmdServerConnectionRejectedProtocol : Z := 1003.
Definition CmdServerConnectionRejectedUnknownUser : Z := 1004.
Definition CmdServerConnectionRejectedFailedAuth : Z := 1005.
Definition CmdServerUnexpectedCommand : Z := 1006.
Definition CmdServerInternalError : Z := 1007.
Definition CmdServerPingCommand : Z := 1008.
Definition CmdServerAlive : Z := 1009.
Definition CmdServerConnectionRejectedClientTime : Z := 1010.
Definition CmdServerInfo : Z := 1011.
Definition CmdServerIntInfo : Z := 1012.
Definition CmdClientProtocolNameNoAuth : Z := 2001.
Definition CmdClientProtocolName : Z := 2002.
Definition CmdClientUsername : Z := 2003.
Definition CmdClientChallengeResponse : Z := 2004.
Definition CmdClientCurrentClientTime : Z := 2005.
Definition CmdClientCalCorrelationID : Z := 2006.
Definition CmdProtocolVersion : Z := 2008.

Definition server_commands : list Z := [
  CmdServerChallenge; CmdServerConnectionAccepted; CmdServerConnectionRejectedProtocol;
  CmdServerConnectionRejectedUnknownUser; CmdServerConnectionRejectedFailedAuth; CmdServerUnexpectedCommand;
  CmdServerInternalError; CmdServerPingCommand; CmdServerAlive;
  CmdServerConnectionRejectedClientTime; CmdServerInfo; CmdServerIntInfo;
  CmdClientProtocolNameNoAuth; CmdClientProtocolName; CmdClientUsername;
  CmdClientChallengeResponse; CmdClientCurrentClientTime; CmdClientCalCorrelationID;
  CmdProtocolVersion].

(** The kinds of bind values. *)
Definition DataTypeString : Z := 0.
Definition DataTypeRaw : Z := 3.
Definition DataTypeBlob : Z := 4.
Definition DataTypeClob : Z := 5.
Definition DataTypeTimestamp : Z := 6.
Definition DataTypeTimestampTZ : Z := 7.

Definition data_types : list Z :=
  [DataTypeString; DataTypeRaw; DataTypeBlob; DataTypeClob; DataTypeTimestamp; DataTypeTimestampTZ].

(** The command bytes of the MySQL protocol. *)
Definition COM_SLEEP : Z := 0.
Definition COM_QUIT : Z := 1.
Definition COM_INIT_DB : Z := 2.
Definition COM_QUERY : Z := 3.
Definition COM_FIELD_LIST : Z := 4.
Definition COM_CREATE_DB : Z := 5.
Definition COM_DROP_DB : Z := 6.
Definition COM_REFRESH : Z := 7.
Definition COM_SHUTDOWN : Z := 8.
Definition COM_STATISTICS : Z := 9.
Definition COM_PROCESS_INFO : Z := 10.
Definition COM_CONNECT : Z := 11.
Definition COM_PROCESS_KILL : Z := 12.
Definition COM_DEBUG : Z := 13.
Definition COM_PING : Z := 14.
Definition COM_TIME : Z := 15.
Definition COM_DELAYED_INSERT : Z := 16.
Definition COM_CHANGE_USER : Z := 17.
Definition COM_BINLOG_DUMP : Z := 18.
Definition COM_TABLE_DUMP : Z := 19.
Definition COM_CONNECT_OUT : Z := 20.
Definition COM_REGISTER_SLAVE : Z := 21.
Definition COM_STMT_PREPARE : Z := 22.
Definition COM_STMT_EXECUTE : Z := 23.
Definition COM_STMT_SEND_LONG_DATA : Z := 24.
Definition COM_STMT_CLOSE : Z := 25.
Definition COM_STMT_RESET : Z := 26.
Definition COM_SET_OPTION : Z := 27.
Definition COM_STMT_FETCH : Z := 28.
Definition COM_RESET_CONNECTION : Z := 29.
Definition COM_DAEMON : Z := 30.

(** The names of the command bytes, each at the place of its byte. *)
Definition command_names : list (Z * bytes) := [
  (COM_SLEEP, str "COM_SLEEP"); (COM_QUIT, str "COM_QUIT");
  (COM_INIT_DB, str "COM_INIT_DB"); (COM_QUERY, str "COM_QUERY");
  (COM_FIELD_LIST, str "COM_FIELD_LIST"); (COM_CREATE_DB, str "COM_CREATE_DB");
  (COM_DROP_DB, str "COM_DROP_DB"); (COM_REFRESH, str "COM_REFRESH");
  (COM_SHUTDOWN, str "COM_SHUTDOWN"); (COM_STATISTICS, str "COM_STATISTICS");
  (COM_PROCESS_INFO, str "COM_PROCESS_INFO"); (COM_CONNECT, str "COM_CONNECT");
  (COM_PROCESS_KILL, str "COM_PROCESS_KILL"); (COM_DEBUG, str "COM_DEBUG");
  (COM_PING, str "COM_PING"); (COM_TIME, str "COM_TIME");
  (COM_DELAYED_INSERT, str "COM_DELAYED_INSERT"); (COM_CHANGE_USER, str "COM_CHANGE_USER");
  (COM_BINLOG_DUMP, str "COM_BINLOG_DUMP"); (COM_TABLE_DUMP, str "COM_TABLE_DUMP");
  (COM_CONNECT_OUT, str "COM_CONNECT_OUT"); (COM_REGISTER_SLAVE, str "COM_REGISTER_SLAVE");
  (COM_STMT_PREPARE, str "COM_STMT_PREPARE"); (COM_STMT_EXECUTE, str "COM_STMT_EXECUTE");
  (COM_STMT_SEND_LONG_DATA, str "COM_STMT_SEND_LONG_DATA"); (COM_STMT_CLOSE, str "COM_STMT_CLOSE");
  (COM_STMT_RESET, str "COM_STMT_RESET"); (COM_SET_OPTION, str "COM_SET_OPTION");
  (COM_STMT_FETCH, str "COM_STMT_FETCH"); (COM_RESET_CONNECTION, str "COM_RESET_CONNECTION");
  (COM_DAEMON, str "COM_DAEMON")].

(** [SQLcmds]: the name of a command byte; a byte that is none has the empty name. *)
Definition SQLcmds (cmd : Z) : bytes :=
  match list_find (λ p, p.1 = cmd) command_names with
  | Some (_, (_, name)) => name
  | None => []
  end.

(** The errors a client gets from the proxy itself. *)
Definition client_errors : list go_error := [
  ErrBklgTimeout; ErrSaturationKill; ErrCrossShardDML; ErrBadShardID; ErrChangeShardIDInTxn;
  ErrScuttleMarkdownR; ErrScuttleMarkdownW; ErrBklgEviction; ErrRejectDbDown;
  ErrSaturationSoftSQLEviction; ErrNoShardKey; ErrAutodiscoverWhileSetShardID; ErrCrossKeysDML; ErrOther].

(** [err.Error()] *)
Definition Error_text (e : go_error) : bytes :=
  match e with
  | io_EOF => str "EOF"
  | WRONGPACKET => str "Wrong packet type. Did you mix netstring with mysql?"
  | UNKNOWNPACKET => str "Unknown packet type. Neither netstring nor mysql"
  | errors_New m => m
  end.

(** ** The numbers tell the commands apart *)

Definition return_codes : list Z := [RcSQLError; RcError; RcValue; RcHello; RcOK; RcNoMoreData; RcStillExecuting].

Definition netstring_commands : list Z :=
  [CmdPrepare; CmdBindName; CmdBindValue; CmdExecute; CmdRows; CmdCols; CmdFetch; CmdCommit; CmdRollback; CmdBindType;
   CmdClientInfo; CmdBacktrace; CmdBindOutName; CmdPrepareSpecial; CmdColsInfo; CmdBindNum; CmdBindValueMaxSize;
   CmdPrepareV2; CmdShardKey; CmdGetNumShards; CmdSetShardID].

(** The number of an error: what is between the dash and the colon of its text. *)
Definition error_number (e : go_error) : bytes :=
  let t := Error_text e in
  match list_find (λ c, c = 45) t, list_find (λ c, c = 58) t with
  | Some (i, _), Some (j, _) => take (j - i - 1) (drop (i + 1) t)
  | _, _ => []
  end.

(** No two commands of a netstring have the same number, whether a client or the server
    sends them and whether during or after the handshake; the command bytes of MySQL are
    the numbers below 31, and [SQLcmds] names different ones differently. No two of
    the errors a client gets have the same number. *)
Lemma codes_distinct : NoDup (netstring_commands ++ server_commands) ∧ NoDup return_codes ∧ NoDup data_types ∧
  command_names.*1 = seqZ 0 31 ∧ NoDup (SQLcmds <$> command_names.*1) ∧
  NoDup (error_number <$> client_errors) ∧
  (∀ c, SQLcmds c ≠ [] ↔ 0 <= c < 31).
Proof.
  assert (Hf : Forall (λ c, SQLcmds c ≠ []) (seqZ 0 31)) by (apply (bool_decide_unpack _); vm_compute; exact I).
  split_and!; [apply (bool_decide_unpack _); vm_compute; exact I..|]. intros c. split.
  - unfold SQLcmds. destruct (list_find _ _) as [[i [d n]]|] eqn:E; [|done]. apply list_find_Some in E as (Hi & Hd & _). cbn [fst] in Hd. subst d.
    intros _. change command_names with (command_names) in Hi. assert (c ∈ command_names.*1) as Hc by (apply list_elem_of_fmap; exists (c, n); split; [done|by eapply list_elem_of_lookup_2]).
    change (command_names.*1) with (seqZ 0 31) in Hc. apply elem_of_seqZ in Hc. lia.
  - intros Hc. rewrite Forall_forall in Hf. apply Hf, elem_of_seqZ. lia.
Qed.

End Codes.
