(* ===== verification/Murmur3.v ===== *)
(** * The hash functions of the gateway: Murmur3 (lib/murmur3.go), which maps a
    shard key to its scuttle bucket, and the FNV hash of a SQL text
    (utility/util.go), which the adaptive queue manager and the sharding
    whitelist use as the name of a query. *)

From S2P Require Import Prelude.
From stdpp Require Import base list.
From Stdlib Require Import ZArith Lia.
Open Scope Z_scope.

(** ** Murmur3 *)

Module Murmur3.

Definition c1 : Z := 0xcc9e2d51.
Definition c2 : Z := 0x1b873593.
Definition c3 : Z := 0x85ebca6b.
Definition c4 : Z := 0xc2b2ae35.
Definition r1 : Z := 15.
Definition r2 : Z := 13.
Definition m : Z := 5.
Definition n : Z := 0xe6546b64.
Definition Seed : Z := 0x183d1db4.

(** [(k << r) | (k >> (32 - r))] on a uint32. *)
Definition rotl (k r : Z) : Z := Z.lor (u32 (Z.shiftl k r)) (Z.shiftr k (32 - r)).

(** [key[i]]; the loop and the switch only index below [len(key)]. *)
Definition key_at (key : bytes) (i : nat) : Z := nth i key 0.

(** The first three statements on [k], and on [remainingBytes]. *)
Definition scramble (k : Z) : Z := u32 (rotl (u32 (k * c1)) r1 * c2).

(** One iteration of the block loop on the four bytes of a block. *)
Definition mix_block (hash b0 b1 b2 b3 : Z) : Z :=
  let k := Z.lor (Z.lor (Z.lor b0 (Z.shiftl b1 8)) (Z.shiftl b2 16)) (Z.shiftl b3 24) in
  u32 (rotl (Z.lxor hash (scramble k)) r2 * m + n).

(** The block loop, by index as in the source; returns [iByte] and [hash]. *)
Fixpoint blocks (fuel : nat) (key : bytes) (iByte : nat) (hash : Z) : nat * Z :=
  match fuel with
  | O => (iByte, hash)
  | S fuel =>
    if (iByte + 4 <=? length key)%nat then
      blocks fuel key (iByte + 4)%nat
        (mix_block hash (key_at key iByte) (key_at key (iByte + 1))
           (key_at key (iByte + 2)) (key_at key (iByte + 3)))
    else (iByte, hash)
  end.

(** The switch with its fallthroughs on the [len(key) - iByte] last bytes. *)
Definition tail_bytes (key : bytes) (iByte : nat) (hash : Z) : Z :=
  match (length key - iByte)%nat with
  | 3%nat =>
    let remaining := u32 (Z.shiftl (key_at key (iByte + 2)) 16) in
    let remaining := u32 (remaining + Z.shiftl (key_at key (iByte + 1)) 8) in
    Z.lxor hash (scramble (u32 (remaining + key_at key iByte)))
  | 2%nat =>
    let remaining := u32 (Z.shiftl (key_at key (iByte + 1)) 8) in
    Z.lxor hash (scramble (u32 (remaining + key_at key iByte)))
  | 1%nat => Z.lxor hash (scramble (u32 (key_at key iByte)))
  | _ => hash
  end.

(** The final avalanche. *)
Definition finalize (hash len : Z) : Z :=
  let hash := Z.lxor hash (u32 len) in
  let hash := Z.lxor hash (Z.shiftr hash 16) in
  let hash := u32 (hash * c3) in
  let hash := Z.lxor hash (Z.shiftr hash 13) in
  let hash := u32 (hash * c4) in
  Z.lxor hash (Z.shiftr hash 16).

Definition Murmur3 (key : bytes) : Z :=
  let '(iByte, hash) := blocks (length key) key 0 Seed in
  finalize (tail_bytes key iByte hash) (zlen key).

Lemma Murmur3_nonneg key : 0 <= Murmur3 key.
Proof.
  unfold Murmur3. destruct (blocks _ _ _ _) as [i h]. unfold finalize. cbv zeta.
  apply Z.lxor_nonneg. split; intros _.
  - apply Z.shiftr_nonneg. apply u32_range.
  - apply u32_range.
Qed.

(** *** Reference definition

    MurmurHash3_x86_32 written by recursion on the key, with little-endian
    words as sums. *)

Fixpoint body (key : bytes) (hash : Z) : Z :=
  match key with
  | b0 :: b1 :: b2 :: b3 :: key =>
      body key (u32 (rotl (Z.lxor hash (scramble (le_word [b0; b1; b2; b3]))) r2 * m + n))
  | [] => hash
  | rest => Z.lxor hash (scramble (le_word rest))
  end.

Definition murmur3_ref (key : bytes) : Z := finalize (body key Seed) (zlen key).

(** *** Each mixing step is injective *)

Lemma rotl_sum k r : 0 <= r <= 32 → in_u32 k →
  rotl k r = (k mod 2 ^ (32 - r)) * 2 ^ r + k / 2 ^ (32 - r).
Proof.
  intros Hr Hk. unfold rotl, u32.
  rewrite Z.shiftl_mul_pow2, Z.shiftr_div_pow2 by lia.
  replace (2 ^ 32) with (2 ^ (32 - r) * 2 ^ r) by (rewrite <- Z.pow_add_r by lia; f_equal; lia).
  rewrite Z.mul_mod_distr_r by lia.
  apply lor_shift_add; [lia|]. unfold in_u32 in Hk. split; [apply Z.div_pos; lia|].
  apply Z.div_lt_upper_bound; [lia|].
  rewrite <- Z.pow_add_r by lia. replace (32 - r + r) with 32 by lia. lia.
Qed.

Lemma rotl_range k r : 0 <= r <= 32 → in_u32 k → in_u32 (rotl k r).
Proof.
  intros Hr Hk. apply lor_range; [lia|apply u32_range|].
  rewrite Z.shiftr_div_pow2 by lia. unfold in_u32 in *.
  split; [apply Z.div_pos; lia|]. apply Z.div_lt_upper_bound; [lia|].
  assert (1 <= 2 ^ (32 - r)) by lia. nia.
Qed.

Lemma rotl_inj r k1 k2 : 0 <= r <= 32 → in_u32 k1 → in_u32 k2 → rotl k1 r = rotl k2 r → k1 = k2.
Proof.
  intros Hr H1 H2. rewrite !rotl_sum by done.
  assert (∀ k, in_u32 k → 0 <= k / 2 ^ (32 - r) < 2 ^ r) as Hq.
  { intros k Hk. unfold in_u32 in Hk. split; [apply Z.div_pos; lia|].
    apply Z.div_lt_upper_bound; [lia|].
    rewrite <- Z.pow_add_r by lia. replace (32 - r + r) with 32 by lia. lia. }
  pose proof (Hq k1 H1). pose proof (Hq k2 H2). intros E.
  assert (k1 mod 2 ^ (32 - r) = k2 mod 2 ^ (32 - r) ∧ k1 / 2 ^ (32 - r) = k2 / 2 ^ (32 - r))
    as [Em Ed].
  { assert (k1 mod 2 ^ (32 - r) = k2 mod 2 ^ (32 - r)) by nia. split; lia. }
  rewrite (Z.div_mod k1 (2 ^ (32 - r))), (Z.div_mod k2 (2 ^ (32 - r))) by lia. congruence.
Qed.

(** Multiplication by an odd constant, then adding one, is undone by its inverse. *)
Lemma mul_add_inj c d cinv k1 k2 : (c * cinv) mod 2 ^ 32 = 1 → in_u32 k1 → in_u32 k2 →
  u32 (k1 * c + d) = u32 (k2 * c + d) → k1 = k2.
Proof.
  unfold u32, in_u32. intros Hc H1 H2 E.
  assert (∀ k, in_u32 k → (((k * c + d) mod 2 ^ 32 - d) * cinv) mod 2 ^ 32 = k) as Hinv.
  { intros k Hk. rewrite Z.mul_mod, Zminus_mod_idemp_l, <- Z.mul_mod by lia.
    replace ((k * c + d - d) * cinv) with (k * (c * cinv)) by ring.
    rewrite Z.mul_mod, Hc, Z.mul_1_r, Z.mod_mod by lia. apply Z.mod_small, Hk. }
  rewrite <- (Hinv k1), <- (Hinv k2) by done. by rewrite E.
Qed.

Lemma mul_inj c cinv k1 k2 : (c * cinv) mod 2 ^ 32 = 1 → in_u32 k1 → in_u32 k2 →
  u32 (k1 * c) = u32 (k2 * c) → k1 = k2.
Proof.
  intros Hc H1 H2 E. apply (mul_add_inj c 0 cinv); [done..|]. by rewrite !Z.add_0_r.
Qed.

Lemma xorshift_inj s h1 h2 : 0 < s → 0 <= h1 → 0 <= h2 →
  Z.lxor h1 (Z.shiftr h1 s) = Z.lxor h2 (Z.shiftr h2 s) → h1 = h2.
Proof.
  intros Hs H1 H2 E. apply Z.lxor_eq.
  assert (Z.lxor h1 h2 = Z.shiftr (Z.lxor h1 h2) s) as Hd.
  { apply Z.lxor_eq. rewrite Z.shiftr_lxor. apply (f_equal (λ z, Z.lxor z (Z.lxor h2 (Z.shiftr h2 s)))) in E.
    rewrite Z.lxor_nilpotent in E. rewrite <- E.
    rewrite !Z.lxor_assoc. f_equal. rewrite (Z.lxor_comm h2), !Z.lxor_assoc. f_equal. apply Z.lxor_comm. }
  assert (0 <= Z.lxor h1 h2) by (apply Z.lxor_nonneg; lia).
  rewrite Z.shiftr_div_pow2 in Hd by lia. assert (2 <= 2 ^ s).
  { change 2 with (2 ^ 1) at 1. apply Z.pow_le_mono_r; lia. }
  pose proof (Z.div_mod (Z.lxor h1 h2) (2 ^ s)). pose proof (Z.mod_pos_bound (Z.lxor h1 h2) (2 ^ s)). nia.
Qed.

Lemma lxor_inj_r a b c : Z.lxor a b = Z.lxor a c → b = c.
Proof.
  intros E. apply (f_equal (Z.lxor a)) in E.
  by rewrite <- !Z.lxor_assoc, Z.lxor_nilpotent, !Z.lxor_0_l in E.
Qed.

Lemma lxor_inj_l a b c : Z.lxor b a = Z.lxor c a → b = c.
Proof. rewrite !(Z.lxor_comm _ a). apply lxor_inj_r. Qed.

Lemma scramble_range k : in_u32 (scramble k).
Proof. apply u32_range. Qed.

Lemma scramble_inj k1 k2 : in_u32 k1 → in_u32 k2 → scramble k1 = scramble k2 → k1 = k2.
Proof.
  intros H1 H2 E. apply (mul_inj c1 0xdee13bb1); [done..|].
  apply (rotl_inj r1); [done| apply u32_range..|].
  apply (mul_inj c2 0x56ed309b); [done| | |exact E]; apply rotl_range; done || apply u32_range.
Qed.

Lemma lxor_u32 a b : in_u32 a → in_u32 b → in_u32 (Z.lxor a b).
Proof. apply lxor_range. lia. Qed.

Lemma shiftr_u32 a s : 0 <= s → in_u32 a → in_u32 (Z.shiftr a s).
Proof.
  unfold in_u32. intros Hs Ha. rewrite Z.shiftr_div_pow2 by done.
  assert (1 <= 2 ^ s) by lia. split; [apply Z.div_pos; lia|].
  apply Z.div_lt_upper_bound; nia.
Qed.

#[local] Hint Resolve lxor_u32 shiftr_u32 scramble_range u32_range : hera.
#[local] Hint Extern 1 (0 <= _) => lia : hera.

(** Step of the hash of one word. *)
Definition step (hash k : Z) : Z := u32 (rotl (Z.lxor hash (scramble k)) r2 * m + n).

Lemma step_lxor_inj a b : in_u32 a → in_u32 b →
  u32 (rotl a r2 * m + n) = u32 (rotl b r2 * m + n) → a = b.
Proof.
  intros Ha Hb E. apply (rotl_inj r2); [done..|].
  apply (mul_add_inj m n 0xcccccccd); [done| | |exact E]; by apply rotl_range.
Qed.

Lemma step_inj_hash k h1 h2 : in_u32 h1 → in_u32 h2 → step h1 k = step h2 k → h1 = h2.
Proof.
  intros H1 H2 E. apply (lxor_inj_l (scramble k)). apply step_lxor_inj; auto with hera.
Qed.

Lemma step_inj_word h k1 k2 : in_u32 h → in_u32 k1 → in_u32 k2 → step h k1 = step h k2 → k1 = k2.
Proof.
  intros Hh H1 H2 E. apply scramble_inj; [done..|]. apply (lxor_inj_r h).
  apply step_lxor_inj; auto with hera.
Qed.

Lemma finalize_inj len h1 h2 : in_u32 h1 → in_u32 h2 → finalize h1 len = finalize h2 len → h1 = h2.
Proof.
  intros H1 H2 E. unfold finalize in E.
  apply xorshift_inj in E; [|lia|apply u32_range..].
  apply (mul_inj c4 0x7ed1b41d) in E; [|done|auto 10 with hera..].
  apply xorshift_inj in E; [|lia|apply u32_range..].
  apply (mul_inj c3 0xa5cb9243) in E; [|done| |].
  2,3: apply lxor_u32; [|apply shiftr_u32; [lia|]]; auto with hera.
  apply xorshift_inj in E; [|lia| |].
  2: by destruct (lxor_u32 h1 (u32 len)); auto with hera.
  2: by destruct (lxor_u32 h2 (u32 len)); auto with hera.
  by apply lxor_inj_l in E.
Qed.

(** *** The loop is the reference *)

Lemma mix_block_step h b0 b1 b2 b3 : Forall is_byte [b0; b1; b2; b3] →
  mix_block h b0 b1 b2 b3 = step h (le_word [b0; b1; b2; b3]).
Proof.
  intros HF. rewrite !Forall_cons in HF. destruct HF as (H0 & H1 & H2 & H3 & _).
  unfold is_byte in *. unfold mix_block.
  rewrite (lor_le_word b1), (lor_le_word b2), (lor_le_word b3) by go_lia.
  unfold step. replace (b0 + b1 * 2 ^ 8 + b2 * 2 ^ 16 + b3 * 2 ^ 24)
    with (le_word [b0; b1; b2; b3]); [done|]. unfold le_word; simpl. lia.
Qed.

Lemma key_at_app pre l i : key_at (pre ++ l) (length pre + i) = nth i l 0.
Proof. unfold key_at. rewrite app_nth2 by lia. f_equal. lia. Qed.

Lemma tail_body pre rest h : (length rest < 4)%nat → Forall is_byte rest →
  tail_bytes (pre ++ rest) (length pre) h = body rest h.
Proof.
  intros Hl HF. unfold tail_bytes. rewrite length_app, Nat.add_sub'.
  destruct rest as [|b0 [|b1 [|b2 [|]]]]; simpl in Hl; try lia; [done|..];
    rewrite ?Forall_cons in HF; unfold is_byte in HF; simpl length; cbv iota zeta;
    pose proof (key_at_app pre) as K.
  - specialize (K [b0] 0%nat). rewrite Nat.add_0_r in K. rewrite K. simpl.
    do 2 f_equal. rewrite u32_id by go_lia. lia.
  - pose proof (K [b0; b1] 0%nat) as K0. rewrite Nat.add_0_r in K0. rewrite K0, K. simpl.
    do 2 f_equal. rewrite !Z.shiftl_mul_pow2 by lia. rewrite (u32_id (b1 * 2 ^ 8)) by go_lia.
    rewrite u32_id; go_lia.
  - pose proof (K [b0; b1; b2] 0%nat) as K0. rewrite Nat.add_0_r in K0. rewrite K0, !K. simpl.
    do 2 f_equal. rewrite !Z.shiftl_mul_pow2 by lia. rewrite (u32_id (b2 * 2 ^ 16)) by go_lia.
    rewrite (u32_id (b2 * 2 ^ 16 + _)) by go_lia. rewrite u32_id; go_lia.
Qed.

Lemma blocks_body fuel pre rest h : (length rest <= fuel)%nat → Forall is_byte rest →
  (let '(i, h') := blocks fuel (pre ++ rest) (length pre) h in
   tail_bytes (pre ++ rest) i h') = body rest h.
Proof.
  revert pre rest h. induction fuel as [|fuel IH]; intros pre rest h Hl HF.
  { apply tail_body; [lia|done]. }
  simpl. rewrite length_app.
  destruct (Nat.leb_spec (length pre + 4) (length pre + length rest)).
  - destruct rest as [|b0 [|b1 [|b2 [|b3 rest]]]]; simpl in *; try lia.
    rewrite !key_at_app. pose proof (key_at_app pre (b0 :: b1 :: b2 :: b3 :: rest) 0) as K0.
    rewrite Nat.add_0_r in K0. rewrite K0. simpl.
    replace (pre ++ b0 :: b1 :: b2 :: b3 :: rest) with ((pre ++ [b0; b1; b2; b3]) ++ rest)
      by by rewrite <- app_assoc.
    replace (length pre + 4)%nat with (length (pre ++ [b0; b1; b2; b3])) by (rewrite length_app; done).
    rewrite !Forall_cons in HF. rewrite IH; [|lia|tauto].
    f_equal. apply mix_block_step. rewrite !Forall_cons, Forall_nil. tauto.
  - apply tail_body; [lia|done].
Qed.

Lemma Murmur3_body key : Forall is_byte key → Murmur3 key = finalize (body key Seed) (zlen key).
Proof.
  intros HF. unfold Murmur3. pose proof (blocks_body (length key) [] key Seed) as H.
  simpl in H. destruct (blocks _ _ _ _). rewrite H; done.
Qed.

(** Induction on a key block by block. *)
Lemma blocks_ind (P : bytes → Prop) :
  (∀ rest, (length rest < 4)%nat → P rest) →
  (∀ b0 b1 b2 b3 key, P key → P (b0 :: b1 :: b2 :: b3 :: key)) →
  ∀ key, P key.
Proof.
  intros Hs Hb. fix IH 1.
  intros [|b0 [|b1 [|b2 [|b3 key]]]]; [apply Hs; simpl; lia..|apply Hb, IH].
Qed.

Lemma body_inj key h1 h2 : Forall is_byte key → in_u32 h1 → in_u32 h2 →
  body key h1 = body key h2 → h1 = h2.
Proof.
  revert h1 h2. induction key as [rest Hs|b0 b1 b2 b3 key IH] using blocks_ind; intros h1 h2 HF H1 H2 E.
  - destruct rest as [|b0 [|b1 [|b2 [|]]]]; simpl in Hs; try lia; [done|..];
      by apply lxor_inj_l in E.
  - rewrite !Forall_cons in HF. apply IH in E; [|tauto|apply u32_range..].
    by eapply step_inj_hash in E.
Qed.

Lemma body_app k1 k2 h : (length k1 mod 4 = 0)%nat → body (k1 ++ k2) h = body k2 (body k1 h).
Proof.
  revert h. induction k1 as [rest Hs|b0 b1 b2 b3 key IH] using blocks_ind; intros h Hm.
  - rewrite Nat.mod_small in Hm by done. by destruct rest.
  - simpl. apply IH. change (length _) with (4 + length key)%nat in Hm.
    by rewrite Nat.Div0.add_mod, Nat.Div0.mod_same, Nat.add_0_l, Nat.Div0.mod_mod in Hm.
Qed.

Lemma body_range key h : in_u32 h → Forall is_byte key → in_u32 (body key h).
Proof.
  revert h. induction key as [rest Hs|b0 b1 b2 b3 key IH] using blocks_ind; intros h Hh HF.
  - destruct rest as [|b0 [|b1 [|b2 [|]]]]; simpl in Hs |- *; try lia; auto with hera.
  - rewrite !Forall_cons in HF. apply IH; [apply u32_range|tauto].
Qed.

(** ** Properties *)

(** C37: The index-driven loop with its fall-through switch computes
    MurmurHash3_x86_32: on every byte string [Murmur3] equals the definition by
    recursion on the key with little-endian words. *)
Theorem Murmur3_reference (key : bytes) :
  Forall is_byte key → Murmur3 key = murmur3_ref key.
Proof. apply Murmur3_body. Qed.

Lemma Murmur3_reference_witness :
  Murmur3 [0x9a; 0xbc; 0x78; 0xd5; 0x1d; 0x76; 0xa5] =
  murmur3_ref [0x9a; 0xbc; 0x78; 0xd5; 0x1d; 0x76; 0xa5].
Proof.
  apply (Murmur3_reference [0x9a; 0xbc; 0x78; 0xd5; 0x1d; 0x76; 0xa5]).
  bytes_ok.
Defined.

(** Two keys that agree except in one aligned four-byte word never have the
    same Murmur3 hash; in particular the hash is injective on four-byte keys.
    (Each mixing step is a bijection of uint32.) *)
Theorem Murmur3_word_injective (pre w1 w2 post : bytes) :
  (length pre mod 4 = 0)%nat → length w1 = 4%nat → length w2 = 4%nat →
  Forall is_byte (pre ++ w1 ++ post) → Forall is_byte (pre ++ w2 ++ post) →
  Murmur3 (pre ++ w1 ++ post) = Murmur3 (pre ++ w2 ++ post) → w1 = w2.
Proof.
  intros Hp L1 L2 F1 F2. rewrite !Murmur3_body by done.
  replace (zlen (pre ++ w2 ++ post)) with (zlen (pre ++ w1 ++ post))
    by (rewrite !length_app; lia).
  intros E. apply finalize_inj in E; [|by apply body_range..].
  rewrite !(body_app pre), !(body_app _ post) in E by (done || by rewrite ?L1, ?L2).
  rewrite !Forall_app in F1, F2. destruct F1 as (Fp & F1 & Fq), F2 as (_ & F2 & _).
  assert (in_u32 (body pre Seed)) by by apply body_range.
  apply body_inj in E; [|done|by apply body_range..].
  apply le_word_inj; [lia|done..|].
  pose proof (le_word_range w1 F1) as R1. pose proof (le_word_range w2 F2) as R2.
  rewrite L1 in R1. rewrite L2 in R2.
  destruct w1 as [|? [|? [|? [|? [|]]]]], w2 as [|? [|? [|? [|? [|]]]]]; try done.
  by apply (step_inj_word (body pre Seed)) in E.
Qed.

Lemma Murmur3_word_injective_witness :
  Murmur3 ([1; 2; 3; 4] ++ [5; 6; 7; 8] ++ [9]) ≠ Murmur3 ([1; 2; 3; 4] ++ [5; 6; 7; 9] ++ [9]).
Proof.
  intros E.
  assert ([5; 6; 7; 8] = [5; 6; 7; 9]); [|done].
  apply (Murmur3_word_injective [1; 2; 3; 4] [5; 6; 7; 8] [5; 6; 7; 9] [9]);
    try reflexivity; [bytes_ok..|exact E].
Defined.

(** The vector of lib/murmur3_test.go: the eight little-endian bytes of
    1703900906402232986 fall in bucket 470 of 1024. *)
Example Murmur3_test_vector :
  Murmur3 (map (λ i, (1703900906402232986 / 256 ^ i) mod 256) [0; 1; 2; 3; 4; 5; 6; 7]) mod 1024 = 470.
Proof. vm_compute. reflexivity. Qed.

End Murmur3.

(** ** The FNV hash of a SQL text *)

Module SQLHash.

(** The loop on [sqltext]. *)
Definition fnv_loop (sqltext : bytes) (hash : Z) : Z :=
  fold_left (λ hash c, u64 (Z.lxor hash c * 0x100000001b3)) sqltext hash.

Definition GetSQLHash (sqltext : bytes) : Z :=
  let hash := fnv_loop sqltext 0xcbf29ce484222325 in
  let lo := u32 (Z.land hash 0x00000000ffffffff) in
  let hi := u32 (Z.land (Z.shiftr hash 32) 0x00000000ffffffff) in
  Z.lxor hi lo.

Lemma GetSQLHash_range sqltext : in_u32 (GetSQLHash sqltext).
Proof. apply lxor_range; [lia|apply u32_range..]. Qed.

(** The empty text folds the offset basis onto itself. *)
Example GetSQLHash_empty : GetSQLHash [] = Z.lxor 0xcbf29ce4 0x84222325.
Proof. vm_compute. reflexivity. Qed.

End SQLHash.
