(* ===== verification/RingQueue.v ===== *)
(** * The queue of idle workers (lib/queue.go): a ring buffer with distinct
    elements that doubles when it is full, refined to a duplicate-free list. *)

From S2P Require Import Prelude.
From stdpp Require Import base list gmap.
From Stdlib Require Import ZArith Lia.
Open Scope nat_scope.

(** ** The interface of lib/queue.go and what it promises

    [qrep q l] relates a queue to its elements from front to back. *)
Class Queue (A Q : Type) `{Countable A} := {
  q_new : Q;
  q_len : Q → nat;
  q_push : A → Q → result (Q * bool);
  q_push_front : A → Q → result (Q * bool);
  q_poll : Q → result (Q * option A);
  q_remove : A → Q → result (Q * bool);
  q_for_each_remove : ∀ {S : Type}, (option A → S → bool * S) → Q → S → result (Q * S * nat);
}.

(** The elements [ForEachRemove] keeps, the state of the closure and the count. *)
Fixpoint keep_loop {A S : Type} (f : option A → S → bool * S) (l : list A) (s : S) (cnt : nat)
    : list A * S * nat :=
  match l with
  | [] => ([], s, cnt)
  | x :: l =>
    let '(b, s) := f (Some x) s in
    if b then keep_loop f l s (cnt + 1)
    else let '(l, s, cnt) := keep_loop f l s cnt in (x :: l, s, cnt)
  end.

Class QueueLaws (A Q : Type) `{Queue A Q} (qrep : Q → list A → Prop) := {
  qrep_NoDup q l : qrep q l → NoDup l;
  qrep_new : qrep q_new [];
  qrep_len q l : qrep q l → q_len q = length l;
  qrep_push q l x : qrep q l →
    ∃ q', q_push x q = Ret (q', bool_decide (x ∉ l)) ∧
          qrep q' (if bool_decide (x ∈ l) then l else l ++ [x]);
  qrep_push_front q l x : qrep q l →
    ∃ q', q_push_front x q = Ret (q', bool_decide (x ∉ l)) ∧
          qrep q' (if bool_decide (x ∈ l) then l else x :: l);
  qrep_poll q l : qrep q l →
    ∃ q', q_poll q = Ret (q', head l) ∧ qrep q' (tail l);
  qrep_remove q l x : qrep q l →
    ∃ q', q_remove x q = Ret (q', bool_decide (x ∈ l)) ∧ qrep q' (filter (.≠ x) l);
  qrep_for_each_remove q l (S : Type) (f : option A → S → bool * S) s : qrep q l →
    ∃ q' l' s' cnt, q_for_each_remove f q s = Ret (q', s', cnt) ∧
      keep_loop f l s 0 = (l', s', cnt) ∧ qrep q' l';
}.

(** ** The ring buffer *)

Module RingQueue.
Section ring.
Context {A : Type} `{Countable A}.

(** [data] holds [nil] ([None]) in the slots never written. The three indices
    are Go ints that stay within [0..capacity]. *)
Record ringQueue := mkQueue {
  data : list (option A);
  head : nat;
  tail : nat;
  capacity : nat;
  idmap : gset A
}.

Definition get (d : list (option A)) (pos : nat) : result (option A) :=
  match d !! pos with Some x => Ret x | None => Panic end.

Definition set (d : list (option A)) (pos : nat) (x : option A) : result (list (option A)) :=
  if pos <? length d then Ret (<[pos := x]> d) else Panic.

Definition NewQueue : ringQueue :=
  let capacity := 128 in
  mkQueue (replicate capacity None) 0 0 capacity ∅.

Definition Len (q : ringQueue) : nat :=
  if head q <=? tail q then tail q - head q
  else tail q + capacity q - head q.

(** The copy loop of [double]: [src] is the old array, [dst] the new one. *)
Fixpoint double_loop (fuel : nat) (src : list (option A)) (cap tl : nat)
    (dst : list (option A)) (idxs idxd : nat) : result (list (option A) * nat) :=
  if idxs =? tl then Ret (dst, idxd) else
  match fuel with
  | O => Hang
  | S fuel =>
    x ← get src idxs;
    dst ← set dst idxd x;
    double_loop fuel src cap tl dst ((idxs + 1) mod cap) (idxd + 1)
  end.

Definition double (q : ringQueue) : result ringQueue :=
  let cap := capacity q in
  let cap2 := cap * 2 in
  '(d, idxd) ← double_loop cap (data q) cap (tail q) (replicate cap2 None) (head q) 0;
  Ret (mkQueue d 0 idxd cap2 (idmap q)).

Definition decr (q : ringQueue) (pos : nat) : nat := (pos + capacity q - 1) mod capacity q.
Definition incr (q : ringQueue) (pos : nat) : nat := (pos + 1) mod capacity q.

Definition with_idmap (q : ringQueue) (ids : gset A) : ringQueue :=
  mkQueue (data q) (head q) (tail q) (capacity q) ids.

Definition Push (el : A) (q : ringQueue) : result (ringQueue * bool) :=
  if bool_decide (el ∈ idmap q) then Ret (q, false) else
  let q := with_idmap q ({[el]} ∪ idmap q) in
  q ← (if Len q + 1 =? capacity q then double q else Ret q);
  d ← set (data q) (tail q) (Some el);
  Ret (mkQueue d (head q) (incr q (tail q)) (capacity q) (idmap q), true).

Definition PushFront (el : A) (q : ringQueue) : result (ringQueue * bool) :=
  if bool_decide (el ∈ idmap q) then Ret (q, false) else
  let q := with_idmap q ({[el]} ∪ idmap q) in
  q ← (if Len q + 1 =? capacity q then double q else Ret q);
  let hd := decr q (head q) in
  d ← set (data q) hd (Some el);
  Ret (mkQueue d hd (tail q) (capacity q) (idmap q), true).

(** [delete(q.idmap, el)] for an element that may be nil. *)
Definition unmap (ids : gset A) (el : option A) : gset A :=
  match el with Some x => ids ∖ {[x]} | None => ids end.

Definition Poll (q : ringQueue) : result (ringQueue * option A) :=
  if Len q =? 0 then Ret (q, None) else
  el ← get (data q) (head q);
  Ret (mkQueue (data q) (incr q (head q)) (tail q) (capacity q) (unmap (idmap q) el), el).

(** The shifting loop of [remove]. *)
Fixpoint remove_loop (fuel : nat) (q : ringQueue) (d : list (option A)) (pos next : nat)
    : result (list (option A)) :=
  if next =? tail q then Ret d else
  match fuel with
  | O => Hang
  | S fuel =>
    x ← get d next;
    d ← set d pos x;
    remove_loop fuel q d next (incr q next)
  end.

Definition remove (q : ringQueue) (pos : nat) : result ringQueue :=
  el ← get (data q) pos;
  d ← remove_loop (capacity q) q (data q) pos (incr q pos);
  Ret (mkQueue d (head q) (decr q (tail q)) (capacity q) (unmap (idmap q) el)).

Fixpoint Remove_loop (fuel : nat) (el : A) (q : ringQueue) (pos : nat) : result (ringQueue * bool) :=
  if pos =? tail q then Ret (q, false) else
  match fuel with
  | O => Hang
  | S fuel =>
    x ← get (data q) pos;
    if bool_decide (Some el = x) then q ← remove q pos; Ret (q, true)
    else Remove_loop fuel el q (incr q pos)
  end.

Definition Remove (el : A) (q : ringQueue) : result (ringQueue * bool) :=
  Remove_loop (capacity q) el q (head q).

(** The callback may update the variables its closure captures: [S]. *)
Fixpoint ForEachRemove_loop {S : Type} (fuel : nat) (f : option A → S → bool * S)
    (q : ringQueue) (s : S) (pos cnt : nat) : result (ringQueue * S * nat) :=
  if pos =? tail q then Ret (q, s, cnt) else
  match fuel with
  | O => Hang
  | Datatypes.S fuel =>
    x ← get (data q) pos;
    let '(b, s) := f x s in
    if b then q ← remove q pos; ForEachRemove_loop fuel f q s pos (cnt + 1)
    else ForEachRemove_loop fuel f q s (incr q pos) cnt
  end.

Definition ForEachRemove {S : Type} (f : option A → S → bool * S) (q : ringQueue) (s : S)
    : result (ringQueue * S * nat) :=
  ForEachRemove_loop (capacity q) f q s (head q) 0.

#[global] Instance ring_queue : Queue A ringQueue := {
  q_new := NewQueue;
  q_len := Len;
  q_push := Push;
  q_push_front := PushFront;
  q_poll := Poll;
  q_remove := Remove;
  q_for_each_remove := @ForEachRemove
}.

(** ** Representation *)

(** The array and its indices hold [l]. *)
Record ring_rep (q : ringQueue) (l : list A) : Prop := {
  rep_len_data : length (data q) = capacity q;
  rep_cap : 2 ≤ capacity q;
  rep_head : head q < capacity q;
  rep_room : length l < capacity q;
  rep_tail : tail q = slot (capacity q) (head q) (length l);
  rep_data : ∀ i x, l !! i = Some x → data q !! slot (capacity q) (head q) i = Some (Some x)
}.

Record rep (q : ringQueue) (l : list A) : Prop := {
  rep_ring : ring_rep q l;
  rep_idmap : idmap q = list_to_set l;
  rep_nodup : NoDup l
}.

Lemma get_slot q l i x : ring_rep q l → l !! i = Some x →
  get (data q) (slot (capacity q) (head q) i) = Ret (Some x).
Proof. intros R E. unfold get. by rewrite (rep_data _ _ R i x E). Qed.

Lemma set_ok d pos x : pos < length d → set d pos x = Ret (<[pos := x]> d).
Proof. intros. unfold set. by rewrite (proj2 (Nat.ltb_lt _ _)). Qed.

(** The test [pos != q.tail] tells whether the index is at the end. *)
Lemma at_tail q l i : ring_rep q l → i ≤ length l →
  (slot (capacity q) (head q) i =? tail q) = bool_decide (i = length l).
Proof.
  intros R Hi. rewrite (rep_tail _ _ R). pose proof (rep_room _ _ R).
  case_bool_decide as E; [subst; apply Nat.eqb_refl|].
  apply Nat.eqb_neq. intros ?. apply E, (slot_inj (capacity q) (head q)); try lia. apply R.
Qed.

Lemma Len_rep q l : ring_rep q l → Len q = length l.
Proof.
  intros R. pose proof (rep_room _ _ R). pose proof (rep_head _ _ R). unfold Len.
  rewrite (rep_tail _ _ R), slot_wrap by lia.
  destruct (Nat.ltb_spec (head q + length l) (capacity q)); case_match eqn:E;
    rewrite ?Nat.leb_le, ?Nat.leb_gt in E; lia.
Qed.

Lemma double_loop_rep q l fuel k d : ring_rep q l →
  k ≤ length l → length l - k ≤ fuel → length d = capacity q * 2 →
  (∀ i x, i < k → l !! i = Some x → d !! i = Some (Some x)) →
  ∃ d', double_loop fuel (data q) (capacity q) (tail q) d (slot (capacity q) (head q) k) k
          = Ret (d', length l) ∧ length d' = capacity q * 2 ∧
        (∀ i x, l !! i = Some x → d' !! i = Some (Some x)).
Proof.
  intros R. pose proof (rep_room _ _ R). pose proof (rep_head _ _ R).
  revert k d. induction fuel as [|fuel IH]; intros k d Hk Hf Hd HP; simpl; rewrite (at_tail q l) by done;
    case_bool_decide as E; subst; try lia.
  1,2: exists d; split_and!; [done..|]; intros i x Hi; apply HP; [by apply lookup_lt_Some in Hi|done].
  destruct (lookup_lt_is_Some_2 l k) as [x Hx]; [lia|].
  rewrite (get_slot q l k x) by done. simpl. rewrite set_ok by lia. simpl.
  rewrite slot_succ by lia. apply IH; [lia|lia|by rewrite length_insert|].
  intros i y Hi Hy. destruct (decide (i = k)) as [->|].
  - rewrite list_lookup_insert_eq by lia. congruence.
  - rewrite list_lookup_insert_ne by done. apply HP; [lia|done].
Qed.

Lemma double_rep q l : ring_rep q l →
  ∃ q', double q = Ret q' ∧ ring_rep q' l ∧ idmap q' = idmap q ∧ capacity q' = capacity q * 2.
Proof.
  intros R. pose proof (rep_room _ _ R). pose proof (rep_cap _ _ R).
  destruct (double_loop_rep q l (capacity q) 0 (replicate (capacity q * 2) None) R)
    as (d & E & Hl & HP); [lia|lia|by rewrite length_replicate|lia|].
  unfold double. rewrite slot_0 in E by apply R. rewrite E. simpl.
  eexists; split_and!; [done| |done..].
  split; simpl; [done|lia|lia|lia|by rewrite slot_wrap, (proj2 (Nat.ltb_lt _ _)) by lia|].
  intros i x Hx. pose proof (lookup_lt_Some _ _ _ Hx).
  rewrite slot_wrap, (proj2 (Nat.ltb_lt _ _)) by lia. by apply HP.
Qed.

(** The state after the [Len() + 1 == capacity] test of a push. *)
Lemma room_rep q l : ring_rep q l →
  ∃ q', (if Len q + 1 =? capacity q then double q else Ret q) = Ret q' ∧
    ring_rep q' l ∧ idmap q' = idmap q ∧ length l + 1 < capacity q'.
Proof.
  intros R. pose proof (rep_room _ _ R). rewrite (Len_rep q l R).
  destruct (Nat.eqb_spec (length l + 1) (capacity q)).
  - destruct (double_rep q l R) as (q' & E & R' & Hi & Hc). exists q'. split_and!; try done. lia.
  - exists q. split_and!; try done. lia.
Qed.

Lemma ring_rep_with_idmap q ids l : ring_rep q l → ring_rep (with_idmap q ids) l.
Proof. intros []. by split. Qed.

Lemma push_back_rep q l x : ring_rep q l → length l + 1 < capacity q →
  ∃ d, set (data q) (tail q) (Some x) = Ret d ∧
    ring_rep (mkQueue d (head q) (incr q (tail q)) (capacity q) (idmap q)) (l ++ [x]).
Proof.
  intros R Hr. pose proof (rep_head _ _ R). pose proof (rep_len_data _ _ R).
  assert (tail q < length (data q)) by (rewrite (rep_tail _ _ R), (rep_len_data _ _ R); by apply slot_lt).
  rewrite set_ok by done. eexists; split; [done|]. split; simpl.
  - by rewrite length_insert.
  - apply R.
  - done.
  - rewrite length_app. simpl. lia.
  - unfold incr. rewrite (rep_tail _ _ R), slot_succ, length_app by lia. done.
  - intros i y Hy. rewrite (rep_tail _ _ R) in *. apply lookup_app_Some in Hy as [Hy|[Hi Hy]].
    + pose proof (lookup_lt_Some _ _ _ Hy). rewrite list_lookup_insert_ne; [by apply R|].
      intros E. apply slot_inj in E; lia.
    + apply list_lookup_singleton_Some in Hy as [? <-].
      replace i with (length l) by lia. by rewrite list_lookup_insert_eq.
Qed.

Lemma push_front_rep q l x : ring_rep q l → length l + 1 < capacity q →
  ∃ d, set (data q) (decr q (head q)) (Some x) = Ret d ∧
    ring_rep (mkQueue d (decr q (head q)) (tail q) (capacity q) (idmap q)) (x :: l).
Proof.
  intros R Hr. pose proof (rep_head _ _ R) as Hh. pose proof (rep_len_data _ _ R) as Hd.
  assert (decr q (head q) < capacity q) as Hlt by (apply Nat.mod_upper_bound; lia).
  assert (∀ i, i ≤ length l →
    slot (capacity q) (decr q (head q)) (i + 1) = slot (capacity q) (head q) i) as Hs.
  { intros i Hi. rewrite !slot_wrap by lia. unfold decr.
    destruct (decide (head q = 0)) as [->|].
    - rewrite Nat.mod_small by lia. do 2 case_match; rewrite ?Nat.ltb_lt, ?Nat.ltb_ge in *; lia.
    - replace (head q + capacity q - 1) with (head q - 1 + 1 * capacity q) by lia.
      rewrite Nat.Div0.mod_add, Nat.mod_small by lia.
      do 2 case_match; rewrite ?Nat.ltb_lt, ?Nat.ltb_ge in *; lia. }
  rewrite set_ok by lia. eexists; split; [done|]. split; simpl; try done.
  - by rewrite length_insert.
  - apply R.
  - lia.
  - rewrite (rep_tail _ _ R), <- Nat.add_1_r. symmetry. by apply Hs.
  - intros [|i] y Hy; simpl in Hy; simplify_eq.
    + rewrite slot_0 by done. apply list_lookup_insert_eq. lia.
    + pose proof (lookup_lt_Some _ _ _ Hy). rewrite <- Nat.add_1_r.
      rewrite list_lookup_insert_ne; [rewrite Hs by lia; by apply R|].
      rewrite <- (slot_0 (capacity q) (decr q (head q))) at 1 by done. intros E.
      apply slot_inj in E; lia.
Qed.

(** The shifting loop moves every later element one slot towards the front. *)
Lemma remove_loop_rep q n fuel j d :
  head q < capacity q → n < capacity q → tail q = slot (capacity q) (head q) n →
  length d = capacity q → j < n → n - j ≤ S fuel →
  ∃ d', remove_loop fuel q d (slot (capacity q) (head q) j) (slot (capacity q) (head q) (j + 1)) = Ret d' ∧
    length d' = capacity q ∧
    (∀ i, i < j → d' !! slot (capacity q) (head q) i = d !! slot (capacity q) (head q) i) ∧
    (∀ i, j ≤ i → i < n - 1 → d' !! slot (capacity q) (head q) i = d !! slot (capacity q) (head q) (i + 1)).
Proof.
  intros Hh Hn Ht. set (sl := slot (capacity q) (head q)) in *.
  assert (∀ a b, a < capacity q → b < capacity q → sl a = sl b → a = b) as Hinj
    by (intros; by apply (slot_inj (capacity q) (head q))).
  revert j d. induction fuel as [|fuel IH]; intros j d Hd Hj Hf; simpl;
    destruct (Nat.eqb_spec (sl (j + 1)) (tail q)) as [E|E]; rewrite Ht in E.
  1,3: apply Hinj in E; [|lia..]; exists d; split_and!; [done..|lia].
  { contradict E. f_equal. lia. }
  assert (j + 1 < n) by (destruct (decide (j + 1 = n)); [congruence|lia]).
  assert (∀ i, sl i < length d) as Hb by (intros; rewrite Hd; by apply slot_lt).
  destruct (lookup_lt_is_Some_2 d (sl (j + 1))) as [x Hx]; [auto|].
  unfold get. rewrite Hx. simpl. rewrite set_ok by auto. simpl.
  replace (incr q (sl (j + 1))) with (sl (j + 1 + 1)) by (symmetry; apply slot_succ; lia).
  destruct (IH (j + 1) (<[sl j := x]> d)) as (d' & -> & Hl & H1 & H2);
    [by rewrite length_insert|lia..|].
  exists d'. split_and!; [done|done| |].
  - intros i Hi. rewrite H1 by lia. apply list_lookup_insert_ne. intros ?%Hinj; lia.
  - intros i Hi Hi'. destruct (decide (i = j)) as [->|].
    + rewrite H1 by lia. rewrite list_lookup_insert_eq by auto. congruence.
    + rewrite H2 by lia. apply list_lookup_insert_ne. intros ?%Hinj; lia.
Qed.

Lemma list_delete_set (l : list A) i x : NoDup l → l !! i = Some x →
  list_to_set (delete i l) =@{gset A} list_to_set l ∖ {[x]}.
Proof.
  intros Hn Hx. pose proof (delete_Permutation _ _ _ Hx) as P.
  assert (x ∉ delete i l) as Hd by (rewrite P in Hn; by apply NoDup_cons in Hn as [? _]).
  apply (list_to_set_perm_L (C := gset A)) in P. rewrite P, list_to_set_cons.
  clear - Hd. set_solver.
Qed.

Lemma remove_rep q l k x : rep q l → l !! k = Some x →
  ∃ q', remove q (slot (capacity q) (head q) k) = Ret q' ∧ rep q' (delete k l) ∧
    capacity q' = capacity q ∧ head q' = head q.
Proof.
  intros [R Hid Hnd] Hx. pose proof (lookup_lt_Some _ _ _ Hx).
  pose proof (rep_room _ _ R). pose proof (rep_head _ _ R).
  unfold remove. rewrite (get_slot q l k x) by done. simpl. unfold incr. rewrite slot_succ by lia.
  destruct (remove_loop_rep q (length l) (capacity q) k (data q)) as (d & -> & Hl & Hlo & Hhi);
    [done|done|apply R|apply R|done|lia|]. simpl.
  assert (length (delete k l) = length l - 1) as Hdl by (rewrite length_delete; [lia|eauto]).
  eexists; split_and!; [done| |done..]. split; simpl.
  - split; simpl; try done; [apply R|lia| |].
    + unfold decr. rewrite (rep_tail _ _ R), slot_pred by lia. by rewrite Hdl.
    + intros i y Hy. pose proof (lookup_lt_Some _ _ _ Hy).
      destruct (decide (i < k)).
      * rewrite list_lookup_delete_lt in Hy by done. rewrite Hlo by done. by apply R.
      * rewrite list_lookup_delete_ge in Hy by lia. rewrite Hhi by lia.
        rewrite Nat.add_1_r. by apply R.
  - rewrite Hid. symmetry. by apply list_delete_set.
  - by apply (sublist_NoDup (delete k l) l); [|apply sublist_delete].
Qed.

Lemma filter_ne_notin (l : list A) x : x ∉ l → filter (.≠ x) l = l.
Proof.
  induction l as [|y l IH]; intros Hx; [done|]. apply not_elem_of_cons in Hx as [? ?].
  rewrite filter_cons_True by done. f_equal. auto.
Qed.

Lemma filter_ne_mid (l : list A) i x : NoDup l → l !! i = Some x → filter (.≠ x) l = delete i l.
Proof.
  intros Hn Hx. rewrite <- (take_drop_middle _ _ _ Hx) in Hn |- *.
  pose proof (lookup_lt_Some _ _ _ Hx).
  assert (i = length (take i l)) as Hi by (rewrite length_take; lia).
  rewrite Hi at 3. rewrite delete_middle.
  apply NoDup_app in Hn as (_ & Hd & Hn). apply NoDup_cons in Hn as [Hx2 _].
  rewrite filter_app, filter_cons_False by naive_solver.
  rewrite !filter_ne_notin; [done|done|]. intros Hin. apply (Hd x Hin). left.
Qed.

Lemma Remove_loop_rep fuel el q l k : rep q l → k ≤ length l → length l - k ≤ fuel →
  el ∉ take k l →
  ∃ q', Remove_loop fuel el q (slot (capacity q) (head q) k) = Ret (q', bool_decide (el ∈ l)) ∧
    rep q' (filter (.≠ el) l).
Proof.
  intros R. pose proof (rep_room _ _ (rep_ring _ _ R)). pose proof (rep_head _ _ (rep_ring _ _ R)).
  revert k. induction fuel as [|fuel IH]; intros k Hk Hf Hn; simpl;
    rewrite (at_tail q l) by (apply R || done); destruct (bool_decide_reflect (k = length l)) as [E|E]; subst; try lia.
  1,2: rewrite take_ge in Hn by lia; exists q; rewrite bool_decide_eq_false_2, filter_ne_notin by done; done.
  destruct (lookup_lt_is_Some_2 l k) as [x Hx]; [lia|].
  rewrite (get_slot q l k x) by (apply R || done). simpl.
  destruct (bool_decide_reflect (Some el = Some x)) as [Ex|Ex]; simplify_eq.
  - destruct (remove_rep q l k x R Hx) as (q' & -> & R' & _). simpl. exists q'.
    rewrite bool_decide_eq_true_2 by (by eapply list_elem_of_lookup_2).
    split; [done|]. rewrite (filter_ne_mid l k) by (apply R || done). done.
  - unfold incr. rewrite slot_succ by lia. apply IH; [lia|lia|].
    rewrite Nat.add_1_r, (take_S_r _ _ x) by done. set_solver.
Qed.

Lemma ForEachRemove_loop_rep {S : Type} fuel (f : option A → S → bool * S) q l1 l2 s cnt :
  rep q (l1 ++ l2) → length l2 ≤ fuel →
  ∃ q' l' s' cnt', ForEachRemove_loop fuel f q s (slot (capacity q) (head q) (length l1)) cnt
      = Ret (q', s', cnt') ∧ keep_loop f l2 s cnt = (l', s', cnt') ∧ rep q' (l1 ++ l').
Proof.
  revert q l1 l2 s cnt. induction fuel as [|fuel IH]; intros q l1 l2 s cnt R Hf; simpl;
    pose proof (rep_room _ _ (rep_ring _ _ R)); pose proof (rep_head _ _ (rep_ring _ _ R));
    rewrite length_app in *; rewrite (at_tail q (l1 ++ l2)) by (apply R || rewrite length_app; lia);
    rewrite length_app; case_bool_decide as E; try lia.
  1,2: destruct l2; simpl in E; [|lia]; simpl; by eexists q, [], s, cnt.
  destruct l2 as [|x l2]; simpl in *; [lia|].
  assert ((l1 ++ x :: l2) !! length l1 = Some x) as Hx
    by (rewrite lookup_app_r, Nat.sub_diag by lia; done).
  rewrite (get_slot q _ _ x (rep_ring _ _ R) Hx). simpl. destruct (f (Some x) s) as [[] s1].
  - destruct (remove_rep q _ _ x R Hx) as (q' & -> & R' & Hc & Hh). simpl.
    rewrite delete_middle in R'. rewrite <- Hc, <- Hh. apply IH; [done|lia].
  - unfold incr. rewrite slot_succ by lia.
    destruct (IH q (l1 ++ [x]) l2 s1 cnt) as (q' & l' & s' & c' & E1 & E2 & R'); [|lia|].
    { by rewrite <- app_assoc. }
    rewrite length_app in E1. simpl in E1. rewrite E1, E2.
    exists q', (x :: l'), s', c'. rewrite <- app_assoc in R'. done.
Qed.

Lemma NewQueue_rep : rep NewQueue [].
Proof. split; [split|..]; simpl; try (done || lia || constructor). Qed.

Lemma Push_rep q l x : rep q l →
  ∃ q', Push x q = Ret (q', bool_decide (x ∉ l)) ∧
    rep q' (if bool_decide (x ∈ l) then l else l ++ [x]).
Proof.
  intros [R Hid Hnd]. unfold Push. rewrite Hid.
  rewrite (bool_decide_ext (x ∈ list_to_set l) (x ∈ l)) by apply elem_of_list_to_set.
  destruct (bool_decide_reflect (x ∈ l)) as [Hx|Hx].
  { exists q. rewrite bool_decide_eq_false_2 by tauto. done. }
  rewrite bool_decide_eq_true_2 by done.
  apply (ring_rep_with_idmap q ({[x]} ∪ list_to_set l)) in R.
  destruct (room_rep _ _ R) as (q1 & -> & R1 & Hi1 & Hr). simpl.
  destruct (push_back_rep q1 l x R1 Hr) as (d & -> & R2). simpl. eexists; split; [done|].
  split; simpl; [done| |].
  - rewrite Hi1. simpl. rewrite list_to_set_app_L. set_solver.
  - apply NoDup_app. split_and!; [done|set_solver|apply NoDup_singleton].
Qed.

Lemma PushFront_rep q l x : rep q l →
  ∃ q', PushFront x q = Ret (q', bool_decide (x ∉ l)) ∧
    rep q' (if bool_decide (x ∈ l) then l else x :: l).
Proof.
  intros [R Hid Hnd]. unfold PushFront. rewrite Hid.
  rewrite (bool_decide_ext (x ∈ list_to_set l) (x ∈ l)) by apply elem_of_list_to_set.
  destruct (bool_decide_reflect (x ∈ l)) as [Hx|Hx].
  { exists q. rewrite bool_decide_eq_false_2 by tauto. done. }
  rewrite bool_decide_eq_true_2 by done.
  apply (ring_rep_with_idmap q ({[x]} ∪ list_to_set l)) in R.
  destruct (room_rep _ _ R) as (q1 & -> & R1 & Hi1 & Hr). simpl.
  destruct (push_front_rep q1 l x R1 Hr) as (d & -> & R2). simpl. eexists; split; [done|].
  split; simpl; [done|by rewrite Hi1|by apply NoDup_cons].
Qed.

Lemma Poll_rep q l : rep q l →
  ∃ q', Poll q = Ret (q', hd_error l) ∧ rep q' (tl l).
Proof.
  intros [R Hid Hnd]. unfold Poll. rewrite (Len_rep _ _ R).
  destruct l as [|x l]; simpl; [by exists q|].
  pose proof (rep_head _ _ R). pose proof (rep_room _ _ R) as Hr. simpl in Hr.
  pose proof (get_slot q _ 0 x R eq_refl) as G. rewrite slot_0 in G by done. rewrite G. simpl.
  apply NoDup_cons in Hnd as [Hx Hnd].
  eexists; split; [done|]. split; simpl; [|rewrite Hid; set_solver|done].
  assert (∀ i, i ≤ length l → slot (capacity q) (incr q (head q)) i
    = slot (capacity q) (head q) (S i)) as Hs.
  { intros i Hi. unfold incr. rewrite <- (slot_0 (capacity q) (head q)) at 1 by done.
    rewrite slot_succ by lia. unfold slot. rewrite Nat.Div0.add_mod_idemp_l. f_equal. lia. }
  split; simpl; [apply R|apply R|apply Nat.mod_upper_bound; lia|lia| |].
  - rewrite Hs by lia. apply R.
  - intros i y Hy. pose proof (lookup_lt_Some _ _ _ Hy). rewrite Hs by lia. by apply R.
Qed.

Lemma Remove_rep q l x : rep q l →
  ∃ q', Remove x q = Ret (q', bool_decide (x ∈ l)) ∧ rep q' (filter (.≠ x) l).
Proof.
  intros R. pose proof (rep_room _ _ (rep_ring _ _ R)). unfold Remove.
  rewrite <- (slot_0 (capacity q) (head q)) by apply R.
  apply Remove_loop_rep; [done|lia|lia|]. rewrite take_0. apply not_elem_of_nil.
Qed.

Lemma ForEachRemove_rep q l (S : Type) (f : option A → S → bool * S) s : rep q l →
  ∃ q' l' s' cnt, ForEachRemove f q s = Ret (q', s', cnt) ∧
    keep_loop f l s 0 = (l', s', cnt) ∧ rep q' l'.
Proof.
  intros R. pose proof (rep_room _ _ (rep_ring _ _ R)). unfold ForEachRemove.
  rewrite <- (slot_0 (capacity q) (head q)) by apply R.
  apply (ForEachRemove_loop_rep _ f q [] l); [done|lia].
Qed.

(** The ring buffer keeps the promises of the interface. *)
#[global] Instance ring_queue_laws : QueueLaws A ringQueue rep.
Proof.
  split; eauto using NewQueue_rep, Push_rep, PushFront_rep, Poll_rep, Remove_rep, ForEachRemove_rep.
  - by intros q l [].
  - intros q l [R _ _]. by apply Len_rep.
Qed.

End ring.
End RingQueue.

(** ** Sequences of operations *)

Module QueueOps.

Inductive op (A : Type) : Type :=
  | OPush (x : A)
  | OPushFront (x : A)
  | OPoll
  | ORemove (x : A)
  | OForEachRemove (f : A → bool)
  | OLen.
Arguments OPush {A} _.
Arguments OPushFront {A} _.
Arguments OPoll {A}.
Arguments ORemove {A} _.
Arguments OForEachRemove {A} _.
Arguments OLen {A}.

Inductive obs (A : Type) : Type :=
  | VBool (b : bool)
  | VEl (x : option A)
  | VNat (n : nat).
Arguments VBool {A} _.
Arguments VEl {A} _.
Arguments VNat {A} _.

(** A callback without state of its own; it is never called on nil. *)
Definition callback {A} (f : A → bool) (x : option A) (s : unit) : bool * unit :=
  (match x with Some x => f x | None => false end, s).

Section client.
Context {A Q : Type} `{Queue A Q} {qrep : Q → list A → Prop} `{!QueueLaws A Q qrep}.

(** One call on the implementation. *)
Definition exec (o : op A) (q : Q) : result (Q * obs A) :=
  match o with
  | OPush x => '(q, b) ← q_push x q; Ret (q, VBool b)
  | OPushFront x => '(q, b) ← q_push_front x q; Ret (q, VBool b)
  | OPoll => '(q, x) ← q_poll q; Ret (q, VEl x)
  | ORemove x => '(q, b) ← q_remove x q; Ret (q, VBool b)
  | OForEachRemove f => '(q, _, n) ← q_for_each_remove (callback f) q (); Ret (q, VNat n)
  | OLen => Ret (q, VNat (q_len q))
  end.

(** The same call on a list without duplicates, front first. *)
Definition spec (o : op A) (l : list A) : list A * obs A :=
  match o with
  | OPush x => if decide (x ∈ l) then (l, VBool false) else (l ++ [x], VBool true)
  | OPushFront x => if decide (x ∈ l) then (l, VBool false) else (x :: l, VBool true)
  | OPoll => (tail l, VEl (head l))
  | ORemove x => (filter (.≠ x) l, VBool (bool_decide (x ∈ l)))
  | OForEachRemove f =>
      (filter (λ x, negb (f x)) l, VNat (length (filter (λ x, f x) l)))
  | OLen => (l, VNat (length l))
  end.

Fixpoint exec_all (os : list (op A)) (q : Q) : result (Q * list (obs A)) :=
  match os with
  | [] => Ret (q, [])
  | o :: os => '(q, v) ← exec o q; '(q, vs) ← exec_all os q; Ret (q, v :: vs)
  end.

Fixpoint spec_all (os : list (op A)) (l : list A) : list A * list (obs A) :=
  match os with
  | [] => (l, [])
  | o :: os => let '(l, v) := spec o l in let '(l, vs) := spec_all os l in (l, v :: vs)
  end.

Lemma keep_loop_filter (f : A → bool) l c :
  keep_loop (callback f) l () c
  = (filter (λ x, negb (f x)) l, (), c + length (filter (λ x, f x) l)).
Proof.
  revert c. induction l as [|x l IH]; intros c; simpl; [by rewrite Nat.add_0_r|].
  rewrite !filter_cons. destruct (f x) eqn:E; simpl; rewrite IH; repeat case_decide; simpl; try done.
  f_equal. lia.
Qed.

Lemma exec_spec o q l : qrep q l →
  ∃ q', exec o q = Ret (q', (spec o l).2) ∧ qrep q' (spec o l).1.
Proof.
  intros R. destruct o as [x|x| |x|f|]; simpl.
  - destruct (qrep_push q l x R) as (q' & -> & R'). exists q'. simpl.
    repeat (case_decide || case_bool_decide); done.
  - destruct (qrep_push_front q l x R) as (q' & -> & R'). exists q'. simpl.
    repeat (case_decide || case_bool_decide); done.
  - destruct (qrep_poll q l R) as (q' & -> & R'). by exists q'.
  - destruct (qrep_remove q l x R) as (q' & -> & R'). by exists q'.
  - destruct (qrep_for_each_remove q l unit (callback f) () R) as (q' & l' & [] & n & -> & E & R').
    rewrite keep_loop_filter in E. injection E as <- <-. by exists q'.
  - exists q. by rewrite (qrep_len q l R).
Qed.

Lemma exec_all_spec os q l : qrep q l →
  ∃ q', exec_all os q = Ret (q', (spec_all os l).2) ∧ qrep q' (spec_all os l).1.
Proof.
  revert q l. induction os as [|o os IH]; intros q l R; simpl; [by exists q|].
  destruct (exec_spec o q l R) as (q1 & -> & R1). simpl.
  destruct (spec o l) as [l1 v]. simpl in R1.
  destruct (IH q1 l1 R1) as (q2 & E & R2). rewrite E. simpl.
  destruct (spec_all os l1) as [l2 vs]. by exists q2.
Qed.

End client.

(** C30: refinement. Every sequence of queue operations issued to a new ring
    buffer returns, without a panic and without an unfinished loop, exactly the
    values the same operations return on an empty duplicate-free list; the
    elements stay distinct whatever the wrap-arounds and doublings. *)
Theorem ring_queue_refines_deque {A : Type} `{Countable A} (os : list (op A)) :
  ∃ q', exec_all os (RingQueue.NewQueue (A := A)) = Ret (q', (spec_all os []).2) ∧
        RingQueue.rep q' (spec_all os []).1 ∧ NoDup (spec_all os []).1.
Proof.
  destruct (exec_all_spec (qrep := RingQueue.rep) os RingQueue.NewQueue []) as (q' & E & R);
    [apply RingQueue.NewQueue_rep|].
  exists q'. split_and!; [done..|apply R].
Qed.

(** [ForEachRemove] calls the callback once per element from front to back
    (threading the variables it captures), removes exactly the elements it
    answers true for, keeps the order of the others and returns their number. *)
Theorem ForEachRemove_spec {A S : Type} `{Countable A} (f : option A → S → bool * S)
    (q : RingQueue.ringQueue) (l : list A) (s : S) :
  RingQueue.rep q l →
  ∃ q' l' s' cnt, RingQueue.ForEachRemove f q s = Ret (q', s', cnt) ∧
    keep_loop f l s 0 = (l', s', cnt) ∧ RingQueue.rep q' l'.
Proof. apply RingQueue.ForEachRemove_rep. Qed.

Lemma ForEachRemove_spec_witness :
  ∃ q' l' s' cnt,
    RingQueue.ForEachRemove (A := nat) (λ x s, (bool_decide (x = Some 1), s + 1))
      (RingQueue.mkQueue [Some 2; None; None; Some 1] 3 1 4 {[1; 2]}) 0 = Ret (q', s', cnt) ∧
    keep_loop (A := nat) (λ x s, (bool_decide (x = Some 1), s + 1)) [1; 2] 0 0 = (l', s', cnt) ∧
    RingQueue.rep q' l'.
Proof.
  apply (ForEachRemove_spec (A := nat)). split; [split|..]; simpl; try lia; try done.
  - intros [|[|i]] x Hx; simpl in Hx; by simplify_eq.
  - apply NoDup_cons; split; [set_solver|apply NoDup_singleton].
Defined.

End QueueOps.
