(* ===== verification/CalRing.v ===== *)
(** * The byte ring buffer of the CAL client (cal/calringbuffer.go), refined to
    a bounded first-in first-out byte stream. *)

From S2P Require Import Prelude.
From stdpp Require Import base list.
From Stdlib Require Import ZArith Lia.
Open Scope Z_scope.

Module CalRing.

Record ringBuffer := mkRing {
  mRing : bytes;
  mCapacity : Z;
  mUsed : Z;
  mHead : Z;
  mTail : Z
}.

Definition Clear (rb : ringBuffer) : ringBuffer := mkRing (mRing rb) (mCapacity rb) 0 0 0.

Definition Init (rb : ringBuffer) (size : Z) : result ringBuffer :=
  ring ← make_bytes size;
  Ret (Clear (mkRing ring size (mUsed rb) (mHead rb) (mTail rb))).

Definition Capacity (rb : ringBuffer) : Z := mCapacity rb.
Definition FreeCapacity (rb : ringBuffer) : Z := mCapacity rb - mUsed rb.

(** The recursion of the source, with fuel; a slice has no spare capacity. *)
Fixpoint WriteData_rec (fuel : nat) (rb : ringBuffer) (src : bytes) (size : Z)
    : result (ringBuffer * bool) :=
  match fuel with
  | O => Hang
  | S fuel =>
    if size =? 0 then Ret (rb, true) else
    if FreeCapacity rb <? size then Ret (rb, false) else
    let writeCount := if mCapacity rb - mTail rb <=? size
                      then mCapacity rb - mTail rb else size in
    s ← slice src 0 writeCount;
    ring ← copy_at (mRing rb) (mTail rb) s;
    let tail := mTail rb + writeCount in
    let used := mUsed rb + writeCount in
    let tail := if tail =? mCapacity rb then 0 else tail in
    let rb := mkRing ring (mCapacity rb) used (mHead rb) tail in
    if 0 <? size - writeCount then
      leftover ← slice_from src writeCount;
      WriteData_rec fuel rb leftover (size - writeCount)
    else Ret (rb, true)
  end.

(** One wrap around splits a write in two; the third call is never made. *)
Definition WriteData (rb : ringBuffer) (src : bytes) (size : Z) : result (ringBuffer * bool) :=
  WriteData_rec 3 rb src size.

(** Returns the new contents of [dest]. *)
Definition CopyData (rb : ringBuffer) (dest : bytes) (size : Z) : result (bytes * bool) :=
  if size =? 0 then Ret (dest, true) else
  if mUsed rb <? size then Ret (dest, false) else
  let readCount := if mCapacity rb - mHead rb <=? size
                   then mCapacity rb - mHead rb else size in
  _ ← slice dest 0 readCount;
  s ← slice (mRing rb) (mHead rb) (mHead rb + readCount);
  let dest := overwrite dest 0 s in
  if 0 <? size - readCount then
    s ← slice (mRing rb) 0 (size - readCount);
    dest ← copy_at dest readCount s;
    Ret (dest, true)
  else Ret (dest, true).

Fixpoint RemoveData_rec (fuel : nat) (rb : ringBuffer) (size : Z) : result (ringBuffer * bool) :=
  match fuel with
  | O => Hang
  | S fuel =>
    if size =? 0 then Ret (rb, true) else
    if mUsed rb <? size then Ret (rb, false) else
    let removeCount := if mCapacity rb - mHead rb <=? size
                       then mCapacity rb - mHead rb else size in
    let head := mHead rb + removeCount in
    let used := mUsed rb - removeCount in
    let head := if head =? mCapacity rb then 0 else head in
    let rb := mkRing (mRing rb) (mCapacity rb) used head (mTail rb) in
    if 0 <? size - removeCount then RemoveData_rec fuel rb (size - removeCount)
    else Ret (rb, true)
  end.

Definition RemoveData (rb : ringBuffer) (size : Z) : result (ringBuffer * bool) :=
  RemoveData_rec 3 rb size.

(** ** Representation: the bytes in use, oldest first *)

Record rep (rb : ringBuffer) (h : nat) (l : bytes) : Prop := {
  rep_cap : mCapacity rb = zlen (mRing rb);
  rep_pos : (0 < length (mRing rb))%nat;
  rep_head : mHead rb = Z.of_nat h;
  rep_head_lt : (h < length (mRing rb))%nat;
  rep_used : mUsed rb = zlen l;
  rep_room : (length l <= length (mRing rb))%nat;
  rep_tail : mTail rb = Z.of_nat (slot (length (mRing rb)) h (length l));
  rep_data : ∀ i x, l !! i = Some x → mRing rb !! slot (length (mRing rb)) h i = Some x
}.

Lemma Init_rep rb size : 0 < size → ∃ rb', Init rb size = Ret rb' ∧ rep rb' 0 [] ∧ Capacity rb' = size.
Proof.
  intros Hs. unfold Init, make_bytes. rewrite (proj2 (Z.leb_le _ _)) by lia. simpl.
  eexists. split; [done|]. split; [|done].
  split; simpl; rewrite ?length_replicate; try done; try lia.
  rewrite slot_0 by lia. done.
Qed.

(** The state after one [copy] into the free space up to the end of the ring. *)
Definition write_chunk (rb : ringBuffer) (s : bytes) : ringBuffer :=
  let tail := mTail rb + zlen s in
  mkRing (overwrite (mRing rb) (Z.to_nat (mTail rb)) s) (mCapacity rb) (mUsed rb + zlen s) (mHead rb)
    (if tail =? mCapacity rb then 0 else tail).

Lemma write_chunk_rep rb h l s : rep rb h l →
  zlen s <= FreeCapacity rb → zlen s <= mCapacity rb - mTail rb →
  rep (write_chunk rb s) h (l ++ s).
Proof.
  intros R Hf Ht. pose proof R as [Hc Hp Hh Hhl Hu Hr Htl Hd]. unfold FreeCapacity in Hf.
  unfold write_chunk. rewrite Htl, Nat2Z.id in *.
  set (c := length (mRing rb)) in *. set (t := slot c h (length l)) in *.
  pose proof (slot_lt c h (length l) Hhl) as Hts. fold t in Hts.
  assert (length (overwrite (mRing rb) t s) = c) as Hlen by (apply length_overwrite; lia).
  split; simpl; rewrite ?Hlen, ?length_app; try done; try lia.
  - assert (slot c h (length l + length s) = if decide (t + length s = c)%nat then O else (t + length s)%nat) as ->.
    { subst t. rewrite !slot_wrap in * by lia.
      repeat (case_match || case_decide); rewrite ?Nat.ltb_lt, ?Nat.ltb_ge in *; lia. }
    zb; case_decide; lia.
  - intros i x Hx. rewrite lookup_overwrite by lia. apply lookup_app_Some in Hx as [Hx|[Hi Hx]].
    + pose proof (lookup_lt_Some _ _ _ Hx). rewrite decide_False; [by apply Hd|].
      subst t. rewrite !slot_wrap in * by lia.
      repeat case_match; rewrite ?Nat.ltb_lt, ?Nat.ltb_ge in *; lia.
    + pose proof (lookup_lt_Some _ _ _ Hx).
      assert (slot c h i = t + (i - length l))%nat as ->.
      { subst t. rewrite !slot_wrap in * by lia.
        repeat case_match; rewrite ?Nat.ltb_lt, ?Nat.ltb_ge in *; lia. }
      rewrite decide_True by lia. rewrite <- Hx. f_equal. lia.
Qed.

Lemma slice_prefix (src : bytes) n : 0 <= n <= zlen src →
  slice src 0 n = Ret (take (Z.to_nat n) src).
Proof.
  intros. unfold slice. rewrite !(proj2 (Z.leb_le _ _)) by lia. simpl. by rewrite Z.sub_0_r.
Qed.

Lemma WriteData_step fuel rb h l src size : rep rb h l → 0 < size <= FreeCapacity rb → size <= zlen src →
  let n := Z.min size (mCapacity rb - mTail rb) in
  WriteData_rec (S fuel) rb src size =
    (let rb' := write_chunk rb (take (Z.to_nat n) src) in
     if 0 <? size - n then WriteData_rec fuel rb' (drop (Z.to_nat n) src) (size - n) else Ret (rb', true)) ∧
  0 < n ∧ rep (write_chunk rb (take (Z.to_nat n) src)) h (l ++ take (Z.to_nat n) src).
Proof.
  intros R Hs Hl n. pose proof R as [Hc Hp Hh Hhl Hu Hr Htl Hd].
  pose proof (slot_lt _ h (length l) Hhl) as Hts.
  assert (0 < n) by lia. split_and!; [|done|].
  - simpl. rewrite (proj2 (Z.eqb_neq _ _)), (proj2 (Z.ltb_ge _ _)) by lia.
    replace (if mCapacity rb - mTail rb <=? size then mCapacity rb - mTail rb else size) with n
      by (zb; lia).
    rewrite slice_prefix by lia. simpl. unfold copy_at.
    rewrite !(proj2 (Z.leb_le _ _)) by lia. simpl. unfold write_chunk.
    replace (zlen (take (Z.to_nat n) src)) with n by (rewrite length_take; lia).
    destruct (0 <? size - n) eqn:E; [|done].
    unfold slice_from. by rewrite !(proj2 (Z.leb_le _ _)) by lia.
  - apply write_chunk_rep; [done|rewrite length_take; lia..].
Qed.

Lemma WriteData_rep rb h l src size : rep rb h l → 0 <= size <= zlen src →
  ∃ rb', WriteData rb src size = Ret (rb', size <=? FreeCapacity rb) ∧
    rep rb' h (if size <=? FreeCapacity rb then l ++ take (Z.to_nat size) src else l) ∧
    Capacity rb' = Capacity rb.
Proof.
  intros R Hs. unfold WriteData. destruct (Z.eq_dec size 0) as [->|Hne].
  { pose proof R as []. exists rb. simpl. rewrite (proj2 (Z.leb_le _ _)) by (unfold FreeCapacity; lia).
    by rewrite app_nil_r. }
  destruct (Z.leb_spec size (FreeCapacity rb)) as [Hf|Hf].
  2: { exists rb. simpl. rewrite (proj2 (Z.eqb_neq _ _)), (proj2 (Z.ltb_lt _ _)) by lia. done. }
  destruct (WriteData_step 2 rb h l src size) as (-> & Hn & R1); [done|lia..|].
  set (n := Z.min size (mCapacity rb - mTail rb)) in *. cbv zeta.
  destruct (Z.ltb_spec 0 (size - n)) as [Hm|Hm].
  2: { eexists. split; [done|]. split; [|done]. by replace size with n by lia. }
  set (rb1 := write_chunk rb (take (Z.to_nat n) src)) in *.
  assert (mTail rb1 = 0 ∧ FreeCapacity rb1 = FreeCapacity rb - n) as [Ht1 Hf1].
  { subst rb1. unfold FreeCapacity. simpl. rewrite length_take. zb; lia. }
  destruct (WriteData_step 1 rb1 h (l ++ take (Z.to_nat n) src) (drop (Z.to_nat n) src) (size - n))
    as (-> & _ & R2); [done|lia|rewrite length_drop; lia|].
  assert (mCapacity rb1 = mCapacity rb) as Hc by done.
  pose proof R as [Hcap _ _ _ Hu _ _ _]. unfold FreeCapacity in *.
  rewrite Ht1, Hc, Z.min_l in * by lia. cbv zeta. rewrite (proj2 (Z.ltb_ge _ _)) by lia.
  eexists. split; [done|]. split; [|done].
  rewrite <- app_assoc, take_take_drop in R2.
  by replace (Z.to_nat n + Z.to_nat (size - n))%nat with (Z.to_nat size) in R2 by lia.
Qed.

(** Dropping [n] bytes from the front without passing the end of the ring. *)
Lemma remove_chunk_rep rb h l n : rep rb h l → 0 <= n <= mUsed rb → n <= mCapacity rb - mHead rb →
  let head := mHead rb + n in
  rep (mkRing (mRing rb) (mCapacity rb) (mUsed rb - n) (if head =? mCapacity rb then 0 else head) (mTail rb))
    (slot (length (mRing rb)) h (Z.to_nat n)) (drop (Z.to_nat n) l).
Proof.
  intros R Hn Hc head. pose proof R as [Hcap Hp Hh Hhl Hu Hr Htl Hd].
  set (c := length (mRing rb)) in *.
  assert (∀ i, slot c (slot c h (Z.to_nat n)) i = slot c h (Z.to_nat n + i)) as Hs.
  { intros i. unfold slot. rewrite Nat.Div0.add_mod_idemp_l. f_equal. lia. }
  split; simpl; fold c; rewrite ?length_drop; try done; try lia.
  - subst head. rewrite slot_wrap by lia.
    zb; case_match eqn:E; rewrite ?Nat.ltb_lt, ?Nat.ltb_ge in E; lia.
  - by apply slot_lt.
  - rewrite Hs, Htl. do 2 f_equal. lia.
  - intros i x Hx. rewrite Hs. apply Hd. by rewrite lookup_drop in Hx.
Qed.

Lemma RemoveData_rep rb h l size : rep rb h l → 0 <= size →
  ∃ rb' h', RemoveData rb size = Ret (rb', size <=? zlen l) ∧
    rep rb' h' (if size <=? zlen l then drop (Z.to_nat size) l else l) ∧
    Capacity rb' = Capacity rb.
Proof.
  intros R Hs. pose proof R as [Hcap Hp Hh Hhl Hu Hr Htl Hd]. unfold RemoveData. simpl.
  destruct (Z.eqb_spec size 0) as [->|Hne]; [exists rb, h; by rewrite (proj2 (Z.leb_le _ _)) by lia|].
  rewrite Hu. destruct (Z.leb_spec size (zlen l)) as [Hl|Hl].
  2: { exists rb, h. by rewrite (proj2 (Z.ltb_lt _ _)) by lia. }
  rewrite (proj2 (Z.ltb_ge _ _)) by lia.
  set (n := if mCapacity rb - mHead rb <=? size then mCapacity rb - mHead rb else size).
  assert (n = Z.min size (mCapacity rb - mHead rb)) as Hn by (subst n; zb; lia).
  pose proof (remove_chunk_rep rb h l n R ltac:(lia) ltac:(lia)) as R1. cbv zeta in R1. rewrite Hu in R1.
  destruct (Z.ltb_spec 0 (size - n)) as [Hm|Hm].
  2: { eexists _, _. split; [done|]. replace size with n by lia. by split. }
  rewrite (proj2 (Z.eqb_eq (mHead rb + n) _)) in * by lia. simpl.
  rewrite (proj2 (Z.eqb_neq (size - n) 0)), (proj2 (Z.ltb_ge _ _)) by lia.
  set (n2 := if mCapacity rb - 0 <=? size - n then mCapacity rb - 0 else size - n).
  assert (n2 = size - n) as Hn2 by (subst n2; zb; lia). rewrite Hn2.
  apply (remove_chunk_rep _ _ _ (size - n)) in R1; [|simpl; lia..].
  simpl in R1. rewrite Z.sub_diag. simpl. eexists _, _. split; [done|].
  rewrite drop_drop in R1. replace (Z.to_nat n + Z.to_nat (size - n))%nat with (Z.to_nat size) in R1 by lia.
  split; [exact R1|done].
Qed.

Lemma rep_segment rb h l (i n : nat) : rep rb h l → (i + n <= length l)%nat →
  (slot (length (mRing rb)) h i + n <= length (mRing rb))%nat →
  take n (drop (slot (length (mRing rb)) h i) (mRing rb)) = take n (drop i l).
Proof.
  intros [Hcap Hp Hh Hhl Hu Hr Htl Hd] Hi Hs. apply list_eq. intros j.
  destruct (decide (j < n)%nat).
  - rewrite !lookup_take_lt, !lookup_drop by done.
    destruct (lookup_lt_is_Some_2 l (i + j)) as [x Hx]; [lia|]. rewrite Hx, <- (Hd _ _ Hx). f_equal.
    rewrite !slot_wrap in * by lia. repeat case_match; rewrite ?Nat.ltb_lt, ?Nat.ltb_ge in *; lia.
  - by rewrite !lookup_take_ge by lia.
Qed.

Lemma CopyData_rep rb h l dest size : rep rb h l → 0 <= size <= zlen dest →
  CopyData rb dest size =
    Ret (if size <=? zlen l then take (Z.to_nat size) l ++ drop (Z.to_nat size) dest else dest, size <=? zlen l).
Proof.
  intros R Hs. pose proof R as [Hcap Hp Hh Hhl Hu Hr Htl Hd]. unfold CopyData.
  destruct (Z.eqb_spec size 0) as [->|Hne]; [by rewrite (proj2 (Z.leb_le _ _)) by lia|].
  rewrite Hu. destruct (Z.leb_spec size (zlen l)) as [Hl|Hl]; [|by rewrite (proj2 (Z.ltb_lt _ _)) by lia].
  rewrite (proj2 (Z.ltb_ge _ _)) by lia.
  set (n := if mCapacity rb - mHead rb <=? size then mCapacity rb - mHead rb else size).
  assert (n = Z.min size (mCapacity rb - mHead rb)) as Hn by (subst n; zb; lia).
  assert (slice (mRing rb) (mHead rb) (mHead rb + n) = Ret (take (Z.to_nat n) l)) as Hs1.
  { unfold slice. rewrite !(proj2 (Z.leb_le _ _)) by lia. simpl.
    replace (mHead rb + n - mHead rb) with n by lia. rewrite Hh, Nat2Z.id.
    pose proof (rep_segment rb h l 0 (Z.to_nat n) R) as Hs1. rewrite slot_0, drop_0 in Hs1 by done.
    rewrite Hs1 by lia. done. }
  rewrite (slice_prefix dest) by lia. simpl. rewrite Hs1. simpl.
  destruct (Z.ltb_spec 0 (size - n)) as [Hm|Hm].
  - rewrite slice_prefix by lia. simpl.
    assert (length (overwrite dest 0 (take (Z.to_nat n) l)) = length dest) as Hlo by (apply length_overwrite; lia).
    unfold copy_at. rewrite Hlo, !(proj2 (Z.leb_le _ _)) by lia. simpl. do 2 f_equal.
    pose proof (rep_segment rb h l (Z.to_nat n) (Z.to_nat (size - n)) R) as Hs2.
    assert (slot (length (mRing rb)) h (Z.to_nat n) = 0%nat) as E0.
    { rewrite slot_wrap by lia. case_match eqn:E; rewrite ?Nat.ltb_lt, ?Nat.ltb_ge in E; lia. }
    rewrite E0, drop_0 in Hs2. rewrite Hs2 by lia.
    replace (Z.to_nat size) with (Z.to_nat n + Z.to_nat (size - n))%nat by lia.
    rewrite <- take_take_drop, <- app_assoc.
    rewrite (overwrite_after 0 [] dest) by (rewrite ?length_take; done || lia). simpl. rewrite length_take.
    replace (Z.to_nat n `min` length l)%nat with (Z.to_nat n) by lia.
    rewrite overwrite_after by (rewrite !length_take, ?length_drop; lia).
    rewrite drop_drop. do 3 f_equal. rewrite length_take, length_drop. lia.
  - rewrite (overwrite_after 0 [] dest) by (rewrite ?length_take; done || lia). simpl. rewrite length_take.
    do 2 f_equal. replace size with n by lia. f_equal; f_equal; lia.
Qed.

(** The ring buffer is a bounded FIFO of bytes. [WriteData] appends the
    first [size] bytes when they fit and otherwise changes nothing and answers
    false, whatever the wrap-around. *)
Theorem WriteData_appends (rb : ringBuffer) (h : nat) (l src : bytes) (size : Z) :
  rep rb h l → 0 <= size <= zlen src →
  ∃ rb', WriteData rb src size = Ret (rb', size <=? FreeCapacity rb) ∧
    rep rb' h (if size <=? FreeCapacity rb then l ++ take (Z.to_nat size) src else l) ∧
    Capacity rb' = Capacity rb.
Proof. apply WriteData_rep. Qed.

Lemma WriteData_appends_witness :
  ∃ rb', WriteData (mkRing [10; 11; 12; 13] 4 1 3 0) [1; 2; 3] 3 = Ret (rb', true) ∧
    rep rb' 3 [13; 1; 2; 3] ∧ Capacity rb' = 4.
Proof.
  apply (WriteData_appends (mkRing [10; 11; 12; 13] 4 1 3 0) 3 [13] [1; 2; 3] 3); [|simpl; lia].
  split; simpl; try done; try lia. intros [|i] x Hx; simpl in Hx; by simplify_eq.
Defined.

(** [CopyData] reads the oldest [size] bytes into the front of the
    destination without consuming them, and [RemoveData] drops exactly those
    bytes; both answer false and change nothing when fewer bytes are in use. *)
Theorem CopyData_RemoveData_fifo (rb : ringBuffer) (h : nat) (l dest : bytes) (size : Z) :
  rep rb h l → 0 <= size <= zlen dest →
  CopyData rb dest size =
    Ret (if size <=? zlen l then take (Z.to_nat size) l ++ drop (Z.to_nat size) dest else dest,
         size <=? zlen l) ∧
  ∃ rb' h', RemoveData rb size = Ret (rb', size <=? zlen l) ∧
    rep rb' h' (if size <=? zlen l then drop (Z.to_nat size) l else l) ∧
    Capacity rb' = Capacity rb.
Proof.
  intros R Hs. split; [by apply (CopyData_rep rb h)|]. apply (RemoveData_rep rb h); [done|lia].
Qed.

Lemma CopyData_RemoveData_fifo_witness :
  CopyData (mkRing [10; 11; 12; 13] 4 3 3 2) [0; 0; 9] 2 = Ret ([13; 10; 9], true) ∧
  ∃ rb' h', RemoveData (mkRing [10; 11; 12; 13] 4 3 3 2) 2 = Ret (rb', true) ∧
    rep rb' h' [11] ∧ Capacity rb' = 4.
Proof.
  apply (CopyData_RemoveData_fifo (mkRing [10; 11; 12; 13] 4 3 3 2) 3 [13; 10; 11] [0; 0; 9] 2);
    [|simpl; lia].
  split; simpl; try done; try lia. intros [|[|[|i]]] x Hx; simpl in Hx; by simplify_eq.
Defined.

End CalRing.
