(* ===== verification/Netstring.v ===== *)
(** * The netstring codec (utility/encoding/netstring/netstring.go): encoding,
    decoding from any reader, embedded netstrings and the buffering reader. *)

From S2P Require Import Prelude GoIO.
From stdpp Require Import base list strings.
From Stdlib Require Import ZArith Lia.
Open Scope Z_scope.

(** ** utility/encoding/doc.go *)

Record Packet := mkPacket {
  Cmd : Z;
  Serialized : bytes;
  Payload : bytes;
  Length : Z;
  Sqid : Z;
  IsMySQL : bool
}.

Definition IsComposite (ns : Packet) : bool := Cmd ns =? 48 - 48.

#[export] Instance Packet_eq_dec : EqDecision Packet.
Proof. solve_decision. Defined.

Module Netstring.

Definition colon : byte := 58.
Definition comma : byte := 44.
Definition space : byte := 32.
Definition CodeSubCommand : byte := 48.

(** ** Decoding *)

Section decode.
Context {S : Type} `{!Reader S}.

(** The loop that reads the length: the bytes read so far, the number, and the
    one-byte buffer [tmp], which keeps its value when nothing is read. *)
Fixpoint read_length (fuel : nat) (tmp : byte) (buff : bytes) (length : Z) : io S (bytes * Z) :=
  match fuel with
  | O => lift Hang
  | Datatypes.S fuel =>
    d ← Read 1;
    let b := hd tmp d in
    let buff := buff ++ [b] in
    if b =? colon then mret (buff, length) else
    let digit := u8 (b - 48) in
    if (digit <? 0) || (9 <? digit) then fail (errors_New (str "Expected digit reading length"))
    else read_length fuel b buff (i64 (i64 (length * 10) + digit))
  end.

(** The loop that fills [Serialized]. *)
Fixpoint read_rest (fuel : nat) (ser : bytes) (bytesRead totalLen : Z) : io S bytes :=
  if bytesRead <? totalLen then
    match fuel with
    | O => lift Hang
    | Datatypes.S fuel =>
      dst ← lift (slice_from ser bytesRead);
      d ← Read (zlen dst);
      read_rest fuel (overwrite ser (Z.to_nat bytesRead) d) (bytesRead + zlen d) totalLen
    end
  else mret ser.

(** The loop that reads the command number; returns [Cmd] and [next]. *)
Fixpoint read_command (fuel : nat) (ser : bytes) (next totalLen cmd : Z) : result (Z * Z) :=
  if next <? totalLen then
    match fuel with
    | O => Hang
    | Datatypes.S fuel =>
      b ← index_get ser next;
      if b =? space then Ret (cmd, next + 1) else
      let digit := u8 (b - 48) in
      if (digit <? 0) || (9 <? digit) then Error (errors_New (str "Expected digit reading command"))
      else read_command fuel ser (next + 1) totalLen (i64 (i64 (cmd * 10) + digit))
    end
  else Ret (cmd, next).

(** The allocation of [Serialized] with the indicator byte and the length. *)
Definition new_serialized (totalLen : Z) (buff : bytes) : result bytes :=
  ser ← make_bytes (i64 (totalLen + 1));
  ser ← index_set ser 0 1;
  copy_at ser 1 buff.

(** What follows the indicator byte; the two constructors share this text. *)
Definition parse_netstring : io S Packet := λ s,
  let fuel := Datatypes.S (length (unread s)) in
  ('(buff, length) ← read_length fuel 0 [] 0;
   let totalLen := i64 (length + zlen buff + 1) in
   ser ← lift (new_serialized totalLen buff);
   let bytesRead := zlen buff + 1 in
   ser ← read_rest fuel ser bytesRead totalLen;
   let next := zlen buff + 1 in
   '(cmd, next) ← lift (read_command (Z.to_nat totalLen) ser next totalLen 0);
   payload ← lift (slice ser next totalLen);
   mret (mkPacket cmd ser payload 0 0 false)) s.

End decode.

(** The first request of a connection, without the indicator byte. *)
Definition NewInitNetstring {S} `{!Reader S} : io S Packet := parse_netstring.

(** A new [bufio.Reader] per call: the bytes it has buffered past the netstring
    are dropped with it. A read error other than EOF leaves [ttp] zero. *)
Definition NewNetstring {S} `{!Reader S} : io S Packet := λ s,
  let '(b, r) :=
    (match bufio.ReadByte (bufio.NewReader s) with
     | (b, Error io_EOF) => (b, Error io_EOF)
     | (b, Error _) => (b, Error WRONGPACKET)
     | (b, Ret ttp) =>
         if ttp =? 1 then parse_netstring b
         else if ttp =? 0 then (b, Error WRONGPACKET) else (b, Error UNKNOWNPACKET)
     | (b, Panic) => (b, Panic)
     | (b, Fatal) => (b, Fatal)
     | (b, Hang) => (b, Hang)
     end)
  in (bufio.rd b, r).

(** ** Encoding *)

Definition NewNetstringFrom (cmd : Z) (payload : bytes) : Packet :=
  let payloadLen := zlen payload in
  let cmdStr := itoa cmd in
  let s := if payloadLen =? 0
           then itoa (zlen cmdStr) ++ [colon] ++ cmdStr ++ [comma]
           else itoa (payloadLen + zlen cmdStr + 1) ++ [colon] ++ cmdStr ++ [space] ++ payload ++ [comma] in
  let ser := 1 :: s in
  let totalLen := zlen s in
  mkPacket cmd ser
    (if 0 <? payloadLen
     then take (length payload) (drop (Z.to_nat (totalLen - payloadLen)) ser) else [])
    0 0 false.

(** The copy loop over the embedded netstrings; returns the buffer and [next]. *)
Definition embed_loop (ser : bytes) (next : nat) (nss : list Packet) : bytes * nat :=
  fold_left (λ '(ser, next) i,
    (overwrite ser next (Serialized i), (next + length (Serialized i))%nat)) nss (ser, next).

Definition NewNetstringEmbedded (nss : list Packet) : Packet :=
  let payloadLen := fold_left (λ n i, n + zlen (Serialized i)) nss 0 in
  let lenStr := itoa (payloadLen + 2) ++ [colon] in
  let totalLen := zlen lenStr + payloadLen + 2 + 1 in
  let ser := replicate (Z.to_nat (totalLen + 1)) 0 in
  let ser := <[0%nat := 1]> ser in
  let ser := overwrite ser 1 lenStr in
  let next := (length lenStr + 1)%nat in
  let ser := overwrite ser next [CodeSubCommand; space] in
  let '(ser, next) := embed_loop ser (next + 2)%nat nss in
  let ser := <[next := comma]> ser in
  mkPacket 0 ser
    (take (Z.to_nat payloadLen) (drop (Z.to_nat (totalLen - payloadLen)) ser)) 0 0 false.

(** ** Embedded netstrings *)

(** Every netstring read consumes the reader, so the payload bounds the loop. *)
Fixpoint sub_loop (fuel : nat) (nss : list Packet) : io stream (list Packet) := λ s,
  match fuel with
  | O => (s, Hang)
  | Datatypes.S fuel =>
    match NewNetstring s with
    | (s, Error io_EOF) => (s, Ret nss)
    | (s, Error e) => (s, Error e)
    | (s, Ret ns) => sub_loop fuel (nss ++ [ns]) s
    | (s, Panic) => (s, Panic)
    | (s, Fatal) => (s, Fatal)
    | (s, Hang) => (s, Hang)
    end
  end.

Definition SubNetstrings (ns : Packet) : result (list Packet) :=
  (sub_loop (Datatypes.S (length (Payload ns))) [] (bytes_NewReader (Payload ns))).2.

(** ** The buffering reader *)

Record NSReader := mkNSReader {
  reader : stream;
  ns : option Packet;
  nss : list Packet;
  next : nat
}.

Definition NewNetstringReader (r : stream) : NSReader := mkNSReader r None [] 0.

(** Every further iteration has read a composite netstring from the stream. *)
Fixpoint ReadNext_loop (fuel : nat) : io NSReader Packet := λ r,
  match fuel with
  | O => (r, Hang)
  | Datatypes.S fuel =>
    match ns r with
    | Some p => (mkNSReader (reader r) None (nss r) (next r), Ret p)
    | None =>
      match nss r !! next r with
      | Some p => (mkNSReader (reader r) None (nss r) (next r + 1), Ret p)
      | None =>
        match NewNetstring (reader r) with
        | (s, Ret p) =>
          if Cmd p =? CodeSubCommand - 48 then
            match SubNetstrings p with
            | Ret subs => ReadNext_loop fuel (mkNSReader s None subs 0)
            | Error e => (mkNSReader s (Some p) [] (next r), Error e)
            | Panic => (mkNSReader s (Some p) [] (next r), Panic)
            | Fatal => (mkNSReader s (Some p) [] (next r), Fatal)
            | Hang => (mkNSReader s (Some p) [] (next r), Hang)
            end
          else ReadNext_loop fuel (mkNSReader s (Some p) (nss r) (next r))
        | (s, Error e) => (mkNSReader s None (nss r) (next r), Error e)
        | (s, Panic) => (mkNSReader s None (nss r) (next r), Panic)
        | (s, Fatal) => (mkNSReader s None (nss r) (next r), Fatal)
        | (s, Hang) => (mkNSReader s None (nss r) (next r), Hang)
        end
      end
    end
  end.

Definition ReadNext : io NSReader Packet := λ r,
  ReadNext_loop (length (unread (reader r)) + 2) r.

(** ** The format *)

(** The text between colon and comma for a command given by its digits. *)
Definition body_of (ds payload : bytes) : bytes :=
  match payload with [] => ds | _ => ds ++ space :: payload end.

Definition frame (lenStr body : bytes) : bytes := lenStr ++ colon :: body ++ [comma].

Lemma new_serialized_ok n (buff : bytes) : Z.of_nat n + zlen buff + 1 < 2 ^ 63 →
  new_serialized (Z.of_nat n + zlen buff) buff = Ret ((1 :: buff) ++ replicate n 0).
Proof.
  intros Hn. unfold new_serialized. rewrite i64_id by go_lia.
  unfold make_bytes. rewrite (proj2 (Z.leb_le _ _)) by lia. simpl.
  unfold index_set. rewrite length_replicate, (proj2 (Z.ltb_lt _ _)) by lia.
  replace (Z.to_nat (Z.of_nat n + zlen buff + 1)) with (Datatypes.S (length buff + n)) by lia. simpl.
  unfold copy_at. rewrite length_cons, length_replicate, !(proj2 (Z.leb_le _ _)) by lia. simpl.
  f_equal. change (1 :: replicate (length buff + n) 0) with ([1] ++ replicate (length buff + n) 0).
  rewrite overwrite_after by (rewrite ?length_replicate; simpl; lia).
  rewrite drop_replicate. simpl. do 3 f_equal. lia.
Qed.

(** A writer may put the space also before an empty payload. *)
Definition is_body (ds payload body : bytes) : Prop := body = body_of ds payload ∨ body = ds ++ space :: payload.

Lemma is_body_nil payload body : is_body [] payload body → (body = [] ∧ payload = []) ∨ body = space :: payload.
Proof. intros [-> | ->]; [|by right]. destruct payload; [by left|by right]. Qed.

Lemma is_body_cons d ds payload body : is_body (d :: ds) payload body → ∃ body', body = d :: body' ∧ is_body ds payload body'.
Proof. intros [-> | ->]; [|eexists; split; [done|by right]]. exists (body_of ds payload). split; [by destruct payload|by left]. Qed.

Lemma read_command_ok fuel pre ds payload body tail cmd totalLen :
  Forall is_digit ds → is_body ds payload body → 0 <= cmd → digits_val cmd ds < 2 ^ 63 →
  totalLen = zlen (pre ++ body) → totalLen - zlen pre <= Z.of_nat fuel →
  read_command fuel (pre ++ body ++ tail) (zlen pre) totalLen cmd = Ret (digits_val cmd ds, totalLen - zlen payload).
Proof.
  intros F. revert fuel pre body cmd. induction F as [|d ds Hd F IH]; intros fuel pre body cmd Hb Hc Hv Ht Hf.
  - destruct (is_body_nil _ _ Hb) as [[-> ->]| ->].
    + rewrite app_nil_r in Ht. destruct fuel; cbn [read_command]; rewrite Ht, Z.ltb_irrefl; simpl; do 2 f_equal; lia.
    + rewrite length_app in Ht. simpl in Ht. destruct fuel as [|fuel]; [lia|]. cbn [read_command].
      rewrite (proj2 (Z.ltb_lt _ _)) by lia. simpl. rewrite index_get_mid by done. simpl. do 2 f_equal. lia.
  - destruct (is_body_cons _ _ _ _ Hb) as (body' & -> & Hb'). rewrite length_app in *. simpl in Ht.
    destruct fuel as [|fuel]; [lia|]. cbn [read_command].
    rewrite (proj2 (Z.ltb_lt _ _)) by lia. simpl. rewrite index_get_mid by done. simpl.
    destruct (digit_byte d Hd) as [E ?]. rewrite E.
    rewrite digits_val_cons in Hv. pose proof (digits_val_mono (cmd * 10 + (d - 48)) ds ltac:(lia) F).
    rewrite (proj2 (Z.eqb_neq d space)) by (unfold space, is_digit in *; lia).
    rewrite (proj2 (Z.ltb_ge _ _)), (proj2 (Z.ltb_ge _ _)) by lia. cbn [orb].
    rewrite (i64_id (cmd * 10)), i64_id by go_lia.
    specialize (IH fuel (pre ++ [d]) body' (cmd * 10 + (d - 48))).
    rewrite !length_app, <- app_assoc in IH. simpl in IH.
    replace (zlen pre + 1) with (Z.of_nat (length pre + 1)) by lia. apply IH; [done|lia|done|lia|lia].
Qed.

Lemma stored_prefix hdr body k off : length hdr = off → (length body <= k <= length body + 1)%nat →
  overwrite (hdr ++ replicate (length body + 1) 0) off (take k (body ++ [comma])) =
  hdr ++ body ++ [if decide (k = length body) then 0 else comma].
Proof.
  intros Ho Hk. rewrite overwrite_after; [|done|rewrite length_take, length_app, length_replicate; simpl; lia].
  f_equal. rewrite drop_replicate, length_take, length_app. case_decide.
  - subst k. rewrite take_app_length. simpl. f_equal.
    by replace (length body + 1 - length body `min` (length body + 1))%nat with 1%nat by lia.
  - rewrite take_ge by (rewrite length_app; simpl; lia). simpl.
    replace (length body + 1 - k `min` (length body + 1))%nat with 0%nat by lia. by simplify_list_eq.
Qed.

Lemma body_suffix ds payload body : is_body ds payload body → ∃ pre, body = pre ++ payload.
Proof.
  intros [-> | ->]; [|exists (ds ++ [space]); by rewrite <- app_assoc]. unfold body_of. destruct payload as [|x payload]; [exists ds; by rewrite app_nil_r|].
  exists (ds ++ [space]). by rewrite <- app_assoc.
Qed.

(** ** The decoder on well-formed input *)

Section decode_lemmas.
Context {S : Type} `{!Reader S, !ReaderLaws S}.
Implicit Types s : S.

Lemma read_length_ok fuel ds rest tmp buff len s :
  Forall is_digit ds → unread s = ds ++ colon :: rest → 0 <= len →
  digits_val len ds < 2 ^ 63 → (length ds < fuel)%nat →
  ∃ s', read_length fuel tmp buff len s = (s', Ret (buff ++ ds ++ [colon], digits_val len ds)) ∧
    unread s' = rest ∧ final s' = final s.
Proof.
  intros F. revert fuel tmp buff len s. induction F as [|d ds Hd F IH];
    intros fuel tmp buff len s Hu Hl Hv Hf; (destruct fuel as [|fuel]; [simpl in Hf; lia|]).
  - destruct (Read_byte s colon rest Hu) as (s' & Hr & Hu' & Hfin).
    exists s'. split; [|done]. cbn [read_length]. rewrite (io_bind_Ret _ _ _ _ _ Hr). done.
  - destruct (Read_byte s d (ds ++ colon :: rest) Hu) as (s' & Hr & Hu' & Hfin).
    cbn [read_length]. rewrite (io_bind_Ret _ _ _ _ _ Hr). cbn [hd].
    destruct (digit_byte d Hd) as [E ?]. rewrite E.
    rewrite digits_val_cons in Hv. pose proof (digits_val_mono (len * 10 + (d - 48)) ds ltac:(lia) F).
    rewrite (proj2 (Z.eqb_neq d colon)) by (unfold colon, is_digit in *; lia).
    rewrite (proj2 (Z.ltb_ge _ _)), (proj2 (Z.ltb_ge _ _)) by lia. cbn [orb].
    rewrite (i64_id (len * 10)), i64_id by go_lia.
    destruct (IH fuel d (buff ++ [d]) (len * 10 + (d - 48)) s') as (s2 & E2 & ? & ?);
      [done|lia|done|simpl in Hf; lia|].
    exists s2. rewrite E2, <- app_assoc. split_and!; [done..|congruence].
Qed.

(** The read loop stores a prefix of what was sent that reaches at least the
    byte before the comma. *)
Lemma read_rest_ok fuel ser data rest bytesRead totalLen s :
  zlen ser = totalLen + 1 → 0 <= bytesRead <= totalLen + 1 → zlen data = totalLen + 1 - bytesRead →
  unread s = data ++ rest → totalLen - bytesRead <= Z.of_nat fuel →
  ∃ s' k, read_rest fuel ser bytesRead totalLen s =
      (s', Ret (overwrite ser (Z.to_nat bytesRead) (take k data))) ∧
    totalLen - bytesRead <= Z.of_nat k <= zlen data ∧
    unread s' = drop k data ++ rest ∧ final s' = final s.
Proof.
  revert ser data bytesRead s. induction fuel as [|fuel IH]; intros ser data bytesRead s Hser Hb Hd Hu Hf;
    simpl; destruct (Z.ltb_spec bytesRead totalLen); try lia.
  1,3: exists s, O; split_and!; [by rewrite overwrite_nil|lia|lia|done|done].
  rewrite (io_bind_Ret _ _ s s (drop (Z.to_nat bytesRead) ser)).
  2: { unfold lift, slice_from. by rewrite !(proj2 (Z.leb_le _ _)) by lia. }
  destruct (Read_some (zlen (drop (Z.to_nat bytesRead) ser)) s) as (s1 & d & Hr & Hne & Hl & Hu1 & Hf1);
    [rewrite length_drop; lia|rewrite Hu; destruct data; [simpl in Hd; lia|done]|].
  rewrite (io_bind_Ret _ _ _ _ _ Hr). rewrite length_drop in Hl.
  assert (d = take (length d) data ∧ unread s1 = drop (length d) data ++ rest) as [Hd1 Hu2].
  { rewrite Hu in Hu1. apply (f_equal (take (length d))) in Hu1 as Ht.
    apply (f_equal (drop (length d))) in Hu1.
    rewrite take_app_length, take_app_le in Ht by lia.
    rewrite drop_app_length, drop_app_le in Hu1 by lia. done. }
  assert (0 < length d)%nat by (destruct d; [done|simpl; lia]).
  destruct (IH (overwrite ser (Z.to_nat bytesRead) d) (drop (length d) data) (bytesRead + zlen d) s1)
    as (s2 & k & E & Hk & Hu3 & Hf3);
    [rewrite length_overwrite; lia|lia|rewrite length_drop; lia|done|lia|].
  rewrite length_drop in Hk. exists s2, (length d + k)%nat. rewrite E. split_and!.
  - replace (Z.to_nat (bytesRead + zlen d)) with (Z.to_nat bytesRead + length d)%nat by lia.
    rewrite overwrite_adjacent by (rewrite length_take, length_drop; lia).
    by rewrite <- take_take_drop, <- Hd1.
  - lia.
  - lia.
  - by rewrite Hu3, drop_drop.
  - congruence.
Qed.

(** The part of the decoder after the two read loops. *)
Lemma parse_steps lenStr ds payload body s s1 s2 k : is_body ds payload body →
  let fuel := Datatypes.S (length (unread s)) in
  Forall is_digit ds → digits_val 0 ds < 2 ^ 63 → zlen (frame lenStr body) < 2 ^ 62 →
  (length body <= k <= length body + 1)%nat →
  read_length fuel 0 [] 0 s = (s1, Ret (lenStr ++ [colon], zlen body)) →
  read_rest fuel ((1 :: lenStr ++ [colon]) ++ replicate (length body + 1) 0) (zlen lenStr + 2)
      (zlen lenStr + 2 + zlen body) s1 =
    (s2, Ret (overwrite ((1 :: lenStr ++ [colon]) ++ replicate (length body + 1) 0)
                (Z.to_nat (zlen lenStr + 2)) (take k (body ++ [comma])))) →
  parse_netstring s = (s2, Ret (mkPacket (digits_val 0 ds)
    (1 :: lenStr ++ colon :: body ++ [if decide (k = length body) then 0 else comma]) payload 0 0 false)).
Proof.
  intros Hbody fuel Fd Hv Hsz Hk E1 E2. unfold frame in Hsz.
  rewrite length_app, length_cons, length_app in Hsz. simpl in Hsz.
  set (hdr := 1 :: lenStr ++ [colon]) in *.
  assert (zlen hdr = zlen lenStr + 2) as Hh by (subst hdr; rewrite length_cons, length_app; simpl; lia).
  set (totalLen := zlen lenStr + 2 + zlen body) in *.
  assert (zlen (lenStr ++ [colon]) = zlen lenStr + 1) as Hlc by (rewrite length_app; simpl; lia).
  unfold parse_netstring. fold fuel. rewrite (io_bind_Ret _ _ _ _ _ E1). cbn beta iota zeta. rewrite Hlc.
  replace (zlen body + (zlen lenStr + 1) + 1) with totalLen by lia.
  replace (zlen lenStr + 1 + 1) with (zlen lenStr + 2) by lia.
  rewrite (i64_id totalLen) by (subst totalLen; go_lia).
  rewrite (io_bind_Ret _ _ s1 s1 (hdr ++ replicate (length body + 1) 0)).
  2: { unfold lift. f_equal. subst hdr.
       replace totalLen with (Z.of_nat (length body + 1) + zlen (lenStr ++ [colon])) by lia.
       apply new_serialized_ok. lia. }
  rewrite (io_bind_Ret _ _ _ _ _ E2). clear E1 E2. rewrite stored_prefix by lia.
  set (last := if decide (k = length body) then 0 else comma).
  rewrite (io_bind_Ret _ _ s2 s2 (digits_val 0 ds, totalLen - zlen payload)).
  2: { unfold lift. f_equal. replace (zlen lenStr + 2) with (zlen hdr) by lia.
       apply read_command_ok; [done|done|lia|done|rewrite (length_app hdr body); lia|lia]. }
  destruct (body_suffix ds payload body Hbody) as [pre Hpre].
  rewrite (io_bind_Ret _ _ s2 s2 payload).
  2: { unfold lift. f_equal.
       replace (hdr ++ body ++ [last]) with ((hdr ++ pre) ++ payload ++ [last]) by (rewrite Hpre; by simplify_list_eq).
       subst totalLen. rewrite Hpre in *. rewrite !length_app in *. apply slice_mid; rewrite length_app; lia. }
  subst hdr. by simplify_list_eq.
Qed.

(** A netstring is decoded whatever the chunks it arrives in; the comma may be
    left unread, and is then missing from [Serialized]. *)
Lemma parse_body_ok lenStr ds payload body rest s : is_body ds payload body →
  Forall is_digit lenStr → Forall is_digit ds →
  digits_val 0 lenStr = zlen (body) → digits_val 0 ds < 2 ^ 63 →
  zlen (frame lenStr (body)) < 2 ^ 62 →
  unread s = frame lenStr (body) ++ rest →
  ∃ s' last, parse_netstring s =
      (s', Ret (mkPacket (digits_val 0 ds) (1 :: lenStr ++ colon :: body ++ [last]) payload 0 0 false)) ∧
    final s' = final s ∧
    (last = comma ∧ unread s' = rest ∨ last = 0 ∧ unread s' = comma :: rest).
Proof.
  intros Hb Fl Fd Hl Hv Hsz Hu. pose proof (parse_steps lenStr ds payload body s) as Hps. simpl in Hps. unfold frame in *.
  set (fuel := Datatypes.S (length (unread s))) in *.
  assert (length (unread s) = length lenStr + 1 + length body + 1 + length rest)%nat as Hlu.
  { rewrite Hu. repeat rewrite ?length_app, ?length_cons. simpl. lia. }
  assert (zlen body < 2 ^ 62) by (rewrite !length_app, length_cons, length_app in Hsz; lia).
  destruct (read_length_ok fuel lenStr (body ++ [comma] ++ rest) 0 [] 0 s) as (s1 & E1 & Hu1 & Hf1);
    [done|rewrite Hu; simplify_list_eq; done|lia|lia|lia|].
  destruct (read_rest_ok fuel ((1 :: lenStr ++ [colon]) ++ replicate (length body + 1) 0) (body ++ [comma]) rest
    (zlen lenStr + 2) (zlen lenStr + 2 + zlen body) s1) as (s2 & k & E2 & Hk & Hu2 & Hf2);
    [repeat rewrite ?length_app, ?length_cons, ?length_replicate; simpl; lia|lia|rewrite length_app; simpl; lia
    |rewrite Hu1; by simplify_list_eq|subst fuel; lia|].
  rewrite length_app in Hk. simpl in Hk. rewrite Hl in E1.
  exists s2, (if decide (k = length body) then 0 else comma).
  split; [apply (Hps s1 s2 k); [done|done|done|done|lia|exact E1|exact E2]|]. split; [congruence|].
  rewrite Hu2. case_decide.
  - right. subst k. by rewrite drop_app_length.
  - left. by rewrite drop_ge by (rewrite length_app; simpl; lia).
Qed.

Lemma parse_ok lenStr ds payload rest s :
  Forall is_digit lenStr → Forall is_digit ds →
  digits_val 0 lenStr = zlen (body_of ds payload) → digits_val 0 ds < 2 ^ 63 →
  zlen (frame lenStr (body_of ds payload)) < 2 ^ 62 →
  unread s = frame lenStr (body_of ds payload) ++ rest →
  ∃ s' last, parse_netstring s =
      (s', Ret (mkPacket (digits_val 0 ds) (1 :: lenStr ++ colon :: body_of ds payload ++ [last]) payload 0 0 false)) ∧
    final s' = final s ∧
    (last = comma ∧ unread s' = rest ∨ last = 0 ∧ unread s' = comma :: rest).
Proof. apply parse_body_ok. by left. Qed.

End decode_lemmas.

(** ** The decoder on a netstring that is entirely in the buffer *)

Section buffered.
Context {R : Type} `{!Reader R}.
Implicit Types r : R.

Lemma buf_Read n (l : bytes) r : 0 < n → l ≠ [] →
  Read n (bufio.mk l r) = (bufio.mk (drop (Z.to_nat n) l) r, Ret (take (Z.to_nat n) l)).
Proof. by destruct l. Qed.

Lemma read_length_buf fuel ds rest tmp buff len r :
  Forall is_digit ds → 0 <= len → digits_val len ds < 2 ^ 63 → (length ds < fuel)%nat →
  read_length fuel tmp buff len (bufio.mk (ds ++ colon :: rest) r) =
    (bufio.mk rest r, Ret (buff ++ ds ++ [colon], digits_val len ds)).
Proof.
  intros F. revert fuel tmp buff len. induction F as [|d ds Hd F IH];
    intros fuel tmp buff len Hl Hv Hf; (destruct fuel as [|fuel]; [simpl in Hf; lia|]); cbn [read_length].
  - rewrite (io_bind_Ret _ _ _ (bufio.mk rest r) [colon]) by done. done.
  - rewrite (io_bind_Ret _ _ _ (bufio.mk (ds ++ colon :: rest) r) [d]) by done. cbn [hd].
    destruct (digit_byte d Hd) as [E ?]. rewrite E.
    rewrite digits_val_cons in Hv. pose proof (digits_val_mono (len * 10 + (d - 48)) ds ltac:(lia) F).
    rewrite (proj2 (Z.eqb_neq d colon)) by (unfold colon, is_digit in *; lia).
    rewrite (proj2 (Z.ltb_ge _ _)), (proj2 (Z.ltb_ge _ _)) by lia. cbn [orb].
    rewrite (i64_id (len * 10)), i64_id by go_lia.
    rewrite IH; [|lia|done|simpl in Hf; lia]. by rewrite <- app_assoc.
Qed.

Lemma read_rest_buf fuel ser data rest bytesRead totalLen r :
  zlen ser = totalLen + 1 → 0 <= bytesRead < totalLen → zlen data = totalLen + 1 - bytesRead →
  read_rest (Datatypes.S fuel) ser bytesRead totalLen (bufio.mk (data ++ rest) r) =
    (bufio.mk rest r, Ret (overwrite ser (Z.to_nat bytesRead) data)).
Proof.
  intros Hs Hb Hd. cbn [read_rest]. rewrite (proj2 (Z.ltb_lt bytesRead totalLen)) by lia.
  rewrite (io_bind_Ret _ _ (bufio.mk (data ++ rest) r) (bufio.mk (data ++ rest) r) (drop (Z.to_nat bytesRead) ser)).
  2: { unfold lift, slice_from. by rewrite !(proj2 (Z.leb_le _ _)) by lia. }
  rewrite (io_bind_Ret _ _ (bufio.mk (data ++ rest) r) (bufio.mk rest r) data).
  2: { rewrite buf_Read; [|rewrite length_drop; lia|destruct data; [simpl in Hd; lia|done]].
       replace (Z.to_nat _) with (length data) by (rewrite length_drop; lia).
       by rewrite take_app_length, drop_app_length. }
  destruct fuel; cbn [read_rest]; by rewrite (proj2 (Z.ltb_ge _ _)) by lia.
Qed.

Lemma parse_buf lenStr ds payload rest r :
  Forall is_digit lenStr → Forall is_digit ds → body_of ds payload ≠ [] →
  digits_val 0 lenStr = zlen (body_of ds payload) → digits_val 0 ds < 2 ^ 63 →
  zlen (frame lenStr (body_of ds payload)) < 2 ^ 62 →
  parse_netstring (bufio.mk (frame lenStr (body_of ds payload) ++ rest) r) =
    (bufio.mk rest r, Ret (mkPacket (digits_val 0 ds) (1 :: frame lenStr (body_of ds payload)) payload 0 0 false)).
Proof.
  intros Fl Fd Hne Hl Hv Hsz.
  pose proof (parse_steps lenStr ds payload (body_of ds payload)
    (bufio.mk (lenStr ++ colon :: (body_of ds payload ++ [comma]) ++ rest) r)) as Hps.
  cbv zeta in Hps. set (body := body_of ds payload) in *.
  assert (0 < length body)%nat by (destruct body; [done|simpl; lia]).
  replace (frame lenStr body ++ rest) with (lenStr ++ colon :: (body ++ [comma]) ++ rest)
    by (unfold frame; by simplify_list_eq).
  rewrite (Hps (bufio.mk ((body ++ [comma]) ++ rest) r) (bufio.mk rest r) (length body + 1)%nat);
    [|by left|done|done|done|lia| |].
  - by rewrite decide_False by lia.
  - rewrite read_length_buf, Hl; [done|done|lia| |].
    + unfold frame in Hsz. rewrite length_app, length_cons, length_app in Hsz. lia.
    + unfold unread; simpl. rewrite !length_app. simpl. lia.
  - rewrite (read_rest_buf _ _ (body ++ [comma]) rest).
    + by rewrite take_ge by (rewrite length_app; simpl; lia).
    + repeat rewrite ?length_app, ?length_cons, ?length_replicate. simpl. lia.
    + lia.
    + rewrite length_app. simpl. lia.
Qed.

End buffered.

(** ** The encoders produce the format *)

Lemma From_Serialized cmd payload :
  Serialized (NewNetstringFrom cmd payload) =
  1 :: frame (itoa (zlen (body_of (itoa cmd) payload))) (body_of (itoa cmd) payload).
Proof.
  unfold NewNetstringFrom, body_of, frame. simpl Serialized. destruct payload as [|x payload]; [done|].
  rewrite (proj2 (Z.eqb_neq _ _)) by (simpl; lia). f_equal. rewrite length_app. simplify_list_eq.
  do 2 f_equal. lia.
Qed.

Lemma length_From cmd payload : 0 <= cmd < 2 ^ 63 → zlen payload < 2 ^ 62 →
  zlen (Serialized (NewNetstringFrom cmd payload)) <= zlen payload + 130.
Proof.
  intros Hc Hp. rewrite From_Serialized. pose proof (length_itoa cmd Hc).
  assert (Hb : zlen (body_of (itoa cmd) payload) <= zlen payload + 64) by (unfold body_of; destruct payload; rewrite ?length_app; cbn [length] in *; lia).
  pose proof (length_itoa (zlen (body_of (itoa cmd) payload)) ltac:(lia)). unfold frame.
  cbn [length]. rewrite length_app. cbn [length]. rewrite length_app. cbn [length]. lia.
Qed.

Lemma From_Payload cmd payload : Payload (NewNetstringFrom cmd payload) = payload.
Proof.
  unfold NewNetstringFrom. simpl Payload. destruct payload as [|x payload]; [done|].
  rewrite (proj2 (Z.ltb_lt _ _)), (proj2 (Z.eqb_neq _ _)) by (simpl; lia).
  set (p := x :: payload). set (pre := 1 :: itoa (zlen p + zlen (itoa cmd) + 1) ++ [colon] ++ itoa cmd ++ [space]).
  replace (1 :: _ ++ _) with (pre ++ p ++ [comma]) by (subst pre; by simplify_list_eq).
  rewrite drop_app_length'; [by rewrite take_app_length|].
  subst pre. repeat rewrite ?length_app, ?length_cons. simpl. lia.
Qed.

Lemma frame_ok cmd payload : 0 <= cmd < 2 ^ 63 →
  let body := body_of (itoa cmd) payload in
  Forall is_digit (itoa (zlen body)) ∧ Forall is_digit (itoa cmd) ∧ body ≠ [] ∧
  digits_val 0 (itoa (zlen body)) = zlen body ∧ digits_val 0 (itoa cmd) = cmd.
Proof.
  intros Hc body. destruct (itoa_spec cmd) as (F & Hne & V); [lia|].
  destruct (itoa_spec (zlen body)) as (F2 & Hne2 & V2); [lia|].
  split_and!; try done. subst body. unfold body_of. destruct payload, (itoa cmd); done.
Qed.

(** The decoded packet is the encoded one. *)
Lemma From_eta cmd payload :
  NewNetstringFrom cmd payload =
  mkPacket cmd (Serialized (NewNetstringFrom cmd payload)) payload 0 0 false.
Proof. rewrite <- (From_Payload cmd payload) at 3. done. Qed.

Lemma fold_len (l : list Packet) n :
  fold_left (λ n i, n + zlen (Serialized i)) l n = n + zlen (concat (map Serialized l)).
Proof.
  revert n. induction l as [|p l IH]; intros n; simpl; [lia|]. rewrite IH, length_app. lia.
Qed.

Lemma embed_loop_ok (l : list Packet) pre tail : (length (concat (map Serialized l)) <= length tail)%nat →
  embed_loop (pre ++ tail) (length pre) l =
  (pre ++ concat (map Serialized l) ++ drop (length (concat (map Serialized l))) tail,
   length (pre ++ concat (map Serialized l))).
Proof.
  unfold embed_loop. revert pre tail. induction l as [|p l IH]; intros pre tail Hl; simpl in *.
  - by rewrite app_nil_r.
  - rewrite length_app in Hl. rewrite overwrite_after by (done || lia).
    rewrite app_assoc, <- length_app, IH by (rewrite length_drop; lia).
    rewrite drop_drop, (length_app (Serialized p)), <- !app_assoc. done.
Qed.

Lemma Embedded_eq l :
  let payload := concat (map Serialized l) in
  NewNetstringEmbedded l =
  mkPacket 0 (1 :: frame (itoa (zlen payload + 2)) (48 :: space :: payload)) payload 0 0 false.
Proof.
  intros payload. unfold NewNetstringEmbedded. rewrite fold_len. fold payload. cbv zeta.
  rewrite Z.add_0_l. set (lenStr := itoa (zlen payload + 2) ++ [colon]).
  set (hdr := 1 :: lenStr ++ [48; space]).
  replace (Z.to_nat (zlen lenStr + zlen payload + 2 + 1 + 1))
    with (Datatypes.S (length lenStr + (2 + (length payload + 1)))) by lia.
  cbn [replicate insert list_insert].
  rewrite replicate_add.
  change (1 :: replicate (length lenStr) 0 ++ ?l) with ([1] ++ replicate (length lenStr) 0 ++ l).
  rewrite (overwrite_after 1 [1]), drop_app_length' by
    (rewrite ?length_app, ?length_replicate; simpl; lia).
  rewrite replicate_add. replace ([1] ++ lenStr ++ replicate 2 0 ++ replicate (length payload + 1) 0)
    with ((1 :: lenStr) ++ replicate 2 0 ++ replicate (length payload + 1) 0) by done.
  rewrite (overwrite_after _ (1 :: lenStr)) by (simpl; lia). cbn [replicate app length drop]. rewrite drop_0.
  replace (1 :: lenStr ++ CodeSubCommand :: space :: replicate (length payload + 1) 0)
    with (hdr ++ replicate (length payload + 1) 0) by (subst hdr; by simplify_list_eq).
  replace (length lenStr + 1 + 2)%nat with (length hdr) by (subst hdr; rewrite length_cons, length_app; simpl; lia).
  rewrite embed_loop_ok by (rewrite length_replicate; fold payload; lia). fold payload.
  rewrite drop_replicate. replace (length payload + 1 - length payload)%nat with 1%nat by lia.
  rewrite app_assoc, <- (Nat.add_0_r (length (hdr ++ payload))), insert_app_r. cbn [replicate insert list_insert].
  rewrite <- app_assoc. f_equal.
  - subst hdr lenStr. unfold frame. by simplify_list_eq.
  - rewrite drop_app_length'.
    + rewrite Nat2Z.id. by rewrite take_app_length.
    + subst hdr. rewrite length_cons, length_app. simpl. lia.
Qed.

(** ** Properties *)

Lemma NewNetstring_From_ok {S : Type} `{!Reader S, !ReaderLaws S} (s : S) (cmd : Z) (payload rest : bytes) :
  0 <= cmd < 2 ^ 63 → zlen (Serialized (NewNetstringFrom cmd payload)) < 2 ^ 62 →
  unread s = Serialized (NewNetstringFrom cmd payload) ++ rest →
  ∃ s' p, NewNetstring s = (s', Ret p) ∧ Cmd p = cmd ∧ Payload p = payload ∧ IsMySQL p = false.
Proof.
  intros Hc Hsz Hu. rewrite From_Serialized in *. rewrite length_cons in Hsz.
  destruct (frame_ok cmd payload Hc) as (Fl & Fd & Hne & Vl & Vd).
  set (b0 := bufio.NewReader s).
  destruct (bufio.ReadByte_some b0 1 (frame (itoa (zlen (body_of (itoa cmd) payload))) (body_of (itoa cmd) payload) ++ rest))
    as (b1 & E1 & Hu1 & _); [done|].
  destruct (parse_ok _ (itoa cmd) payload rest b1 Fl Fd Vl) as (b2 & last & E2 & _ & _);
    [lia|lia|done|].
  unfold NewNetstring. fold b0. rewrite E1. cbn [Z.eqb Pos.eqb]. rewrite E2.
  eexists _, _. split; [done|]. by rewrite Vd.
Qed.

(** C31: a netstring produced by [NewNetstringFrom] is decoded by [NewNetstring] to
    its command and payload from every reader that delivers it, however the
    bytes are split into reads and whatever follows. *)
Theorem NewNetstring_From_roundtrip {S : Type} `{!Reader S, !ReaderLaws S} (s : S) (cmd : Z) (payload rest : bytes) :
  0 <= cmd < 2 ^ 63 → zlen (Serialized (NewNetstringFrom cmd payload)) < 2 ^ 62 →
  unread s = Serialized (NewNetstringFrom cmd payload) ++ rest →
  ∃ s' p, NewNetstring s = (s', Ret p) ∧ Cmd p = cmd ∧ Payload p = payload ∧ IsMySQL p = false.
Proof. apply NewNetstring_From_ok. Qed.

Lemma NewNetstring_From_roundtrip_witness :
  ∃ s' p, NewNetstring (mkStream [[1; 53]; [58; 53; 48]; [50; 32]; [48; 44; 7]] io_EOF) = (s', Ret p) ∧
    Cmd p = 502 ∧ Payload p = [48] ∧ IsMySQL p = false.
Proof.
  apply (NewNetstring_From_roundtrip (mkStream [[1; 53]; [58; 53; 48]; [50; 32]; [48; 44; 7]] io_EOF) 502 [48] [7]);
    [lia|vm_compute; reflexivity|vm_compute; reflexivity].
Defined.

Lemma NewNetstring_in_chunk cmd payload rest cs e :
  0 <= cmd < 2 ^ 63 → zlen (Serialized (NewNetstringFrom cmd payload) ++ rest) <= 4096 →
  NewNetstring (mkStream ((Serialized (NewNetstringFrom cmd payload) ++ rest) :: cs) e) =
    (mkStream cs e, Ret (NewNetstringFrom cmd payload)).
Proof.
  intros Hc Hsz. rewrite From_Serialized in *. rewrite (From_eta cmd payload), From_Serialized.
  destruct (frame_ok cmd payload Hc) as (Fl & Fd & Hne & Vl & Vd).
  set (body := body_of (itoa cmd) payload) in *. set (fr := frame (itoa (zlen body)) body) in *.
  unfold NewNetstring.
  assert (bufio.ReadByte (bufio.NewReader (mkStream (((1 :: fr) ++ rest) :: cs) e)) =
    (bufio.mk (fr ++ rest) (mkStream cs e), Ret 1)) as ->.
  { unfold bufio.ReadByte, Read; simpl. unfold stream_Read. simpl chunks.
    destruct (Z.to_nat bufio.defaultBufSize) as [|n] eqn:En; [by vm_compute in En|].
    assert (Z.of_nat (Datatypes.S n) = 4096) by (rewrite <- En; reflexivity).
    assert (length ((1%Z :: fr) ++ rest) <= Datatypes.S n)%nat as Hn by lia.
    simpl in Hn. cbn [read_chunks app]. rewrite drop_ge, take_ge by (simpl; lia). done. }
  cbn [Z.eqb Pos.eqb]. subst fr body.
  rewrite parse_buf; [|done|done|done|done|lia|].
  - by rewrite Vd.
  - rewrite length_app, length_cons in Hsz. lia.
Qed.

(** When a netstring and the bytes that follow it are delivered by one read of
    at most 4096 bytes, [NewNetstring] returns exactly the encoded packet, and
    the bytes that follow are gone: the stream continues with the next read,
    because the buffer of the call is dropped with them. *)
Theorem NewNetstring_drops_pipelined (cmd : Z) (payload rest : bytes) (cs : list bytes) (e : go_error) :
  0 <= cmd < 2 ^ 63 → zlen (Serialized (NewNetstringFrom cmd payload) ++ rest) <= 4096 →
  NewNetstring (mkStream ((Serialized (NewNetstringFrom cmd payload) ++ rest) :: cs) e) =
    (mkStream cs e, Ret (NewNetstringFrom cmd payload)).
Proof. apply NewNetstring_in_chunk. Qed.

Lemma NewNetstring_drops_pipelined_witness :
  NewNetstring (mkStream [Serialized (NewNetstringFrom 502 [48]) ++ [1; 49; 58; 53; 44]] io_EOF) =
    (mkStream [] io_EOF, Ret (NewNetstringFrom 502 [48])).
Proof.
  apply (NewNetstring_drops_pipelined 502 [48] [1; 49; 58; 53; 44] [] io_EOF); [lia|].
  vm_compute. discriminate.
Defined.

(** A composite netstring is decoded to command 0 and to the concatenation of
    the netstrings it embeds, from every reader that delivers it. *)
Theorem NewNetstring_Embedded_roundtrip {S : Type} `{!Reader S, !ReaderLaws S} (s : S) (l : list Packet) (rest : bytes) :
  concat (map Serialized l) ≠ [] → zlen (Serialized (NewNetstringEmbedded l)) < 2 ^ 62 →
  unread s = Serialized (NewNetstringEmbedded l) ++ rest →
  ∃ s' p, NewNetstring s = (s', Ret p) ∧ IsComposite p = true ∧
    Payload p = concat (map Serialized l) ∧ Payload p = Payload (NewNetstringEmbedded l).
Proof.
  intros Hne Hsz Hu. rewrite Embedded_eq in *. simpl Serialized in *. simpl Payload.
  set (payload := concat (map Serialized l)) in *.
  assert (48 :: space :: payload = body_of [48] payload) as Hb by by destruct payload.
  destruct (itoa_spec (zlen payload + 2)) as (Fl & _ & Vl); [lia|].
  rewrite Hb in *. rewrite length_cons in Hsz. set (b0 := bufio.NewReader s).
  destruct (bufio.ReadByte_some b0 1 (frame (itoa (zlen payload + 2)) (body_of [48] payload) ++ rest))
    as (b1 & E1 & Hu1 & _); [done|].
  destruct (parse_ok _ [48] payload rest b1 Fl) as (b2 & last & E2 & _ & _);
    [apply Forall_cons; split; [unfold is_digit; lia|apply Forall_nil_2]|rewrite Vl, <- Hb; simpl; lia
    |vm_compute; reflexivity|lia|done|].
  unfold NewNetstring. fold b0. rewrite E1. cbn [Z.eqb Pos.eqb]. rewrite E2. by eexists _, _.
Qed.

Lemma NewNetstring_Embedded_roundtrip_witness :
  let l := [NewNetstringFrom 502 [97; 98; 99]; NewNetstringFrom 5 []] in
  ∃ s' p, NewNetstring (bytes_NewReader (Serialized (NewNetstringEmbedded l))) = (s', Ret p) ∧
    IsComposite p = true ∧ Payload p = concat (map Serialized l) ∧ Payload p = Payload (NewNetstringEmbedded l).
Proof.
  apply (NewNetstring_Embedded_roundtrip
    (bytes_NewReader (Serialized (NewNetstringEmbedded [NewNetstringFrom 502 [97; 98; 99]; NewNetstringFrom 5 []])))
    [NewNetstringFrom 502 [97; 98; 99]; NewNetstringFrom 5 []] []);
    [discriminate|vm_compute; reflexivity|vm_compute; reflexivity].
Defined.

(** [SubNetstrings] of a composite netstring whose payload fits the 4096-byte
    buffer returns only the first embedded netstring: the buffer of the first
    decode swallows the others and is dropped. *)
Theorem SubNetstrings_first_only (cmd : Z) (payload : bytes) (l : list Packet) :
  0 <= cmd < 2 ^ 63 → zlen (Payload (NewNetstringEmbedded (NewNetstringFrom cmd payload :: l))) <= 4096 →
  SubNetstrings (NewNetstringEmbedded (NewNetstringFrom cmd payload :: l)) = Ret [NewNetstringFrom cmd payload].
Proof.
  intros Hc Hsz. rewrite Embedded_eq in *. unfold SubNetstrings. cbn [Payload map concat] in *.
  set (ser := Serialized (NewNetstringFrom cmd payload) ++ concat (map Serialized l)) in *.
  assert (∃ m, length ser = Datatypes.S m) as [m Hm].
  { subst ser. rewrite From_Serialized. by eexists. }
  rewrite Hm. cbn [sub_loop]. unfold bytes_NewReader. subst ser.
  by rewrite NewNetstring_in_chunk by done.
Qed.

Lemma SubNetstrings_first_only_witness :
  SubNetstrings (NewNetstringEmbedded [NewNetstringFrom 502 [97]; NewNetstringFrom 5 []; NewNetstringFrom 25 [98]])
  = Ret [NewNetstringFrom 502 [97]].
Proof.
  apply (SubNetstrings_first_only 502 [97] [NewNetstringFrom 5 []; NewNetstringFrom 25 [98]]);
    [lia|vm_compute; discriminate].
Defined.

(** ** Termination *)

Section termination.
Context {S : Type} `{!Reader S, !ReaderLaws S}.
Implicit Types s : S.

(** The call returns, and never un-reads. *)
Definition tame {A} s (x : S * result A) : Prop :=
  x.2 ≠ Hang ∧ (length (unread x.1) <= length (unread s))%nat.

Lemma tame_lift {A} s (r : result A) : r ≠ Hang → tame s (lift r s).
Proof. by split. Qed.

Lemma tame_bind {A B} (m : io S A) (f : A → io S B) s :
  tame s (m s) → (∀ a s', m s = (s', Ret a) → tame s' (f a s')) → tame s ((m ≫= f) s).
Proof.
  intros [Hh Hl] Hf. unfold mbind, io_bind. destruct (m s) as [s' []]; simpl in *; try by split.
  destruct (Hf a s' eq_refl). split; [done|lia].
Qed.

Lemma tame_Read n s : 0 < n → tame s (Read n s).
Proof.
  intros Hn. destruct (unread s) as [|b l] eqn:E.
  - destruct (Read_end n s) as (s' & -> & Hu & _); [done..|]. split; simpl; [done|]. rewrite Hu. simpl. lia.
  - destruct (Read_some n s) as (s' & d & -> & _ & _ & Hu & _); [done|by rewrite E|].
    split; simpl; [done|]. rewrite Hu, length_app. lia.
Qed.

Lemma Read_consumes n s s' d : 0 < n → Read n s = (s', Ret d) →
  (length (unread s') < length (unread s))%nat.
Proof.
  intros Hn E. destruct (unread s) as [|b l] eqn:Eu.
  - destruct (Read_end n s) as (? & E' & _); [done..|]. congruence.
  - destruct (Read_some n s) as (s2 & d2 & E' & Hd & _ & Hu & _); [done|by rewrite Eu|].
    rewrite E' in E. simplify_eq. rewrite <- Eu, Hu, length_app. destruct d; [done|simpl; lia].
Qed.

Lemma tame_read_length fuel tmp buff len s : (length (unread s) < fuel)%nat →
  tame s (read_length fuel tmp buff len s).
Proof.
  revert tmp buff len s. induction fuel as [|fuel IH]; intros tmp buff len s Hf; [lia|].
  cbn [read_length]. apply tame_bind; [by apply tame_Read|]. intros d s' E.
  apply Read_consumes in E; [|done]. cbv zeta.
  destruct (hd tmp d =? colon); [by split|]. destruct (_ || _); [by split|]. apply IH. lia.
Qed.

Lemma tame_read_rest fuel ser bytesRead totalLen s : (length (unread s) < fuel)%nat →
  zlen ser = totalLen + 1 → 0 <= bytesRead → tame s (read_rest fuel ser bytesRead totalLen s).
Proof.
  revert ser bytesRead s. induction fuel as [|fuel IH]; intros ser bytesRead s Hf Hs Hb; [lia|].
  cbn [read_rest]. destruct (Z.ltb_spec bytesRead totalLen); [|by split].
  apply tame_bind; [apply tame_lift; unfold slice_from; by destruct (_ && _)|].
  intros dst s1 E1. unfold lift, slice_from in E1.
  rewrite !(proj2 (Z.leb_le _ _)) in E1 by lia. simplify_eq/=.
  assert (0 < zlen (drop (Z.to_nat bytesRead) ser)) by (rewrite length_drop; lia).
  apply tame_bind; [by apply tame_Read|]. intros d s2 E2. apply Read_consumes in E2; [|done].
  apply IH; [lia|rewrite length_overwrite; lia|lia].
Qed.

Lemma read_command_returns fuel ser next totalLen cmd : totalLen - next <= Z.of_nat fuel →
  read_command fuel ser next totalLen cmd ≠ Hang.
Proof.
  revert next cmd. induction fuel as [|fuel IH]; intros next cmd Hf; cbn [read_command];
    destruct (Z.ltb_spec next totalLen); try done; [lia|].
  unfold index_get. destruct (0 <=? next); [|done]. destruct (ser !! Z.to_nat next); [|done]. simpl.
  destruct (_ =? space); [done|]. destruct (_ || _); [done|]. apply IH. lia.
Qed.

Lemma new_serialized_cases totalLen buff :
  new_serialized totalLen buff = Panic ∨
  ∃ ser, new_serialized totalLen buff = Ret ser ∧ zlen ser = i64 (totalLen + 1) ∧ 0 < i64 (totalLen + 1).
Proof.
  unfold new_serialized, make_bytes. destruct (Z.leb_spec 0 (i64 (totalLen + 1))); [|by left]. simpl.
  unfold index_set. rewrite length_replicate. destruct (_ && _) eqn:E; [|by left]. simpl.
  apply andb_prop in E as [_ E%Z.ltb_lt]. unfold copy_at. rewrite length_insert, length_replicate.
  destruct (_ && _) eqn:E2; [|by left]. right. eexists. split; [done|].
  apply andb_prop in E2 as [_ E2%Z.leb_le].
  rewrite length_overwrite; rewrite length_insert, length_replicate; lia.
Qed.

Lemma tame_parse s : tame s (parse_netstring s).
Proof.
  unfold parse_netstring. remember (Datatypes.S (length (unread s))) as fuel eqn:Hfuel.
  apply tame_bind; [apply tame_read_length; lia|]. intros [buff len] s1 E1.
  pose proof (tame_read_length fuel 0 [] 0 s) as [_ Hl]; [lia|].
  rewrite E1 in Hl. simpl in Hl. cbv zeta. set (totalLen := i64 (len + zlen buff + 1)).
  destruct (new_serialized_cases totalLen buff) as [E2|(ser & E2 & Hs & Hp)].
  { apply tame_bind; [by apply tame_lift; rewrite E2|]. unfold lift. intros; congruence. }
  assert (i64 (totalLen + 1) = totalLen + 1) as Hi.
  { destruct (Z.eq_dec totalLen (2 ^ 63 - 1)) as [E|E]; [by rewrite E in Hp|].
    apply i64_id. pose proof (i64_range (len + zlen buff + 1)). fold totalLen in H. go_lia. }
  apply tame_bind; [by apply tame_lift; rewrite E2|]. intros ser' s1' E. unfold lift in E.
  rewrite E2 in E. injection E as <- <-.
  apply tame_bind; [apply tame_read_rest; lia|]. intros ser2 s2 E3.
  apply tame_bind; [apply tame_lift, read_command_returns; lia|]. intros [cmd nx] s3 E4.
  apply tame_bind; [apply tame_lift; unfold slice; by destruct (_ && _)|]. intros; by split.
Qed.

End termination.

Lemma NewNetstring_tame {S : Type} `{!Reader S, !ReaderLaws S} (s : S) : tame s (NewNetstring s) ∧
  (∀ s' p, NewNetstring s = (s', Ret p) → (length (unread s') < length (unread s))%nat).
Proof.
  unfold NewNetstring. set (b0 := bufio.NewReader s).
  assert (unread b0 = unread s) as Hb by done.
  assert (∀ b : bufio.t S, (length (unread (bufio.rd b)) <= length (unread b))%nat) as Hrd
    by (intros b; unfold unread at 2; simpl; rewrite length_app; lia).
  destruct (unread s) as [|c l] eqn:E.
  - destruct (bufio.ReadByte_end b0 Hb) as (b1 & -> & Hu).
    specialize (Hrd b1). rewrite Hu in Hrd. unfold tame. rewrite E. by destruct (final b0).
  - destruct (bufio.ReadByte_some b0 c l Hb) as (b1 & -> & Hu & _). pose proof (Hrd b1) as Hrd1.
    rewrite Hu in Hrd1. unfold tame. rewrite E. simpl. destruct (c =? 1).
    + destruct (tame_parse b1) as [Hh Hl]. destruct (parse_netstring b1) as [b2 r] eqn:Ep. simpl in *.
      specialize (Hrd b2). rewrite Hu in Hl. split; [split; [done|simpl; lia]|].
      intros s' p ?. simplify_eq. lia.
    + destruct (c =? 0); (split; [split; simpl; [done|lia]|done]).
Qed.

Lemma sub_loop_returns fuel nss s : (length (unread s) < fuel)%nat → (sub_loop fuel nss s).2 ≠ Hang.
Proof.
  revert nss s. induction fuel as [|fuel IH]; intros nss s Hf; [lia|]. cbn [sub_loop].
  destruct (NewNetstring_tame s) as [[Hh Hl] Hr]. destruct (NewNetstring s) as [s' []]; simpl in *; try done.
  - apply IH. specialize (Hr s' a eq_refl). lia.
  - by destruct e.
Qed.

Lemma SubNetstrings_returns p : SubNetstrings p ≠ Hang.
Proof.
  apply sub_loop_returns. unfold unread; simpl. rewrite app_nil_r. lia.
Qed.

Lemma ReadNext_loop_returns fuel r : (length (unread (reader r)) + 1 < fuel)%nat →
  (ReadNext_loop fuel r).2 ≠ Hang.
Proof.
  revert r. induction fuel as [|fuel IH]; intros r Hf; [lia|]. cbn [ReadNext_loop].
  destruct (ns r); [done|]. destruct (nss r !! next r); [done|].
  destruct (NewNetstring_tame (reader r)) as [[Hh Hl] Hr].
  destruct (NewNetstring (reader r)) as [s' []]; simpl in Hh; try done.
  specialize (Hr s' a eq_refl). destruct (_ =? _).
  - pose proof (SubNetstrings_returns a). destruct (SubNetstrings a); try done. apply IH. cbn [reader]. lia.
  - apply IH. cbn [reader]. lia.
Qed.

(** ** What is left to read *)

Lemma read_rest_consumes {S : Type} `{!Reader S, !ReaderLaws S} fuel ser bytesRead totalLen (s s' : S) ser' :
  zlen ser = totalLen + 1 → 0 <= bytesRead → read_rest fuel ser bytesRead totalLen s = (s', Ret ser') →
  totalLen - bytesRead + zlen (unread s') <= zlen (unread s) ∧ zlen ser' = totalLen + 1.
Proof.
  revert ser bytesRead s. induction fuel as [|fuel IH]; intros ser bytesRead s Hs Hb; cbn [read_rest];
    destruct (Z.ltb_spec bytesRead totalLen); try done; try (intros [= <- <-]; split; [lia|done]).
  intros (s1 & dst & E1 & E)%io_bind_inv. unfold lift, slice_from in E1.
  rewrite !(proj2 (Z.leb_le _ _)) in E1 by lia. simplify_eq/=.
  assert (0 < zlen (drop (Z.to_nat bytesRead) ser)) as Hd by (rewrite length_drop; lia).
  apply io_bind_inv in E as (s2 & d & E2 & E). 
  destruct (unread s1) as [|b l] eqn:Eu.
  { destruct (Read_end (zlen (drop (Z.to_nat bytesRead) ser)) s1) as (? & E' & _); [done..|]. congruence. }
  destruct (Read_some (zlen (drop (Z.to_nat bytesRead) ser)) s1) as (s3 & d3 & E' & _ & _ & Hu & _); [done|by rewrite Eu|].
  rewrite E' in E2. simplify_eq. apply IH in E; [|rewrite length_overwrite; lia|lia].
  rewrite <- Eu, Hu, length_app. lia.
Qed.

Lemma read_command_next fuel ser next totalLen cmd cmd' next' :
  read_command fuel ser next totalLen cmd = Ret (cmd', next') → next <= next'.
Proof.
  revert next cmd. induction fuel as [|fuel IH]; intros next cmd; cbn [read_command];
    destruct (Z.ltb_spec next totalLen); try done; try (intros [= _ <-]; lia).
  unfold index_get. destruct (0 <=? next); [|done]. destruct (ser !! Z.to_nat next); [|done]. simpl.
  destruct (_ =? space); [intros [= _ <-]; lia|]. destruct (_ || _); [done|]. intros E%IH. lia.
Qed.

(** The payload was read from the stream. *)
Lemma parse_consumes {S : Type} `{!Reader S, !ReaderLaws S} (s s' : S) p :
  parse_netstring s = (s', Ret p) → zlen (Payload p) + zlen (unread s') <= zlen (unread s).
Proof.
  unfold parse_netstring. set (fuel := Datatypes.S _).
  intros (s1 & [buff len] & E1 & E)%io_bind_inv. pose proof (tame_read_length fuel 0 [] 0 s ltac:(lia)) as [_ Hl].
  rewrite E1 in Hl. cbn [fst] in Hl. cbv zeta in E. set (totalLen := i64 (len + zlen buff + 1)) in E.
  apply io_bind_inv in E as (s2 & ser & E2 & E). unfold lift in E2.
  destruct (new_serialized_cases totalLen buff) as [En|(ser' & En & Hs & Hp)]; rewrite En in E2; simplify_eq.
  assert (i64 (totalLen + 1) = totalLen + 1) as Hi.
  { destruct (Z.eq_dec totalLen (2 ^ 63 - 1)) as [Et|Et]; [by rewrite Et in Hp|].
    apply i64_id. pose proof (i64_range (len + zlen buff + 1)). fold totalLen in H. go_lia. }
  apply io_bind_inv in E as (s3 & ser2 & E3 & E). apply read_rest_consumes in E3 as [Hr Hs2]; [|lia|lia].
  apply io_bind_inv in E as (s4 & [cmd nx] & E4 & E). unfold lift in E4. simplify_eq.
  destruct (read_command _ _ _ _ _) as [[]| | | |] eqn:Ec; simplify_eq. apply read_command_next in Ec.
  apply io_bind_inv in E as (s5 & payload & E5 & E). unfold lift, slice in E5.
  destruct (_ && _) eqn:Eb; simplify_eq. unfold mret, io_ret in E. simplify_eq. cbn [Payload].
  rewrite length_take, length_drop. lia.
Qed.

Lemma NewNetstring_consumes {S : Type} `{!Reader S, !ReaderLaws S} (s s' : S) p :
  NewNetstring s = (s', Ret p) → (length (Payload p) + length (unread s') < length (unread s))%nat.
Proof.
  unfold NewNetstring. set (b0 := bufio.NewReader s). assert (unread b0 = unread s) as Hb by done.
  destruct (unread s) as [|c l] eqn:E.
  { destruct (bufio.ReadByte_end b0 Hb) as (b1 & -> & _). by destruct (final b0). }
  destruct (bufio.ReadByte_some b0 c l Hb) as (b1 & -> & Hu & _).
  destruct (c =? 1); [|by destruct (c =? 0)]. destruct (parse_netstring b1) as [b2 r] eqn:Ep.
  intros [= <- ->]. apply parse_consumes in Ep. rewrite Hu in Ep.
  assert (unread b2 = bufio.buf b2 ++ unread (bufio.rd b2)) as Eb by done. rewrite Eb, length_app in Ep.
  cbn [length]. lia.
Qed.

Lemma sub_loop_length fuel nss s l : (sub_loop fuel nss s).2 = Ret l → (length l <= length nss + length (unread s))%nat.
Proof.
  revert nss s. induction fuel as [|fuel IH]; intros nss s; cbn [sub_loop]; [done|].
  destruct (NewNetstring s) as [s' [p|e| | |]] eqn:E; cbn [snd]; try done.
  - apply NewNetstring_consumes in E. intros H%IH. rewrite length_app in H. cbn [length] in H. lia.
  - destruct e; cbn [snd]; try done. intros [= <-]. lia.
Qed.

(** The packets a reader can still return, at most: every one of them is in its buffer or
    takes bytes of the stream. *)
Definition pending (r : NSReader) : nat :=
  (match ns r with Some _ => 1 | None => 0 end + (length (nss r) - next r) + length (unread (reader r)))%nat.

Lemma ReadNext_pending r r' p : ReadNext r = (r', Ret p) → (pending r' < pending r)%nat.
Proof.
  unfold ReadNext. generalize (length (unread (reader r)) + 2)%nat as fuel. intros fuel. revert r.
  induction fuel as [|fuel IH]; intros r; cbn [ReadNext_loop]; [done|]. unfold pending at 2.
  destruct (ns r) as [q|] eqn:En; [intros [= <- _]; unfold pending; cbn; lia|].
  destruct (nss r !! next r) as [q|] eqn:Eq.
  { intros [= <- _]. apply lookup_lt_Some in Eq. unfold pending. cbn. lia. }
  destruct (NewNetstring (reader r)) as [s [q|e| | |]] eqn:E; try done. apply NewNetstring_consumes in E.
  destruct (_ =? _).
  - destruct (SubNetstrings q) as [subs| | | |] eqn:Es; try done. apply sub_loop_length in Es.
    assert (unread (bytes_NewReader (Payload q)) = Payload q ++ []) as Eu by done. rewrite Eu, app_nil_r in Es.
    intros H%IH. unfold pending at 2 in H. cbn [length ns nss next reader] in *. lia.
  - intros H%IH. unfold pending at 2 in H. cbn [ns nss next reader] in *. apply lookup_ge_None in Eq. lia.
Qed.

(** The decoders terminate on every input and every way it is delivered: the
    loops of [NewNetstring], [NewInitNetstring], [SubNetstrings] and [ReadNext]
    end with a packet, an error or a panic. *)
Theorem decoders_terminate {S : Type} `{!Reader S, !ReaderLaws S} (s : S) (p : Packet) (r : NSReader) :
  (NewInitNetstring s).2 ≠ Hang ∧ (NewNetstring s).2 ≠ Hang ∧
  SubNetstrings p ≠ Hang ∧ (ReadNext r).2 ≠ Hang.
Proof.
  split_and!; [apply tame_parse|apply NewNetstring_tame|apply SubNetstrings_returns|].
  apply ReadNext_loop_returns. lia.
Qed.

Lemma decoders_terminate_witness :
  let s := bytes_NewReader (str "12:0 1:5,") in
  (NewInitNetstring s).2 ≠ Hang ∧ (NewNetstring s).2 ≠ Hang ∧
  SubNetstrings (NewNetstringFrom 5 [1; 50]) ≠ Hang ∧ (ReadNext (NewNetstringReader s)).2 ≠ Hang.
Proof.
  apply (decoders_terminate (bytes_NewReader (str "12:0 1:5,")) (NewNetstringFrom 5 [1; 50])
    (NewNetstringReader (bytes_NewReader (str "12:0 1:5,")))).
Defined.

(** A length field of 2^63-1, which any client can send, makes the decoder of
    the first request of a connection allocate a slice of negative length: a
    run-time panic, whatever follows and however it is delivered. *)
Theorem NewInitNetstring_length_overflow {S : Type} `{!Reader S, !ReaderLaws S} (s : S) (rest : bytes) :
  unread s = itoa (2 ^ 63 - 1) ++ colon :: rest → (NewInitNetstring s).2 = Panic.
Proof.
  intros Hu. unfold NewInitNetstring, parse_netstring.
  destruct (itoa_spec (2 ^ 63 - 1)) as (F & _ & V); [lia|].
  destruct (read_length_ok (Datatypes.S (length (unread s))) (itoa (2 ^ 63 - 1)) rest 0 [] 0 s)
    as (s1 & E1 & _); [done|done|lia|lia|rewrite Hu, length_app; lia|].
  rewrite (io_bind_Ret _ _ _ _ _ E1), V. reflexivity.
Qed.

Lemma NewInitNetstring_length_overflow_witness :
  (NewInitNetstring (bytes_NewReader (str "9223372036854775807:0,"))).2 = Panic.
Proof. apply (NewInitNetstring_length_overflow _ (str "0,")). vm_compute. reflexivity. Defined.

End Netstring.
