(* ===== verification/MysqlPackets.v ===== *)
(** * The MySQL packet codec (utility/encoding/mysqlpackets/mysqlpackets.go):
    fixed-length and length-encoded integers, strings, framing of packets and the
    common response packets. *)

From S2P Require Import Prelude GoIO Netstring.
From stdpp Require Import base list strings.
From Stdlib Require Import ZArith Lia.
Open Scope Z_scope.

Module Mysql.

Inductive string_t : Set := EOFSTR | NULLSTR | FIXEDSTR | VARSTR | LENENCSTR.

Definition MAX_PACKET_SIZE : Z := Z.shiftl 1 24 - 1.
Definition HEADER_SIZE : Z := 4.
Definition INT1 : Z := 1.
Definition INT2 : Z := 2.
Definition INT3 : Z := 3.
Definition INT4 : Z := 4.
Definition INT6 : Z := 6.
Definition INT8 : Z := 8.

Definition CLIENT_PROTOCOL_41 : Z := Z.shiftl 1 9.

(** ** Helpers *)

Definition min (a b : Z) : Z := if a <? b then a else b.

Definition Supports (cflags c : Z) : bool := negb (Z.land cflags (u32 c) =? 0).

(** [log.Fatal] when the slice is too small. *)
Definition checkSize (sz1 sz2 : Z) : result unit := if sz1 <? sz2 then Fatal else Ret ().

Definition calculateLenEnc (n : Z) : Z :=
  if (251 <=? n) && (n <? Z.shiftl 1 16) then 3
  else if (Z.shiftl 1 16 <=? n) && (n <? Z.shiftl 1 24) then 4
  else if Z.shiftl 1 24 <=? n then 9
  else 1.

Definition calculateLenEncStr (s : bytes) : Z := calculateLenEnc (u64 (zlen s)) + zlen s.

(** ** Writing; the buffer and the position [*pos] are returned *)

Abbreviation cursor := (bytes * Z)%type.

(** The switch with its fall-throughs, from the highest byte down. *)
Definition write1 (n pos : Z) (data : bytes) : result bytes := index_set data pos (u8 n).
Definition write2 (n pos : Z) (data : bytes) : result bytes :=
  data ← index_set data (pos + 1) (u8 (Z.shiftr n 8)); write1 n pos data.
Definition write3 (n pos : Z) (data : bytes) : result bytes :=
  data ← index_set data (pos + 2) (u8 (Z.shiftr n 16)); write2 n pos data.
Definition write4 (n pos : Z) (data : bytes) : result bytes :=
  data ← index_set data (pos + 3) (u8 (Z.shiftr n 24)); write3 n pos data.
Definition write6 (n pos : Z) (data : bytes) : result bytes :=
  data ← index_set data (pos + 5) (u8 (Z.shiftr n 40));
  data ← index_set data (pos + 4) (u8 (Z.shiftr n 32)); write4 n pos data.
Definition write8 (n pos : Z) (data : bytes) : result bytes :=
  data ← index_set data (pos + 7) (u8 (Z.shiftr n 56));
  data ← index_set data (pos + 6) (u8 (Z.shiftr n 48)); write6 n pos data.

Definition WriteFixedLenInt (data : bytes) (l n pos : Z) : result cursor :=
  rest ← slice_from data pos;
  _ ← checkSize (zlen rest) l;
  data ← (if l =? INT8 then write8 n pos data
          else if l =? INT6 then write6 n pos data
          else if l =? INT4 then write4 n pos data
          else if l =? INT3 then write3 n pos data
          else if l =? INT2 then write2 n pos data
          else if l =? INT1 then write1 n pos data
          else Fatal);
  Ret (data, pos + l).

Definition WriteLenEncInt (data : bytes) (n pos : Z) : result cursor :=
  let l := calculateLenEnc n in
  if l =? 1 then WriteFixedLenInt data l (i64 n) pos
  else
    data ← (if l =? 3 then index_set data pos 0xfc
            else if l =? 4 then index_set data pos 0xfd
            else if l =? 9 then index_set data pos 0xfe
            else Ret data);
    WriteFixedLenInt data (l - 1) (i64 n) (pos + 1).

(** [data[pos:pos+l]] as the destination of a copy. *)
Definition write_fixed_str (data s : bytes) (pos l : Z) : result cursor :=
  dst ← slice data pos (pos + l);
  Ret (overwrite data (Z.to_nat pos) (take (length dst) s), pos + l).

Definition WriteString (data s : bytes) (stype : string_t) (pos l : Z) : result cursor :=
  match stype with
  | NULLSTR =>
      data ← copy_at data pos s;
      data ← index_set data (pos + zlen s) 0;
      Ret (data, pos + zlen s + 1)
  | LENENCSTR =>
      '(data, pos) ← WriteLenEncInt data (u64 (zlen s)) pos;
      write_fixed_str data s pos l
  | FIXEDSTR => write_fixed_str data s pos l
  | EOFSTR =>
      rest ← slice_from data pos;
      data ← copy_at data pos s;
      Ret (data, pos + Z.min (zlen rest) (zlen s))
  | VARSTR => Ret (data, pos)
  end.

(** ** Reading *)

Definition read_or (data : bytes) (i sh n : Z) : result Z :=
  b ← index_get data i; Ret (Z.lor n (Z.shiftl b sh)).

Definition read1 (data : bytes) (pos n : Z) : result Z := read_or data pos 0 n.
Definition read2 (data : bytes) (pos n : Z) : result Z :=
  n ← read_or data (pos + 1) 8 n; read1 data pos n.
Definition read3 (data : bytes) (pos n : Z) : result Z :=
  n ← read_or data (pos + 2) 16 n; read2 data pos n.
Definition read4 (data : bytes) (pos n : Z) : result Z :=
  n ← read_or data (pos + 3) 24 n; read3 data pos n.
Definition read6 (data : bytes) (pos n : Z) : result Z :=
  n ← read_or data (pos + 5) 40 n;
  n ← read_or data (pos + 4) 32 n; read4 data pos n.
Definition read8 (data : bytes) (pos n : Z) : result Z :=
  n ← read_or data (pos + 7) 56 n;
  n ← read_or data (pos + 6) 48 n; read6 data pos n.

(** Returns the number and the new position. *)
Definition ReadFixedLenInt (data : bytes) (l pos : Z) : result (Z * Z) :=
  rest ← slice_from data pos;
  _ ← checkSize (zlen rest) l;
  n ← (if l =? INT8 then read8 data pos 0
       else if l =? INT6 then read6 data pos 0
       else if l =? INT4 then read4 data pos 0
       else if l =? INT3 then read3 data pos 0
       else if l =? INT2 then read2 data pos 0
       else if l =? INT1 then read1 data pos 0
       else Fatal);
  Ret (i64 n, pos + l).

Definition ReadLenEncInt (data : bytes) (pos : Z) : result (Z * Z) :=
  fb ← index_get data pos;
  if fb <? 0xfb then ReadFixedLenInt data INT1 pos
  else if fb =? 0xfc then ReadFixedLenInt data INT2 (pos + 1)
  else if fb =? 0xfd then ReadFixedLenInt data INT3 (pos + 1)
  else ReadFixedLenInt data INT8 (pos + 1).

(** [bytes.Buffer.Read(temp)] into a zeroed slice of [n] bytes. *)
Definition buffer_read (buf : bytes) (n : nat) : bytes :=
  take n buf ++ replicate (n - length buf) 0.

(** The line up to the delimiter, included; [None] when it is missing. *)
Fixpoint read_bytes_until (delim : byte) (buf : bytes) : option bytes :=
  match buf with
  | [] => None
  | b :: buf => if b =? delim then Some [b] else cons b <$> read_bytes_until delim buf
  end.

(** Returns the bytes and the new position. *)
Definition ReadString (data : bytes) (stype : string_t) (pos l : Z) : result (bytes * Z) :=
  buf ← slice_from data pos;
  match stype with
  | NULLSTR =>
      match read_bytes_until 0 buf with
      | Some line => Ret (line, pos + zlen line)
      | None => Fatal
      end
  | LENENCSTR =>
      '(n, pos) ← ReadLenEncInt data pos;
      if n =? 0 then Ret ([], pos)
      else if n <? 0 then Panic
      else Ret (buffer_read (tl buf) (Z.to_nat n), pos + n)
  | FIXEDSTR | EOFSTR =>
      if l <? 0 then Panic else Ret (buffer_read buf (Z.to_nat l), pos + l)
  | VARSTR => Ret ([], pos)
  end.

(** ** Framing *)

(** One [Read] into a buffer; an error or a short read leaves the rest as it was. *)
Definition read_into {S} `{!Reader S} (tmp : bytes) : io S bytes := λ s,
  match Read (zlen tmp) s with
  | (s, Ret d) => (s, Ret (overwrite tmp 0 d))
  | (s, _) => (s, Ret tmp)
  end.

(** The loop that reads the payload. *)
Fixpoint read_payload {S} `{!Reader S} (fuel : nat) (ser : bytes) (bytesRead totalLen : Z) : io S (bytes * Z) :=
  if bytesRead <? totalLen + 1 then
    match fuel with
    | O => lift Hang
    | Datatypes.S fuel =>
      dst ← lift (slice_from ser bytesRead);
      d ← Read (zlen dst);
      read_payload fuel (overwrite ser (Z.to_nat bytesRead) d) (bytesRead + zlen d) totalLen
    end
  else mret (ser, bytesRead).

(** From the header on; [ptype] is the indicator byte stored in [Serialized]. *)
Definition read_body {S} `{!Reader S} (ptype : byte) (tmp : bytes) (payload_length sqid : Z) : io S Packet := λ s,
  (let totalLen := payload_length + HEADER_SIZE in
   ser ← lift (make_bytes (totalLen + 1));
   ser ← lift (index_set ser 0 ptype);
   ser ← lift (copy_at ser 1 tmp);
   '(ser, bytesRead) ← read_payload (Datatypes.S (length (unread s))) ser (1 + zlen tmp) totalLen;
   if negb (bytesRead - 1 =? totalLen) then fail (errors_New (str "Expected " ++ itoa totalLen ++ str " bytes, instead got " ++ itoa (bytesRead - 1) ++ str ","))
   else
     cmd ← lift (index_get ser (HEADER_SIZE + 1));
     payload ← lift (slice_from ser (HEADER_SIZE + 1));
     mret (mkPacket cmd ser payload payload_length sqid true)) s.

(** [nil, nil] is [None]. *)
Definition NewInitSQLPacket {S} `{!Reader S} : io S (option Packet) := λ s,
  (tmp ← read_into (replicate (Z.to_nat INT4) 0);
   '(payloadLength, idx) ← lift (ReadFixedLenInt tmp INT3 0);
   '(sqid, _) ← lift (ReadFixedLenInt tmp INT1 idx);
   if payloadLength =? 0 then mret None
   else p ← read_body 0 tmp payloadLength sqid; mret (Some p)) s.

Definition NewMySQLPacket {S} `{!Reader S} : io S Packet := λ s,
  (ptype ← read_into (replicate (Z.to_nat INT1) 0);
   pt ← lift (index_get ptype 0);
   if negb (pt =? 0) then
     (if pt =? 1 then fail WRONGPACKET else fail UNKNOWNPACKET)
   else
     tmp ← read_into (replicate (Z.to_nat INT4) 0);
     '(payload_length, idx) ← lift (ReadFixedLenInt tmp INT3 0);
     '(sqid, _) ← lift (ReadFixedLenInt tmp INT1 idx);
     read_body pt tmp payload_length sqid) s.

(** The packet of a non-empty payload with first byte [cmd]. *)
Definition packet_from (sqid : Z) (cmd : byte) (payload : bytes) : result Packet :=
  let payloadLen := zlen payload in
  ser ← make_bytes (INT4 + payloadLen + 1);
  ser ← index_set ser 0 0;
  '(ser, idx) ← WriteFixedLenInt ser INT3 payloadLen 1;
  '(ser, idx) ← WriteFixedLenInt ser INT1 sqid idx;
  ser ← copy_at ser idx payload;
  Ret (mkPacket cmd ser payload payloadLen sqid true).

Definition NewMySQLPacketFrom (sqid : Z) (payload : bytes) : result Packet :=
  match payload with
  | [] => Ret (mkPacket 0 [] [] 0 0 false)
  | cmd :: _ => packet_from sqid cmd payload
  end.

Record Packager (S : Type) := mkPackager { preader : S; psqid : Z }.
Arguments mkPackager {S} _ _.
Arguments preader {S} _.
Arguments psqid {S} _.

Definition NewPackager {S} (r : S) : Packager S := mkPackager r 0.

(** The splitting loop; every iteration shortens the remaining length. *)
Fixpoint write_packets (fuel : nat) (payload : bytes) (sqid length pidx : Z) (packets : list Packet)
    : result (list Packet * Z) :=
  if 0 <? length then
    match fuel with
    | O => Hang
    | Datatypes.S fuel =>
      let packetsize := min length MAX_PACKET_SIZE in
      part ← slice payload pidx (pidx + packetsize);
      p ← NewMySQLPacketFrom sqid part;
      let packets := packets ++ [p] in
      let pidx := pidx + packetsize in
      if zlen payload <? pidx then Error (errors_New (str "Index range exceeds payload; length out of bonds"))
      else write_packets fuel payload (sqid + 1) (length - packetsize) pidx packets
    end
  else Ret (packets, sqid).

(** Returns the packets and the next sequence id. *)
Definition WritePacket (sqid : Z) (payload : bytes) : result (list Packet * Z) :=
  write_packets (length payload) payload sqid (zlen payload) 0 [].

Definition ReadNext {S} `{!Reader S} : io (Packager S) Packet := λ p,
  match NewMySQLPacket (preader p) with
  | (s, Ret pkt) => (mkPackager s (Sqid pkt), Ret pkt)
  | (s, Error e) => (mkPackager s (psqid p), Error e)
  | (s, Panic) => (mkPackager s (psqid p), Panic)
  | (s, Fatal) => (mkPackager s (psqid p), Fatal)
  | (s, Hang) => (mkPackager s (psqid p), Hang)
  end.

(** ** Response packets *)

Definition OKPacket (affectedRows lastInsertId capabilities : Z) (msg : bytes) : result bytes :=
  let pLen := 1 + calculateLenEnc (u64 affectedRows) + calculateLenEnc (u64 lastInsertId) in
  let pLen := if Supports capabilities CLIENT_PROTOCOL_41 then pLen + 4 else pLen in
  payload ← make_bytes pLen;
  '(payload, pos) ← WriteFixedLenInt payload INT1 0 0;
  '(payload, pos) ← WriteLenEncInt payload (u64 affectedRows) pos;
  '(payload, pos) ← WriteLenEncInt payload (u64 lastInsertId) pos;
  '(payload, pos) ←
    (if Supports capabilities CLIENT_PROTOCOL_41 then
       '(payload, pos) ← WriteFixedLenInt payload INT2 0 pos;
       WriteFixedLenInt payload INT2 0 pos
     else Ret (payload, pos));
  '(payload, _) ← WriteString payload msg EOFSTR pos 0;
  Ret payload.

Definition ERRPacket (errcode : Z) (msg : bytes) : result bytes :=
  payload ← make_bytes (1 + 2 + zlen msg);
  '(payload, pos) ← WriteFixedLenInt payload INT1 0xff 0;
  '(payload, pos) ← WriteFixedLenInt payload INT2 errcode pos;
  '(payload, _) ← WriteString payload msg EOFSTR pos 0;
  Ret payload.

Definition EOFPacket (warnings status_flags capabilities : Z) : result bytes :=
  payload ← make_bytes 1;
  '(payload, pos) ← WriteFixedLenInt payload INT1 0xfe 0;
  if Supports capabilities CLIENT_PROTOCOL_41 then
    '(payload, pos) ← WriteFixedLenInt payload INT2 warnings pos;
    '(payload, _) ← WriteFixedLenInt payload INT2 status_flags pos;
    Ret payload
  else Ret payload.

Definition StmtPrepareOK (stmt_id num_columns num_params : Z) : result bytes :=
  payload ← make_bytes (INT1 + INT4 + INT2 + INT2 + INT1 + INT2);
  '(payload, pos) ← WriteFixedLenInt payload INT1 0 0;
  '(payload, pos) ← WriteFixedLenInt payload INT4 (stmt_id + 1) pos;
  '(payload, pos) ← WriteFixedLenInt payload INT2 num_columns pos;
  '(payload, _) ← WriteFixedLenInt payload INT2 num_params pos;
  Ret payload.

Definition Resultset (column_count : Z) : result bytes :=
  count_packet ← make_bytes (calculateLenEnc (u64 column_count));
  '(count_packet, _) ← WriteLenEncInt count_packet (u64 column_count) 0;
  Ret count_packet.

(** A name that is not in the map has the zero value. *)
Definition EnumFieldTypes (name : string) : Z :=
  match name with
  | "DECIMAL" => 0x00 | "TINYINT" => 0x01 | "SMALLINT" => 0x02 | "INT" => 0x03
  | "FLOAT" => 0x04 | "DOUBLE" => 0x05 | "NULL" => 0x06 | "TIMESTAMP" => 0x07
  | "BIGINT" => 0x08 | "MEDIUMINT" => 0x09 | "DATE" => 0x0a | "TIME" => 0x0b
  | "DATETIME" => 0x0c | "YEAR" => 0x0d | "NEWDATE" => 0x0e | "VARCHAR" => 0x0f
  | "BIT" => 0x10 | "NEWDECIMAL" => 0xf6 | "ENUM" => 0xf7 | "SET" => 0xf8
  | "TINYBLOB" => 0xf9 | "MEDIUMBLOB" => 0xfa | "LONGBLOB" => 0xfb | "BLOB" => 0xfc
  | "VAR_STRING" => 0xfd | "CHAR" => 0xfe | "GEOMETRY" => 0xff
  | _ => 0
  end%string%Z.

(** What the methods of a [sql.ColumnType] return. *)
Record ColumnType := mkColumnType {
  ct_name : bytes;
  ct_length : Z;
  ct_nullable : bool * bool;
  ct_type : string;
  ct_precision : Z
}.

(** The flags and the decimals of a column. *)
Definition column_flags (ct : ColumnType) : Z :=
  let '(nable, ok) := ct_nullable ct in
  if negb ok then (if nable then 0 else 1) else 1.

Definition column_prec (ct : ColumnType) : Z :=
  let t := EnumFieldTypes (ct_type ct) in
  if bool_decide (t ∈ [0x01; 0x02; 0x03; 0x08; 0x09; 0xfe]) then 0x00
  else if bool_decide (t ∈ [0xfd; 0x0f; 0x05; 0x04]) then 0x1f
  else if bool_decide (t ∈ [0x00; 0xf6]) then ct_precision ct
  else 0.

Definition ColumnDefinition (colName : bytes) (ct : ColumnType) : result bytes :=
  let ctl := str "def" in
  let schema := str "temp-schema" in
  let table := str "temp-table" in
  let org_table := str "temp-table" in
  let org_name := ct_name ct in
  let totalLen := calculateLenEncStr (str "def") + calculateLenEncStr schema + calculateLenEncStr table +
    calculateLenEncStr org_table + calculateLenEncStr org_name + calculateLenEnc 0x0c +
    INT2 + INT4 + INT1 + INT2 + INT1 in
  payload ← make_bytes totalLen;
  '(payload, pos) ← WriteString payload ctl LENENCSTR 0 0;
  '(payload, pos) ← WriteString payload schema LENENCSTR pos 0;
  '(payload, pos) ← WriteString payload table LENENCSTR pos 0;
  '(payload, pos) ← WriteString payload org_table LENENCSTR pos 0;
  '(payload, pos) ← WriteString payload colName LENENCSTR pos 0;
  '(payload, pos) ← WriteString payload org_name LENENCSTR pos 0;
  '(payload, pos) ← WriteLenEncInt payload 0x0c pos;
  '(payload, pos) ← WriteFixedLenInt payload INT2 0x21 pos;
  '(payload, pos) ← WriteFixedLenInt payload INT4 (ct_length ct) pos;
  '(payload, pos) ← WriteFixedLenInt payload INT1 (EnumFieldTypes (ct_type ct)) pos;
  '(payload, pos) ← WriteFixedLenInt payload INT2 (column_flags ct) pos;
  '(payload, pos) ← WriteFixedLenInt payload INT1 (column_prec ct) pos;
  '(payload, _) ← WriteFixedLenInt payload INT2 0x00 pos;
  Ret payload.

(** ** Integers *)

(** Setting the byte after a block, then the block. *)
Lemma insert_then_overwrite (d s : bytes) b off : (off + length s < length d)%nat →
  overwrite (<[(off + length s)%nat := b]> d) off s = overwrite d off (s ++ [b]).
Proof.
  intros Hl. apply list_eq. intros i.
  rewrite !lookup_overwrite by (rewrite ?length_insert, ?length_app; simpl; lia).
  rewrite length_app. simpl.
  destruct (decide (i = off + length s)%nat) as [->|Hi].
  - rewrite decide_False, decide_True, list_lookup_insert_eq by lia.
    rewrite lookup_app_r, Nat.add_comm, Nat.add_sub, Nat.sub_diag by lia. done.
  - repeat case_decide; try lia.
    + by rewrite lookup_app_l by lia.
    + by rewrite list_lookup_insert_ne.
Qed.

Section write_int.
Context (n : Z) (pos : nat).

(** One more byte in front of a writer of the [k] low bytes. *)
Lemma write_step (w : bytes → result bytes) k i sh (data : bytes) :
  (∀ d : bytes, length d = length data → w d = Ret (overwrite d pos (le_bytes k n))) →
  (pos + k < length data)%nat → i = Z.of_nat pos + Z.of_nat k → sh = 8 * Z.of_nat k →
  (d ← index_set data i (u8 (Z.shiftr n sh)); w d) = Ret (overwrite data pos (le_bytes (S k) n)).
Proof.
  intros Hw Hl -> ->. rewrite index_set_ok by lia. simpl mbind.
  replace (Z.to_nat (Z.of_nat pos + Z.of_nat k)) with (pos + k)%nat by lia.
  cbv beta. rewrite Hw by apply length_insert. f_equal. rewrite le_bytes_snoc.
  rewrite <- insert_then_overwrite by (rewrite length_le_bytes; lia). by rewrite length_le_bytes.
Qed.

Lemma write1_ok (data : bytes) : (pos + 1 <= length data)%nat →
  write1 n (Z.of_nat pos) data = Ret (overwrite data pos (le_bytes 1 n)).
Proof.
  intros Hl. unfold write1. rewrite index_set_ok by lia. f_equal. rewrite Nat2Z.id.
  pose proof (insert_then_overwrite data [] (u8 n) pos) as H. cbn [length app] in H.
  rewrite Nat.add_0_r, overwrite_nil in H. apply H. lia.
Qed.

Lemma write2_ok (data : bytes) : (pos + 2 <= length data)%nat →
  write2 n (Z.of_nat pos) data = Ret (overwrite data pos (le_bytes 2 n)).
Proof.
  intros. apply (write_step (write1 n (Z.of_nat pos)) 1); try lia. intros. apply write1_ok. lia.
Qed.

Lemma write3_ok (data : bytes) : (pos + 3 <= length data)%nat →
  write3 n (Z.of_nat pos) data = Ret (overwrite data pos (le_bytes 3 n)).
Proof.
  intros. apply (write_step (write2 n (Z.of_nat pos)) 2); try lia. intros. apply write2_ok. lia.
Qed.

Lemma write4_ok (data : bytes) : (pos + 4 <= length data)%nat →
  write4 n (Z.of_nat pos) data = Ret (overwrite data pos (le_bytes 4 n)).
Proof.
  intros. apply (write_step (write3 n (Z.of_nat pos)) 3); try lia. intros. apply write3_ok. lia.
Qed.

Lemma write6_ok (data : bytes) : (pos + 6 <= length data)%nat →
  write6 n (Z.of_nat pos) data = Ret (overwrite data pos (le_bytes 6 n)).
Proof.
  intros. apply (write_step (λ d, d ← index_set d (Z.of_nat pos + 4) (u8 (Z.shiftr n 32));
    write4 n (Z.of_nat pos) d) 5); try lia. intros d Hd.
  apply (write_step (write4 n (Z.of_nat pos)) 4); try lia. intros. apply write4_ok. lia.
Qed.

Lemma write8_ok (data : bytes) : (pos + 8 <= length data)%nat →
  write8 n (Z.of_nat pos) data = Ret (overwrite data pos (le_bytes 8 n)).
Proof.
  intros. apply (write_step (λ d, d ← index_set d (Z.of_nat pos + 6) (u8 (Z.shiftr n 48));
    write6 n (Z.of_nat pos) d) 7); try lia. intros d Hd.
  apply (write_step (write6 n (Z.of_nat pos)) 6); try lia. intros. apply write6_ok. lia.
Qed.
End write_int.

(** The lengths the protocol allows. *)
Definition int_size (l : Z) : Prop := l = 1 ∨ l = 2 ∨ l = 3 ∨ l = 4 ∨ l = 6 ∨ l = 8.

Lemma WriteFixedLenInt_ok (data : bytes) l n pos : int_size l → 0 <= pos → pos + l <= zlen data →
  WriteFixedLenInt data l n pos = Ret (overwrite data (Z.to_nat pos) (le_bytes (Z.to_nat l) n), pos + l).
Proof.
  intros Hl Hp Hs. destruct (Z_of_nat_complete pos Hp) as [p ->]. rewrite Nat2Z.id.
  unfold WriteFixedLenInt, slice_from.
  assert (0 < l) by (unfold int_size in Hl; lia).
  rewrite !(proj2 (Z.leb_le _ _)) by lia. simpl. unfold checkSize. rewrite length_drop.
  rewrite (proj2 (Z.ltb_ge _ _)) by lia. simpl.
  destruct Hl as [->|[->|[->|[->|[->| ->]]]]]; simpl.
  - by rewrite write1_ok by lia.
  - by rewrite write2_ok by lia.
  - by rewrite write3_ok by lia.
  - by rewrite write4_ok by lia.
  - by rewrite write6_ok by lia.
  - by rewrite write8_ok by lia.
Qed.

Section read_int.
Context (data : bytes) (pos : nat) (Hb : Forall is_byte data).

Lemma read_step (r : Z → result Z) k i sh a :
  (∀ a, r (a * 2 ^ (8 * Z.of_nat k)) =
        Ret (a * 2 ^ (8 * Z.of_nat k) + le_word (take k (drop pos data)))) →
  (pos + k < length data)%nat → i = Z.of_nat pos + Z.of_nat k → sh = 8 * Z.of_nat k →
  (n ← read_or data i sh (a * 2 ^ (8 * Z.of_nat (S k))); r n) =
    Ret (a * 2 ^ (8 * Z.of_nat (S k)) + le_word (take (S k) (drop pos data))).
Proof.
  intros Hr Hl -> ->. destruct (lookup_lt_is_Some_2 data (pos + k)) as [b Hx]; [lia|].
  assert (is_byte b) as Hbb by (eapply Forall_lookup_1 in Hb; eauto). unfold is_byte in Hbb.
  unfold read_or, index_get. rewrite (proj2 (Z.leb_le _ _)) by lia.
  replace (Z.to_nat (Z.of_nat pos + Z.of_nat k)) with (pos + k)%nat by lia. rewrite Hx. simpl mbind. cbv beta.
  replace (8 * Z.of_nat (S k)) with (8 * Z.of_nat k + 8) by lia. rewrite Z.shiftl_mul_pow2 by lia.
  rewrite lor_shift_add; [|lia|rewrite Z.pow_add_r by lia; unfold in_u8 in Hbb; nia].
  assert (a * 2 ^ (8 * Z.of_nat k + 8) + b * 2 ^ (8 * Z.of_nat k) = (a * 256 + b) * 2 ^ (8 * Z.of_nat k)) as ->
    by (rewrite Z.pow_add_r by lia; lia).
  rewrite Hr. f_equal.
  rewrite (take_S_r _ _ b) by (by rewrite lookup_drop). rewrite le_word_snoc.
  rewrite length_take, length_drop, Nat.min_l by lia. rewrite Z.pow_add_r by lia. lia.
Qed.

Lemma read1_ok a : (pos + 1 <= length data)%nat →
  read1 data (Z.of_nat pos) (a * 2 ^ (8 * 1)) = Ret (a * 2 ^ (8 * 1) + le_word (take 1 (drop pos data))).
Proof.
  intros Hl. unfold read1, read_or.
  pose proof (read_step Ret 0 (Z.of_nat pos) 0 a) as H. cbn [Z.of_nat Pos.of_succ_nat] in H.
  unfold read_or in H. destruct (index_get data (Z.of_nat pos)); simpl in H |- *;
    (apply H; [intros; f_equal; unfold le_word; simpl; lia|lia..]).
Qed.

Lemma read2_ok a : (pos + 2 <= length data)%nat →
  read2 data (Z.of_nat pos) (a * 2 ^ (8 * 2)) = Ret (a * 2 ^ (8 * 2) + le_word (take 2 (drop pos data))).
Proof.
  intros. apply (read_step (read1 data (Z.of_nat pos)) 1); try lia. intros. apply read1_ok. lia.
Qed.

Lemma read3_ok a : (pos + 3 <= length data)%nat →
  read3 data (Z.of_nat pos) (a * 2 ^ (8 * 3)) = Ret (a * 2 ^ (8 * 3) + le_word (take 3 (drop pos data))).
Proof.
  intros. apply (read_step (read2 data (Z.of_nat pos)) 2); try lia. intros. apply read2_ok. lia.
Qed.

Lemma read4_ok a : (pos + 4 <= length data)%nat →
  read4 data (Z.of_nat pos) (a * 2 ^ (8 * 4)) = Ret (a * 2 ^ (8 * 4) + le_word (take 4 (drop pos data))).
Proof.
  intros. apply (read_step (read3 data (Z.of_nat pos)) 3); try lia. intros. apply read3_ok. lia.
Qed.

Lemma read6_ok a : (pos + 6 <= length data)%nat →
  read6 data (Z.of_nat pos) (a * 2 ^ (8 * 6)) = Ret (a * 2 ^ (8 * 6) + le_word (take 6 (drop pos data))).
Proof.
  intros. apply (read_step (λ n, n ← read_or data (Z.of_nat pos + 4) 32 n; read4 data (Z.of_nat pos) n) 5);
    try lia. intros. apply (read_step (read4 data (Z.of_nat pos)) 4); try lia. intros. apply read4_ok. lia.
Qed.

Lemma read8_ok a : (pos + 8 <= length data)%nat →
  read8 data (Z.of_nat pos) (a * 2 ^ (8 * 8)) = Ret (a * 2 ^ (8 * 8) + le_word (take 8 (drop pos data))).
Proof.
  intros. apply (read_step (λ n, n ← read_or data (Z.of_nat pos + 6) 48 n; read6 data (Z.of_nat pos) n) 7);
    try lia. intros. apply (read_step (read6 data (Z.of_nat pos)) 6); try lia. intros. apply read6_ok. lia.
Qed.
End read_int.

Lemma ReadFixedLenInt_ok (data : bytes) l pos : Forall is_byte data → int_size l → 0 <= pos → pos + l <= zlen data →
  ReadFixedLenInt data l pos =
    Ret (i64 (le_word (take (Z.to_nat l) (drop (Z.to_nat pos) data))), pos + l).
Proof.
  intros Hb Hl Hp Hs. destruct (Z_of_nat_complete pos Hp) as [p ->]. rewrite Nat2Z.id.
  unfold ReadFixedLenInt, slice_from. assert (0 < l) by (unfold int_size in Hl; lia).
  rewrite !(proj2 (Z.leb_le _ _)) by lia. simpl. unfold checkSize. rewrite length_drop.
  rewrite (proj2 (Z.ltb_ge _ _)) by lia. simpl.
  destruct Hl as [->|[->|[->|[->|[->| ->]]]]]; simpl.
  - pose proof (read1_ok data p Hb 0) as H0.
    rewrite Z.mul_0_l, Z.add_0_l in H0. by rewrite H0 by lia.
  - pose proof (read2_ok data p Hb 0) as H0.
    rewrite Z.mul_0_l, Z.add_0_l in H0. by rewrite H0 by lia.
  - pose proof (read3_ok data p Hb 0) as H0.
    rewrite Z.mul_0_l, Z.add_0_l in H0. by rewrite H0 by lia.
  - pose proof (read4_ok data p Hb 0) as H0.
    rewrite Z.mul_0_l, Z.add_0_l in H0. by rewrite H0 by lia.
  - pose proof (read6_ok data p Hb 0) as H0.
    rewrite Z.mul_0_l, Z.add_0_l in H0. by rewrite H0 by lia.
  - pose proof (read8_ok data p Hb 0) as H0.
    rewrite Z.mul_0_l, Z.add_0_l in H0. by rewrite H0 by lia.
Qed.

Lemma fixed_int_roundtrip (data : bytes) l n pos : Forall is_byte data →
  int_size l → 0 <= pos → pos + l <= zlen data → in_i64 n → (l = 8 ∨ 0 <= n < 2 ^ (8 * l)) →
  ∃ data', WriteFixedLenInt data l n pos = Ret (data', pos + l) ∧
    ReadFixedLenInt data' l pos = Ret (n, pos + l) ∧
    data' = overwrite data (Z.to_nat pos) (le_bytes (Z.to_nat l) n).
Proof.
  intros Hb Hl Hp Hs Hn Hr. rewrite WriteFixedLenInt_ok by done.
  assert (0 < l) by (unfold int_size in Hl; lia).
  eexists. split; [done|]. split; [|done].
  rewrite ReadFixedLenInt_ok; [|apply overwrite_Forall; [done|apply le_bytes_is_byte]|done|done|].
  2: { rewrite length_overwrite; lia. }
  rewrite <- (length_le_bytes (Z.to_nat l) n) at 1.
  rewrite take_drop_overwrite by (rewrite length_le_bytes; lia). rewrite le_word_le_bytes.
  do 2 f_equal. rewrite Z2Nat.id by lia. destruct Hr as [->|Hr].
  - unfold i64, in_i64 in *. change (8 * 8) with 64. rewrite Z.add_mod_idemp_l by lia. rewrite Z.mod_small; lia.
  - rewrite Z.mod_small by done. by apply i64_id.
Qed.

Lemma calculateLenEnc_cases n : in_u64 n →
  (calculateLenEnc n = 1 ∧ n < 251) ∨ (calculateLenEnc n = 3 ∧ 251 <= n < 2 ^ 16) ∨
  (calculateLenEnc n = 4 ∧ 2 ^ 16 <= n < 2 ^ 24) ∨ (calculateLenEnc n = 9 ∧ 2 ^ 24 <= n).
Proof.
  intros Hn. unfold calculateLenEnc. change (Z.shiftl 1 16) with (2 ^ 16).
  change (Z.shiftl 1 24) with (2 ^ 24).
  destruct (Z.leb_spec 251 n), (Z.ltb_spec n (2 ^ 16)), (Z.leb_spec (2 ^ 16) n),
    (Z.ltb_spec n (2 ^ 24)), (Z.leb_spec (2 ^ 24) n); cbn [andb]; lia.
Qed.

(** The prefix byte and the integer after it. *)
Lemma prefixed_int (data : bytes) k n fb pos : Forall is_byte data → is_byte fb →
  int_size k → 0 <= pos → pos + 1 + k <= zlen data → in_u64 n → (k = 8 ∨ n < 2 ^ (8 * k)) →
  (k <= 4 ∨ k = 8) →
  ∃ data', (d ← index_set data pos fb; WriteFixedLenInt d k (i64 n) (pos + 1)) = Ret (data', pos + 1 + k) ∧
    index_get data' pos = Ret fb ∧ ReadFixedLenInt data' k (pos + 1) = Ret (i64 n, pos + 1 + k) ∧
    length data' = length data.
Proof.
  intros Hb Hfb Hk Hp Hs Hn Hr Hk4. assert (0 < k) by (unfold int_size in Hk; lia).
  rewrite index_set_ok by lia. simpl mbind.
  destruct (fixed_int_roundtrip (<[Z.to_nat pos := fb]> data) k (i64 n) (pos + 1)) as (d' & E1 & E2 & E3);
    [by apply Forall_insert|done|lia|rewrite length_insert; lia|apply i64_range| |].
  { destruct Hr as [->|Hr]; [by left|]. destruct Hk4 as [Hk4|]; [right|by left].
    assert (2 ^ (8 * k) <= 2 ^ 32) by (apply Z.pow_le_mono_r; lia).
    rewrite i64_id; go_lia. }
  cbv beta. rewrite E1. exists d'. split_and!; [done| |done|].
  - subst d'. unfold index_get. rewrite (proj2 (Z.leb_le _ _)) by lia.
    rewrite lookup_overwrite by (rewrite length_le_bytes, length_insert; lia).
    rewrite decide_False by lia. by rewrite list_lookup_insert_eq by lia.
  - subst d'. rewrite length_overwrite, length_insert; [done|]. rewrite length_insert. lia.
Qed.

Lemma lenenc_write_read (data : bytes) (n pos : Z) :
  Forall is_byte data → in_u64 n → 0 <= pos → pos + calculateLenEnc n <= zlen data →
  ∃ data', WriteLenEncInt data n pos = Ret (data', pos + calculateLenEnc n) ∧
    ReadLenEncInt data' pos = Ret (i64 n, pos + calculateLenEnc n) ∧ length data' = length data.
Proof.
  intros Hb Hn Hp Hs. unfold WriteLenEncInt, ReadLenEncInt, INT1, INT2, INT3, INT8.
  destruct (calculateLenEnc_cases n Hn) as [[El H1]|[[El H1]|[[El H1]|[El H1]]]];
    rewrite El in *; simpl Z.eqb; cbv iota.
  - assert (i64 n = n) as Ei by (apply i64_id; go_lia). rewrite Ei.
    destruct (fixed_int_roundtrip data 1 n pos) as (d' & E1 & E2 & E3); [done|by left|done|done|go_lia|go_lia|].
    assert (index_get d' pos = Ret n) as Eg.
    { subst d'. unfold index_get. rewrite (proj2 (Z.leb_le _ _)) by lia.
      rewrite lookup_overwrite by (rewrite length_le_bytes; lia). rewrite length_le_bytes, decide_True by lia.
      rewrite Nat.sub_diag. simpl. by rewrite u8_id by go_lia. }
    exists d'. rewrite E1, Eg. simpl. rewrite (proj2 (Z.ltb_lt _ _)), E2 by lia.
    split_and!; [done..|]. subst d'. apply length_overwrite. lia.
  - change (3 - 1) with 2. destruct (prefixed_int data 2 n 0xfc pos) as (d' & -> & E1 & E2 & E3);
      [done|unfold is_byte; go_lia|unfold int_size; lia|done|lia|done|lia|lia|].
    replace (pos + 3) with (pos + 1 + 2) by lia. exists d'. rewrite E1. simpl. by rewrite E2.
  - change (4 - 1) with 3. destruct (prefixed_int data 3 n 0xfd pos) as (d' & -> & E1 & E2 & E3);
      [done|unfold is_byte; go_lia|unfold int_size; lia|done|lia|done|lia|lia|].
    replace (pos + 4) with (pos + 1 + 3) by lia. exists d'. rewrite E1. simpl. by rewrite E2.
  - change (9 - 1) with 8. destruct (prefixed_int data 8 n 0xfe pos) as (d' & -> & E1 & E2 & E3);
      [done|unfold is_byte; go_lia|unfold int_size; lia|done|lia|done|lia|lia|].
    replace (pos + 9) with (pos + 1 + 8) by lia. exists d'. rewrite E1. simpl. by rewrite E2.
Qed.

(** Length-encoded integers round trip. For every uint64 [n] and every
    position with room, [WriteLenEncInt] uses exactly [calculateLenEnc n] bytes and
    [ReadLenEncInt] at the same position returns [int(n)] (which is [n] below 2^63)
    and the position after it. *)
Theorem lenenc_int_roundtrip (data : bytes) (n pos : Z) :
  Forall is_byte data → in_u64 n → 0 <= pos → pos + calculateLenEnc n <= zlen data →
  ∃ data', WriteLenEncInt data n pos = Ret (data', pos + calculateLenEnc n) ∧
    ReadLenEncInt data' pos = Ret (i64 n, pos + calculateLenEnc n) ∧ length data' = length data.
Proof. apply lenenc_write_read. Qed.

Lemma lenenc_int_roundtrip_witness :
  ∃ data', WriteLenEncInt (replicate 6 7) 70000 1 = Ret (data', 1 + calculateLenEnc 70000) ∧
    ReadLenEncInt data' 1 = Ret (i64 70000, 1 + calculateLenEnc 70000) ∧ length data' = length (replicate 6 7).
Proof.
  apply (lenenc_int_roundtrip (replicate 6 7) 70000 1);
    [bytes_ok|go_lia|lia|vm_compute; discriminate].
Defined.

(** ** Framing *)

Definition header (len sqid : Z) : bytes := le_bytes 3 len ++ le_bytes 1 sqid.

Lemma length_header len sqid : length (header len sqid) = 4%nat.
Proof. unfold header. by rewrite length_app, !length_le_bytes. Qed.

Lemma packet_from_eq sqid c p :
  packet_from sqid c p = Ret (mkPacket c (0 :: header (zlen p) sqid ++ p) p (zlen p) sqid true).
Proof.
  unfold packet_from. cbv zeta.
  unfold make_bytes. rewrite (proj2 (Z.leb_le _ _)) by (unfold INT4; lia). cbn [mbind result_bind].
  replace (Z.to_nat (INT4 + zlen p + 1)) with (5 + length p)%nat by (unfold INT4; lia).
  rewrite index_set_ok by (rewrite length_replicate; lia). cbn [mbind result_bind].
  rewrite WriteFixedLenInt_ok by (rewrite ?length_insert, ?length_replicate; unfold int_size, INT3; lia).
  cbn [mbind result_bind].
  rewrite WriteFixedLenInt_ok by
    (rewrite ?length_overwrite; rewrite ?length_insert, ?length_replicate; unfold int_size, INT1, INT3; lia).
  cbn [mbind result_bind]. unfold INT1, INT3, copy_at.
  rewrite !length_overwrite by
    (rewrite ?length_overwrite; rewrite ?length_insert, ?length_replicate; lia).
  rewrite length_insert, length_replicate, !(proj2 (Z.leb_le _ _)) by lia. cbn [andb mbind result_bind].
  do 2 f_equal.
  change (Z.to_nat (1 + 3)) with (1 + length (le_bytes 3 (zlen p)))%nat.
  change (Z.to_nat (1 + 3 + 1)) with (1 + length (le_bytes 3 (zlen p) ++ le_bytes 1 sqid))%nat.
  rewrite overwrite_adjacent by
    (rewrite ?length_le_bytes, ?length_insert, ?length_replicate; simpl; lia).
  rewrite overwrite_adjacent by
    (rewrite ?length_app, ?length_le_bytes, ?length_insert, ?length_replicate; simpl; lia).
  change (<[_ := _]> (replicate (5 + length p) 0)) with ([0] ++ replicate (4 + length p) 0).
  rewrite overwrite_after by (rewrite ?length_app, ?length_le_bytes, ?length_replicate; simpl; lia).
  rewrite drop_ge by (rewrite !length_app, !length_le_bytes, length_replicate; simpl; lia).
  unfold header. simplify_list_eq. done.
Qed.

(** The payload loop reads exactly the payload. *)
Lemma read_payload_ok {S : Type} `{!Reader S, !ReaderLaws S} fuel ser data rest bytesRead totalLen (s : S) :
  zlen ser = totalLen + 1 → 0 <= bytesRead → zlen data = totalLen + 1 - bytesRead →
  unread s = data ++ rest → zlen data <= Z.of_nat fuel →
  ∃ s', read_payload fuel ser bytesRead totalLen s =
      (s', Ret (overwrite ser (Z.to_nat bytesRead) data, totalLen + 1)) ∧
    unread s' = rest ∧ final s' = final s.
Proof.
  revert ser data bytesRead s. induction fuel as [|fuel IH]; intros ser data bytesRead s Hser Hb Hd Hu Hf;
    cbn [read_payload]; destruct (Z.ltb_spec bytesRead (totalLen + 1)); try lia.
  1,3: destruct data; [|simpl in Hd; lia]; exists s; rewrite overwrite_nil; split_and!; [|done|done];
    unfold mret, io_ret; do 3 f_equal; simpl in Hd; lia.
  rewrite (io_bind_Ret _ _ s s (drop (Z.to_nat bytesRead) ser)).
  2: { unfold lift, slice_from. by rewrite !(proj2 (Z.leb_le _ _)) by lia. }
  destruct (Read_some (zlen (drop (Z.to_nat bytesRead) ser)) s) as (s1 & d & Hr & Hne & Hl & Hu1 & Hf1);
    [rewrite length_drop; lia|rewrite Hu; destruct data; [simpl in Hd; lia|done]|].
  rewrite (io_bind_Ret _ _ _ _ _ Hr). rewrite length_drop in Hl. rewrite Hu in Hu1.
  assert (data = d ++ drop (length d) data ∧ unread s1 = drop (length d) data ++ rest) as [Hd1 Hu2].
  { apply (f_equal (take (length d))) in Hu1 as Ht. apply (f_equal (drop (length d))) in Hu1.
    rewrite take_app_length, take_app_le in Ht by lia. rewrite drop_app_length, drop_app_le in Hu1 by lia.
    split; [by rewrite <- Ht, take_drop at 1|done]. }
  assert (0 < length d)%nat by (destruct d; [done|simpl; lia]).
  destruct (IH (overwrite ser (Z.to_nat bytesRead) d) (drop (length d) data) (bytesRead + zlen d) s1)
    as (s2 & E & Hu3 & Hf3);
    [rewrite length_overwrite; lia|lia|rewrite length_drop; lia|done|rewrite length_drop; lia|].
  exists s2. rewrite E. split_and!; [|done|congruence]. do 3 f_equal.
  replace (Z.to_nat (bytesRead + zlen d)) with (Z.to_nat bytesRead + length d)%nat by lia.
  rewrite overwrite_adjacent by (rewrite length_drop; lia). by rewrite <- Hd1.
Qed.

Lemma ReadFixedLenInt_header len sqid : 0 <= len < 2 ^ 24 → 0 <= sqid < 256 →
  ReadFixedLenInt (header len sqid) INT3 0 = Ret (len, 3) ∧
  ReadFixedLenInt (header len sqid) INT1 3 = Ret (sqid, 4).
Proof.
  intros Hl Hs.
  assert (Forall is_byte (header len sqid)) by (apply Forall_app_2; apply le_bytes_is_byte).
  pose proof (length_header len sqid). unfold INT1, INT3.
  rewrite !ReadFixedLenInt_ok; try done; try (unfold int_size; lia).
  assert (take (Z.to_nat 3) (drop (Z.to_nat 0) (header len sqid)) = le_bytes 3 len) as -> by done.
  assert (take (Z.to_nat 1) (drop (Z.to_nat 3) (header len sqid)) = le_bytes 1 sqid) as -> by done.
  rewrite !le_word_le_bytes. simpl (8 * Z.of_nat _). rewrite !Z.mod_small by lia.
  rewrite !i64_id by go_lia. done.
Qed.

(** The packet, given what the loop reads. *)
Lemma read_body_from {S : Type} `{!Reader S} c payload sqid (s s' : S) : let p := c :: payload in
  let ser := ([0] ++ header (zlen p) sqid) ++ replicate (length p) 0 in
  read_payload (Datatypes.S (length (unread s))) ser 5 (zlen p + 4) s =
    (s', Ret (overwrite ser 5 p, zlen p + 4 + 1)) →
  read_body 0 (header (zlen p) sqid) (zlen p) sqid s =
    (s', Ret (mkPacket c (0 :: header (zlen p) sqid ++ p) p (zlen p) sqid true)).
Proof.
  intros p ser E. unfold read_body. set (totalLen := zlen p + HEADER_SIZE).
  set (h := header (zlen p) sqid) in *. assert (length h = 4%nat) as Hh by apply length_header.
  assert (totalLen = zlen p + 4) as Ht by done.
  rewrite (io_bind_Ret _ _ s s (replicate (5 + length p) 0)).
  2: { unfold lift, make_bytes. rewrite (proj2 (Z.leb_le _ _)) by lia. do 3 f_equal. lia. }
  rewrite (io_bind_Ret _ _ s s ([0] ++ replicate (4 + length p) 0)).
  2: { unfold lift. rewrite index_set_ok by (rewrite length_replicate; lia). done. }
  rewrite (io_bind_Ret _ _ s s (([0] ++ h) ++ replicate (length p) 0)).
  2: { unfold lift, copy_at. rewrite length_app, length_replicate, !(proj2 (Z.leb_le _ _)) by (simpl; lia).
       reflexivity. }
  rewrite Hh. change (1 + Z.of_nat 4) with 5. rewrite Ht, (io_bind_Ret _ _ _ _ _ E). cbv beta iota.
  subst ser. rewrite overwrite_after; [|rewrite length_app, Hh; done|rewrite length_replicate; lia].
  rewrite drop_ge, app_nil_r by (rewrite length_replicate; lia).
  replace (zlen p + 4 + 1 - 1) with (zlen p + 4) by lia. rewrite Z.eqb_refl. cbn [negb].
  assert (zlen ([0] ++ h) = 5) as H5 by (rewrite length_app, Hh; done).
  rewrite (io_bind_Ret _ _ s' s' c) by reflexivity.
  rewrite (io_bind_Ret _ _ s' s' p).
  2: { unfold lift, slice_from. rewrite length_app, !(proj2 (Z.leb_le _ _)) by (unfold HEADER_SIZE; lia).
       reflexivity. }
  done.
Qed.

Lemma read_body_ok {S : Type} `{!Reader S, !ReaderLaws S} c payload sqid rest (s : S) : let p := c :: payload in
  zlen p < 2 ^ 24 → unread s = p ++ rest →
  ∃ s', read_body 0 (header (zlen p) sqid) (zlen p) sqid s =
      (s', Ret (mkPacket c (0 :: header (zlen p) sqid ++ p) p (zlen p) sqid true)) ∧ unread s' = rest.
Proof.
  intros p Hl Hu. set (h := header (zlen p) sqid). assert (length h = 4%nat) as Hh by apply length_header.
  destruct (read_payload_ok (Datatypes.S (length (unread s))) (([0] ++ h) ++ replicate (length p) 0) p rest
    5 (zlen p + 4) s) as (s' & E & Hu' & _);
    [rewrite !length_app, length_replicate, Hh; cbn [length]; lia|lia|lia|done|rewrite Hu, length_app; lia|].
  exists s'. split; [|done]. by apply read_body_from.
Qed.

Lemma split_first (first h p rest : bytes) (cs : list bytes) : (5 <= length first)%nat → length h = 4%nat →
  first ++ concat cs = (0 :: h ++ p) ++ rest →
  ∃ first', first = 0 :: h ++ first' ∧ first' ++ concat cs = p ++ rest.
Proof.
  intros Hf Hh E. exists (drop 5 first).
  assert (take 5 first = 0 :: h) as Ht.
  { apply (f_equal (take 5)) in E. rewrite take_app_le in E by lia. rewrite E. simpl. f_equal.
    by rewrite <- app_assoc, take_app_length' by lia. }
  split.
  - rewrite <- (take_drop 5 first) at 1. by rewrite Ht.
  - rewrite <- (take_drop 5 first), Ht in E. simplify_list_eq. done.
Qed.

Lemma NewMySQLPacket_ok (sqid c : Z) (payload first rest : bytes) (cs : list bytes) (e : go_error) :
  0 <= sqid < 256 → zlen (c :: payload) < 2 ^ 24 → (5 <= length first)%nat →
  ∃ p, NewMySQLPacketFrom sqid (c :: payload) = Ret p ∧
    (first ++ concat cs = Serialized p ++ rest →
     ∃ s', NewMySQLPacket (mkStream (first :: cs) e) = (s', Ret p) ∧ unread s' = rest).
Proof.
  intros Hq Hl Hf. cbn [NewMySQLPacketFrom]. rewrite packet_from_eq. eexists. split; [done|].
  set (p := c :: payload) in *. set (h := header (zlen p) sqid). cbn [Serialized].
  assert (length h = 4%nat) as Hh by apply length_header. intros Hc.
  destruct (split_first first h p rest cs Hf Hh Hc) as (first' & Ef & Hc').
  unfold NewMySQLPacket. rewrite (io_bind_Ret _ _ _ (mkStream ((h ++ first') :: cs) e) [0]).
  2: { rewrite Ef. unfold read_into, Read; simpl. unfold stream_Read; simpl chunks. simpl.
       destruct h; done. }
  rewrite (io_bind_Ret _ _ (mkStream ((h ++ first') :: cs) e) (mkStream ((h ++ first') :: cs) e) 0) by done.
  cbn [Z.eqb negb].
  rewrite (io_bind_Ret _ _ _ (mkStream (match first' with [] => cs | _ => first' :: cs end) e) h).
  2: { destruct h as [|h0 [|h1 [|h2 [|h3 [|]]]]]; try done. simpl. by destruct first'. }
  destruct (ReadFixedLenInt_header (zlen p) sqid) as [E1 E2]; [lia|done|]. fold h in E1, E2.
  rewrite (io_bind_Ret _ _ _ (mkStream (match first' with [] => cs | _ => first' :: cs end) e) (zlen p, 3))
    by (unfold lift; by rewrite E1).
  rewrite (io_bind_Ret _ _ _ (mkStream (match first' with [] => cs | _ => first' :: cs end) e) (sqid, 4))
    by (unfold lift; by rewrite E2).
  apply read_body_ok; [done|]. etrans; [|exact Hc']. unfold unread; simpl. by destruct first'.
Qed.

(** Whether the four bytes of the header come with one [Read], after the indicator byte. *)
Definition header_whole {S} `{!Reader S} (s : S) : bool :=
  match (Read 4 (Read 1 s).1).2 with Ret d => zlen d =? 4 | _ => false end.

(** What the loop takes from the reader. *)
Lemma read_payload_takes {S : Type} `{!Reader S, !ReaderLaws S} fuel ser bytesRead totalLen (s s' : S) ser' n :
  zlen ser = totalLen + 1 → 0 <= bytesRead → read_payload fuel ser bytesRead totalLen s = (s', Ret (ser', n)) →
  zlen (unread s) + bytesRead = zlen (unread s') + n.
Proof.
  revert ser bytesRead s. induction fuel as [|fuel IH]; intros ser bytesRead s Hs Hb; cbn [read_payload];
    destruct (Z.ltb_spec bytesRead (totalLen + 1)); try done; try (intros [= <- _ <-]; done).
  intros (s1 & dst & E1 & H1)%io_bind_inv. unfold lift, slice_from in E1. rewrite !(proj2 (Z.leb_le _ _)) in E1 by lia.
  injection E1 as <- <-. apply io_bind_inv in H1 as (s2 & d & E2 & H2).
  assert (Hd : 0 < zlen (drop (Z.to_nat bytesRead) ser)) by (rewrite length_drop; lia).
  destruct (decide (unread s = [])) as [Hn|Hn]; [destruct (Read_end _ s Hd Hn) as (? & E & _); congruence|].
  destruct (Read_some _ s Hd Hn) as (s3 & d' & E & _ & Hl & Hu & _). rewrite E in E2. injection E2 as -> ->.
  rewrite length_drop in Hl. apply IH in H2; [|rewrite length_overwrite; lia|lia]. rewrite Hu, length_app. lia.
Qed.

Lemma read_body_takes {S : Type} `{!Reader S, !ReaderLaws S} pt tmp len sqid (s s' : S) p : zlen tmp = 4 → 0 <= len →
  read_body pt tmp len sqid s = (s', Ret p) → zlen (unread s) = zlen (unread s') + len.
Proof.
  intros Ht Hl. unfold read_body, HEADER_SIZE. intros (s1 & ser1 & E1 & H)%io_bind_inv.
  unfold lift, make_bytes in E1. rewrite (proj2 (Z.leb_le _ _)) in E1 by lia. injection E1 as <- <-.
  apply io_bind_inv in H as (s1 & ser2 & E2 & H). unfold lift in E2. rewrite index_set_ok in E2 by (rewrite length_replicate; lia). injection E2 as <- <-.
  apply io_bind_inv in H as (s1 & ser3 & E3 & H). unfold lift, copy_at in E3. rewrite length_insert, length_replicate in E3.
  rewrite !(proj2 (Z.leb_le _ _)) in E3 by lia. injection E3 as <- <-.
  apply io_bind_inv in H as (s1 & [ser4 n] & E4 & H).
  apply read_payload_takes in E4; [|rewrite length_overwrite; rewrite length_insert, length_replicate; lia|lia].
  destruct (Z.eqb_spec (n - 1) (len + 4)); [|done]. cbn [negb] in H.
  apply io_bind_inv in H as (s2 & x & E5 & H). injection E5 as <- _. apply io_bind_inv in H as (s3 & y & E6 & H).
  injection E6 as <- _. injection H as <- _. lia.
Qed.

(** A header cut short has a length that is not larger. *)
Lemma torn_header len sqid (d rest : bytes) : 0 <= len < 2 ^ 24 → 0 <= sqid < 256 → (length d < 4)%nat → header len sqid = d ++ rest →
  ∃ len' sqid' idx, let tmp := overwrite (replicate (Z.to_nat INT4) 0) 0 d in
    ReadFixedLenInt tmp INT3 0 = Ret (len', 3) ∧ ReadFixedLenInt tmp INT1 3 = Ret (sqid', idx) ∧ 0 <= len' <= len ∧ zlen tmp = 4.
Proof.
  intros Hl Hs Hd E. set (tmp := overwrite _ _ _).
  assert (Hb : Forall is_byte (header len sqid)) by (apply Forall_app_2; apply le_bytes_is_byte).
  assert (Ht : tmp = d ++ replicate (4 - length d) 0).
  { subst tmp. change (replicate (Z.to_nat INT4) 0) with ([] ++ replicate 4 0). rewrite overwrite_after by (done || (rewrite length_replicate; lia)).
    by rewrite drop_replicate. }
  assert (Hz : Forall is_byte tmp).
  { rewrite Ht. rewrite E in Hb. apply Forall_app in Hb as [Hb _]. apply Forall_app. split; [done|]. apply Forall_replicate. unfold is_byte. go_lia. }
  assert (H4 : length tmp = 4%nat) by (rewrite Ht, length_app, length_replicate; lia).
  unfold INT1, INT3. rewrite !ReadFixedLenInt_ok; try done; try (unfold int_size; lia); try (rewrite H4; lia).
  eexists _, _, _. split; [reflexivity|]. split; [reflexivity|]. split; [|rewrite H4; done].
  assert (Hw : le_word (take 3 (header len sqid)) = len).
  { change (take 3 (header len sqid)) with (le_bytes 3 len). rewrite le_word_le_bytes. apply Z.mod_small. cbn. lia. }
  change (take (Z.to_nat 3) (drop (Z.to_nat 0) tmp)) with (take 3 tmp).
  assert (H0 : 0 <= le_word (take 3 tmp) <= len).
  { rewrite <- Hw, Ht, E. rewrite E in Hb. apply Forall_app in Hb as [Hb Hr].
    assert (Hrest : length rest = (4 - length d)%nat) by (apply (f_equal length) in E; rewrite length_header, length_app in E; lia).
    destruct rest as [|r0 [|r1 [|r2 [|r3 [|]]]]]; cbn [length] in Hrest; try lia;
      (destruct d as [|d0 [|d1 [|d2 [|]]]]; cbn [length] in Hd, Hrest; try lia); cbn [length Nat.sub replicate app take];
      unfold is_byte, in_u8 in *; rewrite ?Forall_cons in Hb; rewrite ?Forall_cons in Hr; unfold le_word; cbn [foldr]; lia. }
  rewrite i64_id; [done|]. unfold in_i64. lia.
Qed.

(** C34: MySQL packets and the reads they arrive in. A packet with a payload of 1 to 2^24-1
    bytes and a sequence id below 256 is decoded to the packet that was encoded, with what
    follows it left unread, exactly when the four bytes of its header come with one read;
    the payload may be split anyhow. The decoder does not look at how much its reads of the
    header give: a header that arrives in two pieces is taken with zeros for what is
    missing, and the framing is lost. *)
Theorem NewMySQLPacket_roundtrip {S : Type} `{!Reader S, !ReaderLaws S} (s : S) (sqid c : Z) (payload rest : bytes) :
  0 <= sqid < 256 → zlen (c :: payload) < 2 ^ 24 →
  ∃ p, NewMySQLPacketFrom sqid (c :: payload) = Ret p ∧
    (unread s = Serialized p ++ rest →
     (∃ s', NewMySQLPacket s = (s', Ret p) ∧ unread s' = rest) ↔ header_whole s = true).
Proof.
  intros Hq Hl. cbn [NewMySQLPacketFrom]. rewrite packet_from_eq. eexists. split; [done|].
  set (p := c :: payload) in *. set (h := header (zlen p) sqid). cbn [Serialized].
  assert (length h = 4%nat) as Hh by apply length_header. intros Hu.
  destruct (Read_byte s 0 (h ++ p ++ rest)) as (s1 & E1 & Hu1 & _); [by rewrite Hu, app_assoc|].
  destruct (Read_some 4 s1) as (s2 & d & E2 & Hne & Hd & Hu2 & _); [lia|by rewrite Hu1; destruct h|].
  unfold header_whole. rewrite E1. cbn [fst]. rewrite E2. cbn [snd].
  assert (Ep : NewMySQLPacket s = ('(payload_length, idx) ← lift (ReadFixedLenInt (overwrite (replicate (Z.to_nat INT4) 0) 0 d) INT3 0);
    '(sqid, _) ← lift (ReadFixedLenInt (overwrite (replicate (Z.to_nat INT4) 0) 0 d) INT1 idx);
    read_body 0 (overwrite (replicate (Z.to_nat INT4) 0) 0 d) payload_length sqid) s2).
  { unfold NewMySQLPacket. rewrite (io_bind_Ret _ _ s s1 [0]) by (unfold read_into; cbn [length]; change (zlen (replicate (Z.to_nat INT1) 0)) with 1; by rewrite E1).
    rewrite (io_bind_Ret _ _ s1 s1 0) by done. cbn [Z.eqb negb].
    rewrite (io_bind_Ret _ _ s1 s2 (overwrite (replicate (Z.to_nat INT4) 0) 0 d)); [done|].
    unfold read_into. change (zlen (replicate (Z.to_nat INT4) 0)) with 4. by rewrite E2. }
  rewrite Ep. rewrite Hu1 in Hu2. assert (Hdh : d = take (length d) h).
  { apply (f_equal (take (length d))) in Hu2. rewrite take_app_length, take_app_le in Hu2 by lia. done. }
  destruct (ReadFixedLenInt_header (zlen p) sqid) as [F1 F2]; [lia|done|]. fold h in F1, F2.
  split; [|intros H4%Z.eqb_eq].
  - intros (s' & E & Hr). apply Z.eqb_eq. destruct (decide (length d < 4)%nat) as [H4|H4]; [exfalso|lia].
    destruct (torn_header (zlen p) sqid d (drop (length d) h)) as (len' & sqid' & idx & G1 & G2 & G3 & G4);
      [lia|done|done|fold h; rewrite Hdh at 1; by rewrite take_drop|].
    rewrite (io_bind_Ret _ _ s2 s2 (len', 3)) in E by (unfold lift; by rewrite G1).
    rewrite (io_bind_Ret _ _ s2 s2 (sqid', idx)) in E by (unfold lift; by rewrite G2).
    apply read_body_takes in E; [|exact G4|lia]. apply (f_equal length) in Hu2. rewrite !length_app in Hu2. rewrite Hr in E. lia.
  - assert (d = h) as -> by (rewrite Hdh; apply take_ge; lia).
    assert (overwrite (replicate (Z.to_nat INT4) 0) 0 h = h) as ->.
    { change (replicate (Z.to_nat INT4) 0) with ([] ++ replicate 4 0). rewrite overwrite_after by (done || (rewrite length_replicate; lia)).
      rewrite drop_ge by (rewrite length_replicate; lia). by rewrite app_nil_r. }
    rewrite (io_bind_Ret _ _ s2 s2 (zlen p, 3)) by (unfold lift; by rewrite F1).
    rewrite (io_bind_Ret _ _ s2 s2 (sqid, 4)) by (unfold lift; by rewrite F2).
    apply app_inv_head in Hu2. apply read_body_ok; [done|by rewrite <- Hu2].
Qed.

(** In pieces that leave the header whole, and in one that cuts it. *)
Lemma NewMySQLPacket_roundtrip_witness :
  (∃ p s', NewMySQLPacketFrom 3 [3; 83; 69] = Ret p ∧
    NewMySQLPacket (mkStream [[0]; [3; 0; 0; 3]; [3]; [83; 69; 0; 9]] io_EOF) = (s', Ret p) ∧ unread s' = [0; 9]) ∧
  (∃ p, NewMySQLPacketFrom 3 [3; 83; 69] = Ret p ∧
    ¬ ∃ s', NewMySQLPacket (mkStream [[0; 3; 0]; [0; 3; 3; 83; 69; 0; 9]] io_EOF) = (s', Ret p) ∧ unread s' = [0; 9]).
Proof.
  split.
  - destruct (NewMySQLPacket_roundtrip (mkStream [[0]; [3; 0; 0; 3]; [3]; [83; 69; 0; 9]] io_EOF) 3 3 [83; 69] [0; 9]) as (p & E & H); [lia|cbn; lia|].
    injection E as <-. eexists. destruct H as [_ H]; [reflexivity|]. destruct H as (s' & E & Hu); [reflexivity|]. exists s'. split; [reflexivity|]. split; [exact E|exact Hu].
  - destruct (NewMySQLPacket_roundtrip (mkStream [[0; 3; 0]; [0; 3; 3; 83; 69; 0; 9]] io_EOF) 3 3 [83; 69] [0; 9]) as (p & E & H); [lia|cbn; lia|].
    injection E as <-. eexists. split; [reflexivity|]. destruct H as [H _]; [reflexivity|]. intros Hs. specialize (H Hs). discriminate H.
Defined.

(** A MySQL packet read from a reader that has nothing more to deliver (a closed
    connection) is not reported as an error: the ignored read errors leave an
    all-zero header, and the decoder indexes past the five bytes it allocated. *)
Theorem NewMySQLPacket_closed_panics {S : Type} `{!Reader S, !ReaderLaws S} (s : S) :
  unread s = [] → (NewMySQLPacket s).2 = Panic.
Proof.
  intros Hu. unfold NewMySQLPacket.
  destruct (Read_end 1 s) as (s1 & E1 & Hu1 & _); [lia|done|].
  destruct (Read_end 4 s1) as (s2 & E2 & Hu2 & _); [lia|done|].
  rewrite (io_bind_Ret _ _ s s1 [0]).
  2: { unfold read_into. change (zlen (replicate (Z.to_nat INT1) 0)) with 1. by rewrite E1. }
  rewrite (io_bind_Ret _ _ s1 s1 0) by done. cbn [Z.eqb negb].
  rewrite (io_bind_Ret _ _ s1 s2 [0; 0; 0; 0]).
  2: { unfold read_into. change (zlen (replicate (Z.to_nat INT4) 0)) with 4. by rewrite E2. }
  reflexivity.
Qed.

Lemma NewMySQLPacket_closed_panics_witness : (NewMySQLPacket (mkStream [] io_EOF)).2 = Panic.
Proof. apply (NewMySQLPacket_closed_panics (mkStream [] io_EOF)). reflexivity. Defined.

(** ** Splitting a payload into packets *)

(** The packets of a payload: consecutive sequence ids, at most
    [MAX_PACKET_SIZE] bytes each, and their payloads concatenate to it. *)
Definition packets_of (sqid : Z) (ps : list Packet) : Prop :=
  ∀ i p, ps !! i = Some p →
    Sqid p = sqid + Z.of_nat i ∧ 0 < Length p <= MAX_PACKET_SIZE ∧ Length p = zlen (Payload p) ∧
    Serialized p = 0 :: header (Length p) (Sqid p) ++ Payload p.

Lemma MAX_PACKET_SIZE_eq : MAX_PACKET_SIZE = 2 ^ 24 - 1.
Proof. reflexivity. Qed.

Lemma write_packets_ok fuel payload pre rest sqid packets sqid0 :
  payload = pre ++ rest → (length rest <= fuel)%nat →
  packets_of sqid0 packets → concat (map Payload packets) = pre → sqid = sqid0 + zlen packets →
  ∃ ps, write_packets fuel payload sqid (zlen rest) (zlen pre) packets = Ret (ps, sqid0 + zlen ps) ∧
    packets_of sqid0 ps ∧ concat (map Payload ps) = payload.
Proof.
  revert pre rest sqid packets. induction fuel as [|fuel IH]; intros pre rest sqid packets Hp Hf Hps Hc Hq.
  { destruct rest; [|simpl in Hf; lia]. exists packets. rewrite app_nil_r in Hp. subst. split_and!; done. }
  cbn [write_packets]. destruct (Z.ltb_spec 0 (zlen rest)) as [Hr|Hr].
  2: { destruct rest; [|simpl in Hr; lia]. exists packets. rewrite app_nil_r in Hp. subst. split_and!; done. }
  set (k := min (zlen rest) MAX_PACKET_SIZE).
  assert (0 < k <= zlen rest ∧ k <= MAX_PACKET_SIZE) as Hk.
  { unfold k, min. rewrite MAX_PACKET_SIZE_eq. zb; lia. }
  set (part := take (Z.to_nat k) rest).
  assert (zlen part = k) as Hpl by (subst part; rewrite length_take; lia).
  assert (rest = part ++ drop (Z.to_nat k) rest) as Hrest by (symmetry; apply take_drop).
  assert (slice payload (zlen pre) (zlen pre + k) = Ret part) as ->.
  { rewrite Hp, Hrest. apply slice_mid; lia. }
  cbn [mbind result_bind]. destruct part as [|c part'] eqn:Epart; [simpl in Hpl; lia|].
  cbn [NewMySQLPacketFrom]. rewrite packet_from_eq. cbn [mbind result_bind].
  rewrite <- Epart in *. set (pk := mkPacket _ _ _ _ _ _).
  rewrite (proj2 (Z.ltb_ge _ _)) by (rewrite Hp, length_app; lia).
  destruct (IH (pre ++ part) (drop (Z.to_nat k) rest) (sqid + 1) (packets ++ [pk])) as (ps & E & Hps' & Hc').
  - by rewrite <- app_assoc, <- Hrest.
  - rewrite length_drop. lia.
  - intros i q Hi. apply lookup_app_Some in Hi as [Hi|[Hi Hq']]; [by apply Hps|].
    apply list_lookup_singleton_Some in Hq' as [Hi0 <-]. subst pk. cbn. rewrite Hpl. split_and!; done || lia.
  - rewrite map_app, concat_app. simpl. rewrite app_nil_r. by rewrite Hc.
  - rewrite length_app. simpl. lia.
  - exists ps. rewrite <- E. split_and!; [|done|done]. f_equal; [rewrite length_drop; lia|rewrite length_app; lia].
Qed.

(** [WritePacket] splits every payload into packets that carry it in order: the
    payloads concatenate to the input, each is of 1 to 2^24-1 bytes, the headers
    hold its length and consecutive sequence ids, and the next id is returned. *)
Theorem WritePacket_splits (sqid : Z) (payload : bytes) :
  ∃ ps, WritePacket sqid payload = Ret (ps, sqid + zlen ps) ∧
    packets_of sqid ps ∧ concat (map Payload ps) = payload.
Proof.
  apply (write_packets_ok (length payload) payload [] payload sqid [] sqid); try done; simpl; lia.
Qed.

(** ** Response packets *)

Lemma WriteString_EOF_full (payload msg : bytes) pos : pos = zlen payload →
  WriteString payload msg EOFSTR pos 0 = Ret (payload, pos).
Proof.
  intros ->. unfold WriteString, slice_from, copy_at. rewrite !(proj2 (Z.leb_le _ _)) by lia.
  cbn [andb mbind result_bind]. rewrite Nat2Z.id, drop_all. unfold overwrite.
  rewrite firstn_all, Nat.sub_diag, take_0, drop_ge, !app_nil_r by lia. do 2 f_equal. simpl. lia.
Qed.

Lemma calculateLenEnc_pos n : in_u64 n → 0 < calculateLenEnc n.
Proof. intros Hn. pose proof (calculateLenEnc_cases n Hn). lia. Qed.

(** The bytes of a length-encoded integer. *)
Definition lenenc (n : Z) : bytes :=
  if calculateLenEnc n =? 1 then le_bytes 1 (i64 n)
  else if calculateLenEnc n =? 3 then 0xfc :: le_bytes 2 (i64 n)
  else if calculateLenEnc n =? 4 then 0xfd :: le_bytes 3 (i64 n)
  else 0xfe :: le_bytes 8 (i64 n).

Lemma length_lenenc n : in_u64 n → zlen (lenenc n) = calculateLenEnc n.
Proof.
  intros Hn. unfold lenenc. destruct (calculateLenEnc_cases n Hn) as [[-> ?]|[[-> ?]|[[-> ?]|[-> ?]]]];
    cbn [Z.eqb Pos.eqb length]; by rewrite length_le_bytes.
Qed.

(** Filling a fresh buffer from the front. *)
Lemma fill_fixed pre m l n : int_size l → l <= Z.of_nat m →
  WriteFixedLenInt (pre ++ replicate m 0) l n (zlen pre) =
  Ret ((pre ++ le_bytes (Z.to_nat l) n) ++ replicate (m - Z.to_nat l) 0, zlen (pre ++ le_bytes (Z.to_nat l) n)).
Proof.
  intros Hl Hm. assert (0 < l) by (unfold int_size in Hl; lia).
  rewrite WriteFixedLenInt_ok by (rewrite ?length_app, ?length_replicate; lia || done).
  rewrite Nat2Z.id, overwrite_after by (rewrite ?length_le_bytes, ?length_replicate; lia || done).
  rewrite drop_replicate, !length_app, length_le_bytes. do 2 f_equal; [by rewrite <- app_assoc|lia].
Qed.

Lemma fill_byte pre m b : (0 < m)%nat →
  index_set (pre ++ replicate m 0) (zlen pre) b = Ret ((pre ++ [b]) ++ replicate (m - 1) 0).
Proof.
  intros Hm. rewrite index_set_ok by (rewrite length_app, length_replicate; lia). f_equal.
  rewrite Nat2Z.id. destruct m as [|m]; [lia|]. cbn [replicate]. rewrite insert_app_r_alt, Nat.sub_diag by lia. cbn.
  by rewrite <- app_assoc, Nat.sub_0_r.
Qed.

Lemma fill_prefixed pre m b l n : int_size l → l + 1 <= Z.of_nat m →
  (d ← index_set (pre ++ replicate m 0) (zlen pre) b; WriteFixedLenInt d l n (zlen pre + 1)) =
  Ret ((pre ++ b :: le_bytes (Z.to_nat l) n) ++ replicate (m - S (Z.to_nat l)) 0, zlen (pre ++ b :: le_bytes (Z.to_nat l) n)).
Proof.
  intros Hl Hm. assert (0 < l) by (unfold int_size in Hl; lia). rewrite fill_byte by lia. cbn [mbind result_bind].
  replace (zlen pre + 1) with (zlen (pre ++ [b])) by (rewrite length_app; simpl; lia).
  rewrite fill_fixed by (lia || done). rewrite <- (app_assoc pre [b]). cbn [app]. do 3 f_equal. f_equal. lia.
Qed.

Lemma fill_lenenc pre m n : in_u64 n → calculateLenEnc n <= Z.of_nat m →
  WriteLenEncInt (pre ++ replicate m 0) n (zlen pre) =
  Ret ((pre ++ lenenc n) ++ replicate (m - length (lenenc n)) 0, zlen (pre ++ lenenc n)).
Proof.
  intros Hn Hm. unfold WriteLenEncInt, lenenc.
  destruct (calculateLenEnc_cases n Hn) as [[El ?]|[[El ?]|[[El ?]|[El ?]]]]; rewrite El in *; cbn [Z.eqb Pos.eqb].
  { rewrite fill_fixed by (unfold int_size; lia). by rewrite length_le_bytes. }
  all: rewrite fill_prefixed by (unfold int_size; lia); cbn [length]; by rewrite length_le_bytes.
Qed.

(** Strings of the two kinds that carry their own end. *)
Lemma fill_nullstr pre m s l : (length s < m)%nat →
  WriteString (pre ++ replicate m 0) s NULLSTR (zlen pre) l =
  Ret ((pre ++ s ++ [0]) ++ replicate (m - length s - 1) 0, zlen (pre ++ s ++ [0])).
Proof.
  intros Hm. unfold WriteString, copy_at. rewrite length_app, length_replicate, !(proj2 (Z.leb_le _ _)) by lia.
  cbn [andb mbind result_bind]. rewrite Nat2Z.id, overwrite_after by (rewrite ?length_replicate; lia || done).
  rewrite drop_replicate, app_assoc. replace (zlen pre + zlen s) with (zlen (pre ++ s)) by (rewrite length_app; lia).
  rewrite fill_byte by lia. cbn [mbind result_bind]. rewrite <- (app_assoc pre s [0]). do 2 f_equal.
  rewrite !length_app. cbn [length]. lia.
Qed.

Lemma fill_fixedstr pre m s l : zlen s <= l <= Z.of_nat m →
  WriteString (pre ++ replicate m 0) s FIXEDSTR (zlen pre) l =
  Ret ((pre ++ s ++ replicate (Z.to_nat l - length s) 0) ++ replicate (m - Z.to_nat l) 0,
       zlen (pre ++ s ++ replicate (Z.to_nat l - length s) 0)).
Proof.
  intros Hm. unfold WriteString, write_fixed_str, slice.
  rewrite length_app, length_replicate, !(proj2 (Z.leb_le _ _)) by lia. cbn [andb mbind result_bind].
  rewrite Nat2Z.id, take_ge by (rewrite length_take, length_drop, length_app, length_replicate; lia).
  rewrite overwrite_after by (rewrite ?length_replicate; lia || done).
  rewrite drop_replicate, !length_app, length_replicate. do 2 f_equal; [|lia].
  rewrite <- !app_assoc. do 2 f_equal. rewrite <- replicate_add. f_equal. lia.
Qed.

(** What [OKPacket] builds. *)
Lemma OKPacket_bytes (affectedRows lastInsertId capabilities : Z) (msg : bytes) :
  OKPacket affectedRows lastInsertId capabilities msg =
  Ret (0 :: lenenc (u64 affectedRows) ++ lenenc (u64 lastInsertId) ++
       if Supports capabilities CLIENT_PROTOCOL_41 then [0; 0; 0; 0] else []).
Proof.
  unfold OKPacket. cbv zeta. set (a := u64 affectedRows). set (i := u64 lastInsertId).
  assert (in_u64 a) as Ha by apply u64_range. assert (in_u64 i) as Hi by apply u64_range.
  pose proof (calculateLenEnc_pos a Ha). pose proof (calculateLenEnc_pos i Hi).
  pose proof (length_lenenc a Ha). pose proof (length_lenenc i Hi).
  set (f := Supports capabilities CLIENT_PROTOCOL_41).
  set (pLen := if f then _ else _).
  set (k := if f then 4%nat else 0%nat).
  assert (pLen = 1 + calculateLenEnc a + calculateLenEnc i + Z.of_nat k) as HpL by (subst pLen k; destruct f; lia).
  unfold make_bytes. rewrite (proj2 (Z.leb_le _ _)) by lia. cbn [mbind result_bind].
  pose proof (fill_fixed [] (Z.to_nat pLen) INT1 0 ltac:(by left) ltac:(unfold INT1; lia)) as E.
  cbn [app] in E. change (zlen []) with 0 in E. rewrite E. cbn [mbind result_bind].
  rewrite fill_lenenc by (unfold INT1; lia || done). cbn [mbind result_bind].
  rewrite fill_lenenc by (unfold INT1; lia || done). cbn [mbind result_bind].
  change (le_bytes (Z.to_nat INT1) 0) with [0]. set (pre := (([] ++ [0]) ++ lenenc a) ++ lenenc i).
  assert (zlen pre = 1 + calculateLenEnc a + calculateLenEnc i) as Hpre.
  { subst pre. rewrite !length_app. cbn [length]. lia. }
  replace (Z.to_nat pLen - Z.to_nat INT1 - length (lenenc a) - length (lenenc i))%nat with k by (unfold INT1; lia).
  subst f k. destruct (Supports capabilities CLIENT_PROTOCOL_41).
  - rewrite fill_fixed by (unfold int_size, INT2; lia). cbn [mbind result_bind].
    rewrite fill_fixed by (unfold int_size, INT2; lia). cbn [mbind result_bind].
    rewrite app_nil_r. rewrite WriteString_EOF_full by done. cbn [mbind result_bind]. subst pre.
    change (le_bytes (Z.to_nat INT2) 0) with [0; 0]. rewrite <- !app_assoc. done.
  - cbn [mbind result_bind replicate]. rewrite app_nil_r, WriteString_EOF_full by done. cbn [mbind result_bind].
    subst pre. by rewrite <- !app_assoc, app_nil_r.
Qed.

(** An OK packet has the header, the two numbers as length-encoded integers, four zero
    bytes for clients of protocol 4.1, and nothing of the message: the buffer is allocated
    without room for it. *)
Theorem OKPacket_drops_message (affectedRows lastInsertId capabilities : Z) (msg : bytes) :
  OKPacket affectedRows lastInsertId capabilities msg =
  Ret (0 :: lenenc (u64 affectedRows) ++ lenenc (u64 lastInsertId) ++
       if Supports capabilities CLIENT_PROTOCOL_41 then [0; 0; 0; 0] else []).
Proof. apply OKPacket_bytes. Qed.

(** An ERR packet is the header 0xff, the two-byte error code and the message;
    an EOF packet for a client that announced CLIENT_PROTOCOL_41 ends the process
    ([log.Fatal]): its one-byte buffer has no room for the warnings, and for the
    other clients it is the single byte 0xfe. *)
Theorem ERR_EOF_packets (errcode warnings status_flags capabilities : Z) (msg : bytes) :
  ERRPacket errcode msg = Ret (0xff :: le_bytes 2 errcode ++ msg) ∧
  EOFPacket warnings status_flags capabilities =
    if Supports capabilities CLIENT_PROTOCOL_41 then Fatal else Ret [0xfe].
Proof.
  split; [|unfold EOFPacket; by destruct (Supports _ _)].
  unfold ERRPacket, make_bytes. rewrite (proj2 (Z.leb_le _ _)) by lia. cbn [mbind result_bind].
  replace (Z.to_nat (1 + 2 + zlen msg)) with (3 + length msg)%nat by lia.
  rewrite WriteFixedLenInt_ok by (rewrite ?length_replicate; unfold int_size, INT1; lia).
  cbn [mbind result_bind].
  rewrite WriteFixedLenInt_ok by
    (rewrite ?length_overwrite; rewrite ?length_replicate; unfold int_size, INT1, INT2; lia).
  cbn [mbind result_bind]. unfold INT1, INT2.
  change (overwrite (replicate (3 + length msg) 0) _ _)
    with ([0xff] ++ replicate 2 0 ++ replicate (length msg) 0).
  rewrite overwrite_mid by (rewrite length_le_bytes; done).
  unfold WriteString, slice_from, copy_at. rewrite !length_app, length_le_bytes, length_replicate.
  rewrite !(proj2 (Z.leb_le _ _)) by (simpl; lia). cbn [andb mbind result_bind].
  rewrite app_assoc. rewrite overwrite_after by (rewrite ?length_app, ?length_le_bytes, ?length_replicate; done).
  rewrite drop_ge, app_nil_r by (rewrite length_replicate; lia). by rewrite <- app_assoc.
Qed.

End Mysql.
