(* ===== verification/Taf.v ===== *)
(** * Transparent application failover (lib/taf.go, lib/tafqueries.go,
    lib/lock_timeout.go): the health percentage of the primary database, updated by
    racing goroutines, and the statistics that tell queries that are always slow. *)

From S2P Require Import Prelude.
From stdpp Require Import base list gmap.
From Stdlib Require Import ZArith Lia.
Open Scope Z_scope.

(** ** The health percentage *)

Module Taf.

Definition tafMaxPct : Z := 110.
Definition tafMinPct : Z := 1.
Definition tafPctChange : Z := 10.
Definition tafDeltaPctMin : Z := 1.
Definition tafDeltaPctMax : Z := 64.

Record taf := mkTaf { pct : Z; deltaPct : Z; shard : Z }.

Definition InitTAF (shards : nat) : list taf :=
  map (λ tf, mkTaf tafMaxPct 1 (Z.of_nat tf)) (seq 0 shards).

Definition GetPct (tf : taf) : Z := pct tf.

(** [r] is [rand.Intn(100)]. *)
Definition UsePrimary (r : Z) (tf : taf) : bool := r <? pct tf.

(** The value [NotifyOK] stores in [pct] and in [deltaPct], if it stores one. *)
Definition ok_pct (pct : Z) : option Z :=
  if pct <? tafMaxPct then
    Some (if pct <? tafMaxPct - tafPctChange then u32 (pct + tafPctChange) else tafMaxPct)
  else None.

Definition ok_delta (deltaPct : Z) : option Z :=
  if tafDeltaPctMin <? deltaPct then Some (deltaPct / 2) else None.

(** The same for [NotifyError]. *)
Definition err_pct (pct oldDeltaPct : Z) : option Z :=
  if tafMinPct <? pct then
    let deltaPct := if tafPctChange <? oldDeltaPct then tafPctChange else oldDeltaPct in
    Some (if u32 (tafMinPct + deltaPct) <? pct then u32 (pct - deltaPct) else tafMinPct)
  else None.

Definition err_delta (oldDeltaPct : Z) : option Z :=
  if oldDeltaPct <? tafDeltaPctMax then Some (u32 (oldDeltaPct * 2)) else None.

Definition store (o : option Z) (old : Z) : Z := default old o.

(** A call that runs alone. *)
Definition NotifyOK (tf : taf) : taf :=
  mkTaf (store (ok_pct (pct tf)) (pct tf)) (store (ok_delta (deltaPct tf)) (deltaPct tf)) (shard tf).

Definition NotifyError (tf : taf) : taf :=
  mkTaf (store (err_pct (pct tf) (deltaPct tf)) (pct tf))
        (store (err_delta (deltaPct tf)) (deltaPct tf)) (shard tf).

(** *** Racing calls

    The fields are loaded and stored by separate atomic operations. A goroutine is
    between calls, or has loaded [pct], or has loaded both fields, or has done its
    store of [pct]. *)

Inductive call := OK | Err.

Inductive goroutine :=
  | Idle
  | Loaded1 (c : call) (p : Z)
  | Loaded2 (c : call) (p d : Z)
  | Stored1 (c : call) (d : Z).

Definition new_pct (c : call) (p d : Z) : option Z :=
  match c with OK => ok_pct p | Err => err_pct p d end.

Definition new_delta (c : call) (d : Z) : option Z :=
  match c with OK => ok_delta d | Err => err_delta d end.

(** One atomic operation of one goroutine. *)
Inductive gstep : taf → goroutine → taf → goroutine → Prop :=
  | load_pct tf c : gstep tf Idle tf (Loaded1 c (pct tf))
  | load_delta tf c p : gstep tf (Loaded1 c p) tf (Loaded2 c p (deltaPct tf))
  | store_pct tf c p d :
      gstep tf (Loaded2 c p d) (mkTaf (store (new_pct c p d) (pct tf)) (deltaPct tf) (shard tf)) (Stored1 c d)
  | store_delta tf c d :
      gstep tf (Stored1 c d) (mkTaf (pct tf) (store (new_delta c d) (deltaPct tf)) (shard tf)) Idle.

Inductive step : taf * list goroutine → taf * list goroutine → Prop :=
  | step_one tf tf' gs i g g' : gs !! i = Some g → gstep tf g tf' g' →
      step (tf, gs) (tf', <[i := g']> gs).

(** The states reached from the initial one with [n] goroutines. *)
Inductive reachable (n : nat) (sh : Z) : taf * list goroutine → Prop :=
  | reach_init : reachable n sh (mkTaf tafMaxPct 1 sh, replicate n Idle)
  | reach_step s s' : reachable n sh s → step s s' → reachable n sh s'.

Definition pct_ok (p : Z) : Prop := 1 <= p <= 110.
Definition delta_ok (d : Z) : Prop :=
  d = 1 ∨ d = 2 ∨ d = 4 ∨ d = 8 ∨ d = 16 ∨ d = 32 ∨ d = 64.
Definition taf_ok (tf : taf) : Prop := pct_ok (pct tf) ∧ delta_ok (deltaPct tf).

Definition goroutine_ok (g : goroutine) : Prop :=
  match g with
  | Idle => True
  | Loaded1 _ p => pct_ok p
  | Loaded2 _ p d => pct_ok p ∧ delta_ok d
  | Stored1 _ d => delta_ok d
  end.

Lemma new_pct_ok c p d old : pct_ok p → delta_ok d → pct_ok old → pct_ok (store (new_pct c p d) old).
Proof.
  intros Hp Hd Ho. unfold pct_ok in *. destruct c; simpl.
  - unfold ok_pct, tafMaxPct, tafPctChange, store. zb; rewrite ?u32_id by go_lia; lia.
  - unfold err_pct, tafMinPct, tafPctChange, store.
    destruct Hd as [->|[->|[->|[->|[->|[->| ->]]]]]]; simpl;
      rewrite ?(u32_id (_ + _)) by go_lia; zb; rewrite ?u32_id by go_lia; lia.
Qed.

Lemma new_delta_ok c d old : delta_ok d → delta_ok old → delta_ok (store (new_delta c d) old).
Proof.
  intros Hd Ho. destruct Hd as [->|[->|[->|[->|[->|[->| ->]]]]]], c; simpl;
    unfold ok_delta, err_delta, store; simpl; done || (unfold delta_ok; vm_compute; auto 10).
Qed.

Lemma gstep_ok tf g tf' g' : gstep tf g tf' g' → taf_ok tf → goroutine_ok g → taf_ok tf' ∧ goroutine_ok g'.
Proof.
  intros [] [Hp Hd] Hg; simpl in *; unfold taf_ok; simpl; split_and?; try tauto;
    auto using new_delta_ok; apply new_pct_ok; tauto.
Qed.

Lemma NotifyOK_ok tf : taf_ok tf → taf_ok (NotifyOK tf).
Proof. intros [Hp Hd]. split; [by apply (new_pct_ok OK _ (deltaPct tf))|by apply (new_delta_ok OK)]. Qed.

Lemma NotifyError_ok tf : taf_ok tf → taf_ok (NotifyError tf).
Proof. intros [Hp Hd]. split; [by apply (new_pct_ok Err)|by apply (new_delta_ok Err)]. Qed.

(** Whatever number of goroutines race in [NotifyOK] and [NotifyError], whose
    loads and stores interleave in any order, [pct] stays in 1..110 and [deltaPct] a
    power of two in 1..64; so [UsePrimary] can always answer true (the primary is
    always probed) and always answers true while [pct] is at least 100. *)
Theorem taf_race_invariant (n : nat) (sh : Z) (tf : taf) (gs : list goroutine) :
  reachable n sh (tf, gs) →
  taf_ok tf ∧ UsePrimary 0 tf = true ∧
  (100 <= pct tf → ∀ r, 0 <= r < 100 → UsePrimary r tf = true).
Proof.
  intros Hr. assert (taf_ok tf ∧ Forall goroutine_ok gs) as [Ht _].
  { remember (tf, gs) as s eqn:E. revert tf gs E.
    induction Hr as [|s s' _ IH Hs]; intros tf' gs' E.
    - injection E as <- <-. split; [split; [unfold pct_ok, tafMaxPct; simpl; lia|by left]|by apply Forall_replicate].
    - subst s'. inversion Hs as [tf tf2 gs i g g' Hg Hst]; subst. destruct (IH tf gs eq_refl) as [Ht HF].
      destruct (gstep_ok _ _ _ _ Hst Ht) as [? ?]; [by eapply Forall_lookup_1 in HF|].
      split; [done|by apply Forall_insert]. }
  split; [done|]. destruct Ht as [Hp _]. unfold pct_ok, UsePrimary in *.
  split; [apply Z.ltb_lt; lia|]. intros ? r ?. apply Z.ltb_lt. lia.
Qed.

Lemma taf_race_invariant_witness :
  taf_ok (mkTaf 109 1 0) ∧ UsePrimary 0 (mkTaf 109 1 0) = true ∧
  (100 <= 109 → ∀ r, 0 <= r < 100 → UsePrimary r (mkTaf 109 1 0) = true).
Proof.
  apply (taf_race_invariant 2 0 (mkTaf 109 1 0) [Stored1 Err 1; Idle]).
  set (tf := mkTaf 110 1 0).
  apply (reach_step _ _ (tf, [Loaded2 Err 110 1; Idle])).
  2: exact (step_one tf _ [Loaded2 Err 110 1; Idle] 0 _ _ eq_refl (store_pct tf Err 110 1)).
  apply (reach_step _ _ (tf, [Loaded1 Err 110; Idle])).
  2: exact (step_one tf _ [Loaded1 Err 110; Idle] 0 _ _ eq_refl (load_delta tf Err 110)).
  apply (reach_step _ _ (tf, [Idle; Idle])); [apply reach_init|].
  exact (step_one tf _ [Idle; Idle] 0 _ _ eq_refl (load_pct tf Err)).
Defined.

(** *** Convergence *)

Definition states : list taf :=
  p ← Z.of_nat <$> seq 1 110; d ← [1; 2; 4; 8; 16; 32; 64]; [mkTaf p d 0].

Lemma states_complete tf : taf_ok tf → mkTaf (pct tf) (deltaPct tf) 0 ∈ states.
Proof.
  intros [Hp Hd]. unfold states. apply list_elem_of_bind. exists (pct tf). split.
  - apply list_elem_of_bind. exists (deltaPct tf). split; [by apply list_elem_of_singleton|].
    unfold delta_ok in Hd. rewrite !elem_of_cons. tauto.
  - apply list_elem_of_fmap. exists (Z.to_nat (pct tf)). unfold pct_ok in Hp. split; [lia|].
    apply elem_of_seq. lia.
Qed.

(** The shard number plays no part. *)
Lemma iter_fields (f : taf → taf) k tf tf' :
  (∀ tf tf', pct tf = pct tf' → deltaPct tf = deltaPct tf' →
     pct (f tf) = pct (f tf') ∧ deltaPct (f tf) = deltaPct (f tf')) →
  pct tf = pct tf' → deltaPct tf = deltaPct tf' →
  pct (Nat.iter k f tf) = pct (Nat.iter k f tf') ∧ deltaPct (Nat.iter k f tf) = deltaPct (Nat.iter k f tf').
Proof. intros Hf Hp Hd. induction k as [|k [IH1 IH2]]; [done|]. apply Hf; done. Qed.

Definition converges (n m : nat) (tf : taf) : bool :=
  (pct (Nat.iter n NotifyError tf) =? tafMinPct) && (pct (Nat.iter m NotifyOK tf) =? tafMaxPct).

Lemma converges_all n m tf : forallb (converges n m) states = true → taf_ok tf →
  pct (Nat.iter n NotifyError tf) = tafMinPct ∧ pct (Nat.iter m NotifyOK tf) = tafMaxPct.
Proof.
  intros Hall Ht. pose proof (states_complete tf Ht) as Hin.
  rewrite forallb_forall in Hall. apply list_elem_of_In, Hall in Hin.
  apply andb_prop in Hin as [H1%Z.eqb_eq H2%Z.eqb_eq]. rewrite <- H1, <- H2.
  split; apply iter_fields; try done; intros t t' Hp Hd; unfold NotifyError, NotifyOK; simpl;
    by rewrite Hp, Hd.
Qed.

Lemma converges_states : forallb (converges 14 11) states = true.
Proof. vm_compute. reflexivity. Qed.

(** C36: failover and recovery are bounded. From every state the percentage can be in,
    14 consecutive errors bring it to 1 (1% of the requests still probe the primary)
    and 11 consecutive successes bring it back to 110. *)
Theorem taf_converges (tf : taf) : taf_ok tf →
  pct (Nat.iter 14 NotifyError tf) = tafMinPct ∧ pct (Nat.iter 11 NotifyOK tf) = tafMaxPct.
Proof.
  apply converges_all, converges_states.
Qed.

Lemma taf_converges_witness :
  pct (Nat.iter 14 NotifyError (mkTaf 110 1 3)) = tafMinPct ∧
  pct (Nat.iter 11 NotifyOK (mkTaf 110 1 3)) = tafMaxPct.
Proof.
  apply (taf_converges (mkTaf 110 1 3)). split; [unfold pct_ok, tafMaxPct; simpl; lia|by left]. Defined.

End Taf.

(** ** lib/lock_timeout.go *)

Module LockTimeout.

Record LockTimeout := mkLock { frontLock : Z }.

(** 1 when the lock was acquired, 0 when it is taken. *)
Definition TryLock (lt : LockTimeout) : LockTimeout * Z :=
  if frontLock lt =? 0 then (mkLock 1, 1) else (lt, 0).

Definition Unlock (lt : LockTimeout) : LockTimeout := mkLock 0.

End LockTimeout.

(** ** Queries that are always slow *)

Module TafQueries.
Import LockTimeout.

Record TafQueryRuns := mkRuns { startTimeUS : Z; didTimeoutCnt : Z }.

Record TafQueries := mkQueries {
  lock : LockTimeout;
  records : gmap Z TafQueryRuns;
  CountNormallyFast : Z;
  debugContentions : Z
}.

(** The entries of the configuration the statistics use. *)
Record TafConfig := mkTafConfig {
  TAFBinDuration : Z;
  TAFNormallySlowCount : Z;
  TAFAllowSlowEveryX : Z
}.

Definition GetTafQueries : TafQueries := mkQueries (mkLock 0) ∅ 0 0.

(** [None] is [TryLockContentionError]. *)
Definition contention (tq : TafQueries) : TafQueries * option bool :=
  (mkQueries (lock tq) (records tq) (CountNormallyFast tq) (debugContentions tq + 1), None).

(** The record after its bin has expired. *)
Definition refresh (cfg : TafConfig) (nowUS : Z) (rec : TafQueryRuns) : TafQueryRuns :=
  if startTimeUS rec + TAFBinDuration cfg * 1000 * 1000 <? nowUS then mkRuns nowUS 0 else rec.

(** [nowUS] is the time the call reads. *)
Definition IsNormallySlow (cfg : TafConfig) (nowUS sqlhash : Z) (tq : TafQueries) : TafQueries * option bool :=
  let '(lk, lrv) := TryLock (lock tq) in
  if lrv =? 0 then contention tq else
  let recs := if lrv =? -1 then ∅ else records tq in
  match recs !! sqlhash with
  | None => (mkQueries (Unlock lk) recs (CountNormallyFast tq) (debugContentions tq), Some false)
  | Some rec =>
    let rec := refresh cfg nowUS rec in
    let recs := <[sqlhash := rec]> recs in
    let outBool := TAFNormallySlowCount cfg <=? didTimeoutCnt rec in
    let '(out, fast) :=
      if negb outBool then (outBool, CountNormallyFast tq + 1)
      else (if CountNormallyFast tq <? TAFAllowSlowEveryX cfg then false else outBool, 0) in
    (mkQueries (Unlock lk) recs fast (debugContentions tq), Some out)
  end.

Definition RecordTimeout (cfg : TafConfig) (nowUS sqlhash : Z) (tq : TafQueries) : TafQueries * option bool :=
  let '(lk, lrv) := TryLock (lock tq) in
  if lrv =? 0 then contention tq else
  let recs := if lrv =? -1 then ∅ else records tq in
  let rec := default (mkRuns nowUS 0) (recs !! sqlhash) in
  let rec := refresh cfg nowUS rec in
  let rec := mkRuns (startTimeUS rec) (didTimeoutCnt rec + 1) in
  (mkQueries (Unlock lk) (<[sqlhash := rec]> recs) (CountNormallyFast tq) (debugContentions tq), Some true).

(** *** A run of calls *)

Inductive op := Ask (nowUS sqlhash : Z) | Timeout (nowUS sqlhash : Z).

Definition exec (cfg : TafConfig) (o : op) (tq : TafQueries) : TafQueries * option bool :=
  match o with
  | Ask now h => IsNormallySlow cfg now h tq
  | Timeout now h => RecordTimeout cfg now h tq
  end.

(** The answers of the [Ask] calls, in order. *)
Fixpoint run (cfg : TafConfig) (os : list op) (tq : TafQueries) : TafQueries * list (option bool) :=
  match os with
  | [] => (tq, [])
  | o :: os =>
    let '(tq, a) := exec cfg o tq in
    let '(tq, l) := run cfg os tq in
    (tq, match o with Ask _ _ => a :: l | Timeout _ _ => l end)
  end.

(** What one question does to the count of fast queries. *)
Lemma ask_count cfg now h tq tq' a : frontLock (lock tq) = 0 → 0 <= CountNormallyFast tq →
  IsNormallySlow cfg now h tq = (tq', a) →
  frontLock (lock tq') = 0 ∧
  ((a = Some true ∧ TAFAllowSlowEveryX cfg <= CountNormallyFast tq ∧ CountNormallyFast tq' = 0) ∨
   (a = Some false ∧ 0 <= CountNormallyFast tq' <= CountNormallyFast tq + 1)).
Proof.
  intros Hl Hc. unfold IsNormallySlow, TryLock. rewrite Hl. simpl.
  destruct (records tq !! h) as [rec|]; [|intros; simplify_eq/=; split; [done|right; split; [done|lia]]].
  destruct (TAFNormallySlowCount cfg <=? _); simpl; [|intros; simplify_eq/=; split; [done|right; split; [done|lia]]].
  destruct (Z.ltb_spec (CountNormallyFast tq) (TAFAllowSlowEveryX cfg)); intros; simplify_eq/=;
    (split; [done|]); [right; split; [done|lia]|left; done].
Qed.

Lemma timeout_count cfg now h tq tq' a : frontLock (lock tq) = 0 →
  RecordTimeout cfg now h tq = (tq', a) →
  frontLock (lock tq') = 0 ∧ CountNormallyFast tq' = CountNormallyFast tq.
Proof. intros Hl. unfold RecordTimeout, TryLock. rewrite Hl. simpl. intros. by simplify_eq/=. Qed.

Lemma run_spacing cfg os tq tq' l k : frontLock (lock tq) = 0 → 0 <= CountNormallyFast tq →
  run cfg os tq = (tq', l) → l !! k = Some (Some true) →
  TAFAllowSlowEveryX cfg <= CountNormallyFast tq + Z.of_nat k.
Proof.
  revert tq l k. induction os as [|o os IH]; intros tq l k Hl Hc E Hk; simplify_eq/=.
  destruct (exec cfg o tq) as [tq1 a] eqn:E1. destruct (run cfg os tq1) as [tq2 l2] eqn:E2.
  destruct o as [now h|now h]; simplify_eq/=.
  - destruct (ask_count _ _ _ _ _ _ Hl Hc E1) as [Hl1 [(-> & Hx & Hz)|(-> & Hx)]]; [lia|].
    destruct k as [|k]; [done|]. specialize (IH tq1 l2 k Hl1 ltac:(lia) E2 Hk). lia.
  - destruct (timeout_count _ _ _ _ _ _ Hl E1) as [Hl1 Hc1]. rewrite <- Hc1. apply (IH tq1 l k); try done. lia.
Qed.

(** Slow queries are rationed. In every run of calls on the statistics of a shard,
    between two answers "normally slow" there are at least [TAFAllowSlowEveryX]
    other answers of [IsNormallySlow], whatever timeouts are recorded meanwhile. *)
Theorem slow_answers_spaced (cfg : TafConfig) (os : list op) (tq tq' : TafQueries)
    (l : list (option bool)) (i j : nat) :
  frontLock (lock tq) = 0 → 0 <= CountNormallyFast tq → run cfg os tq = (tq', l) →
  l !! i = Some (Some true) → l !! j = Some (Some true) → (i < j)%nat →
  TAFAllowSlowEveryX cfg <= Z.of_nat (j - i - 1).
Proof.
  revert tq l i j. induction os as [|o os IH]; intros tq l i j Hl Hc E Hi Hj Hij; simplify_eq/=.
  destruct (exec cfg o tq) as [tq1 a] eqn:E1. destruct (run cfg os tq1) as [tq2 l2] eqn:E2.
  destruct o as [now h|now h]; simplify_eq/=.
  - destruct (ask_count _ _ _ _ _ _ Hl Hc E1) as [Hl1 Ha]. destruct j as [|j]; [lia|]. simpl in Hj.
    destruct i as [|i]; simplify_eq/=.
    + destruct Ha as [(_ & _ & Hz)|[? _]]; [|done].
      pose proof (run_spacing cfg os tq1 tq' l2 j Hl1 ltac:(lia) E2 Hj).
      replace (j - 0)%nat with j by lia. lia.
    + apply (IH tq1 l2 i j); try done; lia.
  - destruct (timeout_count _ _ _ _ _ _ Hl E1) as [Hl1 Hc1]. apply (IH tq1 l i j); try done. lia.
Qed.

Lemma slow_answers_spaced_witness :
  TAFAllowSlowEveryX (mkTafConfig 10 1 1) <= Z.of_nat (3 - 1 - 1).
Proof.
  apply (slow_answers_spaced (mkTafConfig 10 1 1)
    [Timeout 5 7; Timeout 5 8; Ask 100000000 8; Ask 6 7; Ask 100000001 8; Ask 7 7] GetTafQueries
    (run (mkTafConfig 10 1 1)
      [Timeout 5 7; Timeout 5 8; Ask 100000000 8; Ask 6 7; Ask 100000001 8; Ask 7 7] GetTafQueries).1
    (run (mkTafConfig 10 1 1)
      [Timeout 5 7; Timeout 5 8; Ask 100000000 8; Ask 6 7; Ask 100000001 8; Ask 7 7] GetTafQueries).2 1 3);
    vm_compute; reflexivity || discriminate || lia.
Defined.

End TafQueries.
