(* ===== verification/ConfigFile.v ===== *)
(** * Configuration files (config/config.go, config/txt.go): parsing of <key>=<value>
    lines and the typed getters, with what the sources use of strings and strconv. *)

From S2P Require Import Prelude.
From stdpp Require Import base list gmap strings.
From Stdlib Require Import ZArith Lia.
Open Scope Z_scope.

(** ** What the sources use of strings and strconv *)

Module GoStrings.

(** [strings.ToLower] and [strings.ToUpper] on ASCII text. *)
Definition lower (b : byte) : byte := if (65 <=? b) && (b <=? 90) then b + 32 else b.
Definition upper (b : byte) : byte := if (97 <=? b) && (b <=? 122) then b - 32 else b.
Definition ToLower (s : bytes) : bytes := map lower s.
Definition ToUpper (s : bytes) : bytes := map upper s.

Definition Contains_byte (c : byte) (s : bytes) : bool := existsb (Z.eqb c) s.

(** [strings.Split] on a one-byte separator: at least one field. *)
Fixpoint Split (sep : byte) (s : bytes) : list bytes :=
  match s with
  | [] => [[]]
  | b :: s =>
    if b =? sep then [] :: Split sep s
    else match Split sep s with
         | f :: fs => (b :: f) :: fs
         | [] => [[b]]
         end
  end.

Definition is_blank (b : byte) : bool := (b =? 32) || (b =? 9).

Fixpoint trim_left (s : bytes) : bytes :=
  match s with
  | b :: s' => if is_blank b then trim_left s' else s
  | [] => []
  end.

(** [strings.Trim(s, " \t")] *)
Definition Trim (s : bytes) : bytes := rev (trim_left (rev (trim_left s))).

(** The digits of a number; [None] on a byte that is not a digit. *)
Fixpoint parse_digits (s : bytes) (acc : Z) : option Z :=
  match s with
  | [] => Some acc
  | b :: s => if (48 <=? b) && (b <=? 57) then parse_digits s (acc * 10 + (b - 48)) else None
  end.

Definition split_sign (s : bytes) : bool * bytes :=
  match s with
  | b :: ds => if b =? 45 then (true, ds) else if b =? 43 then (false, ds) else (false, s)
  | [] => (false, [])
  end.

(** [strconv.ParseInt(s, 10, bits)]: the value, clamped when out of range, and
    whether the error is nil. *)
Definition ParseInt (bits : Z) (s : bytes) : Z * bool :=
  let '(neg, ds) := split_sign s in
  match ds with
  | [] => (0, false)
  | _ =>
    match parse_digits ds 0 with
    | None => (0, false)
    | Some n =>
      let cutoff := 2 ^ (bits - 1) in
      if negb neg && (cutoff <=? n) then (cutoff - 1, false)
      else if neg && (cutoff <? n) then (- cutoff, false)
      else (if neg then - n else n, true)
    end
  end.

(** [strconv.Atoi] *)
Definition Atoi (s : bytes) : option Z :=
  match ParseInt 64 s with (n, true) => Some n | (_, false) => None end.

Lemma parse_digits_ok ds acc : Forall is_digit ds → parse_digits ds acc = Some (digits_val acc ds).
Proof.
  intros F. revert acc. induction F as [|d ds Hd F IH]; intros acc; [done|].
  simpl. unfold is_digit in Hd. rewrite !(proj2 (Z.leb_le _ _)) by lia. simpl. apply IH.
Qed.

Lemma split_sign_digit d ds : is_digit d → split_sign (d :: ds) = (false, d :: ds).
Proof. unfold is_digit, split_sign. intros. by rewrite !(proj2 (Z.eqb_neq _ _)) by lia. Qed.

(** [strconv.Atoi] reads back what fmt prints. *)
Lemma Atoi_itoa n : 0 <= n < 2 ^ 63 → Atoi (itoa n) = Some n.
Proof.
  intros Hn. destruct (itoa_spec n) as (F & Hne & V); [lia|].
  unfold Atoi, ParseInt. destruct (itoa n) as [|d ds] eqn:E; [done|].
  apply Forall_cons_1 in F as [Hd F]. rewrite split_sign_digit by done.
  rewrite parse_digits_ok, V by by constructor. simpl negb.
  rewrite (proj2 (Z.leb_gt _ _)) by (change (2 ^ (64 - 1)) with (2 ^ 63); lia). done.
Qed.

Lemma Split_none sep s : sep ∉ s → Split sep s = [s].
Proof.
  induction s as [|b s IH]; intros H; [done|]. apply not_elem_of_cons in H as [Hb Hs].
  simpl. rewrite (proj2 (Z.eqb_neq b sep)) by congruence. rewrite IH by done. reflexivity.
Qed.

Lemma Split_cons sep s t : sep ∉ s → Split sep (s ++ sep :: t) = s :: Split sep t.
Proof.
  induction s as [|b s IH]; intros H; simpl; [by rewrite Z.eqb_refl|].
  apply not_elem_of_cons in H as [Hb Hs].
  rewrite (proj2 (Z.eqb_neq b sep)) by congruence. rewrite IH by done. reflexivity.
Qed.

Lemma trim_left_id s : Forall (λ b, is_blank b = false) s → trim_left s = s.
Proof. destruct 1 as [|b s Hb _]; [done|]. simpl. by rewrite Hb. Qed.

Lemma Trim_id s : Forall (λ b, is_blank b = false) s → Trim s = s.
Proof.
  intros F. unfold Trim. rewrite (trim_left_id s) by done.
  rewrite trim_left_id by by apply Forall_rev. apply rev_involutive.
Qed.

End GoStrings.

(** ** config/txt.go and config/config.go *)

Module TxtConfig.
Import GoStrings.

Abbreviation data := (gmap (list Z) (list Z)).

(** [ErrOpen] stands for the error of os.Open or os.Stat. *)
Inductive cfg_error : Set := ErrNotFound | ErrInvalidConfig | ErrInvalidConfigValue | ErrOpen.

#[export] Instance cfg_error_eq_dec : EqDecision cfg_error.
Proof. solve_decision. Defined.

(** One line of the file. A line with "=" has at least two fields. *)
Definition add_line (d : data) (line : bytes) : data :=
  if negb (match line with 35 :: _ => true | _ => false end) && Contains_byte 61 line then
    match Split 61 line with
    | k :: v :: _ => <[Trim k := Trim v]> d
    | _ => d
    end
  else d.

(** [newTxtConfig] on the lines of the file. *)
Definition newTxtConfig (lines : list bytes) : data := fold_left add_line lines ∅.

(** A word of a line: no separator and no blank. *)
Definition word (s : bytes) : Prop := Forall (λ b, is_blank b = false ∧ b ≠ 61) s.

#[export] Instance word_dec s : Decision (word s).
Proof. unfold word. apply _. Defined.

Lemma word_app s t : word s → word t → word (s ++ t).
Proof. apply Forall_app_2. Qed.

Lemma word_blank s : word s → Forall (λ b, is_blank b = false) s.
Proof. intros F. apply (List.Forall_impl _ (λ b (H : is_blank b = false ∧ b ≠ 61), proj1 H) F). Qed.

Lemma word_sep s : word s → 61 ∉ s.
Proof. intros F [i Hi]%list_elem_of_lookup. eapply Forall_lookup_1 in F; [|done]. naive_solver. Qed.

(** A line <key>=<value> of words that is not a comment sets the key, and the last
    line for a key counts. *)
Lemma newTxtConfig_line ls k v : word k → word v → head k ≠ Some 35 →
  newTxtConfig (ls ++ [k ++ 61 :: v]) = <[k := v]> (newTxtConfig ls).
Proof.
  intros Hk Hv Hh. unfold newTxtConfig. rewrite fold_left_app. simpl. unfold add_line.
  assert (Hc : (match k ++ 61 :: v with 35 :: _ => true | _ => false end) = false).
  { destruct k as [|b k]; [done|]. simpl in *. assert (b ≠ 35) by congruence.
    destruct b as [|p|p]; try done. by do 6 (destruct p as [p|p|]; try done). }
  rewrite Hc. replace (Contains_byte 61 (k ++ 61 :: v)) with true.
  2: { symmetry. apply existsb_exists. exists 61. split; [|done]. apply in_or_app. right. by left. }
  simpl negb. cbn [andb]. rewrite Split_cons, Split_none by (by apply word_sep).
  by rewrite !Trim_id by by apply word_blank.
Qed.

Definition GetValue (d : data) (key : bytes) : bytes + cfg_error :=
  match d !! key with Some v => inl v | None => inr ErrNotFound end.

Definition GetInt (d : data) (key : bytes) : Z + cfg_error :=
  match GetValue d key with
  | inl v => match Atoi v with Some n => inl n | None => inr ErrInvalidConfigValue end
  | inr e => inr e
  end.

Definition GetOrDefaultInt (d : data) (key : bytes) (def : Z) : Z :=
  match GetInt d key with inl n => n | inr _ => def end.

Definition GetString (d : data) (key : bytes) : bytes + cfg_error := GetValue d key.

Definition GetOrDefaultString (d : data) (key def : bytes) : bytes :=
  match GetValue d key with inl v => v | inr _ => def end.

Definition true_words : list bytes :=
  [str "1"; str "on"; str "true"; str "yes"; str "enable"; str "enabled"].

Definition GetBool (d : data) (key : bytes) : bool + cfg_error :=
  match GetValue d key with
  | inl v => inl (bool_decide (ToLower v ∈ true_words))
  | inr e => inr e
  end.

Definition GetOrDefaultBool (d : data) (key : bytes) (def : bool) : bool :=
  match GetBool d key with inl b => b | inr _ => def end.

Definition IsSwitchEnabled (d : data) (key : bytes) : bool := GetOrDefaultBool d key false.

End TxtConfig.
