(* ===== verification/OpsFile.v ===== *)
(** * The ops configuration (config/ops_config.go): a configuration file that is
    reloaded when it changes, looked up in the section of the application first and in
    the default section after it. *)

From S2P Require Import Prelude ConfigFile.
From stdpp Require Import base list gmap strings.
From Stdlib Require Import ZArith Lia.
Open Scope Z_scope.

Module OpsFile.
Import GoStrings TxtConfig.

(** [lastModTime] is [None] for the zero time; [ops_data] is the parsed file while
    [ops_err] is nil. *)
Record opsConfig := mkOps {
  ops_data : data;
  cfgName : bytes;
  lastModTime : option Z;
  ops_err : option cfg_error;
  keyPrefix : bytes
}.

Definition buildKey (c : opsConfig) (key : bytes) : bytes := keyPrefix c ++ key.
Definition defaultKey (key : bytes) : bytes := str "opscfg.default.server." ++ key.

(** [Load]: the file as [os.Open] finds it, [None] when it cannot be opened. *)
Definition Load (c : opsConfig) (file : option (list bytes)) : opsConfig * option cfg_error :=
  match file with
  | Some ls => (mkOps (newTxtConfig ls) (cfgName c) (lastModTime c) None (keyPrefix c), None)
  | None => (mkOps ∅ (cfgName c) (lastModTime c) (Some ErrOpen) (keyPrefix c), Some ErrOpen)
  end.

(** [Changed]: the modification time [os.Stat] reports, [None] when it fails. *)
Definition Changed (c : opsConfig) (stat : option Z) : opsConfig * bool :=
  match cfgName c with
  | [] => (c, false)
  | _ =>
    match stat with
    | None => (mkOps (ops_data c) (cfgName c) (lastModTime c) (Some ErrOpen) (keyPrefix c), false)
    | Some t =>
      if bool_decide (Some t = lastModTime c) then (c, false)
      else (mkOps (ops_data c) (cfgName c) (Some t) (ops_err c) (keyPrefix c), true)
    end
  end.

(** The base name of a path: what follows the last slash. *)
Definition Base (name : bytes) : bytes := List.last (Split 47 name) [].

(** [InitOpsConfigWithName] on a name that ends in a four byte extension and not in
    a slash. *)
Definition InitOpsConfigWithName (name : bytes) (file : option (list bytes)) : opsConfig * option cfg_error :=
  let base := Base name in
  let prefix := str "opscfg." ++ take (length base - 4) base ++ str ".server." in
  Load (mkOps ∅ name None (Some ErrInvalidConfig) prefix) file.

Lemma Base_word name : word name → word (Base name).
Proof.
  intros Hw. unfold Base. enough (Forall word (Split 47 name)) as F.
  { destruct (Split 47 name) as [|f fs] eqn:E; [constructor|].
    rewrite Forall_forall in F. apply F. apply list_elem_of_In. rewrite <- E in *.
    destruct (exists_last (l := Split 47 name)) as (l' & x & ->); [by rewrite E|].
    rewrite last_last. apply in_or_app. right. by left. }
  induction Hw as [|b s Hb Hs IH]; simpl; [repeat constructor|].
  destruct (b =? 47); [by constructor; [constructor|]|].
  destruct (Split 47 s) as [|f fs]; [repeat constructor; apply Hb|].
  apply Forall_cons in IH as [Hf Hfs]. constructor; [by constructor|done].
Qed.

Lemma prefix_word name : word name →
  word (str "opscfg." ++ take (length (Base name) - 4) (Base name) ++ str ".server.").
Proof.
  intros H. apply word_app; [|apply word_app].
  - by_decide.
  - by apply Forall_take, Base_word.
  - by_decide.
Qed.

Definition GetInt (c : opsConfig) (key : bytes) : Z + cfg_error :=
  match ops_err c with
  | Some e => inr e
  | None =>
    match TxtConfig.GetInt (ops_data c) (buildKey c key) with
    | inr ErrNotFound => TxtConfig.GetInt (ops_data c) (defaultKey key)
    | r => r
    end
  end.

(** The wrapped getter returns 0 with an error other than not found, and the error
    is dropped. *)
Definition GetOrDefaultInt (c : opsConfig) (key : bytes) (def : Z) : Z :=
  match ops_err c with
  | Some _ => def
  | None =>
    match TxtConfig.GetInt (ops_data c) (buildKey c key) with
    | inl n => n
    | inr ErrNotFound => TxtConfig.GetOrDefaultInt (ops_data c) (defaultKey key) def
    | inr _ => 0
    end
  end.

Definition GetString (c : opsConfig) (key : bytes) : bytes + cfg_error :=
  match ops_err c with
  | Some e => inr e
  | None =>
    match TxtConfig.GetString (ops_data c) (buildKey c key) with
    | inr ErrNotFound => TxtConfig.GetString (ops_data c) (defaultKey key)
    | r => r
    end
  end.

Definition GetOrDefaultString (c : opsConfig) (key def : bytes) : bytes :=
  match ops_err c with
  | Some _ => def
  | None =>
    match TxtConfig.GetString (ops_data c) (buildKey c key) with
    | inl v => v
    | inr ErrNotFound => TxtConfig.GetOrDefaultString (ops_data c) (defaultKey key) def
    | inr _ => []
    end
  end.

Definition GetBool (c : opsConfig) (key : bytes) : bool + cfg_error :=
  match ops_err c with
  | Some e => inr e
  | None =>
    match TxtConfig.GetBool (ops_data c) (buildKey c key) with
    | inr ErrNotFound => TxtConfig.GetBool (ops_data c) (defaultKey key)
    | r => r
    end
  end.

Definition GetOrDefaultBool (c : opsConfig) (key : bytes) (def : bool) : bool :=
  match ops_err c with
  | Some _ => def
  | None =>
    match TxtConfig.GetBool (ops_data c) (buildKey c key) with
    | inl b => b
    | inr ErrNotFound => TxtConfig.GetOrDefaultBool (ops_data c) (defaultKey key) def
    | inr _ => false
    end
  end.

Definition IsSwitchEnabled (c : opsConfig) (key : bytes) : bool :=
  match ops_err c with
  | Some _ => false
  | None => TxtConfig.IsSwitchEnabled (ops_data c) (buildKey c key)
  end.

End OpsFile.
