(* ===== verification/Config.v ===== *)
(** * The proxy's configuration (lib/config.go): the static configuration read at
    start-up, the ops configuration that can change at run time, and the worker
    counts, backlog limits and recovery rates the pools derive from them. *)

From S2P Require Import Prelude ConfigFile OpsFile Taf.
From stdpp Require Import base list gmap strings.
From Stdlib Require Import ZArith Lia Floats.SpecFloat.
Open Scope Z_scope.

(** ** float32 arithmetic, as the throttle computations use it *)

Module F32.

Definition prec : Z := 24.
Definition emax : Z := 128.
Definition of_int (z : Z) : spec_float := binary_normalize prec emax z 0 false.
Definition div : spec_float → spec_float → spec_float := SFdiv prec emax.

(** Conversion to int truncates toward zero. *)
Definition to_int (f : spec_float) : Z :=
  match f with
  | S754_finite s m e =>
    let v := if 0 <=? e then Zpos m * 2 ^ e else Z.quot (Zpos m) (2 ^ (- e)) in
    if s then - v else v
  | _ => 0
  end.

End F32.

Module Config.
Import GoStrings TxtConfig.

Inductive dbtype : Set := Oracle | MySQL.
Inductive HeraWorkerType : Set := wtypeRW | wtypeRO | wtypeStdBy.

(** The fields of [Config] set when sharding is enabled. *)
Record ShardingPart := mkShardingPart {
  UseShardMap : bool;
  NumOfShards : Z;
  ShardKeyName : bytes;
  MaxScuttleBuckets : Z;
  ScuttleColName : bytes;
  ShardingAlgoHash : bool;
  ShardKeyValueTypeIsString : bool;
  EnableWhitelistTest : bool;
  NumWhitelistChildren : Z;
  ShardingPostfix : bytes;
  ShardingCfgReloadInterval : Z;
  ShardingCrossKeysErr : bool
}.

(** The fields set when TAF is enabled. *)
Record TafPart := mkTafPart {
  TAFTimeoutMs : Z;
  TAFBinDuration : Z;
  TAFAllowSlowEveryX : Z;
  TAFNormallySlowCount : Z
}.

Record Config := mkConfig {
  CertChainFile : bytes;
  KeyFile : bytes;
  Port : Z;
  ChildExecutable : bytes;
  NumStdbyDbs : Z;
  InitialMaxChildren : Z;
  ReadonlyPct : Z;
  BacklogPct : Z;
  BacklogTimeoutMsec : Z;
  BacklogTimeoutUnit : Z;
  ShortBacklogTimeoutMsec : Z;
  SoftEvictionEffectiveTimeMs : Z;
  SoftEvictionProbability : Z;
  BouncerEnabled : bool;
  BouncerStartupDelay : Z;
  BouncerPollInterval : Z;
  ConfigReloadTimeMs : Z;
  CustomAuthTimeoutMs : Z;
  TimeSkewThresholdWarnSec : Z;
  TimeSkewThresholdErrorSec : Z;
  StrandedWorkerTimeoutMs : Z;
  LifoScheduler : bool;
  DatabaseType : dbtype;
  EnableSharding : bool;
  Sharding : ShardingPart;
  HostnamePrefix : gmap (list Z) (list Z);
  StateLogInterval : Z;
  EnableTAF : bool;
  TAF : TafPart;
  EnableProfile : bool;
  ProfileHTTPPort : bytes;
  ProfileTelnetPort : bytes;
  UseOpenSSL : bool;
  StateLogPrefix : bytes;
  ManagementTablePrefix : bytes;
  RacMaintReloadInterval : Z;
  RacRestartWindow : Z;
  lifeSpanCheckInterval : Z;
  MuxPidFile : bytes;
  EnableConnLimitCheck : bool;
  TestingEnableDMLTaf : bool;
  EnableDanglingWorkerRecovery : bool;
  GoStatsInterval : Z
}.

Record OpsConfig := mkOpsConfig {
  logLevel : Z;
  numWorkers : Z;
  idleTimeoutMs : Z;
  trIdleTimeoutMs : Z;
  maxRequestsPerChild : Z;
  maxLifespanPerChild : Z;
  satRecoverThresholdMs : Z;
  satRecoverThrottleRate : Z
}.

Definition add_pair (m : gmap (list Z) (list Z)) (pair : bytes) : gmap (list Z) (list Z) :=
  match Split 58 pair with
  | k :: v :: _ => <[k := v]> m
  | _ => m
  end.

Definition parseMapStrStr (encoded : bytes) : gmap (list Z) (list Z) :=
  match encoded with
  | [] => ∅
  | _ => fold_left add_pair (Split 44 encoded) ∅
  end.

(** The sharding fields of a configuration with sharding disabled. *)
Definition no_sharding : ShardingPart :=
  mkShardingPart false 1 [] 0 [] false false false 0 [] 0 false.

(** The [EnableSharding] block of [InitConfig]. *)
Definition init_sharding (cdb : data) : result ShardingPart :=
  let use_map := GetOrDefaultBool cdb (str "use_shardmap") true in
  let num := if use_map then GetOrDefaultInt cdb (str "num_shards") 1 else 1 in
  if (num <? 1) || (48 <? num) then Error (errors_New (str "num_shards must be between 1 and 48")) else
  let scuttle := GetOrDefaultInt cdb (str "max_scuttle") 1024 in
  if (scuttle <? 1) || (1024 <? scuttle) then
    Error (errors_New (str "max_scuttle must be between 1 and 1024")) else
  let col := GetOrDefaultString cdb (str "scuttle_col_name") (str "scuttle_id") in
  if (length col =? 0)%nat then Error (errors_New (str "scuttle_col_name is empty string")) else
  let algo := ToUpper (GetOrDefaultString cdb (str "sharding_algo") (str "hash")) in
  let is_hash := bool_decide (algo = str "HASH") in
  if negb is_hash && negb (bool_decide (algo = str "MOD")) then
    Error (errors_New (str "sharding_algo must be either hash or mod")) else
  let wl := GetOrDefaultBool cdb (str "enable_whitelist_test") false in
  Ret {|
    UseShardMap := use_map;
    NumOfShards := num;
    ShardKeyName := ToLower (GetOrDefaultString cdb (str "shard_key_name") []);
    MaxScuttleBuckets := scuttle;
    ScuttleColName := col;
    ShardingAlgoHash := is_hash;
    ShardKeyValueTypeIsString := GetOrDefaultBool cdb (str "shard_key_value_type_is_string") false;
    EnableWhitelistTest := wl;
    NumWhitelistChildren := if wl then GetOrDefaultInt cdb (str "whitelist_children") 5 else 0;
    ShardingPostfix := GetOrDefaultString cdb (str "sharding_postfix") [];
    ShardingCfgReloadInterval := GetOrDefaultInt cdb (str "sharding_cfg_reload_interval") 2;
    ShardingCrossKeysErr := GetOrDefaultBool cdb (str "sharding_cross_keys_err") false
  |}.

(** The [EnableTAF] block of [InitConfig]. *)
Definition init_taf (cdb : data) : TafPart :=
  {| TAFTimeoutMs := u32 (GetOrDefaultInt cdb (str "taf_timeout_ms") 200);
     TAFBinDuration := GetOrDefaultInt cdb (str "taf_bin_duration") (3600 * 24);
     TAFAllowSlowEveryX := GetOrDefaultInt cdb (str "taf_allow_slow_every_x") 100;
     TAFNormallySlowCount := GetOrDefaultInt cdb (str "taf_normally_slow_count") 5 |}.

(** The clamping of [NumWhitelistChildren] between 2 and the number of workers. *)
Definition clamp_whitelist (sp : ShardingPart) (max : Z) : ShardingPart :=
  if EnableWhitelistTest sp then
    let n := NumWhitelistChildren sp in
    let n := if n <? 2 then 2 else n in
    let n := if max <? n then max else n in
    mkShardingPart (UseShardMap sp) (NumOfShards sp) (ShardKeyName sp) (MaxScuttleBuckets sp)
      (ScuttleColName sp) (ShardingAlgoHash sp) (ShardKeyValueTypeIsString sp)
      (EnableWhitelistTest sp) n (ShardingPostfix sp) (ShardingCfgReloadInterval sp)
      (ShardingCrossKeysErr sp)
  else sp.

(** The ops configuration read at start-up. *)
Definition init_ops (cfg : OpsFile.opsConfig) (level workers : Z) : OpsConfig :=
  {| logLevel := OpsFile.GetOrDefaultInt cfg (str "log_level") level;
     numWorkers := u32 workers;
     idleTimeoutMs := u32 (OpsFile.GetOrDefaultInt cfg (str "idle_timeout_ms") 600000);
     trIdleTimeoutMs := u32 (OpsFile.GetOrDefaultInt cfg (str "transaction_idle_timeout_ms") 900000);
     maxRequestsPerChild := u32 (OpsFile.GetOrDefaultInt cfg (str "max_requests_per_child") 0);
     maxLifespanPerChild := u32 (OpsFile.GetOrDefaultInt cfg (str "max_lifespan_per_child") 0);
     satRecoverThresholdMs := u32 (OpsFile.GetOrDefaultInt cfg (str "saturation_recover_threshold") 200);
     satRecoverThrottleRate :=
       u32 (OpsFile.GetOrDefaultInt cfg (str "saturation_recover_throttle_rate") 0) |}.

(** The package variables the initialisation sets. [numWorkersCh] holds the values
    sent and not received yet; its capacity is 1. *)
Record Globals := mkGlobals {
  gAppConfig : Config;
  gOpsConfig : option OpsConfig;
  gConfig : option OpsFile.opsConfig;
  numWorkersCh : list Z;
  gTafs : list Taf.taf
}.

Definition ConfigMaxWorkers : bytes := str "max_connections".

(** The fields of the application's configuration that [InitConfig] sets, from the entries of
    hera.txt, the port, the initial number of workers and the two blocks that depend on the
    switches. *)
Definition app_fields (cdb : data) (sharding taf : bool) (port workers : Z) (sp : ShardingPart) (tp : TafPart) : Config :=
  let int := GetOrDefaultInt cdb in
  let text := GetOrDefaultString cdb in
  let bool := GetOrDefaultBool cdb in
  let backlog := int (str "request_backlog_timeout") 1000 in
  {|
     CertChainFile := text (str "cert_chain_file") [];
     KeyFile := text (str "key_file") [];
     Port := port;
     ChildExecutable := match text (str "child.executable") [] with [] => str "mysqlworker" | child => child end;
     NumStdbyDbs := if taf then 1 else match TxtConfig.GetInt cdb (str "num_standby_dbs") with inl n => n | inr _ => 0 end;
     InitialMaxChildren := workers;
     ReadonlyPct := int (str "readonly_children_pct") 0;
     BacklogPct := int (str "backlog_pct") 30;
     BacklogTimeoutMsec := backlog;
     BacklogTimeoutUnit := if backlog <? 5 then 1 else Z.quot backlog 5;
     ShortBacklogTimeoutMsec := int (str "short_backlog_timeout") 30;
     SoftEvictionEffectiveTimeMs := int (str "soft_eviction_effective_time") 10000;
     SoftEvictionProbability := int (str "soft_eviction_probability") 50;
     BouncerEnabled := bool (str "bouncer_enabled") true;
     BouncerStartupDelay := int (str "bouncer_startup_delay") 10;
     BouncerPollInterval := int (str "bouncer_poll_interval_ms") 100;
     ConfigReloadTimeMs := int (str "config_reload_time_ms") (30 * 1000);
     CustomAuthTimeoutMs := int (str "custom_auth_timeout") 1000;
     TimeSkewThresholdWarnSec := int (str "time_skew_threshold_warn") 2;
     TimeSkewThresholdErrorSec := int (str "time_skew_threshold_error") 15;
     StrandedWorkerTimeoutMs := int (str "max_stranded_time_interval") 2000;
     LifoScheduler := bool (str "lifo_scheduler_enabled") true;
     DatabaseType := MySQL;
     EnableSharding := sharding;
     Sharding := clamp_whitelist sp workers;
     HostnamePrefix := parseMapStrStr (text (str "hostname_prefix") []);
     StateLogInterval := let n := int (str "state_log_interval") 1 in if n <=? 0 then 1 else n;
     EnableTAF := taf;
     TAF := tp;
     EnableProfile := bool (str "enable_profile") false;
     ProfileHTTPPort := text (str "profile_http_port") (str "6060");
     ProfileTelnetPort := text (str "profile_telnet_port") (str "3030");
     UseOpenSSL := bool (str "openssl") false;
     StateLogPrefix := text (str "state_log_prefix") (str "hera");
     ManagementTablePrefix := text (str "management_table_prefix") (str "hera");
     RacMaintReloadInterval := int (str "rac_sql_interval") 10;
     RacRestartWindow := int (str "rac_restart_window") 240;
     lifeSpanCheckInterval := int (str "lifespan_check_interval") 10;
     MuxPidFile := text (str "mux_pid_file") (str "mux.pid");
     EnableConnLimitCheck := bool (str "enable_connlimit_check") false;
     TestingEnableDMLTaf := bool (str "testing_enable_dml_taf") false;
     EnableDanglingWorkerRecovery := bool (str "enable_danglingworker_recovery") false;
     GoStatsInterval := int (str "go_stats_interval") 10 |}.

(** [InitConfig] from the lines of hera.txt, with the values the sharding and TAF
    switches are set to. [ops] is the name and the content of the ops configuration
    file, when its name can be determined. The record is the state after a run
    that returns nil. *)
Definition init_config (sharding taf : bool) (hera : option (list bytes))
    (ops : option (bytes * option (list bytes))) : result Globals :=
  match hera with
  | None => Error (errors_New (str "open hera.txt"))
  | Some lines =>
    let cdb := newTxtConfig lines in
    let level := GetOrDefaultInt cdb (str "log_level") 2 in
    match TxtConfig.GetInt cdb (str "bind_port") with
    | inr _ => Error (errors_New (str "Config error: bind_port undefined"))
    | inl port =>
      sp ← (if sharding then init_sharding cdb else Ret no_sharding);
      let tp := if taf then init_taf cdb else mkTafPart 0 0 0 0 in
      let tafs := if taf then Taf.InitTAF (Z.to_nat (NumOfShards sp)) else [] in
      let opscfg := (λ '(name, file), OpsFile.InitOpsConfigWithName name file) <$> ops in
      let '(workers, gops, ch) :=
        match opscfg with
        | Some (cfg, None) =>
          let w := match OpsFile.GetInt cfg ConfigMaxWorkers with inl n => n | inr _ => 6 end in
          (w, Some (init_ops cfg level w), [w])
        | _ => (6, None, [])
        end in
      Ret (mkGlobals (app_fields cdb sharding taf port workers sp tp) gops (fst <$> opscfg) ch tafs)
    end
  end.

(** [InitConfig]: both switches are constants of the code. *)
Definition InitConfig := init_config false false.

(** [CheckOpsConfigChange]: the fields that follow the reloaded file. A log level
    that is missing or malformed keeps its value, and so does [max_connections]. *)
Definition reload_ops (cfg : OpsFile.opsConfig) (o : OpsConfig) : OpsConfig :=
  {| logLevel := match OpsFile.GetInt cfg (str "log_level") with inl l => l | inr _ => logLevel o end;
     numWorkers := match OpsFile.GetInt cfg ConfigMaxWorkers with inl n => u32 n | inr _ => numWorkers o end;
     idleTimeoutMs := u32 (OpsFile.GetOrDefaultInt cfg (str "idle_timeout_ms") 600000);
     trIdleTimeoutMs := u32 (OpsFile.GetOrDefaultInt cfg (str "transaction_idle_timeout_ms") 900000);
     maxRequestsPerChild := u32 (OpsFile.GetOrDefaultInt cfg (str "max_requests_per_child") 0);
     maxLifespanPerChild := u32 (OpsFile.GetOrDefaultInt cfg (str "max_lifespan_per_child") 0);
     satRecoverThresholdMs := u32 (OpsFile.GetOrDefaultInt cfg (str "saturation_recover_threshold") 200);
     satRecoverThrottleRate :=
       u32 (OpsFile.GetOrDefaultInt cfg (str "saturation_recover_throttle_rate") 0) |}.

(** The send blocks while the channel holds a value: the caller has to be the
    goroutine that receives, or another one. *)
Definition send_workers (ch : list Z) (n : Z) : result (list Z) :=
  match ch with [] => Ret [n] | _ => Hang end.

Definition CheckOpsConfigChange (stat : option Z) (file : option (list bytes)) (g : Globals) : result Globals :=
  match gConfig g with
  | None => Panic
  | Some c =>
    let '(c, changed) := OpsFile.Changed c stat in
    if changed then
      let '(c, err) := OpsFile.Load c file in
      match err with
      | Some _ => Ret (mkGlobals (gAppConfig g) (gOpsConfig g) (Some c) (numWorkersCh g) (gTafs g))
      | None =>
        match gOpsConfig g with
        | None => Panic
        | Some o =>
          let o' := reload_ops c o in
          ch ← match OpsFile.GetInt c ConfigMaxWorkers with
               | inl n => if u32 n =? numWorkers o then Ret (numWorkersCh g)
                          else send_workers (numWorkersCh g) n
               | inr _ => Ret (numWorkersCh g)
               end;
          Ret (mkGlobals (gAppConfig g) (Some o') (Some c) ch (gTafs g))
        end
      end
    else Ret (mkGlobals (gAppConfig g) (gOpsConfig g) (Some c) (numWorkersCh g) (gTafs g))
  end.

(** ** The values the pools read *)

Section getters.
Context (app : Config) (ops : OpsConfig).

Definition GetIdleTimeoutMs : Z := idleTimeoutMs ops.
Definition GetTrIdleTimeoutMs : Z := trIdleTimeoutMs ops.
Definition GetMaxLifespanPerChild : Z := maxLifespanPerChild ops.
Definition GetMaxRequestsPerChild : Z := maxRequestsPerChild ops.
Definition GetSatRecoverThresholdMs : Z := satRecoverThresholdMs ops.

Definition GetSatRecoverThrottleRate : Z :=
  let cdbval := satRecoverThrottleRate ops in
  if 100 <? cdbval then 0 else cdbval.

Definition GetWhiteListChildCount (shard : Z) : Z :=
  if (0 <? shard) && EnableWhitelistTest (Sharding app) then NumWhitelistChildren (Sharding app) else 0.

Definition GetNumWorkers (shard : Z) : Z :=
  let wl := GetWhiteListChildCount shard in
  if 0 <? wl then wl else numWorkers ops.

Definition GetNumRWorkers (shard : Z) : Z :=
  let wl := GetWhiteListChildCount shard in
  if (0 <? wl) && (0 <? ReadonlyPct app) then wl
  else if 0 <? ReadonlyPct app then
    let num := Z.quot (i64 (GetNumWorkers shard * ReadonlyPct app)) 100 in
    if num =? 0 then 1 else num
  else 0.

Definition GetNumWWorkers (shard : Z) : Z :=
  let wl := GetWhiteListChildCount shard in
  if 0 <? wl then wl
  else
    let num := GetNumWorkers shard in
    if 0 <? ReadonlyPct app then
      let num := i64 (num - Z.quot (i64 (num * ReadonlyPct app)) 100) in
      if num =? 0 then 1 else num
    else num.

Definition GetBacklogLimit (wtype : HeraWorkerType) (shard : Z) : Z :=
  match wtype with
  | wtypeRO => Z.quot (i64 (BacklogPct app * GetNumRWorkers shard)) 100
  | _ => Z.quot (i64 (BacklogPct app * GetNumWWorkers shard)) 100
  end.

Definition GetSatRecoverFreqMs (shard : Z) : Z :=
  let trate := GetSatRecoverThrottleRate in
  let n := GetNumWorkers shard in
  if (trate =? 0) || (n =? 0) then 2 ^ 63 - 1
  else F32.to_int (F32.div (F32.of_int 1000) (F32.div (F32.of_int (i64 (trate * n))) (F32.of_int 100))).

Definition GetSatRecoverThrottleCnt (shard : Z) : Z :=
  F32.to_int (F32.div (F32.of_int (i64 (GetSatRecoverThrottleRate * GetNumWorkers shard))) (F32.of_int 100)).

End getters.

(** ** Theorems *)

Lemma guard_inv {A} (b : bool) (e : go_error) (k : result A) (x : A) :
  (if b then Error e else k) = Ret x → b = false ∧ k = Ret x.
Proof. by destruct b. Qed.

Lemma init_sharding_validated cdb sp : init_sharding cdb = Ret sp →
  1 <= NumOfShards sp <= 48 ∧ 1 <= MaxScuttleBuckets sp <= 1024 ∧ ScuttleColName sp ≠ [].
Proof.
  unfold init_sharding. cbv zeta. intros H.
  apply guard_inv in H as [[Hn1 Hn2]%orb_false_iff H].
  apply guard_inv in H as [[Hs1 Hs2]%orb_false_iff H].
  apply guard_inv in H as [Hc [_ H]%guard_inv]. apply Ret_inj in H as <-.
  apply Z.ltb_ge in Hn1, Hn2, Hs1, Hs2.
  cbn [NumOfShards MaxScuttleBuckets ScuttleColName].
  split; [done|]. split; [done|]. intros E. by rewrite E in Hc.
Qed.

Lemma clamp_whitelist_bounds sp max :
  NumOfShards (clamp_whitelist sp max) = NumOfShards sp ∧
  MaxScuttleBuckets (clamp_whitelist sp max) = MaxScuttleBuckets sp ∧
  ScuttleColName (clamp_whitelist sp max) = ScuttleColName sp ∧
  (EnableWhitelistTest (clamp_whitelist sp max) = true →
   Z.min 2 max <= NumWhitelistChildren (clamp_whitelist sp max) <= max).
Proof.
  unfold clamp_whitelist. destruct (EnableWhitelistTest sp) eqn:E; cbn; [|by rewrite E].
  repeat split; destruct (_ <? 2) eqn:E1, (max <? _) eqn:E2; lia.
Qed.

Definition app_valid (sharding taf : bool) (app : Config) : Prop :=
  EnableSharding app = sharding ∧ EnableTAF app = taf ∧
  1 <= BacklogTimeoutUnit app ∧ 1 <= StateLogInterval app ∧
  1 <= NumOfShards (Sharding app) <= 48 ∧
  (sharding = true → 1 <= MaxScuttleBuckets (Sharding app) <= 1024 ∧ ScuttleColName (Sharding app) ≠ []) ∧
  (sharding = false → NumOfShards (Sharding app) = 1) ∧
  (EnableWhitelistTest (Sharding app) = true →
   Z.min 2 (InitialMaxChildren app) <= NumWhitelistChildren (Sharding app) <= InitialMaxChildren app).

Lemma init_config_ok sharding taf hera ops g :
  init_config sharding taf hera ops = Ret g → app_valid sharding taf (gAppConfig g).
Proof.
  unfold init_config. destruct hera as [lines|]; [|done]. cbv zeta.
  destruct (TxtConfig.GetInt _ _) as [port|]; [|done].
  remember (if sharding then init_sharding (newTxtConfig lines) else Ret no_sharding) as r eqn:Hr.
  destruct r as [sp| | | |]; try done. cbn [mbind result_bind].
  destruct (match _ <$> ops with Some _ => _ | None => _ end) as [[workers gops] ch].
  intros <-%Ret_inj. cbn [gAppConfig].
  pose proof (clamp_whitelist_bounds sp workers) as (Hn & Hm & Hc & Hw).
  assert (Hs : 1 <= NumOfShards sp <= 48 ∧
    (sharding = true → 1 <= MaxScuttleBuckets sp <= 1024 ∧ ScuttleColName sp ≠ []) ∧
    (sharding = false → NumOfShards sp = 1)).
  { destruct sharding; symmetry in Hr.
    - apply init_sharding_validated in Hr as (? & ? & ?). split; [done|]. split; [by intros _; split|done].
    - apply Ret_inj in Hr as <-. cbn. split; [lia|done]. }
  unfold app_valid, app_fields. cbn [EnableSharding EnableTAF BacklogTimeoutUnit StateLogInterval Sharding InitialMaxChildren].
  rewrite Hn, Hm, Hc. destruct Hs as (? & ? & ?). split_and!; try done; try lia.
  - destruct (_ <? 5) eqn:E; [lia|]. apply Z.quot_le_lower_bound; lia.
  - destruct (_ <=? 0) eqn:E; lia.
Qed.

(** The port of hera.txt: a number that has to be there. *)
Definition bind_port (lines : list bytes) : option Z :=
  match TxtConfig.GetInt (newTxtConfig lines) (str "bind_port") with inl port => Some port | inr _ => None end.


Definition sample_hera : list bytes :=
  [str "bind_port=10101"; str "enable_sharding=true"; str "num_shards = 5"; str "request_backlog_timeout=2";
   str "# comment=1"; str "database_type=oracle"].
Definition sample_ops : list bytes :=
  [str "opscfg.default.server.max_connections=4"; str "opscfg.hera.server.idle_timeout_ms=soon"].

Definition blank_globals : Globals :=
  mkGlobals (mkConfig [] [] 0 [] 0 0 0 0 0 0 0 0 0 false 0 0 0 0 0 0 0 false MySQL false no_sharding ∅ 0
    false (mkTafPart 0 0 0 0) false [] [] false [] [] 0 0 0 [] false false false 0) None None [] [].

Definition sample_init : Globals :=
  match init_config false false (Some sample_hera) (Some (str "./hera.txt", Some sample_ops)) with
  | Ret g => g
  | _ => blank_globals
  end.

(** ** Reloading the ops configuration *)

(** When the ops file has a new modification time and can be read, and the worker
    channel is empty, a check applies the file: the idle time-outs, lifespan and
    saturation settings are those of the file or their defaults, [max_connections] is
    published (and sent to the pools exactly when it differs), and a second check of
    the unmodified file changes nothing. *)
Theorem CheckOpsConfigChange_applies g c o t ls :
  gConfig g = Some c → gOpsConfig g = Some o → numWorkersCh g = [] →
  OpsFile.cfgName c ≠ [] → OpsFile.lastModTime c ≠ Some t →
  ∃ g' c' o', CheckOpsConfigChange (Some t) (Some ls) g = Ret g' ∧
    gConfig g' = Some c' ∧ gOpsConfig g' = Some o' ∧
    OpsFile.ops_data c' = newTxtConfig ls ∧ OpsFile.keyPrefix c' = OpsFile.keyPrefix c ∧
    GetIdleTimeoutMs o' = u32 (OpsFile.GetOrDefaultInt c' (str "idle_timeout_ms") 600000) ∧
    GetTrIdleTimeoutMs o' = u32 (OpsFile.GetOrDefaultInt c' (str "transaction_idle_timeout_ms") 900000) ∧
    GetMaxLifespanPerChild o' = u32 (OpsFile.GetOrDefaultInt c' (str "max_lifespan_per_child") 0) ∧
    GetMaxRequestsPerChild o' = u32 (OpsFile.GetOrDefaultInt c' (str "max_requests_per_child") 0) ∧
    GetSatRecoverThresholdMs o' = u32 (OpsFile.GetOrDefaultInt c' (str "saturation_recover_threshold") 200) ∧
    match OpsFile.GetInt c' ConfigMaxWorkers with
    | inl n => numWorkers o' = u32 n ∧
               numWorkersCh g' = (if u32 n =? numWorkers o then [] else [n])
    | inr _ => numWorkers o' = numWorkers o ∧ numWorkersCh g' = []
    end ∧
    CheckOpsConfigChange (Some t) (Some ls) g' = Ret g'.
Proof.
  intros Hc Ho Hch Hname Ht. destruct c as [d name lm err pre]. cbn in Hname, Ht.
  destruct name as [|b name]; [done|].
  unfold CheckOpsConfigChange at 1. rewrite Hc, Ho, Hch. cbn [OpsFile.Changed OpsFile.cfgName OpsFile.lastModTime].
  rewrite bool_decide_eq_false_2 by congruence. cbn [OpsFile.Load OpsFile.cfgName OpsFile.lastModTime OpsFile.keyPrefix].
  remember (OpsFile.mkOps (newTxtConfig ls) (b :: name) (Some t) None pre) as c' eqn:Ec.
  remember (match OpsFile.GetInt c' ConfigMaxWorkers with inl n => if u32 n =? numWorkers o then [] else [n] | inr _ => [] end)
    as ch eqn:Ech.
  exists (mkGlobals (gAppConfig g) (Some (reload_ops c' o)) (Some c') ch (gTafs g)), c', (reload_ops c' o).
  assert (Hidem : ∀ app o ch tafs, CheckOpsConfigChange (Some t) (Some ls) (mkGlobals app o (Some c') ch tafs) =
    Ret (mkGlobals app o (Some c') ch tafs)).
  { intros. unfold CheckOpsConfigChange. cbn [gConfig]. subst c'.
    cbn [OpsFile.Changed OpsFile.cfgName OpsFile.lastModTime]. by rewrite bool_decide_eq_true_2. }
  split; [|split_and!; try done; try (by subst c')].
  - destruct (OpsFile.GetInt c' ConfigMaxWorkers) as [n|]; [destruct (u32 n =? _)|]; by subst ch.
  - cbn [reload_ops numWorkers numWorkersCh]. by destruct (OpsFile.GetInt c' ConfigMaxWorkers) eqn:E; subst ch.
Qed.

Definition sample_globals : Globals :=
  mkGlobals (gAppConfig sample_init) (gOpsConfig sample_init) (gConfig sample_init) [] [].

Lemma CheckOpsConfigChange_applies_witness :
  ∃ g', CheckOpsConfigChange (Some 7) (Some [str "opscfg.hera.server.max_connections=9"]) sample_globals = Ret g' ∧
    numWorkersCh g' = [9].
Proof.
  destruct (gConfig sample_globals) as [c|] eqn:Ec; [|discriminate Ec].
  destruct (gOpsConfig sample_globals) as [o|] eqn:Eo; [|discriminate Eo].
  destruct (CheckOpsConfigChange_applies sample_globals c o 7 [str "opscfg.hera.server.max_connections=9"])
    as (g' & c' & o' & H & _).
  - exact Ec.
  - exact Eo.
  - vm_compute. reflexivity.
  - assert (OpsFile.cfgName <$> gConfig sample_globals = Some (str "./hera.txt")) as E by (vm_compute; reflexivity).
    rewrite Ec in E. cbn in E. intros E'. rewrite E' in E. discriminate E.
  - assert (OpsFile.lastModTime <$> gConfig sample_globals = Some None) as E by (vm_compute; reflexivity).
    rewrite Ec in E. cbn in E. intros E'. rewrite E' in E. discriminate E.
  - exists g'. split; [exact H|].
    assert (match CheckOpsConfigChange (Some 7) (Some [str "opscfg.hera.server.max_connections=9"]) sample_globals with
            | Ret g => numWorkersCh g | _ => [] end = [9]) as E by (vm_compute; reflexivity).
    rewrite H in E. exact E.
Defined.

(** End to end from a line of the ops file to the getter: the last line
    <prefix><key>=<value> decides, a printed number is read back exactly, and a value
    that is not a number yields 0, not the default the caller passes. *)
Theorem ops_line_effective name ls key v def :
  let c := fst (OpsFile.InitOpsConfigWithName name (Some (ls ++ [OpsFile.buildKey
             (fst (OpsFile.InitOpsConfigWithName name None)) key ++ 61 :: v]))) in
  word name → word key → word v →
  OpsFile.GetOrDefaultInt c key def = default 0 (Atoi v) ∧
  (∀ n, 0 <= n < 2 ^ 63 → v = itoa n → OpsFile.GetOrDefaultInt c key def = n).
Proof.
  intros c Hn Hk Hv.
  assert (E : OpsFile.GetOrDefaultInt c key def = default 0 (Atoi v)).
  { subst c. unfold OpsFile.InitOpsConfigWithName, OpsFile.Load. cbn [fst OpsFile.keyPrefix OpsFile.buildKey].
    unfold OpsFile.GetOrDefaultInt. cbn [OpsFile.ops_err OpsFile.ops_data OpsFile.buildKey OpsFile.keyPrefix].
    rewrite newTxtConfig_line; [|by apply word_app; [apply OpsFile.prefix_word|]|done|done].
    unfold TxtConfig.GetInt, GetValue. rewrite lookup_insert_eq. by destruct (Atoi v). }
  split; [done|]. intros n Hr ->. by rewrite E, Atoi_itoa.
Qed.

Lemma ops_line_effective_witness :
  OpsFile.GetOrDefaultInt (fst (OpsFile.InitOpsConfigWithName (str "hera.txt")
    (Some [str "opscfg.hera.server.idle_timeout_ms=10s"]))) (str "idle_timeout_ms") 600000 = 0.
Proof.
  destruct (ops_line_effective (str "hera.txt") [] (str "idle_timeout_ms") (str "10s") 600000) as [H _].
  - by_decide.
  - by_decide.
  - by_decide.
  - exact H.
Defined.

(** ** Dividing the workers *)

(** With a read-only percentage from 1 to 100 and no whitelist pool, the read and the
    write pool each get at least one worker and together the configured number, or one
    more when a pool would have been empty. The read share is the percentage rounded
    down. *)
Theorem worker_split app ops shard :
  0 < ReadonlyPct app <= 100 → 1 <= numWorkers ops < 2 ^ 32 →
  GetWhiteListChildCount app shard <= 0 →
  let n := GetNumWorkers app ops shard in
  let share := n * ReadonlyPct app / 100 in
  let r := GetNumRWorkers app ops shard in
  let w := GetNumWWorkers app ops shard in
  n = numWorkers ops ∧ r = Z.max 1 share ∧ w = Z.max 1 (n - share) ∧
  1 <= r ∧ 1 <= w ∧ r + w = n + (if (share =? 0) || (share =? n) then 1 else 0).
Proof.
  intros Hp Hn Hw. unfold GetNumRWorkers, GetNumWWorkers, GetNumWorkers. cbv zeta.
  rewrite !(proj2 (Z.ltb_ge _ _)) by lia. rewrite !(proj2 (Z.ltb_lt _ _)) by lia. cbn [andb].
  remember (numWorkers ops) as n. remember (ReadonlyPct app) as p.
  assert (0 <= n * p <= n * 100) by nia.
  assert (0 <= n * p / 100 <= n) by (split; [apply Z.div_pos; lia | apply Z.div_le_upper_bound; lia]).
  rewrite !i64_id by (rewrite ?Z.quot_div_nonneg by lia; unfold in_i64; rewrite ?i64_id by (unfold in_i64; lia); lia).
  rewrite Z.quot_div_nonneg by lia. remember (n * p / 100) as q.
  destruct (q =? 0) eqn:E1, (n - q =? 0) eqn:E2, (q =? n) eqn:E3; cbn [orb]; lia.
Qed.

Lemma worker_split_witness :
  let app := mkConfig [] [] 0 [] 0 0 30 0 0 0 0 0 0 false 0 0 0 0 0 0 0 false MySQL false no_sharding ∅ 0
    false (mkTafPart 0 0 0 0) false [] [] false [] [] 0 0 0 [] false false false 0 in
  let ops := mkOpsConfig 0 3 0 0 0 0 0 0 in
  GetNumRWorkers app ops 0 + GetNumWWorkers app ops 0 = 3 + 1.
Proof.
  intros app ops. destruct (worker_split app ops 0) as (_ & _ & _ & _ & _ & H).
  - vm_compute. split; congruence.
  - vm_compute. split; congruence.
  - vm_compute. congruence.
  - exact H.
Defined.

End Config.
