(* ===== verification/ShardMap.v ===== *)
(** * The shard map (lib/shardingcfg.go): how the rows of the shard map and whitelist
    tables become the records requests are routed by. *)

From S2P Require Import Prelude Config.
From stdpp Require Import base list gmap strings.
From Stdlib Require Import ZArith Lia.
Open Scope Z_scope.

Module ShardMap.
Import Config.

Record ShardMapRecord := mkRec { bin : Z; logical : Z; flags : Z }.

Definition FlagsNotFound : Z := 0x20.
Definition FlagsBadLogical : Z := 0x10.
Definition FlagsReadStatusN : Z := 0x08.
Definition FlagsWriteStatusN : Z := 0x02.
Definition FlagsWhitelist : Z := 0x01.

(** [ShardingCfg.records]: an array of 1024 pointers. *)
Abbreviation records := (list (option ShardMapRecord)).

Definition no_records : records := replicate 1024 None.

(** A row of the shard map table as [rows.Scan] delivers it; [None] is the SQL null. *)
Record map_row := mkRow { row_bin : Z; row_logical : Z; rstatus : option bytes; wstatus : option bytes }.

(** [status.Valid && status.String[0] == 'N']: an empty string panics. *)
Definition status_N (status : option bytes) : result bool :=
  match status with
  | None => Ret false
  | Some s => b ← index_get s 0; Ret (b =? 78)
  end.

Definition status_flags (r w : option bytes) : result Z :=
  rn ← status_N r;
  wn ← status_N w;
  Ret (Z.lor (if (rn : bool) then FlagsReadStatusN else 0) (if (wn : bool) then FlagsWriteStatusN else 0)).

(** One iteration of the rows loop. *)
Definition load_row (buckets shards : Z) (recs : records) (row : map_row) : result records :=
  fl ← status_flags (rstatus row) (wstatus row);
  if (row_bin row <? 0) || (buckets <=? row_bin row) then Ret recs
  else
    old ← index_get recs (row_bin row);
    match old with
    | Some _ => Ret recs
    | None =>
      let bad := (row_logical row <? 0) || (shards <=? row_logical row) in
      let rec := if bad then mkRec (row_bin row) (-1) (Z.lor fl FlagsBadLogical)
                 else mkRec (row_bin row) (row_logical row) fl in
      Ret (<[Z.to_nat (row_bin row) := Some rec]> recs)
    end.

Fixpoint load_rows (buckets shards : Z) (recs : records) (rows : list map_row) : result records :=
  match rows with
  | [] => Ret recs
  | row :: rows => recs ← load_row buckets shards recs row; load_rows buckets shards recs rows
  end.

(** One bucket of the second loop: a bucket without a row is filled and, if it is the
    first of them, remembered as the error; then it is compared with the map in use. *)
Definition fill_one (i : Z) (old : option records) (recs : records) (same : bool) (err : option Z) :
    result (records * bool * option Z) :=
  cur ← index_get recs i;
  let '(recs, err) :=
    match cur with
    | Some _ => (recs, err)
    | None => (<[Z.to_nat i := Some (mkRec i (-1) FlagsBadLogical)]> recs,
               match err with None => Some i | Some e => Some e end)
    end in
  match old with
  | Some o =>
    if same then
      a ← index_get o i;
      b ← index_get recs i;
      match a, b with
      | Some a, Some b => Ret (recs, negb (negb (logical a =? logical b) || negb (flags a =? flags b)), err)
      | _, _ => Panic
      end
    else Ret (recs, false, err)
  | None => Ret (recs, same, err)
  end.

Fixpoint fill (n : nat) (i : Z) (old : option records) (recs : records) (same : bool) (err : option Z) :
    result (records * bool * option Z) :=
  match n with
  | O => Ret (recs, same, err)
  | S n => '(recs, same, err) ← fill_one i old recs same err; fill n (i + 1) old recs same err
  end.

(** [loadMap] once the rows are read: the map to use from now on and the first bucket
    that is not configured, when there is one. *)
Definition loadMap (cfg : ShardingPart) (old : option records) (rows : list map_row) :
    result (option records * option Z) :=
  recs ← load_rows (MaxScuttleBuckets cfg) (NumOfShards cfg) no_records rows;
  '(recs, same, err) ← fill (Z.to_nat (MaxScuttleBuckets cfg)) 0 old recs
                         (match old with Some _ => true | None => false end) None;
  Ret (if (same : bool) then old else Some recs, err).

(** The map [InitShardingCfg] installs when no shard map is used. *)
Fixpoint trivial_map (n : nat) (i : Z) (recs : records) : result records :=
  match n with
  | O => Ret recs
  | S n => recs ← index_set recs i (Some (mkRec i 0 0)); trivial_map n (i + 1) recs
  end.

Definition InitShardingCfg_nomap (cfg : ShardingPart) : result records :=
  trivial_map (Z.to_nat (MaxScuttleBuckets cfg)) 0 no_records.

(** Shard keys: strings or numbers ([interface{}]). *)
Abbreviation key := (list Z + Z)%type.

(** A row of the whitelist table. *)
Record wl_row := mkWLRow { wl_key : key; wl_logical : Z; wl_rstatus : option bytes; wl_wstatus : option bytes }.

Fixpoint load_wl (recs : gmap key ShardMapRecord) (rows : list wl_row) : result (gmap key ShardMapRecord) :=
  match rows with
  | [] => Ret recs
  | r :: rows =>
    fl ← status_flags (wl_rstatus r) (wl_wstatus r);
    load_wl (<[wl_key r := mkRec 0 (wl_logical r) fl]> recs) rows
  end.

Definition loadWhitelist (rows : list wl_row) : result (gmap key ShardMapRecord) := load_wl ∅ rows.

(** ** The loop over the buckets *)

Definition bucket_at (recs : records) (b : Z) : option ShardMapRecord := mjoin (recs !! Z.to_nat b).

Lemma index_get_at (recs : records) b : length recs = 1024%nat → 0 <= b < 1024 →
  index_get recs b = Ret (bucket_at recs b).
Proof.
  intros Hl Hb. unfold index_get, bucket_at. rewrite (proj2 (Z.leb_le _ _)) by lia.
  destruct (lookup_lt_is_Some_2 recs (Z.to_nat b)) as [x Hx]; [lia|]. by rewrite Hx.
Qed.

Lemma bucket_at_insert (recs : records) b b' r : length recs = 1024%nat → 0 <= b < 1024 → 0 <= b' →
  bucket_at (<[Z.to_nat b := Some r]> recs) b' = if b' =? b then Some r else bucket_at recs b'.
Proof.
  intros Hl Hb Hb'. unfold bucket_at. destruct (b' =? b) eqn:E.
  - apply Z.eqb_eq in E as ->. rewrite list_lookup_insert_eq by lia. done.
  - rewrite list_lookup_insert_ne by lia. done.
Qed.

(** Two records route the same way. *)
Definition same_route (a b : option ShardMapRecord) : Prop :=
  (logical <$> a) = (logical <$> b) ∧ (flags <$> a) = (flags <$> b).

(** The first bucket of [[i, i + n)] that has no record. *)
Fixpoint first_missing (n : nat) (i : Z) (recs : records) : option Z :=
  match n with
  | O => None
  | S n => match bucket_at recs i with None => Some i | Some _ => first_missing n (i + 1) recs end
  end.

Definition filled (recs : records) (b : Z) : option ShardMapRecord :=
  match bucket_at recs b with Some r => Some r | None => Some (mkRec b (-1) FlagsBadLogical) end.

Lemma first_missing_ext n i recs recs' :
  (∀ b, i <= b < i + Z.of_nat n → bucket_at recs b = bucket_at recs' b) →
  first_missing n i recs = first_missing n i recs'.
Proof.
  revert i. induction n as [|n IH]; intros i H; [done|]. simpl. rewrite H by lia.
  destruct (bucket_at recs' i); [|done]. apply IH. intros. apply H. lia.
Qed.

Definition map_complete (hi : Z) (o : records) : Prop :=
  length o = 1024%nat ∧ ∀ b, 0 <= b < hi → is_Some (bucket_at o b).

Lemma same_route_bool a b :
  negb (negb (logical a =? logical b) || negb (flags a =? flags b)) = true ↔ same_route (Some a) (Some b).
Proof.
  rewrite negb_true_iff, orb_false_iff, !negb_false_iff, !Z.eqb_eq. unfold same_route. cbn.
  split; [by intros [-> ->]|]. by intros [[= ->] [= ->]].
Qed.

Lemma fill_one_spec i old recs same err :
  length recs = 1024%nat → 0 <= i < 1024 →
  (∀ o, old = Some o → length o = 1024%nat ∧ is_Some (bucket_at o i)) →
  ∃ recs' same', fill_one i old recs same err =
      Ret (recs', same', match err, bucket_at recs i with None, None => Some i | _, _ => err end) ∧
    length recs' = 1024%nat ∧
    (∀ b, 0 <= b → bucket_at recs' b = if b =? i then filled recs b else bucket_at recs b) ∧
    (old = None → same' = same) ∧
    (∀ o, old = Some o → same' = true ↔ same = true ∧ same_route (bucket_at o i) (filled recs i)).
Proof.
  intros Hl Hi Hold. unfold fill_one, filled. rewrite index_get_at by lia. cbn [mbind result_bind].
  set (recs1 := match bucket_at recs i with
                | Some _ => recs
                | None => <[Z.to_nat i := Some (mkRec i (-1) FlagsBadLogical)]> recs end).
  assert (Hl1 : length recs1 = 1024%nat) by (subst recs1; destruct (bucket_at recs i); rewrite ?length_insert; done).
  assert (Hb1 : ∀ b, 0 <= b → bucket_at recs1 b = if b =? i then filled recs b else bucket_at recs b).
  { intros b Hb. subst recs1. unfold filled. destruct (b =? i) eqn:E2.
    - apply Z.eqb_eq in E2 as ->. destruct (bucket_at recs i) eqn:E; [done|].
      by rewrite bucket_at_insert, Z.eqb_refl by lia.
    - destruct (bucket_at recs i) eqn:E; [done|]. by rewrite bucket_at_insert, E2 by lia. }
  replace (match bucket_at recs i with Some _ => (recs, err) | None => _ end)
    with (recs1, match err, bucket_at recs i with None, None => Some i | _, _ => err end)
    by (subst recs1; destruct (bucket_at recs i), err; done).
  assert (Hi1 := Hb1 i). rewrite Z.eqb_refl in Hi1. unfold filled in Hi1.
  destruct old as [o|]; [|by exists recs1, same].
  destruct same; [|exists recs1, false; split_and!; naive_solver].
  destruct (Hold o eq_refl) as [Hlo [a Ha]].
  rewrite !index_get_at, Ha, Hi1 by lia. cbn [mbind result_bind].
  destruct (bucket_at recs i) as [r|]; cbn [mbind result_bind]; eexists recs1, _; (split; [done|]);
    split_and!; try done; intros o' [= <-]; rewrite Ha, same_route_bool; naive_solver.
Qed.

Lemma fill_spec n i old recs same err :
  length recs = 1024%nat → 0 <= i → i + Z.of_nat n <= 1024 →
  (∀ o, old = Some o → map_complete (i + Z.of_nat n) o) →
  ∃ recs' same', fill n i old recs same err =
      Ret (recs', same', match err with Some e => Some e | None => first_missing n i recs end) ∧
    length recs' = 1024%nat ∧
    (∀ b, 0 <= b → bucket_at recs' b =
       if bool_decide (i <= b < i + Z.of_nat n) then filled recs b else bucket_at recs b) ∧
    (old = None → same' = same) ∧
    (∀ o, old = Some o → same' = true ↔
       same = true ∧ ∀ b, i <= b < i + Z.of_nat n → same_route (bucket_at o b) (filled recs b)).
Proof.
  revert i recs same err. induction n as [|n IH]; intros i recs same err Hl Hi Hn Hold.
  { exists recs, same. split_and!; try done; try (by destruct err).
    - intros b Hb. by rewrite bool_decide_eq_false_2 by lia.
    - intros o Eo. split; [|naive_solver]. intros E. split; [done|]. lia. }
  cbn [fill]. destruct (fill_one_spec i old recs same err) as (recs1 & same1 & -> & Hl1 & Hb1 & Hn1 & Hs1);
    [done|lia| |].
  { intros o Eo. destruct (Hold o Eo) as [? Ho]. split; [done|]. apply Ho. lia. }
  cbn [mbind result_bind].
  assert (Hf : ∀ b, i + 1 <= b → filled recs1 b = filled recs b).
  { intros b Hb. unfold filled. by rewrite Hb1, (proj2 (Z.eqb_neq b i)) by lia. }
  destruct (IH (i + 1) recs1 same1 (match err, bucket_at recs i with None, None => Some i | _, _ => err end))
    as (recs' & same' & -> & Hl' & Hb' & Hn' & Hs'); try done; try lia.
  { intros o Eo. destruct (Hold o Eo) as [? Ho]. split; [done|]. intros. apply Ho. lia. }
  exists recs', same'. split_and!; try done.
  - rewrite (first_missing_ext n (i + 1) recs1 recs)
      by (intros b Hb; by rewrite Hb1, (proj2 (Z.eqb_neq b i)) by lia).
    cbn [first_missing]. by destruct err, (bucket_at recs i).
  - intros b Hb. rewrite Hb' by done. destruct (decide (b = i)) as [->|Hne].
    + rewrite bool_decide_eq_false_2, bool_decide_eq_true_2, Hb1, Z.eqb_refl by lia. done.
    + repeat case_bool_decide; try (exfalso; lia); [apply Hf; lia|].
      by rewrite Hb1, (proj2 (Z.eqb_neq b i)) by lia.
  - intros Eo. by rewrite Hn', Hn1.
  - intros o Eo. rewrite (Hs' o Eo), (Hs1 o Eo). split.
    + intros [[? Hri] Hr]. split; [done|]. intros b Hbr. destruct (decide (b = i)) as [->|]; [done|].
      rewrite <- Hf by lia. apply Hr. lia.
    + intros [? Hr]. split; [split; [done|]; apply Hr; lia|]. intros b Hbr. rewrite Hf by lia. apply Hr. lia.
Qed.

Lemma first_missing_spec n i recs :
  match first_missing n i recs with
  | Some e => i <= e < i + Z.of_nat n ∧ bucket_at recs e = None ∧
              ∀ b, i <= b < e → is_Some (bucket_at recs b)
  | None => ∀ b, i <= b < i + Z.of_nat n → is_Some (bucket_at recs b)
  end.
Proof.
  revert i. induction n as [|n IH]; intros i; simpl; [lia|].
  destruct (bucket_at recs i) as [r|] eqn:E; [|split_and!; [lia|lia|done|lia]].
  specialize (IH (i + 1)).
  assert (Hi : is_Some (bucket_at recs i)) by (by rewrite E).
  destruct (first_missing n (i + 1) recs) as [e|].
  - destruct IH as (? & ? & Hlt). split_and!; try done; try lia.
    intros b Hb. destruct (decide (b = i)) as [->|]; [done|]. apply Hlt. lia.
  - intros b Hb. destruct (decide (b = i)) as [->|]; [done|]. apply IH. lia.
Qed.

(** ** What the loaded map is *)

Section load.
Context (cfg : ShardingPart).
Let N := NumOfShards cfg.
Let B := MaxScuttleBuckets cfg.
Hypothesis HB : 0 <= B <= 1024.

(** Rows whose status columns are null or not empty. *)
Definition row_ok (r : map_row) : Prop := rstatus r ≠ Some [] ∧ wstatus r ≠ Some [].

Definition is_N (s : option bytes) : bool :=
  match s with Some (b :: _) => b =? 78 | _ => false end.

Definition row_flags (r : map_row) : Z :=
  Z.lor (if is_N (rstatus r) then FlagsReadStatusN else 0) (if is_N (wstatus r) then FlagsWriteStatusN else 0).

(** The record of a bucket: its first row decides, a row with a shard out of range
    and a bucket without a row are marked bad. *)
Definition row_rec (r : map_row) : ShardMapRecord :=
  if (row_logical r <? 0) || (N <=? row_logical r) then mkRec (row_bin r) (-1) (Z.lor (row_flags r) FlagsBadLogical)
  else mkRec (row_bin r) (row_logical r) (row_flags r).

Definition first_row (rows : list map_row) (b : Z) : option map_row :=
  List.find (λ r, row_bin r =? b) rows.

Definition bucket_rec (rows : list map_row) (b : Z) : ShardMapRecord :=
  match first_row rows b with Some r => row_rec r | None => mkRec b (-1) FlagsBadLogical end.

Lemma status_flags_ok r : row_ok r → status_flags (rstatus r) (wstatus r) = Ret (row_flags r).
Proof.
  destruct r as [b l [[|r rs]|] [[|w ws]|]]; intros [? ?]; try done; reflexivity.
Qed.

Lemma load_rows_spec rows recs : Forall row_ok rows → length recs = 1024%nat →
  ∃ recs', load_rows B N recs rows = Ret recs' ∧ length recs' = 1024%nat ∧
    ∀ b, 0 <= b < B → bucket_at recs' b =
      match bucket_at recs b with Some r => Some r | None => row_rec <$> first_row rows b end.
Proof.
  intros F. revert recs. induction F as [|row rows Hr F IH]; intros recs Hl; simpl.
  { exists recs. split_and!; try done. intros b Hb. by destruct (bucket_at recs b). }
  unfold load_row. rewrite status_flags_ok by done. cbn [mbind result_bind].
  destruct (_ || _) eqn:Erange; cbn [mbind result_bind].
  { destruct (IH recs Hl) as (recs' & E & Hl' & H). exists recs'. split_and!; try done.
    intros b Hb. rewrite H by done. unfold first_row. simpl.
    rewrite (proj2 (Z.eqb_neq (row_bin row) b)) by lia. done. }
  rewrite index_get_at by lia. cbn [mbind result_bind].
  destruct (bucket_at recs (row_bin row)) as [r0|] eqn:Eb; cbn [mbind result_bind].
  { destruct (IH recs Hl) as (recs' & E & Hl' & H). exists recs'. split_and!; try done.
    intros b Hb. rewrite H by done. destruct (bucket_at recs b) eqn:E2; [done|]. unfold first_row. simpl.
    rewrite (proj2 (Z.eqb_neq (row_bin row) b)) by congruence. done. }
  fold (row_rec row).
  destruct (IH (<[Z.to_nat (row_bin row) := Some (row_rec row)]> recs)) as (recs' & E & Hl' & H);
    [by rewrite length_insert|].
  exists recs'. split_and!; try done. intros b Hb. rewrite H, bucket_at_insert by lia.
  unfold first_row. simpl. rewrite (Z.eqb_sym (row_bin row) b).
  destruct (b =? row_bin row) eqn:E2; [|done]. apply Z.eqb_eq in E2 as ->. by rewrite Eb.
Qed.

(** A record either names a shard or is marked bad. *)
Definition valid_route (r : ShardMapRecord) : Prop :=
  (0 <= logical r < N ∧ Z.land (flags r) FlagsBadLogical = 0) ∨
  (logical r = -1 ∧ Z.land (flags r) FlagsBadLogical ≠ 0).

Definition wf_map (m : records) : Prop :=
  length m = 1024%nat ∧ ∀ b, 0 <= b < B → ∃ r, bucket_at m b = Some r ∧ valid_route r.

Lemma bucket_rec_valid rows b : valid_route (bucket_rec rows b).
Proof.
  unfold bucket_rec, row_rec, row_flags, valid_route. destruct (first_row rows b) as [r|]; [|by right].
  destruct (_ || _) eqn:E; cbn [logical flags].
  - right. split; [done|]. by destruct (is_N (rstatus r)), (is_N (wstatus r)).
  - left. split; [lia|]. by destruct (is_N (rstatus r)), (is_N (wstatus r)).
Qed.

Lemma same_route_valid a r : same_route a (Some r) → valid_route r → ∃ r', a = Some r' ∧ valid_route r'.
Proof.
  intros [E1 E2] V. destruct a as [r'|]; [|done]. injection E1 as E1. injection E2 as E2.
  exists r'. split; [done|]. unfold valid_route in *. by rewrite E1, E2.
Qed.

Lemma missing_rows rows recs :
  (∀ b, 0 <= b < B → bucket_at recs b = row_rec <$> first_row rows b) →
  match first_missing (Z.to_nat B) 0 recs with
  | Some e => 0 <= e < B ∧ first_row rows e = None ∧ ∀ b, 0 <= b < e → is_Some (first_row rows b)
  | None => ∀ b, 0 <= b < B → is_Some (first_row rows b)
  end.
Proof.
  intros Hiff. pose proof (first_missing_spec (Z.to_nat B) 0 recs) as Hf.
  rewrite Z.add_0_l, Z2Nat.id in Hf by lia. destruct (first_missing _ 0 recs) as [e|].
  - destruct Hf as (He & Hnone & Hlt). split; [done|]. split.
    + rewrite Hiff in Hnone by done. by destruct (first_row rows e).
    + intros b Hb. specialize (Hlt b Hb). rewrite Hiff, fmap_is_Some in Hlt by lia. done.
  - intros b Hb. specialize (Hf b Hb). by rewrite Hiff, fmap_is_Some in Hf.
Qed.

End load.

Lemma loadMap_ok cfg old rows :
  0 <= MaxScuttleBuckets cfg <= 1024 → Forall row_ok rows →
  (∀ o, old = Some o → map_complete (MaxScuttleBuckets cfg) o) →
  ∃ m err, loadMap cfg old rows = Ret (Some m, err) ∧ wf_map cfg m ∧
    (∀ b, 0 <= b < MaxScuttleBuckets cfg → same_route (bucket_at m b) (Some (bucket_rec cfg rows b))) ∧
    match err with
    | Some e => 0 <= e < MaxScuttleBuckets cfg ∧ first_row rows e = None ∧
                ∀ b, 0 <= b < e → is_Some (first_row rows b)
    | None => ∀ b, 0 <= b < MaxScuttleBuckets cfg → is_Some (first_row rows b)
    end ∧
    (∀ o, old = Some o →
       (∀ b, 0 <= b < MaxScuttleBuckets cfg → same_route (bucket_at o b) (Some (bucket_rec cfg rows b))) → m = o).
Proof.
  intros HB F Hold. unfold loadMap.
  destruct (load_rows_spec cfg HB rows no_records F (length_replicate _ _)) as (recs & -> & Hl & Hrec).
  cbn [mbind result_bind].
  assert (Hempty : ∀ b, bucket_at no_records b = None).
  { intros b. unfold bucket_at, no_records. destruct (_ !! _) as [o|] eqn:E; [|done].
    by apply lookup_replicate in E as [-> _]. }
  destruct (fill_spec (Z.to_nat (MaxScuttleBuckets cfg)) 0 old recs (match old with Some _ => true | None => false end) None)
    as (recs' & same' & -> & Hl' & Hb' & Hn' & Hs'); try done; try lia.
  { intros o Eo. rewrite Z.add_0_l, Z2Nat.id by lia. by apply Hold. }
  rewrite Z.add_0_l, Z2Nat.id in * by lia. cbn [mbind result_bind].
  assert (Hfill : ∀ b, 0 <= b < MaxScuttleBuckets cfg → filled recs b = Some (bucket_rec cfg rows b)).
  { intros b Hb. unfold filled, bucket_rec. rewrite Hrec, Hempty by done. by destruct (first_row rows b). }
  set (m := match old with Some o => if same' then o else recs' | None => recs' end).
  assert (Hm : ∀ b, 0 <= b < MaxScuttleBuckets cfg → same_route (bucket_at m b) (Some (bucket_rec cfg rows b))).
  { intros b Hb. rewrite <- Hfill by done. subst m. destruct old as [o|]; [destruct same'|].
    - by apply (proj1 (Hs' o eq_refl)).
    - by rewrite Hb', bool_decide_eq_true_2 by lia.
    - by rewrite Hb', bool_decide_eq_true_2 by lia. }
  exists m, (first_missing (Z.to_nat (MaxScuttleBuckets cfg)) 0 recs). split_and!.
  - subst m. destruct old as [o|]; [by destruct same'|]. by rewrite (Hn' eq_refl).
  - split; [subst m; destruct old as [o|]; [destruct same'|]; try done; by apply (Hold o)|].
    intros b Hb. apply (same_route_valid _ _ _ (Hm b Hb)). apply bucket_rec_valid.
  - done.
  - apply missing_rows; [done|]. intros b Hb. by rewrite Hrec, Hempty.
  - intros o -> Hsame. subst m. replace same' with true; [done|]. symmetry. apply (Hs' o eq_refl).
    split; [done|]. intros b Hb. rewrite Hfill by done. by apply Hsame.
Qed.

(** Loading the shard map never panics on rows with null or non-empty status columns,
    and the map in use afterwards has one record for each bucket: the first row of the
    bucket decides, a row with a shard out of range and a bucket without a row are
    marked bad, so every record names an existing shard or is marked bad. The error
    is the first bucket without a row. The map is replaced exactly when it routes
    differently. *)
Theorem loadMap_spec cfg old rows :
  0 <= MaxScuttleBuckets cfg <= 1024 → Forall row_ok rows →
  (∀ o, old = Some o → map_complete (MaxScuttleBuckets cfg) o) →
  ∃ m err, loadMap cfg old rows = Ret (Some m, err) ∧ wf_map cfg m ∧
    (∀ b, 0 <= b < MaxScuttleBuckets cfg → same_route (bucket_at m b) (Some (bucket_rec cfg rows b))) ∧
    match err with
    | Some e => 0 <= e < MaxScuttleBuckets cfg ∧ first_row rows e = None ∧
                ∀ b, 0 <= b < e → is_Some (first_row rows b)
    | None => ∀ b, 0 <= b < MaxScuttleBuckets cfg → is_Some (first_row rows b)
    end ∧
    (∀ o, old = Some o →
       (∀ b, 0 <= b < MaxScuttleBuckets cfg → same_route (bucket_at o b) (Some (bucket_rec cfg rows b))) → m = o).
Proof. apply loadMap_ok. Qed.

Definition two_buckets : ShardingPart :=
  mkShardingPart true 2 (str "id") 2 (str "scuttle_id") true false false 0 [] 2 false.

Lemma loadMap_spec_witness : ∃ m err,
  loadMap two_buckets None [mkRow 0 1 None (Some (str "N")); mkRow 0 0 None None] = Ret (Some m, err) ∧
  wf_map two_buckets m.
Proof.
  destruct (loadMap_spec two_buckets None [mkRow 0 1 None (Some (str "N")); mkRow 0 0 None None])
    as (m & err & E & W & _).
  - vm_compute. split; congruence.
  - repeat constructor; vm_compute; congruence.
  - intros o Eo. discriminate Eo.
  - exists m, err. split; [exact E|exact W].
Defined.

End ShardMap.
