(* ===== verification/Sharding.v ===== *)
(** * Routing by shard (lib/coordinatorsharding.go): how the shard of a request is found
    from its shard key or from the session, and the checks that keep a transaction on
    one shard. *)

From S2P Require Import Prelude Codes Netstring Murmur3 ConfigFile Config ShardMap.
From stdpp Require Import base list gmap strings.
From Stdlib Require Import ZArith Lia.
Open Scope Z_scope.

Module Sharding.
Import Codes GoStrings Config ShardMap.

(** ** Data *)

Record shardInfo := mkShard {
  shardValues : list bytes;
  shardRecs : list (option ShardMapRecord);
  sessionShardID : Z;
  shardID : Z;
  shard_sqlhash : Z
}.

(** The fields of [Coordinator] that sharding uses. [worker] is the shard of the worker
    attached to the session; [responses] what was written to the client. *)
Record Coordinator := mkCrd {
  shard : shardInfo;
  prevShard : shardInfo;
  inTransaction : bool;
  worker : option Z;
  isRead : bool;
  sqlhash : Z;
  responses : list bytes
}.

Definition set_shard (s : shardInfo) (c : Coordinator) : Coordinator :=
  mkCrd s (prevShard c) (inTransaction c) (worker c) (isRead c) (sqlhash c) (responses c).

Definition set_prev (s : shardInfo) (c : Coordinator) : Coordinator :=
  mkCrd (shard c) s (inTransaction c) (worker c) (isRead c) (sqlhash c) (responses c).

Definition set_values (vs : list bytes) (s : shardInfo) : shardInfo :=
  mkShard vs (shardRecs s) (sessionShardID s) (shardID s) (shard_sqlhash s).

Definition set_recs (rs : list (option ShardMapRecord)) (s : shardInfo) : shardInfo :=
  mkShard (shardValues s) rs (sessionShardID s) (shardID s) (shard_sqlhash s).

Definition set_session (id : Z) (s : shardInfo) : shardInfo :=
  mkShard (shardValues s) (shardRecs s) id (shardID s) (shard_sqlhash s).

Definition set_id (id : Z) (s : shardInfo) : shardInfo :=
  mkShard (shardValues s) (shardRecs s) (sessionShardID s) id (shard_sqlhash s).

Definition set_hash (h : Z) (s : shardInfo) : shardInfo :=
  mkShard (shardValues s) (shardRecs s) (sessionShardID s) (shardID s) h.

(** [netstring.NewNetstringFrom(common.RcError, err)] written to the client. *)
Definition respond_err (e : go_error) (c : Coordinator) : Coordinator :=
  mkCrd (shard c) (prevShard c) (inTransaction c) (worker c) (isRead c) (sqlhash c)
    (responses c ++ [Serialized (Netstring.NewNetstringFrom RcError (Error_text e))]).

Section ops.
Context (EnableSharding : bool) (cfg : ShardingPart).
Context (smap : option records) (wlcfg : option (gmap key ShardMapRecord)).

(** ** The bucket of a shard key *)

(** The loop that fills the 8 bytes: it shifts [key], not [keyNum]. *)
Fixpoint key_bytes (n : nat) (i : Z) (bs : bytes) (keyNum key : Z) : result (bytes * Z) :=
  match n with
  | O => Ret (bs, key)
  | S n =>
    bs ← index_set bs i (u8 (Z.land keyNum 0xFF));
    key_bytes n (i + 1) bs keyNum (Z.shiftr key 8)
  end.

Definition getShardRec (key0 : key) : result (option ShardMapRecord) :=
  k ← (if ShardingAlgoHash cfg then
         if ShardKeyValueTypeIsString cfg then
           match key0 with inl s => Ret (Murmur3.Murmur3 s) | inr _ => Panic end
         else
           match key0 with
           | inr keyNum => '(bs, _) ← key_bytes 8 0 (replicate 8 0) keyNum 0; Ret (Murmur3.Murmur3 bs)
           | inl _ => Panic
           end
       else Ret 0);
  let max := u64 (MaxScuttleBuckets cfg) in
  if max =? 0 then Panic
  else
    match smap with
    | None => Panic
    | Some recs => index_get recs (k mod max)
    end.

(** ** HERA_SET_SHARD_ID *)

Definition processSetShardID (val : bytes) (c : Coordinator) : Coordinator * option go_error :=
  let '(sh, ok) := ParseInt 32 val in
  if negb EnableSharding && negb (sh =? 0) && negb (sh =? -1) then (c, Some ErrBadShardID)
  else if negb ok || (sh <? -1) || (NumOfShards cfg <=? sh) then (c, Some ErrBadShardID)
  else
    let c := set_shard (set_session sh (shard c)) c in
    match inTransaction c, worker c with
    | true, Some w =>
      if negb (w =? sh) then (c, Some ErrChangeShardIDInTxn)
      else (set_shard (set_id (if (EnableWhitelistTest cfg || negb EnableSharding) && (sh =? -1) then 0 else sh)
              (shard c)) c, None)
    | _, _ =>
      (set_shard (set_id (if (EnableWhitelistTest cfg || negb EnableSharding) && (sh =? -1) then 0 else sh)
         (shard c)) c, None)
    end.

(** ** Parsing <key>=<val1>;...;<valn> *)

(** The text before the first "=" and what follows it; the key is empty when there
    is none. *)
Fixpoint split_key (acc val : bytes) : bytes * bytes :=
  match val with
  | [] => ([], [])
  | b :: val => if b =? 61 then (acc, val) else split_key (acc ++ [b]) val
  end.

Fixpoint split_values (escape : bool) (bf val : bytes) (values : list bytes) : list bytes :=
  match val with
  | [] => if (length bf =? 0)%nat then values else values ++ [bf]
  | b :: val =>
    if escape then split_values false (bf ++ [b]) val values
    else if b =? 92 then split_values true bf val values
    else if b =? 59 then split_values false [] val (values ++ [bf])
    else split_values false (bf ++ [b]) val values
  end.

Definition parseShardKey (val : bytes) : bytes * list bytes :=
  let '(key, rest) := split_key [] val in
  (ToLower key, split_values false [] rest []).

(** ** The shards of the key values *)

(** [atoui]: the leading digits of a text, at 64 bits, and how many they are. *)
Fixpoint atoui_loop (s : bytes) (ret : Z) (i : Z) : Z * Z :=
  match s with
  | [] => (ret, i)
  | b :: s =>
    let digit := u8 (b - 48) in
    if 9 <? digit then (ret, i) else atoui_loop s (u64 (ret * 10 + digit)) (i + 1)
  end.

Definition atoui (s : bytes) : Z * Z := atoui_loop s 0 0.

(** The loop over [shardValues]; [true] when the values are cut to the first. *)
Fixpoint logical_loop (vals : list bytes) (recs : list (option ShardMapRecord)) :
    result (list (option ShardMapRecord) * bool) :=
  match vals with
  | [] => Ret (recs, false)
  | rec :: vals =>
    if (length rec =? 0)%nat && EnableWhitelistTest cfg then Ret (recs ++ [Some (mkRec 0 0 0)], false)
    else
      let k : key := if ShardKeyValueTypeIsString cfg then inl rec else inr (fst (atoui rec)) in
      let single := EnableWhitelistTest cfg || negb (UseShardMap cfg) in
      if single && (length recs =? 1)%nat then Ret (recs, true)
      else
        r ← match (if single then wlcfg else None) with
            | Some wl =>
              match wl !! k with
              | Some r => if (0 <=? logical r) && (logical r <? NumOfShards cfg) then Ret (Some r) else getShardRec k
              | None => getShardRec k
              end
            | None => getShardRec k
            end;
        logical_loop vals (recs ++ [r])
  end.

Definition computeLogicalShards (s : shardInfo) : result shardInfo :=
  '(recs, cut) ← logical_loop (shardValues s) [];
  let s := set_recs recs s in
  let s := if (cut : bool) then set_values (take 1 (shardValues s)) s else s in
  match recs with
  | Some r :: _ => Ret (set_id (logical r) s)
  | None :: _ => Panic
  | [] => Ret (set_values [] s)
  end.

(** ** Bind names *)

Definition isShardKey (bind : bytes) : bool :=
  match bind with
  | [] => false
  | b0 :: tl =>
    let bind := if b0 =? 58 then tl else bind in
    let skey := ShardKeyName cfg in
    if (length bind <? length skey)%nat then false
    else if negb (bool_decide (ToLower (take (length skey) bind) = skey)) then false
    else
      match drop (length skey) bind with
      | [] => true
      | u :: ds => (u =? 95) && forallb (λ ch, (48 <=? ch) && (ch <=? 57)) ds
      end
  end.

(** ** The checks *)

(** [crd.shard.shardRecs[0]], dereferenced. *)
Definition rec0 (s : shardInfo) : result ShardMapRecord :=
  r ← index_get (shardRecs s) 0;
  match r with Some r => Ret r | None => Panic end.

Definition has_flag (r : ShardMapRecord) (f : Z) : bool := negb (Z.land (flags r) f =? 0).

(** [hangup] of the rejections: a key whose record is marked bad. *)
Definition bad_logical (s : shardInfo) : result bool :=
  match shardValues s with
  | [] => Ret false
  | _ => r ← rec0 s; Ret (has_flag r FlagsBadLogical)
  end.

Definition bad_mapping (s : shardInfo) : result bool :=
  match shardValues s with
  | [] => Ret false
  | _ => r ← rec0 s; Ret (has_flag r FlagsBadLogical || (NumOfShards cfg <=? logical r))
  end.

(** Scuttle buckets marked down for reading or writing. *)
Definition check_markdown (c : Coordinator) : result (Coordinator * option (bool * go_error)) :=
  match shardRecs (shard c) with
  | [] => Ret (c, None)
  | _ =>
    r ← rec0 (shard c);
    if isRead c then
      if has_flag r FlagsReadStatusN then Ret (respond_err ErrScuttleMarkdownR c, Some (true, ErrScuttleMarkdownR))
      else Ret (c, None)
    else if has_flag r FlagsWriteStatusN then Ret (respond_err ErrScuttleMarkdownW c, Some (true, ErrScuttleMarkdownW))
    else Ret (c, None)
  end.

(** The answer is [None] for nil, or [hangup] and the error. *)
Definition verifyValidShard (c : Coordinator) : result (Coordinator * option (bool * go_error)) :=
  bad ← bad_mapping (shard c);
  if bad && negb (EnableWhitelistTest cfg) then
    hangup ← bad_logical (shard c);
    Ret (respond_err ErrNoShardKey c, Some (hangup, ErrNoShardKey))
  else
    let c := if (bad : bool) then
               set_shard (set_id 0 (set_recs (Some (mkRec 0 0 0) :: tail (shardRecs (shard c))) (shard c))) c
             else c in
    let s := shard c in
    if (1 <? zlen (shardValues s)) ||
       ((zlen (shardValues s) =? 0) && (sessionShardID s =? -1) && (zlen (shardRecs s) =? 0)) then
      hangup ← bad_logical s;
      Ret (respond_err ErrNoShardKey c, Some (hangup, ErrNoShardKey))
    else check_markdown c.

Definition verifyXShard (oldShardValues : list bytes) (oldShardID : Z) (c : Coordinator) :
    result (Coordinator * option go_error) :=
  if isRead c then Ret (c, None)
  else
    let crosskeys := match oldShardValues, shardValues (shard c) with
                     | o :: _, v :: _ => negb (bool_decide (o = v))
                     | _, _ => false
                     end in
    if crosskeys && ShardingCrossKeysErr cfg then Ret (respond_err ErrCrossKeysDML c, Some ErrCrossKeysDML)
    else
      match shardRecs (shard c) with
      | [] => Ret (c, None)
      | _ =>
        r ← rec0 (shard c);
        if negb (oldShardID =? logical r) then Ret (respond_err ErrCrossShardDML c, Some ErrCrossShardDML)
        else Ret (c, None)
      end.

(** ** PreprocessSharding *)

Definition set_shard_key (vals : option (list bytes)) (c : Coordinator) : result Coordinator :=
  let s := match vals with Some vs => set_values vs (shard c) | None => shard c end in
  s ← computeLogicalShards (set_hash (sqlhash c) s);
  Ret (set_shard s c).

(** The loop over the requests after the first: it ends with the coordinator and
    whether the shard key was discovered in the binds, or returns an error. *)
Fixpoint request_loop (reqs : list Packet) (autodisc : bool) (c : Coordinator) :
    result (Coordinator * (bool + bool * go_error)) :=
  match reqs with
  | [] => Ret (c, inl autodisc)
  | r :: rest =>
    let s := shard c in
    if (Cmd r =? CmdBindName) && isShardKey (Payload r) then
      if negb (sessionShardID s =? -1) then
        Ret (respond_err ErrAutodiscoverWhileSetShardID c, inr (true, ErrAutodiscoverWhileSetShardID))
      else
        match rest with
        | [] => request_loop rest autodisc c
        | next :: _ =>
          let s := if autodisc then s else mkShard [] [] (sessionShardID (prevShard c)) 0 0 in
          request_loop rest true (set_shard (set_values (shardValues s ++ [Payload next]) s) c)
        end
    else if Cmd r =? CmdShardKey then
      if negb (sessionShardID s =? -1) then
        Ret (c, inr (true, errors_New (str "Unsupported both HERA_SET_SHARD_ID and ShardKey")))
      else
        let '(key, vals) := parseShardKey (Payload r) in
        if negb (bool_decide (key = ShardKeyName cfg)) then
          if negb (EnableWhitelistTest cfg) && UseShardMap cfg then
            Ret (respond_err ErrNoShardKey c, inr (false, ErrNoShardKey))
          else c ← set_shard_key None c; Ret (c, inl false)
        else c ← set_shard_key (Some vals) c; Ret (c, inl false)
    else request_loop rest autodisc c
  end.

(** The start of a request: in a transaction the shard information is kept as the
    previous one. *)
Definition begin_request (c : Coordinator) : Coordinator :=
  if inTransaction c then
    set_shard (set_values [] (set_recs [] (shard c))) (set_prev (shard c) c)
  else
    set_prev (set_session (sessionShardID (shard c)) (prevShard c))
      (set_shard (set_values [] (set_recs [] (shard c))) c).

(** Without a shard map, or with a whitelist, a request without a key gets the record
    of shard 0. *)
Definition default_rec (c : Coordinator) : Coordinator :=
  if (zlen (shardValues (shard c)) =? 0) && (sessionShardID (shard c) =? -1) &&
     (EnableWhitelistTest cfg || negb (UseShardMap cfg))
  then set_shard (set_recs [Some (mkRec 0 0 0)] (shard c)) c
  else c.

Definition PreprocessSharding (requests : list Packet) (c : Coordinator) :
    result (Coordinator * option (bool * go_error)) :=
  '(c, out) ← request_loop (drop 1 requests) false (begin_request c);
  match out with
  | inr e => Ret (c, Some e)
  | inl autodisc =>
    c ← (if (autodisc : bool) then
           s ← computeLogicalShards (shard c);
           Ret (set_shard (set_hash (sqlhash c) s) c)
         else Ret c);
    '(c, err) ← verifyValidShard (default_rec c);
    match err with
    | Some e => Ret (c, Some e)
    | None =>
      if inTransaction c then
        '(c, err) ← verifyXShard (shardValues (prevShard c)) (shardID (prevShard c)) c;
        match err with
        | Some e => Ret (c, Some (true, e))
        | None => Ret (c, None)
        end
      else Ret (c, None)
    end
  end.

(** ** Bucket of a numeric key *)

Lemma key_bytes_8 n : key_bytes 8 0 (replicate 8 0) n 0 = Ret (replicate 8 (u8 (Z.land n 0xFF)), 0).
Proof. reflexivity. Qed.

(** For numeric shard keys only the low byte of the key takes part in the choice of
    the bucket, so at most 256 buckets are used; and with the algorithm "mod" the key
    takes no part at all, so every key is in bucket 0. *)
Theorem getShardRec_low_byte n :
  ShardKeyValueTypeIsString cfg = false →
  getShardRec (inr n) = getShardRec (inr (n mod 256)) ∧
  (ShardingAlgoHash cfg = false →
   getShardRec (inr n) = (if u64 (MaxScuttleBuckets cfg) =? 0 then Panic else
                          match smap with None => Panic | Some recs => index_get recs 0 end)).
Proof.
  intros Hk. unfold getShardRec. rewrite Hk, !key_bytes_8. split.
  - change 0xFF with (Z.ones 8). rewrite !Z.land_ones by lia. change (2 ^ 8) with 256.
    by rewrite Z.mod_mod by lia.
  - intros ->. cbn [mbind result_bind]. destruct (_ =? 0) eqn:E; [done|]. by rewrite Z.mod_0_l by lia.
Qed.

(** ** Round trip of the ShardKey payload *)

Definition escape_byte (b : byte) : bytes := if (b =? 92) || (b =? 59) then [92; b] else [b].
Definition escape (v : bytes) : bytes := flat_map escape_byte v.

Fixpoint encode_values (vals : list bytes) : bytes :=
  match vals with
  | [] => []
  | [v] => escape v
  | v :: vs => escape v ++ 59 :: encode_values vs
  end.

Lemma split_key_ok acc key rest : 61 ∉ key → split_key acc (key ++ 61 :: rest) = (acc ++ key, rest).
Proof.
  revert acc. induction key as [|b key IH]; intros acc H; simpl; [by rewrite app_nil_r|].
  apply not_elem_of_cons in H as [Hb Hs].
  rewrite (proj2 (Z.eqb_neq b 61)) by congruence. by rewrite IH, <- app_assoc.
Qed.

Lemma split_values_escape v bf rest values :
  split_values false bf (escape v ++ rest) values = split_values false (bf ++ v) rest values.
Proof.
  revert bf. induction v as [|b v IH]; intros bf; simpl; [by rewrite app_nil_r|].
  replace (bf ++ b :: v) with ((bf ++ [b]) ++ v) by by rewrite <- app_assoc.
  rewrite <- app_assoc, <- IH. unfold escape_byte.
  destruct (b =? 92) eqn:E1; simpl; [done|].
  destruct (b =? 59) eqn:E2; simpl; [done|]. by rewrite E1, E2.
Qed.

Lemma split_values_encode vals values : vals ≠ [] → List.last vals [] ≠ [] →
  split_values false [] (encode_values vals) values = values ++ vals.
Proof.
  revert values. induction vals as [|v vals IH]; intros values Hne Hlast; [done|].
  destruct vals as [|v' vals].
  - cbn [encode_values]. rewrite <- (app_nil_r (escape v)), split_values_escape.
    cbn. by destruct v.
  - cbn [encode_values]. rewrite split_values_escape. cbn [split_values app].
    change (59 =? 92) with false. change (59 =? 59) with true. cbv iota.
    rewrite IH by done. by rewrite <- app_assoc.
Qed.

(** A ShardKey payload built from a key name without "=" and from values whose ";" and
    "\" are escaped is parsed back to the lower-cased name and the same values, as long
    as the last one is not empty. *)
Theorem parseShardKey_roundtrip key vals :
  61 ∉ key → vals ≠ [] → List.last vals [] ≠ [] →
  parseShardKey (key ++ 61 :: encode_values vals) = (ToLower key, vals).
Proof.
  intros Hk Hv Hl. unfold parseShardKey. by rewrite split_key_ok, split_values_encode.
Qed.

(** ** Where a request is routed *)

(** What routing relies on: the ranges of the configuration, a loaded shard map
    ([ShardMap.loadMap_spec]) and a whitelist whose flags are the status flags. *)
Record routing_ok : Prop := {
  shards_pos : 1 <= NumOfShards cfg;
  buckets_range : 1 <= MaxScuttleBuckets cfg <= 1024;
  map_loaded : ∃ m, smap = Some m ∧ wf_map cfg m;
  wl_flags : ∀ wl k r, wlcfg = Some wl → wl !! k = Some r → Z.land (flags r) FlagsBadLogical = 0
}.

Context (Hok : routing_ok).
Definition N : Z := NumOfShards cfg.
Definition wl_mode : bool := EnableWhitelistTest cfg || negb (UseShardMap cfg).

Lemma key_hash k : (ShardKeyValueTypeIsString cfg = true → ∃ s, k = inl s) →
  (ShardKeyValueTypeIsString cfg = false → ∃ n, k = inr n) →
  ∃ h, 0 <= h ∧ (if ShardingAlgoHash cfg then
         if ShardKeyValueTypeIsString cfg then
           match k with inl s => Ret (Murmur3.Murmur3 s) | inr _ => Panic end
         else
           match k with
           | inr keyNum => '(bs, _) ← key_bytes 8 0 (replicate 8 0) keyNum 0; Ret (Murmur3.Murmur3 bs)
           | inl _ => Panic
           end
       else Ret 0) = Ret h.
Proof.
  intros Hs Hn. destruct (ShardingAlgoHash cfg); [|by exists 0].
  destruct (ShardKeyValueTypeIsString cfg).
  - destruct Hs as [s ->]; [done|]. exists (Murmur3.Murmur3 s). split; [apply Murmur3.Murmur3_nonneg|done].
  - destruct Hn as [n ->]; [done|]. rewrite key_bytes_8. eexists. split; [|done]. apply Murmur3.Murmur3_nonneg.
Qed.

Lemma getShardRec_valid k : (ShardKeyValueTypeIsString cfg = true → ∃ s, k = inl s) →
  (ShardKeyValueTypeIsString cfg = false → ∃ n, k = inr n) →
  ∃ r, getShardRec k = Ret (Some r) ∧ valid_route cfg r.
Proof.
  intros Hs Hn. destruct (key_hash k Hs Hn) as (h & Hh & E). unfold getShardRec. rewrite E.
  destruct Hok as [_ HB (m & -> & Hl & Hm) _]. cbn [mbind result_bind].
  rewrite u64_id by go_lia. rewrite (proj2 (Z.eqb_neq _ 0)) by lia.
  destruct (Hm (h mod MaxScuttleBuckets cfg)) as (r & Hr & V); [apply Z.mod_pos_bound; lia|].
  exists r. split; [|done]. rewrite index_get_at; [by rewrite Hr|done|].
  pose proof (Z.mod_pos_bound h (MaxScuttleBuckets cfg)). lia.
Qed.

Definition valid_rec (o : option ShardMapRecord) : Prop := ∃ r, o = Some r ∧ valid_route cfg r.

Lemma zero_valid : valid_rec (Some (mkRec 0 0 0)).
Proof. exists (mkRec 0 0 0). split; [done|]. left. destruct Hok. split; [simpl; lia|done]. Qed.

Lemma logical_loop_valid vals recs : Forall valid_rec recs →
  ∃ recs' cut, logical_loop vals recs = Ret (recs', cut) ∧ Forall valid_rec recs' ∧
    (recs' = [] ↔ recs = [] ∧ vals = []) ∧ (cut = true → vals ≠ []).
Proof.
  revert recs. induction vals as [|v vals IH]; intros recs F; cbn [logical_loop].
  { exists recs, false. naive_solver. }
  destruct (_ && EnableWhitelistTest cfg).
  { eexists _, _. split; [done|]. split_and!; try done.
    - apply Forall_app_2; [done|]. constructor; [apply zero_valid|constructor].
    - split; [by intros [_ ?]%app_nil|naive_solver]. }
  destruct (_ && (length recs =? 1)%nat) eqn:E1.
  { exists recs, true. split_and!; try done. split; [|naive_solver]. intros ->. by rewrite andb_false_r in E1. }
  set (k := if ShardKeyValueTypeIsString cfg then inl v else inr (fst (atoui v)) : key).
  destruct (getShardRec_valid k) as (r & Er & Vr).
  { subst k. intros ->. eauto. }
  { subst k. intros ->. eauto. }
  assert (Hr : ∃ r, (match (if EnableWhitelistTest cfg || negb (UseShardMap cfg) then wlcfg else None) with
       | Some wl => match wl !! k with
              | Some r => if (0 <=? logical r) && (logical r <? NumOfShards cfg) then Ret (Some r) else getShardRec k
              | None => getShardRec k end
       | None => getShardRec k end) = Ret (Some r) ∧ valid_route cfg r).
  { rewrite Er. destruct (if _ || _ then _ else _) as [wl|] eqn:Ew; [|by exists r].
    destruct (wl !! k) as [r1|] eqn:Ek; [|by exists r].
    destruct ((0 <=? logical r1) && (logical r1 <? NumOfShards cfg)) eqn:Eb; [|by exists r]. exists r1. split; [done|]. left. split; [lia|].
    destruct (_ || _); [|done]. by eapply (wl_flags Hok). }
  destruct Hr as (r1 & -> & V1). cbn [mbind result_bind].
  destruct (IH (recs ++ [Some r1])) as (recs' & cut & E & F' & Hn & Hc).
  { apply Forall_app_2; [done|]. constructor; [by exists r1|constructor]. }
  exists recs', cut. split_and!; try done. rewrite Hn. split; [|naive_solver].
  by intros [[_ ?]%app_nil _].
Qed.

(** The outcome of [computeLogicalShards]: no key, or a first record the shard id
    comes from. *)
Definition routed (s : shardInfo) : Prop :=
  (shardValues s = [] ∧ shardRecs s = []) ∨
  (shardValues s ≠ [] ∧ ∃ r rest, shardRecs s = Some r :: rest ∧ valid_route cfg r ∧ shardID s = logical r).

Lemma computeLogicalShards_routed s :
  ∃ s', computeLogicalShards s = Ret s' ∧ sessionShardID s' = sessionShardID s ∧ routed s' ∧
    (shardValues s' = [] ↔ shardValues s = []) ∧ (shardValues s = [] → shardID s' = shardID s).
Proof.
  unfold computeLogicalShards.
  destruct (logical_loop_valid (shardValues s) []) as (recs & cut & -> & F & Hnil & Hcut); [done|].
  cbn [mbind result_bind]. destruct recs as [|o recs].
  - eexists. split; [done|]. assert (shardValues s = []) by naive_solver.
    destruct cut; cbn; split_and!; try done; by left.
  - apply Forall_cons in F as [(r & -> & V) _]. eexists. split; [done|].
    assert (Hv : shardValues s ≠ []) by (intros E; destruct Hnil; naive_solver).
    destruct cut; cbn; (split_and!; [done| | |done]);
      try (right; split; [|by exists r, recs]); try done; by destruct (shardValues s).
Qed.

(** The session keeps valid shard ids. *)
Definition session_ok (s : shardInfo) : Prop :=
  -1 <= sessionShardID s < N ∧ -1 <= shardID s < N ∧
  (sessionShardID s ≠ -1 → 0 <= shardID s) ∧ (wl_mode = true → 0 <= shardID s).

Definition same_frame (c c' : Coordinator) : Prop :=
  prevShard c' = prevShard c ∧ inTransaction c' = inTransaction c ∧ isRead c' = isRead c ∧
  sessionShardID (shard c') = sessionShardID (shard c).

(** The shard information while the requests are read: nothing found yet, or the
    values found in the binds. *)
Definition reading (autodisc : bool) (id : Z) (s : shardInfo) : Prop :=
  if autodisc then shardValues s ≠ [] ∧ shardID s = 0 ∧ sessionShardID s = -1
  else shardValues s = [] ∧ shardRecs s = [] ∧ shardID s = id.

(** The shard information once the requests are read. *)
Definition settled (id : Z) (s : shardInfo) : Prop :=
  routed s ∧ (shardValues s = [] → shardID s = id ∨ (shardID s = 0 ∧ sessionShardID s = -1)).

Lemma set_shard_key_settled vals autodisc id c : reading autodisc id (shard c) →
  sessionShardID (shard c) = -1 →
  ∃ c', set_shard_key vals c = Ret c' ∧ same_frame c c' ∧ settled id (shard c').
Proof.
  intros Hr Hs. unfold set_shard_key.
  destruct (computeLogicalShards_routed (set_hash (sqlhash c)
    match vals with Some vs => set_values vs (shard c) | None => shard c end))
    as (s' & -> & Hs' & Hrt & Hv & Hid).
  cbn [mbind result_bind]. eexists. split; [done|]. unfold same_frame, settled. cbn in *.
  assert (Es : sessionShardID s' = -1) by (rewrite Hs'; by destruct vals).
  split_and!; try done; [by rewrite Es|]. intros E. apply Hv in E. rewrite (Hid E).
  unfold reading in Hr. destruct autodisc, vals; cbn in *; naive_solver.
Qed.

Lemma request_loop_settled reqs autodisc id c :
  reading autodisc id (shard c) → sessionShardID (prevShard c) = sessionShardID (shard c) →
  ∃ c' out, request_loop reqs autodisc c = Ret (c', out) ∧ same_frame c c' ∧
    match out with
    | inl true => reading true id (shard c')
    | inl false => settled id (shard c')
    | inr _ => ∃ a, reading a id (shard c')
    end.
Proof.
  revert autodisc c. induction reqs as [|r rest IH]; intros autodisc c Hr Hp; cbn [request_loop].
  { exists c, (inl autodisc). split_and!; try done. destruct autodisc; [done|].
    destruct Hr as (Hv & Hc & Hi). split; [by left|]. auto. }
  destruct (_ && isShardKey _).
  - destruct (sessionShardID (shard c) =? -1) eqn:E; cbn [negb].
    2: { eexists _, _. split; [done|]. split; [done|]. by exists autodisc. }
    apply Z.eqb_eq in E. destruct rest as [|next rest']; [by apply IH|].
    set (c1 := set_shard _ c).
    destruct (IH true c1) as (c' & out & Eo & (Hf1 & Hf2 & Hf3 & Hf4) & H).
    { subst c1. destruct autodisc; cbn; [destruct Hr as (? & ? & ?); split_and!; [|done|done]|].
      - by intros [_ ?]%app_nil.
      - split_and!; [done|done|]. by rewrite Hp. }
    { subst c1. destruct autodisc; cbn; [done|]. done. }
    exists c', out. split; [done|]. split; [|done]. unfold same_frame. rewrite Hf1, Hf2, Hf3, Hf4.
    subst c1. destruct autodisc; cbn; [done|]. by rewrite Hp.
  - destruct (Cmd r =? CmdShardKey); [|by apply IH].
    destruct (sessionShardID (shard c) =? -1) eqn:E; cbn [negb].
    2: { eexists _, _. split; [done|]. split; [done|]. by exists autodisc. }
    apply Z.eqb_eq in E. destruct (parseShardKey (Payload r)) as [key vals].
    destruct (negb (bool_decide _)).
    + destruct (negb _ && _).
      { eexists _, _. split; [done|]. split; [done|]. by exists autodisc. }
      destruct (set_shard_key_settled None autodisc id c Hr E) as (c' & -> & Hf & Hset).
      cbn [mbind result_bind]. by exists c', (inl false).
    + destruct (set_shard_key_settled (Some vals) autodisc id c Hr E) as (c' & -> & Hf & Hset).
      cbn [mbind result_bind]. by exists c', (inl false).
Qed.

(** An accepted request goes to a shard that exists. *)
Definition accepted (s : shardInfo) : Prop := 0 <= shardID s < N.

Definition first_rec (s : shardInfo) (r : ShardMapRecord) : Prop := ∃ rest, shardRecs s = Some r :: rest.

Lemma rec0_cons s r rest : shardRecs s = Some r :: rest → rec0 s = Ret r.
Proof. intros E. unfold rec0. by rewrite E. Qed.

Lemma valid_not_bad r : valid_route cfg r → has_flag r FlagsBadLogical = false → 0 <= logical r < N.
Proof.
  unfold has_flag, N. intros [[? ?]|[? Hb]] E; [lia|]. by apply negb_false_iff, Z.eqb_eq in E.
Qed.

Lemma check_markdown_frame c r rest : shardRecs (shard c) = [] ∨ shardRecs (shard c) = Some r :: rest →
  ∃ c' out, check_markdown c = Ret (c', out) ∧ same_frame c c' ∧ shard c' = shard c ∧
    match out with Some (hangup, _) => hangup = true | None => c' = c end.
Proof.
  intros H. unfold check_markdown. destruct H as [->|E]; [by eexists _, _|].
  rewrite E, (rec0_cons _ _ _ E). cbn [mbind result_bind].
  destruct (isRead c); destruct (has_flag _ _); by eexists _, _.
Qed.

(** Requests with a key. *)
Lemma verifyValidShard_keyed c : routed (shard c) → shardValues (shard c) ≠ [] →
  ∃ c' out, verifyValidShard c = Ret (c', out) ∧ same_frame c c' ∧ -1 <= shardID (shard c') < N ∧
    match out with
    | None => accepted (shard c') ∧ ∃ r, first_rec (shard c') r ∧ logical r = shardID (shard c')
    | Some (hangup, _) => hangup = true ∨ accepted (shard c')
    end.
Proof.
  intros [[? _]|(_ & r & rest & E & V & Hid)] Hv; [done|]. unfold verifyValidShard, bad_mapping.
  destruct (shardValues (shard c)) as [|v vs] eqn:Ev; [done|].
  rewrite (rec0_cons _ _ _ E). cbn [mbind result_bind].
  replace (NumOfShards cfg <=? logical r) with false by (symmetry; apply Z.leb_gt; destruct Hok; destruct V; lia).
  rewrite orb_false_r. unfold bad_logical at 1. rewrite Ev, (rec0_cons _ _ _ E). cbn [mbind result_bind].
  assert (Hrest : ∀ c1 r1, shardRecs (shard c1) = Some r1 :: rest → shardValues (shard c1) = v :: vs →
    has_flag r1 FlagsBadLogical = false → logical r1 = shardID (shard c1) → 0 <= shardID (shard c1) < N →
    ∃ c' out, (if (1 <? zlen (shardValues (shard c1))) ||
       ((zlen (shardValues (shard c1)) =? 0) && (sessionShardID (shard c1) =? -1) && (zlen (shardRecs (shard c1)) =? 0)) then
      hangup ← bad_logical (shard c1);
      Ret (respond_err ErrNoShardKey c1, Some (hangup, ErrNoShardKey))
    else check_markdown c1) = Ret (c', out) ∧ same_frame c1 c' ∧ -1 <= shardID (shard c') < N ∧
    match out with
    | None => accepted (shard c') ∧ ∃ r, first_rec (shard c') r ∧ logical r = shardID (shard c')
    | Some (hangup, _) => hangup = true ∨ accepted (shard c')
    end).
  { intros c1 r1 E1 Ev1 Hf Hl Hr. destruct (_ || _).
    - unfold bad_logical. rewrite Ev1, (rec0_cons _ _ _ E1). cbn [mbind result_bind].
      eexists _, _. split; [done|]. split; [done|]. split; [cbn; lia|]. by right.
    - destruct (check_markdown_frame c1 r1 rest) as (c' & out & -> & Hfr & Hsh & Hout); [by right|].
      exists c', out. split; [done|]. split; [done|]. split; [rewrite Hsh; lia|]. destruct out as [[h ?]|]; [by left|]. subst c'.
      split; [done|]. exists r1. split; [by exists rest|done]. }
  destruct (has_flag r FlagsBadLogical) eqn:Ef; destruct (EnableWhitelistTest cfg) eqn:Ew; cbn [andb negb].
  - set (c1 := set_shard _ c).
    destruct (Hrest c1 (mkRec 0 0 0)) as (c' & out & H1 & H2 & H3 & H4); try done.
    + subst c1. cbn. by rewrite E.
    + destruct Hok. unfold N. cbn. lia.
    + exists c', out. split; [done|]. split; [done|]. exact (conj H3 H4).
  - eexists _, _. split; [done|]. split; [done|]. split; [cbn; rewrite Hid; unfold N; destruct V; destruct Hok; lia|]. by left.
  - apply (Hrest c r); try done. rewrite Hid. by apply valid_not_bad.
  - apply (Hrest c r); try done. rewrite Hid. by apply valid_not_bad.
Qed.

Lemma verifyValidShard_nil c : shardValues (shard c) = [] →
  verifyValidShard c =
    if (sessionShardID (shard c) =? -1) && (zlen (shardRecs (shard c)) =? 0)
    then Ret (respond_err ErrNoShardKey c, Some (false, ErrNoShardKey))
    else check_markdown c.
Proof.
  intros Hv. unfold verifyValidShard, bad_mapping, bad_logical. rewrite Hv. cbn [mbind result_bind andb].
  rewrite Hv. by destruct (_ && _).
Qed.

(** Requests without a key, after [default_rec]. *)
Lemma verifyValidShard_keyless c : shardValues (shard c) = [] → shardRecs (shard c) = [] →
  session_ok (shard c) →
  ∃ c' out, verifyValidShard (default_rec c) = Ret (c', out) ∧ same_frame c c' ∧
    shardID (shard c') = shardID (shard c) ∧ shardValues (shard c') = [] ∧
    (shardRecs (shard c') = [] ∨ shardRecs (shard c') = [Some (mkRec 0 0 0)]) ∧
    match out with
    | None => accepted (shard c') ∧ (shardRecs (shard c') = [] → sessionShardID (shard c) ≠ -1)
    | Some _ => True
    end.
Proof.
  intros Hv Hr (Hs & Hid & Hsess & Hwl). unfold default_rec. rewrite Hv.
  change (zlen [] =? 0) with true. cbn [andb]. fold wl_mode.
  destruct ((sessionShardID (shard c) =? -1) && wl_mode) eqn:E.
  - apply andb_true_iff in E as [E1 E2]. specialize (Hwl E2).
    set (c1 := set_shard _ c). rewrite (verifyValidShard_nil c1) by done.
    change (zlen (shardRecs (shard c1)) =? 0) with false. rewrite andb_false_r.
    destruct (check_markdown_frame c1 (mkRec 0 0 0) []) as (c' & out & -> & Hf & Hsh & Hout); [by right|].
    exists c', out. rewrite Hsh. split_and!; try done; [by right|].
    destruct out; [done|]. split; [|done]. unfold accepted. cbn. lia.
  - rewrite verifyValidShard_nil, Hr by done. change (zlen [] =? 0) with true. rewrite andb_true_r.
    destruct (sessionShardID (shard c) =? -1) eqn:E1.
    + eexists _, _. split; [done|]. cbn. rewrite Hv, Hr. split_and!; try done. by left.
    + destruct (check_markdown_frame c (mkRec 0 0 0) []) as (c' & out & -> & Hf & Hsh & Hout); [by left|].
      exists c', out. rewrite Hsh, Hv, Hr. split_and!; try done; [by left|].
      destruct out; [done|]. apply Z.eqb_neq in E1. split; [|done]. specialize (Hsess E1). unfold accepted. lia.
Qed.

Lemma verifyXShard_frame vals old c r rest :
  shardRecs (shard c) = [] ∨ shardRecs (shard c) = Some r :: rest →
  ∃ c' out, verifyXShard vals old c = Ret (c', out) ∧ same_frame c c' ∧
    (out = None → c' = c ∧ (isRead c = false → shardRecs (shard c) = Some r :: rest → old = logical r)).
Proof.
  intros H. unfold verifyXShard. destruct (isRead c); [by eexists _, _|].
  destruct (_ && ShardingCrossKeysErr cfg); [by eexists _, _|].
  destruct H as [->|E]; [by eexists _, _|]. rewrite E, (rec0_cons _ _ _ E). cbn [mbind result_bind].
  destruct (old =? logical r) eqn:Eo; cbn [negb]; [|by eexists _, _].
  apply Z.eqb_eq in Eo. by eexists _, _.
Qed.

Lemma begin_request_reading c :
  reading false (shardID (shard c)) (shard (begin_request c)) ∧
  sessionShardID (prevShard (begin_request c)) = sessionShardID (shard (begin_request c)) ∧
  inTransaction (begin_request c) = inTransaction c ∧ isRead (begin_request c) = isRead c ∧
  sessionShardID (shard (begin_request c)) = sessionShardID (shard c) ∧
  (inTransaction c = true → prevShard (begin_request c) = shard c).
Proof. unfold begin_request. destruct (inTransaction c) eqn:E; cbn; rewrite ?E; by split_and!. Qed.

Lemma reading_session_ok a id s : reading a id s → -1 <= id < N →
  -1 <= sessionShardID s < N → (sessionShardID s ≠ -1 → 0 <= id) → (wl_mode = true → 0 <= id) → session_ok s.
Proof.
  destruct Hok. unfold N in *. unfold session_ok, reading, N. destruct a; [intros (_ & -> & ->)|intros (_ & _ & ->)]; naive_solver lia.
Qed.

Lemma accepted_session_ok s : accepted s → -1 <= sessionShardID s < N → session_ok s.
Proof. unfold accepted, session_ok. intros. split_and!; lia. Qed.

(** Reading the requests and computing the shards. *)
Lemma settle reqs c : session_ok (shard c) →
  ∃ c1 out, request_loop (drop 1 reqs) false (begin_request c) = Ret (c1, out) ∧
    same_frame (begin_request c) c1 ∧
    match out with
    | inr _ => session_ok (shard c1)
    | inl autodisc => ∃ c2, (if (autodisc : bool) then
           s ← computeLogicalShards (shard c1); Ret (set_shard (set_hash (sqlhash c1) s) c1)
         else Ret c1) = Ret c2 ∧ same_frame (begin_request c) c2 ∧ settled (shardID (shard c)) (shard c2)
    end.
Proof.
  intros (Hs & Hid & Hn & Hw). destruct (begin_request_reading c) as (Hr & Hp & _ & _ & Es & _).
  destruct (request_loop_settled (drop 1 reqs) false _ _ Hr Hp) as (c1 & out & -> & Hf & Ho).
  exists c1, out. split; [done|]. split; [done|]. destruct out as [[]|].
  - destruct (computeLogicalShards_routed (shard c1)) as (s' & -> & Es' & Hrt & Hv & _).
    cbn [mbind result_bind]. eexists. split; [done|]. destruct Ho as (Hne & _ & _), Hf as (? & ? & ? & ?).
    split; [unfold same_frame; cbn; by rewrite Es'|]. split; [done|]. cbn. naive_solver.
  - by exists c1.
  - destruct Ho as [a Ha]. destruct Hf as (_ & _ & _ & Es1). eapply reading_session_ok; [done|done|..];
      rewrite ?Es1, ?Es; done.
Qed.

(** The verdict of [verifyValidShard] on settled shard information: [id] is the shard
    before the request. *)
Lemma verifyValidShard_settled id c : settled id (shard c) → -1 <= sessionShardID (shard c) < N →
  -1 <= id < N → (sessionShardID (shard c) ≠ -1 → 0 <= id) → (wl_mode = true → 0 <= id) →
  ∃ c' out, verifyValidShard (default_rec c) = Ret (c', out) ∧ same_frame c c' ∧
    match out with
    | None => accepted (shard c') ∧
        ((shardRecs (shard c') = [] ∧ shardID (shard c') = id) ∨
         ∃ r, first_rec (shard c') r ∧ (logical r = shardID (shard c') ∨ shardID (shard c') = id))
    | Some (hangup, _) => hangup = true ∨ session_ok (shard c')
    end.
Proof.
  intros [Hrt Hnil] Hs Hid Hn Hw.
  destruct (decide (shardValues (shard c) = [])) as [Ev|Ev].
  - destruct Hrt as [[_ Erc]|[? _]]; [|done].
    assert (Hc : session_ok (shard c)).
    { destruct (Hnil Ev) as [E|[E1 E2]]; unfold session_ok; [by rewrite E|].
      destruct Hok. unfold N. split_and!; lia. }
    destruct (verifyValidShard_keyless c Ev Erc Hc) as (c' & out & -> & Hf & Ei & Ev3 & Hrc & Ho).
    exists c', out. split; [done|]. split; [done|]. destruct out as [[h e]|].
    + right. destruct Hf as (_ & _ & _ & Es). unfold session_ok. by rewrite Es, Ei.
    + destruct Ho as [Ha Hses]. split; [done|]. rewrite Ei. destruct Hrc as [Hrc|Hrc].
      * left. split; [done|]. destruct (Hnil Ev) as [|[_ ?]]; [done|]. by destruct (Hses Hrc).
      * right. exists (mkRec 0 0 0). split; [by exists []|]. destruct (Hnil Ev) as [|[? _]]; [by right|by left].
  - unfold default_rec. destruct (shardValues (shard c)) as [|v vs] eqn:Evs; [done|].
    change (zlen (v :: vs) =? 0) with false. cbn [andb].
    destruct (verifyValidShard_keyed c Hrt) as (c' & out & -> & Hf & _ & Ho); [by rewrite Evs|].
    exists c', out. split; [done|]. split; [done|]. destruct Hf as (_ & _ & _ & Es).
    destruct out as [[h e]|].
    + destruct Ho as [->|Hr]; [by left|]. right. apply accepted_session_ok; [done|]. by rewrite Es.
    + destruct Ho as (Ha & r & Hr & El). split; [done|]. right. exists r. auto.
Qed.

Lemma preprocess_ok reqs c : session_ok (shard c) →
  ∃ c' out, PreprocessSharding reqs c = Ret (c', out) ∧
    match out with
    | None => accepted (shard c') ∧ session_ok (shard c') ∧
        (inTransaction c = true → isRead c = false → shardID (shard c') = shardID (shard c))
    | Some (hangup, _) => hangup = true ∨ session_ok (shard c')
    end.
Proof.
  intros Hc. pose proof Hc as (Hs & Hid & Hn & Hw). unfold PreprocessSharding.
  destruct (begin_request_reading c) as (_ & _ & Et & Er & Es & Ep).
  destruct (settle reqs c Hc) as (c1 & out & -> & _ & Ho). cbn [mbind result_bind].
  destruct out as [autodisc|[h e]]; [|eexists _, _; split; [done|]; by right].
  destruct Ho as (c2 & -> & (Hf1 & Hf2 & Hf3 & Hf4) & Hset). cbn [mbind result_bind].
  rewrite Et in Hf2. rewrite Er in Hf3. rewrite Es in Hf4. rewrite <- Hf4 in Hs, Hn.
  destruct (verifyValidShard_settled _ c2 Hset Hs Hid Hn Hw) as (c3 & out & -> & (Hg1 & Hg2 & Hg3 & Hg4) & Ho).
  cbn [mbind result_bind]. destruct out as [[h e]|]; [by eexists _, _|]. destruct Ho as [Ha Hrec].
  assert (Hsok : session_ok (shard c3)) by (apply accepted_session_ok; [done|by rewrite Hg4]).
  rewrite Hg2, Hf2. destruct (inTransaction c) eqn:Etx; [|by eexists _, _].
  rewrite Hg1, Hf1, Ep by done.
  assert (Hr : ∃ r rest, (shardRecs (shard c3) = [] ∧ shardID (shard c3) = shardID (shard c)) ∨
    (shardRecs (shard c3) = Some r :: rest ∧ (logical r = shardID (shard c3) ∨ shardID (shard c3) = shardID (shard c)))).
  { destruct Hrec as [?|(r & [rest ?] & ?)]; [exists (mkRec 0 0 0), []; by left|exists r, rest; by right]. }
  destruct Hr as (r & rest & Hr).
  destruct (verifyXShard_frame (shardValues (shard c)) (shardID (shard c)) c3 r rest) as (c4 & out & -> & _ & Ho);
    [naive_solver|].
  cbn [mbind result_bind]. destruct out as [e|]; [eexists _, _; split; [done|]; by left|].
  destruct (Ho eq_refl) as [-> Hx]. eexists _, _. split; [done|]. split; [done|]. split; [done|].
  intros _ Ewr. rewrite Hg3, Hf3 in Hx. specialize (Hx Ewr).
  destruct Hr as [[_ ?]|[Er3 [?|?]]]; [done| |done]. rewrite (Hx Er3). congruence.
Qed.

(** ** The shard ids of a session

    Through any request the ids stay in the range of the configured shards, with -1 for none;
    and a shard that was chosen is lost only with a hang-up. *)

Definition in_range (s : shardInfo) : Prop := -1 <= sessionShardID s < N ∧ -1 <= shardID s < N.

Definition hangs_up (out : option (bool * go_error)) : bool := match out with Some (h, _) => h | None => false end.

(** Reading the requests, from any session. *)
Lemma settle_any reqs c :
  ∃ c1 out, request_loop (drop 1 reqs) false (begin_request c) = Ret (c1, out) ∧ same_frame (begin_request c) c1 ∧
    match out with
    | inr _ => ∃ a, reading a (shardID (shard c)) (shard c1)
    | inl autodisc => ∃ c2, (if (autodisc : bool) then
           s ← computeLogicalShards (shard c1); Ret (set_shard (set_hash (sqlhash c1) s) c1)
         else Ret c1) = Ret c2 ∧ same_frame (begin_request c) c2 ∧ settled (shardID (shard c)) (shard c2)
    end.
Proof.
  destruct (begin_request_reading c) as (Hr & Hp & _ & _ & Es & _).
  destruct (request_loop_settled (drop 1 reqs) false _ _ Hr Hp) as (c1 & out & -> & Hf & Ho).
  exists c1, out. split; [done|]. split; [done|]. destruct out as [[]|]; [|by exists c1|done].
  destruct (computeLogicalShards_routed (shard c1)) as (s' & -> & Es' & Hrt & Hv & _).
  cbn [mbind result_bind]. eexists. split; [done|]. destruct Ho as (Hne & _ & _), Hf as (? & ? & ? & ?).
  split; [unfold same_frame; cbn; by rewrite Es'|]. split; [done|]. cbn. naive_solver.
Qed.

Lemma verifyValidShard_ids id c c' out : settled id (shard c) → -1 <= id < N →
  verifyValidShard (default_rec c) = Ret (c', out) →
  same_frame c c' ∧ -1 <= shardID (shard c') < N ∧ (0 <= id → hangs_up out = false → 0 <= shardID (shard c')).
Proof.
  intros [Hrt Hnil] Hid E. destruct Hrt as [[Ev Erc]|(Hv & Hrt)].
  - assert (Hd : ∃ r, shardValues (shard (default_rec c)) = [] ∧ shardID (shard (default_rec c)) = shardID (shard c) ∧
      same_frame c (default_rec c) ∧ (shardRecs (shard (default_rec c)) = [] ∨ shardRecs (shard (default_rec c)) = [Some r])).
    { unfold default_rec. exists (mkRec 0 0 0). destruct (_ && _); cbn; rewrite ?Ev, ?Erc; split_and!; try done; by auto. }
    destruct Hd as (r & Hv & Hi & Hf & Hr). rewrite verifyValidShard_nil in E by done.
    assert (HN : 1 <= N) by (apply Hok). assert (Hb : -1 <= shardID (shard c) < N) by (destruct (Hnil Ev) as [->|[-> _]]; lia).
    assert (Hp : 0 <= id → 0 <= shardID (shard c)) by (destruct (Hnil Ev) as [->|[-> _]]; lia).
    destruct (_ && _).
    + apply Ret_inj in E as [= <- <-]. cbn [respond_err shard]. rewrite Hi. split; [exact Hf|]. split; [lia|by intros ? _; auto].
    + destruct (check_markdown_frame (default_rec c) r [] Hr) as (c1 & o & E1 & Hf1 & Hs1 & _). rewrite E1 in E.
      apply Ret_inj in E as [= <- <-]. rewrite Hs1, Hi. split; [|split; [lia|by intros ? _; auto]].
      destruct Hf as (? & ? & ? & ?), Hf1 as (? & ? & ? & ?). split_and!; congruence.
  - assert (Ed : default_rec c = c) by (unfold default_rec; destruct (shardValues (shard c)); done). rewrite Ed in E.
    destruct (verifyValidShard_keyed c) as (c1 & o & E1 & Hf & Hb & Ho); [by right|done|]. rewrite E1 in E.
    apply Ret_inj in E as [= <- <-]. split; [done|]. split; [done|]. intros _ Hh. destruct o as [[h e]|]; [|apply Ho].
    cbn in Hh. destruct Ho as [->|Ho]; [done|apply Ho].
Qed.

Lemma verifyXShard_shard vals old c c' out : verifyXShard vals old c = Ret (c', out) → shard c' = shard c ∧ prevShard c' = prevShard c.
Proof.
  unfold verifyXShard. destruct (isRead c); [by intros [= <- <-]%Ret_inj|].
  destruct (_ && ShardingCrossKeysErr cfg); [by intros [= <- <-]%Ret_inj|].
  destruct (shardRecs (shard c)); [by intros [= <- <-]%Ret_inj|]. intros (r & _ & E)%bind_Ret.
  destruct (negb _); by apply Ret_inj in E as [= <- <-].
Qed.

Lemma begin_request_prev c : in_range (shard c) → in_range (prevShard c) → in_range (prevShard (begin_request c)) ∧
  (0 <= shardID (shard c) → 0 <= shardID (prevShard c) → 0 <= shardID (prevShard (begin_request c))).
Proof. unfold begin_request, in_range. destruct (inTransaction c); cbn; naive_solver. Qed.

(** A request, whatever becomes of it. *)
Lemma preprocess_ids reqs c c' out : PreprocessSharding reqs c = Ret (c', out) → in_range (shard c) → in_range (prevShard c) →
  (in_range (shard c') ∧ in_range (prevShard c')) ∧
  (0 <= shardID (shard c) → 0 <= shardID (prevShard c) →
   0 <= shardID (prevShard c') ∧ (hangs_up out = false → 0 <= shardID (shard c'))).
Proof.
  intros E Hs Hp. destruct (begin_request_prev c Hs Hp) as [Hp1 Hp2].
  destruct (begin_request_reading c) as (_ & _ & _ & _ & Es & _). destruct Hs as [Hs1 Hs2].
  unfold PreprocessSharding in E. destruct (settle_any reqs c) as (c1 & o & E1 & Hf & Ho). rewrite E1 in E. cbn [mbind result_bind] in E.
  destruct o as [autodisc|e].
  - destruct Ho as (c2 & E2 & (F1 & F2 & F3 & F4) & Hset). rewrite E2 in E. cbn [mbind result_bind] in E.
    apply bind_Ret in E as ([c3 o3] & E3 & E).
    destruct (verifyValidShard_ids _ _ _ _ Hset Hs2 E3) as ((G1 & G2 & G3 & G4) & Hr & Hz).
    assert (HG : (in_range (shard c3) ∧ in_range (prevShard c3)) ∧
      (0 <= shardID (shard c) → 0 <= shardID (prevShard c) → 0 <= shardID (prevShard c3) ∧ (hangs_up o3 = false → 0 <= shardID (shard c3)))).
    { rewrite G1, F1. unfold in_range at 1. rewrite G4, F4, Es. by auto. }
    destruct o3 as [e|]; [by apply Ret_inj in E as [= <- <-]|].
    destruct (inTransaction c3); [|by apply Ret_inj in E as [= <- <-]].
    apply bind_Ret in E as ([c4 o4] & E4 & E). destruct (verifyXShard_shard _ _ _ _ _ E4) as [X1 X2].
    cbn [hangs_up] in HG. destruct o4; apply Ret_inj in E as [= <- <-]; rewrite X1, X2; cbn [hangs_up]; naive_solver.
  - apply Ret_inj in E as [= <- <-]. destruct Hf as (F1 & _ & _ & F4). rewrite F1. destruct Ho as [a Ha].
    assert (HN : 1 <= N) by (apply Hok). assert (Hi : shardID (shard c1) = shardID (shard c) ∨ shardID (shard c1) = 0) by (destruct a; naive_solver).
    split; [split; [|done]; unfold in_range; rewrite F4, Es; lia|]. intros. split; [auto|]. intros _. lia.
Qed.

(** HERA_SET_SHARD_ID; only a reset to -1 leaves a session without a shard. *)
Lemma processSetShardID_ids val c c' err : processSetShardID val c = (c', err) → in_range (shard c) →
  in_range (shard c') ∧ prevShard c' = prevShard c ∧
  (0 <= shardID (shard c) → (ParseInt 32 val).1 ≠ -1 → 0 <= shardID (shard c')).
Proof.
  intros E Hs. assert (HN : 1 <= N) by (apply Hok). unfold processSetShardID in E. destruct (ParseInt 32 val) as [sh ok] eqn:Ep.
  destruct (negb EnableSharding && _ && _); [injection E as <- <-; by split_and!|].
  destruct (negb ok || (sh <? -1) || (NumOfShards cfg <=? sh)) eqn:Eb; [injection E as <- <-; by split_and!|].
  assert (Hb : -1 <= sh < N) by (unfold N; destruct ok; cbn in Eb; lia).
  set (id := if _ && _ then 0 else sh) in E. assert (Hi : id = 0 ∨ id = sh) by (subst id; destruct (_ && _); auto). clearbody id.
  unfold in_range in *. destruct (inTransaction _); [destruct (worker _) as [w|]; [destruct (negb (w =? sh))|]|];
    injection E as <- <-; cbn; split_and!; try done; lia.
Qed.

(** A write that is accepted in a transaction is routed to the shard the session had before
    the request, which need not be the shard of its worker ([rejected_request_moves_shard]). *)
Lemma write_keeps_shard reqs c c' :
  session_ok (shard c) → inTransaction c = true → isRead c = false →
  PreprocessSharding reqs c = Ret (c', None) → shardID (shard c') = shardID (shard c).
Proof.
  intros Hs Ht Hr E. destruct (preprocess_ok reqs c Hs) as (c2 & out & E2 & Ho).
  rewrite E in E2. injection E2 as <- <-. by apply Ho.
Qed.

(** *** A rejected request moves the transaction

    The record a value of the shard key leads to, with a shard map and without a whitelist. *)
Definition rec_of (v : bytes) : result (option ShardMapRecord) :=
  getShardRec (if ShardKeyValueTypeIsString cfg then inl v else inr (fst (atoui v))).

Definition keyed (r : Packet) (vals : list bytes) : Prop :=
  Cmd r = CmdShardKey ∧ parseShardKey (Payload r) = (ShardKeyName cfg, vals).

Lemma logical_loop_recs vals rs recs : EnableWhitelistTest cfg = false → UseShardMap cfg = true →
  Forall2 (λ v r, rec_of v = Ret r) vals rs → logical_loop vals recs = Ret (recs ++ rs, false).
Proof.
  intros Hw Hu F. revert recs. induction F as [|v r vals rs Hv F IH]; intros recs; cbn [logical_loop]; [by rewrite app_nil_r|].
  rewrite Hw, Hu, andb_false_r. cbn [orb negb andb]. unfold rec_of in Hv. rewrite Hv. cbn [mbind result_bind].
  by rewrite IH, <- app_assoc.
Qed.

(** A request that carries one keyed part, up to the checks. *)
Lemma keyed_request p r vals rec rs c : EnableWhitelistTest cfg = false → UseShardMap cfg = true → vals ≠ [] →
  sessionShardID (shard c) = -1 → inTransaction c = true → keyed r vals → Forall2 (λ v r, rec_of v = Ret r) vals (Some rec :: rs) →
  let s := mkShard vals (Some rec :: rs) (-1) (logical rec) (sqlhash c) in
  PreprocessSharding [p; r] c =
    ('(c, err) ← verifyValidShard (set_shard s (set_prev (shard c) c));
     match err with
     | Some e => Ret (c, Some e)
     | None =>
       if inTransaction c then
         '(c, err) ← verifyXShard (shardValues (prevShard c)) (shardID (prevShard c)) c;
         match err with Some e => Ret (c, Some (true, e)) | None => Ret (c, None) end
       else Ret (c, None)
     end).
Proof.
  intros Hw Hu Hv Hs Ht [Hc Hp] F s. unfold PreprocessSharding, begin_request. rewrite Ht. cbn [drop request_loop].
  rewrite Hc. change (CmdShardKey =? CmdBindName) with false. cbn [andb]. rewrite Z.eqb_refl. cbn [shard set_shard set_prev sessionShardID set_values set_recs].
  rewrite Hs. cbn [Z.eqb negb]. change (-1 =? -1) with true. cbn [negb]. rewrite Hp, bool_decide_true by done. cbn [negb].
  unfold set_shard_key, computeLogicalShards. cbn [shardValues set_values set_hash]. rewrite (logical_loop_recs vals (Some rec :: rs) [] Hw Hu F).
  cbn [mbind result_bind app]. unfold default_rec. cbn [shard set_shard shardValues set_id set_recs set_values set_hash].
  destruct vals as [|v vals]; [done|]. change (zlen (v :: vals) =? 0) with false. cbn [andb]. subst s.
  unfold set_shard, set_prev, set_id, set_recs, set_values, set_hash. cbn. by rewrite Hs.
Qed.

(** The verdict on one value and on two, of a record that is in order. *)
Lemma verify_one c v rec : shardValues (shard c) = [v] → shardRecs (shard c) = [Some rec] → isRead c = false →
  has_flag rec FlagsBadLogical = false → has_flag rec FlagsWriteStatusN = false → logical rec < NumOfShards cfg →
  verifyValidShard c = Ret (c, None).
Proof.
  intros Hv Hc Hr Hb Hm Hl. unfold verifyValidShard, bad_mapping. rewrite Hv, (rec0_cons _ _ _ Hc). cbn [mbind result_bind].
  rewrite Hb, (proj2 (Z.leb_gt _ _)) by lia. cbn [orb andb]. rewrite Hv. change (1 <? zlen [v]) with false. change (zlen [v] =? 0) with false.
  cbn [orb andb]. unfold check_markdown. rewrite (rec0_cons _ _ _ Hc), Hc, Hr. cbn [mbind result_bind]. by rewrite Hm.
Qed.

Lemma verify_two c v1 v2 rec rest : shardValues (shard c) = [v1; v2] → shardRecs (shard c) = Some rec :: rest →
  has_flag rec FlagsBadLogical = false → logical rec < NumOfShards cfg →
  verifyValidShard c = Ret (respond_err ErrNoShardKey c, Some (false, ErrNoShardKey)).
Proof.
  intros Hv Hc Hb Hl. unfold verifyValidShard, bad_mapping, bad_logical. rewrite Hv, (rec0_cons _ _ _ Hc). cbn [mbind result_bind].
  rewrite Hb, (proj2 (Z.leb_gt _ _)) by lia. cbn [orb andb]. rewrite Hv. change (1 <? zlen [v1; v2]) with true. cbn [orb].
  rewrite (rec0_cons _ _ _ Hc). cbn [mbind result_bind]. by rewrite Hb.
Qed.

(** C23: A transaction of a session is not tied to the shard of its worker. In a transaction
    on any worker, a write with two shard key values is refused without a hang-up, but leaves
    the session on the shard of the first value; the next write with that value is then
    accepted for that shard, and goes to the worker of the transaction, whatever the shard of
    that worker is. *)
Theorem rejected_request_moves_shard p1 r1 p2 r2 v1 v2 rec rec2 c :
  EnableWhitelistTest cfg = false → UseShardMap cfg = true →
  inTransaction c = true → isRead c = false → sessionShardID (shard c) = -1 →
  keyed r1 [v1; v2] → keyed r2 [v1] → rec_of v1 = Ret (Some rec) → rec_of v2 = Ret rec2 →
  has_flag rec FlagsBadLogical = false → has_flag rec FlagsWriteStatusN = false → 0 <= logical rec < NumOfShards cfg →
  ∃ c1 c2, PreprocessSharding [p1; r1] c = Ret (c1, Some (false, ErrNoShardKey)) ∧
    PreprocessSharding [p2; r2] c1 = Ret (c2, None) ∧
    shardID (shard c2) = logical rec ∧ inTransaction c2 = true ∧ worker c2 = worker c.
Proof.
  intros Hw Hu Ht Hr Hs K1 K2 R1 R2 Hb Hm Hl.
  rewrite (keyed_request p1 r1 [v1; v2] rec [rec2] c Hw Hu) by (done || by repeat constructor).
  rewrite (verify_two _ v1 v2 rec [rec2]) by (done || lia). cbn [mbind result_bind].
  set (c1 := respond_err _ _). exists c1. eexists. split; [reflexivity|].
  rewrite (keyed_request p2 r2 [v1] rec []) by (done || by repeat constructor).
  rewrite (verify_one _ v1 rec) by (done || lia). cbn [mbind result_bind].
  cbn [inTransaction set_shard set_prev c1 respond_err]. rewrite Ht.
  unfold verifyXShard. cbn [isRead set_shard set_prev c1 respond_err]. rewrite Hr.
  cbn [shard prevShard set_shard set_prev c1 respond_err shardValues shardRecs shardID].
  rewrite bool_decide_true by done. cbn [negb andb]. rewrite (rec0_cons _ rec []) by done. cbn [mbind result_bind].
  rewrite Z.eqb_refl. cbn [negb mbind result_bind]. split; [reflexivity|]. by split_and!.
Qed.

Lemma request_loop_none reqs c :
  Forall (λ r, Cmd r ≠ CmdBindName ∧ Cmd r ≠ CmdShardKey) reqs → request_loop reqs false c = Ret (c, inl false).
Proof.
  intros F. induction F as [|r reqs [H1 H2] F IH]; [done|]. cbn [request_loop].
  rewrite (proj2 (Z.eqb_neq _ _) H1), (proj2 (Z.eqb_neq _ _) H2). exact IH.
Qed.

(** With a whitelist, or without a shard map, a request that has no shard key is
    accepted with the record of shard 0 but is routed to the shard of the previous
    request of the session: the shard id is not reset. *)
Theorem keyless_keeps_previous_shard reqs c :
  EnableWhitelistTest cfg || negb (UseShardMap cfg) = true →
  inTransaction c = false → sessionShardID (shard c) = -1 →
  Forall (λ r, Cmd r ≠ CmdBindName ∧ Cmd r ≠ CmdShardKey) (drop 1 reqs) →
  ∃ c', PreprocessSharding reqs c = Ret (c', None) ∧
    shardRecs (shard c') = [Some (mkRec 0 0 0)] ∧ shardID (shard c') = shardID (shard c).
Proof.
  intros Hm Ht Hs F. unfold PreprocessSharding. rewrite request_loop_none by done. cbn [mbind result_bind].
  set (c0 := begin_request c). unfold default_rec.
  assert (shardValues (shard c0) = [] ∧ sessionShardID (shard c0) = -1 ∧ shardID (shard c0) = shardID (shard c) ∧
          inTransaction c0 = false ∧ isRead c0 = isRead c) as (-> & -> & Hid & Htx & Hrd).
  { subst c0. unfold begin_request. rewrite Ht. by split_and!. }
  rewrite Hm. change ((zlen [] =? 0) && (-1 =? -1) && true) with true. cbv iota.
  exists (set_shard (set_recs [Some (mkRec 0 0 0)] (shard c0)) c0).
  rewrite verifyValidShard_nil by (subst c0; unfold begin_request; by rewrite Ht).
  change (zlen (shardRecs (shard (set_shard (set_recs [Some (mkRec 0 0 0)] (shard c0)) c0))) =? 0) with false.
  rewrite andb_false_r. unfold check_markdown. cbn [shard shardRecs set_shard set_recs isRead].
  change (rec0 _) with (Ret (mkRec 0 0 0)). cbn [mbind result_bind].
  change (has_flag (mkRec 0 0 0) FlagsReadStatusN) with false.
  change (has_flag (mkRec 0 0 0) FlagsWriteStatusN) with false.
  destruct (isRead c0); cbn [mbind result_bind inTransaction set_shard]; by rewrite Htx.
Qed.

End ops.

(** ** Witnesses *)

Definition example_cfg : ShardingPart :=
  mkShardingPart true 2 (str "id") 2 (str "scuttle_id") true false true 0 [] 2 false.
Definition example_map : records :=
  Some (mkRec 0 1 0) :: Some (mkRec 1 (-1) FlagsBadLogical) :: replicate 1022 None.

Lemma example_ok : routing_ok example_cfg (Some example_map) None.
Proof.
  split; [by vm_compute|by vm_compute| |done].
  exists example_map. split; [done|]. split; [by vm_compute|]. intros b Hb.
  assert (b = 0 ∨ b = 1) as [-> | ->] by (change (MaxScuttleBuckets example_cfg) with 2 in Hb; lia).
  - exists (mkRec 0 1 0). split; [done|]. left. vm_compute. split; [split; congruence|done].
  - exists (mkRec 1 (-1) FlagsBadLogical). split; [done|]. right. by vm_compute.
Qed.

Definition packet (cmd : Z) (payload : bytes) : Packet := Netstring.NewNetstringFrom cmd payload.

Lemma getShardRec_low_byte_witness :
  getShardRec example_cfg (Some example_map) (inr 1) = getShardRec example_cfg (Some example_map) (inr 65537).
Proof.
  destruct (getShardRec_low_byte example_cfg (Some example_map) 65537) as [H _]; [reflexivity|].
  symmetry. exact H.
Defined.

Lemma parseShardKey_roundtrip_witness :
  parseShardKey (str "Id" ++ 61 :: encode_values [str "1"; str "a;b\"]) = (str "id", [str "1"; str "a;b\"]).
Proof. apply (parseShardKey_roundtrip (str "Id") [str "1"; str "a;b\"]); [by_decide|congruence|by vm_compute]. Defined.

Definition example_txn : Coordinator :=
  mkCrd (mkShard [] [] (-1) 0 0) (mkShard [] [] (-1) 0 0) true (Some 0) false 0 [].

(** Bucket 0 is on shard 1; the transaction is on a worker of shard 0. *)
Definition example_plain : ShardingPart :=
  mkShardingPart true 2 (str "id") 2 (str "scuttle_id") true false false 0 [] 2 true.

Lemma rejected_request_moves_shard_witness : ∃ c1 c2,
  PreprocessSharding example_plain (Some example_map) None
    [packet CmdPrepare (str "update"); packet CmdShardKey (str "id=0;2")] example_txn = Ret (c1, Some (false, ErrNoShardKey)) ∧
  PreprocessSharding example_plain (Some example_map) None
    [packet CmdPrepare (str "update"); packet CmdShardKey (str "id=0")] c1 = Ret (c2, None) ∧
  shardID (shard c2) = 1 ∧ worker c2 = Some 0.
Proof.
  destruct (rejected_request_moves_shard example_plain (Some example_map) None
    (packet CmdPrepare (str "update")) (packet CmdShardKey (str "id=0;2")) (packet CmdPrepare (str "update")) (packet CmdShardKey (str "id=0"))
    (str "0") (str "2") (mkRec 0 1 0) (Some (mkRec 0 1 0)) example_txn) as (c1 & c2 & H1 & H2 & H3 & _ & H4).
  - reflexivity.
  - reflexivity.
  - reflexivity.
  - reflexivity.
  - reflexivity.
  - split; vm_compute; reflexivity.
  - split; vm_compute; reflexivity.
  - vm_compute. reflexivity.
  - vm_compute. reflexivity.
  - vm_compute. reflexivity.
  - vm_compute. reflexivity.
  - vm_compute. split; [discriminate|reflexivity].
  - exists c1, c2. split; [exact H1|]. split; [exact H2|]. split; [exact H3|exact H4].
Defined.

Lemma keyless_keeps_previous_shard_witness : ∃ c',
  PreprocessSharding example_cfg (Some example_map) None [packet CmdPrepare (str "select")]
    (mkCrd (mkShard [] [] (-1) 1 0) (mkShard [] [] (-1) 0 0) false None true 0 []) = Ret (c', None) ∧
  shardRecs (shard c') = [Some (mkRec 0 0 0)] ∧ shardID (shard c') = 1.
Proof. apply (keyless_keeps_previous_shard example_cfg (Some example_map) None); try reflexivity. constructor. Defined.

End Sharding.
