(* ===== verification/WorkerClient.v ===== *)
(** * Workers as the proxy sees them (lib/workerclient.go, common/internalcodes.go): their
    state, the messages read from a worker process and what is relayed of them. *)

From S2P Require Import Prelude Codes Netstring Config.
From stdpp Require Import base list gmap strings.
From Stdlib Require Import ZArith Lia.
Open Scope Z_scope.

Module WorkerClient.
Import Codes Config.

(** [HeraWorkerStatus] *)
Definition wsUnset : Z := -1.
Definition wsInit : Z := 0.
Definition wsAcpt : Z := 1.
Definition wsWait : Z := 2.
Definition wsBusy : Z := 3.
Definition wsSchd : Z := 4.
Definition wsFnsh : Z := 5.
Definition wsQuce : Z := 6.

Definition CmdControlMsg : Z := 501.
Definition CmdEOR : Z := 502.

Definition EORFree : Z := 0.
Definition EORInTransaction : Z := 1.
Definition EORInCursorNotInTransaction : Z := 2.
Definition EORInCursorInTransaction : Z := 3.
Definition EORMoreIncomingRequests : Z := 4.
Definition EORBusyOther : Z := 5.
Definition EORRestart : Z := 6.

Definition bfChannelSize : nat := 30.

Record workerMsg := mkMsg {
  msg_data : bytes;
  msg_eor : bool;
  msg_free : bool;
  msg_inTransaction : bool;
  msg_abort : bool;
  msg_rqId : Z
}.

(** [outCh] is [None] before the worker is read from. *)
Record WorkerClient := mkWorker {
  ID : Z;
  Status : Z;
  racID : Z;
  outCh : option (list workerMsg);
  ctrlCh : list workerMsg;
  sqlHash : Z;
  sqlStartTimeMs : Z;
  startTime : Z;
  exitTime : Z;
  reqCount : Z;
  maxReqCount : Z;
  rqId : Z;
  isUnderRecovery : bool
}.

Definition set_status (st : Z) (w : WorkerClient) : WorkerClient :=
  mkWorker (ID w) st (racID w) (outCh w) (ctrlCh w) (sqlHash w) (sqlStartTimeMs w) (startTime w)
    (exitTime w) (reqCount w) (maxReqCount w) (rqId w) (isUnderRecovery w).

Definition set_racID (r : Z) (w : WorkerClient) : WorkerClient :=
  mkWorker (ID w) (Status w) r (outCh w) (ctrlCh w) (sqlHash w) (sqlStartTimeMs w) (startTime w)
    (exitTime w) (reqCount w) (maxReqCount w) (rqId w) (isUnderRecovery w).

Definition set_channels (o : option (list workerMsg)) (c : list workerMsg) (w : WorkerClient) : WorkerClient :=
  mkWorker (ID w) (Status w) (racID w) o c (sqlHash w) (sqlStartTimeMs w) (startTime w)
    (exitTime w) (reqCount w) (maxReqCount w) (rqId w) (isUnderRecovery w).

Definition set_sqlStartTimeMs (t : Z) (w : WorkerClient) : WorkerClient :=
  mkWorker (ID w) (Status w) (racID w) (outCh w) (ctrlCh w) (sqlHash w) t (startTime w)
    (exitTime w) (reqCount w) (maxReqCount w) (rqId w) (isUnderRecovery w).

Definition set_exitTime (t : Z) (w : WorkerClient) : WorkerClient :=
  mkWorker (ID w) (Status w) (racID w) (outCh w) (ctrlCh w) (sqlHash w) (sqlStartTimeMs w) (startTime w)
    t (reqCount w) (maxReqCount w) (rqId w) (isUnderRecovery w).

Definition set_maxReqCount (n : Z) (w : WorkerClient) : WorkerClient :=
  mkWorker (ID w) (Status w) (racID w) (outCh w) (ctrlCh w) (sqlHash w) (sqlStartTimeMs w) (startTime w)
    (exitTime w) (reqCount w) n (rqId w) (isUnderRecovery w).

Definition set_rqId (n : Z) (w : WorkerClient) : WorkerClient :=
  mkWorker (ID w) (Status w) (racID w) (outCh w) (ctrlCh w) (sqlHash w) (sqlStartTimeMs w) (startTime w)
    (exitTime w) (reqCount w) (maxReqCount w) n (isUnderRecovery w).

(** A limit less up to a quarter of it: [limit - rand.Intn(limit/4)]. *)
Definition spread (limit r : Z) : Z := limit - r mod (limit / 4).

(** [NewWorker]: [r1] and [r2] are the random numbers, [now] the time in seconds. *)
Definition NewWorker (ops : OpsConfig) (wid now r1 r2 : Z) : WorkerClient :=
  let maxReqs := GetMaxRequestsPerChild ops in
  let lifespan := GetMaxLifespanPerChild ops in
  mkWorker wid wsUnset (-1) None [] 0 0 now
    (if 4 <=? lifespan then now + spread lifespan r2 else 0)
    0 (if 4 <=? maxReqs then u32 (spread maxReqs r1) else 0) 0 false.

(** [DrainResponseChannel]: both channels are read until they are empty. A closed
    channel ends its loop. *)
Definition DrainResponseChannel (w : WorkerClient) : WorkerClient :=
  set_channels (option_map (λ _, []) (outCh w)) [] w.

(** [Write] up to the write itself. *)
Definition Write (nsCount : Z) (w : WorkerClient) : WorkerClient :=
  set_rqId (u16 (rqId w + nsCount)) (set_status wsBusy w).

(** The rac id of the control message: the digits before the first space. *)
Fixpoint rac_loop (payload : bytes) (id : Z) : Z :=
  match payload with
  | [] => id
  | ch :: payload =>
    if ch =? 32 then id
    else
      let n := u8 (ch - 48) in
      if n <=? 9 then rac_loop payload (i64 (id * 10 + n)) else id
  end.

(** What [attachToWorker] does with the control message. *)
Definition control_message (ns : Packet) (w : WorkerClient) : option WorkerClient :=
  if Cmd ns =? CmdControlMsg then
    Some (match Payload ns with [] => w | p => set_racID (rac_loop p 0) w end)
  else None.

(** ** Reading from the worker *)

(** What [doRead] does with one packet: the state of the worker, the payload held
    back, the messages sent to the coordinator, and whether the loop goes on. *)
Record read_state := mkRead {
  rd_status : Z;
  rd_payload : bytes;
  rd_sent : list workerMsg
}.

Definition data_msg (data : bytes) : workerMsg := mkMsg data false false false false 0.

Definition flush (s : read_state) : read_state :=
  match rd_payload s with
  | [] => s
  | p => mkRead (rd_status s) [] (rd_sent s ++ [data_msg p])
  end.

(** An end-of-response packet; a payload of less than three bytes panics. *)
Definition read_eor (ns : Packet) (s : read_state) : result read_state :=
  newPayload ← slice_from (Payload ns) 3;
  let payload := match rd_payload s with [] => newPayload | p => p ++ newPayload end in
  b0 ← index_get (Payload ns) 0;
  b1 ← index_get (Payload ns) 1;
  b2 ← index_get (Payload ns) 2;
  let eor := u8 (b0 - 48) in
  let id := u16 (u16 (Z.shiftl b1 8) + b2) in
  let st := if eor =? EORFree then wsFnsh else wsWait in
  if negb (eor =? EORMoreIncomingRequests) then
    Ret (mkRead st [] (rd_sent s ++
      [mkMsg payload true (eor =? EORFree)
         ((eor =? EORInTransaction) || (eor =? EORInCursorInTransaction)) false id]))
  else Ret (mkRead st payload (rd_sent s)).

Definition read_one (ns : Packet) (s : read_state) : result (read_state * bool) :=
  if IsMySQL ns then Ret (s, true)
  else if Cmd ns =? CmdEOR then s ← read_eor ns s; Ret (s, true)
  else if Cmd ns =? CmdControlMsg then Ret (flush s, false)
  else
    let s := mkRead (if Cmd ns =? RcStillExecuting then rd_status s else wsWait) (rd_payload s) (rd_sent s) in
    let s := flush s in
    Ret (mkRead (rd_status s) [] (rd_sent s ++ [data_msg (Serialized ns)]), true).

(** [doRead] on the packets that arrive before the read error. *)
Fixpoint doRead (pkts : list Packet) (s : read_state) : result read_state :=
  match pkts with
  | [] => Ret (flush s)
  | ns :: pkts =>
    '(s, more) ← read_one ns s;
    if (more : bool) then doRead pkts s else Ret s
  end.

(** ** What is relayed *)

(** The bytes of a packet the client gets. *)
Definition relayed (ns : Packet) : bytes :=
  if IsMySQL ns then [] else if Cmd ns =? CmdEOR then drop 3 (Payload ns) else Serialized ns.

(** The packets up to the first control message. *)
Fixpoint before_control (pkts : list Packet) : list Packet :=
  match pkts with
  | [] => []
  | ns :: pkts => if negb (IsMySQL ns) && (Cmd ns =? CmdControlMsg) then [] else ns :: before_control pkts
  end.

(** An end of response the client is told about. *)
Definition ends_response (ns : Packet) : bool :=
  negb (IsMySQL ns) && (Cmd ns =? CmdEOR) &&
  negb (bool_decide (head (Payload ns) = Some (48 + EORMoreIncomingRequests))).

Definition eor_ok (ns : Packet) : Prop :=
  IsMySQL ns = false → Cmd ns = CmdEOR → (3 <= length (Payload ns))%nat ∧ Forall is_byte (Payload ns).

Definition sent_bytes (s : read_state) : bytes := concat (map msg_data (rd_sent s)).

Lemma flush_bytes s : sent_bytes (flush s) ++ rd_payload (flush s) = sent_bytes s ++ rd_payload s ∧
  filter (λ m, msg_eor m = true) (rd_sent (flush s)) = filter (λ m, msg_eor m = true) (rd_sent s) ∧
  rd_payload (flush s) = [].
Proof.
  unfold flush, sent_bytes. destruct (rd_payload s) as [|b p] eqn:E; cbn; rewrite ?E; [done|].
  rewrite map_app, concat_app, filter_app. cbn. by rewrite !app_nil_r.
Qed.

Definition eors (s : read_state) : nat := length (filter (λ m, msg_eor m = true) (rd_sent s)).

Lemma sent_snoc st p l m : sent_bytes (mkRead st p (l ++ [m])) = concat (map msg_data l) ++ msg_data m.
Proof. unfold sent_bytes. cbn. rewrite map_app, concat_app. cbn. by rewrite app_nil_r. Qed.

Lemma eors_snoc st p l m :
  eors (mkRead st p (l ++ [m])) = (length (filter (λ m, msg_eor m = true) l) + if msg_eor m then 1 else 0)%nat.
Proof.
  unfold eors. cbn. rewrite filter_app, length_app. f_equal. rewrite filter_cons. by destruct (msg_eor m).
Qed.

Lemma read_eor_spec ns s : (3 <= length (Payload ns))%nat → Forall is_byte (Payload ns) →
  ∃ s', read_eor ns s = Ret s' ∧
    sent_bytes s' ++ rd_payload s' = sent_bytes s ++ rd_payload s ++ drop 3 (Payload ns) ∧
    eors s' = (eors s + if bool_decide (head (Payload ns) = Some 52%Z) then 0 else 1)%nat.
Proof.
  intros Hl Hb. unfold read_eor. destruct (Payload ns) as [|b0 [|b1 [|b2 rest]]]; cbn in Hl; try lia.
  apply Forall_cons_1 in Hb as [Hb0 _].
  assert (Hsl : slice_from (b0 :: b1 :: b2 :: rest) 3 = Ret rest).
  { unfold slice_from. rewrite (proj2 (Z.leb_le 3 _)) by (cbn [length]; lia). done. }
  rewrite Hsl. change (index_get (b0 :: b1 :: b2 :: rest) 0) with (Ret b0).
  change (index_get (b0 :: b1 :: b2 :: rest) 1) with (Ret b1).
  change (index_get (b0 :: b1 :: b2 :: rest) 2) with (Ret b2).
  cbn [mbind result_bind head drop].
  assert (E4 : (u8 (b0 - 48) =? EORMoreIncomingRequests) = bool_decide (Some b0 = Some 52)).
  { unfold EORMoreIncomingRequests, is_byte in *. unfold u8. case_bool_decide as E; simplify_eq/=; [done|].
    apply Z.eqb_neq. intros Em. assert (b0 ≠ 52) by congruence. unfold in_u8 in Hb0.
    destruct (Z_le_gt_dec 48 b0); [rewrite Z.mod_small in Em; lia|].
    replace (b0 - 48) with (b0 - 48 + 256 - 1 * 256) in Em by lia. rewrite <- (Z_mod_plus_full _ 1) in Em.
    replace (b0 - 48 + 256 - 1 * 256 + 1 * 256) with (b0 + 208) in Em by lia. rewrite Z.mod_small in Em; lia. }
  rewrite E4. case_bool_decide as E; cbn [negb]; eexists; (split; [done|]).
  - cbn. destruct (rd_payload s); cbn; rewrite ?Nat.add_0_r; unfold eors, sent_bytes; done.
  - rewrite sent_snoc, eors_snoc. cbn. rewrite app_nil_r. split; [by destruct (rd_payload s)|done].
Qed.

Lemma read_one_spec ns s : negb (IsMySQL ns) && (Cmd ns =? CmdControlMsg) = false → eor_ok ns →
  ∃ s', read_one ns s = Ret (s', true) ∧
    sent_bytes s' ++ rd_payload s' = sent_bytes s ++ rd_payload s ++ relayed ns ∧
    eors s' = (eors s + if ends_response ns then 1 else 0)%nat.
Proof.
  intros Hc Hns. unfold read_one, relayed, ends_response.
  destruct (IsMySQL ns) eqn:Em; cbn [negb andb] in *.
  { exists s. by rewrite app_nil_r, Nat.add_0_r. }
  destruct (Cmd ns =? CmdEOR) eqn:Ec; cbn [andb].
  { apply Z.eqb_eq in Ec. destruct (Hns Em Ec) as [Hl Hby].
    destruct (read_eor_spec ns s Hl Hby) as (s1 & -> & E1 & E2). cbn [mbind result_bind].
    exists s1. split_and!; try done. rewrite E2. change (48 + EORMoreIncomingRequests) with 52.
    by case_bool_decide. }
  rewrite Hc. eexists. split; [done|]. set (s0 := mkRead _ (rd_payload s) (rd_sent s)).
  destruct (flush_bytes s0) as (E1 & E2 & E3). rewrite sent_snoc, eors_snoc, E2. cbn. rewrite app_nil_r.
  split; [|done]. rewrite E3, app_nil_r in E1.
  change (concat (map msg_data (rd_sent (flush s0)))) with (sent_bytes (flush s0)).
  rewrite E1. unfold sent_bytes. cbn. by rewrite <- app_assoc.
Qed.

Lemma doRead_spec pkts s : Forall eor_ok (before_control pkts) →
  ∃ s', doRead pkts s = Ret s' ∧
    sent_bytes s' = sent_bytes s ++ rd_payload s ++ concat (map relayed (before_control pkts)) ∧
    eors s' = (eors s + length (filter (λ ns, ends_response ns = true) (before_control pkts)))%nat.
Proof.
  assert (Hflush : ∀ s, sent_bytes (flush s) = sent_bytes s ++ rd_payload s ++ [] ∧ eors (flush s) = (eors s + 0)%nat).
  { intros s0. destruct (flush_bytes s0) as (E1 & E2 & E3). rewrite E3, app_nil_r in E1. unfold eors.
    by rewrite E1, E2, app_nil_r, Nat.add_0_r. }
  revert s. induction pkts as [|ns pkts IH]; intros s F; cbn [before_control doRead] in *.
  { exists (flush s). split; [done|]. apply Hflush. }
  destruct (negb (IsMySQL ns) && (Cmd ns =? CmdControlMsg)) eqn:Ek.
  { apply andb_true_iff in Ek as [Em%negb_true_iff Ec]. unfold read_one. rewrite Em, Ec.
    apply Z.eqb_eq in Ec. rewrite Ec. exists (flush s). split; [done|]. apply Hflush. }
  apply Forall_cons in F as [Hns F]. destruct (read_one_spec ns s Ek Hns) as (s1 & -> & E1 & E2).
  cbn [mbind result_bind]. destruct (IH s1 F) as (s' & -> & Hb & He). exists s'. split; [done|].
  cbn [map concat]. split; [by rewrite Hb, app_assoc, E1, <- !app_assoc|].
  rewrite He, E2, filter_cons. case_decide as Er; [rewrite Er; cbn; lia|].
  apply not_true_is_false in Er. rewrite Er. lia.
Qed.

(** Everything a worker sends before its control message reaches the coordinator, in
    order and once: the payloads of the end-of-response packets and the serialized
    other netstrings, whatever was held back on the way. There is one end-of-response
    message for each such packet that does not announce more requests. Packets of the
    MySQL protocol are dropped. *)
Theorem doRead_relays pkts st : Forall eor_ok (before_control pkts) →
  ∃ s, doRead pkts (mkRead st [] []) = Ret s ∧
    sent_bytes s = concat (map relayed (before_control pkts)) ∧
    eors s = length (filter (λ ns, ends_response ns = true) (before_control pkts)).
Proof.
  intros F. destruct (doRead_spec pkts (mkRead st [] []) F) as (s & E & Hb & He).
  exists s. split; [done|]. split; [exact Hb|exact He].
Qed.

Lemma doRead_relays_witness : ∃ s,
  doRead [mkPacket CmdEOR [] (str "4" ++ [0; 1] ++ str "ab") 0 0 false;
          mkPacket CmdEOR [] (str "0" ++ [0; 2] ++ str "cd") 0 0 false] (mkRead wsBusy [] []) = Ret s ∧
  sent_bytes s = str "abcd" ∧ eors s = 1%nat.
Proof.
  apply (doRead_relays [mkPacket CmdEOR [] (str "4" ++ [0; 1] ++ str "ab") 0 0 false;
          mkPacket CmdEOR [] (str "0" ++ [0; 2] ++ str "cd") 0 0 false] wsBusy).
  repeat constructor; cbn; try lia; intros; bytes_ok.
Defined.

End WorkerClient.
