(* ===== verification/AdaptiveQueue.v ===== *)
(** * The adaptive queue manager (lib/adaptivequemgr.go): the backlog time-outs, the list of
    evicted statements, and the choice of the worker to recover in a saturated pool. *)

From S2P Require Import Prelude Config WorkerClient.
From stdpp Require Import base list gmap strings.
From Stdlib Require Import ZArith Lia.
Open Scope Z_scope.

(** A pointer to a worker, and the workers pointers lead to. *)
Abbreviation wref := nat.
Abbreviation heap := (gmap nat WorkerClient.WorkerClient).

Module AdaptiveQueue.
Import Config WorkerClient.

Record adaptiveQueueManager := mkMgr {
  lastEmptyTimeMs : Z;
  longTimeoutMs : Z;
  shortTimeoutMs : Z;
  evictedSqlhash : gmap Z Z;
  dispatchedWorkers : gmap wref (list Z)
}.

Definition set_lastEmpty (t : Z) (m : adaptiveQueueManager) : adaptiveQueueManager :=
  mkMgr t (longTimeoutMs m) (shortTimeoutMs m) (evictedSqlhash m) (dispatchedWorkers m).
Definition set_evicted (e : gmap Z Z) (m : adaptiveQueueManager) : adaptiveQueueManager :=
  mkMgr (lastEmptyTimeMs m) (longTimeoutMs m) (shortTimeoutMs m) e (dispatchedWorkers m).
Definition set_dispatched (d : gmap wref (list Z)) (m : adaptiveQueueManager) : adaptiveQueueManager :=
  mkMgr (lastEmptyTimeMs m) (longTimeoutMs m) (shortTimeoutMs m) (evictedSqlhash m) d.

Section mgr.
Context (app : Config) (ops : OpsConfig).

Definition init (now : Z) : adaptiveQueueManager :=
  mkMgr now (BacklogTimeoutMsec app) (ShortBacklogTimeoutMsec app) ∅ ∅.

(** [shouldRecover]: [bgcnt] is the backlog of the pool, [swcnt] the number of stranded
    workers the state log reports for it. *)
Definition shouldRecover (wtype : HeraWorkerType) (shardID bgcnt swcnt : Z) : bool :=
  if GetSatRecoverThrottleRate ops =? 0 then false
  else if bgcnt =? 0 then false
  else if GetSatRecoverThrottleCnt app ops shardID <? swcnt then false
  else if bgcnt <? i64 (GetBacklogLimit app ops wtype shardID + swcnt) then false
  else true.

(** How long a statement has been running, at 32 bits. *)
Definition runtime (nowms stime : Z) : Z :=
  if nowms <? stime then u32 (2 ^ 32 - 1 - (stime - nowms) + 1) else nowms - stime.

(** The loop over [dispatchedWorkers], in the order the map is iterated. *)
Fixpoint oldest_loop (h : heap) (nowms threshold : Z) (order : list wref) (sqltime : Z) (out : option wref)
    : Z * option wref :=
  match order with
  | [] => (sqltime, out)
  | w :: order =>
    let stime := match h !! w with Some wk => sqlStartTimeMs wk | None => 0 end in
    if negb (stime =? 0) && (threshold <? runtime nowms stime) && (sqltime <? runtime nowms stime)
    then oldest_loop h nowms threshold order (runtime nowms stime) (Some w)
    else oldest_loop h nowms threshold order sqltime out
  end.

Definition getWorkerToRecover (h : heap) (nowms : Z) (order : list wref) : heap * option wref :=
  let '(_, out) := oldest_loop h nowms (GetSatRecoverThresholdMs ops) order 0 None in
  (match out with Some w => alter (set_sqlStartTimeMs 0) w h | None => h end, out).

(** [shouldSoftEvict]: [r] is [rand.Intn(100)]. *)
Definition shouldSoftEvict (sqlhash r now : Z) (m : adaptiveQueueManager) : adaptiveQueueManager * bool :=
  if bool_decide (evictedSqlhash m = ∅) then (m, false)
  else
    let probability := SoftEvictionProbability app in
    if probability =? 0 then (m, false)
    else if (probability <? 100) && (probability <=? r) then (m, false)
    else
      let lastEvictTime := default 0 (evictedSqlhash m !! sqlhash) in
      if lastEvictTime =? 0 then (m, false)
      else if lastEvictTime <? now - SoftEvictionEffectiveTimeMs app then
        (set_evicted (delete sqlhash (evictedSqlhash m)) m, false)
      else (m, true).

Definition addEvictedSqlhash (sqlhash now : Z) (m : adaptiveQueueManager) : adaptiveQueueManager :=
  set_evicted (<[sqlhash := now]> (evictedSqlhash m)) m.

Definition clearAllEvictedSqlhash (m : adaptiveQueueManager) : adaptiveQueueManager := set_evicted ∅ m.

Definition registerDispatchedWorker (ticket : bytes) (w : wref) (m : adaptiveQueueManager) : adaptiveQueueManager :=
  set_dispatched (<[w := ticket]> (dispatchedWorkers m)) m.

Definition unregisterDispatchedWorker (w : wref) (m : adaptiveQueueManager) : adaptiveQueueManager :=
  set_dispatched (delete w (dispatchedWorkers m)) m.

Definition alreadyDispatched (ticket : bytes) (w : wref) (m : adaptiveQueueManager) : bool :=
  negb (bool_decide (default [] (dispatchedWorkers m !! w) = [])) ||
  existsb (λ '(_, t), bool_decide (ticket = t)) (map_to_list (dispatchedWorkers m)).

Definition getBacklogTimeout (backlogCnt now : Z) (m : adaptiveQueueManager) : Z * bool :=
  if backlogCnt =? 0 then (longTimeoutMs m, true)
  else if lastEmptyTimeMs m <? now - longTimeoutMs m then (shortTimeoutMs m, false)
  else (longTimeoutMs m, true).

(** One iteration of [runSaturationRecovery] after its sleep: the abort message goes to
    the control channel of the worker unless its five slots are taken. *)
Definition saturation_recovery (wtype : HeraWorkerType) (shardID bgcnt swcnt nowms now : Z)
    (order : list wref) (h : heap) (m : adaptiveQueueManager) : heap * adaptiveQueueManager * option wref :=
  if shouldRecover wtype shardID bgcnt swcnt then
    match getWorkerToRecover h nowms order with
    | (h, Some w) =>
      let abort := mkMsg [] false false false true 0 in
      let h := alter (λ wk, if (length (ctrlCh wk) <? 5)%nat
                            then set_channels (outCh wk) (ctrlCh wk ++ [abort]) wk else wk) w h in
      let hash := match h !! w with Some wk => sqlHash wk | None => 0 end in
      (h, addEvictedSqlhash hash now m, Some w)
    | (h, None) => (h, m, None)
    end
  else (h, m, None).

(** ** The worker to recover *)

Definition run_of (h : heap) (nowms : Z) (w : wref) : Z :=
  match h !! w with
  | Some wk => if sqlStartTimeMs wk =? 0 then 0 else runtime nowms (sqlStartTimeMs wk)
  | None => 0
  end.

Lemma oldest_loop_spec h nowms thr order sqltime out :
  0 <= thr → 0 <= sqltime → (match out with Some w => run_of h nowms w = sqltime ∧ thr < sqltime | None => sqltime = 0 end) →
  let '(t, o) := oldest_loop h nowms thr order sqltime out in
  sqltime <= t ∧ (∀ w, w ∈ order → thr < run_of h nowms w → run_of h nowms w <= t) ∧
  match o with
  | Some w => run_of h nowms w = t ∧ thr < t ∧ (Some w = out ∨ w ∈ order)
  | None => t = 0 ∧ out = None
  end.
Proof.
  intros Hthr. revert sqltime out. induction order as [|w order IH]; intros sqltime out H0 Hout; cbn [oldest_loop].
  { split_and!; [lia|by intros ? ?%not_elem_of_nil|]. destruct out; naive_solver. }
  assert (Hst : ∀ P : Prop, (thr < run_of h nowms w → sqltime < run_of h nowms w → P) →
     (run_of h nowms w <= thr ∨ run_of h nowms w <= sqltime → P) → P) by (intros P HP1 HP2;
     destruct (Z_lt_le_dec thr (run_of h nowms w)); [destruct (Z_lt_le_dec sqltime (run_of h nowms w))|]; auto).
  set (stime := match h !! w with Some wk => sqlStartTimeMs wk | None => 0 end).
  assert (Hrun : run_of h nowms w = if stime =? 0 then 0 else runtime nowms stime).
  { unfold run_of, stime. by destruct (h !! w). }
  destruct (negb (stime =? 0) && _ && _) eqn:E.
  - apply andb_true_iff in E as [[E1%negb_true_iff E2%Z.ltb_lt]%andb_true_iff E3%Z.ltb_lt]. rewrite E1 in Hrun.
    specialize (IH (runtime nowms stime) (Some w)). destruct (oldest_loop _ _ _ order _ _) as [t o].
    destruct IH as (Hle & Hall & Ho); [lia|split; [done|lia]|]. split_and!; [lia| |].
    + intros w' [->|Hin]%elem_of_cons Hthr'; [lia|by apply Hall].
    + destruct o as [w'|]; [|naive_solver]. destruct Ho as (? & ? & [[= ->]|?]); split_and!; try done; right; by constructor.
  - specialize (IH sqltime out). destruct (oldest_loop _ _ _ order _ _) as [t o].
    destruct IH as (Hle & Hall & Ho); [lia|done|]. split_and!; [lia| |].
    + intros w' [->|Hin]%elem_of_cons Hthr'; [|by apply Hall].
      rewrite Hrun in *. destruct (stime =? 0) eqn:E1; [lia|]. cbn in E. lia.
    + destruct o as [w'|]; [|naive_solver]. destruct Ho as (? & ? & [?|?]); split_and!; try done; [by left|right; by constructor].
Qed.

(** Saturation recovery picks a dispatched worker whose statement has run longest, among
    those over the threshold, whatever the order the map is iterated in, and nothing
    exactly when there is none; the worker picked is not picked again. *)
Theorem getWorkerToRecover_longest h nowms order d :
  0 <= GetSatRecoverThresholdMs ops → order ≡ₚ elements (dom (d : gmap wref (list Z))) →
  let thr := GetSatRecoverThresholdMs ops in
  match getWorkerToRecover h nowms order with
  | (h', Some w) =>
    is_Some (d !! w) ∧ thr < run_of h nowms w ∧ run_of h' nowms w = 0 ∧
    (∀ w', is_Some (d !! w') → run_of h nowms w' <= run_of h nowms w) ∧
    (∀ w', w' ≠ w → h' !! w' = h !! w')
  | (h', None) => h' = h ∧ ∀ w', is_Some (d !! w') → run_of h nowms w' <= thr
  end.
Proof.
  intros Hthr Hperm thr. unfold getWorkerToRecover. fold thr.
  pose proof (oldest_loop_spec h nowms thr order 0 None Hthr) as H.
  destruct (oldest_loop _ _ _ order 0 None) as [t o]. destruct H as (Hle & Hall & Ho); [lia|done|].
  assert (Hin : ∀ w', is_Some (d !! w') → w' ∈ order).
  { intros w' Hw. rewrite Hperm. by apply elem_of_elements, elem_of_dom. }
  destruct o as [w|].
  - destruct Ho as (Hr & Ht & [?|Hw]); [done|]. split_and!.
    + rewrite Hperm in Hw. by apply elem_of_elements, elem_of_dom in Hw.
    + lia.
    + unfold run_of. rewrite lookup_alter_eq. by destruct (h !! w).
    + intros w' Hw'. destruct (Z_lt_le_dec thr (run_of h nowms w')) as [Hl|]; [|lia].
      specialize (Hall w' (Hin w' Hw') Hl). lia.
    + intros w' Hne. by rewrite lookup_alter_ne.
  - destruct Ho as [-> _]. split; [done|]. intros w' Hw'.
    destruct (Z_lt_le_dec thr (run_of h nowms w')) as [Hl|]; [|lia]. specialize (Hall w' (Hin w' Hw') Hl). lia.
Qed.

End mgr.

Definition running (stime : Z) : WorkerClient := mkWorker 0 wsBusy 0 None [] 7 stime 0 0 0 0 0 false.

Definition two_running : heap := {[ 1%nat := running 900; 2%nat := running 100 ]}.
Definition two_dispatched : gmap wref (list Z) := {[ 1%nat := str "a"; 2%nat := str "b" ]}.

Lemma getWorkerToRecover_longest_witness : ∃ h',
  getWorkerToRecover (mkOpsConfig 0 0 0 0 0 0 200 0) two_running 1000 [2; 1]%nat = (h', Some 2%nat) ∧
  200 < run_of two_running 1000 2 ∧
  ∀ w', is_Some (two_dispatched !! w') → run_of two_running 1000 w' <= run_of two_running 1000 2.
Proof.
  destruct (getWorkerToRecover (mkOpsConfig 0 0 0 0 0 0 200 0) two_running 1000 [2; 1]%nat) as [h' o] eqn:E.
  assert (Eo : o = Some 2%nat).
  { change o with (snd (h', o)). rewrite <- E. vm_compute. reflexivity. }
  pose proof (getWorkerToRecover_longest (mkOpsConfig 0 0 0 0 0 0 200 0) two_running 1000 [2; 1]%nat two_dispatched) as H.
  rewrite E, Eo in H. rewrite Eo. exists h'. split; [reflexivity|].
  destruct H as (_ & H1 & _ & H2 & _).
  - vm_compute. congruence.
  - assert (Ed : elements (dom two_dispatched) = [1; 2]%nat ∨ elements (dom two_dispatched) = [2; 1]%nat)
      by (vm_compute; first [left; reflexivity | right; reflexivity]).
    destruct Ed as [-> | ->]; [apply Permutation_swap|reflexivity].
  - split; [exact H1|exact H2].
Defined.

End AdaptiveQueue.
