(* ===== verification/WorkerPool.v ===== *)
(** * The worker pool (lib/workerpool.go): the queue of free workers, their dispatch to
    clients against tickets, the backlog of clients that wait for one, and the resizing,
    restarting and recycling of workers.

    Each operation is a critical section of the code under [poolCond.L]; a client call
    that waits is split at [cond.Wait]. *)

From S2P Require Import Prelude Codes RingQueue Netstring Config WorkerClient AdaptiveQueue.
From stdpp Require Import base list gmap strings.
From Stdlib Require Import ZArith Lia.
Open Scope Z_scope.

Module WorkerPool.
Import Codes Config WorkerClient AdaptiveQueue.

(** ** State *)

Inductive ConnState : Set := Assign | Idle | Backlog | Stranded | Close.

#[export] Instance ConnState_eq_dec : EqDecision ConnState.
Proof. solve_decision. Defined.

(** The events published to the state log. *)
Inductive StateEvent : Set :=
  | WorkerStateEvt (workerID newWState : Z)
  | ConnStateEvt (oldCState newCState : ConnState)
  | WorkerResizeEvt (newWSize : Z).

(** A call of [GetWorker] in the backlog: its statement, its time-out argument, and
    whether it waits with the long time-out. *)
Record waiter := mkWaiter { w_sqlhash : Z; w_timeout : option Z; w_longTo : bool }.

(** What an operation takes from outside: the time in milliseconds and seconds, the
    time since the start of the proxy, and random numbers. *)
Record env := mkEnv { now_ms : Z; now_s : Z; mux_ms : Z; rnd : nat → Z }.

(** [objs] are the workers in memory; [starting] and [attached] those whose
    [AttachToWorker] goroutine waits for the control message or reads responses;
    [cond] the goroutines asleep in [cond.Wait] in their order, [woken] those that were
    signalled; [terminating] the workers [Terminate] was called on. *)
Record WorkerPool {Q : Type} := mkPool {
  activeQ : Q;
  objs : heap;
  next : wref;
  starting : gset wref;
  attached : gset wref;
  currentSize : Z;
  desiredSize : Z;
  numHealthyWorkers : Z;
  backlogCnt : Z;
  checkoutTickets : gmap wref (list Z);
  aqmanager : adaptiveQueueManager;
  workers : list (option wref);
  waiting : gmap nat waiter;
  cond : list nat;
  woken : list nat;
  terminating : list wref;
  events : list StateEvent
}.
Arguments WorkerPool : clear implicits.

Definition set_activeQ {Q} (x : Q) (p : WorkerPool Q) : WorkerPool Q :=
  mkPool Q x (objs p) (next p) (starting p) (attached p) (currentSize p) (desiredSize p) (numHealthyWorkers p) (backlogCnt p) (checkoutTickets p) (aqmanager p) (workers p) (waiting p) (cond p) (woken p) (terminating p) (events p).
Definition set_objs {Q} (x : heap) (p : WorkerPool Q) : WorkerPool Q :=
  mkPool Q (activeQ p) x (next p) (starting p) (attached p) (currentSize p) (desiredSize p) (numHealthyWorkers p) (backlogCnt p) (checkoutTickets p) (aqmanager p) (workers p) (waiting p) (cond p) (woken p) (terminating p) (events p).
Definition set_starting {Q} (x : gset wref) (p : WorkerPool Q) : WorkerPool Q :=
  mkPool Q (activeQ p) (objs p) (next p) x (attached p) (currentSize p) (desiredSize p) (numHealthyWorkers p) (backlogCnt p) (checkoutTickets p) (aqmanager p) (workers p) (waiting p) (cond p) (woken p) (terminating p) (events p).
Definition set_attached {Q} (x : gset wref) (p : WorkerPool Q) : WorkerPool Q :=
  mkPool Q (activeQ p) (objs p) (next p) (starting p) x (currentSize p) (desiredSize p) (numHealthyWorkers p) (backlogCnt p) (checkoutTickets p) (aqmanager p) (workers p) (waiting p) (cond p) (woken p) (terminating p) (events p).
Definition set_currentSize {Q} (x : Z) (p : WorkerPool Q) : WorkerPool Q :=
  mkPool Q (activeQ p) (objs p) (next p) (starting p) (attached p) x (desiredSize p) (numHealthyWorkers p) (backlogCnt p) (checkoutTickets p) (aqmanager p) (workers p) (waiting p) (cond p) (woken p) (terminating p) (events p).
Definition set_desiredSize {Q} (x : Z) (p : WorkerPool Q) : WorkerPool Q :=
  mkPool Q (activeQ p) (objs p) (next p) (starting p) (attached p) (currentSize p) x (numHealthyWorkers p) (backlogCnt p) (checkoutTickets p) (aqmanager p) (workers p) (waiting p) (cond p) (woken p) (terminating p) (events p).
Definition set_numHealthyWorkers {Q} (x : Z) (p : WorkerPool Q) : WorkerPool Q :=
  mkPool Q (activeQ p) (objs p) (next p) (starting p) (attached p) (currentSize p) (desiredSize p) x (backlogCnt p) (checkoutTickets p) (aqmanager p) (workers p) (waiting p) (cond p) (woken p) (terminating p) (events p).
Definition set_backlogCnt {Q} (x : Z) (p : WorkerPool Q) : WorkerPool Q :=
  mkPool Q (activeQ p) (objs p) (next p) (starting p) (attached p) (currentSize p) (desiredSize p) (numHealthyWorkers p) x (checkoutTickets p) (aqmanager p) (workers p) (waiting p) (cond p) (woken p) (terminating p) (events p).
Definition set_checkoutTickets {Q} (x : gmap wref (list Z)) (p : WorkerPool Q) : WorkerPool Q :=
  mkPool Q (activeQ p) (objs p) (next p) (starting p) (attached p) (currentSize p) (desiredSize p) (numHealthyWorkers p) (backlogCnt p) x (aqmanager p) (workers p) (waiting p) (cond p) (woken p) (terminating p) (events p).
Definition set_aqmanager {Q} (x : adaptiveQueueManager) (p : WorkerPool Q) : WorkerPool Q :=
  mkPool Q (activeQ p) (objs p) (next p) (starting p) (attached p) (currentSize p) (desiredSize p) (numHealthyWorkers p) (backlogCnt p) (checkoutTickets p) x (workers p) (waiting p) (cond p) (woken p) (terminating p) (events p).
Definition set_workers {Q} (x : list (option wref)) (p : WorkerPool Q) : WorkerPool Q :=
  mkPool Q (activeQ p) (objs p) (next p) (starting p) (attached p) (currentSize p) (desiredSize p) (numHealthyWorkers p) (backlogCnt p) (checkoutTickets p) (aqmanager p) x (waiting p) (cond p) (woken p) (terminating p) (events p).
Definition set_waiting {Q} (x : gmap nat waiter) (p : WorkerPool Q) : WorkerPool Q :=
  mkPool Q (activeQ p) (objs p) (next p) (starting p) (attached p) (currentSize p) (desiredSize p) (numHealthyWorkers p) (backlogCnt p) (checkoutTickets p) (aqmanager p) (workers p) x (cond p) (woken p) (terminating p) (events p).
Definition set_cond {Q} (x : list nat) (p : WorkerPool Q) : WorkerPool Q :=
  mkPool Q (activeQ p) (objs p) (next p) (starting p) (attached p) (currentSize p) (desiredSize p) (numHealthyWorkers p) (backlogCnt p) (checkoutTickets p) (aqmanager p) (workers p) (waiting p) x (woken p) (terminating p) (events p).
Definition set_woken {Q} (x : list nat) (p : WorkerPool Q) : WorkerPool Q :=
  mkPool Q (activeQ p) (objs p) (next p) (starting p) (attached p) (currentSize p) (desiredSize p) (numHealthyWorkers p) (backlogCnt p) (checkoutTickets p) (aqmanager p) (workers p) (waiting p) (cond p) x (terminating p) (events p).
Definition set_terminating {Q} (x : list wref) (p : WorkerPool Q) : WorkerPool Q :=
  mkPool Q (activeQ p) (objs p) (next p) (starting p) (attached p) (currentSize p) (desiredSize p) (numHealthyWorkers p) (backlogCnt p) (checkoutTickets p) (aqmanager p) (workers p) (waiting p) (cond p) (woken p) x (events p).
Definition set_events {Q} (x : list StateEvent) (p : WorkerPool Q) : WorkerPool Q :=
  mkPool Q (activeQ p) (objs p) (next p) (starting p) (attached p) (currentSize p) (desiredSize p) (numHealthyWorkers p) (backlogCnt p) (checkoutTickets p) (aqmanager p) (workers p) (waiting p) (cond p) (woken p) (terminating p) x.

(** A new worker object and its [AttachToWorker] goroutine. *)
Definition alloc {Q} (wk : WorkerClient) (p : WorkerPool Q) : WorkerPool Q :=
  mkPool Q (activeQ p) (<[next p := wk]> (objs p)) (S (next p)) ({[next p]} ∪ starting p) (attached p)
    (currentSize p) (desiredSize p) (numHealthyWorkers p) (backlogCnt p) (checkoutTickets p) (aqmanager p)
    (workers p) (waiting p) (cond p) (woken p) (terminating p) (events p).

Definition publish {Q} (e : StateEvent) (p : WorkerPool Q) : WorkerPool Q := set_events (events p ++ [e]) p.

Definition update {Q} (f : WorkerClient → WorkerClient) (w : wref) (p : WorkerPool Q) : WorkerPool Q :=
  set_objs (alter f w (objs p)) p.

Definition deref {Q} (w : wref) (p : WorkerPool Q) : result WorkerClient :=
  match objs p !! w with Some wk => Ret wk | None => Panic end.

(** [worker.setState] *)
Definition setState {Q} (st : Z) (w : wref) (p : WorkerPool Q) : WorkerPool Q :=
  match objs p !! w with
  | Some wk =>
    if Status wk =? st then p
    else publish (WorkerStateEvt (ID wk) st) (update (set_status st) w p)
  | None => p
  end.

(** [go w.Terminate()] *)
Definition terminate {Q} (w : wref) (p : WorkerPool Q) : WorkerPool Q := set_terminating (terminating p ++ [w]) p.

(** [poolCond.Signal()] wakes the goroutine that has waited longest. *)
Definition Signal {Q} (p : WorkerPool Q) : WorkerPool Q :=
  match cond p with
  | [] => p
  | id :: ids => set_cond ids (set_woken (woken p ++ [id]) p)
  end.

(** What a call gives back to its caller. *)
Inductive outcome : Type :=
  | Nothing
  | Got (w : wref) (ticket : bytes)
  | Waits
  | Failed (e : go_error).

Section pool.
Context {Q : Type} `{!Queue wref Q}.
Context (app : Config) (ops : OpsConfig) (wtype : HeraWorkerType) (shardID : Z).

(** ** Starting workers *)

(** [spawnWorker]: [started] is whether [StartWorker] succeeds. *)
Definition spawnWorker (e : env) (wid : Z) (started : bool) (p : WorkerPool Q) : WorkerPool Q * bool :=
  let w := next p in
  let wk := NewWorker ops wid (now_s e) (rnd e (2 * w)) (rnd e (2 * w + 1)) in
  if started then (publish (WorkerStateEvt wid wsInit) (alloc (set_status wsInit wk) p), true)
  else (p, false).

(** The workers [Resize] adds. *)
Fixpoint spawn_loop (e : env) (n : nat) (i : Z) (started : list bool) (p : WorkerPool Q) : WorkerPool Q * bool :=
  match n with
  | O => (p, true)
  | S n =>
    match spawnWorker e i (default false (head started)) p with
    | (p, true) => spawn_loop e n (i + 1) (tail started) p
    | (p, false) => (p, false)
    end
  end.

Definition empty_pool (e : env) (size : Z) : WorkerPool Q :=
  mkPool Q q_new ∅ 0 ∅ ∅ 0 size 0 0 ∅ (AdaptiveQueue.init app (now_ms e))
    (replicate (Z.to_nat size) None) ∅ [] [] [] [].

Fixpoint init_loop (e : env) (n : nat) (i : Z) (started : list bool) (p : WorkerPool Q) : WorkerPool Q * bool :=
  match n with
  | O => (p, true)
  | S n =>
    match spawnWorker e i (default false (head started)) p with
    | (p, true) => init_loop e n (i + 1) (tail started) (set_currentSize (currentSize p + 1) p)
    | (p, false) => (p, false)
    end
  end.

(** [Init] gives the pool and whether all workers started; when one did not, its error
    is returned and the maps and the manager of the pool are not made. *)
Definition Init (e : env) (size : Z) (started : list bool) : result (WorkerPool Q * bool) :=
  if size <? 0 then Panic else Ret (init_loop e (Z.to_nat size) 0 started (empty_pool e size)).

Definition IncHealthyWorkers (p : WorkerPool Q) : WorkerPool Q :=
  set_numHealthyWorkers (i32 (numHealthyWorkers p + 1)) p.
Definition DecHealthyWorkers (p : WorkerPool Q) : WorkerPool Q :=
  set_numHealthyWorkers (i32 (numHealthyWorkers p - 1)) p.

(** [Healthy]: at least 20% of the workers are connected. *)
Definition Healthy (p : WorkerPool Q) : bool :=
  i32 (i32 (currentSize p) * 20) <=? i32 (numHealthyWorkers p * 100).

Definition WorkerReady (w : wref) (p : WorkerPool Q) : result (WorkerPool Q) :=
  '(q, _) ← q_push w (activeQ p);
  wk ← deref w p;
  ws ← index_set (workers p) (ID wk) (Some w);
  Ret (Signal (set_workers ws (set_activeQ q p))).

(** The [AttachToWorker] goroutine of [w] when its first packet arrives, up to the start of
    its reader, as one step of the pool; [WorkerLink] has the whole attachment. *)
Definition attach (w : wref) (ns : Packet) (p : WorkerPool Q) : result (WorkerPool Q) :=
  wk ← deref w p;
  let p := set_starting (starting p ∖ {[w]}) p in
  match control_message ns wk with
  | None => Ret (terminate w p)
  | Some wk' =>
    let p := update (λ _, wk') w p in
    p ← WorkerReady w (setState wsAcpt w p);
    let p := update (λ wk, set_channels (Some []) (ctrlCh wk) wk) w p in
    Ret (set_attached ({[w]} ∪ attached p) (IncHealthyWorkers p))
  end.

(** [doRead] of [w] sends a message; it blocks when the channel is full. *)
Definition deliver (w : wref) (m : workerMsg) (p : WorkerPool Q) : WorkerPool Q :=
  update (λ wk, match outCh wk with
                | Some ms => if (length ms <? bfChannelSize)%nat then set_channels (Some (ms ++ [m])) (ctrlCh wk) wk else wk
                | None => wk
                end) w p.

(** The end of [doRead] of [w]. *)
Definition detach (w : wref) (p : WorkerPool Q) : WorkerPool Q :=
  terminate w (set_attached (attached p ∖ {[w]}) (DecHealthyWorkers p)).

(** ** Dispatch *)

(** [getActiveWorker]: the first worker past its initialisation; the others go to the
    end of the queue. *)
Fixpoint active_loop (h : heap) (cnt : nat) (q : Q) : result (Q * option wref) :=
  match cnt with
  | O => Ret (q, None)
  | S cnt =>
    '(q, x) ← q_poll q;
    match x with
    | None => Panic
    | Some w =>
      match h !! w with
      | None => Panic
      | Some wk =>
        if wsInit <? Status wk then Ret (q, Some w)
        else '(q, _) ← q_push w q; active_loop h cnt q
      end
    end
  end.

Definition getActiveWorker (p : WorkerPool Q) : result (WorkerPool Q * option wref) :=
  '(q, w) ← active_loop (objs p) (q_len (activeQ p)) (activeQ p);
  Ret (set_activeQ q p, w).

(** The end of [GetWorker]: [t] is the random ticket number. *)
Definition dispatch (t : Z) (w : wref) (p : WorkerPool Q) : WorkerPool Q * outcome :=
  let ticket := itoa (u64 t) in
  if alreadyDispatched ticket w (aqmanager p) then (p, Failed (errors_New (str "double_dispatch")))
  else
    let p := set_checkoutTickets (<[w := ticket]> (checkoutTickets p)) p in
    let p := set_aqmanager (registerDispatchedWorker ticket w (aqmanager p)) p in
    let p := publish (ConnStateEvt Idle Assign) p in
    (update (λ wk, match outCh wk with Some (_ :: _) => DrainResponseChannel wk | _ => wk end) w p, Got w ticket).

(** The body of the loop of [GetWorker] up to the wait: no worker is free. *)
Definition enter_backlog (e : env) (id : nat) (sqlhash : Z) (timeoutMs : option Z) (p : WorkerPool Q)
    : WorkerPool Q * outcome :=
  if numHealthyWorkers p =? 0 then (p, Failed ErrRejectDbDown)
  else
    let '(timeout, longTo) := getBacklogTimeout (backlogCnt p) (now_ms e) (aqmanager p) in
    let timeout := default timeout timeoutMs in
    if timeout =? 0 then (p, Failed (errors_New (str "no worker available")))
    else
      let '(m, evict) := shouldSoftEvict app sqlhash (rnd e 0) (now_ms e) (aqmanager p) in
      let p := set_aqmanager m p in
      if (evict : bool) then (p, Failed ErrSaturationSoftSQLEviction)
      else
        let p := if backlogCnt p =? 0 then set_aqmanager (set_lastEmpty (now_ms e) (aqmanager p)) p else p in
        let p := set_backlogCnt (i32 (backlogCnt p + 1)) p in
        let p := publish (ConnStateEvt Idle Backlog) p in
        (set_cond (cond p ++ [id]) (set_waiting (<[id := mkWaiter sqlhash timeoutMs longTo]> (waiting p)) p), Waits).

(** A call of [GetWorker] until it returns or waits. *)
Definition GetWorker (e : env) (id : nat) (t sqlhash : Z) (timeoutMs : option Z) (p : WorkerPool Q)
    : result (WorkerPool Q * outcome) :=
  '(p, w) ← getActiveWorker p;
  match w with
  | Some w => Ret (dispatch t w p)
  | None => Ret (enter_backlog e id sqlhash timeoutMs p)
  end.

Definition resetIfLastBacklogEntry (e : env) (p : WorkerPool Q) : WorkerPool Q :=
  if backlogCnt p =? 1 then
    set_aqmanager (clearAllEvictedSqlhash (set_lastEmpty (now_ms e) (aqmanager p))) p
  else p.

Definition decBacklogCnt (p : WorkerPool Q) : WorkerPool Q :=
  if 0 <? backlogCnt p then set_backlogCnt (backlogCnt p - 1) p else set_backlogCnt 0 p.

(** The time-out of a waiting call: its goroutine stays in [cond]. *)
Definition backlog_timeout (e : env) (id : nat) (wt : waiter) (p : WorkerPool Q) : WorkerPool Q * outcome :=
  let p := decBacklogCnt (resetIfLastBacklogEntry e p) in
  let p := publish (ConnStateEvt Backlog Idle) (set_waiting (delete id (waiting p)) p) in
  (p, Failed (if w_longTo wt then ErrBklgTimeout else ErrBklgEviction)).

(** A waiting call that was woken: it takes a free worker or goes round the loop. *)
Definition backlog_wakeup (e : env) (id : nat) (t : Z) (wt : waiter) (p : WorkerPool Q)
    : result (WorkerPool Q * outcome) :=
  '(p, w) ← getActiveWorker p;
  let p := match w with Some _ => resetIfLastBacklogEntry e p | None => p end in
  let p := decBacklogCnt p in
  let p := publish (ConnStateEvt Backlog Idle) (set_waiting (delete id (waiting p)) p) in
  match w with
  | Some w => Ret (dispatch t w p)
  | None => Ret (enter_backlog e id (w_sqlhash wt) (w_timeout wt) p)
  end.

(** ** Return *)

(** The request limit follows the configuration when it moved by more than a quarter. *)
Definition adjust_max (r : Z) (wk : WorkerClient) : WorkerClient :=
  let maxReqs := GetMaxRequestsPerChild ops in
  let cur := maxReqCount wk in
  if (u32 (cur + cur / 4) <? maxReqs) || (maxReqs <? u32 (cur - cur / 4)) then
    if 4 <=? maxReqs then set_maxReqCount (u32 (spread maxReqs r)) wk else wk
  else wk.

Definition push_free (w : wref) (p : WorkerPool Q) : result (WorkerPool Q) :=
  '(q, _) ← (if LifoScheduler app then q_push_front w (activeQ p) else q_push w (activeQ p));
  Ret (Signal (set_activeQ q p)).

(** After the ticket is accepted: the worker is terminated, or free again. *)
Definition release (e : env) (w : wref) (p : WorkerPool Q) : result (WorkerPool Q) :=
  let p := update (λ wk, match outCh wk with Some (_ :: _) => DrainResponseChannel wk | _ => wk end) w p in
  let p := setState wsAcpt w p in
  wk ← deref w p;
  if (desiredSize p <? currentSize p) && (desiredSize p <=? ID wk) then Ret (terminate w p)
  else if negb (exitTime wk =? 0) && (exitTime wk <=? now_s e) then
    Ret (terminate w (update (set_exitTime 0) w p))
  else
    let p := update (adjust_max (rnd e 1)) w p in
    let wk := adjust_max (rnd e 1) wk in
    if negb (maxReqCount wk =? 0) && (maxReqCount wk <=? reqCount wk) then Ret (terminate w p)
    else push_free w p.

Definition ReturnWorker (e : env) (worker : option wref) (ticket : bytes) (p : WorkerPool Q)
    : result (WorkerPool Q * outcome) :=
  match worker with
  | None => Ret (p, Nothing)
  | Some w =>
    wk ← deref w p;
    if Status wk =? wsQuce then Ret (p, Nothing)
    else if (length ticket =? 0)%nat || negb (bool_decide (default [] (checkoutTickets p !! w) = ticket)) then
      Ret (p, Failed (errors_New (str "returning a worker using wrong ticket")))
    else
      let p := set_checkoutTickets (delete w (checkoutTickets p)) p in
      let p := set_aqmanager (unregisterDispatchedWorker w (aqmanager p)) p in
      p ← release e w p;
      Ret (p, Nothing)
  end.

(** ** The exit of a worker process *)

Definition RestartWorker (e : env) (w : wref) (started : bool) (p : WorkerPool Q) : result (WorkerPool Q) :=
  wk ← deref w p;
  let p := set_checkoutTickets (delete w (checkoutTickets p)) p in
  let p := set_aqmanager (unregisterDispatchedWorker w (aqmanager p)) p in
  if desiredSize p <=? ID wk then
    let p := set_currentSize (currentSize p - 1) p in
    let p := if desiredSize p =? currentSize p then publish (WorkerResizeEvt (currentSize p)) p else p in
    '(q, _) ← q_remove w (activeQ p);
    Ret (set_activeQ q p)
  else
    '(q, _) ← q_remove w (activeQ p);
    let p := set_activeQ q p in
    match spawnWorker e (ID wk) started p with
    | (p, true) => Ret p
    | (p, false) => Ret (set_currentSize (currentSize p - 1) p)
    end.

(** ** Resizing *)

(** [make] and [copy] of the list of workers. *)
Definition resize_list (n : nat) (l : list (option wref)) : list (option wref) :=
  take n l ++ replicate (n - length l) None.

Definition shrink_callback (h : heap) (size : Z) (x : option wref) (killed : list wref) : bool * list wref :=
  match x with
  | Some w =>
    match h !! w with
    | Some wk => if size <=? ID wk then (true, killed ++ [w]) else (false, killed)
    | None => (false, killed)
    end
  | None => (false, killed)
  end.

Definition Resize (e : env) (newSize : Z) (started : list bool) (p : WorkerPool Q) : result (WorkerPool Q) :=
  if newSize =? desiredSize p then Ret p
  else
    let p := set_desiredSize newSize p in
    if currentSize p <? newSize then
      let p := set_workers (resize_list (Z.to_nat newSize) (workers p)) p in
      let p := publish (WorkerResizeEvt newSize) p in
      match spawn_loop e (Z.to_nat (newSize - currentSize p)) (currentSize p) started p with
      | (p, true) => Ret (set_currentSize newSize p)
      | (p, false) => Ret p
      end
    else
      '(q, killed, _) ← q_for_each_remove (shrink_callback (objs p) newSize) (activeQ p) [];
      Ret (set_terminating (terminating p ++ killed) (set_activeQ q p)).

(** ** Recycling *)

(** One worker of the loop of [RacMaint]. *)
Definition rac_one (e : env) (instID tm : Z) (delay : bool) (i : Z) (p : WorkerPool Q) : result (WorkerPool Q) :=
  slot ← index_get (workers p) i;
  match slot with
  | None => Ret p
  | Some w =>
    wk ← deref w p;
    if ((instID =? 0) || (racID wk =? instID)) && (startTime wk <? tm) then
      let statusTime := if now_s e <? tm then tm else now_s e in
      let at_time := if delay then statusTime + Z.quot (i64 (RacRestartWindow app * i)) (currentSize p) else statusTime in
      Ret (update (set_exitTime at_time) w p)
    else Ret p
  end.

Fixpoint rac_loop (e : env) (instID tm : Z) (delay : bool) (n : nat) (i : Z) (p : WorkerPool Q) : result (WorkerPool Q) :=
  match n with
  | O => Ret p
  | S n => p ← rac_one e instID tm delay i p; rac_loop e instID tm delay n (i + 1) p
  end.

Definition RacMaint (e : env) (instID tm : Z) (delay : bool) (p : WorkerPool Q) : result (WorkerPool Q) :=
  rac_loop e instID tm delay (Z.to_nat (currentSize p)) 0 p.

(** One worker of the loop of [checkWorkerLifespan]: [due] is whether the check of
    dangling workers is due, [cutoff] its limit. *)
Definition lifespan_one (e : env) (due : bool) (cutoff i : Z) (p : WorkerPool Q) : result (WorkerPool Q) :=
  slot ← index_get (workers p) i;
  match slot with
  | None => Ret p
  | Some w =>
    wk ← deref w p;
    if negb (exitTime wk =? 0) && (exitTime wk <=? now_s e) then
      '(q, removed) ← q_remove w (activeQ p);
      let p := set_activeQ q p in
      if (removed : bool) then Ret (terminate w (update (set_exitTime 0) w p))
      else if EnableDanglingWorkerRecovery app && due &&
              negb (sqlStartTimeMs wk =? 0) && (sqlStartTimeMs wk <? cutoff)
      then Ret (terminate w (update (set_exitTime 0) w p))
      else Ret p
    else Ret p
  end.

Fixpoint lifespan_loop (e : env) (due : bool) (cutoff : Z) (n : nat) (i : Z) (p : WorkerPool Q) : result (WorkerPool Q) :=
  match n with
  | O => Ret p
  | S n => p ← lifespan_one e due cutoff i p; lifespan_loop e due cutoff n (i + 1) p
  end.

(** Three times the longer of the two idle time-outs before now, at 32 bits. *)
Definition cutoff_time (e : env) : Z :=
  let idleto := u32 (GetTrIdleTimeoutMs ops) in
  let dummy := u32 (GetIdleTimeoutMs ops) in
  let idleto := if idleto <? dummy then dummy else idleto in
  u32 (u32 (mux_ms e) - u32 (3 * idleto)).

(** One turn of [checkWorkerLifespan]. *)
Definition checkWorkerLifespan (e : env) (skipcnt cutofftime : Z) (p : WorkerPool Q)
    : result (WorkerPool Q * (Z * Z)) :=
  let '(skipcnt, cutofftime) := if skipcnt <? 90 then (skipcnt + 1, cutofftime) else (0, cutoff_time e) in
  p ← lifespan_loop e (skipcnt =? 0) cutofftime (Z.to_nat (currentSize p)) 0 p;
  Ret (p, (skipcnt, cutofftime)).

(** ** Recovery of a worker whose client went away *)

(** What arrives while [Recover] waits. *)
Inductive recover_event : Type := RTimeout | RClosed | RMsg (m : workerMsg).

Fixpoint recover_loop (e : env) (w : wref) (ticket : bytes) (evs : list recover_event) (p : WorkerPool Q)
    : result (WorkerPool Q) :=
  match evs with
  | [] => Hang
  | RTimeout :: _ => Ret (terminate w p)
  | RClosed :: _ => Ret p
  | RMsg m :: evs =>
    wk ← deref w p;
    if msg_free m && (msg_rqId m =? rqId wk) then
      '(p, _) ← ReturnWorker e (Some w) ticket (setState wsFnsh w p);
      Ret p
    else recover_loop e w ticket evs p
  end.

(** The time-out is among the events, so the loop ends. *)
Definition Recover (e : env) (w : wref) (ticket : bytes) (evs : list recover_event) (p : WorkerPool Q)
    : result (WorkerPool Q) :=
  wk ← deref w p;
  if isUnderRecovery wk then Ret p
  else if Status wk =? wsAcpt then Ret p
  else recover_loop e w ticket evs (setState wsQuce w p).

(** ** Interleavings

    The critical sections of all goroutines, in any order. A step whose goroutine is
    not at that point does nothing. *)

Inductive op : Type :=
  | OpAttach (w : wref) (ns : Packet)
  | OpDeliver (w : wref) (m : workerMsg)
  | OpDetach (w : wref)
  | OpGet (e : env) (id : nat) (t sqlhash : Z) (timeoutMs : option Z)
  | OpTimeout (e : env) (id : nat)
  | OpWake (e : env) (id : nat) (t : Z)
  | OpReturn (e : env) (w : option wref) (ticket : bytes)
  | OpExit (e : env) (w : wref) (started : bool)
  | OpResize (e : env) (newSize : Z) (started : list bool)
  | OpRacMaint (e : env) (instID tm : Z) (delay : bool)
  | OpLifespan (e : env) (skipcnt cutofftime : Z)
  | OpSetState (w : wref) (st : Z)
  | OpSaturation (e : env) (swcnt : Z) (order : list wref).

Definition quiet (r : result (WorkerPool Q)) : result (WorkerPool Q * outcome) := p ← r; Ret (p, Nothing).

Definition step (o : op) (p : WorkerPool Q) : result (WorkerPool Q * outcome) :=
  match o with
  | OpAttach w ns => if bool_decide (w ∈ starting p) then quiet (attach w ns p) else Ret (p, Nothing)
  | OpDeliver w m => if bool_decide (w ∈ attached p) then Ret (deliver w m p, Nothing) else Ret (p, Nothing)
  | OpDetach w => if bool_decide (w ∈ attached p) then Ret (detach w p, Nothing) else Ret (p, Nothing)
  | OpGet e id t sqlhash timeoutMs =>
    if bool_decide (is_Some (waiting p !! id)) || bool_decide (id ∈ cond p) || bool_decide (id ∈ woken p)
    then Ret (p, Nothing) else GetWorker e id t sqlhash timeoutMs p
  | OpTimeout e id =>
    match waiting p !! id with
    | Some wt => Ret (backlog_timeout e id wt p)
    | None => Ret (p, Nothing)
    end
  | OpWake e id t =>
    if bool_decide (id ∈ woken p) then
      let p := set_woken (filter (.≠ id) (woken p)) p in
      match waiting p !! id with
      | Some wt => backlog_wakeup e id t wt p
      | None => Ret (p, Nothing)
      end
    else Ret (p, Nothing)
  | OpReturn e w ticket => ReturnWorker e w ticket p
  | OpExit e w started => quiet (RestartWorker e w started p)
  | OpResize e newSize started => quiet (Resize e newSize started p)
  | OpRacMaint e instID tm delay => quiet (RacMaint e instID tm delay p)
  | OpLifespan e skipcnt cutofftime => '(p, _) ← checkWorkerLifespan e skipcnt cutofftime p; Ret (p, Nothing)
  | OpSetState w st => Ret (setState st w p, Nothing)
  | OpSaturation e swcnt order =>
    let '(h, m, _) := saturation_recovery app ops wtype shardID (backlogCnt p) swcnt (u32 (mux_ms e)) (now_ms e)
                        order (objs p) (aqmanager p) in
    Ret (set_aqmanager m (set_objs h p), Nothing)
  end.

Fixpoint run (os : list op) (p : WorkerPool Q) : result (WorkerPool Q) :=
  match os with
  | [] => Ret p
  | o :: os => '(p, _) ← step o p; run os p
  end.

(** ** The invariant *)

Context {qrep : Q → list wref → Prop} `{!QueueLaws wref Q qrep}.

Section out.
(** Workers that are out of the pool: neither free nor starting, and not to be given out. *)
Context (X : gset wref).

Record inv (p : WorkerPool Q) (l : list wref) : Prop := {
  inv_queue : qrep (activeQ p) l;
  inv_tickets : dispatchedWorkers (aqmanager p) = checkoutTickets p;
  inv_free w : w ∈ l → checkoutTickets p !! w = None;
  inv_starting w : w ∈ starting p → (w ∉ l) ∧ checkoutTickets p !! w = None;
  inv_nonempty w t : checkoutTickets p !! w = Some t → t ≠ [];
  inv_distinct w1 w2 t : checkoutTickets p !! w1 = Some t → checkoutTickets p !! w2 = Some t → w1 = w2;
  inv_alloc w : is_Some (objs p !! w) ↔ (w < next p)%nat;
  inv_known w : (w ∈ l ∨ is_Some (checkoutTickets p !! w) ∨ w ∈ starting p ∨ Some w ∈ workers p) → (w < next p)%nat;
  inv_backlog : backlogCnt p = Z.of_nat (size (waiting p));
  inv_out w : w ∈ X → (w ∉ l) ∧ (w ∉ starting p) ∧ (w < next p)%nat
}.

(** The parts of the state the invariant speaks of are the same. *)
Record same_core (p p' : WorkerPool Q) : Prop := {
  sc_queue : activeQ p' = activeQ p;
  sc_objs w : is_Some (objs p' !! w) ↔ is_Some (objs p !! w);
  sc_next : next p' = next p;
  sc_starting : starting p' = starting p;
  sc_tickets : checkoutTickets p' = checkoutTickets p;
  sc_dispatched : dispatchedWorkers (aqmanager p') = dispatchedWorkers (aqmanager p);
  sc_workers : workers p' = workers p;
  sc_backlog : backlogCnt p' = backlogCnt p;
  sc_waiting : waiting p' = waiting p
}.

Lemma inv_core p p' l : same_core p p' → inv p l → inv p' l.
Proof.
  intros [] []. constructor; rewrite ?sc_queue0, ?sc_next0, ?sc_starting0, ?sc_tickets0, ?sc_dispatched0,
    ?sc_workers0, ?sc_backlog0, ?sc_waiting0; auto. intros w. rewrite sc_objs0. auto.
Qed.

#[local] Instance same_core_refl : Reflexive same_core.
Proof. intros p. by constructor. Qed.

#[local] Instance same_core_trans : Transitive same_core.
Proof.
  intros p1 p2 p3 [] []. constructor; try congruence. intros w. by rewrite sc_objs1.
Qed.

Lemma alter_is_Some (f : WorkerClient → WorkerClient) w (h : heap) v : is_Some (alter f w h !! v) ↔ is_Some (h !! v).
Proof.
  destruct (decide (w = v)) as [<-|]; [by rewrite lookup_alter_eq, fmap_is_Some|by rewrite lookup_alter_ne].
Qed.

Lemma core_update f w p : same_core p (update f w p).
Proof. constructor; try done. intros v. apply alter_is_Some. Qed.

Lemma core_setState st w p : same_core p (setState st w p).
Proof.
  unfold setState. destruct (objs p !! w) as [wk|]; [|done]. destruct (_ =? _); [done|].
  transitivity (update (set_status st) w p); [apply core_update|done].
Qed.

Lemma core_Signal p : same_core p (Signal p).
Proof. unfold Signal. by destruct (cond p). Qed.

(** *** Choosing a worker *)

Definition ready (h : heap) (w : wref) : bool :=
  match h !! w with Some wk => wsInit <? Status wk | None => false end.

(** [getActiveWorker] on the list of free workers. *)
Fixpoint pick (h : heap) (cnt : nat) (l : list wref) : list wref * option wref :=
  match cnt, l with
  | S cnt, w :: l => if ready h w then (l, Some w) else pick h cnt (l ++ [w])
  | _, _ => (l, None)
  end.

Lemma active_loop_pick h cnt q l : qrep q l → (cnt <= length l)%nat → (∀ w, w ∈ l → is_Some (h !! w)) →
  ∃ q', active_loop h cnt q = Ret (q', snd (pick h cnt l)) ∧ qrep q' (fst (pick h cnt l)).
Proof.
  revert q l. induction cnt as [|cnt IH]; intros q l Hq Hc Ha; cbn [active_loop].
  { exists q. by destruct l. }
  destruct l as [|w l]; [cbn in Hc; lia|].
  destruct (qrep_poll q (w :: l) Hq) as (q1 & -> & Hq1). cbn [mbind result_bind head tail] in *.
  destruct (Ha w) as [wk Hwk]; [by constructor|]. rewrite Hwk. cbn [pick]. unfold ready. rewrite Hwk.
  destruct (wsInit <? Status wk); [by exists q1|].
  assert (Hnot : w ∉ l) by (apply qrep_NoDup in Hq; by inversion Hq).
  destruct (qrep_push q1 l w Hq1) as (q2 & -> & Hq2). cbn [mbind result_bind].
  rewrite bool_decide_eq_false_2 in Hq2 by done. apply IH; [done| |].
  - rewrite length_app. cbn in *. lia.
  - intros w' [?|H']%elem_of_app; [|apply list_elem_of_singleton in H' as ->]; apply Ha; by constructor.
Qed.

Lemma pick_spec h l1 l2 :
  match pick h (length l1) (l1 ++ l2) with
  | (l', Some w) => ∃ i, l1 !! i = Some w ∧ ready h w = true ∧ Forall (λ v, ready h v = false) (take i l1) ∧
                      l' = drop (S i) l1 ++ l2 ++ take i l1
  | (l', None) => l' = l2 ++ l1 ∧ Forall (λ v, ready h v = false) l1
  end.
Proof.
  revert l2. induction l1 as [|w l1 IH]; intros l2; [cbn; by rewrite app_nil_r; destruct l2|].
  rewrite <- app_comm_cons. cbn [length pick]. destruct (ready h w) eqn:Er.
  { exists 0%nat. split_and!; try done. cbn. by rewrite app_nil_r. }
  specialize (IH (l2 ++ [w])). rewrite app_assoc in IH.
  destruct (pick h (length l1) _) as [l' [w'|]].
  - destruct IH as (i & Hi & Hr & F & ->). exists (S i). split_and!; try done.
    + cbn. by constructor.
    + cbn. by rewrite <- app_assoc.
  - destruct IH as [-> F]. split; [by rewrite <- app_assoc|by constructor].
Qed.

Lemma getActiveWorker_ok p l : inv p l →
  ∃ q' l' w, getActiveWorker p = Ret (set_activeQ q' p, w) ∧ qrep q' l' ∧
    match w with
    | Some w => ready (objs p) w = true ∧ l ≡ₚ w :: l' ∧
        ∃ i, l !! i = Some w ∧ Forall (λ v, ready (objs p) v = false) (take i l)
    | None => l' = l ∧ Forall (λ v, ready (objs p) v = false) l
    end.
Proof.
  intros I. unfold getActiveWorker. rewrite (qrep_len _ l) by apply (inv_queue _ _ I).
  destruct (active_loop_pick (objs p) (length l) (activeQ p) l) as (q' & -> & Hq); [apply (inv_queue _ _ I)|done| |].
  { intros w Hw. apply (inv_alloc _ _ I). apply (inv_known _ _ I). by left. }
  cbn [mbind result_bind]. eexists q', _, _. split; [done|]. split; [done|].
  pose proof (pick_spec (objs p) l []) as H. rewrite app_nil_r in H.
  destruct (pick _ _ l) as [l' [w|]]; cbn.
  - destruct H as (i & Hi & Hr & F & ->). split_and!; [done| |by exists i].
    rewrite <- (take_drop_middle l i w Hi) at 1. by rewrite (Permutation_app_comm (take i l)).
  - done.
Qed.

(** Free workers can be dropped. *)
Lemma inv_sub p l l' q' : inv p l → qrep q' l' → (∀ v, v ∈ l' → v ∈ l) → inv (set_activeQ q' p) l'.
Proof. intros [] Hq Hsub. constructor; cbn; try done; naive_solver. Qed.

(** A worker taken from the free list. *)
Lemma inv_take p l l' q' w : inv p l → qrep q' l' → l ≡ₚ w :: l' →
  inv (set_activeQ q' p) l' ∧ (w ∉ l') ∧ checkoutTickets p !! w = None ∧ (w < next p)%nat ∧ (w ∉ starting p).
Proof.
  intros I Hq Hp.
  assert (Hin : w ∈ l) by (rewrite Hp; by constructor).
  assert (Hnot : w ∉ l').
  { pose proof (qrep_NoDup _ _ (inv_queue _ _ I)) as Hnd. rewrite Hp in Hnd. by inversion Hnd. }
  assert (Hsub : ∀ v, v ∈ l' → v ∈ l) by (intros v Hv; rewrite Hp; by constructor).
  split_and!; try done; try (by apply (inv_free _ _ I)); try (apply (inv_known _ _ I); by left).
  - by apply (inv_sub p l).
  - intros Hs. by destruct (inv_starting _ _ I w Hs).
Qed.

Lemma inv_same_list p l q' : inv p l → qrep q' l → inv (set_activeQ q' p) l.
Proof. intros I Hq. by apply (inv_sub p l). Qed.

Lemma alreadyDispatched_false ticket w m : alreadyDispatched ticket w m = false →
  ∀ v, dispatchedWorkers m !! v ≠ Some ticket.
Proof.
  unfold alreadyDispatched. intros [_ He]%orb_false_iff v Hv. apply not_true_iff_false in He. apply He.
  apply existsb_exists. exists (v, ticket). split; [|by apply bool_decide_eq_true_2].
  by apply list_elem_of_In, elem_of_map_to_list.
Qed.

Lemma itoa_nonempty t : itoa (u64 t) ≠ [].
Proof.
  destruct (itoa_spec (u64 t)) as (_ & Hne & _); [apply u64_range|done].
Qed.

(** What a successful dispatch does. *)
Lemma dispatch_ok t w p l : inv p l → (w ∉ l) → checkoutTickets p !! w = None → (w < next p)%nat → (w ∉ starting p) →
  let '(p', out) := dispatch t w p in
  inv p' l ∧ waiting p' = waiting p ∧
  match out with
  | Got w' tk => w' = w ∧ tk = itoa (u64 t) ∧ checkoutTickets p' = <[w := tk]> (checkoutTickets p) ∧
                 ∀ v, checkoutTickets p !! v ≠ Some tk
  | Failed _ => p' = p
  | _ => False
  end.
Proof.
  intros I Hl Ht Hn Hs. unfold dispatch. destruct (alreadyDispatched _ w (aqmanager p)) eqn:Ea; [done|].
  pose proof (alreadyDispatched_false _ _ _ Ea) as Hfresh. rewrite (inv_tickets _ _ I) in Hfresh.
  split; [|done]. eapply inv_core; [apply core_update|]. destruct I. constructor; cbn; try done.
  - by rewrite inv_tickets0.
  - intros v Hv. rewrite lookup_insert_ne by naive_solver. auto.
  - intros v Hv. rewrite lookup_insert_ne by naive_solver. auto.
  - intros v tk. rewrite lookup_insert. case_decide; [intros [= <-]; apply itoa_nonempty|by apply inv_nonempty0].
  - intros w1 w2 tk. rewrite !lookup_insert. repeat case_decide; subst; try congruence; [..|by apply inv_distinct0];
      intros; simplify_eq; exfalso; by eapply Hfresh.
  - intros v [?|[Hv|Hv]]; [auto| |auto]. rewrite lookup_insert in Hv. case_decide; [by subst|auto].
Qed.

Lemma shouldSoftEvict_dispatched h r now m :
  dispatchedWorkers (fst (shouldSoftEvict app h r now m)) = dispatchedWorkers m.
Proof. unfold shouldSoftEvict. by repeat case_match. Qed.

Lemma enter_backlog_ok e id h tmo p l : inv p l → waiting p !! id = None →
  Z.of_nat (size (waiting p)) + 1 < 2 ^ 31 →
  let '(p', out) := enter_backlog e id h tmo p in
  inv p' l ∧ (size (waiting p') <= S (size (waiting p)))%nat ∧ checkoutTickets p' = checkoutTickets p ∧
  match out with Waits => is_Some (waiting p' !! id) | Failed _ => waiting p' = waiting p | _ => False end.
Proof.
  intros I Hid Hb. unfold enter_backlog. destruct (_ =? 0); [split_and!; try done; lia|].
  destruct (getBacklogTimeout _ _ _) as [tm lg]. destruct (default tm tmo =? 0); [split_and!; try done; lia|].
  pose proof (shouldSoftEvict_dispatched h (rnd e 0) (now_ms e) (aqmanager p)) as Hd.
  destruct (shouldSoftEvict _ _ _ _ _) as [m evict]. cbn in Hd.
  assert (I1 : inv (set_aqmanager m p) l) by (destruct I; constructor; cbn; try done; by rewrite Hd).
  destruct evict; [split_and!; try done; cbn; lia|].
  set (p1 := if backlogCnt (set_aqmanager m p) =? 0 then _ else _).
  assert (Hp1 : inv p1 l ∧ waiting p1 = waiting p ∧ checkoutTickets p1 = checkoutTickets p).
  { subst p1. destruct (_ =? 0); [|done]. split; [|done]. by destruct I1; constructor. }
  clearbody p1. destruct Hp1 as ([] & Hw & Ht). cbn. rewrite Hw.
  split_and!; [|by rewrite map_size_insert_None|done|by rewrite lookup_insert_eq].
  constructor; cbn; try done. rewrite inv_backlog0, ?Hw, map_size_insert_None by done.
  rewrite i32_id by (unfold in_i32; lia). lia.
Qed.

Lemma decBacklog_ok id p l : inv p l → is_Some (waiting p !! id) →
  inv (set_waiting (delete id (waiting p)) (decBacklogCnt p)) l ∧
  waiting (decBacklogCnt p) = waiting p ∧ checkoutTickets (decBacklogCnt p) = checkoutTickets p ∧
  S (size (delete id (waiting p))) = size (waiting p).
Proof.
  intros [] [wt Hwt].
  assert (Hsz : S (size (delete id (waiting p))) = size (waiting p)).
  { rewrite <- (insert_delete_id (waiting p) id wt Hwt) at 2. by rewrite map_size_insert_None by apply lookup_delete_eq. }
  unfold decBacklogCnt. rewrite (proj2 (Z.ltb_lt 0 _)) by lia. split_and!; try done.
  constructor; cbn; try done. rewrite inv_backlog0. lia.
Qed.

Lemma reset_ok e p l : inv p l → inv (resetIfLastBacklogEntry e p) l ∧
  waiting (resetIfLastBacklogEntry e p) = waiting p ∧ checkoutTickets (resetIfLastBacklogEntry e p) = checkoutTickets p ∧
  next (resetIfLastBacklogEntry e p) = next p ∧ starting (resetIfLastBacklogEntry e p) = starting p.
Proof. intros I. unfold resetIfLastBacklogEntry. destruct (_ =? 1); [|done]. split; [|done]. by destruct I; constructor. Qed.

(** What a call that obtains a worker obtained: a free worker, in order, under a new
    ticket. *)
Definition obtained (p p' : WorkerPool Q) (l : list wref) (w : wref) (tk : bytes) : Prop :=
  (∃ i, l !! i = Some w ∧ Forall (λ v, ready (objs p) v = false) (take i l)) ∧
  ready (objs p) w = true ∧ checkoutTickets p !! w = None ∧
  (∀ v, checkoutTickets p !! v ≠ Some tk) ∧ checkoutTickets p' = <[w := tk]> (checkoutTickets p).

(** The free workers after a call that looks for one: all but the one it took, or all of
    them when none was ready. *)
Definition left_over (p : WorkerPool Q) (l l' : list wref) : Prop :=
  (∃ w, l ≡ₚ w :: l') ∨ (l' = l ∧ Forall (λ v, ready (objs p) v = false) l).

Lemma left_over_sub p l l' v : left_over p l l' → v ∈ l' → v ∈ l.
Proof. intros [[w ->]|[-> _]] Hv; [by constructor|done]. Qed.

(** Only a call that obtains a worker changes the tickets. *)
Definition kept (out : outcome) (p p' : WorkerPool Q) : Prop :=
  match out with Got _ _ => True | _ => checkoutTickets p' = checkoutTickets p end.

Lemma GetWorker_ok e id t h tmo p l : inv p l → waiting p !! id = None →
  Z.of_nat (size (waiting p)) + 1 < 2 ^ 31 →
  ∃ p' out l', GetWorker e id t h tmo p = Ret (p', out) ∧ inv p' l' ∧ (left_over p l l' ∧ kept out p p') ∧
    (size (waiting p') <= S (size (waiting p)))%nat ∧
    match out with
    | Got w tk => obtained p p' l w tk ∧ (w ∉ l')
    | Waits => Forall (λ v, ready (objs p) v = false) l ∧ l' = l ∧ is_Some (waiting p' !! id)
    | Failed _ => checkoutTickets p' = checkoutTickets p ∧ waiting p' = waiting p
    | Nothing => False
    end.
Proof.
  intros I Hid Hb. unfold GetWorker.
  destruct (getActiveWorker_ok p l I) as (q' & l' & w & -> & Hq & Hw). cbn [mbind result_bind]. destruct w as [w|].
  - destruct Hw as (Hr & Hp & Hi). destruct (inv_take _ _ _ _ _ I Hq Hp) as (I1 & H1 & H2 & H3 & H4).
    pose proof (dispatch_ok t w _ _ I1 H1 H2 H3 H4) as Hd. destruct (dispatch t w _) as [p' out].
    destruct Hd as (I' & Hwt & Ho). exists p', out, l'. split; [done|]. split; [done|].
    split; [split; [left; by exists w|by destruct out; simplify_eq]|]. rewrite Hwt. split; [cbn; lia|].
    destruct out as [|w' tk| |e']; try done; [|by subst p'].
    destruct Ho as (-> & -> & Ht & Hf). split; [|done]. by split_and!.
  - destruct Hw as [-> F]. pose proof (inv_same_list _ _ _ I Hq) as I1.
    pose proof (enter_backlog_ok e id h tmo _ _ I1 Hid Hb) as Hd. destruct (enter_backlog _ _ _ _ _) as [p' out].
    destruct Hd as (I' & Hs & Ht & Ho). exists p', out, l. split_and!; try done; [by right|by destruct out..].
Qed.

Lemma timeout_ok e id wt p l : inv p l → waiting p !! id = Some wt →
  let '(p', out) := backlog_timeout e id wt p in
  inv p' l ∧ (size (waiting p') <= size (waiting p))%nat ∧ checkoutTickets p' = checkoutTickets p.
Proof.
  intros I Hid. unfold backlog_timeout. destruct (reset_ok e p l I) as (I1 & Hw & Ht & _).
  destruct (decBacklog_ok id _ _ I1) as (I2 & Hw2 & Ht2 & Hs); [by rewrite Hw|].
  rewrite <- Hw2 in I2 at 1. split_and!.
  - by destruct I2; constructor.
  - cbn. rewrite Hw2, Hw in *. lia.
  - cbn. congruence.
Qed.

Lemma wakeup_ok e id t wt p l : inv p l → waiting p !! id = Some wt →
  Z.of_nat (size (waiting p)) < 2 ^ 31 →
  ∃ p' out l', backlog_wakeup e id t wt p = Ret (p', out) ∧ inv p' l' ∧ (left_over p l l' ∧ kept out p p') ∧
    (size (waiting p') <= size (waiting p))%nat ∧
    match out with
    | Got w tk => obtained p p' l w tk ∧ (w ∉ l')
    | Waits => Forall (λ v, ready (objs p) v = false) l ∧ l' = l ∧ is_Some (waiting p' !! id)
    | Failed _ => checkoutTickets p' = checkoutTickets p
    | Nothing => False
    end.
Proof.
  intros I Hid Hb. unfold backlog_wakeup.
  destruct (getActiveWorker_ok p l I) as (q' & l' & w & -> & Hq & Hw). cbn [mbind result_bind]. destruct w as [w|].
  - destruct Hw as (Hr & Hp & Hi). destruct (inv_take _ _ _ _ _ I Hq Hp) as (I1 & H1 & H2 & H3 & H4).
    destruct (reset_ok e _ _ I1) as (I2 & Hw2 & Ht2 & Hn2 & Hs2).
    destruct (decBacklog_ok id _ _ I2) as (I3 & Hw3 & Ht3 & Hs); [by rewrite Hw2|].
    rewrite <- Hw3 in I3 at 1.
    set (p3 := publish _ _).
    assert (I4 : inv p3 l') by (subst p3; by destruct I3; constructor).
    assert (E3 : checkoutTickets p3 = checkoutTickets p ∧ next p3 = next p ∧ starting p3 = starting p ∧
                 waiting p3 = delete id (waiting p)).
    { subst p3. cbn. rewrite Ht3, Ht2, Hw3, Hw2. cbn in Hn2, Hs2. unfold decBacklogCnt. case_match; cbn; by rewrite Hn2, Hs2. }
    destruct E3 as (Et & En & Es & Ew).
    pose proof (dispatch_ok t w p3 l' I4 H1) as Hd. rewrite Et, En, Es in Hd. specialize (Hd H2 H3 H4).
    destruct (dispatch t w p3) as [p' out]. destruct Hd as (I' & Hwt & Ho). exists p', out, l'.
    split; [done|]. split; [done|]. split; [split; [left; by exists w|by destruct out; simplify_eq]|].
    rewrite Hwt, Ew. rewrite Hw2 in Hs. cbn in Hs. split; [lia|].
    destruct out as [|w' tk| |e']; try done; [|subst p'; by rewrite Et].
    destruct Ho as (-> & -> & Ht & Hf). split; [|done]. by split_and!.
  - destruct Hw as [-> F]. pose proof (inv_same_list _ _ _ I Hq) as I1.
    destruct (decBacklog_ok id _ _ I1) as (I3 & Hw3 & Ht3 & Hs); [done|].
    rewrite <- Hw3 in I3 at 1. set (p3 := publish _ _).
    assert (I4 : inv p3 l) by (subst p3; by destruct I3; constructor).
    assert (Ew : waiting p3 = delete id (waiting p)) by (subst p3; cbn; by rewrite Hw3).
    assert (Et : checkoutTickets p3 = checkoutTickets p) by (subst p3; cbn; by rewrite Ht3).
    cbn in Hs. pose proof (enter_backlog_ok e id (w_sqlhash wt) (w_timeout wt) p3 l I4) as Hd.
    rewrite Ew, Et in Hd. specialize (Hd (lookup_delete_eq _ _)). destruct (enter_backlog _ _ _ _ p3) as [p' out].
    destruct Hd as (I' & Hsz & Ht & Ho); [lia|]. exists p', out, l. split_and!; try done; [by right|by destruct out|lia|by destruct out].
Qed.

(** *** Returning a worker *)

Lemma push_free_ok w p l : inv p l → (w ∉ X) → (w ∉ l) → checkoutTickets p !! w = None → (w < next p)%nat → (w ∉ starting p) →
  ∃ p' l', push_free w p = Ret p' ∧ inv p' l' ∧ l' ≡ₚ w :: l ∧ waiting p' = waiting p ∧
    checkoutTickets p' = checkoutTickets p ∧ next p' = next p.
Proof.
  intros I HX Hl Ht Hn Hs. unfold push_free.
  assert (Hq : ∃ q' l' b, (if LifoScheduler app then q_push_front w (activeQ p) else q_push w (activeQ p)) = Ret (q', b) ∧
    qrep q' l' ∧ l' ≡ₚ w :: l).
  { pose proof (inv_queue _ _ I) as Hq. destruct (LifoScheduler app).
    - destruct (qrep_push_front _ _ w Hq) as (q' & E & H). rewrite bool_decide_eq_false_2 in H by done.
      by eexists q', _, _.
    - destruct (qrep_push _ _ w Hq) as (q' & E & H). rewrite bool_decide_eq_false_2 in H by done.
      eexists q', _, _. split_and!; [done|done|]. by rewrite Permutation_app_comm. }
  destruct Hq as (q' & l' & b & -> & Hq & Hp). cbn [mbind result_bind]. eexists _, l'. split; [done|].
  pose proof (core_Signal (set_activeQ q' p)) as Hc. split_and!; [|done|by rewrite (sc_waiting _ _ Hc)|by rewrite (sc_tickets _ _ Hc)|by rewrite (sc_next _ _ Hc)].
  eapply inv_core; [done|]. destruct I. constructor; cbn; try done.
  - intros v. rewrite Hp. intros [->|Hv]%elem_of_cons; auto.
  - intros v Hv. rewrite Hp, not_elem_of_cons. destruct (inv_starting0 v Hv). naive_solver.
  - intros v. rewrite Hp. intros [[->|Hv]%elem_of_cons|Hv]; auto.
  - intros v Hv. rewrite Hp, not_elem_of_cons. destruct (inv_out0 v Hv) as (? & ? & ?). naive_solver.
Qed.

Lemma deref_ok w p l : inv p l → (w < next p)%nat → ∃ wk, objs p !! w = Some wk.
Proof. intros I Hw. by apply (inv_alloc _ _ I) in Hw. Qed.

Lemma release_ok e w p l : inv p l → (w ∉ X) → (w ∉ l) → checkoutTickets p !! w = None → (w < next p)%nat → (w ∉ starting p) →
  ∃ p' l', release e w p = Ret p' ∧ inv p' l' ∧ (l' ≡ₚ w :: l ∨ l' = l) ∧ waiting p' = waiting p ∧
    checkoutTickets p' = checkoutTickets p ∧ next p' = next p.
Proof.
  intros I HX Hl Ht Hn Hs. unfold release.
  set (p1 := setState wsAcpt w (update _ w p)).
  assert (Hc : same_core p p1) by (subst p1; etransitivity; [apply core_update|apply core_setState]).
  pose proof (inv_core _ _ _ Hc I) as I1. destruct Hc. clearbody p1.
  destruct (deref_ok w p1 l I1) as [wk Hwk]; [by rewrite sc_next0|]. unfold deref. rewrite Hwk. cbn [mbind result_bind].
  assert (Hterm : ∀ p2, same_core p1 p2 → ∃ p' l', Ret (terminate w p2) = Ret p' ∧ inv p' l' ∧
    (l' ≡ₚ w :: l ∨ l' = l) ∧ waiting p' = waiting p ∧ checkoutTickets p' = checkoutTickets p ∧ next p' = next p).
  { intros p2 Hc2. eexists _, l. split; [done|]. pose proof (inv_core _ _ _ Hc2 I1) as I2. destruct Hc2.
    split; [by destruct I2; constructor|]. split; [by right|]. cbn. split_and!; congruence. }
  destruct (_ && _); [by apply Hterm|]. destruct (_ && _); [apply Hterm, core_update|].
  destruct (_ && _); [apply Hterm, core_update|].
  pose proof (core_update (adjust_max (rnd e 1)) w p1) as Hc2.
  destruct (push_free_ok w _ l (inv_core _ _ _ Hc2 I1)) as (p' & l' & E & I' & Hp & Hw & Ht' & Hn'); destruct Hc2; try congruence.
  exists p', l'. split_and!; try done; [by left|congruence..].
Qed.

(** A ticket is given up in both maps. *)
Lemma inv_delete_ticket w p l : inv p l →
  inv (set_aqmanager (unregisterDispatchedWorker w (aqmanager p))
         (set_checkoutTickets (delete w (checkoutTickets p)) p)) l.
Proof.
  intros I. destruct I. constructor; cbn; try done.
  - by rewrite inv_tickets0.
  - intros v Hv. rewrite lookup_delete_None. auto.
  - intros v Hv. rewrite lookup_delete_None. destruct (inv_starting0 v Hv). auto.
  - intros v t [_ Hv]%lookup_delete_Some. by eapply inv_nonempty0.
  - intros v1 v2 t [_ H1]%lookup_delete_Some [_ H2]%lookup_delete_Some. by eapply inv_distinct0.
  - intros v [?|[[t [_ Hv]%lookup_delete_Some]|?]]; auto.
Qed.

Definition status_of (p : WorkerPool Q) (w : wref) : Z :=
  match objs p !! w with Some wk => Status wk | None => wsUnset end.

(** The refusal and the effect of a return. *)
Lemma ReturnWorker_ok e w ticket p l : inv p l → (w < next p)%nat → (checkoutTickets p !! w = Some ticket → w ∉ X) →
  ∃ p' out l', ReturnWorker e (Some w) ticket p = Ret (p', out) ∧ inv p' l' ∧ waiting p' = waiting p ∧ next p' = next p ∧
    (if bool_decide (checkoutTickets p !! w = Some ticket) && negb (status_of p w =? wsQuce)
     then out = Nothing ∧ checkoutTickets p' = delete w (checkoutTickets p) ∧ (l' ≡ₚ w :: l ∨ l' = l)
     else p' = p ∧ l' = l ∧ match out with Got _ _ => False | _ => True end).
Proof.
  intros I Hw HX. unfold ReturnWorker. destruct (deref_ok w p l I Hw) as [wk Hwk].
  unfold deref, status_of. rewrite Hwk. cbn [mbind result_bind]. destruct (Status wk =? wsQuce) eqn:Est.
  { cbn [negb]. rewrite andb_false_r. by eexists _, _, l. }
  cbn [negb]. rewrite andb_true_r. destruct (decide (checkoutTickets p !! w = Some ticket)) as [Ht|Ht].
  - rewrite (bool_decide_eq_true_2 (_ = Some ticket)) by done. pose proof (inv_nonempty _ _ I _ _ Ht) as Hne. rewrite Ht. cbn [default].
    destruct ticket as [|b tk]; [done|]. cbn [length Nat.eqb orb].
    rewrite bool_decide_eq_true_2 by done. cbn [negb].
    set (p1 := set_aqmanager _ _).
    assert (I1 : inv p1 l) by exact (inv_delete_ticket w p l I).
    destruct (release_ok e w p1 l I1) as (p' & l' & -> & I' & Hp & Hwt & Htt & Hnn).
    + by apply HX.
    + intros Hin. pose proof (inv_free _ _ I w Hin). congruence.
    + subst p1. cbn. apply lookup_delete_eq.
    + done.
    + subst p1. cbn. intros Hin. destruct (inv_starting _ _ I w Hin). congruence.
    + cbn [mbind result_bind]. by exists p', Nothing, l'.
  - rewrite (bool_decide_eq_false_2 (_ = Some ticket)) by done.
    assert (Hwrong : (length ticket =? 0)%nat || negb (bool_decide (default [] (checkoutTickets p !! w) = ticket)) = true).
    { destruct ticket as [|b tk]; [done|]. cbn. case_bool_decide as E; [|done].
      destruct (checkoutTickets p !! w); cbn in E; congruence. }
    rewrite Hwrong. by eexists _, _, l.
Qed.

(** *** Workers that start and exit *)

Lemma inv_alloc_worker wk p l : inv p l → inv (alloc wk p) l.
Proof.
  intros I. pose proof (inv_known _ _ I) as Hk. destruct I. constructor; cbn; try done.
  - intros v [->%elem_of_singleton|Hv]%elem_of_union; [|by apply inv_starting0].
    split; [intros Hin; specialize (Hk (next p) (or_introl Hin)); lia|].
    destruct (checkoutTickets p !! next p) eqn:E; [|done].
    specialize (Hk (next p) (or_intror (or_introl (mk_is_Some _ _ E)))). lia.
  - intros v. rewrite lookup_insert. case_decide; [subst; split; [lia|done]|]. rewrite inv_alloc0. lia.
  - intros v [Hv|[Hv|[[->%elem_of_singleton|Hv]%elem_of_union|Hv]]]; [..|lia| |];
      try (assert (v < next p)%nat by (apply Hk; auto); lia).
  - intros v Hv. destruct (inv_out0 v Hv) as (? & ? & ?). split_and!; [done| |lia].
    intros [->%elem_of_singleton|?]%elem_of_union; [lia|done].
Qed.

Lemma spawnWorker_ok e wid started p l : inv p l →
  inv (fst (spawnWorker e wid started p)) l ∧ waiting (fst (spawnWorker e wid started p)) = waiting p ∧
  checkoutTickets (fst (spawnWorker e wid started p)) = checkoutTickets p.
Proof.
  intros I. unfold spawnWorker. destruct started; [|done]. split; [|done].
  set (wk := set_status _ _). apply (inv_core (alloc wk p)); [done|by apply inv_alloc_worker].
Qed.

Lemma spawn_loop_ok e n i started p l : inv p l →
  inv (fst (spawn_loop e n i started p)) l ∧ waiting (fst (spawn_loop e n i started p)) = waiting p ∧
  checkoutTickets (fst (spawn_loop e n i started p)) = checkoutTickets p.
Proof.
  revert i started p. induction n as [|n IH]; intros i started p I; [done|]. cbn [spawn_loop].
  destruct (spawnWorker_ok e i (default false (head started)) p l I) as (I1 & Hw & Ht).
  destruct (spawnWorker _ _ _ _) as [p1 []]; [|done]. cbn in *.
  destruct (IH (i + 1) (tail started) p1 I1) as (I2 & Hw2 & Ht2). split; [done|]. split; congruence.
Qed.

Lemma inv_remove p l q' w : inv p l → qrep q' (filter (.≠ w) l) → inv (set_activeQ q' p) (filter (.≠ w) l).
Proof. intros I Hq. apply (inv_sub p l); try done. by intros v [_ Hv]%list_elem_of_filter. Qed.

Lemma RestartWorker_ok e w started p l : inv p l → (w < next p)%nat →
  ∃ p', RestartWorker e w started p = Ret p' ∧ inv p' (filter (.≠ w) l) ∧ waiting p' = waiting p ∧
    checkoutTickets p' = delete w (checkoutTickets p).
Proof.
  intros I Hw. unfold RestartWorker. destruct (deref_ok w p l I Hw) as [wk Hwk]. unfold deref. rewrite Hwk.
  cbn [mbind result_bind].
  set (p1 := set_aqmanager _ _).
  assert (I1 : inv p1 l) by exact (inv_delete_ticket w p l I).
  destruct (qrep_remove _ _ w (inv_queue _ _ I1)) as (q' & Eq & Hq).
  destruct (_ <=? _).
  - set (p2 := if _ =? _ then _ else _).
    assert (Hp2 : inv p2 l ∧ waiting p2 = waiting p ∧ checkoutTickets p2 = delete w (checkoutTickets p) ∧ activeQ p2 = activeQ p1).
    { subst p2. destruct (_ =? _); (split; [by destruct I1; constructor|done]). }
    clearbody p2. destruct Hp2 as (I2 & Hw2 & Ht2 & Eq2). rewrite Eq2, Eq. cbn [mbind result_bind].
    eexists. split; [done|]. split; [by apply inv_remove|]. done.
  - rewrite Eq. cbn [mbind result_bind]. pose proof (inv_remove _ _ _ _ I1 Hq) as I2.
    destruct (spawnWorker_ok e (ID wk) started _ _ I2) as (I3 & Hw3 & Ht3).
    destruct (spawnWorker _ _ _ _) as [p3 []]; cbn in *; eexists; (split; [done|]); [done|].
    split; [by destruct I3; constructor|done].
Qed.

Lemma keep_loop_sub {S : Type} (f : option wref → S → bool * S) l s c v :
  v ∈ fst (fst (keep_loop f l s c)) → v ∈ l.
Proof.
  revert s c. induction l as [|x l IH]; intros s c; cbn [keep_loop]; [done|].
  destruct (f (Some x) s) as [[] s1].
  - intros H. constructor. by eapply IH.
  - specialize (IH s1 c). destruct (keep_loop f l s1 c) as [[l' s'] c']. cbn in *.
    intros [->|H]%elem_of_cons; constructor; auto.
Qed.

Lemma resize_list_sub n ws w : Some w ∈ resize_list n ws → Some w ∈ ws.
Proof.
  unfold resize_list. intros [H|H]%elem_of_app.
  - rewrite <- (take_drop n ws). apply elem_of_app. by left.
  - by apply elem_of_replicate in H as [? _].
Qed.

Lemma Resize_ok e newSize started p l : inv p l →
  ∃ p' l', Resize e newSize started p = Ret p' ∧ inv p' l' ∧ (∀ v, v ∈ l' → v ∈ l) ∧ waiting p' = waiting p ∧
    checkoutTickets p' = checkoutTickets p.
Proof.
  intros I. unfold Resize. destruct (_ =? _); [by exists p, l|].
  set (p1 := set_desiredSize newSize p). assert (I1 : inv p1 l) by (by destruct I; constructor).
  destruct (currentSize p1 <? newSize).
  - set (p2 := publish _ _).
    assert (I2 : inv p2 l).
    { destruct I1. constructor; cbn; try done. intros v [?|[?|[?|?%resize_list_sub]]]; auto. }
    destruct (spawn_loop_ok e (Z.to_nat (newSize - currentSize p2)) (currentSize p2) started p2 l I2) as (I3 & Hw & Ht).
    destruct (spawn_loop _ _ _ _ _) as [p3 []]; cbn in *; eexists _, l; (split; [done|]); [|done].
    split; [by destruct I3; constructor|done].
  - destruct (qrep_for_each_remove _ _ _ (shrink_callback (objs p1) newSize) [] (inv_queue _ _ I1))
      as (q' & l' & s' & cnt & -> & Hk & Hq). cbn [mbind result_bind]. eexists _, l'. split; [done|].
    assert (Hsub : ∀ v, v ∈ l' → v ∈ l) by (intros v Hv; eapply keep_loop_sub; by rewrite Hk).
    split; [|done]. assert (I2 : inv (set_activeQ q' p1) l') by (by apply (inv_sub p1 l)). by destruct I2; constructor.
Qed.

Lemma insert_sub (ws : list (option wref)) i w v : Some v ∈ <[i := Some w]> ws → v = w ∨ Some v ∈ ws.
Proof.
  intros [j Hj]%list_elem_of_lookup. rewrite list_lookup_insert in Hj. case_decide; [left; naive_solver|].
  right. by apply list_elem_of_lookup_2 in Hj.
Qed.

Lemma WorkerReady_ok w p l p' : inv p l → (w ∉ X) → (w ∉ l) → checkoutTickets p !! w = None → (w ∉ starting p) → (w < next p)%nat →
  WorkerReady w p = Ret p' →
  inv p' (l ++ [w]) ∧ waiting p' = waiting p ∧ checkoutTickets p' = checkoutTickets p.
Proof.
  intros I HX Hl Ht Hs Hn. unfold WorkerReady. destruct (qrep_push _ _ w (inv_queue _ _ I)) as (q' & -> & Hq).
  rewrite bool_decide_eq_false_2 in Hq by done. cbn [mbind result_bind].
  destruct (deref_ok w p l I Hn) as [wk Hwk]. unfold deref. rewrite Hwk. cbn [mbind result_bind].
  unfold index_set. destruct (_ && _); [|done]. cbn [mbind result_bind]. intros <-%Ret_inj.
  set (p1 := set_workers _ _). pose proof (core_Signal p1) as Hc.
  split; [|by rewrite (sc_waiting _ _ Hc), (sc_tickets _ _ Hc)]. eapply inv_core; [done|].
  subst p1. destruct I. constructor; cbn; try done.
  - intros v [?| ->%list_elem_of_singleton]%elem_of_app; auto.
  - intros v Hv. destruct (inv_starting0 v Hv). split; [|done]. set_solver.
  - intros v [[?| ->%list_elem_of_singleton]%elem_of_app|[?|[?|[->|?]%insert_sub]]]; auto.
  - intros v Hv. destruct (inv_out0 v Hv) as (? & ? & ?). split; [set_solver|done].
Qed.

Lemma attach_ok w ns p l p' : inv p l → w ∈ starting p → attach w ns p = Ret p' →
  ∃ l', inv p' l' ∧ (∃ wk, objs p !! w = Some wk ∧ l' = match control_message ns wk with Some _ => l ++ [w] | None => l end) ∧
    waiting p' = waiting p ∧ checkoutTickets p' = checkoutTickets p.
Proof.
  intros I Hs. unfold attach. destruct (inv_starting _ _ I w Hs) as [Hl Ht].
  assert (Hn : (w < next p)%nat) by (apply (inv_known _ _ I); auto).
  destruct (deref_ok w p l I Hn) as [wk Hwk]. unfold deref at 1. rewrite Hwk. cbn [mbind result_bind].
  set (p1 := set_starting _ p).
  assert (I1 : inv p1 l).
  { subst p1. destruct I. constructor; cbn; try done.
    - intros v Hv. apply inv_starting0. set_solver.
    - intros v Hv. apply inv_known0. set_solver.
    - intros v Hv. destruct (inv_out0 v Hv) as (? & ? & ?). split_and!; [done|set_solver|done]. }
  assert (HX : w ∉ X) by (intros Hin; by destruct (inv_out _ _ I w Hin) as (_ & ? & _)).
  destruct (control_message ns wk) as [wk'|] eqn:Ec; [|intros <-%Ret_inj; exists l; split; [by destruct I1; constructor|]; split; [exists wk; by rewrite Ec|done]].
  set (p2 := setState wsAcpt w _).
  assert (Hc : same_core p1 p2) by (subst p2; etransitivity; [apply core_update|apply core_setState]).
  pose proof (inv_core _ _ _ Hc I1) as I2. clearbody p2. destruct Hc.
  intros (p3 & E & H)%bind_Ret. apply Ret_inj in H as <-.
  destruct (WorkerReady_ok w p2 l p3 I2) as (I3 & Hw3 & Ht3); try done; try (by rewrite ?sc_tickets0, ?sc_next0).
  { rewrite sc_starting0. cbn. set_solver. }
  exists (l ++ [w]). cbn. rewrite Hw3, Ht3, sc_waiting0, sc_tickets0.
  split; [|split; [exists wk; by rewrite Ec|done]].
  pose proof (inv_core _ _ _ (core_update (λ wk, set_channels (Some []) (ctrlCh wk) wk) w p3) I3) as I4.
  by destruct I4; constructor.
Qed.

(** *** Recycling *)

Lemma rac_loop_ok e inst tm dl n i p l p' : inv p l → rac_loop e inst tm dl n i p = Ret p' → same_core p p'.
Proof.
  revert i p. induction n as [|n IH]; intros i p I; cbn [rac_loop]; [by intros <-%Ret_inj|].
  intros (p1 & E & H)%bind_Ret.
  assert (Hc : same_core p p1).
  { revert E. unfold rac_one. intros (slot & _ & E)%bind_Ret. destruct slot as [w|]; [|by apply Ret_inj in E as <-].
    apply bind_Ret in E as (wk & _ & E). revert E. destruct (_ && _); intros <-%Ret_inj; [apply core_update|done]. }
  transitivity p1; [done|]. eapply IH; [by eapply inv_core|done].
Qed.

Lemma lifespan_one_ok e due cutoff i p l p' : inv p l → lifespan_one e due cutoff i p = Ret p' →
  ∃ l', inv p' l' ∧ (∀ v, v ∈ l' → v ∈ l) ∧ waiting p' = waiting p ∧ checkoutTickets p' = checkoutTickets p.
Proof.
  intros I. unfold lifespan_one. intros (slot & _ & E)%bind_Ret.
  destruct slot as [w|]; [|apply Ret_inj in E as <-; by exists l].
  apply bind_Ret in E as (wk & _ & E). revert E. destruct (_ && _); [intros E|intros <-%Ret_inj; by exists l].
  destruct (qrep_remove _ _ w (inv_queue _ _ I)) as (q' & Eq & Hq). rewrite Eq in E. cbn [mbind result_bind] in E.
  pose proof (inv_remove _ _ _ _ I Hq) as I1. exists (filter (.≠ w) l).
  assert (Hk : inv (terminate w (update (set_exitTime 0) w (set_activeQ q' p))) (filter (.≠ w) l)).
  { pose proof (inv_core _ _ _ (core_update (set_exitTime 0) w (set_activeQ q' p)) I1) as I2. by destruct I2; constructor. }
  assert (Hf : ∀ v, v ∈ filter (.≠ w) l → v ∈ l) by (by intros v [_ ?]%list_elem_of_filter).
  revert E. case_bool_decide; [by intros <-%Ret_inj|]. destruct (_ && _); by intros <-%Ret_inj.
Qed.

Lemma lifespan_loop_ok e due cutoff n i p l p' : inv p l → lifespan_loop e due cutoff n i p = Ret p' →
  ∃ l', inv p' l' ∧ (∀ v, v ∈ l' → v ∈ l) ∧ waiting p' = waiting p ∧ checkoutTickets p' = checkoutTickets p.
Proof.
  revert i p l. induction n as [|n IH]; intros i p l I; cbn [lifespan_loop]; [intros <-%Ret_inj; by exists l|].
  intros (p1 & E & H)%bind_Ret. destruct (lifespan_one_ok _ _ _ _ _ _ _ I E) as (l1 & I1 & Hl & Hw & Ht).
  destruct (IH _ _ _ I1 H) as (l2 & I2 & Hl2 & Hw2 & Ht2). exists l2. split; [done|]. split; [auto|]. split; congruence.
Qed.

Lemma saturation_ok swcnt nowms now order p l : inv p l →
  let '(h, m, _) := saturation_recovery app ops wtype shardID (backlogCnt p) swcnt nowms now order (objs p) (aqmanager p) in
  same_core p (set_aqmanager m (set_objs h p)).
Proof.
  intros I. unfold saturation_recovery. destruct (shouldRecover _ _ _ _ _ _); [|done].
  unfold getWorkerToRecover. destruct (oldest_loop _ _ _ _ _ _) as [t [w|]]; [|done].
  constructor; try done. intros v. cbn. by rewrite !alter_is_Some.
Qed.

(** *** All steps *)

(** No worker that is out is returned by the step. *)
Definition spares (o : op) (p : WorkerPool Q) : Prop :=
  match o with
  | OpReturn _ (Some w) ticket => checkoutTickets p !! w = Some ticket → w ∉ X
  | _ => True
  end.

(** Whether a return is taken: the worker is checked out under the ticket, and no recovery
    has it. *)
Definition accepted (w : wref) (ticket : bytes) (p : WorkerPool Q) : bool :=
  bool_decide (checkoutTickets p !! w = Some ticket) && negb (status_of p w =? wsQuce).

(** What a step does to the free workers and to the tickets. *)
Definition effect (o : op) (p : WorkerPool Q) (l : list wref) (p' : WorkerPool Q) (l' : list wref) (out : outcome) : Prop :=
  match out, o with
  | Got w tk, _ => obtained p p' l w tk ∧ (w ∉ l') ∧ (∀ v, v ∈ l' → v ∈ l)
  | _, OpReturn _ (Some w) tk =>
    if accepted w tk p then checkoutTickets p' = delete w (checkoutTickets p) ∧ (l' ≡ₚ w :: l ∨ l' = l) else p' = p ∧ l' = l
  | _, OpExit _ w _ => checkoutTickets p' = delete w (checkoutTickets p) ∧ l' = filter (.≠ w) l
  | _, OpAttach w _ => checkoutTickets p' = checkoutTickets p ∧ ∀ v, v ∈ l' → v ∈ l ∨ (v = w ∧ w ∈ starting p)
  | _, _ => checkoutTickets p' = checkoutTickets p ∧ ∀ v, v ∈ l' → v ∈ l
  end.

(** A step with its effect: the invariant holds after it, with one more waiting call at most. *)
Definition advances (o : op) (p : WorkerPool Q) (l : list wref) (p' : WorkerPool Q) (out : outcome) : Prop :=
  ∃ l', inv p' l' ∧ (size (waiting p') <= S (size (waiting p)))%nat ∧ effect o p l p' l' out.

Lemma advances_quiet o p l p' l' : inv p' l' → waiting p' = waiting p → effect o p l p' l' Nothing → advances o p l p' Nothing.
Proof. intros ? Hw ?. exists l'. rewrite Hw. split_and!; [done|lia|done]. Qed.

Lemma advances_same o p l p' : (match o with OpReturn _ (Some _) _ | OpExit _ _ _ => False | _ => True end) → inv p l → same_core p p' →
  advances o p l p' Nothing.
Proof.
  intros Hk I Hc. apply (advances_quiet _ _ _ _ l); [by eapply inv_core|apply Hc|].
  destruct o as [| | | | | |? [?|] ?| | | | | |]; try done; (split; [apply Hc|auto]).
Qed.

Lemma step_attach w ns p l p' out : inv p l → step (OpAttach w ns) p = Ret (p', out) → advances (OpAttach w ns) p l p' out.
Proof.
  intros I. cbn [step]. unfold quiet. case_bool_decide as Hs; [|intros [= <- <-]%Ret_inj; by apply advances_same].
  intros (p1 & E & [= <- <-]%Ret_inj)%bind_Ret. destruct (attach_ok _ _ _ _ _ I Hs E) as (l' & I' & Hl & Hw & Ht).
  apply (advances_quiet _ _ _ _ l'); [done|done|]. split; [done|]. destruct Hl as (wk & _ & ->). intros v Hv.
  destruct (control_message ns wk); [apply elem_of_app in Hv as [?| ->%list_elem_of_singleton]|]; auto.
Qed.

Lemma step_get e id t sqlhash timeoutMs p l p' out : inv p l → Z.of_nat (size (waiting p)) + 1 < 2 ^ 31 →
  step (OpGet e id t sqlhash timeoutMs) p = Ret (p', out) → advances (OpGet e id t sqlhash timeoutMs) p l p' out.
Proof.
  intros I Hb. cbn [step]. destruct (bool_decide (is_Some _)) eqn:Ew; [intros [= <- <-]%Ret_inj; by apply advances_same|]. cbn [orb].
  apply bool_decide_eq_false, eq_None_not_Some in Ew.
  destruct (_ || _); [intros [= <- <-]%Ret_inj; by apply advances_same|].
  destruct (GetWorker_ok e id t sqlhash timeoutMs p l I Ew Hb) as (p1 & o1 & l1 & -> & I1 & [Hl Hk] & Hs & Ho).
  intros [= <- <-]%Ret_inj. exists l1. split_and!; [done|done|]. assert (Hsub := λ v, left_over_sub _ _ _ v Hl).
  destruct o1; cbn [effect]; [by split; eauto|destruct Ho; split_and!; eauto|by split; eauto|by split; eauto].
Qed.

Lemma step_wakeup e id t p l p' out : inv p l → Z.of_nat (size (waiting p)) + 1 < 2 ^ 31 →
  step (OpWake e id t) p = Ret (p', out) → advances (OpWake e id t) p l p' out.
Proof.
  intros I Hb. cbn [step]. case_bool_decide; [|intros [= <- <-]%Ret_inj; by apply advances_same]. cbn [waiting set_woken].
  assert (I0 : inv (set_woken (filter (.≠ id) (woken p)) p) l) by (by destruct I; constructor).
  destruct (waiting p !! id) as [wt|] eqn:Ew; [|intros [= <- <-]%Ret_inj; apply (advances_quiet _ _ _ _ l); [done|done|by split; auto]].
  destruct (wakeup_ok e id t wt _ l I0 Ew) as (p1 & o1 & l1 & -> & I1 & [Hl Hk] & Hs & Ho); [cbn; lia|].
  intros [= <- <-]%Ret_inj. exists l1. cbn in Hs. split_and!; [done|lia|].
  assert (Hsub := λ v, left_over_sub _ _ _ v Hl).
  destruct o1; cbn [effect]; [by split; eauto|destruct Ho; split_and!; eauto|by split; eauto|by split; eauto].
Qed.

(** A worker that is looked at exists. *)
Lemma deref_next w p l wk : inv p l → deref w p = Ret wk → (w < next p)%nat.
Proof. intros I E. apply (inv_alloc _ _ I). unfold deref in E. by destruct (objs p !! w). Qed.

Lemma step_return e w ticket p l p' out : inv p l → spares (OpReturn e w ticket) p →
  step (OpReturn e w ticket) p = Ret (p', out) → advances (OpReturn e w ticket) p l p' out.
Proof.
  intros I HX. cbn [step]. destruct w as [w|]; [|intros [= <- <-]%Ret_inj; by apply advances_same].
  destruct (decide (w < next p)%nat) as [Hn|Hn].
  - destruct (ReturnWorker_ok e w ticket p l I Hn HX) as (p1 & o1 & l1 & E & I1 & Hw & _ & Hr).
    rewrite E. intros [= <- <-]%Ret_inj. exists l1. split_and!; [done|rewrite Hw; lia|]. fold (accepted w ticket p) in Hr.
    destruct o1 as [|w' tk'| |e']; cbn [effect]; destruct (accepted w ticket p); try (by destruct Hr as (? & ? & ?)); by destruct Hr as [? _].
  - cbn [ReturnWorker]. intros (wk & E & _)%bind_Ret. by destruct Hn; eapply deref_next.
Qed.

Lemma step_exit e w started p l p' out : inv p l → step (OpExit e w started) p = Ret (p', out) → advances (OpExit e w started) p l p' out.
Proof.
  intros I. cbn [step]. unfold quiet. intros (p1 & E & [= <- <-]%Ret_inj)%bind_Ret. destruct (decide (w < next p)%nat) as [Hn|Hn].
  - destruct (RestartWorker_ok e w started p l I Hn) as (p2 & E2 & I2 & Hw & Ht). rewrite E2 in E.
    apply Ret_inj in E as <-. by apply (advances_quiet _ _ _ _ (filter (.≠ w) l)).
  - unfold RestartWorker in E. apply bind_Ret in E as (wk & E & _). by destruct Hn; eapply deref_next.
Qed.

Lemma step_effect o p l p' out : inv p l → spares o p → Z.of_nat (size (waiting p)) + 1 < 2 ^ 31 → step o p = Ret (p', out) →
  advances o p l p' out.
Proof.
  intros I HX Hb. destruct o; eauto using step_attach, step_get, step_wakeup, step_return, step_exit; cbn [step]; unfold quiet.
  - case_bool_decide; intros [= <- <-]%Ret_inj; [|by apply advances_same]. apply advances_same; [done|done|apply core_update].
  - case_bool_decide; intros [= <- <-]%Ret_inj; [|by apply advances_same]. apply (advances_quiet _ _ _ _ l); [by destruct I; constructor|done|by split].
  - destruct (waiting p !! id) as [wt|] eqn:Ew; [|intros [= <- <-]%Ret_inj; by apply advances_same].
    pose proof (timeout_ok e id wt p l I Ew) as H. unfold backlog_timeout in *.
    intros [= <- <-]%Ret_inj. destruct H as (I1 & Hs & Ht). exists l. split_and!; [done|lia|]. by split.
  - destruct (Resize_ok e newSize started p l I) as (p1 & l1 & -> & I1 & Hl & Hw & Ht). cbn [mbind result_bind].
    intros [= <- <-]%Ret_inj. apply (advances_quiet _ _ _ _ l1); [done|done|by split; auto].
  - intros (p1 & E & [= <- <-]%Ret_inj)%bind_Ret. apply advances_same; [done|done|by eapply rac_loop_ok].
  - intros ([p1 x] & E & [= <- <-]%Ret_inj)%bind_Ret. unfold checkWorkerLifespan in E.
    destruct (if skipcnt <? 90 then _ else _) as [sk ct].
    apply bind_Ret in E as (p2 & E & [= <- <-]%Ret_inj). destruct (lifespan_loop_ok _ _ _ _ _ _ _ _ I E) as (l1 & I1 & Hl & Hw & Ht).
    apply (advances_quiet _ _ _ _ l1); [done|done|by split; auto].
  - intros [= <- <-]%Ret_inj. apply advances_same; [done|done|apply core_setState].
  - pose proof (saturation_ok swcnt (u32 (mux_ms e)) (now_ms e) order p l I) as Hc.
    destruct (saturation_recovery _ _ _ _ _ _ _ _ _ _ _) as [[h m] x]. intros [= <- <-]%Ret_inj. by apply advances_same.
Qed.

Lemma step_ok o p l p' out : inv p l → spares o p → Z.of_nat (size (waiting p)) + 1 < 2 ^ 31 → step o p = Ret (p', out) →
  ∃ l', inv p' l' ∧ (size (waiting p') <= S (size (waiting p)))%nat.
Proof. intros I HX Hb E. destruct (step_effect o p l p' out I HX Hb E) as (l' & I' & Hs & _). eauto. Qed.

(** A worker that a step gives out was not out, and is checked out. *)
Lemma step_gives o p l p' w tk : inv p l → Z.of_nat (size (waiting p)) + 1 < 2 ^ 31 → step o p = Ret (p', Got w tk) →
  (w ∉ X) ∧ checkoutTickets p' !! w = Some tk.
Proof.
  intros I Hb.
  assert (Ho : ∀ p0 p1, obtained p0 p1 l w tk → (w ∉ X) ∧ checkoutTickets p1 !! w = Some tk).
  { intros p0 p1 ((i & Hi & _) & _ & _ & _ & Et). split; [|rewrite Et; apply lookup_insert_eq].
    intros Hin. destruct (inv_out _ _ I w Hin) as (Hl & _). apply Hl. by eapply list_elem_of_lookup_2. }
  destruct o; cbn [step]; unfold quiet; try (by repeat (case_match || intros ([? ?] & _ & [=]%Ret_inj)%bind_Ret || intros (? & _ & [=]%Ret_inj)%bind_Ret || intros [=])).
  - destruct (bool_decide (is_Some _)) eqn:Ew; [done|]. cbn [orb].
    apply bool_decide_eq_false, eq_None_not_Some in Ew. destruct (_ || _); [done|].
    destruct (GetWorker_ok e id t sqlhash timeoutMs p l I Ew Hb) as (p1 & o1 & l1 & -> & _ & _ & _ & H).
    intros [= -> ->]%Ret_inj. destruct H as [H _]. by eapply Ho.
  - case_bool_decide as Hwk; [|done]. cbn [waiting set_woken].
    assert (I0 : inv (set_woken (filter (.≠ id) (woken p)) p) l) by (by destruct I; constructor).
    destruct (waiting p !! id) as [wt|] eqn:Ew; [|done].
    destruct (wakeup_ok e id t wt _ l I0 Ew) as (p1 & o1 & l1 & -> & _ & _ & _ & H); [cbn; lia|].
    intros [= -> ->]%Ret_inj. destruct H as [H _]. by eapply Ho.
  - unfold ReturnWorker. destruct w0 as [v|]; [|done]. intros (wk & _ & H)%bind_Ret. revert H.
    repeat (case_match; [done|]). by intros (? & _ & [=]%Ret_inj)%bind_Ret.
Qed.
End out.

Lemma inv_sub_out X Y p l : inv X p l → Y ⊆ X → inv Y p l.
Proof. intros [] HY. constructor; auto. Qed.

Lemma inv_more_out X p l w tk : inv X p l → checkoutTickets p !! w = Some tk → inv ({[w]} ∪ X) p l.
Proof.
  intros I Ht. pose proof (inv_free _ _ _ I w) as H1. pose proof (inv_starting _ _ _ I w) as H2.
  pose proof (inv_known _ _ _ I w (or_intror (or_introl (mk_is_Some _ _ Ht)))) as H3.
  destruct I. constructor; auto. intros v [->%elem_of_singleton|Hv]%elem_of_union; [|auto].
  split_and!; [intros Hin; specialize (H1 Hin)|intros Hin; destruct (H2 Hin)|]; congruence || done.
Qed.

Lemma init_loop_ok e n i started p l : inv ∅ p l →
  inv ∅ (fst (init_loop e n i started p)) l ∧ waiting (fst (init_loop e n i started p)) = waiting p.
Proof.
  revert i started p. induction n as [|n IH]; intros i started p I; [done|]. cbn [init_loop].
  destruct (spawnWorker_ok ∅ e i (default false (head started)) p l I) as (I1 & Hw & _).
  destruct (spawnWorker _ _ _ _) as [p1 []]; [|done]. cbn in I1, Hw.
  destruct (IH (i + 1) (tail started) (set_currentSize (currentSize p1 + 1) p1)) as (I2 & Hw2).
  - by destruct I1; constructor.
  - split; [done|]. by rewrite Hw2.
Qed.

Lemma Init_ok e size started p ok : Init e size started = Ret (p, ok) → inv ∅ p [] ∧ waiting p = ∅.
Proof.
  assert (I0 : inv ∅ (empty_pool e size) []).
  { constructor; cbn; try done; try (intros; set_solver).
    - apply qrep_new.
    - intros w. split; [by intros [? ?]|lia].
    - intros w [?|[[? ?]|[?|[? _]%elem_of_replicate]]]; [set_solver|done|set_solver|done]. }
  destruct (init_loop_ok e (Z.to_nat size) 0 started _ _ I0) as (I1 & Hw).
  unfold Init. destruct (_ <? _); [done|]. intros H%Ret_inj. by rewrite H in I1, Hw.
Qed.

Lemma pool_run_ok os p l : inv ∅ p l → Z.of_nat (size (waiting p)) + Z.of_nat (length os) < 2 ^ 31 →
  ∀ p', run os p = Ret p' → ∃ l', inv ∅ p' l'.
Proof.
  revert p l. induction os as [|o os IH]; intros p l I Hb p'; cbn [run].
  { intros <-%Ret_inj. by exists l. }
  intros ([p1 out] & E & H)%bind_Ret. cbn [length] in Hb.
  destruct (step_ok ∅ o p l p1 out I) as (l1 & I1 & Hs); [by destruct o as [| | | | | |? [w|] ?| | | | | |]|lia|done|]. eapply IH; [done|lia|done].
Qed.

(** C5: Whatever the interleaving of clients, returns, time-outs, wake-ups, worker starts
    and exits, resizes, recycling and recovery, a pool that has not crashed has: a queue
    of distinct free workers none of which is checked out; the same checked-out workers
    in both of its maps, under distinct tickets; and a backlog counter equal to the
    number of calls that wait. *)
Theorem pool_invariant e n started p0 os p :
  Init e n started = Ret (p0, true) → Z.of_nat (length os) < 2 ^ 31 → run os p0 = Ret p →
  ∃ l, qrep (activeQ p) l ∧ NoDup l ∧ (∀ w, w ∈ l → checkoutTickets p !! w = None) ∧
    dispatchedWorkers (aqmanager p) = checkoutTickets p ∧
    (∀ w1 w2 t, checkoutTickets p !! w1 = Some t → checkoutTickets p !! w2 = Some t → w1 = w2) ∧
    backlogCnt p = Z.of_nat (size (waiting p)).
Proof.
  intros Hi Hl Hr. destruct (Init_ok e n started p0 true Hi) as [I0 Hw].
  destruct (pool_run_ok os p0 [] I0) with (p' := p) as [l I]; [by rewrite Hw, map_size_empty|done|].
  exists l. destruct I. split_and!; try done. by eapply qrep_NoDup.
Qed.

(** C7: A call of [GetWorker] never panics or hangs. It hands out the first free worker in
    queue order that has finished starting, checked out by nobody, under a ticket
    nobody holds; it waits only when no free worker is ready; and on an error nothing
    is checked out. *)
Theorem GetWorker_exclusive e id t sqlhash timeoutMs p l :
  inv ∅ p l → waiting p !! id = None → Z.of_nat (size (waiting p)) + 1 < 2 ^ 31 →
  ∃ p' out l', GetWorker e id t sqlhash timeoutMs p = Ret (p', out) ∧ inv ∅ p' l' ∧
    match out with
    | Got w tk => obtained p p' l w tk ∧ (w ∉ l')
    | Waits => Forall (λ v, ready (objs p) v = false) l ∧ l' = l ∧ is_Some (waiting p' !! id)
    | Failed _ => checkoutTickets p' = checkoutTickets p ∧ waiting p' = waiting p
    | Nothing => False
    end.
Proof.
  intros I Hid Hb. destruct (GetWorker_ok ∅ e id t sqlhash timeoutMs p l I Hid Hb) as (p' & out & l' & E & I' & _ & _ & H).
  by exists p', out, l'.
Qed.

(** C8: A worker is returned once, and only with its ticket: any other ticket leaves the
    pool as it is; the right one checks the worker in, to the free queue or to
    termination; and the same ticket does nothing afterwards. *)
Theorem ReturnWorker_once e w tk p l :
  inv ∅ p l → checkoutTickets p !! w = Some tk → status_of p w ≠ wsQuce →
  (∀ tk', tk' ≠ tk → ∃ err, ReturnWorker e (Some w) tk' p = Ret (p, Failed err)) ∧
  ∃ p' l', ReturnWorker e (Some w) tk p = Ret (p', Nothing) ∧ inv ∅ p' l' ∧
    checkoutTickets p' = delete w (checkoutTickets p) ∧ (l' ≡ₚ w :: l ∨ l' = l) ∧
    ∀ e', ∃ out, ReturnWorker e' (Some w) tk p' = Ret (p', out).
Proof.
  intros I Ht Hst. assert (Hn : (w < next p)%nat) by (apply (inv_known _ _ _ I); right; left; by exists tk).
  split.
  - intros tk' Hne. unfold ReturnWorker. destruct (deref_ok ∅ w p l I Hn) as [wk Hwk].
    unfold deref. rewrite Hwk. cbn [mbind result_bind]. unfold status_of in Hst. rewrite Hwk in Hst.
    rewrite (proj2 (Z.eqb_neq _ _) Hst), Ht. cbn [default].
    destruct tk' as [|b tk']; [by eexists|]. cbn [length Nat.eqb orb].
    rewrite bool_decide_eq_false_2 by (cbn; congruence). by eexists.
  - destruct (ReturnWorker_ok ∅ e w tk p l I Hn) as (p' & out & l' & E & I' & _ & Hn' & H); [done|].
    rewrite bool_decide_eq_true_2, (proj2 (Z.eqb_neq _ _) Hst) in H by done. cbn in H. destruct H as (-> & Ht' & Hl).
    exists p', l'. split_and!; try done. intros e'. rewrite <- Hn' in Hn.
    destruct (ReturnWorker_ok ∅ e' w tk p' l' I' Hn) as (p2 & out & l2 & E2 & _ & _ & _ & H2); [done|].
    rewrite Ht', lookup_delete_eq in H2. rewrite bool_decide_eq_false_2 in H2 by done. cbn in H2. destruct H2 as (-> & _). by exists out.
Qed.

End pool.

(** ** On the ring buffer *)

Definition ex_app : Config := gAppConfig blank_globals.
Definition ex_cfg : OpsConfig := mkOpsConfig 0 4 0 0 0 0 200 0.
Definition ex_env : env := mkEnv 1000 1 1000 (λ _, 0).
Definition ex_control : Packet := mkPacket CmdControlMsg [] [] 0 0 false.
Definition ring_run := run (Q := RingQueue.ringQueue (A := nat)) ex_app ex_cfg wtypeRW 0.

(** A pool whose workers all start. *)
Definition ex_init (n : Z) : WorkerPool RingQueue.ringQueue :=
  match Init ex_app ex_cfg ex_env n (replicate (Z.to_nat n) true) with
  | Ret (p, _) => p
  | _ => empty_pool ex_app ex_env n
  end.

(** A pool of four workers shrunk to one and grown to three while a restarted worker
    is still starting: its number is beyond the new list of workers, and the message
    that it is ready crashes the proxy. *)
Theorem resize_while_starting_panics :
  match ring_run
    [OpAttach 0 ex_control; OpAttach 1 ex_control; OpAttach 2 ex_control; OpAttach 3 ex_control;
     OpExit ex_env 3 true; OpResize ex_env 1 []; OpExit ex_env 1 true; OpExit ex_env 2 true;
     OpResize ex_env 3 [true]] (ex_init 4) with
  | Ret p => bool_decide (4%nat ∈ starting p) = true ∧ step ex_app ex_cfg wtypeRW 0 (OpAttach 4 ex_control) p = Panic
  | _ => False
  end.
Proof. vm_compute. split; reflexivity. Qed.

Definition example_ops1 : list op := [OpAttach 1 ex_control; OpAttach 0 ex_control].
Definition example_ops2 : list op := [OpAttach 1 ex_control; OpAttach 0 ex_control; OpGet ex_env 9 77 5 None].

Definition example_pool (os : list op) : WorkerPool RingQueue.ringQueue :=
  match ring_run os (ex_init 2) with
  | Ret p => p
  | _ => ex_init 2
  end.

Lemma pool_invariant_witness : ∃ l,
  RingQueue.rep (activeQ (example_pool example_ops2)) l ∧
  backlogCnt (example_pool example_ops2) = Z.of_nat (size (waiting (example_pool example_ops2))).
Proof.
  destruct (pool_invariant ex_app ex_cfg wtypeRW 0 (qrep := RingQueue.rep) ex_env 2 [true; true] (ex_init 2) example_ops2 (example_pool example_ops2))
    as (l & H1 & _ & _ & _ & _ & H2).
  - vm_compute. reflexivity.
  - vm_compute. reflexivity.
  - vm_compute. reflexivity.
  - exists l. split; [exact H1|exact H2].
Defined.

Lemma example_inv os : Z.of_nat (length os) < 2 ^ 31 → ring_run os (ex_init 2) = Ret (example_pool os) →
  ∃ l, inv (qrep := RingQueue.rep) ∅ (example_pool os) l.
Proof.
  intros Hl Hr. destruct (Init_ok ex_app ex_cfg (qrep := RingQueue.rep) ex_env 2 [true; true] (ex_init 2) true) as [I0 Hw]; [vm_compute; reflexivity|].
  refine (pool_run_ok ex_app ex_cfg wtypeRW 0 os _ [] I0 _ _ Hr). rewrite Hw, map_size_empty. lia.
Qed.

Lemma GetWorker_exclusive_witness : ∃ p' tk,
  GetWorker ex_app ex_env 9 77 5 None (example_pool example_ops1) = Ret (p', Got 1 tk) ∧
  checkoutTickets (example_pool example_ops1) !! 1%nat = None.
Proof.
  destruct (example_inv example_ops1) as [l I]; [vm_compute; reflexivity|vm_compute; reflexivity|].
  destruct (GetWorker_exclusive ex_app (qrep := RingQueue.rep) ex_env 9 77 5 None (example_pool example_ops1) l I)
    as (p' & out & l' & E & _ & H).
  - vm_compute. reflexivity.
  - vm_compute. reflexivity.
  - assert (Eo : match GetWorker ex_app ex_env 9 77 5 None (example_pool example_ops1) with
                 | Ret (_, Got w _) => w = 1%nat | _ => False end) by (vm_compute; reflexivity).
    rewrite E in Eo. destruct out as [|w tk| |]; try contradiction Eo. rewrite Eo in *.
    exists p', tk. split; [exact E|]. apply H.
Defined.

Lemma ReturnWorker_once_witness : ∃ p',
  ReturnWorker ex_app ex_cfg ex_env (Some 1%nat) (str "77") (example_pool example_ops2) = Ret (p', Nothing) ∧
  checkoutTickets p' !! 1%nat = None.
Proof.
  destruct (example_inv example_ops2) as [l I]; [vm_compute; reflexivity|vm_compute; reflexivity|].
  destruct (ReturnWorker_once ex_app ex_cfg (qrep := RingQueue.rep) ex_env 1 (str "77") (example_pool example_ops2) l I)
    as (_ & p' & l' & E & _ & Ht & _).
  - vm_compute. reflexivity.
  - vm_compute. congruence.
  - exists p'. split; [exact E|]. rewrite Ht. apply lookup_delete_eq.
Defined.

End WorkerPool.
