(* ===== verification/StateLog.v ===== *)
(** * The state log (lib/statelog.go) and the shape of the worker pools
    (lib/workerbroker.go): the counters of worker and connection states the proxy decides
    with whether it takes another connection.

    The events are applied by one goroutine in the order of its channel, so the state is
    passed through [process_event]; the report it prints is in
    [StateReport]. *)

From S2P Require Import Prelude Codes Config WorkerClient AdaptiveQueue WorkerPool.
From stdpp Require Import base list strings.
From Stdlib Require Import ZArith Lia.
Open Scope Z_scope.

Module StateLog.
Import Codes Config WorkerClient WorkerPool.

(** ** State *)

Record WorkerStateInfo := mkInfo { ws_state : Z; ws_req : Z; ws_resp : Z }.

(** [[shard][type][instance]] *)
Abbreviation grid A := (list (list (list A))).

Record StateLog := mkLog {
  mWorkerStates : grid (list WorkerStateInfo);
  mConnStates : grid (list Z);
  maxShardSize : Z;
  maxStndbySize : Z
}.

Definition wnum (t : HeraWorkerType) : Z := match t with wtypeRW => 0 | wtypeRO => 1 | wtypeStdBy => 2 end.
Definition wtypes : list HeraWorkerType := [wtypeRW; wtypeRO; wtypeStdBy].
Definition cnum (c : ConnState) : nat :=
  match c with Assign => 0 | Idle => 1 | Backlog => 2 | Stranded => 3 | Close => 4 end%nat.
Definition MaxConnState : nat := 5.
Definition MaxWorkerState : Z := 7.

Definition insts {A} (g : grid A) (s : Z) (t : HeraWorkerType) : result (list A) :=
  sh ← index_get g s; index_get sh (wnum t).

Definition cell {A} (g : grid A) (s : Z) (t : HeraWorkerType) (n : Z) : result A :=
  ty ← insts g s t; index_get ty n.

Definition alter_cell {A} (f : A → A) (s : Z) (t : HeraWorkerType) (n : Z) (g : grid A) : grid A :=
  alter (alter (alter f (Z.to_nat n)) (Z.to_nat (wnum t))) (Z.to_nat s) g.

(** [for i := i; i < i+n; i++ { st = body(i, st) }] *)
Fixpoint for_range {St : Type} (n : nat) (i : Z) (body : Z → St → result St) (st : St) : result St :=
  match n with
  | O => Ret st
  | S n => st ← body i st; for_range n (i + 1) body st
  end.

(** ** The pools *)

(** The number of workers of each instance and the number of instances. *)
Record WorkerPoolCfg := mkPoolCfg { maxWorkerCnt : Z; instCnt : Z }.

Definition shard_count (app : Config) : Z :=
  let n := NumOfShards (Sharding app) in
  if (n =? 0) || negb (EnableSharding app) then 1 else n.

(** The configuration [WorkerBroker.init] gives each pool. *)
Definition pool_cfg (app : Config) (ops : OpsConfig) (s : Z) (t : HeraWorkerType) : WorkerPoolCfg :=
  match t with
  | wtypeRO => let n := GetNumRWorkers app ops s in mkPoolCfg n (if 0 <? n then 1 else 0)
  | wtypeRW => mkPoolCfg (GetNumWWorkers app ops s) 1
  | wtypeStdBy => if EnableTAF app then mkPoolCfg (GetNumWWorkers app ops s) 1 else mkPoolCfg 0 0
  end.

(** [StateLog.init] without the file and the titles of the report. *)
Definition standby_size (app : Config) : Z :=
  if 10 <? NumStdbyDbs app then 10 else if NumStdbyDbs app =? 0 then 1 else NumStdbyDbs app.

Definition init_grid {A} (app : Config) (ops : OpsConfig) (f : WorkerPoolCfg → A) : grid A :=
  map (λ s, map (λ t, let cfg := pool_cfg app ops (Z.of_nat s) t in replicate (Z.to_nat (instCnt cfg)) (f cfg)) wtypes)
    (seq 0 (Z.to_nat (shard_count app))).

Definition StateLog_init (app : Config) (ops : OpsConfig) : StateLog :=
  mkLog (init_grid app ops (λ cfg, replicate (Z.to_nat (maxWorkerCnt cfg)) (mkInfo wsInit 0 0)))
    (init_grid app ops (λ _, replicate MaxConnState 0))
    (shard_count app) (standby_size app).

(** ** Events *)

Definition bump (d : Z) (c : ConnState) (counts : list Z) : list Z := alter (λ x, i64 (x + d)) (cnum c) counts.

Definition shared (c : ConnState) : bool := bool_decide (c = Idle) || bool_decide (c = Assign).

(** A counter of a connection state changes: of every instance for the shared states, of
    the one instance for the others. *)
Definition count_state (d : Z) (c : ConnState) (s : Z) (t : HeraWorkerType) (n : Z) (g : grid (list Z)) : grid (list Z) :=
  if shared c then map (map (map (bump d c))) g else alter_cell (bump d c) s t n g.

Definition updateConnectionState (s : Z) (t : HeraWorkerType) (n : Z) (old new : ConnState) (sl : StateLog) : result StateLog :=
  if bool_decide (new = old) || (maxShardSize sl <=? s) || (maxStndbySize sl <=? n) then Ret sl
  else
    _ ← cell (mConnStates sl) s t n;
    let g := count_state (-1) old s t n (count_state 1 new s t n (mConnStates sl)) in
    Ret (mkLog (mWorkerStates sl) g (maxShardSize sl) (maxStndbySize sl)).

Definition set_info (newState : Z) (w : WorkerStateInfo) : WorkerStateInfo :=
  mkInfo newState
    (if newState =? wsBusy then i64 (ws_req w + 1) else ws_req w)
    (if ws_state w =? wsBusy then i64 (ws_resp w + 1) else ws_resp w).

Definition setWorkerState (s : Z) (t : HeraWorkerType) (n workerID newState : Z) (sl : StateLog) : result StateLog :=
  if (newState <? 0) || (MaxWorkerState <=? newState) then Ret sl
  else
    ws ← cell (mWorkerStates sl) s t n;
    if zlen ws <=? workerID then Ret sl
    else
      w ← index_get ws workerID;
      ws ← index_set ws workerID (set_info newState w);
      Ret (mkLog (alter_cell (λ _, ws) s t n (mWorkerStates sl)) (mConnStates sl) (maxShardSize sl) (maxStndbySize sl)).

(** [resizeWorkers]; the lists of a pool that exists are not nil. *)
Definition resizeWorkers (s : Z) (t : HeraWorkerType) (n newSize : Z) (sl : StateLog) : result StateLog :=
  ws ← cell (mWorkerStates sl) s t n;
  _ ← cell (mConnStates sl) s t n;
  if zlen ws =? newSize then Ret sl
  else
    ws ← (if zlen ws <? newSize then Ret (ws ++ replicate (Z.to_nat newSize - length ws) (mkInfo wsInit 0 0))
          else if newSize <? 0 then Panic else Ret (take (Z.to_nat newSize) ws));
    Ret (mkLog (alter_cell (λ _, ws) s t n (mWorkerStates sl)) (mConnStates sl) (maxShardSize sl) (maxStndbySize sl)).

(** An event of the pool [(s, t, n)]. *)
Definition process_event (s : Z) (t : HeraWorkerType) (n : Z) (e : StateEvent) (sl : StateLog) : result StateLog :=
  match e with
  | WorkerStateEvt workerID newWState => setWorkerState s t n workerID newWState sl
  | ConnStateEvt old new => updateConnectionState s t n old new sl
  | WorkerResizeEvt newSize => resizeWorkers s t n newSize sl
  end.

(** ** Queries *)

(** [GetTotalConnections] *)
Definition count_cell (sl : StateLog) (s : Z) (t : HeraWorkerType) (n : Z) (counter : Z) : result Z :=
  c ← cell (mConnStates sl) s t n;
  b ← index_get c (Z.of_nat (cnum Backlog));
  r ← index_get c (Z.of_nat (cnum Stranded));
  Ret (i64 (i64 (counter + b) + r)).

Definition count_type (sl : StateLog) (s : Z) (counter : Z) (t : HeraWorkerType) : result Z :=
  ty ← insts (mWorkerStates sl) s t;
  for_range (length ty) 0 (count_cell sl s t) counter.

Definition count_shard (sl : StateLog) (s : Z) (counter : Z) : result Z :=
  c ← cell (mConnStates sl) s wtypeRW 0;
  a ← index_get c (Z.of_nat (cnum Assign));
  i ← index_get c (Z.of_nat (cnum Idle));
  let counter := i64 (i64 (counter + a) + i) in
  counter ← count_type sl s counter wtypeRW;
  counter ← count_type sl s counter wtypeRO;
  count_type sl s counter wtypeStdBy.

Definition GetTotalConnections (sl : StateLog) : result Z :=
  for_range (Z.to_nat (maxShardSize sl)) 0 (count_shard sl) 0.

(** [GetStrandedWorkerCountForPool]: every instance of the type is counted. *)
Definition in_state (st : Z) (ws : list WorkerStateInfo) : Z := zlen (filter (λ w, ws_state w = st) ws).

Definition GetStrandedWorkerCountForPool (sl : StateLog) (s : Z) (t : HeraWorkerType) (n : Z) : result Z :=
  if (0 <=? s) && (s <? maxShardSize sl) then
    ty ← insts (mWorkerStates sl) s t;
    if (0 <=? n) && (n <? zlen ty) then Ret (foldr (λ ws acc, in_state wsQuce ws + acc) 0 ty) else Ret 0
  else Ret 0.

Definition shards_checked (app : Config) (sl : StateLog) : Z :=
  if EnableWhitelistTest (Sharding app) then 1 else maxShardSize sl.

(** [hasFreeWorker] *)
Definition type_free (sl : StateLog) (s : Z) (t : HeraWorkerType) : result bool :=
  ty ← insts (mWorkerStates sl) s t;
  Ret (existsb (existsb (λ w, ws_state w =? wsAcpt)) ty).

Definition shard_free (app : Config) (sl : StateLog) (s : Z) (found : bool) : result bool :=
  if found then Ret true
  else
    rw ← type_free sl s wtypeRW;
    if (rw : bool) then Ret true
    else
      ro ← type_free sl s wtypeRO;
      if (ro : bool) then Ret true
      else if EnableTAF app then type_free sl s wtypeStdBy else Ret false.

Definition hasFreeWorker (app : Config) (sl : StateLog) (shdCnt : Z) : result bool :=
  for_range (Z.to_nat shdCnt) 0 (shard_free app sl) false.

(** [ProxyHasCapacity] *)
Definition backlog_of (sl : StateLog) (s : Z) (t : HeraWorkerType) (acc : Z) : result Z :=
  ty ← insts (mWorkerStates sl) s t;
  for_range (length ty) 0 (λ n acc, c ← cell (mConnStates sl) s t n;
                                    b ← index_get c (Z.of_nat (cnum Backlog)); Ret (i64 (acc + b))) acc.

Definition shard_backlog (app : Config) (sl : StateLog) (s : Z) (st : Z * Z * Z) : result (Z * Z * Z) :=
  let '(wbacklog, rbacklog, readerCnt) := st in
  wbacklog ← backlog_of sl s wtypeRW wbacklog;
  wbacklog ← (if EnableTAF app then backlog_of sl s wtypeStdBy wbacklog else Ret wbacklog);
  ty ← insts (mWorkerStates sl) s wtypeRO;
  rbacklog ← backlog_of sl s wtypeRO rbacklog;
  Ret (wbacklog, rbacklog, foldl (λ acc ws, acc + zlen ws) readerCnt ty).

Definition ProxyHasCapacity (app : Config) (sl : StateLog) (wlimit rlimit : Z) : result (bool * Z) :=
  free ← hasFreeWorker app sl (shards_checked app sl);
  if (free : bool) then Ret (true, 0)
  else
    '(wbacklog, rbacklog, readerCnt) ← for_range (Z.to_nat (shards_checked app sl)) 0 (shard_backlog app sl) (0, 0, 0);
    Ret ((wbacklog <=? wlimit) && ((rbacklog <=? rlimit) || (readerCnt =? 0)), i64 (wbacklog + rbacklog)).

(** [HasActiveWorker]: [healthy s t] is the number of connected workers of the first
    pool of the type, when [GetWorkerPool] finds it. *)
Fixpoint active_shards (app : Config) (healthy : Z → HeraWorkerType → option Z) (n : nat) (s : Z) : bool :=
  match n with
  | O => false
  | S n =>
    match healthy s wtypeRW with
    | None => false
    | Some rw =>
      if 0 <? rw then true
      else
        match (if EnableTAF app then healthy s wtypeStdBy else None) with
        | Some sb => 0 <? sb
        | None =>
          match healthy s wtypeRO with
          | Some ro => 0 <? ro
          | None => active_shards app healthy n (s + 1)
          end
        end
    end
  end.

Definition HasActiveWorker (app : Config) (healthy : Z → HeraWorkerType → option Z) (sl : StateLog) : bool :=
  active_shards app healthy (Z.to_nat (shards_checked app sl)) 0.

(** ** The total number of connections *)

(** Integers that are the same at 64 bits. *)
Definition eqm (a b : Z) : Prop := i64 a = i64 b.
Infix "≈" := eqm (at level 70).

#[local] Instance eqm_equiv : Equivalence eqm.
Proof. split; unfold eqm; [done|by intros ? ?|intros ? ? ?; apply eq_trans]. Qed.

Lemma eqm_mod a b : a ≈ b ↔ a mod 2 ^ 64 = b mod 2 ^ 64.
Proof.
  unfold eqm, i64. split; intros H.
  - assert (E : ((a + 2 ^ 63) mod 2 ^ 64 - 2 ^ 63) mod 2 ^ 64 = ((b + 2 ^ 63) mod 2 ^ 64 - 2 ^ 63) mod 2 ^ 64) by (by rewrite H).
    rewrite !Zminus_mod_idemp_l in E. by rewrite !Z.add_simpl_r in E.
  - by rewrite (Zplus_mod a), H, <- (Zplus_mod b).
Qed.

#[local] Instance eqm_add : Proper (eqm ==> eqm ==> eqm) Z.add.
Proof. intros a b H c d H'. rewrite eqm_mod in *. by rewrite (Zplus_mod a), H, H', <- Zplus_mod. Qed.

Lemma i64_eqm a : i64 a ≈ a.
Proof. unfold eqm. apply i64_id, i64_range. Qed.

(** The sum of [g] over a list. *)
Definition sum {A} (g : A → Z) (l : list A) : Z := foldr (λ x acc, g x + acc) 0 l.

Lemma sum_cons {A} (g : A → Z) x l : sum g (x :: l) = g x + sum g l.
Proof. done. Qed.

Lemma sum_change {A} (g : A → Z) (f : A → A) i l x d :
  l !! i = Some x → g (f x) ≈ g x + d → sum g (alter f i l) ≈ sum g l + d.
Proof.
  intros Hx Hd. revert i Hx. induction l as [|y l IH]; intros [|i] Hx; try done.
  - injection Hx as ->. change (alter f 0%nat (x :: l)) with (f x :: l). rewrite !sum_cons, Hd.
    unfold eqm. f_equal. lia.
  - change (alter f (S i) (y :: l)) with (y :: alter f i l). rewrite !sum_cons, (IH i Hx).
    unfold eqm. f_equal. lia.
Qed.

Lemma sum_change_all {A} (g : A → Z) (f : A → A) l d :
  Forall (λ x, g (f x) ≈ g x + d) l → sum g (map f l) ≈ sum g l + zlen l * d.
Proof.
  induction 1 as [|x l Hx _ IH]; [done|]. cbn [map]. rewrite !sum_cons, Hx, IH.
  unfold eqm. f_equal. cbn [length]. lia.
Qed.

(** A loop over the indices of a list that adds to a 64-bit counter. *)
Definition adds (acc x : Z) (res : result Z) : Prop := ∃ r, res = Ret r ∧ r ≈ acc + x ∧ in_i64 r.

Lemma for_range_sum {A} (l : list A) (body : Z → Z → result Z) (g : A → Z) i acc : in_i64 acc →
  (∀ j x acc, l !! j = Some x → in_i64 acc → adds acc (g x) (body (i + Z.of_nat j) acc)) →
  adds acc (sum g l) (for_range (length l) i body acc).
Proof.
  revert i acc. induction l as [|x l IH]; intros i acc Ha H; cbn [length for_range].
  { exists acc. split; [done|]. split; [|done]. unfold eqm. f_equal. cbn. lia. }
  destruct (H 0%nat x acc eq_refl Ha) as (r & E & Hr & Hi). replace (i + Z.of_nat 0) with i in E by lia. rewrite E.
  cbn [mbind result_bind]. destruct (IH (i + 1) r Hi) as (r' & E' & Hr' & Hi').
  - intros j y acc' Hy. specialize (H (S j) y acc' Hy). by replace (i + 1 + Z.of_nat j) with (i + Z.of_nat (S j)) by lia.
  - exists r'. split; [done|]. split; [|done]. rewrite Hr', Hr, sum_cons. unfold eqm. f_equal. lia.
Qed.

Definition at_state (c : ConnState) (counts : list Z) : Z := default 0 (counts !! cnum c).
Definition own_count (counts : list Z) : Z := at_state Backlog counts + at_state Stranded counts.
Definition shared_count (sh : list (list (list Z))) : Z :=
  match sh with (c :: _) :: _ => at_state Assign c + at_state Idle c | _ => 0 end.
Definition shard_total (sh : list (list (list Z))) : Z := shared_count sh + sum (sum own_count) sh.

(** What the log keeps: three types per shard, as many instances of connection counters
    as of worker states, an instance of read-write workers, and all five counters. *)
Record shard_ok (ws : list (list (list WorkerStateInfo))) (sh : list (list (list Z))) : Prop := {
  so_types : length sh = 3%nat;
  so_insts : map length ws = map length sh;
  so_rw : ∃ c cs shs, sh = (c :: cs) :: shs;
  so_counts : Forall (Forall (λ c, length c = MaxConnState)) sh
}.

Record log_ok (sl : StateLog) : Prop := {
  lo_size : maxShardSize sl = zlen (mConnStates sl);
  lo_shards : Forall2 shard_ok (mWorkerStates sl) (mConnStates sl)
}.

Lemma index_get_lookup {A} (l : list A) i x : l !! i = Some x → index_get l (Z.of_nat i) = Ret x.
Proof.
  intros H. unfold index_get.
  rewrite (proj2 (Z.leb_le 0 _)) by lia. by rewrite Nat2Z.id, H.
Qed.

Lemma index_get_Ret {A} (l : list A) i x : index_get l i = Ret x → l !! Z.to_nat i = Some x ∧ 0 <= i.
Proof.
  unfold index_get. destruct (0 <=? i) eqn:E; [|done]. destruct (l !! Z.to_nat i) eqn:El; [|done].
  intros ->%Ret_inj. split; [done|lia].
Qed.

Lemma count_get c (counts : list Z) : length counts = MaxConnState →
  index_get counts (Z.of_nat (cnum c)) = Ret (at_state c counts).
Proof.
  intros H. apply index_get_lookup. unfold at_state.
  destruct (counts !! cnum c) eqn:E; [done|]. apply lookup_ge_None in E. rewrite H in E. destruct c; cbn in E; unfold MaxConnState in E; lia.
Qed.

Lemma cell_ok {A} (g : grid A) s t n sh ty x : g !! s = Some sh → sh !! Z.to_nat (wnum t) = Some ty → ty !! n = Some x →
  cell g (Z.of_nat s) t (Z.of_nat n) = Ret x.
Proof.
  intros Hs Ht Hn. unfold cell, insts. rewrite (index_get_lookup g s sh Hs). cbn [mbind result_bind].
  pose proof (index_get_lookup sh (Z.to_nat (wnum t)) ty Ht) as E. rewrite Z2Nat.id in E by (destruct t; done).
  rewrite E. cbn [mbind result_bind]. by apply index_get_lookup.
Qed.

Lemma cell_Ret {A} (g : grid A) s t n x : cell g s t n = Ret x →
  ∃ sh ty, g !! Z.to_nat s = Some sh ∧ sh !! Z.to_nat (wnum t) = Some ty ∧ ty !! Z.to_nat n = Some x.
Proof.
  unfold cell, insts. intros (ty & (sh & [Hs _]%index_get_Ret & [Ht _]%index_get_Ret)%bind_Ret & [Hn _]%index_get_Ret)%bind_Ret.
  by exists sh, ty.
Qed.

Lemma count_type_ok sl s t acc ws sh ty : mWorkerStates sl !! s = Some ws → mConnStates sl !! s = Some sh →
  shard_ok ws sh → sh !! Z.to_nat (wnum t) = Some ty → in_i64 acc →
  adds acc (sum own_count ty) (count_type sl (Z.of_nat s) acc t).
Proof.
  intros Hw Hs [_ Hlen _ Hc] Ht Ha. unfold count_type, insts. rewrite (index_get_lookup _ _ _ Hw). cbn [mbind result_bind].
  assert (∃ wt, ws !! Z.to_nat (wnum t) = Some wt ∧ length wt = length ty) as (wt & Hwt & El).
  { assert (E : map length ws !! Z.to_nat (wnum t) = Some (length ty)) by (rewrite Hlen, list_lookup_fmap, Ht; done).
    rewrite list_lookup_fmap in E. destruct (ws !! Z.to_nat (wnum t)) as [wt|]; [|done]. injection E as E. by exists wt. }
  pose proof (index_get_lookup ws _ wt Hwt) as E. rewrite Z2Nat.id in E by (destruct t; done). rewrite E.
  cbn [mbind result_bind]. rewrite El. apply for_range_sum; [done|]. intros j c acc' Hj Ha'.
  replace (0 + Z.of_nat j) with (Z.of_nat j) by lia. unfold count_cell. rewrite (cell_ok _ s t j sh ty c) by done.
  cbn [mbind result_bind]. assert (Hl : length c = MaxConnState) by (rewrite !Forall_lookup in Hc; specialize (Hc _ _ Ht); rewrite Forall_lookup in Hc; eauto).
  rewrite !count_get by done. cbn [mbind result_bind]. eexists. split; [done|]. split; [|apply i64_range].
  rewrite !i64_eqm. unfold own_count, eqm. f_equal. lia.
Qed.

Lemma count_shard_ok sl s acc ws sh : mWorkerStates sl !! s = Some ws → mConnStates sl !! s = Some sh → shard_ok ws sh →
  in_i64 acc → adds acc (shard_total sh) (count_shard sl (Z.of_nat s) acc).
Proof.
  intros Hw Hs Ok Ha. pose proof (count_type_ok sl s) as CT. pose proof (so_types _ _ Ok) as H3.
  destruct sh as [|rw [|ro [|sb [|? ?]]]]; try done.
  destruct (so_rw _ _ Ok) as (c & cs & shs & Erw). injection Erw as -> <-.
  unfold count_shard. rewrite (cell_ok _ s wtypeRW 0 _ (c :: cs) c Hs eq_refl eq_refl : cell _ _ _ 0 = _). cbn [mbind result_bind].
  assert (Hl : length c = MaxConnState) by (pose proof (so_counts _ _ Ok) as H; by inversion H as [|? ? H1]; inversion H1).
  rewrite !count_get by done. cbn [mbind result_bind].
  destruct (CT wtypeRW (i64 (i64 (acc + at_state Assign c) + at_state Idle c)) ws _ _ Hw Hs Ok eq_refl) as (r1 & -> & E1 & I1); [apply i64_range|].
  cbn [mbind result_bind]. destruct (CT wtypeRO r1 ws _ _ Hw Hs Ok eq_refl I1) as (r2 & -> & E2 & I2).
  cbn [mbind result_bind]. destruct (CT wtypeStdBy r2 ws _ _ Hw Hs Ok eq_refl I2) as (r3 & -> & E3 & I3).
  exists r3. split; [done|]. split; [|done]. rewrite E3, E2, E1, !i64_eqm. unfold shard_total. rewrite !sum_cons.
  cbn [shared_count sum foldr]. unfold eqm. f_equal. lia.
Qed.

Lemma GetTotalConnections_sum sl : log_ok sl → GetTotalConnections sl = Ret (i64 (sum shard_total (mConnStates sl))).
Proof.
  intros [Hz Hf]. unfold GetTotalConnections. rewrite Hz, Nat2Z.id.
  destruct (for_range_sum (mConnStates sl) (count_shard sl) shard_total 0 0) as (r & -> & E & I).
  - done.
  - intros j sh acc Hj Ha. replace (0 + Z.of_nat j) with (Z.of_nat j) by lia.
    destruct (Forall2_lookup_r _ _ _ _ _ Hf Hj) as (ws & Hw & Ok). by eapply count_shard_ok.
  - f_equal. rewrite <- (i64_id r I). exact E.
Qed.

(** *** The effect of an event *)

(** What a connection in state [c] adds to the total with [shards] shards. *)
Definition weight (shards : Z) (c : ConnState) : Z :=
  match c with Idle | Assign => shards | Backlog | Stranded => 1 | Close => 0 end.

Lemma length_bump d c counts : length (bump d c counts) = length counts.
Proof. apply length_alter. Qed.

Lemma at_bump d c c' counts : length counts = MaxConnState →
  at_state c' (bump d c counts) ≈ at_state c' counts + (if decide (c = c') then d else 0).
Proof.
  intros Hl. unfold at_state, bump. destruct (decide (c = c')) as [<-|Hne].
  - rewrite list_lookup_alter_eq. destruct (counts !! cnum c) as [x|] eqn:E; [apply i64_eqm|].
    apply lookup_ge_None in E. rewrite Hl in E. destruct c; cbn in E; unfold MaxConnState in E; lia.
  - rewrite list_lookup_alter_ne by (destruct c, c'; done). unfold eqm. f_equal. lia.
Qed.

Lemma Forall2_alter_refl {A} (R : A → A → Prop) (f : A → A) i l : (∀ x, R x x) → (∀ x, R x (f x)) → Forall2 R l (alter f i l).
Proof.
  intros Hr Hf. revert i. induction l as [|x l IH]; intros [|i]; cbn; constructor; auto.
  clear IH. induction l; constructor; auto.
Qed.

Lemma Forall2_map_refl {A} (R : A → A → Prop) (f : A → A) l : (∀ x, R x (f x)) → Forall2 R l (map f l).
Proof. intros Hf. induction l; cbn; constructor; auto. Qed.

Definition same_insts (ty ty' : list (list Z)) : Prop := Forall2 (λ c c', length c = length c') ty ty'.
Definition same_shape (sh sh' : list (list (list Z))) : Prop := Forall2 same_insts sh sh'.

Lemma same_insts_refl ty : same_insts ty ty.
Proof. induction ty; by constructor. Qed.

Lemma same_shape_refl sh : same_shape sh sh.
Proof. induction sh; constructor; [apply same_insts_refl|done]. Qed.

Lemma shard_ok_shape ws sh sh' : same_shape sh sh' → shard_ok ws sh → shard_ok ws sh'.
Proof.
  intros H [H3 Hi (c & cs & shs & ->) Hc]. constructor.
  - by rewrite <- (Forall2_length _ _ _ H).
  - rewrite Hi. clear -H. induction H as [|ty ty' ? ? Ht _ IH]; [done|]. cbn. f_equal; [by eapply Forall2_length|done].
  - inversion H as [|? ty' ? shs' Ht]; subst. inversion Ht as [|? c' ? cs']; subst. by exists c', cs', shs'.
  - clear -H Hc. induction H as [|ty ty' ? ? Ht _ IH]; [done|]. apply Forall_cons in Hc as [Hty Hc].
    constructor; [|by apply IH]. clear -Ht Hty. induction Ht as [|x x' ? ? Hx _ IH]; [done|].
    apply Forall_cons in Hty as [? ?]. constructor; [congruence|by apply IH].
Qed.

Lemma shards_shape W g g' : Forall2 shard_ok W g → Forall2 same_shape g g' → Forall2 shard_ok W g'.
Proof.
  intros H. revert g'. induction H; intros g' Hg; inversion Hg; subst; constructor; eauto using shard_ok_shape.
Qed.

Lemma count_state_shape d c s t n (g : grid (list Z)) : Forall2 same_shape g (count_state d c s t n g).
Proof.
  unfold count_state, alter_cell. destruct (shared c).
  - do 3 (apply Forall2_map_refl; intros ?). by rewrite length_bump.
  - apply Forall2_alter_refl; [apply same_shape_refl|]. intros sh.
    apply Forall2_alter_refl; [apply same_insts_refl|]. intros ty.
    apply Forall2_alter_refl; [done|]. intros x. by rewrite length_bump.
Qed.

Lemma own_bump d c counts : length counts = MaxConnState →
  own_count (bump d c counts) ≈ own_count counts + (if shared c then 0 else d * weight 0 c).
Proof.
  intros Hl. unfold own_count. rewrite !at_bump by done. unfold eqm, shared. f_equal.
  destruct c; repeat case_decide; repeat case_bool_decide; try done; cbn [orb weight]; lia.
Qed.

Lemma pair_bump d c counts : length counts = MaxConnState →
  at_state Assign (bump d c counts) + at_state Idle (bump d c counts)
  ≈ at_state Assign counts + at_state Idle counts + (if shared c then d else 0).
Proof. intros Hl. rewrite !at_bump by done. unfold eqm, shared. f_equal.
  destruct c; repeat case_decide; repeat case_bool_decide; try done; cbn [orb weight]; lia. Qed.

Lemma shared_all ws sh d c : shard_ok ws sh → shared c = true →
  shard_total (map (map (bump d c)) sh) ≈ shard_total sh + d.
Proof.
  intros [_ _ (x & xs & shs & ->) Hc] Hs. unfold shard_total.
  rewrite (sum_change_all (sum own_count) (map (bump d c)) _ 0).
  - cbn [map shared_count]. rewrite pair_bump, Hs by (by inversion Hc as [|? ? H1]; inversion H1).
    unfold eqm. f_equal. lia.
  - eapply List.Forall_impl; [|exact Hc]. intros ty Hty. cbn. rewrite (sum_change_all own_count (bump d c) ty 0).
    + unfold eqm. f_equal. lia.
    + eapply List.Forall_impl; [|exact Hty]. intros y Hy. cbn. by rewrite own_bump, Hs.
Qed.

Lemma own_one ws sh d c t n ty x : shard_ok ws sh → shared c = false →
  sh !! Z.to_nat (wnum t) = Some ty → ty !! n = Some x →
  shard_total (alter (alter (bump d c) n) (Z.to_nat (wnum t)) sh) ≈ shard_total sh + d * weight 0 c.
Proof.
  intros [_ _ (y & ys & shs & ->) Hc] Hs Ht Hn.
  assert (Hx : length x = MaxConnState) by (rewrite !Forall_lookup in Hc; specialize (Hc _ _ Ht); rewrite Forall_lookup in Hc; eauto).
  unfold shard_total. rewrite (sum_change (sum own_count) _ _ _ ty (d * weight 0 c) Ht).
  - assert (E : shared_count (alter (alter (bump d c) n) (Z.to_nat (wnum t)) ((y :: ys) :: shs)) ≈ shared_count ((y :: ys) :: shs)).
    { destruct t; [|done..]. injection Ht as <-. destruct n as [|n]; [|done]. injection Hn as <-.
      change (at_state Assign (bump d c y) + at_state Idle (bump d c y) ≈ at_state Assign y + at_state Idle y).
      rewrite pair_bump, Hs by done. unfold eqm. f_equal. lia. }
    rewrite E. unfold eqm. f_equal. lia.
  - apply (sum_change _ _ _ _ x); [done|]. by rewrite own_bump, Hs.
Qed.

Lemma count_state_total W (g : grid (list Z)) d c s t n x : Forall2 shard_ok W g → cell g s t n = Ret x →
  sum shard_total (count_state d c s t n g) ≈ sum shard_total g + d * weight (zlen g) c.
Proof.
  intros Hf (sh & ty & Hs & Ht & Hn)%cell_Ret. unfold count_state. destruct (shared c) eqn:Ec.
  - rewrite (sum_change_all shard_total _ g d).
    + unfold eqm. f_equal. destruct c; try done; cbn; lia.
    + apply Forall_lookup. intros i sh' Hi. destruct (Forall2_lookup_r _ _ _ _ _ Hf Hi) as (ws & _ & Ok). by eapply shared_all.
  - destruct (Forall2_lookup_r _ _ _ _ _ Hf Hs) as (ws & _ & Ok). unfold alter_cell.
    rewrite (sum_change shard_total _ _ _ sh (d * weight 0 c) Hs) by (by eapply own_one).
    unfold eqm. f_equal. destruct c; done.
Qed.

(** *** Connections *)

(** Client [mv_conn] moves to another state, with an event of the given pool. *)
Record move := mkMove { mv_conn : Z; mv_shard : Z; mv_type : HeraWorkerType; mv_inst : Z; mv_new : ConnState }.

(** The clients move one after the other and the log gets their events. *)
Fixpoint apply_moves (ms : list move) (conns : list ConnState) (sl : StateLog) : result (list ConnState * StateLog) :=
  match ms with
  | [] => Ret (conns, sl)
  | m :: ms =>
    old ← index_get conns (mv_conn m);
    conns ← index_set conns (mv_conn m) (mv_new m);
    sl ← process_event (mv_shard m) (mv_type m) (mv_inst m) (ConnStateEvt old (mv_new m)) sl;
    apply_moves ms conns sl
  end.

(** The client and the pool of a move exist. *)
Definition valid_move (app : Config) (ops : OpsConfig) (clients : nat) (m : move) : bool :=
  (0 <=? mv_conn m) && (mv_conn m <? Z.of_nat clients) &&
  (0 <=? mv_shard m) && (mv_shard m <? shard_count app) && (0 <=? mv_inst m) &&
  (mv_inst m <? instCnt (pool_cfg app ops (mv_shard m) (mv_type m))) && (mv_inst m <? standby_size app).

Definition clients_in (c : ConnState) (conns : list ConnState) : Z := zlen (filter (.= c) conns).

Definition dims {A} (g : grid A) : list (list nat) := map (map length) g.

Lemma dims_shape g g' : Forall2 same_shape g g' → dims g' = dims g.
Proof.
  unfold dims. induction 1 as [|sh sh' ? ? Hs _ IH]; [done|]. cbn. f_equal; [|done].
  clear -Hs. induction Hs as [|ty ty' ? ? Ht _ IH]; [done|]. cbn. f_equal; [symmetry; by eapply Forall2_length|done].
Qed.

Lemma dims_cell {A} (g : grid A) ds s t n k : dims g !! s = Some ds → ds !! Z.to_nat (wnum t) = Some k → (n < k)%nat →
  ∃ x, cell g (Z.of_nat s) t (Z.of_nat n) = Ret x.
Proof.
  unfold dims. rewrite list_lookup_fmap. destruct (g !! s) as [sh|] eqn:Es; [|done]. intros [= <-].
  rewrite list_lookup_fmap. destruct (sh !! _) as [ty|] eqn:Et; [|done]. intros [= <-] Hn.
  destruct (lookup_lt_is_Some_2 _ _ Hn) as [x Hx]. exists x. by eapply cell_ok.
Qed.

Lemma init_dims {A} app ops (f : WorkerPoolCfg → A) s : (s < Z.to_nat (shard_count app))%nat →
  dims (init_grid app ops f) !! s = Some (map (λ t, Z.to_nat (instCnt (pool_cfg app ops (Z.of_nat s) t))) wtypes).
Proof.
  intros Hs. unfold dims, init_grid. rewrite !list_lookup_fmap, lookup_seq_lt by lia. cbn -[pool_cfg].
  by rewrite !length_replicate.
Qed.

Lemma init_log_ok app ops : 1 <= shard_count app → log_ok (StateLog_init app ops).
Proof.
  intros H1. constructor; cbn [StateLog_init maxShardSize mConnStates mWorkerStates]; unfold init_grid.
  - rewrite length_map, length_seq. lia.
  - induction (seq 0 _) as [|s ss IH]; cbn [map]; constructor; [|done]. constructor.
    + done.
    + cbn -[pool_cfg]. by rewrite !length_replicate.
    + by eexists _, _, _.
    + repeat constructor; by apply Forall_replicate.
Qed.

Lemma sum_insert {A} (g : A → Z) l i x y : l !! i = Some x → sum g (<[i := y]> l) = sum g l + (g y - g x).
Proof.
  revert i. induction l as [|z l IH]; intros [|i] Hx; try done.
  - injection Hx as ->. change (<[0%nat := y]> (x :: l)) with (y :: l). rewrite !sum_cons. lia.
  - change (<[S i := y]> (z :: l)) with (z :: <[i := y]> l). rewrite !sum_cons, (IH i Hx). lia.
Qed.

Lemma sum_weight shards conns :
  sum (weight shards) conns =
  shards * (clients_in Idle conns + clients_in Assign conns) + clients_in Backlog conns + clients_in Stranded conns.
Proof.
  unfold clients_in. induction conns as [|c conns IH]; [cbn; lia|]. rewrite sum_cons, IH, !filter_cons.
  destruct c; repeat case_decide; try done; cbn [weight length]; lia.
Qed.

Lemma sum_closed shards n : sum (weight shards) (replicate n Close) = 0.
Proof. by induction n. Qed.

(** The log agrees with the connections, and has the pools of the configuration. *)
Record tracks (app : Config) (ops : OpsConfig) (conns : list ConnState) (sl : StateLog) : Prop := {
  tr_ok : log_ok sl;
  tr_shards : maxShardSize sl = shard_count app;
  tr_standby : maxStndbySize sl = standby_size app;
  tr_dims : dims (mConnStates sl) = dims (init_grid app ops (λ _, replicate MaxConnState 0));
  tr_total : sum shard_total (mConnStates sl) ≈ sum (weight (shard_count app)) conns
}.

Lemma update_tracks app ops conns sl i s t n old new :
  tracks app ops conns sl → conns !! i = Some old →
  0 <= s < shard_count app → 0 <= n < instCnt (pool_cfg app ops s t) → n < standby_size app →
  ∃ sl', updateConnectionState s t n old new sl = Ret sl' ∧ tracks app ops (<[i := new]> conns) sl'.
Proof.
  intros T Hi Hs Hn Hb. unfold updateConnectionState.
  destruct (decide (new = old)) as [->|Hne].
  { rewrite bool_decide_eq_true_2 by done. rewrite list_insert_id by done. by exists sl. }
  rewrite bool_decide_eq_false_2 by done. destruct T as [[Hz Hf] Hm Hsb Hd Ht].
  rewrite Hm, Hsb, (proj2 (Z.leb_gt _ _)), (proj2 (Z.leb_gt _ _)) by lia. cbn [orb].
  pose proof (init_dims app ops (λ _, replicate MaxConnState 0) (Z.to_nat s) ltac:(lia)) as Hds. rewrite <- Hd, Z2Nat.id in Hds by lia.
  assert (Hk : ∀ g, dims g = dims (mConnStates sl) → ∃ x : list Z, cell g s t n = Ret x).
  { intros g Eg. rewrite <- (Z2Nat.id s), <- (Z2Nat.id n) by lia. eapply dims_cell; [by rewrite Eg| |].
    - by instantiate (1 := Z.to_nat (instCnt (pool_cfg app ops s t))); destruct t.
    - lia. }
  destruct (Hk _ eq_refl) as [x Hx]. rewrite Hx. cbn [mbind result_bind].
  set (g1 := count_state 1 new s t n (mConnStates sl)). pose proof (count_state_shape 1 new s t n (mConnStates sl)) as S1. fold g1 in S1.
  pose proof (count_state_shape (-1) old s t n g1) as S2.
  assert (F1 : Forall2 shard_ok (mWorkerStates sl) g1) by exact (shards_shape _ _ _ Hf S1).
  destruct (Hk g1 (dims_shape _ _ S1)) as [x1 Hx1].
  eexists. split; [done|]. constructor; cbn [mConnStates maxShardSize maxStndbySize mWorkerStates]; try done.
  - constructor; cbn [mConnStates maxShardSize mWorkerStates].
    + by rewrite <- Hm, Hz, <- (Forall2_length _ _ _ S2), <- (Forall2_length _ _ _ S1).
    + exact (shards_shape _ _ _ F1 S2).
  - by rewrite (dims_shape _ _ S2), (dims_shape _ _ S1).
  - rewrite (count_state_total _ _ _ _ _ _ _ _ F1 Hx1).
    rewrite (count_state_total _ _ 1 new _ _ _ _ Hf Hx : sum shard_total g1 ≈ _), Ht.
    rewrite (sum_insert _ _ _ _ _ Hi), <- (Forall2_length _ _ _ S1). replace (zlen (mConnStates sl)) with (shard_count app) by lia.
    unfold eqm. f_equal. lia.
Qed.

Lemma moves_tracks app ops ms conns sl : tracks app ops conns sl →
  forallb (valid_move app ops (length conns)) ms = true →
  ∃ conns' sl', apply_moves ms conns sl = Ret (conns', sl') ∧ tracks app ops conns' sl'.
Proof.
  revert conns sl. induction ms as [|m ms IH]; intros conns sl T Hv; [by exists conns, sl|].
  cbn [forallb] in Hv. apply andb_true_iff in Hv as [Hm Hv]. unfold valid_move in Hm. cbn [apply_moves].
  destruct (lookup_lt_is_Some_2 conns (Z.to_nat (mv_conn m)) ltac:(lia)) as [old Hold].
  pose proof (index_get_lookup _ _ _ Hold) as E. rewrite Z2Nat.id in E by lia. rewrite E. cbn [mbind result_bind].
  unfold index_set. rewrite (proj2 (andb_true_iff _ _)) by lia. cbn [mbind result_bind process_event].
  destruct (update_tracks app ops conns sl _ (mv_shard m) (mv_type m) (mv_inst m) old (mv_new m) T Hold) as (sl' & -> & T'); [lia..|].
  cbn [mbind result_bind]. apply IH; [done|]. by rewrite length_insert.
Qed.

(** Whatever the clients of the proxy do, the state log processes their events without
    a crash, and [GetTotalConnections] is then the number of clients in a backlog or
    stranded plus, for each shard, the number of idle and assigned ones. So with several
    shards an idle connection is counted once per shard. *)
Theorem GetTotalConnections_counts (app : Config) (ops : OpsConfig) (clients : nat) (ms : list move) :
  1 <= shard_count app → forallb (valid_move app ops clients) ms = true →
  ∃ conns sl, apply_moves ms (replicate clients Close) (StateLog_init app ops) = Ret (conns, sl) ∧
    GetTotalConnections sl =
      Ret (i64 (shard_count app * (clients_in Idle conns + clients_in Assign conns)
                + clients_in Backlog conns + clients_in Stranded conns)).
Proof.
  intros H1 Hv. destruct (moves_tracks app ops ms (replicate clients Close) (StateLog_init app ops)) as (conns & sl & E & T).
  - constructor; [by apply init_log_ok|done..|]. rewrite sum_closed. cbn [StateLog_init mConnStates]. unfold init_grid.
    induction (seq 0 _) as [|s ss IH]; [done|]. cbn [map]. rewrite sum_cons, IH.
    unfold shard_total, pool_cfg, wtypes. cbn [map]. destruct (0 <? _), (EnableTAF app); done.
  - by rewrite length_replicate.
  - exists conns, sl. split; [done|]. rewrite GetTotalConnections_sum by apply T. rewrite <- sum_weight. f_equal. apply T.
Qed.

(** Two clients of a sharded proxy: one is idle, one waits in the backlog of shard 1. *)
Definition sample_app : Config :=
  match init_config true false (Some sample_hera) (Some (str "./hera.txt", Some sample_ops)) with
  | Ret g => gAppConfig g
  | _ => gAppConfig blank_globals
  end.
Definition sample_cfg : OpsConfig := mkOpsConfig 0 4 0 0 0 0 200 0.
Definition sample_moves : list move :=
  [mkMove 0 0 wtypeRW 0 Idle; mkMove 2 0 wtypeRW 0 Idle; mkMove 2 1 wtypeRW 0 Backlog].

Lemma GetTotalConnections_counts_witness :
  ∃ conns sl, apply_moves sample_moves (replicate 3 Close) (StateLog_init sample_app sample_cfg) = Ret (conns, sl) ∧
    GetTotalConnections sl = Ret 6.
Proof.
  destruct (GetTotalConnections_counts sample_app sample_cfg 3 sample_moves) as (conns & sl & E & H).
  - vm_compute. discriminate.
  - vm_compute. reflexivity.
  - exists conns, sl. split; [exact E|]. rewrite H.
    assert (Ec : match apply_moves sample_moves (replicate 3 Close) (StateLog_init sample_app sample_cfg) with
                 | Ret (cs, _) => cs = [Idle; Close; Backlog] | _ => False end) by (vm_compute; reflexivity).
    rewrite E in Ec. rewrite Ec. vm_compute. reflexivity.
Defined.

End StateLog.
