(* ===== verification/Server.v ===== *)
(** * The bouncer (lib/server.go): whether an incoming connection is refused because the
    proxy is out of capacity.

    [bounceRequired] is a state machine over the times and the capacity checks of its calls;
    the loop of the server that calls it is in [AcceptLoop]. *)

From S2P Require Import Prelude Config StateLog.
From stdpp Require Import base list.
From Stdlib Require Import ZArith Lia.
Open Scope Z_scope.

Module Server.
Import Config StateLog.

(** ** Capacity *)

Inductive BouncerReasonCode : Set := BRCUnknown | BRCNoActiveWorker | BRCNoWorkerCapacity | BRCConnectionLimit.

Definition connAllowed (app : Config) (ops : OpsConfig) : Z :=
  let shards := NumOfShards (Sharding app) in
  let total :=
    if EnableWhitelistTest (Sharding app)
    then i64 (GetNumWorkers app ops 0 + i64 (NumWhitelistChildren (Sharding app) * i64 (shards - 1)))
    else i64 (GetNumWorkers app ops 0 * shards) in
  i64 (1500 * total).

Definition maxConnReached (app : Config) (ops : OpsConfig) (sl : StateLog) : result bool :=
  currentConn ← GetTotalConnections sl;
  Ret (connAllowed app ops <=? currentConn).

Definition canAccept (app : Config) (ops : OpsConfig) (healthy : Z → HeraWorkerType → option Z) (sl : StateLog)
    : result (bool * BouncerReasonCode) :=
  if negb (HasActiveWorker app healthy sl) then Ret (false, BRCNoActiveWorker)
  else
    maxout ← maxConnReached app ops sl;
    if (maxout : bool) then Ret (false, BRCConnectionLimit)
    else
      '(backlogCheck, _) ← ProxyHasCapacity app sl (GetBacklogLimit app ops wtypeRW 0) (GetBacklogLimit app ops wtypeRO 0);
      Ret (backlogCheck, if (backlogCheck : bool) then BRCUnknown else BRCNoWorkerCapacity).

(** ** The bouncer *)

Record server := mkServer {
  capacityCheckTime : Z;
  capacityCheckCnt : Z;
  bouncerActivated : bool;
  bouncerStartupDelayDone : bool
}.

Definition NewServer : server := mkServer 0 0 false false.

(** One call: the three readings of the clock, in seconds and nanoseconds, and what
    [canAccept] answers. *)
Record call := mkCall { t_unix : Z; t_poll : Z; t_check : Z; verdict : bool }.

(** A call returns [false] without a check of the capacity, or the answer [bounced]. *)
Inductive outcome : Set := Skipped | Checked (accept bounced : bool).

Definition bounced (o : outcome) : bool := match o with Skipped => false | Checked _ b => b end.

Section bouncer.
Context (enabled : bool) (startTime startupDelay pollInterval : Z).

Definition check_capacity (c : call) (srv : server) : server * outcome :=
  if negb (verdict c) && negb (bouncerActivated srv) then
    if capacityCheckTime srv =? 0 then
      (mkServer (t_check c) 1 false (bouncerStartupDelayDone srv), Checked false false)
    else if 3 <? capacityCheckCnt srv + 1 then
      (mkServer 0 0 true (bouncerStartupDelayDone srv), Checked false true)
    else (mkServer (t_check c) (capacityCheckCnt srv + 1) false (bouncerStartupDelayDone srv), Checked false false)
  else
    (mkServer (capacityCheckTime srv) (capacityCheckCnt srv) (negb (verdict c)) (bouncerStartupDelayDone srv),
     Checked (verdict c) (negb (verdict c))).

Definition bounceRequired (c : call) (srv : server) : server * outcome :=
  if negb enabled then (srv, Skipped)
  else if negb (bouncerStartupDelayDone srv) && (t_unix c <? i64 (startTime + startupDelay)) then (srv, Skipped)
  else
    let srv := mkServer (capacityCheckTime srv) (capacityCheckCnt srv) (bouncerActivated srv) true in
    if i64 (t_poll c - i64 (1000000 * pollInterval)) <? capacityCheckTime srv then (srv, Skipped)
    else check_capacity c srv.

Fixpoint run_calls (cs : list call) (srv : server) : list outcome :=
  match cs with
  | [] => []
  | c :: cs => let '(srv, o) := bounceRequired c srv in o :: run_calls cs srv
  end.

(** ** What the bouncer does *)

(** [failures] is the number of failed checks since the last activation, [active] whether
    it bounces. A check that can accept is never bounced and ends the bouncing, but does
    not forget the failures; the fourth failure activates; active, it bounces every
    failed check and skips none. *)
Fixpoint follows (failures : Z) (active : bool) (os : list outcome) : bool :=
  match os with
  | [] => true
  | Skipped :: os => negb active && follows failures active os
  | Checked true b :: os => negb b && follows failures false os
  | Checked false b :: os =>
    if active then b && follows failures true os
    else if failures =? 3 then b && follows 0 true os
    else negb b && follows (failures + 1) false os
  end.

(** The clock does not stand at the epoch. *)
Definition clock_ok (c : call) : Prop := 0 < t_check c ∧ 0 <= i64 (t_poll c - i64 (1000000 * pollInterval)).

Record srv_ok (srv : server) : Prop := {
  sv_time : 0 <= capacityCheckTime srv;
  sv_fresh : capacityCheckTime srv = 0 ↔ capacityCheckCnt srv = 0;
  sv_cnt : 0 <= capacityCheckCnt srv <= 3;
  sv_active : bouncerActivated srv = true → capacityCheckTime srv = 0 ∧ bouncerStartupDelayDone srv = true
}.

Lemma run_follows cs srv : enabled = true → srv_ok srv → Forall clock_ok cs →
  follows (capacityCheckCnt srv) (bouncerActivated srv) (run_calls cs srv) = true.
Proof.
  intros He. revert srv. induction cs as [|c cs IH]; intros srv Ok Hc; [done|].
  apply Forall_cons in Hc as [[Ht Hp] Hc]. specialize (λ srv Ok, IH srv Ok Hc).
  destruct srv as [time cnt act delay], Ok as [H1 H2 H3 H4]; cbn [capacityCheckTime capacityCheckCnt bouncerActivated bouncerStartupDelayDone] in *.
  cbn [run_calls]. unfold bounceRequired. rewrite He.
  cbn [negb capacityCheckTime capacityCheckCnt bouncerActivated bouncerStartupDelayDone].
  destruct (negb delay && _) eqn:Ed.
  { cbn [follows]. destruct act; [destruct (H4 eq_refl) as [_ ->]; done|]. by apply (IH (mkServer time cnt false delay)). }
  destruct (_ <? time) eqn:Ep.
  { cbn [follows]. destruct act; [destruct (H4 eq_refl); lia|]. by apply (IH (mkServer time cnt false true)). }
  unfold check_capacity. cbn [capacityCheckTime capacityCheckCnt bouncerActivated bouncerStartupDelayDone].
  destruct (verdict c); cbn [negb andb].
  { cbn [follows negb andb]. by apply (IH (mkServer time cnt false true)). }
  destruct act; cbn [negb].
  { cbn [follows andb]. apply (IH (mkServer time cnt true true)). constructor; cbn; [lia|done|done|by intros _; destruct (H4 eq_refl)]. }
  destruct (time =? 0) eqn:Et.
  { assert (cnt = 0) as -> by (apply H2; lia). cbn [follows]. apply (IH (mkServer (t_check c) 1 false true)).
    constructor; cbn; [lia|lia|lia|done]. }
  assert (cnt ≠ 0) by (intros ?%H2; lia).
  destruct (3 <? cnt + 1) eqn:E3; cbn [follows].
  - rewrite (proj2 (Z.eqb_eq cnt 3)) by lia. apply (IH (mkServer 0 0 true true)). constructor; cbn; [lia|lia|lia|done].
  - rewrite (proj2 (Z.eqb_neq cnt 3)) by lia. apply (IH (mkServer (t_check c) (cnt + 1) false true)).
    constructor; cbn; [lia|lia|lia|done].
Qed.

End bouncer.

(** C39: How the bouncer of a new server decides, as it is coded, for every sequence of
    calls with a clock at least one poll interval past the epoch: it begins to refuse connections with the
    fourth failed capacity check since the start or since it last became active, the one
    that first found no capacity included, and refuses until the first check that
    succeeds. A successful check in between does not reset the count, so that the four
    failures may lie any time apart, where docs/configuration.md asks for a condition that
    is confirmed four times after the first. *)
Theorem bouncer_follows (startTime startupDelay pollInterval : Z) (cs : list call) :
  Forall (clock_ok pollInterval) cs →
  follows 0 false (run_calls true startTime startupDelay pollInterval cs NewServer) = true.
Proof.
  intros Hc. apply (run_follows true startTime startupDelay pollInterval cs NewServer); [done| |done].
  constructor; cbn; [lia|done|lia|done].
Qed.

(** Three failures, hours of success, and one more failure: the connection is refused. *)
Definition sample_calls : list call :=
  [mkCall 100 1000000000 1000000000 false; mkCall 101 2000000000 2000000000 false; mkCall 102 3000000000 3000000000 false;
   mkCall 103 4000000000 4000000000 true; mkCall 9000 9000000000000 9000000000000 true;
   mkCall 9001 9001000000000 9001000000000 false].

Lemma bouncer_follows_witness :
  map bounced (run_calls true 0 10 100 sample_calls NewServer) = [false; false; false; false; false; true] ∧
  follows 0 false (run_calls true 0 10 100 sample_calls NewServer) = true.
Proof.
  split; [vm_compute; reflexivity|]. apply (bouncer_follows 0 10 100 sample_calls).
  repeat constructor; vm_compute; congruence.
Defined.

End Server.
