(* ===== verification/CmdProcessor.v ===== *)
(** * The end of a response in the worker (worker/shared/cmdprocessor.go, common.go), and
    what the proxy makes of it (lib/workerclient.go).

    The commands of the worker are in [WorkerCmd]. *)

From S2P Require Import Prelude GoIO Codes Netstring WorkerClient.
From stdpp Require Import base list strings.
From Stdlib Require Import ZArith Lia.
Open Scope Z_scope.

Module CmdProcessor.
Import Netstring WorkerClient.

(** ** Writing *)

(** The answers of the successive calls of [Write]: how many bytes were taken. *)
Abbreviation writer := (list (result nat)).

(** [writeAll]: the bytes that reach the other side, and the result. *)
Fixpoint writeAll (w : writer) (data : bytes) (written : nat) : bytes * result unit :=
  if (written <? length data)%nat then
    match w with
    | [] => ([], Hang)
    | Ret n :: w =>
      let '(out, r) := writeAll w data (written + n) in
      (take n (drop written data) ++ out, r)
    | Error e :: _ => ([], Error e)
    | Panic :: _ => ([], Panic)
    | Fatal :: _ => ([], Fatal)
    | Hang :: _ => ([], Hang)
    end
  else ([], Ret tt).

(** ** The end of a response *)

(** The fields [eor] uses: the open CAL transaction, the heartbeat flag and the request
    counter. *)
Record CmdProcessor := mkCmdProcessor { calSessionTxn : bool; heartbeat : bool; cp_rqId : Z }.

(** The code that is sent: a free worker with requests waiting says so. *)
Definition eor_code (code : Z) (moreIncomingRequests : bool) : Z :=
  if (code =? EORFree) && moreIncomingRequests then EORMoreIncomingRequests else code.

Definition eor_payload (code rqId : Z) (ns : option Packet) : bytes :=
  [u8 (48 + code); u8 (Z.shiftr rqId 8); u8 (Z.land rqId 255)] ++
  match ns with Some p => Serialized p | None => [] end.

Definition eor (code : Z) (ns : option Packet) (moreIncomingRequests : bool) (w : writer) (cp : CmdProcessor)
    : CmdProcessor * (bytes * result unit) :=
  let code := eor_code code moreIncomingRequests in
  let txn := if (code =? EORFree) && calSessionTxn cp then false else calSessionTxn cp in
  (mkCmdProcessor txn true (cp_rqId cp),
   writeAll w (Serialized (NewNetstringFrom CmdEOR (eor_payload code (cp_rqId cp) ns))) 0).

(** ** From worker to proxy *)

Lemma writeAll_all w data written out : (written <= length data)%nat →
  writeAll w data written = (out, Ret tt) → out = drop written data.
Proof.
  revert written out. induction w as [|[n| | | |] w IH]; intros written out Hw; cbn [writeAll];
    destruct (written <? length data)%nat eqn:E; try done;
    try (intros [= <-]; apply Nat.ltb_ge in E; by rewrite drop_ge).
  apply Nat.ltb_lt in E. destruct (writeAll w data (written + n)) as [out' r] eqn:Er. intros [= <- ->].
  destruct (decide (written + n <= length data)%nat) as [Hn|Hn].
  - rewrite (IH _ _ Hn Er). by rewrite <- drop_drop, take_drop.
  - assert (out' = []) as ->.
    { destruct w; cbn [writeAll] in Er; rewrite (proj2 (Nat.ltb_ge _ _)) in Er by lia; by injection Er. }
    rewrite app_nil_r. apply take_ge. rewrite length_drop. lia.
Qed.

Lemma rqId_bytes id : in_u16 id → u16 (u16 (Z.shiftl (u8 (Z.shiftr id 8)) 8) + u8 (Z.land id 255)) = id.
Proof.
  intros H. unfold in_u16 in H. change 255 with (Z.ones 8). rewrite Z.land_ones, Z.shiftr_div_pow2, Z.shiftl_mul_pow2 by lia.
  unfold u8, u16. rewrite (Z.mod_mod id) by lia. rewrite (Z.mod_small (id / 2 ^ 8)) by (split; [apply Z.div_pos; lia|apply Z.div_lt_upper_bound; lia]).
  pose proof (Z.div_mod id (2 ^ 8) ltac:(lia)). pose proof (Z.mod_pos_bound id (2 ^ 8) ltac:(lia)).
  rewrite (Z.mod_small (_ * _)) by lia. rewrite Z.mod_small; lia.
Qed.

(** The state of the reader after an end of response with [code], [rqId] and [data]. *)
Definition after_eor (code rqId : Z) (data : bytes) (st : read_state) : read_state :=
  let data := rd_payload st ++ data in
  let status := if code =? EORFree then wsFnsh else wsWait in
  if code =? EORMoreIncomingRequests then mkRead status data (rd_sent st)
  else mkRead status [] (rd_sent st ++
    [mkMsg data true (code =? EORFree) ((code =? EORInTransaction) || (code =? EORInCursorInTransaction)) false rqId]).

Lemma read_eor_payload p code rqId ns st : 0 <= code <= 6 → in_u16 rqId →
  Payload p = eor_payload code rqId ns →
  read_eor p st = Ret (after_eor code rqId (match ns with Some q => Serialized q | None => [] end) st).
Proof.
  intros Hc Hr Hp. unfold read_eor. rewrite Hp. unfold eor_payload. set (data := match ns with Some q => _ | None => _ end).
  assert (Hsl : slice_from ([u8 (48 + code); u8 (Z.shiftr rqId 8); u8 (Z.land rqId 255)] ++ data) 3 = Ret data).
  { unfold slice_from. rewrite (proj2 (Z.leb_le 3 _)) by (rewrite length_app; cbn [length]; lia). done. }
  rewrite Hsl. cbn [mbind result_bind app].
  change (index_get (u8 (48 + code) :: ?l) 0) with (Ret (u8 (48 + code))).
  change (index_get (?a :: u8 (Z.shiftr rqId 8) :: ?l) 1) with (Ret (u8 (Z.shiftr rqId 8))).
  change (index_get (?a :: ?b :: u8 (Z.land rqId 255) :: ?l) 2) with (Ret (u8 (Z.land rqId 255))).
  cbn [mbind result_bind]. rewrite rqId_bytes by done.
  assert (u8 (u8 (48 + code) - 48) = code) as ->.
  { rewrite (u8_id (48 + code)) by (unfold in_u8; lia). replace (48 + code - 48) with code by lia.
    apply u8_id. unfold in_u8. lia. }
  unfold after_eor. destruct (code =? EORMoreIncomingRequests); cbn [negb]; by destruct (rd_payload st).
Qed.

Lemma eor_code_spec code more :
  eor_code code more = if bool_decide (code = EORFree ∧ more = true) then EORMoreIncomingRequests else code.
Proof.
  unfold eor_code. destruct (Z.eqb_spec code EORFree), more; cbn [andb]; case_bool_decide; naive_solver.
Qed.

(** What a worker sends at the end of a response is what the proxy gets: written in any
    number of pieces and read in any other, the packet gives the coordinator the data,
    whether the worker is free or in a transaction, and the request number. A worker that
    would be free with requests waiting is not reported free, and its data is held back. *)
Theorem eor_roundtrip {S : Type} `{!Reader S, !ReaderLaws S} (s : S) (code : Z) (ns : option Packet)
    (more : bool) (w : writer) (cp cp' : CmdProcessor) (out rest : bytes) (st : read_state) :
  0 <= code <= 6 → in_u16 (cp_rqId cp) →
  zlen (Serialized (NewNetstringFrom CmdEOR (eor_payload (eor_code code more) (cp_rqId cp) ns))) < 2 ^ 62 →
  eor code ns more w cp = (cp', (out, Ret tt)) → unread s = out ++ rest →
  ∃ s' p, NewNetstring s = (s', Ret p) ∧
    read_one p st = Ret (after_eor (if bool_decide (code = EORFree ∧ more = true) then EORMoreIncomingRequests else code)
                           (cp_rqId cp) (match ns with Some q => Serialized q | None => [] end) st, true).
Proof.
  intros Hc Hr Hz He Hu. unfold eor in He. injection He as _ Hw.
  apply writeAll_all in Hw; [|lia]. rewrite drop_0 in Hw. subst out.
  destruct (NewNetstring_From_ok s CmdEOR _ rest ltac:(done) Hz Hu) as (s' & p & E & Ecmd & Ep & Em).
  exists s', p. split; [done|]. unfold read_one. rewrite Em, Ecmd, Z.eqb_refl.
  rewrite (read_eor_payload p (eor_code code more) (cp_rqId cp) ns st); [by rewrite eor_code_spec| |done|done].
  unfold eor_code, EORMoreIncomingRequests. destruct (_ && _); lia.
Qed.

Definition sample_eor : bytes :=
  Serialized (NewNetstringFrom CmdEOR (eor_payload EORFree 258 (Some (NewNetstringFrom 5 [])))).

Lemma eor_roundtrip_witness :
  ∃ s' p, NewNetstring (mkStream [take 4 sample_eor; drop 4 sample_eor] io_EOF) = (s', Ret p) ∧
    read_one p (mkRead wsBusy (str "ab") []) =
      Ret (mkRead wsFnsh [] [mkMsg (str "ab" ++ Serialized (NewNetstringFrom 5 [])) true true false false 258], true).
Proof.
  apply (eor_roundtrip (mkStream [take 4 sample_eor; drop 4 sample_eor] io_EOF) EORFree (Some (NewNetstringFrom 5 [])) false
    [Ret 3%nat; Ret 100%nat] (mkCmdProcessor true false 258) (mkCmdProcessor false true 258) sample_eor []
    (mkRead wsBusy (str "ab") [])).
  - vm_compute. split; discriminate.
  - vm_compute. split; [discriminate|reflexivity].
  - vm_compute. reflexivity.
  - vm_compute. reflexivity.
  - vm_compute. reflexivity.
Defined.

End CmdProcessor.
