(* ===== verification/Regexp.v ===== *)
(** * Regular expressions: the fragment of Go's regexp package the source uses.

    The three patterns of the source are matched against text as bytes. Their classes are
    sets of ASCII bytes, except for [.], which excludes the newline only, and for a folded
    [s], which has a spelling of two bytes: an ASCII byte is never inside the encoding of
    another character, so that a match by characters is a match by bytes. *)

From S2P Require Import Prelude.
From stdpp Require Import base list strings.
From Stdlib Require Import ZArith Lia.
Open Scope Z_scope.

Module Regexp.

Inductive re : Type :=
  | Empty
  | Eps
  | Class (p : Z → bool)
  | EndText
  | Seq (r1 r2 : re)
  | Alt (r1 r2 : re)
  | Star (r : re).

(** [r] matches [s] when [rest] follows; [EndText] is the pattern [$]. *)
Inductive matches : re → bytes → bytes → Prop :=
  | m_eps rest : matches Eps [] rest
  | m_class p c rest : p c = true → matches (Class p) [c] rest
  | m_end : matches EndText [] []
  | m_seq r1 r2 s1 s2 rest : matches r1 s1 (s2 ++ rest) → matches r2 s2 rest → matches (Seq r1 r2) (s1 ++ s2) rest
  | m_alt_l r1 r2 s rest : matches r1 s rest → matches (Alt r1 r2) s rest
  | m_alt_r r1 r2 s rest : matches r2 s rest → matches (Alt r1 r2) s rest
  | m_star_nil r rest : matches (Star r) [] rest
  | m_star_cons r s1 s2 rest : matches r s1 (s2 ++ rest) → matches (Star r) s2 rest → matches (Star r) (s1 ++ s2) rest.

#[local] Hint Constructors matches : core.

(** ** The matcher *)

(** Whether [r] matches the empty string, at the end of the text or before a byte. *)
Fixpoint nullable (at_end : bool) (r : re) : bool :=
  match r with
  | Empty | Class _ => false
  | Eps | Star _ => true
  | EndText => at_end
  | Seq r1 r2 => nullable at_end r1 && nullable at_end r2
  | Alt r1 r2 => nullable at_end r1 || nullable at_end r2
  end.

(** Sequence and choice, with the trivial cases simplified away. *)
Definition mk_seq (r1 r2 : re) : re :=
  match r1, r2 with
  | Empty, _ | _, Empty => Empty
  | Eps, _ => r2
  | _, _ => Seq r1 r2
  end.

Definition mk_alt (r1 r2 : re) : re :=
  match r1, r2 with
  | Empty, _ => r2
  | _, Empty => r1
  | _, _ => Alt r1 r2
  end.

(** What is left to match after the byte [c]. *)
Fixpoint deriv (c : Z) (r : re) : re :=
  match r with
  | Empty | Eps | EndText => Empty
  | Class p => if p c then Eps else Empty
  | Seq r1 r2 =>
    if nullable false r1 then mk_alt (mk_seq (deriv c r1) r2) (deriv c r2) else mk_seq (deriv c r1) r2
  | Alt r1 r2 => mk_alt (deriv c r1) (deriv c r2)
  | Star r => mk_seq (deriv c r) (Star r)
  end.

(** Does [r] match a prefix of the text: [MatchString] of a pattern that starts with [^]. *)
Fixpoint match_prefix (r : re) (s : bytes) : bool :=
  match s with
  | [] => nullable true r
  | c :: s => nullable false r || match_prefix (deriv c r) s
  end.

(** ** Correctness of the matcher *)

Lemma matches_nil_nullable r s rest : matches r s rest → s = [] →
  nullable (bool_decide (rest = [])) r = true.
Proof.
  induction 1 as [| | |r1 r2 s1 s2 rest _ IH1 _ IH2|r1 r2 s rest _ IH|r1 r2 s rest _ IH| |];
    intros E; try done; cbn [nullable].
  - apply app_eq_nil in E as [-> ->]. rewrite app_nil_l in IH1. by rewrite IH1, IH2.
  - by rewrite IH.
  - by rewrite IH, orb_true_r.
Qed.

Lemma nullable_matches r rest : nullable (bool_decide (rest = [])) r = true → matches r [] rest.
Proof.
  induction r as [| | | |r1 IH1 r2 IH2|r1 IH1 r2 IH2|]; cbn [nullable]; intros E; try done; auto.
  - apply bool_decide_eq_true in E as ->. auto.
  - apply andb_true_iff in E as [? ?]. apply (m_seq r1 r2 [] []); auto.
  - apply orb_true_iff in E as [?|?]; auto.
Qed.

Lemma nullable_spec r rest : nullable (bool_decide (rest = [])) r = true ↔ matches r [] rest.
Proof. split; [apply nullable_matches|]. intros H. by apply (matches_nil_nullable r [] rest). Qed.

(** Inversion, as rewriting rules. *)
Lemma matches_Empty s rest : matches Empty s rest ↔ False.
Proof. split; [inversion 1|done]. Qed.

Lemma matches_Eps s rest : matches Eps s rest ↔ s = [].
Proof. split; [by inversion 1|intros ->; auto]. Qed.

Lemma matches_EndText s rest : matches EndText s rest ↔ s = [] ∧ rest = [].
Proof. split; [by inversion 1|intros [-> ->]; auto]. Qed.

Lemma matches_Class p s rest : matches (Class p) s rest ↔ ∃ c, s = [c] ∧ p c = true.
Proof. split; [inversion 1; eauto|intros (c & -> & ?); auto]. Qed.

Lemma matches_Alt r1 r2 s rest : matches (Alt r1 r2) s rest ↔ matches r1 s rest ∨ matches r2 s rest.
Proof. split; [inversion 1; auto|intros [?|?]; auto]. Qed.

Lemma matches_Seq r1 r2 s rest : matches (Seq r1 r2) s rest ↔
  ∃ s1 s2, s = s1 ++ s2 ∧ matches r1 s1 (s2 ++ rest) ∧ matches r2 s2 rest.
Proof. split; [inversion 1; eauto|intros (? & ? & -> & ? & ?); auto]. Qed.

Lemma mk_seq_spec r1 r2 s rest : matches (mk_seq r1 r2) s rest ↔ matches (Seq r1 r2) s rest.
Proof.
  assert (H1 : ∀ r, matches Empty s rest ↔ matches (Seq Empty r) s rest)
    by (intros; rewrite matches_Seq; setoid_rewrite matches_Empty; naive_solver).
  assert (H2 : ∀ r, matches Empty s rest ↔ matches (Seq r Empty) s rest)
    by (intros; rewrite matches_Seq; setoid_rewrite matches_Empty; naive_solver).
  assert (H3 : ∀ r, matches r s rest ↔ matches (Seq Eps r) s rest).
  { intros. rewrite matches_Seq. split; [intros ?; exists [], s; auto|].
    by intros (? & ? & E & ->%matches_Eps & ?); simplify_eq/=. }
  destruct r1, r2; cbn [mk_seq]; auto.
Qed.

Lemma mk_alt_spec r1 r2 s rest : matches (mk_alt r1 r2) s rest ↔ matches (Alt r1 r2) s rest.
Proof.
  destruct r1, r2; cbn [mk_alt]; rewrite ?matches_Alt, ?matches_Empty; tauto.
Qed.

(** A non-empty match of a star starts with a non-empty match of its body. *)
Lemma star_cons r s rest : matches (Star r) s rest → ∀ x s', s = x :: s' →
  ∃ s1 s2, s' = s1 ++ s2 ∧ matches r (x :: s1) (s2 ++ rest) ∧ matches (Star r) s2 rest.
Proof.
  remember (Star r) as r' eqn:Er. intros H.
  induction H as [|? ? ? ?| | | | |r0 rest|r0 s1 s2 rest H1 IH1 H2 IH2]; intros x s' E; simplify_eq.
  destruct s1 as [|y s1]; simplify_eq/=; [by apply IH2|]. eauto.
Qed.

(** Matching [c :: s] is matching [s] after the derivative. *)
Lemma deriv_spec c r s rest : matches (deriv c r) s rest ↔ matches r (c :: s) rest.
Proof.
  revert s rest. induction r as [| |p| |r1 IH1 r2 IH2|r1 IH1 r2 IH2|r IH]; intros s rest; cbn [deriv].
  - rewrite !matches_Empty. done.
  - rewrite matches_Empty, matches_Eps. done.
  - rewrite matches_Class. destruct (p c) eqn:E; rewrite ?matches_Eps, ?matches_Empty; split; try done.
    + intros ->. eauto.
    + by intros (? & ? & ?); simplify_eq/=.
    + intros (? & [= <- ->] & ?). congruence.
  - rewrite matches_Empty, matches_EndText. by split; [|intros [? ?]].
  - assert (Hs : matches (mk_seq (deriv c r1) r2) s rest ↔
      ∃ s1 s2, s = s1 ++ s2 ∧ matches r1 (c :: s1) (s2 ++ rest) ∧ matches r2 s2 rest).
    { rewrite mk_seq_spec, matches_Seq. by setoid_rewrite IH1. }
    assert (Hn : nullable false r1 = true ↔ matches r1 [] (c :: s ++ rest)) by (by rewrite <- nullable_spec).
    transitivity ((∃ s1 s2, s = s1 ++ s2 ∧ matches r1 (c :: s1) (s2 ++ rest) ∧ matches r2 s2 rest) ∨
      (nullable false r1 = true ∧ matches r2 (c :: s) rest)).
    { destruct (nullable false r1); rewrite ?mk_alt_spec, ?matches_Alt, Hs, ?IH2; naive_solver. }
    rewrite Hn, matches_Seq. split.
    + intros [(s1 & s2 & -> & ? & ?)|[? ?]]; [by exists (c :: s1), s2|by exists [], (c :: s)].
    + intros ([|c' s1] & s2 & E & H1 & H2); simplify_eq/=; [by right|left; eauto].
  - by rewrite mk_alt_spec, !matches_Alt, IH1, IH2.
  - rewrite mk_seq_spec, matches_Seq. setoid_rewrite IH. split.
    + intros (s1 & s2 & -> & ? & ?). by apply (m_star_cons r (c :: s1) s2).
    + intros H. by apply (star_cons r (c :: s) rest H).
Qed.

(** The matcher decides whether a prefix of the text matches. *)
Theorem match_prefix_spec r s : match_prefix r s = true ↔ ∃ p rest, s = p ++ rest ∧ matches r p rest.
Proof.
  revert r. induction s as [|c s IH]; intros r; cbn [match_prefix].
  - rewrite (nullable_spec r []). split; [intros ?; by exists [], []|].
    by intros (p & rest & [-> ->]%eq_sym%app_eq_nil & ?).
  - rewrite orb_true_iff, (nullable_spec r (c :: s)), IH. setoid_rewrite deriv_spec. split.
    + intros [H|(p & rest & -> & H)]; [by exists [], (c :: s)|by exists (c :: p), rest].
    + intros ([|c' p] & rest & E & H); simplify_eq/=; [by left|right; eauto].
Qed.

(** ** Common patterns *)

Definition Plus (r : re) : re := Seq r (Star r).
Definition Opt (r : re) : re := Alt r Eps.

(** A literal, byte for byte. *)
Fixpoint lit (s : bytes) : re :=
  match s with
  | [] => Eps
  | c :: s => Seq (Class (Z.eqb c)) (lit s)
  end.

Lemma matches_lit l s rest : matches (lit l) s rest ↔ s = l.
Proof.
  revert s. induction l as [|c l IH]; intros s; cbn [lit]; [apply matches_Eps|].
  rewrite matches_Seq. setoid_rewrite matches_Class. setoid_rewrite IH. split.
  - by intros (? & ? & -> & (? & -> & ->%Z.eqb_eq) & ->).
  - intros ->. exists [c], l. split_and!; [done| |done]. exists c. by rewrite Z.eqb_refl.
Qed.

(** A star is any number of matches, each in the context of the following ones. *)
Lemma matches_Star_Class p s rest : matches (Star (Class p)) s rest ↔ Forall (λ c, p c = true) s.
Proof.
  split.
  - intros H. remember (Star (Class p)) as r eqn:Er.
    induction H as [|? ? ? ?| | | | |r0 rest|r0 s1 s2 rest H1 IH1 H2 IH2]; simplify_eq; [constructor|].
    apply matches_Class in H1 as (c & -> & ?). constructor; auto.
  - induction 1 as [|c s Hc _ IH]; [auto|]. apply (m_star_cons _ [c] s); auto.
Qed.

Lemma matches_Plus_Class p s rest : matches (Plus (Class p)) s rest ↔ s ≠ [] ∧ Forall (λ c, p c = true) s.
Proof.
  unfold Plus. rewrite matches_Seq. setoid_rewrite matches_Class. setoid_rewrite matches_Star_Class. split.
  - intros (? & ? & -> & (c & -> & ?) & ?). split; [done|]. by constructor.
  - intros [? H]. destruct H as [|c s ? ?]; [done|]. exists [c], s. eauto.
Qed.

(** When the body does not look at what follows, a star is a concatenation. *)
Lemma matches_Star r (P : bytes → Prop) : (∀ s rest, matches r s rest ↔ P s) →
  ∀ s rest, matches (Star r) s rest ↔ ∃ ss, s = concat ss ∧ Forall P ss.
Proof.
  intros Hr s rest. split.
  - intros H. remember (Star r) as r' eqn:Er.
    induction H as [|? ? ? ?| | | | |r0 rest|r0 s1 s2 rest H1 IH1 H2 IH2]; simplify_eq; [by exists []|].
    destruct IH2 as (ss & -> & ?); [done|]. exists (s1 :: ss). split; [done|]. constructor; [|done].
    by apply Hr in H1.
  - intros (ss & -> & H). induction H as [|x ss Hx _ IH]; [auto|].
    cbn [concat]. apply m_star_cons; [by apply Hr|done].
Qed.

End Regexp.
