(* ===== verification/SqlParser.v ===== *)
(** * The SQL parser (common/sqlParser.go) and the bind names of a statement
    (worker/shared/cmdprocessor.go).

    Both sides of the gateway look at the text of a statement with regular expressions: the
    proxy to tell reads from writes, the worker to tell queries from other statements, when
    a transaction starts, and which bind variables there are. *)

From S2P Require Import Prelude Regexp.
From stdpp Require Import base list strings.
From Stdlib Require Import ZArith Lia.
Open Scope Z_scope.

Module SqlParser.
Import Regexp.

(** ** The patterns *)

(** [\s] *)
Definition is_space (c : Z) : bool :=
  (c =? 9) || (c =? 10) || (c =? 12) || (c =? 13) || (c =? 32).

(** [.] *)
Definition not_newline (c : Z) : bool := negb (c =? 10).

(** A lower-case letter under [(?i)]: both cases, and for [s] the long s U+017F. *)
Definition fold_letter (c : Z) : re :=
  let both := Class (λ x, (x =? c) || (x =? c - 32)) in
  if c =? 115 then Alt both (lit [197; 191]) else both.

Definition fold_word (w : bytes) : re := foldr (λ c r, Seq (fold_letter c) r) Eps w.

Definition spaces : re := Star (Class is_space).
Definition spaces1 : re := Plus (Class is_space).

(** [/\*.*\*/] *)
Definition comment : re := Seq (lit (str "/*")) (Seq (Star (Class not_newline)) (lit (str "*/"))).

(** [^\s*(/\*.*\*/)*\s*select\s+], followed by [r]. *)
Definition select_then (r : re) : re :=
  Seq spaces (Seq (Star comment) (Seq spaces (Seq (fold_word (str "select")) (Seq spaces1 r)))).

(** [(\s|$)] *)
Definition space_or_end : re := Alt (Class is_space) EndText.

(** [((for\s+update(\s|$))|(nextval(\s|$)))] *)
Definition lock_clause : re :=
  Alt (Seq (fold_word (str "for")) (Seq spaces1 (Seq (fold_word (str "update")) space_or_end)))
      (Seq (fold_word (str "nextval")) space_or_end).

(** The two expressions [NewRegexSQLParser] compiles. *)
Definition matcher : re := select_then Eps.
Definition matcherForUpdate : re := select_then (Seq (Star (Class not_newline)) lock_clause).

(** ** The parser *)

Definition IsRead (sql : bytes) : bool :=
  if match_prefix matcher sql then
    if match_prefix matcherForUpdate sql then false else true
  else false.

(** Whether the statement is a query, and whether it starts a transaction. *)
Definition Parse (sql : bytes) : bool * bool :=
  if match_prefix matcher sql then
    if match_prefix matcherForUpdate sql then (true, true) else (true, false)
  else (false, true).

(** The parser used where parsing is switched off. *)
Definition dummy_IsRead (sql : bytes) : bool := false.
Definition dummy_Parse (sql : bytes) : bool * bool := (false, false).

(** ** Bind names *)

Definition is_alpha (c : Z) : bool := (97 <=? c) && (c <=? 122) || (65 <=? c) && (c <=? 90).

(** [\w] *)
Definition is_word (c : Z) : bool := is_alpha c || (48 <=? c) && (c <=? 57) || (c =? 95).

(** The expression [InitDB] compiles: a colon, an optional backtick, a letter, more word
    characters and an optional backtick. *)
Definition regexBindName : re :=
  Seq (lit (str ":")) (Seq (Seq (Opt (lit [96])) (Class is_alpha)) (Seq (Star (Class is_word)) (Opt (lit [96])))).

(** The longest prefix of bytes in a class. *)
Fixpoint span (p : Z → bool) (s : bytes) : bytes * bytes :=
  match s with
  | c :: s' => if p c then let '(a, b) := span p s' in (c :: a, b) else ([], s)
  | [] => ([], [])
  end.

(** A backtick, if there is one. *)
Definition backtick (s : bytes) : bytes * bytes :=
  match s with
  | c :: s' => if c =? 96 then ([c], s') else ([], s)
  | [] => ([], [])
  end.

(** The match of [regexBindName] at the front of the text, and what follows it. *)
Definition bind_match (s : bytes) : option (bytes * bytes) :=
  match s with
  | colon :: s1 =>
    if colon =? 58 then
      let '(q1, s2) := backtick s1 in
      match s2 with
      | c :: s3 =>
        if is_alpha c then
          let '(w, s4) := span is_word s3 in
          let '(q2, s5) := backtick s4 in
          Some (colon :: q1 ++ c :: w ++ q2, s5)
        else None
      | [] => None
      end
    else None
  | [] => None
  end.

(** The text cut into matches, leftmost first and without overlap, and the bytes between. *)
Fixpoint scan (fuel : nat) (s : bytes) : list (Z + bytes) :=
  match fuel with
  | O => []
  | S fuel =>
    match bind_match s with
    | Some (m, rest) => inr m :: scan fuel rest
    | None => match s with [] => [] | c :: s => inl c :: scan fuel s end
    end
  end.

Definition tokens (s : bytes) : list (Z + bytes) := scan (length s) s.

(** [regexBindName.FindAllString(s, -1)] *)
Definition FindAllString (s : bytes) : list bytes :=
  omap (λ t, match t with inr m => Some m | inl _ => None end) (tokens s).

(** [regexBindName.ReplaceAllString(s, rep)] *)
Definition ReplaceAllString (s rep : bytes) : bytes :=
  concat ((λ t, match t with inr _ => rep | inl c => [c] end) <$> tokens s).

(** ** What the parser accepts *)

(** [s] spells [w] in any case. *)
Inductive folds : bytes → bytes → Prop :=
  | folds_nil : folds [] []
  | folds_cons c x w s : x = c ∨ x = c - 32 → folds w s → folds (c :: w) (x :: s)
  | folds_long_s w s : folds w s → folds (115 :: w) (197 :: 191 :: s).

Definition blank (s : bytes) : Prop := Forall (λ c, is_space c = true) s.
Definition one_line (s : bytes) : Prop := Forall (λ c, not_newline c = true) s.

(** What the expression takes for a comment: it may go on over the end of a comment, up to
    the end of a later one on the same line. *)
Definition is_comment (s : bytes) : Prop := ∃ x, s = str "/*" ++ x ++ str "*/" ∧ one_line x.

(** Blanks, comments, blanks, the word select, at least one blank, and then [rest]. *)
Definition select_prefix (sql rest : bytes) : Prop :=
  ∃ w1 cs w2 kw w3, sql = w1 ++ concat cs ++ w2 ++ kw ++ w3 ++ rest ∧
    blank w1 ∧ Forall is_comment cs ∧ blank w2 ∧ folds (str "select") kw ∧ w3 ≠ [] ∧ blank w3.

(** For update, or nextval. *)
Definition lock_words (s : bytes) : Prop :=
  (∃ f w u, s = f ++ w ++ u ∧ folds (str "for") f ∧ w ≠ [] ∧ blank w ∧ folds (str "update") u) ∨
  folds (str "nextval") s.

(** The words on the same line as the front of [rest], followed by a blank or the end. *)
Definition locks (rest : bytes) : Prop :=
  ∃ x kw tail, rest = x ++ kw ++ tail ∧ one_line x ∧ lock_words kw ∧
    match tail with [] => True | c :: _ => is_space c = true end.

Lemma matches_fold_letter c s rest : matches (fold_letter c) s rest ↔
  s = [c] ∨ s = [c - 32] ∨ c = 115 ∧ s = [197; 191].
Proof.
  unfold fold_letter. assert (Hb : matches (Class (λ x, (x =? c) || (x =? c - 32))) s rest ↔ s = [c] ∨ s = [c - 32]).
  { rewrite matches_Class. split.
    - intros (x & -> & [->%Z.eqb_eq| ->%Z.eqb_eq]%orb_true_iff); auto.
    - intros [-> | ->]; eexists; split; try done; rewrite Z.eqb_refl; auto using orb_true_r. }
  destruct (Z.eqb_spec c 115) as [->|]; [rewrite matches_Alt, Hb, matches_lit; naive_solver|].
  rewrite Hb. naive_solver.
Qed.

Lemma matches_fold_word w s rest : matches (fold_word w) s rest ↔ folds w s.
Proof.
  revert s rest. induction w as [|c w IH]; intros s rest; cbn [fold_word foldr].
  - rewrite matches_Eps. split; [intros ->; constructor|by inversion 1].
  - fold (fold_word w). rewrite matches_Seq. setoid_rewrite matches_fold_letter. setoid_rewrite IH. split.
    + intros (s1 & s2 & -> & [-> |[-> |[-> ->]]] & H); [apply folds_cons; auto..|by apply folds_long_s].
    + inversion 1 as [|? x ? s' Hx|? s']; subst.
      * exists [x], s'. naive_solver.
      * exists [197; 191], s'. naive_solver.
Qed.

Lemma matches_comment s rest : matches comment s rest ↔ is_comment s.
Proof.
  unfold comment, is_comment. rewrite matches_Seq. setoid_rewrite matches_lit. setoid_rewrite matches_Seq.
  setoid_rewrite matches_Star_Class. setoid_rewrite matches_lit. split.
  - intros (? & ? & -> & -> & (x & ? & -> & ? & ->)). eauto.
  - intros (x & -> & ?). eexists _, _. split_and!; [done|done|]. eauto.
Qed.

(** Both expressions match when the common prefix leaves a text their remainder matches. *)
Lemma match_select_then r sql : match_prefix (select_then r) sql = true ↔
  ∃ rest, select_prefix sql rest ∧ match_prefix r rest = true.
Proof.
  rewrite match_prefix_spec. setoid_rewrite match_prefix_spec. unfold select_then, spaces, spaces1. split.
  - intros (p & rest & -> & H).
    apply matches_Seq in H as (w1 & ? & -> & H1%matches_Star_Class & H).
    apply matches_Seq in H as (cs & ? & -> & (cs' & -> & Hc)%(matches_Star _ _ matches_comment) & H).
    apply matches_Seq in H as (w2 & ? & -> & H2%matches_Star_Class & H).
    apply matches_Seq in H as (kw & ? & -> & Hk%matches_fold_word & H).
    apply matches_Seq in H as (w3 & q & -> & [Hn H3]%matches_Plus_Class & H).
    exists (q ++ rest). split; [|eauto]. exists w1, cs', w2, kw, w3. by rewrite <- !app_assoc.
  - intros (? & (w1 & cs & w2 & kw & w3 & -> & H1 & Hc & H2 & Hk & Hn & H3) & q & rest & -> & H).
    exists (w1 ++ concat cs ++ w2 ++ kw ++ w3 ++ q), rest. split; [by rewrite <- !app_assoc|].
    repeat (apply m_seq); rewrite ?matches_Star_Class, ?matches_Plus_Class, ?matches_fold_word; try done.
    apply (matches_Star _ _ matches_comment). eauto.
Qed.

Lemma match_space_or_end s : match_prefix space_or_end s = true ↔
  match s with [] => True | c :: _ => is_space c = true end.
Proof.
  destruct s as [|c s]; cbn [match_prefix space_or_end nullable deriv]; [done|].
  destruct (is_space c); cbn [mk_alt orb]; [by destruct s|].
  split; [|done]. by induction s.
Qed.

Lemma match_lock_clause s : match_prefix (Seq (Star (Class not_newline)) lock_clause) s = true ↔ locks s.
Proof.
  rewrite match_prefix_spec. unfold locks. split.
  - intros (p & rest & -> & (x & q & -> & Hx%matches_Star_Class & H)%matches_Seq).
    assert (∃ kw e, q = kw ++ e ∧ lock_words kw ∧ matches space_or_end e rest) as (kw & e & -> & Hk & He).
    { apply matches_Alt in H as [H|H]; apply matches_Seq in H as (f & ? & -> & Hf%matches_fold_word & H).
      - apply matches_Seq in H as (w & ? & -> & [Hn Hw]%matches_Plus_Class & H).
        apply matches_Seq in H as (u & e & -> & Hu%matches_fold_word & H).
        exists (f ++ w ++ u), e. split_and!; [by rewrite <- !app_assoc| |done]. left. by exists f, w, u.
      - eexists _, _. split_and!; [done|by right|done]. }
    exists x, kw, (e ++ rest). split_and!; [by rewrite <- !app_assoc|done..|].
    apply match_space_or_end, match_prefix_spec. eauto.
  - intros (x & kw & tail & -> & Hx & Hk & Ht).
    apply match_space_or_end, match_prefix_spec in Ht as (e & rest & -> & He).
    exists (x ++ kw ++ e), rest. split; [by rewrite <- !app_assoc|].
    apply m_seq; [by apply matches_Star_Class|]. destruct Hk as [(f & w & u & -> & Hf & Hn & Hw & Hu)|Hk].
    + rewrite <- !app_assoc. apply m_alt_l. unfold spaces1.
      repeat (apply m_seq); rewrite ?matches_Plus_Class, ?matches_fold_word; done.
    + apply m_alt_r, m_seq; [by apply matches_fold_word|done].
Qed.

Lemma match_matcher sql : match_prefix matcher sql = true ↔ ∃ rest, select_prefix sql rest.
Proof.
  unfold matcher. rewrite match_select_then. split; [naive_solver|].
  intros [rest ?]. exists rest. split; [done|]. by destruct rest.
Qed.

Lemma match_matcherForUpdate sql : match_prefix matcherForUpdate sql = true ↔
  ∃ rest, select_prefix sql rest ∧ locks rest.
Proof. unfold matcherForUpdate. rewrite match_select_then. by setoid_rewrite match_lock_clause. Qed.

Lemma IsRead_iff sql : IsRead sql = true ↔
  (∃ rest, select_prefix sql rest) ∧ ¬ ∃ rest, select_prefix sql rest ∧ locks rest.
Proof.
  rewrite <- match_matcher, <- match_matcherForUpdate. unfold IsRead.
  destruct (match_prefix matcher sql), (match_prefix matcherForUpdate sql); naive_solver.
Qed.

(** *** Statements that are written plainly *)

(** A comment on one line that has no end of a comment before its own. *)
Definition real_comment (c : bytes) : Prop :=
  is_comment c ∧ ∀ a b, c = (a ++ str "*/") ++ b → b = [].

(** A statement on one line, without blanks or a comment in front and without the end of a
    comment in it. *)
Record plain (body : bytes) : Prop := {
  pl_line : one_line body;
  pl_front : match body with c :: _ => is_space c = false | [] => False end;
  pl_open : ∀ b, body ≠ str "/*" ++ b;
  pl_closed : ∀ a b, body ≠ (a ++ str "*/") ++ b
}.

(** The word select and a blank at least, in front of [rest]. *)
Definition selects (body rest : bytes) : Prop :=
  ∃ kw w, body = kw ++ w ++ rest ∧ folds (str "select") kw ∧ w ≠ [] ∧ blank w.

(** For update or nextval somewhere, with a blank or the end behind it. *)
Definition locked (rest : bytes) : Prop :=
  ∃ x kw tail, rest = x ++ kw ++ tail ∧ lock_words kw ∧ match tail with [] => True | c :: _ => is_space c = true end.

Lemma snoc2 (a : bytes) : a ++ str "*/" = (a ++ [42]) ++ [47].
Proof. by rewrite <- app_assoc. Qed.

Lemma comment_snoc c : is_comment c → ∃ x, c = 47 :: 42 :: x ++ [42; 47].
Proof. intros (x & -> & _). by exists x. Qed.

(** The end of a comment that lies over the border of two texts starts in the first. *)
Lemma closed_app (c t a b : bytes) : last c ≠ Some 42 → c ++ t = (a ++ str "*/") ++ b →
  (∃ l, c = (a ++ str "*/") ++ l ∧ b = l ++ t) ∨ ∃ a', t = (a' ++ str "*/") ++ b.
Proof.
  intros Hc E. apply app_eq_app in E as (l & [[E ->]|[E ->]]); [left; eauto|].
  destruct l as [|y l _] using rev_ind; [left; exists []; by rewrite !app_nil_r in *|].
  rewrite snoc2, app_assoc in E. apply app_inj_tail in E as [E <-]. destruct l as [|z l _] using rev_ind.
  { rewrite app_nil_r in E. subst c. by rewrite last_snoc in Hc. }
  rewrite app_assoc in E. apply app_inj_tail in E as [_ <-]. right. exists l. by rewrite snoc2.
Qed.

Lemma comment_last c : is_comment c → last c ≠ Some 42.
Proof. intros (x & ->)%comment_snoc. rewrite app_comm_cons, app_comm_cons, (app_assoc _ [42] [47]), last_snoc. done. Qed.

(** In a row of comments a comment ends where the next one starts, or the row ends. *)
Lemma comment_ends cs a b : Forall real_comment cs → concat cs = (a ++ str "*/") ++ b → ∃ cs', b = concat cs' ∧ Forall real_comment cs'.
Proof.
  intros H. revert a. induction H as [|c cs [Hi Hc] H IH]; intros a; cbn [concat].
  { intros E. by destruct a. }
  intros [(l & E & ->)|[a' E]]%closed_app; [|by eapply IH|by apply comment_last].
  apply Hc in E as ->. by exists cs.
Qed.

Lemma concat_last cs : Forall real_comment cs → cs ≠ [] → ∃ a, concat cs = a ++ str "*/".
Proof.
  intros H Hn. destruct cs as [|c cs _] using rev_ind; [done|]. apply Forall_app in H as [_ [[Hc _] _]%Forall_cons_1].
  destruct Hc as (x & -> & _). exists (concat cs ++ str "/*" ++ x). rewrite concat_app. cbn [concat]. by rewrite app_nil_r, <- !app_assoc.
Qed.

Lemma concat_comments cs : Forall is_comment cs → cs ≠ [] → ∃ a b, concat cs = a ++ str "*/" ∧ concat cs = 47 :: 42 :: b.
Proof.
  intros H Hn. assert (∃ b, concat cs = 47 :: 42 :: b) as [b Eb].
  { destruct H as [|c cs (x & ->)%comment_snoc _]; [done|]. cbn [concat app]. eauto. }
  destruct cs as [|c cs _] using rev_ind; [done|]. apply Forall_app in H as [_ [Hc _]%Forall_cons_1].
  destruct Hc as (x & -> & _). exists (concat cs ++ str "/*" ++ x), b. split; [|done]. rewrite concat_app. cbn [concat]. by rewrite app_nil_r, <- !app_assoc.
Qed.

(** Blanks in front of two texts that start otherwise. *)
Lemma blank_unique (w w' s s' : bytes) : blank w → blank w' → w ++ s = w' ++ s' →
  match s with c :: _ => is_space c = false | [] => False end → match s' with c :: _ => is_space c = false | [] => False end → w = w' ∧ s = s'.
Proof.
  intros Hw Hw' E Hs Hs'. apply app_eq_app in E as (l & [[-> E]|[-> E]]); destruct l as [|c l]; try (by rewrite app_nil_r).
  - apply Forall_app in Hw as [_ [Hc _]%Forall_cons_1]. subst s'. cbn in Hs'. congruence.
  - apply Forall_app in Hw' as [_ [Hc _]%Forall_cons_1]. subst s. cbn in Hs. congruence.
Qed.

Lemma select_front kw w : folds (str "select") kw → ∃ c l, kw ++ w = c :: l ∧ is_space c = false ∧ c ≠ 47.
Proof. inversion 1 as [|? x ? ? [-> | ->]|]; subst; eexists _, _; (split; [reflexivity|done]). Qed.

(** On a plain statement the expression has no choice: it takes the comments as they are. *)
Lemma select_prefix_body w1 cs w2 body rest : blank w1 → Forall real_comment cs → blank w2 → plain body →
  select_prefix (w1 ++ concat cs ++ w2 ++ body) rest ↔ selects body rest.
Proof.
  intros H1 Hc H2 [Hline Hf Ho Hcl]. split.
  2: { intros (kw & w & -> & Hk & Hn & Hw). exists w1, cs, w2, kw, w. split_and!; try done. eapply Forall_impl; [exact Hc|]. by intros c []. }
  intros (v1 & ds & v2 & kw & w & E & V1 & Hd & V2 & Hk & Hn & Hw).
  destruct (select_front kw (w ++ rest) Hk) as (k & kl & Ek & Hk1 & Hk2).
  assert (HR : match kw ++ w ++ rest with c :: _ => is_space c = false | [] => False end) by (by rewrite Ek).
  enough (body = kw ++ w ++ rest) as -> by (by exists kw, w).
  set (R := kw ++ w ++ rest) in *. clearbody R. clear Hk Hn Hw kw w rest.
  destruct (decide (cs = [])) as [->|Hcs], (decide (ds = [])) as [->|Hds]; cbn [concat app] in E.
  - rewrite !app_assoc in E. by apply blank_unique in E as [_ E]; [|apply Forall_app_2..| |].
  - destruct (concat_comments ds Hd Hds) as (_ & b & _ & Eb). rewrite app_assoc, Eb in E.
    apply blank_unique in E as [_ E]; [|by apply Forall_app_2|done..]. by destruct (Ho (b ++ v2 ++ R)).
  - destruct (concat_comments cs (Forall_impl _ _ _ Hc (λ c H, proj1 H)) Hcs) as (_ & b & _ & Eb). rewrite (app_assoc v1), Eb in E.
    apply blank_unique in E as [_ E]; [|done|by apply Forall_app_2|done..]. rewrite Ek in E. by injection E as <-.
  - destruct (concat_comments cs (Forall_impl _ _ _ Hc (λ c H, proj1 H)) Hcs) as (ac & bc & Ec & Ec'), (concat_comments ds Hd Hds) as (ad & bd & Ed & Ed').
    apply blank_unique in E as [_ E]; [|done|done|by rewrite Ec'|by rewrite Ed'].
    rewrite Ed in E. apply closed_app in E as [(l & El & E)|[a' E]].
    + destruct (comment_ends cs ad l Hc El) as (cs' & -> & Hcs'). destruct (decide (cs' = [])) as [->|Hn].
      * cbn [concat app] in E. apply blank_unique in E as [_ E]; [congruence|done..].
      * destruct (concat_comments cs' (Forall_impl _ _ _ Hcs' (λ c H, proj1 H)) Hn) as (_ & b & _ & Eb). rewrite Eb in E. exfalso.
        destruct v2 as [|y v2]; cbn [app] in E; [rewrite Ek in E; by injection E as ->|]. injection E as -> _. by apply Forall_cons_1 in V2 as [? _].
    + exfalso. apply closed_app in E as [(l & El & _)|[a'' E]]; [| |intros Hl].
      * rewrite El in H2. apply Forall_app in H2 as [[_ H2]%Forall_app _]. by apply Forall_cons_1 in H2 as [? _].
      * by destruct (Hcl a'' (v2 ++ R)).
      * apply last_Some in Hl as [l' ->]. apply Forall_app in H2 as [_ H2]. by apply Forall_cons_1 in H2 as [? _].
    + rewrite Ec, snoc2, last_snoc. done.
Qed.

Lemma locked_locks rest : one_line rest → locks rest ↔ locked rest.
Proof.
  intros Hl. split; intros (x & kw & tail & -> & H); exists x, kw, tail; [by destruct H as (_ & ? & ?)|].
  apply Forall_app in Hl as [Hl _]. by destruct H.
Qed.



(** A statement between two comments is not seen: what counts is the word behind the last
    comment of the line. *)
Theorem hidden_statement_is_read :
  IsRead (str "/* a */ delete from t /* b */ select 1") = true ∧
  Parse (str "/* a */ delete from t /* b */ select 1") = (true, false).
Proof. split; vm_compute; reflexivity. Qed.

(** ** Line breaks *)

Lemma blank_head w c s r : blank w → w ++ s = c :: r → is_space c = false → w = [] ∧ s = c :: r.
Proof.
  intros Hw E Hc. destruct w as [|x w]; [done|]. simplify_eq/=. apply Forall_cons_1 in Hw as [? _]. congruence.
Qed.

Lemma folds_head w s c x : folds (c :: w) (x :: s) → x ≠ 197 → (x = c ∨ x = c - 32) ∧ folds w s.
Proof. inversion 1; subst; naive_solver. Qed.

(** After the plain word and one blank, only one continuation is possible. *)
Lemma select_prefix_plain r rest : select_prefix (str "select " ++ r) rest →
  match r with c :: _ => is_space c = false | [] => False end → rest = r.
Proof.
  intros (w1 & cs & w2 & kw & w3 & E & H1 & Hc & H2 & Hk & Hn & H3) Hr.
  symmetry in E. apply blank_head in E as [-> E]; [|done..].
  assert (cs = []) as ->. { destruct Hc as [|? cs (x & -> & _)]; [done|]. by simplify_eq/=. }
  cbn [concat app] in E. apply blank_head in E as [-> E]; [|done..].
  change (str "select " ++ r) with (115 :: 101 :: 108 :: 101 :: 99 :: 116 :: 32 :: r) in E.
  change (str "select") with [115; 101; 108; 101; 99; 116] in Hk.
  repeat (destruct kw as [|? kw]; [by inversion Hk|]; cbn [app] in E; injection E as -> E;
    apply folds_head in Hk as [_ Hk]; [|done]).
  assert (kw = []) as -> by (by inversion Hk). cbn [app] in E.
  destruct w3 as [|y w3]; [done|]. injection E as _ E. apply Forall_cons_1 in H3 as [_ H3].
  destruct r as [|c r]; [done|]. by apply blank_head in E as [_ ->].
Qed.

(** The clause has to start on the first line. *)
Lemma locks_first_line a b : one_line a →
  Forall (λ c, c ∉ [102; 70; 110; 78]) a → ¬ locks (a ++ 10 :: b).
Proof.
  intros Ha Hf (x & kw & tail & E & Hx & Hk & _).
  assert (∃ k kw', kw = k :: kw' ∧ k ∈ [102; 70; 110; 78]) as (k & kw' & -> & Hkw).
  { destruct Hk as [(f & w & u & -> & Hf' & _)|Hk].
    - inversion Hf' as [|? y ? ? Hy|]; subst. eexists y, _. split; [done|]. destruct Hy as [-> | ->]; by_decide.
    - inversion Hk as [|? y ? ? Hy|]; subst. eexists y, _. split; [done|]. destruct Hy as [-> | ->]; by_decide. }
  apply app_eq_app in E as (l & [[-> E]|[-> E]]); destruct l as [|c l]; simplify_eq/=.
  - revert Hkw. by_decide.
  - apply Forall_app in Hf as [_ [? _]%Forall_cons_1]. done.
  - revert Hkw. by_decide.
  - apply Forall_app in Hx as [_ [? _]%Forall_cons_1]. done.
Qed.

(** A locking query is taken for a read when the clause that locks is on a later line
    than the select list: the dot of the expression stops at the line break. *)
Theorem IsRead_next_line a b : one_line a → Forall (λ c, c ∉ [102; 70; 110; 78]) a →
  match a with c :: _ => is_space c = false | [] => False end →
  IsRead (str "select " ++ a ++ 10 :: b) = true.
Proof.
  intros Ha Hf Hs. apply IsRead_iff. split.
  - exists (a ++ 10 :: b), [], [], [], (str "select"), [32]. split_and!; try done; repeat constructor.
  - intros (rest & Hp%select_prefix_plain & Hl); [|by destruct a]. subst rest. by apply (locks_first_line a b).
Qed.

Lemma IsRead_next_line_witness : IsRead (str "select * " ++ 10 :: str "from accounts for update") = true.
Proof.
  apply (IsRead_next_line (str "* ") (str "from accounts for update")); [repeat constructor| |done].
  by_decide.
Defined.

(** ** The scanner is the expression *)

Lemma span_spec p s : let '(a, b) := span p s in
  s = a ++ b ∧ Forall (λ c, p c = true) a ∧ match b with [] => True | c :: _ => p c = false end.
Proof.
  induction s as [|c s IH]; cbn [span]; [done|]. destruct (p c) eqn:E; [|done].
  destruct (span p s) as [a b]. destruct IH as (-> & ? & ?). by repeat constructor.
Qed.

(** What is left of a text after a prefix in the class that is not the longest one. *)
Lemma span_longest p s a b : s = a ++ b → Forall (λ c, p c = true) a →
  ∃ l, (span p s).1 = a ++ l ∧ b = l ++ (span p s).2.
Proof.
  intros -> Ha. induction Ha as [|c a Hc _ IH]; cbn [span app].
  - pose proof (span_spec p b) as H. destruct (span p b) as [l r]. exists l. naive_solver.
  - rewrite Hc. destruct (span p (a ++ b)) as [x y]. destruct IH as (l & E & ?). exists l. simplify_eq/=. done.
Qed.

Lemma backtick_spec s : let '(q, r) := backtick s in
  s = q ++ r ∧ (q = [96] ∨ q = [] ∧ head r ≠ Some 96).
Proof. destruct s as [|c s]; cbn [backtick]; [by auto|]. destruct (Z.eqb_spec c 96); naive_solver. Qed.

Lemma backtick_nil s : head s ≠ Some 96 → backtick s = ([], s).
Proof. destruct s as [|c s]; cbn [backtick]; [done|]. destruct (Z.eqb_spec c 96); naive_solver. Qed.

(** The parts of a match of the expression. *)
Lemma matches_bind_name m rest : matches regexBindName m rest ↔
  ∃ q1 c w q2, m = 58 :: q1 ++ c :: w ++ q2 ∧ (q1 = [96] ∨ q1 = []) ∧ is_alpha c = true ∧
    Forall (λ c, is_word c = true) w ∧ (q2 = [96] ∨ q2 = []).
Proof.
  assert (Hq : ∀ s rest, matches (Opt (lit [96])) s rest ↔ s = [96] ∨ s = [])
    by (intros; unfold Opt; by rewrite matches_Alt, matches_lit, matches_Eps).
  unfold regexBindName. split.
  - intros (? & ? & -> & ->%matches_lit & H)%matches_Seq.
    apply matches_Seq in H as (? & ? & -> & (q1 & ? & -> & Hq1%Hq & (c & -> & Hc)%matches_Class)%matches_Seq & H).
    apply matches_Seq in H as (w & q2 & -> & Hw%matches_Star_Class & Hq2%Hq).
    exists q1, c, w, q2. by rewrite <- app_assoc.
  - intros (q1 & c & w & q2 & -> & ? & ? & ? & ?).
    apply (m_seq _ _ (str ":") (q1 ++ c :: w ++ q2)); [by apply matches_lit|].
    rewrite (app_assoc q1 [c] (w ++ q2) : q1 ++ c :: w ++ q2 = _).
    repeat apply m_seq; rewrite ?Hq, ?matches_Star_Class, ?matches_Class; eauto.
Qed.

Lemma is_alpha_word c : is_alpha c = true → is_word c = true.
Proof. unfold is_word. by intros ->. Qed.

Lemma is_word_not_backtick c : is_word c = true → c ≠ 96.
Proof. intros H ->. vm_compute in H. done. Qed.

(** Where the expression matches, the scanner finds a match that is not shorter. *)
Lemma bind_match_complete m' rest' : matches regexBindName m' rest' →
  ∃ m rest, bind_match (m' ++ rest') = Some (m, rest) ∧ (length m' <= length m)%nat.
Proof.
  intros (q1 & c & w & q2 & -> & Hq1 & Hc & Hw & Hq2)%matches_bind_name.
  cbn [app bind_match]. rewrite <- app_assoc. cbn [app].
  assert (backtick (q1 ++ c :: (w ++ q2) ++ rest') = (q1, c :: (w ++ q2) ++ rest')) as ->.
  { destruct Hq1 as [-> | ->]; [done|]. apply backtick_nil. cbn [app].
    intros [= ->]. by apply is_alpha_word, is_word_not_backtick in Hc. }
  rewrite Hc, <- app_assoc.
  destruct (span_longest is_word _ w (q2 ++ rest') eq_refl Hw) as (l & E1 & E2).
  pose proof (span_spec is_word (w ++ q2 ++ rest')) as Hs.
  destruct (span is_word (w ++ q2 ++ rest')) as [w2 r]. cbn [fst snd] in E1, E2. subst w2.
  destruct Hs as (_ & Hl%Forall_app & _). pose proof (backtick_spec r) as Hb. destruct (backtick r) as [q3 r3].
  eexists _, _. split; [done|]. cbn [length]. rewrite !length_app. cbn [length]. rewrite !length_app.
  destruct Hq2 as [-> | ->]; [|cbn [length]; lia]. cbn [app] in E2.
  destruct l as [|x l]; simplify_eq/=.
  - destruct Hb as [E [-> | [-> E3]]]; [cbn [length]; lia|]. cbn [app] in E. by subst r3.
  - destruct Hl as [_ [Hx _]%Forall_cons_1]. by apply is_word_not_backtick in Hx.
Qed.

(** The scanner finds a match when there is one at the front of the text, and then the
    longest, which is also the first in the order of Go's regexp package: each part of the
    expression takes what it can. *)
Lemma bind_match_spec s :
  match bind_match s with
  | Some (m, rest) => s = m ++ rest ∧ matches regexBindName m rest ∧
      ∀ m' rest', s = m' ++ rest' → matches regexBindName m' rest' → (length m' <= length m)%nat
  | None => ∀ m rest, s = m ++ rest → ¬ matches regexBindName m rest
  end.
Proof.
  destruct (bind_match s) as [[m rest]|] eqn:E.
  - assert (s = m ++ rest ∧ matches regexBindName m rest) as [-> Hm].
    { rewrite matches_bind_name. unfold bind_match in E. destruct s as [|colon s1]; [done|].
      destruct (Z.eqb_spec colon 58) as [->|]; [|done].
      pose proof (backtick_spec s1) as H1. destruct (backtick s1) as [q1 [|c s3]]; [done|].
      destruct (is_alpha c) eqn:Hc; [|done].
      pose proof (span_spec is_word s3) as H2. destruct (span is_word s3) as [w s4].
      pose proof (backtick_spec s4) as H3. destruct (backtick s4) as [q2 s5]. injection E as <- <-.
      destruct H1 as [-> H1], H2 as (-> & ? & _), H3 as [-> H3].
      split; [cbn [app]; rewrite <- app_assoc; cbn [app]; by rewrite <- app_assoc|]. exists q1, c, w, q2. naive_solver. }
    split_and!; [done..|]. intros m' rest' Es Hm'. apply bind_match_complete in Hm' as (? & ? & E' & ?).
    rewrite <- Es in E'. by simplify_eq.
  - intros m rest -> Hm. apply bind_match_complete in Hm as (? & ? & ? & ?). congruence.
Qed.

Lemma bind_match_shorter s m rest : bind_match s = Some (m, rest) → s = m ++ rest ∧ m ≠ [].
Proof.
  intros E. pose proof (bind_match_spec s) as H. rewrite E in H. destruct H as (-> & Hm & _).
  split; [done|]. apply matches_bind_name in Hm as (? & ? & ? & ? & -> & _). done.
Qed.

(** More fuel than bytes changes nothing. *)
Lemma scan_tokens fuel s : (length s <= fuel)%nat → scan fuel s = tokens s.
Proof.
  unfold tokens. remember (length s) as n eqn:En. revert fuel s En.
  induction n as [n IH] using lt_wf_ind. intros fuel s -> Hf.
  destruct fuel as [|fuel]; [by destruct s; [|cbn in Hf; lia]|].
  destruct (length s) as [|k] eqn:El.
  { destruct s; [|done]. done. }
  cbn [scan]. destruct (bind_match s) as [[m rest]|] eqn:E.
  - apply bind_match_shorter in E as [-> Hm]. rewrite length_app in El.
    assert (length m ≠ 0%nat) by (by destruct m).
    f_equal. rewrite (IH (length rest)), <- (IH (length rest) ltac:(lia) k); try done; lia.
  - destruct s as [|c s]; [done|]. cbn [length] in El. injection El as El.
    f_equal. rewrite (IH (length s)), <- (IH (length s) ltac:(lia) k); try done; lia.
Qed.

(** The equation of the loop. *)
Lemma tokens_eq s : tokens s =
  match bind_match s with
  | Some (m, rest) => inr m :: tokens rest
  | None => match s with [] => [] | c :: s => inl c :: tokens s end
  end.
Proof.
  unfold tokens at 1. destruct s as [|c s]; [done|]. cbn [length scan].
  destruct (bind_match (c :: s)) as [[m rest]|] eqn:E; f_equal.
  apply bind_match_shorter in E as [E Hm]. apply scan_tokens.
  apply (f_equal length) in E. rewrite length_app in E. cbn [length] in E. destruct m; [done|]. cbn in E. lia.
Qed.

(** Induction along the tokens of a text. *)
Lemma tokens_ind (P : bytes → Prop) :
  P [] → (∀ m rest, bind_match (m ++ rest) = Some (m, rest) → P rest → P (m ++ rest)) →
  (∀ c s, bind_match (c :: s) = None → P s → P (c :: s)) → ∀ s, P s.
Proof.
  intros H0 Hm Hc s. induction s as [s IH] using (induction_ltof1 _ length).
  destruct (bind_match s) as [[m rest]|] eqn:E.
  - pose proof (bind_match_shorter _ _ _ E) as [-> Hne]. apply Hm; [done|]. apply IH.
    unfold ltof. rewrite length_app. destruct m; [done|]. cbn. lia.
  - destruct s as [|c s]; [done|]. apply Hc; [done|]. apply IH. unfold ltof. cbn. lia.
Qed.

(** The tokens are the text. *)
Lemma tokens_concat s : concat ((λ t, match t with inr m => m | inl c => [c] end) <$> tokens s) = s.
Proof.
  induction s as [|m rest E IH|c s E IH] using tokens_ind; [done| |]; rewrite tokens_eq, E; cbn; by rewrite IH.
Qed.

(** The names are what the expression matches. *)
Lemma FindAllString_names s : Forall (λ m, ∃ rest, matches regexBindName m rest) (FindAllString s).
Proof.
  unfold FindAllString. induction s as [|m rest E IH|c s E IH] using tokens_ind; [constructor| |];
    rewrite tokens_eq, E; cbn; [|done].
  constructor; [|done]. exists rest. pose proof (bind_match_spec (m ++ rest)) as H. rewrite E in H. naive_solver.
Qed.

(** As many names are found as are replaced. *)
Lemma ReplaceAllString_length s rep :
  Z.of_nat (length (ReplaceAllString s rep)) =
  zlen s + zlen (FindAllString s) * zlen rep - zlen (concat (FindAllString s)).
Proof.
  unfold ReplaceAllString, FindAllString.
  induction s as [|m rest E IH|c s E IH] using tokens_ind; [done| |]; rewrite tokens_eq, E; cbn;
    rewrite ?length_app in *; cbn; rewrite ?length_app in *; lia.
Qed.

Lemma tokens_nil : tokens [] = [].
Proof. done. Qed.

(** A byte other than a colon is passed over. *)
Lemma bind_match_other c s : c ≠ 58 → bind_match (c :: s) = None.
Proof. intros. cbn [bind_match]. by rewrite (proj2 (Z.eqb_neq c 58)). Qed.

(** A plain name that ends before a byte that is neither a word character nor a backtick. *)
Lemma bind_match_name c w s : is_alpha c = true → Forall (λ c, is_word c = true) w →
  match s with [] => True | x :: _ => is_word x = false ∧ x ≠ 96 end →
  bind_match (58 :: c :: w ++ s) = Some (58 :: c :: w, s).
Proof.
  intros Hc Hw Hs. cbn [bind_match]. change (58 =? 58) with true. cbn [negb].
  rewrite (backtick_nil (c :: w ++ s)); [|intros [= ->]; by apply is_alpha_word, is_word_not_backtick in Hc].
  rewrite Hc.
  assert (span is_word (w ++ s) = (w, s)) as ->.
  { induction Hw as [|x w Hx _ IH]; cbn [app span].
    - destruct s as [|x s]; [done|]. cbn [span]. by rewrite (proj1 Hs).
    - by rewrite Hx, IH. }
  rewrite backtick_nil; [cbn [app]; by rewrite app_nil_r|]. destruct s as [|x s]; [done|]. intros [= ->]. naive_solver.
Qed.

End SqlParser.
