(* ===== verification/Fmt.v ===== *)
(** * Scanning and printing: what the source uses of Go's fmt and strings packages.

    Blanks are the ASCII ones. *)

From S2P Require Import Prelude.
From stdpp Require Import base list strings.
From Stdlib Require Import ZArith Lia Ascii.
Open Scope Z_scope.

Module Fmt.

(** ** Substrings *)

(** [strings.HasPrefix] *)
Fixpoint HasPrefix (s p : bytes) {struct p} : bool :=
  match p, s with
  | [], _ => true
  | c :: p, x :: s => (x =? c) && HasPrefix s p
  | _ :: _, [] => false
  end.

(** [strings.Index]: where [sub] first occurs, or -1. *)
Fixpoint index_from (i : Z) (s sub : bytes) : Z :=
  if HasPrefix s sub then i
  else match s with [] => -1 | _ :: s => index_from (i + 1) s sub end.

Definition Index (s sub : bytes) : Z := index_from 0 s sub.

(** [strings.LastIndex]: where [sub] last occurs, or -1. *)
Fixpoint last_index_from (i : Z) (s sub : bytes) : Z :=
  match s with
  | [] => if HasPrefix s sub then i else -1
  | _ :: t =>
    let r := last_index_from (i + 1) t sub in
    if r =? -1 then if HasPrefix s sub then i else -1 else r
  end.

Definition LastIndex (s sub : bytes) : Z := last_index_from 0 s sub.

(** [strings.Contains] *)
Definition Contains (s sub : bytes) : bool := 0 <=? Index s sub.

(** [strings.Split] *)
Fixpoint split_loop (fuel : nat) (s sep : bytes) : list bytes :=
  match fuel with
  | O => [s]
  | S fuel =>
    let m := Index s sep in
    if m <? 0 then [s]
    else take (Z.to_nat m) s :: split_loop fuel (drop (Z.to_nat m + length sep) s) sep
  end.

Definition Split (s sep : bytes) : list bytes := split_loop (length s) s sep.

Lemma Split_nonempty s sep : Split s sep ≠ [].
Proof. unfold Split. destruct (length s); cbn [split_loop]; repeat case_match; done. Qed.

(** ** Scanning *)

(** A format of [Sscanf]: integers, blanks and other bytes. *)
Inductive directive : Set :=
  | Dint
  | Dspace
  | Dlit (c : Z).

Definition is_blank (c : Z) : bool := (9 <=? c) && (c <=? 13) || (c =? 32).

(** [SkipSpace]: what follows the blanks, or nothing at a line break. *)
Fixpoint skip_space (s : bytes) : option bytes :=
  match s with
  | [] => Some []
  | c :: s' =>
    if c =? 10 then None
    else if (c =? 13) && (match s' with 10 :: _ => true | _ => false end) then
      match s' with _ :: s'' => skip_space s'' | [] => Some [] end
    else if is_blank c then skip_space s' else Some s
  end.

(** The longest run of decimal digits. *)
Fixpoint take_digits (s : bytes) : bytes * bytes :=
  match s with
  | c :: s' => if (48 <=? c) && (c <=? 57) then let '(d, r) := take_digits s' in (c :: d, r) else ([], s)
  | [] => ([], [])
  end.

Definition in_int64 (z : Z) : bool := (- 2 ^ 63 <=? z) && (z <? 2 ^ 63).

(** [%d]: an integer that fits 64 bits, and what follows it. *)
Definition scan_int (s : bytes) : option (Z * bytes) :=
  s ← skip_space s;
  let '(neg, s) :=
    match s with
    | c :: s' => if c =? 45 then (true, s') else if c =? 43 then (false, s') else (false, s)
    | [] => (false, [])
    end in
  let '(d, r) := take_digits s in
  match d with
  | [] => None
  | _ =>
    let n := if neg : bool then - digits_val 0 d else digits_val 0 d in
    if in_int64 n then Some (n, r) else None
  end.

(** The blanks at the front, up to a line break. *)
Fixpoint drop_blanks (s : bytes) : bytes :=
  match s with
  | c :: s' => if is_blank c && negb (c =? 10) then drop_blanks s' else s
  | [] => []
  end.

(** Blanks of a format: at least one in the input, unless that is at its end. *)
Definition scan_space (s : bytes) : option bytes :=
  match s with
  | [] => Some []
  | c :: s' => if is_blank c && negb (c =? 10) then Some (drop_blanks s') else None
  end.

(** [fmt.Sscanf]: the integers stored before the input and the format part. *)
Fixpoint Sscanf (f : list directive) (s : bytes) : list Z :=
  match f with
  | [] => []
  | Dint :: f => match scan_int s with Some (n, s) => n :: Sscanf f s | None => [] end
  | Dspace :: f => match scan_space s with Some s => Sscanf f s | None => [] end
  | Dlit c :: f =>
    match s with
    | x :: s => if x =? c then Sscanf f s else []
    | [] => []
    end
  end.

(** The format of a string without other verbs than [%d]. *)
Fixpoint format (s : string) : list directive :=
  match s with
  | EmptyString => []
  | String "%"%char (String "d"%char s) => Dint :: format s
  | String " "%char s => Dspace :: format s
  | String c s => Dlit (Z.of_N (Ascii.N_of_ascii c)) :: format s
  end.

(** A variable that [Sscanf] stores, zero when it does not get that far. *)
Definition scanned (l : list Z) (i : nat) : Z := default 0 (l !! i).

(** [%02d] and [%+03d] *)
Definition pad2 (n : Z) : bytes := if (0 <=? n) && (n <? 10) then 48 :: itoa n else itoa n.
Definition sign_pad3 (n : Z) : bytes :=
  if n <? 0 then 45 :: pad2 (- n) else 43 :: pad2 n.

(** ** Reading back what was printed *)

Lemma take_digits_app ds s : Forall is_digit ds →
  match s with [] => True | c :: _ => ¬ is_digit c end → take_digits (ds ++ s) = (ds, s).
Proof.
  intros Hd Hs. induction Hd as [|d ds Hd _ IH]; cbn [app take_digits].
  - destruct s as [|c s]; [done|]. cbn [take_digits]. unfold is_digit in Hs.
    destruct (Z.leb_spec 48 c), (Z.leb_spec c 57); cbn [andb]; try done. lia.
  - unfold is_digit in Hd. rewrite !(proj2 (Z.leb_le _ _)), IH by lia. done.
Qed.

Lemma skip_space_digit d s : is_digit d → skip_space (d :: s) = Some (d :: s).
Proof.
  unfold is_digit. intros Hd. cbn [skip_space]. unfold is_blank.
  rewrite (proj2 (Z.eqb_neq d 10)), (proj2 (Z.eqb_neq d 13)), (proj2 (Z.eqb_neq d 32)) by lia.
  rewrite (proj2 (Z.leb_gt d 13)) by lia. by rewrite andb_false_r.
Qed.

Lemma scan_int_digits ds s : Forall is_digit ds → ds ≠ [] → digits_val 0 ds < 2 ^ 63 →
  match s with [] => True | c :: _ => ¬ is_digit c end → scan_int (ds ++ s) = Some (digits_val 0 ds, s).
Proof.
  intros Hd Hne Hv Hs. pose proof (take_digits_app ds s Hd Hs) as Ht.
  pose proof (digits_val_mono 0 ds ltac:(lia) Hd). destruct ds as [|d ds]; [done|].
  apply Forall_cons_1 in Hd as [Hd _]. unfold scan_int. cbn [app] in *. rewrite skip_space_digit by done.
  cbn [mbind option_bind]. unfold is_digit in Hd. rewrite (proj2 (Z.eqb_neq d 45)), (proj2 (Z.eqb_neq d 43)) by lia.
  rewrite Ht. cbn [negb]. unfold in_int64. rewrite (proj2 (Z.leb_le _ _)), (proj2 (Z.ltb_lt _ _)) by lia. done.
Qed.

Lemma pad2_spec n : 0 <= n → Forall is_digit (pad2 n) ∧ pad2 n ≠ [] ∧ digits_val 0 (pad2 n) = n.
Proof.
  intros Hn. destruct (itoa_spec n Hn) as (F & Hne & V). unfold pad2.
  destruct (_ && _); [|done]. split_and!; [|done|by rewrite digits_val_cons].
  constructor; [|done]. unfold is_digit. lia.
Qed.

(** The text of a number, with leading zeros or without. *)
Definition numeral (ds : bytes) (n : Z) : Prop := Forall is_digit ds ∧ ds ≠ [] ∧ digits_val 0 ds = n.

Lemma pad2_numeral n : 0 <= n → numeral (pad2 n) n.
Proof. apply pad2_spec. Qed.
Lemma itoa_numeral n : 0 <= n → numeral (itoa n) n.
Proof. apply itoa_spec. Qed.

Lemma scan_numeral ds n s : numeral ds n → n < 2 ^ 63 → match s with [] => True | c :: _ => ¬ is_digit c end →
  scan_int (ds ++ s) = Some (n, s).
Proof. intros (? & ? & <-) ? ?. by apply scan_int_digits. Qed.

(** A number, then the byte the format has next; or blanks and another number. *)
Lemma Sscanf_lit ds n c f s : numeral ds n → n < 2 ^ 63 → ¬ is_digit c →
  Sscanf (Dint :: Dlit c :: f) (ds ++ c :: s) = n :: Sscanf f s.
Proof. intros. cbn [Sscanf]. rewrite (scan_numeral ds n) by done. by rewrite Z.eqb_refl. Qed.

Lemma Sscanf_end ds n : numeral ds n → n < 2 ^ 63 → Sscanf [Dint] ds = [n].
Proof. intros. cbn [Sscanf]. rewrite <- (app_nil_r ds), (scan_numeral ds n) by done. done. Qed.

Lemma Sscanf_space ds n ds' n' f s : numeral ds n → n < 2 ^ 63 → numeral ds' n' →
  Sscanf (Dint :: Dspace :: f) (ds ++ 32 :: ds' ++ s) = n :: Sscanf f (ds' ++ s).
Proof.
  intros Hd Hn (F & Hne & _). cbn [Sscanf]. rewrite (scan_numeral ds n) by (done || (unfold is_digit; lia)). f_equal.
  unfold scan_space. change (is_blank 32 && negb (32 =? 10)) with true. cbv iota.
  destruct ds' as [|d ds']; [done|]. apply Forall_cons_1 in F as [Hd' _]. unfold is_digit in Hd'.
  cbn [app drop_blanks]. unfold is_blank. rewrite (proj2 (Z.leb_gt d 13)), (proj2 (Z.eqb_neq d 32)) by lia. by rewrite andb_false_r.
Qed.

(** Where a byte first occurs. *)
Lemma Index_byte c (s1 s2 : bytes) : Forall (λ x, x ≠ c) s1 → Index (s1 ++ c :: s2) [c] = zlen s1.
Proof.
  unfold Index. intros H. change (zlen s1) with (0 + zlen s1). generalize 0 as i.
  induction H as [|x s1 Hx _ IH]; intros i; cbn [app index_from HasPrefix].
  - rewrite Z.eqb_refl. cbn. lia.
  - rewrite (proj2 (Z.eqb_neq x c)) by done. cbn [andb]. rewrite IH. cbn [length]. lia.
Qed.

Lemma Index_byte_none c (s : bytes) : Forall (λ x, x ≠ c) s → Index s [c] = -1.
Proof.
  unfold Index. intros H. generalize 0 as i.
  induction H as [|x s Hx _ IH]; intros i; cbn [index_from HasPrefix]; [done|].
  rewrite (proj2 (Z.eqb_neq x c)) by done. cbn [andb]. apply IH.
Qed.

End Fmt.
