(* ===== verification/Adapter.v ===== *)
(** * The database adapters of the worker (worker/mysqlworker/adapter.go,
    worker/oracleworker/adapter.go) and their interface (worker/shared/cmdprocessor.go). *)

From S2P Require Import Prelude Codes Fmt.
From stdpp Require Import base list strings.
From Stdlib Require Import ZArith Lia.
Open Scope Z_scope.

Module Adapter.
Import Codes Fmt.

(** ** The interface *)

Record QueryScopeType := mkQueryScope { NsCmd : bytes; SqlHash : bytes }.
Record WorkerScopeType := mkWorkerScope { Child_shutdown_flag : bool }.

(** [CmdProcessorAdapter], without the two functions that use the connection. [ProcessError]
    gets pointers: it returns what it leaves in the two scopes. *)
Record CmdProcessorAdapter := mkAdapter {
  GetColTypeMap : bytes → Z;
  ProcessError : go_error → WorkerScopeType → QueryScopeType → result (WorkerScopeType * QueryScopeType);
  ProcessResult : bytes → bytes → bytes;
  UseBindNames : bool
}.

(** A Go map with a missing key gives zero. *)
Definition map_get (m : list (string * Z)) (k : bytes) : Z :=
  match list_find (λ e, str (fst e) = k) m with Some (_, (_, v)) => v | None => 0 end.

(** ** MySQL *)

Module Mysql.

Definition colTypeMap : list (string * Z) :=
  [("NULL", 0); ("CHAR", 1); ("DECIMAL", 2); ("INT", 3); ("FLOAT", 4); ("BIGINT", 8); ("DOUBLE", 22);
   ("BINARY", 23); ("VARCHAR", 5); ("BLOB", 113); ("CLOB", 112); ("TEXT", 112); ("DATE", 184);
   ("TIMESTAMP", 185)]%string.

(** The error numbers after which the worker is recycled; zero when there is no number. *)
Definition fatal_errnos : list Z :=
  [0; 1153; 1154; 1155; 1156; 1157; 1158; 1159; 1160; 1161; 1317; 1836; 1874; 1878].

Definition ProcessError (e : go_error) (ws : WorkerScopeType) (qs : QueryScopeType)
    : result (WorkerScopeType * QueryScopeType) :=
  let errStr := Error_text e in
  if HasPrefix errStr (str "driver: bad connection") then Ret (mkWorkerScope true, qs)
  else
    let idx := Index errStr (str ":") in
    if (idx <? 0) || (zlen errStr <=? idx) then Ret (ws, qs)
    else
      num ← slice errStr 6 idx;
      let errno := scanned (Sscanf (format "%d") num) 0 in
      Ret (if bool_decide (errno ∈ fatal_errnos) then mkWorkerScope true else ws, qs).

(** [fmt.Sprintf("%02d-%02d-%d %02d:%02d:%02d.000", ...)] *)
Definition print_time (day month year hour min sec : Z) : bytes :=
  pad2 day ++ str "-" ++ pad2 month ++ str "-" ++ itoa year ++ str " " ++
  pad2 hour ++ str ":" ++ pad2 min ++ str ":" ++ pad2 sec ++ str ".000".

Definition ProcessResult (colType res : bytes) : bytes :=
  if bool_decide (colType = str "DATE") then
    let v := scanned (Sscanf (format "%d-%d-%d") res) in
    print_time (v 2%nat) (v 1%nat) (v 0%nat) 0 0 0
  else if bool_decide (colType = str "TIMESTAMP") then
    let v := scanned (Sscanf (format "%d-%d-%d %d:%d:%d") res) in
    print_time (v 2%nat) (v 1%nat) (v 0%nat) (v 3%nat) (v 4%nat) (v 5%nat)
  else res.

Definition mysqlAdapter : CmdProcessorAdapter := {|
  GetColTypeMap := map_get colTypeMap;
  Adapter.ProcessError := ProcessError;
  Adapter.ProcessResult := ProcessResult;
  UseBindNames := false
|}.

(** The check that the database takes writes, from what the connection does: whether it is
    there, whether this process is a worker, whether the statement can be prepared and run,
    and its first row (an error of [Scan] leaves the variable at zero). *)
Definition Heartbeat (conn worker prepared queried : bool) (row : option (go_error + Z)) : bool :=
  if negb conn then false
  else if negb worker then false
  else if negb prepared then false
  else if negb queried then false
  else match row with
       | Some (inr readOnly) => readOnly =? 0
       | Some (inl _) => true
       | None => false
       end.

Section InitDB.

(** A handle of database/sql; opening one, and the check of this file on it. *)
Context {DB : Type} (Open : bytes → go_error + DB) (writable : DB → bool).

(** The loop over the data sources, with the variables [db] and [err] of the source. *)
Fixpoint try_sources (user pass : bytes) (dss : list bytes) (db : option DB) (err : option go_error)
    : option DB * option go_error :=
  match dss with
  | [] => (db, err)
  | curDs :: dss =>
    match Open (user ++ str ":" ++ pass ++ str "@" ++ curDs) with
    | inl e => try_sources user pass dss None (Some e)
    | inr d =>
      if writable d then (Some d, None)
      else try_sources user pass dss (Some d) (Some (errors_New (str "cannot use read-only conn " ++ curDs)))
    end
  end.

Definition InitDB (user pass ds : bytes) : option DB * option go_error :=
  if bool_decide (user = []) then (None, Some (errors_New (str "Can't get 'username' from env")))
  else if bool_decide (pass = []) then (None, Some (errors_New (str "Can't get 'password' from env")))
  else if bool_decide (ds = []) then (None, Some (errors_New (str "Can't get 'mysql_datasource' from env")))
  else try_sources user pass (Split ds (str "||")) None None.

(** The data source that is used is the first one that can be opened and written to. *)
Lemma try_sources_first user pass dss d0 e0 d : try_sources user pass dss d0 e0 = (Some d, None) → d0 = None ∨ e0 ≠ None →
  ∃ before curDs after, dss = before ++ curDs :: after ∧ Open (user ++ str ":" ++ pass ++ str "@" ++ curDs) = inr d ∧
    writable d = true ∧
    Forall (λ ds, ∀ d', Open (user ++ str ":" ++ pass ++ str "@" ++ ds) = inr d' → writable d' = false) before.
Proof.
  revert d0 e0. induction dss as [|ds dss IH]; intros d0 e0 E He; cbn [try_sources] in E; [naive_solver|].
  destruct (Open _) as [e|d'] eqn:Eo.
  - destruct (IH _ _ E ltac:(by right)) as (b & c & a & -> & ? & ? & ?). exists (ds :: b), c, a. split_and!; [done..|].
    constructor; [|done]. intros ? ?. congruence.
  - destruct (writable d') eqn:Ew.
    + injection E as ->. exists [], ds, dss. by split_and!.
    + destruct (IH _ _ E ltac:(by right)) as (b & c & a & -> & ? & ? & ?). exists (ds :: b), c, a. split_and!; [done..|].
      constructor; [|done]. intros ? ?. congruence.
Qed.

Lemma InitDB_first_writable user pass ds d : InitDB user pass ds = (Some d, None) →
  ∃ before curDs after, Split ds (str "||") = before ++ curDs :: after ∧
    Open (user ++ str ":" ++ pass ++ str "@" ++ curDs) = inr d ∧ writable d = true ∧
    Forall (λ ds, ∀ d', Open (user ++ str ":" ++ pass ++ str "@" ++ ds) = inr d' → writable d' = false) before.
Proof.
  unfold InitDB. repeat case_bool_decide; try done. intros E. by apply try_sources_first in E; [|left].
Qed.

Lemma try_sources_err user pass dss d0 e0 : (dss = [] → e0 ≠ None) →
  (try_sources user pass dss d0 e0).2 = None ↔
  ∃ curDs d, curDs ∈ dss ∧ Open (user ++ str ":" ++ pass ++ str "@" ++ curDs) = inr d ∧ writable d = true.
Proof.
  revert d0 e0. induction dss as [|ds dss IH]; intros d0 e0 He; cbn [try_sources].
  { split; [intros E; by destruct (He eq_refl)|intros (? & ? & Hin & _); by apply elem_of_nil in Hin]. }
  destruct (Open _) as [e|d'] eqn:Eo; [|destruct (writable d') eqn:Ew].
  - rewrite IH by done. split.
    + intros (c & d & ? & ?). exists c, d. split; [by right|done].
    + intros (c & d & [->|?]%elem_of_cons & Hd & ?); [congruence|by exists c, d].
  - split; [|done]. intros _. exists ds, d'. split; [by left|done].
  - rewrite IH by done. split.
    + intros (c & d & ? & ?). exists c, d. split; [by right|done].
    + intros (c & d & [->|?]%elem_of_cons & Hd & ?); [congruence|by exists c, d].
Qed.

(** The initialization succeeds exactly when the environment is complete and one of the data
    sources can be opened and written to. *)
Lemma InitDB_err user pass ds : (InitDB user pass ds).2 = None ↔
  user ≠ [] ∧ pass ≠ [] ∧ ds ≠ [] ∧ ∃ curDs d, curDs ∈ Split ds (str "||") ∧
    Open (user ++ str ":" ++ pass ++ str "@" ++ curDs) = inr d ∧ writable d = true.
Proof.
  unfold InitDB. repeat case_bool_decide; cbn [snd]; try (split; [done|naive_solver]).
  rewrite try_sources_err by (intros E; by destruct (Split_nonempty _ _ E)). naive_solver.
Qed.

End InitDB.

(** The text of a date and of a time in the result of a query. *)
Lemma ProcessResult_DATE year month day :
  0 <= year < 2 ^ 63 → 0 <= month < 2 ^ 63 → 0 <= day < 2 ^ 63 →
  ProcessResult (str "DATE") (itoa year ++ str "-" ++ pad2 month ++ str "-" ++ pad2 day) = print_time day month year 0 0 0.
Proof.
  intros. unfold ProcessResult. rewrite bool_decide_true by done. change (str "-") with [45]. cbn [app].
  change (format "%d-%d-%d") with [Dint; Dlit 45; Dint; Dlit 45; Dint].
  rewrite (Sscanf_lit _ year), (Sscanf_lit _ month), (Sscanf_end _ day); try done;
    first [apply pad2_numeral; lia | apply itoa_numeral; lia | lia | by intros [? ?]].
Qed.

Lemma ProcessResult_TIMESTAMP year month day hour min sec :
  0 <= year < 2 ^ 63 → 0 <= month < 2 ^ 63 → 0 <= day < 2 ^ 63 → 0 <= hour < 2 ^ 63 → 0 <= min < 2 ^ 63 → 0 <= sec < 2 ^ 63 →
  ProcessResult (str "TIMESTAMP") (itoa year ++ str "-" ++ pad2 month ++ str "-" ++ pad2 day ++ str " " ++
    pad2 hour ++ str ":" ++ pad2 min ++ str ":" ++ pad2 sec) = print_time day month year hour min sec.
Proof.
  intros. unfold ProcessResult. rewrite bool_decide_false, bool_decide_true by done.
  change (str "-") with [45]. change (str " ") with [32]. change (str ":") with [58]. cbn [app].
  change (format "%d-%d-%d %d:%d:%d") with [Dint; Dlit 45; Dint; Dlit 45; Dint; Dspace; Dint; Dlit 58; Dint; Dlit 58; Dint].
  rewrite (Sscanf_lit _ year), (Sscanf_lit _ month), (Sscanf_space _ day _ hour), (Sscanf_lit _ hour), (Sscanf_lit _ min),
    (Sscanf_end _ sec); try done;
    first [apply pad2_numeral; lia | apply itoa_numeral; lia | lia | by intros [? ?]].
Qed.

(** The MySQL adapter panics on an error whose text has a colon among its first six
    bytes, as those of database/sql have, which begin with sql: it takes the error number from
    the sixth byte up to the first colon. *)
Theorem ProcessError_early_colon_panics (name msg : bytes) (ws : WorkerScopeType) (qs : QueryScopeType) :
  Forall (λ c, c ≠ 58) name → (length name < 6)%nat →
  ProcessError (errors_New (name ++ 58 :: msg)) ws qs = Panic.
Proof.
  intros Hn Hl. unfold ProcessError. cbn [Error_text].
  assert (HasPrefix (name ++ 58 :: msg) (str "driver: bad connection") = false) as ->.
  { do 6 (destruct name as [|? name]; [cbn; by rewrite ?andb_false_r|]). cbn in Hl. lia. }
  change (str ":") with [58]. rewrite Index_byte by done.
  rewrite (proj2 (Z.ltb_ge _ 0)), (proj2 (Z.leb_gt _ _)) by (rewrite ?length_app; cbn [length]; lia). cbn [orb].
  unfold slice. by rewrite (proj2 (Z.leb_gt 6 _)) by lia.
Qed.

Lemma ProcessError_early_colon_panics_witness :
  ProcessError (errors_New (str "sql: expected 2 arguments, got 1")) (mkWorkerScope false) (mkQueryScope [] []) = Panic.
Proof.
  apply (ProcessError_early_colon_panics (str "sql") (str " expected 2 arguments, got 1")); [|vm_compute; lia].
  vm_compute. repeat constructor; discriminate.
Defined.

End Mysql.

(** ** Oracle *)

Module Oracle.

Definition colTypeMap : list (string * Z) :=
  [("NULL", 0); ("NUMBER", 2); ("VARCHAR2", 1); ("RAW", 23); ("LONG RAW", 113); ("LONG", 112); ("DATE", 12);
   ("TIMESTAMP", 187); ("TIMESTAMP WITH TIMEZONE", 188)]%string.

Definition ProcessError (e : go_error) (ws : WorkerScopeType) (qs : QueryScopeType)
    : result (WorkerScopeType * QueryScopeType) :=
  Ret (if Contains (Error_text e) (str "ORA-03113") then mkWorkerScope true else ws, qs).

Definition ProcessResult (colType res : bytes) : bytes :=
  if bool_decide (colType = str "DATE") || bool_decide (colType = str "TIMESTAMP") then
    let v := scanned (Sscanf (format "%d-%d-%dT%d:%d:%d") res) in
    Mysql.print_time (v 2%nat) (v 1%nat) (v 0%nat) (v 3%nat) (v 4%nat) (v 5%nat)
  else if bool_decide (colType = str "TIMESTAMP WITH TIMEZONE") then
    let v := scanned (Sscanf (format "%d-%d-%dT%d:%d:%d%d:00") res) in
    Mysql.print_time (v 2%nat) (v 1%nat) (v 0%nat) (v 3%nat) (v 4%nat) (v 5%nat) ++
      str " " ++ sign_pad3 (v 6%nat) ++ str ":00"
  else res.

Definition oracleAdapter : CmdProcessorAdapter := {|
  GetColTypeMap := map_get colTypeMap;
  Adapter.ProcessError := ProcessError;
  Adapter.ProcessResult := ProcessResult;
  UseBindNames := true
|}.

Definition InitDB {DB} (Open : bytes → go_error + DB) (user pass ds : bytes) : go_error + DB :=
  if bool_decide (user = []) then inl (errors_New (str "Can't get 'username' from env"))
  else if bool_decide (pass = []) then inl (errors_New (str "Can't get 'password' from env"))
  else if bool_decide (ds = []) then inl (errors_New (str "Can't get 'TWO_TASK' from env"))
  else Open (user ++ str "/" ++ pass ++ str "@" ++ ds).

End Oracle.

End Adapter.
