(* ===== verification/WorkerCmd.v ===== *)
(** * The commands of the worker (worker/shared/cmdprocessor.go).

    A worker reads commands from the proxy and runs them on its database connection. The
    driver behind database/sql is a parameter: class [SqlDB] has the calls the worker makes,
    each of which may change the state of the connection and may fail. As documented in
    database/sql, a call that fails returns a nil handle.

    CAL transactions are kept as far as the code depends on them: a call on a nil one
    panics. *)

From S2P Require Import Prelude GoIO Codes Netstring MysqlPackets Murmur3 ConfigFile SqlParser Fmt Adapter WorkerClient CmdProcessor.
From stdpp Require Import base list gmap strings.
From Stdlib Require Import ZArith Lia.
Open Scope Z_scope.

Module WorkerCmd.
Import Codes MysqlPackets.Mysql Netstring SqlParser Adapter WorkerClient CmdProcessor.

(** ** Values and bind variables *)

(** What is bound: nothing yet, a [sql.NullString], bytes, or the time [time.Date] makes of
    its arguments, the last being the offset of the zone in seconds. *)
Inductive value : Type :=
  | VNil
  | VString (s : option bytes)
  | VBytes (b : bytes)
  | VTime (year month day hour min sec nsec offset : Z).

Inductive bindType : Set := btUnknown | btIn | btOut.

Record BindValue := mkBind {
  bind_index : Z;
  bind_name : bytes;
  bind_value : value;
  bind_valid : bool;
  bind_type : bindType;
  bind_dataType : Z
}.

(** Arguments of a statement: plain, by name, and by name into a variable of [bindOuts]. *)
Inductive arg : Type :=
  | Positional (v : value)
  | Named (n : bytes) (v : value)
  | NamedOut (n : bytes) (out : nat).

(** ** The database *)

(** What a [sql.ColumnType] says. *)
Record coltype := mkColtype {
  col_Name : bytes;
  col_DatabaseTypeName : bytes;
  col_Length : Z * bool;
  col_DecimalSize : Z * Z * bool
}.

(** The calls of database/sql, on the state [D] of the connection. A query or statement
    also tells what it stores in the output variables; [rows_Scans] has the outcome of each
    [Scan] of a row [Next] announces, up to the first that fails. *)
Class SqlDB (D Tx Stmt Rows Res : Type) := {
  db_Begin : D → D * (go_error + Tx);
  db_Prepare : bytes → D → D * (go_error + Stmt);
  db_Query : bytes → D → D * (go_error + Rows);
  db_Exec : bytes → D → D * (go_error + Res);
  tx_Prepare : Tx → bytes → D → D * (go_error + Stmt);
  tx_Commit : Tx → D → D * option go_error;
  tx_Rollback : Tx → D → D * option go_error;
  stmt_Query : Stmt → list arg → D → D * (go_error + Rows) * (nat → option bytes);
  stmt_Exec : Stmt → list arg → D → D * (go_error + Res) * (nat → option bytes);
  stmt_Close : Stmt → D → D * option go_error;
  res_RowsAffected : Res → D → D * (go_error + Z);
  res_LastInsertId : Res → D → D * (go_error + Z);
  rows_Columns : Rows → D → D * (go_error + list bytes);
  rows_ColumnTypes : Rows → D → D * (go_error + option (list coltype));
  rows_Scans : Rows → nat → D → D * list (go_error + list (option bytes))
}.

Section WorkerCmd.
Context {D Tx Stmt Rows Res : Type} `{!SqlDB D Tx Stmt Rows Res} `{!EqDecision Stmt}.
Context (adapter : CmdProcessorAdapter).

(** ** The state of the worker *)

(** [CmdProcessor]; [core] has the fields [eor] uses. [calExecTxn] tells whether there is a
    CAL transaction. A nil [stmtParams] is [None]. *)
Record CmdProc := mkProc {
  core : CmdProcessor;
  tx : option Tx;
  stmt : option Stmt;
  hasResult : bool;
  inTrans : bool;
  inCursor : bool;
  bindVars : gmap bytes BindValue;
  bindOuts : list bytes;
  numBindOuts : Z;
  bindPos : list bytes;
  stmts : gmap Z (option Stmt);
  currsid : Z;
  stmtParams : option (list (option Stmt * Z));
  numColumns : Z;
  currentBindName : bytes;
  rows : option Rows;
  sqlresult : option Res;
  calExecTxn : bool;
  lastErr : option go_error;
  sqlHash : Z;
  queryScope : QueryScopeType;
  WorkerScope : WorkerScopeType
}.

Definition set_core (v : CmdProcessor) (p : CmdProc) : CmdProc :=
  mkProc v (tx p) (stmt p) (hasResult p) (inTrans p) (inCursor p) (bindVars p) (bindOuts p) (numBindOuts p)
    (bindPos p) (stmts p) (currsid p) (stmtParams p) (numColumns p) (currentBindName p) (rows p) (sqlresult p)
    (calExecTxn p) (lastErr p) (sqlHash p) (queryScope p) (WorkerScope p).

Definition set_tx (v : option Tx) (p : CmdProc) : CmdProc :=
  mkProc (core p) v (stmt p) (hasResult p) (inTrans p) (inCursor p) (bindVars p) (bindOuts p) (numBindOuts p)
    (bindPos p) (stmts p) (currsid p) (stmtParams p) (numColumns p) (currentBindName p) (rows p) (sqlresult p)
    (calExecTxn p) (lastErr p) (sqlHash p) (queryScope p) (WorkerScope p).

Definition set_stmt (v : option Stmt) (p : CmdProc) : CmdProc :=
  mkProc (core p) (tx p) v (hasResult p) (inTrans p) (inCursor p) (bindVars p) (bindOuts p) (numBindOuts p)
    (bindPos p) (stmts p) (currsid p) (stmtParams p) (numColumns p) (currentBindName p) (rows p) (sqlresult p)
    (calExecTxn p) (lastErr p) (sqlHash p) (queryScope p) (WorkerScope p).

Definition set_hasResult (v : bool) (p : CmdProc) : CmdProc :=
  mkProc (core p) (tx p) (stmt p) v (inTrans p) (inCursor p) (bindVars p) (bindOuts p) (numBindOuts p)
    (bindPos p) (stmts p) (currsid p) (stmtParams p) (numColumns p) (currentBindName p) (rows p) (sqlresult p)
    (calExecTxn p) (lastErr p) (sqlHash p) (queryScope p) (WorkerScope p).

Definition set_inTrans (v : bool) (p : CmdProc) : CmdProc :=
  mkProc (core p) (tx p) (stmt p) (hasResult p) v (inCursor p) (bindVars p) (bindOuts p) (numBindOuts p)
    (bindPos p) (stmts p) (currsid p) (stmtParams p) (numColumns p) (currentBindName p) (rows p) (sqlresult p)
    (calExecTxn p) (lastErr p) (sqlHash p) (queryScope p) (WorkerScope p).

Definition set_inCursor (v : bool) (p : CmdProc) : CmdProc :=
  mkProc (core p) (tx p) (stmt p) (hasResult p) (inTrans p) v (bindVars p) (bindOuts p) (numBindOuts p)
    (bindPos p) (stmts p) (currsid p) (stmtParams p) (numColumns p) (currentBindName p) (rows p) (sqlresult p)
    (calExecTxn p) (lastErr p) (sqlHash p) (queryScope p) (WorkerScope p).

Definition set_bindVars (v : gmap bytes BindValue) (p : CmdProc) : CmdProc :=
  mkProc (core p) (tx p) (stmt p) (hasResult p) (inTrans p) (inCursor p) v (bindOuts p) (numBindOuts p)
    (bindPos p) (stmts p) (currsid p) (stmtParams p) (numColumns p) (currentBindName p) (rows p) (sqlresult p)
    (calExecTxn p) (lastErr p) (sqlHash p) (queryScope p) (WorkerScope p).

Definition set_bindOuts (v : list bytes) (p : CmdProc) : CmdProc :=
  mkProc (core p) (tx p) (stmt p) (hasResult p) (inTrans p) (inCursor p) (bindVars p) v (numBindOuts p)
    (bindPos p) (stmts p) (currsid p) (stmtParams p) (numColumns p) (currentBindName p) (rows p) (sqlresult p)
    (calExecTxn p) (lastErr p) (sqlHash p) (queryScope p) (WorkerScope p).

Definition set_numBindOuts (v : Z) (p : CmdProc) : CmdProc :=
  mkProc (core p) (tx p) (stmt p) (hasResult p) (inTrans p) (inCursor p) (bindVars p) (bindOuts p) v (bindPos
    p) (stmts p) (currsid p) (stmtParams p) (numColumns p) (currentBindName p) (rows p) (sqlresult p)
    (calExecTxn p) (lastErr p) (sqlHash p) (queryScope p) (WorkerScope p).

Definition set_bindPos (v : list bytes) (p : CmdProc) : CmdProc :=
  mkProc (core p) (tx p) (stmt p) (hasResult p) (inTrans p) (inCursor p) (bindVars p) (bindOuts p)
    (numBindOuts p) v (stmts p) (currsid p) (stmtParams p) (numColumns p) (currentBindName p) (rows p)
    (sqlresult p) (calExecTxn p) (lastErr p) (sqlHash p) (queryScope p) (WorkerScope p).

Definition set_stmts (v : gmap Z (option Stmt)) (p : CmdProc) : CmdProc :=
  mkProc (core p) (tx p) (stmt p) (hasResult p) (inTrans p) (inCursor p) (bindVars p) (bindOuts p)
    (numBindOuts p) (bindPos p) v (currsid p) (stmtParams p) (numColumns p) (currentBindName p) (rows p)
    (sqlresult p) (calExecTxn p) (lastErr p) (sqlHash p) (queryScope p) (WorkerScope p).

Definition set_currsid (v : Z) (p : CmdProc) : CmdProc :=
  mkProc (core p) (tx p) (stmt p) (hasResult p) (inTrans p) (inCursor p) (bindVars p) (bindOuts p)
    (numBindOuts p) (bindPos p) (stmts p) v (stmtParams p) (numColumns p) (currentBindName p) (rows p)
    (sqlresult p) (calExecTxn p) (lastErr p) (sqlHash p) (queryScope p) (WorkerScope p).

Definition set_stmtParams (v : option (list (option Stmt * Z))) (p : CmdProc) : CmdProc :=
  mkProc (core p) (tx p) (stmt p) (hasResult p) (inTrans p) (inCursor p) (bindVars p) (bindOuts p)
    (numBindOuts p) (bindPos p) (stmts p) (currsid p) v (numColumns p) (currentBindName p) (rows p) (sqlresult
    p) (calExecTxn p) (lastErr p) (sqlHash p) (queryScope p) (WorkerScope p).

Definition set_numColumns (v : Z) (p : CmdProc) : CmdProc :=
  mkProc (core p) (tx p) (stmt p) (hasResult p) (inTrans p) (inCursor p) (bindVars p) (bindOuts p)
    (numBindOuts p) (bindPos p) (stmts p) (currsid p) (stmtParams p) v (currentBindName p) (rows p) (sqlresult
    p) (calExecTxn p) (lastErr p) (sqlHash p) (queryScope p) (WorkerScope p).

Definition set_currentBindName (v : bytes) (p : CmdProc) : CmdProc :=
  mkProc (core p) (tx p) (stmt p) (hasResult p) (inTrans p) (inCursor p) (bindVars p) (bindOuts p)
    (numBindOuts p) (bindPos p) (stmts p) (currsid p) (stmtParams p) (numColumns p) v (rows p) (sqlresult p)
    (calExecTxn p) (lastErr p) (sqlHash p) (queryScope p) (WorkerScope p).

Definition set_rows (v : option Rows) (p : CmdProc) : CmdProc :=
  mkProc (core p) (tx p) (stmt p) (hasResult p) (inTrans p) (inCursor p) (bindVars p) (bindOuts p)
    (numBindOuts p) (bindPos p) (stmts p) (currsid p) (stmtParams p) (numColumns p) (currentBindName p) v
    (sqlresult p) (calExecTxn p) (lastErr p) (sqlHash p) (queryScope p) (WorkerScope p).

Definition set_sqlresult (v : option Res) (p : CmdProc) : CmdProc :=
  mkProc (core p) (tx p) (stmt p) (hasResult p) (inTrans p) (inCursor p) (bindVars p) (bindOuts p)
    (numBindOuts p) (bindPos p) (stmts p) (currsid p) (stmtParams p) (numColumns p) (currentBindName p) (rows
    p) v (calExecTxn p) (lastErr p) (sqlHash p) (queryScope p) (WorkerScope p).

Definition set_calExecTxn (v : bool) (p : CmdProc) : CmdProc :=
  mkProc (core p) (tx p) (stmt p) (hasResult p) (inTrans p) (inCursor p) (bindVars p) (bindOuts p)
    (numBindOuts p) (bindPos p) (stmts p) (currsid p) (stmtParams p) (numColumns p) (currentBindName p) (rows
    p) (sqlresult p) v (lastErr p) (sqlHash p) (queryScope p) (WorkerScope p).

Definition set_lastErr (v : option go_error) (p : CmdProc) : CmdProc :=
  mkProc (core p) (tx p) (stmt p) (hasResult p) (inTrans p) (inCursor p) (bindVars p) (bindOuts p)
    (numBindOuts p) (bindPos p) (stmts p) (currsid p) (stmtParams p) (numColumns p) (currentBindName p) (rows
    p) (sqlresult p) (calExecTxn p) v (sqlHash p) (queryScope p) (WorkerScope p).

Definition set_sqlHash (v : Z) (p : CmdProc) : CmdProc :=
  mkProc (core p) (tx p) (stmt p) (hasResult p) (inTrans p) (inCursor p) (bindVars p) (bindOuts p)
    (numBindOuts p) (bindPos p) (stmts p) (currsid p) (stmtParams p) (numColumns p) (currentBindName p) (rows
    p) (sqlresult p) (calExecTxn p) (lastErr p) v (queryScope p) (WorkerScope p).

Definition set_queryScope (v : QueryScopeType) (p : CmdProc) : CmdProc :=
  mkProc (core p) (tx p) (stmt p) (hasResult p) (inTrans p) (inCursor p) (bindVars p) (bindOuts p)
    (numBindOuts p) (bindPos p) (stmts p) (currsid p) (stmtParams p) (numColumns p) (currentBindName p) (rows
    p) (sqlresult p) (calExecTxn p) (lastErr p) (sqlHash p) v (WorkerScope p).

Definition set_WorkerScope (v : WorkerScopeType) (p : CmdProc) : CmdProc :=
  mkProc (core p) (tx p) (stmt p) (hasResult p) (inTrans p) (inCursor p) (bindVars p) (bindOuts p)
    (numBindOuts p) (bindPos p) (stmts p) (currsid p) (stmtParams p) (numColumns p) (currentBindName p) (rows
    p) (sqlresult p) (calExecTxn p) (lastErr p) (sqlHash p) (queryScope p) v.

(** The connection, the answers of the socket to each call of [WriteAll], whether requests
    are waiting at each question about it, and the packets written with the bytes that
    reached the proxy. *)
Record World := mkWorld {
  w_db : D;
  w_sock : list writer;
  w_more : list bool;
  w_out : list (Packet * bytes)
}.

Abbreviation St := (CmdProc * World)%type.

(** The state a new processor has. *)
Definition NewCmdProcessor : CmdProc :=
  mkProc (CmdProcessor.mkCmdProcessor false true 0) None None false false false ∅ [] 0 [] ∅ 0 None 0 [] None None
    false None 0 (mkQueryScope [] []) (mkWorkerScope false).

(** ** Basic steps *)

Definition gets {A} (f : CmdProc → A) : io St A := λ s, (s, Ret (f s.1)).
Definition modify (f : CmdProc → CmdProc) : io St unit := λ s, ((f s.1, s.2), Ret tt).

(** A call of the driver. *)
Definition call {A} (f : D → D * A) : io St A := λ s,
  let '(d, a) := f (w_db s.2) in
  ((s.1, mkWorld d (w_sock s.2) (w_more s.2) (w_out s.2)), Ret a).

(** Logs a packet and the bytes of it that got through, and turns the result of a write
    into the error the code sees. *)
Definition wrote (ns : Packet) (out : bytes) (r : result unit) : io St (option go_error) := λ s,
  let w := s.2 in
  let s := (s.1, mkWorld (w_db w) (tail (w_sock w)) (w_more w) (w_out w ++ [(ns, out)])) in
  match r with
  | Ret _ => (s, Ret None)
  | Error e => (s, Ret (Some e))
  | Panic => (s, Panic)
  | Fatal => (s, Fatal)
  | Hang => (s, Hang)
  end.

Definition next_writer (w : World) : writer := default [] (head (w_sock w)).

Definition WriteAll (ns : Packet) : io St (option go_error) := λ s,
  let '(out, r) := writeAll (next_writer s.2) (Serialized ns) 0 in wrote ns out r s.

(** [cp.moreIncomingRequests()], asked only about a worker that would be free. *)
Definition moreIncomingRequests (code : Z) : io St bool := λ s,
  if code =? EORFree then
    let w := s.2 in
    ((s.1, mkWorld (w_db w) (w_sock w) (tail (w_more w)) (w_out w)), Ret (default false (head (w_more w))))
  else (s, Ret false).

Definition eor_write (code : Z) (ns : option Packet) (more : bool) : io St (option go_error) := λ s,
  let '(c, (out, r)) := CmdProcessor.eor code ns more (next_writer s.2) (core s.1) in
  wrote (NewNetstringFrom CmdEOR (eor_payload (eor_code code more) (cp_rqId (core s.1)) ns)) out r
    (set_core c s.1, s.2).

Definition eor (code : Z) (ns : option Packet) : io St (option go_error) :=
  more ← moreIncomingRequests code;
  eor_write code ns more.

(** [eor] with the code of the state the worker is in. *)
Definition eor_state (ns : option Packet) : io St (option go_error) :=
  t ← gets inTrans;
  eor (if t : bool then EORInTransaction else EORFree) ns.

Definition calExecErr : io St unit := λ s,
  if calExecTxn s.1 then ((set_calExecTxn false s.1, s.2), Ret tt) else (s, Panic).

(** [cp.adapter.ProcessError(err, &cp.WorkerScope, &cp.queryScope)] *)
Definition process_error (e : go_error) : io St unit := λ s,
  match ProcessError adapter e (WorkerScope s.1) (queryScope s.1) with
  | Ret (ws, qs) => ((set_WorkerScope ws (set_queryScope qs s.1), s.2), Ret tt)
  | Error e => (s, Error e)
  | Panic => (s, Panic)
  | Fatal => (s, Fatal)
  | Hang => (s, Hang)
  end.

(** A handle and an error, from a call that returns one of them. *)
Definition handle {A} (r : go_error + A) : option A * option go_error :=
  match r with inl e => (None, Some e) | inr a => (Some a, None) end.

(** ** The text of a statement *)

(** The bind variables of a query, in the order of their positions; a name that occurs
    again replaces the entry of its first occurrence. *)
Definition add_bind (acc : gmap bytes BindValue * Z) (val : bytes) : gmap bytes BindValue * Z :=
  (<[val := mkBind acc.2 val VNil false btUnknown 0]> acc.1, acc.2 + 1).

Definition new_bindVars (binds : list bytes) : gmap bytes BindValue := (foldl add_bind (∅, 0) binds).1.

Definition preprocess (packet : Packet) : io St bytes :=
  if negb (IsMySQL packet) then
    let query := Payload packet in
    let binds := FindAllString query in
    _ ← modify (λ p, set_bindPos binds (set_bindVars (new_bindVars binds) p));
    mret (if UseBindNames adapter then query else ReplaceAllString query (str "?"))
  else
    match Payload packet with
    | [] => mret []
    | _ :: query =>
      let binds := FindAllString query in
      _ ← modify (λ p, set_bindPos binds (set_bindVars (new_bindVars binds) p));
      let splits := Fmt.Split (GoStrings.ToLower query) (str " as ") in
      _ ← match splits with
          | _ :: second :: _ =>
            let outs := Fmt.Split second (str ",") in
            modify (λ p, set_numBindOuts (zlen outs) (set_numColumns (zlen outs) (set_bindOuts outs p)))
          | _ => modify id
          end;
      mret query
    end.

(** ** Netstring commands *)

Definition do_CorrelationID : io St (option go_error) := mret None.

(** Starts a transaction for the first statement that is not a plain query. An error of
    [Begin] is overwritten by the outcome of the preparation. *)
Definition begin_if (startTrans : bool) : io St unit :=
  t ← gets tx;
  match t with
  | None => if startTrans then r ← call db_Begin; modify (set_tx (handle r).1) else mret tt
  | Some _ => mret tt
  end.

Definition prepare_sql (sqlQuery : bytes) : io St (option go_error) :=
  t ← gets tx;
  r ← call (match t with Some t => tx_Prepare t sqlQuery | None => db_Prepare sqlQuery end);
  _ ← modify (set_stmt (handle r).1);
  mret (handle r).2.

(** The part of a preparation both protocols share: parsing, CAL, transaction, statement.
    [set_core] opens the session's CAL transaction if there is none. *)
Definition prepare_common (ns : Packet) : io St (option go_error) :=
  _ ← modify (λ p,
        set_core (CmdProcessor.mkCmdProcessor (calSessionTxn (core p)) false (cp_rqId (core p)))
          (set_sqlHash 0 (set_lastErr None (set_queryScope (mkQueryScope [] []) p))));
  sqlQuery ← preprocess ns;
  let '(isSelect, startTrans) := Parse sqlQuery in
  let hash := SQLHash.GetSQLHash (Payload ns) in
  _ ← modify (λ p,
        set_hasResult isSelect
          (set_core (CmdProcessor.mkCmdProcessor true (heartbeat (core p)) (cp_rqId (core p)))
             (set_sqlHash hash (set_queryScope (mkQueryScope [] (itoa hash)) (set_calExecTxn true p)))));
  _ ← begin_if startTrans;
  prepare_sql sqlQuery.

(** Reports a failed preparation to the adapter and keeps the error for [CmdExecute]. *)
Definition prepare_failed (err : option go_error) : io St unit :=
  match err with
  | Some e => _ ← process_error e; _ ← calExecErr; modify (set_lastErr (Some e))
  | None => mret tt
  end.

Definition reset_results (p : CmdProc) : CmdProc :=
  set_numBindOuts 0 (set_bindOuts [] (set_sqlresult None (set_rows None p))).

Definition do_Prepare (ns : Packet) : io St (option go_error) :=
  err ← prepare_common ns;
  _ ← prepare_failed err;
  _ ← modify reset_results;
  mret None.

(** Updates the bind variable of a name; the pointer of an unknown name is nil. *)
Definition update_bind (name : bytes) (f : BindValue → BindValue) : io St unit := λ s,
  match bindVars s.1 !! name with
  | Some b => ((set_bindVars (<[name := f b]> (bindVars s.1)) s.1, s.2), Ret tt)
  | None => (s, Panic)
  end.

Definition bind_key (payload : bytes) : bytes :=
  if Fmt.HasPrefix payload (str ":") then payload else str ":" ++ payload.

Definition not_found (name : bytes) : go_error :=
  errors_New (str "bindname not found in query: " ++ name).

Definition do_BindName (ns : Packet) : io St (option go_error) :=
  st ← gets stmt;
  match st with
  | None => mret None
  | Some _ =>
    let name := bind_key (Payload ns) in
    _ ← modify (set_currentBindName name);
    vars ← gets bindVars;
    match vars !! name with
    | None => _ ← calExecErr; mret (Some (not_found name))
    | Some _ =>
      _ ← (if Cmd ns =? CmdBindName then
             update_bind name (λ b, mkBind (bind_index b) (bind_name b) (bind_value b) (bind_valid b) btIn (bind_dataType b))
           else
             _ ← update_bind name (λ b, mkBind (bind_index b) (bind_name b) (bind_value b) true btOut (bind_dataType b));
             modify (λ p, set_numBindOuts (numBindOuts p + 1) p));
      _ ← update_bind name (λ b, mkBind (bind_index b) (bind_name b) (bind_value b) (bind_valid b) (bind_type b) DataTypeString);
      mret None
    end
  end.

(** The text of the conversion error is shortened. *)
Definition do_BindType (ns : Packet) : io St (option go_error) :=
  st ← gets stmt;
  match st with
  | None => mret None
  | Some _ =>
    match GoStrings.Atoi (Payload ns) with
    | None => _ ← calExecErr; mret (Some (errors_New (str "strconv.Atoi: parsing " ++ Payload ns)))
    | Some btype =>
      name ← gets currentBindName;
      _ ← update_bind name (λ b, mkBind (bind_index b) (bind_name b) (bind_value b) (bind_valid b) (bind_type b) btype);
      mret None
    end
  end.

(** The value of a payload; milliseconds become nanoseconds in 64 bits, and of the zone
    only the hours are used. *)
Definition bound_value (dataType : Z) (payload : bytes) : value :=
  match payload with
  | [] => VString None
  | _ =>
    if dataType =? DataTypeTimestamp then
      let v := Fmt.scanned (Fmt.Sscanf (Fmt.format "%d-%d-%d %d:%d:%d.%d") payload) in
      VTime (v 2%nat) (v 1%nat) (v 0%nat) (v 3%nat) (v 4%nat) (v 5%nat) (i64 (v 6%nat * 1000000)) 0
    else if dataType =? DataTypeTimestampTZ then
      let v := Fmt.scanned (Fmt.Sscanf (Fmt.format "%d-%d-%d %d:%d:%d.%d %d:%d") payload) in
      VTime (v 2%nat) (v 1%nat) (v 0%nat) (v 3%nat) (v 4%nat) (v 5%nat) (i64 (v 6%nat * 1000000)) (i64 (v 7%nat * 3600))
    else if (dataType =? DataTypeRaw) || (dataType =? DataTypeBlob) then VBytes payload
    else VString (Some payload)
  end.

Definition do_BindValue (ns : Packet) : io St (option go_error) :=
  st ← gets stmt;
  match st with
  | None => mret None
  | Some _ =>
    name ← gets currentBindName;
    vars ← gets bindVars;
    match vars !! name with
    | None => _ ← calExecErr; mret (Some (not_found name))
    | Some _ =>
      _ ← update_bind name (λ b,
            mkBind (bind_index b) (bind_name b) (bound_value (bind_dataType b) (Payload ns)) true (bind_type b) (bind_dataType b));
      mret None
    end
  end.

Definition do_BindNum : io St (option go_error) :=
  st ← gets stmt;
  match st with
  | None => mret None
  | Some _ => _ ← calExecErr; mret (Some (errors_New (str "Batch not supported")))
  end.

(** *** Execute *)

(** The arguments of the statement, position by position: an error ends the command, and a
    name without a kind is passed over. [cur] is the next output variable of [nouts]. *)
Fixpoint build_binds (vars : gmap bytes BindValue) (nouts cur : nat) (keys : list bytes) : result (list arg) :=
  match keys with
  | [] => Ret []
  | key :: keys =>
    match vars !! key with
    | None => Panic
    | Some val =>
      match bind_type val with
      | btIn =>
        if negb (bind_valid val) then Error (errors_New (str "bindname undefined: " ++ key))
        else
          rest ← build_binds vars nouts cur keys;
          Ret ((if UseBindNames adapter then Named (drop 1 key) (bind_value val) else Positional (bind_value val)) :: rest)
      | btOut =>
        if UseBindNames adapter then
          if (cur <? nouts)%nat then
            rest ← build_binds vars nouts (S cur) keys;
            Ret (NamedOut (drop 1 key) cur :: rest)
          else Panic
        else Error (errors_New (str "outbind not supported"))
      | btUnknown => build_binds vars nouts cur keys
      end
    end
  end.

(** What the driver stores in the output variables it was given. *)
Definition is_out (i : nat) (a : arg) : bool :=
  match a with NamedOut _ j => (i =? j)%nat | _ => false end.

Definition store_outs (binds : list arg) (f : nat → option bytes) (outs : list bytes) : list bytes :=
  imap (λ i o, if existsb (is_out i) binds then default o (f i) else o) outs.

Definition run_stmt (st : Stmt) (binds : list arg) : io St (option go_error) :=
  q ← gets hasResult;
  if q : bool then
    '(r, f) ← call (λ d, let '(d, r, f) := stmt_Query st binds d in (d, (r, f)));
    _ ← modify (λ p, set_rows (handle r).1 (set_bindOuts (store_outs binds f (bindOuts p)) p));
    mret (handle r).2
  else
    '(r, f) ← call (λ d, let '(d, r, f) := stmt_Exec st binds d in (d, (r, f)));
    _ ← modify (λ p, set_sqlresult (handle r).1 (set_bindOuts (store_outs binds f (bindOuts p)) p));
    mret (handle r).2.

(** Clears the output variables: the old slice when it is large enough, or a new one. *)
Definition clear_outs : io St unit := λ s,
  if numBindOuts s.1 <? 0 then (s, Panic)
  else ((set_bindOuts (replicate (Z.to_nat (numBindOuts s.1)) []) s.1, s.2), Ret tt).

(** [cp.calExecTxn.Completed(); cp.calExecTxn = nil] *)
Definition calExecDone : io St unit := calExecErr.

Definition mark_trans (p : CmdProc) : CmdProc :=
  match tx p with Some _ => set_inTrans true p | None => p end.

Definition rc_value (b : bytes) : Packet := NewNetstringFrom RcValue b.
Definition rc_sql_error (e : go_error) : Packet := NewNetstringFrom RcSQLError (Error_text e).

(** The answer to a statement without rows: a zero, the rows affected, the outputs. *)
Definition exec_response (rowcnt : Z) (outs : list bytes) : Packet :=
  NewNetstringEmbedded ([rc_value (str "0"); rc_value (itoa rowcnt)] ++
    match outs with [] => [] | _ => rc_value (str "1") :: map rc_value outs end).

(** The answer to a query: the number of columns and a zero. *)
Definition query_response (cols : list bytes) (outs : list bytes) : Packet :=
  NewNetstringEmbedded ([rc_value (itoa (zlen cols)); rc_value (str "0")] ++
    match outs with [] => [] | _ => [rc_value (str "0")] end).

(** The two parts of the answer; the first gives back whether the command ends there. *)
Definition answer_result : io St (bool * option go_error) :=
  res ← gets sqlresult;
  match res with
  | None => mret (false, None)
  | Some res =>
    n ← call (res_RowsAffected res);
    match n with
    | inl e => _ ← calExecErr; mret (true, Some e)
    | inr rowcnt =>
      outs ← gets bindOuts;
      err ← eor EORInTransaction (Some (exec_response rowcnt outs));
      mret (false, err)
    end
  end.

Definition answer_rows (err : option go_error) : io St (option go_error) :=
  rs ← gets rows;
  match rs with
  | None => mret err
  | Some rs =>
    c ← call (rows_Columns rs);
    match c with
    | inl e => _ ← calExecErr; mret (Some e)
    | inr cols =>
      outs ← gets bindOuts;
      q ← gets hasResult;
      _ ← (if q : bool then WriteAll (query_response cols outs) else eor_state (Some (query_response cols outs)));
      mret None
    end
  end.

Definition execute_failed (e : go_error) : io St (option go_error) :=
  _ ← process_error e;
  _ ← calExecErr;
  _ ← eor_state (Some (rc_sql_error e));
  _ ← modify (set_lastErr (Some e));
  mret None.

(** What follows a statement that ran. *)
Definition execute_done : io St (option go_error) :=
  _ ← modify mark_trans;
  _ ← calExecDone;
  '(stop, err) ← answer_result;
  if stop : bool then mret err else answer_rows err.

Definition no_statement : io St (option go_error) :=
  le ← gets lastErr;
  match le with
  | None => lift Panic
  | Some e => _ ← eor_state (Some (rc_sql_error e)); mret None
  end.

Definition do_Execute : io St (option go_error) :=
  st ← gets stmt;
  match st with
  | None => no_statement
  | Some st =>
    _ ← clear_outs;
    p ← gets id;
    match build_binds (bindVars p) (length (bindOuts p)) 0 (bindPos p) with
    | Error e => mret (Some e)
    | Ret binds =>
      err ← run_stmt st binds;
      match err with
      | Some e => execute_failed e
      | None => execute_done
      end
    | Panic => lift Panic
    | Fatal => lift Fatal
    | Hang => lift Hang
    end
  end.

(** *** Fetch *)

(** The columns of a row; a null is sent as the empty string. *)
Definition row_packets (cts : list coltype) (ncols : nat) (row : list (option bytes)) : result (list Packet) :=
  mapM (λ i,
    match row !! i with
    | Some (Some v) =>
      ct ← index_get cts (Z.of_nat i);
      Ret (rc_value (ProcessResult adapter (col_DatabaseTypeName ct) v))
    | _ => Ret (rc_value [])
    end) (seq 0 ncols).

Fixpoint fetch_rows (cts : list coltype) (ncols : nat) (scans : list (go_error + list (option bytes))) (nss : list Packet)
    : io St (list Packet * option go_error) :=
  match scans with
  | [] => mret (nss, None)
  | inl e :: _ => _ ← process_error e; mret (nss, Some e)
  | inr row :: scans =>
    ps ← lift (row_packets cts ncols row);
    fetch_rows cts ncols scans (nss ++ ps)
  end.

Definition no_rows : io St (option go_error) :=
  le ← gets lastErr;
  let nsr := match le with
             | None => Some (NewNetstringFrom RcError (str "fetch requested but no statement exists"))
             | Some _ => None
             end in
  _ ← eor_state nsr;
  mret None.

(** The rows, if there are any, and the end of data. *)
Definition send_rows (nss : list Packet) (err : option go_error) : io St (option go_error) :=
  werr ← match nss with
         | [] => mret None
         | _ => WriteAll (NewNetstringEmbedded nss)
         end;
  match werr with
  | Some e => mret (Some e)
  | None =>
    _ ← eor_state (Some (NewNetstringFrom RcNoMoreData []));
    _ ← modify (set_rows None);
    mret (match nss with [] => err | _ => None end)
  end.

Definition do_Fetch : io St (option go_error) :=
  rs ← gets rows;
  match rs with
  | None => no_rows
  | Some rs =>
    c ← call (rows_ColumnTypes rs);
    match c with
    | inl e => mret (Some e)
    | inr cts =>
      cols ← call (rows_Columns rs);
      let ncols := match cols with inr cols => length cols | inl _ => 0%nat end in
      scans ← call (rows_Scans rs ncols);
      '(nss, err) ← fetch_rows (default [] cts) ncols scans [];
      send_rows nss err
    end
  end.

(** *** Column information *)

Definition cap_int (n : Z) : Z := if 2147483647 <? n then 2147483647 else n.

Definition colinfo (ct : coltype) : list Packet :=
  let typename := match col_DatabaseTypeName ct with [] => str "UNDEFINED" | t => t end in
  let width := if (col_Length ct).2 then (col_Length ct).1 else 0 in
  let '(prec, scale, ok) := col_DecimalSize ct in
  let '(prec, scale) := if ok : bool then (prec, scale) else (0, 0) in
  [rc_value (col_Name ct); rc_value (itoa (GetColTypeMap adapter (GoStrings.ToUpper typename)));
   rc_value (itoa width); rc_value (itoa (cap_int prec)); rc_value (itoa (cap_int scale))].

Definition do_ColsInfo : io St (option go_error) :=
  rs ← gets rows;
  match rs with
  | None => mret None
  | Some rs =>
    c ← call (rows_ColumnTypes rs);
    match c with
    | inl e => mret (Some e)
    | inr None => WriteAll (rc_value (str "0"))
    | inr (Some cts) => WriteAll (NewNetstringEmbedded (rc_value (itoa (zlen cts)) :: concat (map colinfo cts)))
    end
  end.

(** *** Commit and rollback *)

(** [end_call] is [tx.Commit] or [tx.Rollback]; the transaction is kept when it fails. *)
Definition end_tx (end_call : Tx → D → D * option go_error) : io St (option go_error) :=
  t ← gets tx;
  match t with
  | None => mret None
  | Some t =>
    err ← call (end_call t);
    _ ← match err with
        | Some e => process_error e
        | None => modify (set_tx None)
        end;
    mret err
  end.

Definition do_end (end_call : Tx → D → D * option go_error) : io St (option go_error) :=
  err ← end_tx end_call;
  match err with
  | None =>
    _ ← modify (set_inTrans false);
    _ ← eor EORFree (Some (NewNetstringFrom RcOK []));
    mret None
  | Some e =>
    _ ← eor EORInTransaction (Some (rc_sql_error e));
    mret None
  end.

Definition do_Commit : io St (option go_error) := do_end tx_Commit.
Definition do_Rollback : io St (option go_error) := do_end tx_Rollback.

(** ** MySQL commands *)

(** An OK packet with the rows affected and the last id. *)
Definition ok_message : bytes := str "This packet has to be over 7 bytes.".

Definition send_OK (ns : Packet) (res : Res) : io St (option go_error) :=
  n ← call (res_RowsAffected res);
  match n with
  | inl e => _ ← calExecErr; mret (Some e)
  | inr rowcnt =>
    i ← call (res_LastInsertId res);
    match i with
    | inl e => _ ← calExecErr; mret (Some e)
    | inr liid =>
      payload ← lift (OKPacket rowcnt liid (u32 CLIENT_PROTOCOL_41) ok_message);
      np ← lift (NewMySQLPacketFrom (Sqid ns + 1) payload);
      eor EORFree (Some np)
    end
  end.

Definition do_COM_QUERY (ns : Packet) : io St (option go_error) :=
  sqlQuery ← preprocess ns;
  q ← gets hasResult;
  err ← (if q : bool then
           r ← call (db_Query sqlQuery); _ ← modify (set_rows (handle r).1); mret (handle r).2
         else
           r ← call (db_Exec sqlQuery); _ ← modify (set_sqlresult (handle r).1); mret (handle r).2);
  match err with
  | Some e => execute_failed e
  | None =>
    _ ← modify mark_trans;
    res ← gets sqlresult;
    match res with
    | None => mret None
    | Some res => send_OK ns res
    end
  end.

(** [cp.stmtParams[cp.stmt] = n]: assigning to a nil map panics. *)
Definition set_stmt_params (n : Z) : io St unit := λ s,
  match stmtParams s.1 with
  | None => (s, Panic)
  | Some l => ((set_stmtParams (Some ((stmt s.1, n) :: l)) s.1, s.2), Ret tt)
  end.

Definition stmt_params (p : CmdProc) : Z :=
  match stmtParams p with
  | None => 0
  | Some l => match list_find (λ e, fst e = stmt p) l with Some (_, (_, n)) => n | None => 0 end
  end.

Definition do_COM_STMT_PREPARE (ns : Packet) : io St (option go_error) :=
  err ← prepare_common ns;
  _ ← modify (λ p, set_stmts (<[currsid p := stmt p]> (stmts p)) p);
  p ← gets id;
  _ ← set_stmt_params (Z.of_nat (size (bindVars p)));
  _ ← prepare_failed err;
  p ← gets id;
  payload ← lift (StmtPrepareOK (currsid p) (numColumns p) (Z.of_nat (size (bindVars p))));
  np ← lift (NewMySQLPacketFrom (Sqid ns + 1) payload);
  _ ← eor EORFree (Some np);
  _ ← modify (λ p, set_currsid (currsid p + 1) (reset_results p));
  mret None.

(** The parameters of an execute packet after the statement id: new values, if any. *)
Definition execute_params (payload : bytes) (pos numParams : Z) : result (option bytes) :=
  if 0 <? numParams then
    '(_, pos) ← ReadString payload VARSTR pos ((numParams + 7) / 8);
    '(flag, pos) ← ReadFixedLenInt payload INT1 pos;
    if flag =? 1 then
      '(_, pos) ← ReadString payload VARSTR pos (numParams * 2);
      '(values, _) ← ReadString payload EOFSTR pos 0;
      Ret (Some values)
    else Ret None
  else Ret None.

Definition do_COM_STMT_EXECUTE (ns : Packet) : io St (option go_error) :=
  '(stmtid, pos) ← lift (ReadFixedLenInt (Payload ns) INT4 1);
  _ ← modify (λ p, set_stmt (default None (stmts p !! stmtid)) p);
  p ← gets id;
  values ← lift (execute_params (Payload ns) pos (stmt_params p));
  match stmt p with
  | None => mret None
  | Some st =>
    err ← run_stmt st (match values with Some v => [Positional (VBytes v)] | None => [] end);
    match err with
    | Some e => execute_failed e
    | None => _ ← modify mark_trans; _ ← calExecDone; mret None
    end
  end.

Definition do_COM_STMT_FETCH (ns : Packet) : io St (option go_error) :=
  '(_, pos) ← lift (ReadFixedLenInt (Payload ns) INT4 1);
  '(_, _) ← lift (ReadFixedLenInt (Payload ns) INT4 pos);
  mret None.

Definition schema_query (cmd : Z) (schema_name : bytes) : bytes :=
  if cmd =? COM_CREATE_DB then str "CREATE DATABASE " ++ schema_name ++ str ";"
  else if cmd =? COM_DROP_DB then str "DROP DATABASE IF EXISTS " ++ schema_name ++ str ";"
  else str "USE " ++ schema_name ++ str ";".

Definition do_COM_DB (ns : Packet) : io St (option go_error) :=
  '(schema_name, _) ← lift (ReadString (Payload ns) EOFSTR 1 0);
  r ← call (db_Exec (schema_query (Cmd ns) schema_name));
  _ ← modify (set_sqlresult (handle r).1);
  match r with
  | inl _ =>
    payload ← lift (ERRPacket 0 (str "0"));
    np ← lift (NewMySQLPacketFrom (Sqid ns + 1) payload);
    eor EORFree (Some np)
  | inr res => send_OK ns res
  end.

(** Closing a statement that is not there dereferences nil. *)
Definition do_COM_STMT_CLOSE (ns : Packet) : io St (option go_error) :=
  '(stmtid, _) ← lift (ReadFixedLenInt (Payload ns) INT4 1);
  m ← gets stmts;
  match default None (m !! stmtid) with
  | None => lift Panic
  | Some st =>
    _ ← call (stmt_Close st);
    _ ← modify (λ p, set_stmts (delete stmtid (stmts p)) p);
    mret None
  end.

(** ** The dispatcher *)

Definition process_mysql (ns : Packet) : io St (option go_error) :=
  let cmd := Cmd ns in
  if cmd =? COM_QUERY then do_COM_QUERY ns
  else if cmd =? COM_STMT_PREPARE then do_COM_STMT_PREPARE ns
  else if cmd =? COM_STMT_EXECUTE then do_COM_STMT_EXECUTE ns
  else if cmd =? COM_STMT_FETCH then do_COM_STMT_FETCH ns
  else if (cmd =? COM_CREATE_DB) || (cmd =? COM_DROP_DB) || (cmd =? COM_INIT_DB) then do_COM_DB ns
  else if cmd =? COM_STMT_CLOSE then do_COM_STMT_CLOSE ns
  else mret None.

Definition process_netstring (ns : Packet) : io St (option go_error) :=
  let cmd := Cmd ns in
  if cmd =? CmdClientCalCorrelationID then do_CorrelationID
  else if (cmd =? CmdPrepare) || (cmd =? CmdPrepareV2) || (cmd =? CmdPrepareSpecial) then do_Prepare ns
  else if (cmd =? CmdBindName) || (cmd =? CmdBindOutName) then do_BindName ns
  else if cmd =? CmdBindType then do_BindType ns
  else if cmd =? CmdBindValue then do_BindValue ns
  else if cmd =? CmdBindNum then do_BindNum
  else if cmd =? CmdExecute then do_Execute
  else if cmd =? CmdFetch then do_Fetch
  else if cmd =? CmdColsInfo then do_ColsInfo
  else if cmd =? CmdCommit then do_Commit
  else if cmd =? CmdRollback then do_Rollback
  else mret None.

(** A nil packet is an error; the value returned is the error of the call. *)
Definition ProcessCmd (ns : option Packet) : io St (option go_error) :=
  match ns with
  | None => mret (Some (errors_New (str "empty netstring passed to processcommand")))
  | Some ns =>
    _ ← modify (λ p, set_queryScope (mkQueryScope (itoa (Cmd ns)) (SqlHash (queryScope p))) p);
    if IsMySQL ns then process_mysql ns else process_netstring ns
  end.

Definition isIdle (p : CmdProc) : bool := negb (inCursor p) && negb (inTrans p).

End WorkerCmd.

Arguments CmdProc _ _ _ _ : clear implicits.
Arguments World _ : clear implicits.
End WorkerCmd.
