(* ===== verification/WorkerFacts.v ===== *)
(** * What the commands of the worker keep and answer (worker/shared/cmdprocessor.go), for any
    driver and any adapter; and a small driver for examples. *)

From S2P Require Import Prelude GoIO Codes Netstring MysqlPackets SqlParser Fmt Adapter WorkerClient CmdProcessor WorkerCmd.
From stdpp Require Import base list gmap strings.
From Stdlib Require Import ZArith Lia.
Open Scope Z_scope.

Module WorkerFacts.
Import Codes MysqlPackets.Mysql Netstring SqlParser Adapter WorkerClient CmdProcessor WorkerCmd.

Create HintDb keeps.

(** ** A driver for examples *)

(** A connection that records the calls made on it. The statement is its text; preparing
    and executing fail where the text says so, and a query has the given rows. *)
Module Toy.

Inductive db_call : Type :=
  | CBegin
  | CPrepare (in_tx : bool) (sql : bytes)
  | CRun (sql : bytes) (args : list arg)
  | CCommit
  | CRollback.

Abbreviation D := (list db_call).

Definition bad_text : bytes := str "bad".
Definition sql_error : go_error := errors_New (str "Error 1146: no such table").

(** [select bad ...] can be prepared and fails when it is run. *)
Definition run_text (sql : bytes) : go_error + unit :=
  if Fmt.Contains sql bad_text then inl sql_error else inr tt.

#[global] Instance toy : SqlDB D unit bytes unit unit := {
  db_Begin d := (d ++ [CBegin], inr tt);
  db_Prepare q d := (d ++ [CPrepare false q], inr q);
  db_Query q d := (d ++ [CRun q []], run_text q);
  db_Exec q d := (d ++ [CRun q []], run_text q);
  tx_Prepare _ q d := (d ++ [CPrepare true q], inr q);
  tx_Commit _ d := (d ++ [CCommit], None);
  tx_Rollback _ d := (d ++ [CRollback], None);
  stmt_Query q args d := (d ++ [CRun q args], run_text q, λ _, None);
  stmt_Exec q args d := (d ++ [CRun q args], run_text q, λ _, None);
  stmt_Close _ d := (d, None);
  res_RowsAffected _ d := (d, inr 1);
  res_LastInsertId _ d := (d, inr 7);
  rows_Columns _ d := (d, inr [str "id"]);
  rows_ColumnTypes _ d := (d, inr (Some [mkColtype (str "id") (str "VARCHAR") (0, false) (0, 0, false)]));
  rows_Scans _ _ d := (d, [inr [Some (str "one")]; inl sql_error])
}.

(** A socket that takes everything. *)
Definition world (n : nat) : World D := mkWorld [] (replicate n [Ret 1000%nat]) [] [].

Definition proc : CmdProc unit bytes unit unit := NewCmdProcessor.

End Toy.

Section facts.
Context {D Tx Stmt Rows Res : Type} `{!SqlDB D Tx Stmt Rows Res} `{!EqDecision Stmt}.
Context (adapter : CmdProcessorAdapter).

Abbreviation St := (CmdProc Tx Stmt Rows Res * World D)%type.

(** ** Invariants of the state monad *)

Lemma proc_keeps_gets (I : St → Prop) {A} (f : CmdProc Tx Stmt Rows Res → A) : keeps I (gets f).
Proof. by intros s. Qed.

Lemma proc_keeps_modify (I : CmdProc Tx Stmt Rows Res → Prop) f : (∀ p, I p → I (f p)) → keeps (λ s : St, I s.1) (modify f).
Proof. intros Hf s Hs. by apply Hf. Qed.

Lemma proc_keeps_call (I : CmdProc Tx Stmt Rows Res → Prop) {A} (f : D → D * A) : keeps (λ s : St, I s.1) (call f).
Proof. intros s Hs. unfold call. by destruct (f (w_db s.2)). Qed.

(** ** Well-formed processors *)

(** A bind variable has the name it is found under and the position of an occurrence of it;
    an output needs no value. *)
Definition wf_bind (pos : list bytes) (k : bytes) (b : BindValue) : Prop :=
  bind_name b = k ∧ 0 <= bind_index b ∧ pos !! Z.to_nat (bind_index b) = Some k ∧
  (bind_type b = btOut → bind_valid b = true).

(** A worker in a transaction has one; the names at the positions of the statement are the
    keys of the bind variables. *)
Definition wf (p : CmdProc Tx Stmt Rows Res) : Prop :=
  (inTrans p = true → is_Some (tx p)) ∧
  (∀ k, k ∈ bindPos p ↔ is_Some (bindVars p !! k)) ∧
  map_Forall (wf_bind (bindPos p)) (bindVars p) ∧
  0 <= numBindOuts p.

Lemma new_bindVars_snoc binds val :
  new_bindVars (binds ++ [val]) = <[val := mkBind (zlen binds) val VNil false btUnknown 0]> (new_bindVars binds).
Proof.
  unfold new_bindVars. rewrite foldl_app. cbn [foldl].
  assert (∀ l acc, (foldl add_bind acc l).2 = acc.2 + zlen l) as H.
  { induction l as [|x l IH]; intros acc; cbn [foldl]; [cbn; lia|]. rewrite IH. cbn. lia. }
  unfold add_bind at 1. cbn [fst]. by rewrite H.
Qed.

Lemma wf_bind_snoc pos k b val : wf_bind pos k b → wf_bind (pos ++ [val]) k b.
Proof.
  intros (? & ? & E & ?). split_and!; try done. by apply lookup_app_l_Some.
Qed.

Lemma new_bindVars_wf binds :
  (∀ k, k ∈ binds ↔ is_Some (new_bindVars binds !! k)) ∧ map_Forall (wf_bind binds) (new_bindVars binds).
Proof.
  induction binds as [|val binds [IH1 IH2]] using rev_ind.
  { split; [|apply map_Forall_empty]. intros k. unfold new_bindVars. cbn. rewrite lookup_empty, elem_of_nil.
    split; [done|]. by intros [? ?]. }
  rewrite new_bindVars_snoc. split.
  - intros k. rewrite elem_of_app, list_elem_of_singleton, IH1, lookup_insert_is_Some'. naive_solver.
  - apply map_Forall_insert_2.
    + split_and!; try done; [cbn; lia|]. cbn. rewrite Nat2Z.id. by apply list_lookup_middle.
    + intros k b Hb. by apply wf_bind_snoc, IH2.
Qed.

Lemma wf_new binds p : wf p → wf (set_bindPos binds (set_bindVars (new_bindVars binds) p)).
Proof. intros (H1 & _ & _ & H4). pose proof (new_bindVars_wf binds) as [? ?]. by split_and!. Qed.

(** Steps through a handler: binds and branches, steps that do not touch what the invariant
    is about, and lemmas of the database. *)
Ltac keep_step :=
  match goal with
  | |- keeps _ (mbind _ _) => apply keeps_bind; [|intros ?]
  | |- keeps _ (mret _) => apply keeps_mret
  | |- keeps _ (lift _) => apply keeps_lift
  | |- keeps _ (gets _) => apply proc_keeps_gets
  | |- keeps _ (call _) => apply (proc_keeps_call _)
  | |- keeps _ (modify _) => apply (proc_keeps_modify _); intros ? Hwf; first [exact Hwf | solve [eauto with keeps]]
  | |- keeps _ (match ?x with _ => _ end) => destruct x
  | |- _ => solve [eauto with keeps]
  end.
Ltac keep := repeat keep_step.

Abbreviation WF := (λ s : St, wf s.1).

Lemma wrote_wf ns out r : keeps WF (wrote ns out r).
Proof. intros s Hs. unfold wrote. by destruct r. Qed.
Hint Resolve wrote_wf : keeps.

Lemma WriteAll_wf ns : keeps WF (WriteAll ns).
Proof. intros s Hs. unfold WriteAll. destruct (writeAll _ _ _) as [out r]. by apply wrote_wf. Qed.

Lemma eor_wf code ns : keeps WF (eor code ns).
Proof.
  apply keeps_bind; [|intros more].
  - intros s Hs. unfold moreIncomingRequests. by destruct (code =? EORFree).
  - intros s Hs. unfold eor_write. destruct (CmdProcessor.eor _ _ _ _ _) as [c [out r]]. by apply wrote_wf.
Qed.
Hint Resolve WriteAll_wf eor_wf : keeps.

Lemma eor_state_wf ns : keeps WF (eor_state ns).
Proof. unfold eor_state. keep. Qed.

Lemma calExecErr_wf : keeps WF calExecErr.
Proof. intros s Hs. unfold calExecErr. by destruct (calExecTxn s.1). Qed.

Lemma process_error_wf e : keeps WF (process_error adapter e).
Proof. intros s Hs. unfold process_error. by destruct (ProcessError adapter e _ _) as [[]| | | |]. Qed.

Lemma preprocess_wf ns : keeps WF (preprocess adapter ns).
Proof.
  unfold preprocess. destruct (negb _); [|destruct (Payload ns) as [|c query]; [keep|]];
    (apply keeps_bind; [apply (proc_keeps_modify wf); intros ?; apply wf_new|intros _]); [keep|].
  destruct (Fmt.Split _ _) as [|? [|second ?]]; [by keep..|].
  apply keeps_bind; [|intros _; keep]. apply (proc_keeps_modify wf). intros p (? & ? & ? & ?). split_and!; try done. cbn. lia.
Qed.
Hint Resolve eor_state_wf calExecErr_wf process_error_wf preprocess_wf : keeps.

Lemma begin_if_wf startTrans : keeps WF (begin_if startTrans).
Proof.
  intros s Hs. unfold begin_if, gets, mbind at 1, io_bind at 1.
  destruct (tx s.1) eqn:E; [done|]. destruct startTrans; [|done].
  unfold call, modify, mbind, io_bind. destruct (db_Begin (w_db s.2)) as [d r]. cbn [fst snd].
  destruct Hs as (H1 & H2 & H3 & H4). split_and!; try done. cbn. intros Ht. destruct (H1 Ht). congruence.
Qed.

Lemma prepare_common_wf ns : keeps WF (prepare_common adapter ns).
Proof. unfold prepare_common, prepare_sql. keep. apply begin_if_wf. Qed.

Lemma prepare_failed_wf err : keeps WF (prepare_failed adapter err).
Proof. unfold prepare_failed. keep. Qed.

Lemma reset_results_wf p : wf p → wf (reset_results p).
Proof. intros (? & ? & ? & ?). by split_and!. Qed.
Hint Resolve prepare_common_wf prepare_failed_wf : keeps.

Hint Resolve reset_results_wf : keeps.

Lemma do_Prepare_wf ns : keeps WF (do_Prepare adapter ns).
Proof. unfold do_Prepare. keep. Qed.

(** A bind variable may be updated as long as its name and position stay, and an output
    stays valid. *)
Definition bind_update (f : BindValue → BindValue) : Prop := ∀ pos k b, wf_bind pos k b → wf_bind pos k (f b).

Lemma update_bind_wf name f : bind_update f → keeps WF (update_bind name f).
Proof.
  intros Hf s (H1 & H2 & H3 & H4). unfold update_bind. destruct (bindVars s.1 !! name) as [b|] eqn:E; [|done].
  split_and!; try done; cbn.
  - intros k. rewrite H2, lookup_insert_is_Some'. split; [auto|]. intros [->|?]; [|done]. eauto.
  - apply map_Forall_insert_2; [|done]. by apply Hf, (H3 name b).
Qed.

Lemma numBindOuts_wf p : wf p → wf (set_numBindOuts (numBindOuts p + 1) p).
Proof. intros (? & ? & ? & ?). split_and!; try done. cbn. lia. Qed.
Hint Resolve numBindOuts_wf : keeps.

(** Discharges [bind_update] of the updates of the handlers. *)
Ltac upd := apply update_bind_wf; intros ? ? ? (? & ? & ? & ?); by split_and!.

Lemma do_BindName_wf ns : keeps WF (do_BindName ns).
Proof.
  unfold do_BindName. keep; upd.
Qed.

Lemma do_BindType_wf ns : keeps WF (do_BindType ns).
Proof. unfold do_BindType. keep; upd. Qed.

Lemma do_BindValue_wf ns : keeps WF (do_BindValue ns).
Proof.
  unfold do_BindValue. keep; upd.
Qed.

Lemma do_BindNum_wf : keeps WF do_BindNum.
Proof. unfold do_BindNum. keep. Qed.

Lemma run_stmt_wf st binds : keeps WF (run_stmt st binds).
Proof. unfold run_stmt. keep. Qed.

Lemma mark_trans_wf p : wf p → wf (mark_trans p).
Proof.
  intros H. unfold mark_trans. destruct (tx p) eqn:E; [|done]. destruct H as (? & ? & ? & ?).
  split_and!; try done.
Qed.
Hint Resolve mark_trans_wf run_stmt_wf : keeps.

Lemma answer_result_wf : keeps WF answer_result.
Proof. unfold answer_result. keep. Qed.
Lemma answer_rows_wf err : keeps WF (answer_rows err).
Proof. unfold answer_rows. keep. Qed.
Lemma execute_failed_wf e : keeps WF (execute_failed adapter e).
Proof. unfold execute_failed. keep. Qed.
Lemma no_statement_wf : keeps WF no_statement.
Proof. unfold no_statement. keep. Qed.
Hint Resolve answer_result_wf answer_rows_wf execute_failed_wf no_statement_wf : keeps.

Lemma execute_done_wf : keeps WF execute_done.
Proof. unfold execute_done, calExecDone. keep. Qed.
Lemma clear_outs_wf : keeps WF clear_outs.
Proof. intros s Hs. unfold clear_outs. by destruct (_ <? _). Qed.
Hint Resolve execute_done_wf clear_outs_wf : keeps.

Lemma do_Execute_wf : keeps WF (do_Execute adapter).
Proof. unfold do_Execute. keep. Qed.

Lemma fetch_rows_wf cts ncols scans nss : keeps WF (fetch_rows adapter cts ncols scans nss).
Proof. revert nss. induction scans as [|[e|row] scans IH]; intros nss; cbn [fetch_rows]; keep. Qed.
Lemma no_rows_wf : keeps WF no_rows.
Proof. unfold no_rows. keep. Qed.
Lemma send_rows_wf nss err : keeps WF (send_rows nss err).
Proof. unfold send_rows. keep. Qed.
Hint Resolve fetch_rows_wf no_rows_wf send_rows_wf : keeps.

Lemma do_Fetch_wf : keeps WF (do_Fetch adapter).
Proof. unfold do_Fetch. keep. Qed.
Lemma do_ColsInfo_wf : keeps WF (do_ColsInfo adapter).
Proof. unfold do_ColsInfo. keep. Qed.

(** The end of a transaction passes through a state in which only the flag is still set. *)
Lemma do_end_wf end_call : keeps WF (do_end adapter end_call).
Proof.
  assert (He : ∀ s : St, wf s.1 → match end_tx adapter end_call s with
    | (s', Ret None) => wf (set_inTrans false s'.1)
    | (s', _) => wf s'.1 end).
  { intros s Hs. unfold end_tx, gets, mbind at 1, io_bind at 1. cbn [fst snd].
    destruct (tx s.1) as [t|] eqn:E; [|by destruct Hs as (? & ? & ? & ?); split_and!].
    unfold call, mbind at 1, io_bind at 1. destruct (end_call t _) as [d [e|]].
    - pose proof (keeps_bind WF (process_error adapter e) (λ _, mret (Some e)) (process_error_wf e)
        ltac:(intros; apply keeps_mret) (s.1, mkWorld d (w_sock s.2) (w_more s.2) (w_out s.2)) Hs) as H.
      destruct (_ ≫= _) as [s' [[?|]| | | |]]; try done. destruct H as (? & ? & ? & ?); by split_and!.
    - destruct Hs as (? & ? & ? & ?). by split_and!. }
  intros s Hs. specialize (He s Hs). unfold do_end, mbind at 1, io_bind at 1.
  destruct (end_tx adapter end_call s) as [s' [[e|]| | | |]]; try done.
  - assert (keeps WF (_ ← eor EORInTransaction (Some (rc_sql_error e)); mret None : io St (option go_error))) as H by keep. by apply H.
  - unfold modify, mbind at 1, io_bind at 1. cbn [fst snd].
    assert (keeps WF (_ ← eor EORFree (Some (NewNetstringFrom RcOK [])); mret None : io St (option go_error))) as H by keep. by apply H.
Qed.
Hint Resolve do_Fetch_wf do_ColsInfo_wf do_end_wf do_Execute_wf do_Prepare_wf do_BindName_wf do_BindType_wf
  do_BindValue_wf do_BindNum_wf : keeps.

Lemma send_OK_wf ns res : keeps WF (send_OK ns res).
Proof. unfold send_OK. keep. Qed.
Lemma set_stmt_params_wf n : keeps WF (set_stmt_params n).
Proof. intros s Hs. unfold set_stmt_params. by destruct (stmtParams s.1). Qed.
Hint Resolve send_OK_wf set_stmt_params_wf : keeps.

Lemma process_mysql_wf ns : keeps WF (process_mysql adapter ns).
Proof.
  unfold process_mysql, do_COM_QUERY, do_COM_STMT_PREPARE, do_COM_STMT_EXECUTE, do_COM_STMT_FETCH, do_COM_DB,
    do_COM_STMT_CLOSE, calExecDone. keep.
  apply (proc_keeps_modify wf). intros p Hp. exact (reset_results_wf p Hp).
Qed.

Lemma process_netstring_wf ns : keeps WF (process_netstring adapter ns).
Proof. unfold process_netstring, do_CorrelationID, do_Commit, do_Rollback. keep. Qed.
Hint Resolve process_mysql_wf process_netstring_wf : keeps.

Lemma NewCmdProcessor_wf : wf NewCmdProcessor.
Proof.
  unfold wf. split_and!; [done| |apply map_Forall_empty|done].
  intros k. split; [by intros ?%elem_of_nil|]. intros [b Hb]. exfalso. exact (lookup_empty_Some k b Hb).
Qed.

Lemma ProcessCmd_keeps_wf ns : keeps WF (ProcessCmd adapter ns).
Proof. unfold ProcessCmd. keep. Qed.

(** Whatever command a worker gets, and whatever the driver and the adapter do, its
    state stays well formed: it is in a transaction only with a transaction open, and the
    bind variables are exactly the names of the statement at its positions, each under its own
    name, so that looking one up by position never fails. *)
Lemma ProcessCmd_wf (ns : option Packet) (s : St) : wf s.1 → wf (ProcessCmd adapter ns s).1.1.
Proof.
  apply (λ H : keeps WF (ProcessCmd adapter ns), H s). unfold ProcessCmd. keep.
Qed.

(** ** Reports at the end of a response *)

(** The code of an end of response, and whether it gives the worker back. *)
Definition eor_of (ns : Packet) : option Z :=
  if Cmd ns =? CmdEOR then (λ c, c - 48) <$> head (Payload ns) else None.

Definition frees (ns : Packet) : Prop := eor_of ns = Some EORFree ∨ eor_of ns = Some EORMoreIncomingRequests.

(** What was written after [n] gives the worker back only if it is not in a transaction; and
    nothing was written after [n]. *)
Definition Reports (n : list (Packet * bytes)) (s : St) : Prop :=
  ∃ l, w_out s.2 = n ++ l ∧ Forall (λ e, frees e.1 → inTrans s.1 = false) l.
Definition Silent (n : list (Packet * bytes)) (s : St) : Prop := w_out s.2 = n.

Lemma Silent_Reports n s : Silent n s → Reports n s.
Proof. intros <-. exists []. by rewrite app_nil_r. Qed.

(** From [P] a call ends in [Q], whatever it returns. *)
Definition leads (P Q : St → Prop) {A} (m : io St A) : Prop := ∀ s, P s → Q (m s).1.

Lemma leads_bind (P R Q : St → Prop) {A B} (m : io St A) (f : A → io St B) :
  leads P R m → (∀ s, R s → Q s) → (∀ a, leads R Q (f a)) → leads P Q (m ≫= f).
Proof.
  intros Hm HRQ Hf s Hs. specialize (Hm s Hs). unfold mbind, io_bind. destruct (m s) as [s' [a| | | |]]; auto. by apply Hf.
Qed.

Lemma eor_of_From c rq ns : 0 <= c <= 6 →
  eor_of (NewNetstringFrom CmdEOR (eor_payload c rq ns)) = Some c.
Proof.
  intros Hc. unfold eor_of. cbn [NewNetstringFrom Cmd]. change (CmdEOR =? CmdEOR) with true.
  rewrite From_Payload. unfold eor_payload. cbn [app head fmap option_fmap option_map].
  rewrite u8_id by go_lia. f_equal. lia.
Qed.

(** The state after an end of response: one more packet, and only CAL state changed. *)
Lemma eor_after code ns (s : St) : ∃ more c b w,
  (eor code ns s).1 = (set_core c s.1, w) ∧
  w_out w = w_out s.2 ++ [(NewNetstringFrom CmdEOR (eor_payload (eor_code code more) (cp_rqId (core s.1)) ns), b)] ∧
  w_db w = w_db s.2.
Proof.
  unfold eor, mbind, io_bind. unfold moreIncomingRequests. destruct (code =? EORFree); cbn [fst snd];
    unfold eor_write; destruct (CmdProcessor.eor _ _ _ _ _) as [c [out r]]; unfold wrote; cbn [fst snd];
    destruct r; cbn [fst]; eexists _, _, _, _; split_and!; reflexivity.
Qed.

(** One more packet that is a true report. *)
Lemma Reports_snoc n p d sk m (s : St) e : Reports n s → inTrans p = inTrans s.1 →
  (frees e.1 → inTrans p = false) → Reports n (p, mkWorld d sk m (w_out s.2 ++ [e])).
Proof.
  intros (l & El & Hs) Ep He. exists (l ++ [e]). cbn [w_out fst snd]. rewrite El, app_assoc.
  split; [done|]. apply Forall_app. rewrite Ep in *. split; [done|]. by constructor.
Qed.

Lemma eor_reports n code ns : 0 <= code <= 6 → ∀ s : St, Reports n s →
  (code = EORFree ∨ code = EORMoreIncomingRequests → inTrans s.1 = false) → Reports n (eor code ns s).1.
Proof.
  intros Hc s Hs Hf. destruct (eor_after code ns s) as (more & c & b & w & -> & Ew & _).
  destruct w as [d sk m out]. cbn [w_out] in Ew. subst out. apply Reports_snoc; [done..|]. cbn [fst].
  unfold frees. rewrite eor_of_From by (unfold eor_code, EORMoreIncomingRequests; destruct (_ && _); lia).
  intros H. apply Hf. unfold eor_code in H. destruct (Z.eqb_spec code EORFree); [by left|]. cbn [andb] in H. naive_solver.
Qed.

Lemma eor_state_reports n ns : keeps (Reports n) (eor_state ns).
Proof.
  intros s Hs. unfold eor_state, gets, mbind at 1, io_bind at 1.
  destruct (inTrans s.1) eqn:E; (apply eor_reports; [done|done|]); [|done].
  intros [?|?]; discriminate.
Qed.

Lemma eor_in_transaction_reports n ns : keeps (Reports n) (eor EORInTransaction ns).
Proof. intros s Hs. apply eor_reports; [done|done|]. intros [?|?]; discriminate. Qed.

(** Packets other than the end of a response. *)
Lemma WriteAll_reports n ns : Cmd ns ≠ CmdEOR → keeps (Reports n) (WriteAll ns).
Proof.
  intros Hc s Hs. unfold WriteAll. destruct (writeAll _ _ _) as [out r]. unfold wrote. cbn [fst snd].
  assert (Reports n (s.1, mkWorld (w_db s.2) (tail (w_sock s.2)) (w_more s.2) (w_out s.2 ++ [(ns, out)]))).
  { apply Reports_snoc; [done..|]. intros [H|H]; unfold eor_of in H; cbn [fst] in H;
      by rewrite (proj2 (Z.eqb_neq _ _)) in H. }
  by destruct r.
Qed.

Lemma call_reports n {A} (f : D → D * A) : keeps (Reports n) (call f).
Proof. intros s Hs. unfold call. by destruct (f (w_db s.2)). Qed.

Lemma modify_reports n f : (∀ p : CmdProc Tx Stmt Rows Res, inTrans (f p) = inTrans p) → keeps (Reports n) (modify f).
Proof. intros Hf s (l & El & Hs). exists l. split; [done|]. cbn. by rewrite Hf. Qed.

Lemma calExecErr_reports n : keeps (Reports n) calExecErr.
Proof. intros s Hs. unfold calExecErr. by destruct (calExecTxn s.1). Qed.

Lemma process_error_reports n e : keeps (Reports n) (process_error adapter e).
Proof. intros s Hs. unfold process_error. by destruct (ProcessError adapter e _ _) as [[]| | | |]. Qed.

Lemma update_bind_reports n name f : keeps (Reports n) (update_bind name f).
Proof. intros s Hs. unfold update_bind. by destruct (bindVars s.1 !! name). Qed.

Hint Resolve eor_state_reports eor_in_transaction_reports calExecErr_reports process_error_reports update_bind_reports : keeps.

(** Packets the worker builds are not ends of a response. *)
Lemma Cmd_Embedded nss : Cmd (NewNetstringEmbedded nss) ≠ CmdEOR.
Proof. unfold NewNetstringEmbedded. by destruct (embed_loop _ _ _). Qed.
Lemma Cmd_rc_value b : Cmd (rc_value b) ≠ CmdEOR.
Proof. done. Qed.
Hint Resolve WriteAll_reports Cmd_Embedded Cmd_rc_value : keeps.

(** As [keep], for reports. *)
Ltac keep_report :=
  repeat match goal with
  | |- keeps _ (mbind _ _) => apply keeps_bind; [|intros ?]
  | |- keeps _ (mret _) => apply keeps_mret
  | |- keeps _ (lift _) => apply keeps_lift
  | |- keeps _ (gets _) => apply proc_keeps_gets
  | |- keeps _ (call _) => apply call_reports
  | |- keeps _ (modify _) => apply modify_reports; intros; reflexivity
  | |- keeps _ (match ?x with _ => _ end) => destruct x
  | |- _ => solve [eauto with keeps]
  end.

Lemma do_Prepare_reports n ns : keeps (Reports n) (do_Prepare adapter ns).
Proof. unfold do_Prepare, prepare_common, prepare_sql, preprocess, begin_if, prepare_failed. keep_report. Qed.

Lemma binds_reports n ns :
  keeps (Reports n) (do_BindName ns) ∧ keeps (Reports n) (do_BindType ns) ∧
  keeps (Reports n) (do_BindValue ns) ∧ keeps (Reports n) do_BindNum.
Proof. unfold do_BindName, do_BindType, do_BindValue, do_BindNum. split_and!; keep_report. Qed.

Lemma fetch_rows_reports n cts ncols scans nss : keeps (Reports n) (fetch_rows adapter cts ncols scans nss).
Proof. revert nss. induction scans as [|[e|row] scans IH]; intros nss; cbn [fetch_rows]; keep_report. Qed.
Hint Resolve fetch_rows_reports : keeps.

Lemma fetch_reports n : keeps (Reports n) (do_Fetch adapter) ∧ keeps (Reports n) (do_ColsInfo adapter).
Proof. unfold do_Fetch, do_ColsInfo, send_rows, no_rows. split; keep_report. Qed.

(** Nothing is written before a statement has run or a transaction has ended. *)
Lemma run_stmt_silent n st binds : keeps (Silent n) (run_stmt st binds).
Proof.
  intros s Hs. unfold run_stmt, gets, mbind at 1, io_bind at 1. destruct (hasResult s.1);
    unfold call, mbind, io_bind.
  - by destruct (stmt_Query st binds (w_db s.2)) as [[d r] f].
  - by destruct (stmt_Exec st binds (w_db s.2)) as [[d r] f].
Qed.

Lemma clear_outs_silent n : keeps (Silent n) clear_outs.
Proof. intros s Hs. unfold clear_outs. by destruct (_ <? _). Qed.

Lemma end_tx_silent n end_call : keeps (Silent n) (end_tx adapter end_call).
Proof.
  assert (Hp : ∀ e, keeps (Silent n) (process_error adapter e)).
  { intros e s Hs. unfold process_error. by destruct (ProcessError adapter e _ _) as [[]| | | |]. }
  unfold end_tx. apply keeps_bind; [apply proc_keeps_gets|]. intros [t|]; [|apply keeps_mret].
  apply keeps_bind; [intros s Hs; unfold call; by destruct (end_call t (w_db s.2))|]. intros err.
  apply keeps_bind; [|intros; apply keeps_mret]. destruct err; [apply Hp|]. by intros s.
Qed.

(** A report that follows a change of the flag is about the new value. *)
Lemma execute_done_reports n : leads (Silent n) (Reports n) (execute_done (D:=D)).
Proof.
  apply (leads_bind _ (Silent n)); [by intros s|apply Silent_Reports|]. intros _ s Hs%Silent_Reports. revert s Hs.
  change (keeps (Reports n) (_ ← calExecDone; '(stop, err) ← answer_result; if stop : bool then mret err else answer_rows err : io St (option go_error))).
  unfold calExecDone, answer_result, answer_rows. keep_report.
Qed.

Lemma do_end_reports n end_call : leads (Silent n) (Reports n) (do_end adapter end_call).
Proof.
  apply (leads_bind _ (Silent n)); [apply end_tx_silent|apply Silent_Reports|]. intros [e|] s Hs%Silent_Reports.
  - revert s Hs. change (keeps (Reports n) (_ ← eor EORInTransaction (Some (rc_sql_error e)); mret None : io St (option go_error))).
    keep_report.
  - unfold modify, mbind at 1, io_bind at 1.
    set (s1 := (set_inTrans false s.1, s.2) : St).
    assert (Reports n s1) as H1. { destruct Hs as (l & ? & Hs). exists l. split; [done|]. by eapply Forall_impl. }
    assert (Reports n (eor EORFree (Some (NewNetstringFrom RcOK [])) s1).1) as H by (by apply eor_reports).
    unfold mbind, io_bind. by destruct (eor _ _ s1) as [s2 [?| | | |]].
Qed.

Lemma do_Execute_reports n : leads (Silent n) (Reports n) (do_Execute adapter).
Proof.
  unfold do_Execute. apply (leads_bind _ (Silent n)); [by intros s|apply Silent_Reports|]. intros [st|].
  2:{ intros s Hs%Silent_Reports. revert s Hs. change (keeps (Reports n) no_statement). unfold no_statement. keep_report. }
  apply (leads_bind _ (Silent n)); [apply clear_outs_silent|apply Silent_Reports|]. intros _.
  apply (leads_bind _ (Silent n)); [by intros s|apply Silent_Reports|]. intros p.
  destruct (build_binds _ _ _ _ _); try (intros s Hs; by apply Silent_Reports).
  apply (leads_bind _ (Silent n)); [apply run_stmt_silent|apply Silent_Reports|]. intros [e|].
  - intros s Hs%Silent_Reports. revert s Hs. change (keeps (Reports n) (execute_failed adapter e)).
    unfold execute_failed. keep_report.
  - apply execute_done_reports.
Qed.

Lemma process_netstring_reports n ns : leads (Silent n) (Reports n) (process_netstring adapter ns).
Proof.
  assert (HS : ∀ m : io St (option go_error), keeps (Reports n) m → leads (Silent n) (Reports n) m).
  { intros m Hm s Hs. by apply Hm, Silent_Reports. }
  destruct (binds_reports n ns) as (? & ? & ? & ?). destruct (fetch_reports n) as [? ?].
  unfold process_netstring, do_CorrelationID, do_Commit, do_Rollback.
  repeat case_match; auto using do_Prepare_reports, do_Execute_reports, do_end_reports.
  all: apply HS, keeps_mret.
Qed.

(** A worker that says, in answer to a netstring command, that it is free, or free but for
    waiting requests, is not in a transaction in the state the command ends in. *)
Lemma process_reports (ns : Packet) (s : St) : IsMySQL ns = false →
  let s' := (ProcessCmd adapter (Some ns) s).1 in
  ∃ l, w_out s'.2 = w_out s.2 ++ l ∧ Forall (λ e, frees e.1 → inTrans s'.1 = false) l.
Proof.
  intros Em s'. unfold s', ProcessCmd, modify, mbind, io_bind. rewrite Em.
  apply (process_netstring_reports (w_out s.2)). done.
Qed.

(** ** Commit and rollback *)

Abbreviation eor_packet code more rq ns := (NewNetstringFrom CmdEOR (eor_payload (eor_code code more) rq (Some ns))).

(** What comes after the call that ends a transaction: one end of response. *)
Definition end_answer (code : Z) (ns : Packet) : io St (option go_error) := _ ← eor code (Some ns); mret None.

Lemma end_answer_spec code ns (s : St) : let '(s', r) := end_answer code ns s in
  (tx s'.1 = tx s.1 ∧ inTrans s'.1 = inTrans s.1 ∧ w_db s'.2 = w_db s.2) ∧
  (∃ more b, w_out s'.2 = w_out s.2 ++ [(eor_packet code more (cp_rqId (core s.1)) ns, b)]) ∧ (∀ err, r = Ret err → err = None).
Proof.
  destruct (eor_after code (Some ns) s) as (more & c & b & w & Ea & Ew & Ed). unfold end_answer, mbind, io_bind.
  destruct (eor code (Some ns) s) as [s3 r3]. cbn [fst] in Ea. subst s3.
  destruct r3; (split_and!; [done|done|done|by exists more, b|naive_solver]).
Qed.

Lemma do_end_free end_call (s s1 : St) : end_tx adapter end_call s = (s1, Ret None) →
  do_end adapter end_call s = end_answer EORFree (NewNetstringFrom RcOK []) (set_inTrans false s1.1, s1.2).
Proof. intros E. unfold do_end. by rewrite (io_bind_Ret _ _ _ _ _ E). Qed.

Lemma do_end_error end_call (s s1 : St) e : end_tx adapter end_call s = (s1, Ret (Some e)) →
  do_end adapter end_call s = end_answer EORInTransaction (rc_sql_error e) s1.
Proof. intros E. unfold do_end. by rewrite (io_bind_Ret _ _ _ _ _ E). Qed.

Abbreviation with_db s d := (mkWorld d (w_sock s.2) (w_more s.2) (w_out s.2)).

Lemma end_tx_eq end_call (s : St) t : tx s.1 = Some t → end_tx adapter end_call s =
  match end_call t (w_db s.2) with
  | (d, None) => ((set_tx None s.1, with_db s d), Ret None)
  | (d, Some e) =>
    match ProcessError adapter e (WorkerScope s.1) (queryScope s.1) with
    | Ret (ws, qs) => ((set_WorkerScope ws (set_queryScope qs s.1), with_db s d), Ret (Some e))
    | Error e => ((s.1, with_db s d), Error e)
    | Panic => ((s.1, with_db s d), Panic)
    | Fatal => ((s.1, with_db s d), Fatal)
    | Hang => ((s.1, with_db s d), Hang)
    end
  end.
Proof.
  intros Et. unfold end_tx, gets, mbind at 1, io_bind at 1. cbn [fst snd]. rewrite Et.
  unfold call, mbind at 1, io_bind at 1. destruct (end_call t (w_db s.2)) as [d [e|]]; [|done].
  unfold process_error, mbind, io_bind. cbn [fst snd]. by destruct (ProcessError adapter e _ _) as [[ws qs]| | | |].
Qed.

(** Commit and rollback, on every branch. Without a transaction, or when it could be ended,
    the worker has none and says once that it is free; when it could not be ended the worker
    keeps it, and unless the adapter stops it says once that it is in a transaction. *)
Definition ended (end_call : Tx → D → D * option go_error) (s s' : St) (r : result (option go_error)) : Prop :=
  let freed := tx s'.1 = None ∧ inTrans s'.1 = false ∧
    ∃ more b, w_out s'.2 = w_out s.2 ++ [(eor_packet EORFree more (cp_rqId (core s.1)) (NewNetstringFrom RcOK []), b)] in
  (∀ err, r = Ret err → err = None) ∧
  match tx s.1 with
  | None => w_db s'.2 = w_db s.2 ∧ freed
  | Some t =>
    w_db s'.2 = (end_call t (w_db s.2)).1 ∧
    match (end_call t (w_db s.2)).2 with
    | None => freed
    | Some e => tx s'.1 = Some t ∧ inTrans s'.1 = inTrans s.1 ∧
      match ProcessError adapter e (WorkerScope s.1) (queryScope s.1) with
      | Ret _ => ∃ more b, w_out s'.2 = w_out s.2 ++ [(eor_packet EORInTransaction more (cp_rqId (core s.1)) (rc_sql_error e), b)]
      | _ => w_out s'.2 = w_out s.2 ∧ ∀ err, r ≠ Ret err
      end
    end
  end.

Lemma do_end_spec end_call (s : St) : let '(s', r) := do_end adapter end_call s in ended end_call s s' r.
Proof.
  unfold ended. destruct (tx s.1) as [t|] eqn:Et.
  - pose proof (end_tx_eq end_call s t Et) as E. destruct (end_call t (w_db s.2)) as [d [e|]]; cbn [fst snd].
    + destruct (ProcessError adapter e _ _) as [[ws qs]|e'| | |];
        [|unfold do_end, mbind at 1, io_bind at 1; rewrite E; cbn; by rewrite Et..].
      rewrite (do_end_error _ _ _ _ E). match goal with |- context [end_answer ?c ?n ?s1] => pose proof (end_answer_spec c n s1) as H; destruct (end_answer c n s1) as [s' r] end.
      cbn in H. destruct H as ((-> & -> & ->) & ? & ?). by rewrite Et.
    + rewrite (do_end_free _ _ _ E). match goal with |- context [end_answer ?c ?n ?s1] => pose proof (end_answer_spec c n s1) as H; destruct (end_answer c n s1) as [s' r] end.
      by destruct H as ((-> & -> & ->) & ? & ?).
  - rewrite (do_end_free end_call s s); [|unfold end_tx, gets, mbind, io_bind; cbn [fst snd]; by rewrite Et].
    match goal with |- context [end_answer ?c ?n ?s1] => pose proof (end_answer_spec c n s1) as H; destruct (end_answer c n s1) as [s' r] end.
    by destruct H as ((-> & -> & ->) & ? & ?).
Qed.

End facts.

End WorkerFacts.
