(* ===== verification/WorkerService.v ===== *)
(** * The worker process (worker/shared/workerservice.go): its start with the adapter's
    initialisation of the database, and its main loop over commands, signals and heartbeats. *)

From S2P Require Import Prelude GoIO Codes Netstring MysqlPackets ConfigFile Adapter WorkerClient CmdProcessor WorkerCmd WorkerFacts.
From stdpp Require Import base list gmap strings.
From Stdlib Require Import ZArith Lia.
Open Scope Z_scope.

Module WorkerService.
Import Codes Netstring Adapter WorkerClient CmdProcessor WorkerCmd WorkerFacts.

(** ** Reading commands *)

(** The socket both readers share, which of them is in use, and what the netstring reader
    has buffered. *)
Record CmdReader := mkCmdReader {
  sock : stream;
  use_netstring : bool;
  buffered : option Packet * list Packet * nat
}.

(** A worker starts with the MySQL reader. *)
Definition new_reader (s : stream) : CmdReader := mkCmdReader s false (None, [], 0%nat).

Definition ns_ReadNext (r : CmdReader) : CmdReader * result Packet :=
  let '(n, l, i) := buffered r in
  let '(q, p) := Netstring.ReadNext (mkNSReader (sock r) n l i) in
  (mkCmdReader (reader q) true (ns q, nss q, next q), p).

Definition mysql_ReadNext (r : CmdReader) : CmdReader * result Packet :=
  let '(q, p) := MysqlPackets.Mysql.ReadNext (Mysql.mkPackager (sock r) 0) in
  (mkCmdReader (Mysql.preader q) (use_netstring r) (buffered r), p).

(** One turn of the reading goroutine: what is sent to the loop, nil after an error. With
    warnings logged ([warn]) the packet of a failed read, which is nil, is logged too. *)
Definition read_next (warn : bool) (r : CmdReader) : CmdReader * result (option Packet) :=
  let '(r, p) := if use_netstring r then ns_ReadNext r else mysql_ReadNext r in
  let '(r, p) := match p with Error WRONGPACKET => ns_ReadNext r | _ => (r, p) end in
  match p with
  | Ret p => (r, Ret (Some p))
  | Error _ => (r, if warn then Panic else Ret None)
  | Panic => (r, Panic)
  | Fatal => (r, Fatal)
  | Hang => (r, Hang)
  end.

Lemma Netstring_unknown (s : stream) d l : unread s = d :: l → is_digit d →
  ∃ s', NewNetstring s = (s', Error UNKNOWNPACKET).
Proof.
  intros Hu Hd. unfold is_digit in Hd.
  destruct (bufio.ReadByte_some (bufio.NewReader s) d l) as (b & E & _); [done|].
  unfold NewNetstring. rewrite E. rewrite (proj2 (Z.eqb_neq d 1)), (proj2 (Z.eqb_neq d 0)) by lia. eauto.
Qed.

(** A worker cannot read the first netstring that is sent to it: the MySQL reader it
    starts with has taken the byte that tells the two kinds of packets apart, and the
    netstring reader does not find it. The loop gets nil, on which it ends, or the goroutine
    that reads has panicked. *)
Theorem first_netstring_unreadable (s : stream) (cmd : Z) (payload rest : bytes) (warn : bool) :
  unread s = Serialized (NewNetstringFrom cmd payload) ++ rest →
  (read_next warn (new_reader s)).2 = if warn then Panic else Ret None.
Proof.
  intros Hu. rewrite From_Serialized in Hu. unfold frame in Hu.
  destruct (itoa_spec (zlen (body_of (itoa cmd) payload)) ltac:(lia)) as (Hd & Hne & _).
  destruct (itoa (zlen (body_of (itoa cmd) payload))) as [|d ds]; [done|]. apply Forall_cons_1 in Hd as [Hd _].
  cbn [app] in Hu. destruct (Read_byte s _ _ Hu) as (s1 & E1 & Hu1 & _).
  assert (Em : mysql_ReadNext (new_reader s) = (mkCmdReader s1 false (None, [], 0%nat), Error WRONGPACKET)).
  { unfold mysql_ReadNext, Mysql.ReadNext, Mysql.NewMySQLPacket. cbn [Mysql.preader new_reader sock].
    unfold mbind, io_bind, Mysql.read_into. change (zlen (replicate (Z.to_nat Mysql.INT1) 0)) with 1. by rewrite E1. }
  unfold read_next. change (use_netstring (new_reader s)) with false. cbv iota. rewrite Em.
  destruct (Netstring_unknown s1 _ _ Hu1 Hd) as [s2 E2].
  assert (En : ∃ r, ns_ReadNext (mkCmdReader s1 false (None, [], 0%nat)) = (r, Error UNKNOWNPACKET)).
  { unfold ns_ReadNext. cbn [buffered sock]. unfold Netstring.ReadNext. cbn [reader].
    rewrite Nat.add_comm. cbn [plus ReadNext_loop ns nss next]. rewrite lookup_nil. cbn [reader]. rewrite E2. eauto. }
  destruct En as [r ->]. by destruct warn.
Qed.

Lemma first_netstring_unreadable_witness :
  (read_next false (new_reader (mkStream [Serialized (NewNetstringFrom CmdCommit [])] io_EOF))).2 = Ret None.
Proof. apply (first_netstring_unreadable _ CmdCommit [] [] false). reflexivity. Defined.

(** ** The loop *)

Section loop.
Context {D Tx Stmt Rows Res : Type} `{!SqlDB D Tx Stmt Rows Res} `{!EqDecision Stmt}.
Context (adapter : CmdProcessorAdapter).

Abbreviation St := (CmdProc Tx Stmt Rows Res * World D)%type.

(** What the select of the loop gets: the timer, with what the check of the database would
    say; a signal, with the number of packets in the channel when it is drained; a packet. *)
Inductive event : Type :=
  | HeartbeatTimer (dbUp : bool)
  | SignalRecover (queued : nat)
  | SignalExit
  | Received (ns : option Packet).

(** [cp.rqId++], a [uint16]. *)
Definition next_rqId (n : Z) (p : CmdProc Tx Stmt Rows Res) : CmdProc Tx Stmt Rows Res :=
  set_core (CmdProcessor.mkCmdProcessor (calSessionTxn (core p)) (heartbeat (core p)) (u16 (cp_rqId (core p) + n))) p.

Definition rollback_cmd : Packet := NewNetstringFrom CmdRollback [].

(** [drainIncomingChannel] counts the packets it drops. *)
Definition drainIncomingChannel (queued : nat) : io St unit := modify (next_rqId (Z.of_nat queued)).

Definition recoverworker (queued : nat) : io St (option go_error) :=
  _ ← drainIncomingChannel queued;
  ProcessCmd adapter (Some rollback_cmd).

(** One turn of the loop; false ends it, and with it the worker. *)
Definition turn (e : event) : io St bool :=
  match e with
  | HeartbeatTimer dbUp =>
    p ← gets id;
    mret (if heartbeat (core p) && isIdle p then dbUp else true)
  | SignalRecover queued =>
    err ← recoverworker queued;
    mret (match err with Some _ => false | None => true end)
  | SignalExit => mret false
  | Received ns =>
    _ ← modify (next_rqId 1);
    match ns with
    | None => mret false
    | Some ns =>
      err ← ProcessCmd adapter (Some ns);
      match err with
      | Some _ => mret false
      | None => p ← gets id; mret (negb (Child_shutdown_flag (WorkerScope p)))
      end
    end
  end.

(** The loop over the events of a run; it returns whether the worker is still there. *)
Fixpoint runworker (es : list event) : io St bool :=
  match es with
  | [] => mret true
  | e :: es =>
    go_on ← turn e;
    if go_on : bool then runworker es else mret false
  end.

(** The time between heartbeats in nanoseconds; zero is the default. *)
Definition hbInterval (cfg : TxtConfig.data) : Z :=
  let d := i64 (TxtConfig.GetOrDefaultInt cfg (str "db_heartbeat_interval") 120 * 1000000000) in
  if d =? 0 then 120 * 1000000000 else d.

(** Which adapter the worker is built with. *)
Inductive database : Type := MysqlWorker | OracleWorker.

(** What the check of a MySQL database finds on a connection (see [Mysql.Heartbeat]). *)
Record health := mkHealth {
  hl_conn : bool;
  hl_prepared : bool;
  hl_queried : bool;
  hl_row : option (go_error + Z)
}.

(** What a worker finds at its start: its configuration file, whether the log file can be
    opened, the user, the password and the data source of its environment, whether it was
    started under the log prefix of a worker, what [sql.Open] says to a data source name, and
    how the database behind a name does in the check. A handle is known by its name. *)
Record setup := mkSetup {
  su_config : option (list bytes);
  su_log : bool;
  su_database : database;
  su_user : bytes;
  su_pass : bytes;
  su_ds : bytes;
  su_worker : bool;
  su_open : bytes → option go_error;
  su_health : bytes → health
}.

Definition sql_Open (su : setup) (name : bytes) : go_error + bytes :=
  match su_open su name with Some e => inl e | None => inr name end.

Definition writable (su : setup) (name : bytes) : bool :=
  let h := su_health su name in
  Mysql.Heartbeat (hl_conn h) (su_worker su) (hl_prepared h) (hl_queried h) (hl_row h).

(** [InitDB]: the error of the adapter. The expressions compiled after it are constants. *)
Definition InitDB (su : setup) : option go_error :=
  match su_database su with
  | MysqlWorker => (Mysql.InitDB (sql_Open su) (writable su) (su_user su) (su_pass su) (su_ds su)).2
  | OracleWorker =>
    match Oracle.InitDB (sql_Open su) (su_user su) (su_pass su) (su_ds su) with
    | inl e => Some e
    | inr _ => None
    end
  end.

Definition ready_msg : Packet := NewNetstringFrom CmdControlMsg (str "0 MyDB").

(** [Start] up to its loop: a worker with everything in place says that it is ready, and
    whether the message got through is not looked at. Any other ends, without a word to the
    proxy. *)
Definition start_up (su : setup) : io St bool :=
  match su_config su with
  | None => mret false
  | Some _ =>
    if negb (su_log su) then mret false
    else
      match InitDB su with
      | Some _ => mret false
      | None => _ ← WriteAll ready_msg; mret true
      end
  end.

Definition Start (su : setup) (es : list event) : io St bool :=
  ok ← start_up su;
  if ok : bool then runworker es else mret false.

(** ** What the loop keeps *)

Abbreviation WF := (λ s : St, wf s.1).

Lemma next_rqId_wf n : keeps WF (modify (next_rqId n)).
Proof. by apply (proc_keeps_modify wf). Qed.

Lemma turn_wf e : keeps WF (turn e).
Proof.
  pose proof (ProcessCmd_keeps_wf (D:=D) (Tx:=Tx) (Stmt:=Stmt) (Rows:=Rows) (Res:=Res) adapter) as HP.
  pose proof next_rqId_wf as Hn. destruct e as [dbUp|queued| |[ns|]]; cbn [turn];
    unfold recoverworker, drainIncomingChannel; repeat first
    [ apply keeps_mret | apply proc_keeps_gets | apply HP | apply Hn
    | apply keeps_bind; [|intros ?] | match goal with |- keeps _ (match ?x with _ => _ end) => destruct x end ].
Qed.

Lemma runworker_wf es : keeps WF (runworker es).
Proof.
  induction es as [|e es IH]; cbn [runworker]; [apply keeps_mret|].
  apply keeps_bind; [apply turn_wf|]. intros [|]; [done|apply keeps_mret].
Qed.

Lemma Start_wf (su : setup) (es : list event) : keeps WF (Start su es).
Proof.
  apply keeps_bind; [|intros [|]; [apply runworker_wf|apply keeps_mret]].
  unfold start_up. repeat case_match; try apply keeps_mret. apply keeps_bind; [apply WriteAll_wf|]. intros _. apply keeps_mret.
Qed.

(** ** Recovery *)


End loop.

End WorkerService.
