(* ===== verification/WorkerJournal.v ===== *)
(** * What a worker has done on its database connection (worker/shared/cmdprocessor.go).

    A journal of the transactions of the connection: any driver is wrapped so that what it
    did without an error is recorded, the beginning of a transaction, a statement that ran,
    and the end of a transaction. With it the flags of the worker are compared with what
    happened in the database, and not only with each other. *)

From S2P Require Import Prelude GoIO Codes Netstring MysqlPackets SqlParser Fmt Adapter WorkerClient CmdProcessor WorkerCmd WorkerFacts WorkerService.
From stdpp Require Import base list gmap strings.
From Stdlib Require Import ZArith Lia.
Open Scope Z_scope.

Module WorkerJournal.
Import Codes MysqlPackets.Mysql Netstring SqlParser Adapter WorkerClient CmdProcessor WorkerCmd WorkerFacts WorkerService.

(** ** Journals *)

Inductive jevent : Set := JBegin | JRun | JEnd.
Abbreviation journal := (list jevent).

(** Whether a transaction is open, and whether a statement ran in it. *)
Definition jstep (st : bool * bool) (e : jevent) : bool * bool :=
  match e with
  | JBegin => (true, st.2)
  | JRun => (st.1, st.1 || st.2)
  | JEnd => (false, false)
  end.

Definition jstate (j : journal) : bool * bool := foldl jstep (false, false) j.

Lemma jstate_snoc j e : jstate (j ++ [e]) = jstep (jstate j) e.
Proof. unfold jstate. by rewrite foldl_app. Qed.

Definition is_open (j : journal) : Prop := ∃ j1 j2, j = j1 ++ JBegin :: j2 ∧ JEnd ∉ j2.

(** A statement ran in a transaction that has not ended. *)
Definition unsettled (j : journal) : Prop :=
  ∃ j1 j2 j3, j = j1 ++ JBegin :: (j2 ++ JRun :: j3) ∧ (JEnd ∉ j2) ∧ JEnd ∉ j3.

Lemma snoc_inv {A} (j j1 j2 : list A) e x : j ++ [e] = j1 ++ x :: j2 →
  (j2 = [] ∧ e = x ∧ j = j1) ∨ (∃ j2', j2 = j2' ++ [e] ∧ j = j1 ++ x :: j2').
Proof.
  destruct j2 as [|y j2' _] using rev_ind.
  - intros [<- [= <-]]%app_inj_tail. by left.
  - rewrite app_comm_cons, app_assoc. intros [-> <-]%app_inj_tail. right. by exists j2'.
Qed.

Lemma jstate_open j : (jstate j).1 = true ↔ is_open j.
Proof.
  induction j as [|e j IH] using rev_ind.
  { split; [done|]. intros (j1 & j2 & E & _). by destruct j1. }
  rewrite jstate_snoc. split.
  - intros H. destruct e; cbn [jstep fst] in H; [exists j, []; split; [done|by apply not_elem_of_nil]| |done].
    apply IH in H as (j1 & j2 & -> & ?). exists j1, (j2 ++ [JRun]). rewrite <- app_assoc. split; [done|].
    rewrite not_elem_of_app, list_elem_of_singleton. done.
  - intros (j1 & j2 & [(-> & -> & ->)|(j2' & -> & ->)]%snoc_inv & Hn); [done|].
    apply not_elem_of_app in Hn as [Hn He]. rewrite list_elem_of_singleton in He.
    assert (is_open (j1 ++ JBegin :: j2')) as H%IH by (by exists j1, j2'). by destruct e.
Qed.

Lemma jstate_unsettled j : (jstate j).2 = true ↔ unsettled j.
Proof.
  induction j as [|e j IH] using rev_ind.
  { split; [done|]. intros (j1 & j2 & j3 & E & _). by destruct j1. }
  rewrite jstate_snoc. split.
  - assert (Hs : e ≠ JEnd → unsettled j → unsettled (j ++ [e])).
    { intros He (j1 & j2 & j3 & -> & ? & ?). exists j1, j2, (j3 ++ [e]). rewrite <- app_assoc. cbn [app]. rewrite <- app_assoc.
      split_and!; [done..|]. rewrite not_elem_of_app, list_elem_of_singleton. done. }
    intros H. destruct e; cbn [jstep snd] in H; [by apply Hs; [|apply IH]| |done].
    apply orb_true_iff in H as [H|H]; [|by apply Hs; [|apply IH]].
    apply jstate_open in H as (j1 & j2 & -> & ?). exists j1, j2, []. rewrite <- app_assoc. split_and!; [done..|by apply not_elem_of_nil].
  - intros (j1 & j2 & j3 & E & H2 & H3). rewrite app_comm_cons, app_assoc in E.
    apply snoc_inv in E as [(-> & -> & ->)|(j3' & -> & ->)].
    + cbn [jstep snd]. assert (is_open (j1 ++ JBegin :: j2)) as H%jstate_open by (by exists j1, j2). by rewrite H.
    + apply not_elem_of_app in H3 as [H3 He]. rewrite list_elem_of_singleton in He.
      assert (unsettled ((j1 ++ JBegin :: j2) ++ JRun :: j3')) as H%IH
        by (exists j1, j2, j3'; by rewrite <- app_assoc).
      destruct e; cbn [jstep snd]; rewrite ?H, ?orb_true_r; done.
Qed.

(** ** The recording driver *)

Section journal.
Context {D Tx Stmt Rows Res : Type} `{!SqlDB D Tx Stmt Rows Res} `{!EqDecision Stmt}.

Abbreviation JD := (D * journal)%type.

(** A call that is not recorded, and one that is when it succeeds. *)
Definition passed {A} (f : D → D * A) (d : JD) : JD * A := let '(d', a) := f d.1 in ((d', d.2), a).

Definition note (e : jevent) (ok : bool) (j : journal) : journal := if ok then j ++ [e] else j.

Definition succeeds {A} (r : go_error + A) : bool := match r with inl _ => false | inr _ => true end.
Definition no_error (r : option go_error) : bool := match r with Some _ => false | None => true end.

(** A statement run on the connection and not through a handle ([db.Query], [db.Exec]) is not
    part of a transaction of database/sql, and is not recorded. *)
#[global] Instance recording : SqlDB JD Tx Stmt Rows Res := {
  db_Begin d := let '(d', r) := db_Begin d.1 in ((d', note JBegin (succeeds r) d.2), r);
  db_Prepare q := passed (db_Prepare q);
  db_Query q := passed (db_Query q);
  db_Exec q := passed (db_Exec q);
  tx_Prepare t q := passed (tx_Prepare t q);
  tx_Commit t d := let '(d', r) := tx_Commit t d.1 in ((d', note JEnd (no_error r) d.2), r);
  tx_Rollback t d := let '(d', r) := tx_Rollback t d.1 in ((d', note JEnd (no_error r) d.2), r);
  stmt_Query st args d := let '(d', r, f) := stmt_Query st args d.1 in ((d', note JRun (succeeds r) d.2), r, f);
  stmt_Exec st args d := let '(d', r, f) := stmt_Exec st args d.1 in ((d', note JRun (succeeds r) d.2), r, f);
  stmt_Close st := passed (stmt_Close st);
  res_RowsAffected r := passed (res_RowsAffected r);
  res_LastInsertId r := passed (res_LastInsertId r);
  rows_Columns r := passed (rows_Columns r);
  rows_ColumnTypes r := passed (rows_ColumnTypes r);
  rows_Scans r n := passed (rows_Scans r n)
}.

Context (adapter : CmdProcessorAdapter).
Abbreviation St := (CmdProc Tx Stmt Rows Res * World JD)%type.

Definition journal_of (s : St) : journal := (w_db s.2).2.

(** The worker has a transaction exactly when one is open in the database, and a statement that
    ran in it is known to the worker, which then counts as in a transaction. *)
Definition accounted (s : St) : Prop :=
  (is_open (journal_of s) ↔ is_Some (tx s.1)) ∧ (unsettled (journal_of s) → inTrans s.1 = true ∧ is_Some (tx s.1)).

(** The same by what the journal computes, with which the steps are checked. *)
Definition acc (p : CmdProc Tx Stmt Rows Res) (j : journal) : Prop :=
  ((jstate j).1 = true ↔ is_Some (tx p)) ∧ ((jstate j).2 = true → inTrans p = true ∧ is_Some (tx p)).
Definition Acc (s : St) : Prop := acc s.1 (journal_of s).

Lemma acc_accounted s : Acc s ↔ accounted s.
Proof. unfold Acc, acc, accounted. by rewrite jstate_open, jstate_unsettled. Qed.

(** ** The steps of the commands *)

Lemma modify_acc f : (∀ p : CmdProc Tx Stmt Rows Res, tx (f p) = tx p ∧ inTrans (f p) = inTrans p) → keeps Acc (modify f).
Proof. intros Hf s Hs. unfold Acc, acc in *. cbn. by destruct (Hf s.1) as [-> ->]. Qed.

Lemma call_acc {A} (f : D → D * A) : keeps Acc (call (passed f)).
Proof. intros s Hs. unfold call, passed. by destruct (f (w_db s.2).1). Qed.

Lemma wrote_acc ns out r : keeps Acc (wrote ns out r).
Proof. intros s Hs. unfold wrote. by destruct r. Qed.

Lemma WriteAll_acc ns : keeps Acc (WriteAll ns).
Proof. intros s Hs. unfold WriteAll. destruct (writeAll _ _ _) as [out r]. by apply wrote_acc. Qed.

Lemma eor_acc code ns : keeps Acc (eor code ns).
Proof.
  apply keeps_bind; [|intros more].
  - intros s Hs. unfold moreIncomingRequests. by destruct (code =? EORFree).
  - intros s Hs. unfold eor_write. destruct (CmdProcessor.eor _ _ _ _ _) as [c [out r]]. by apply wrote_acc.
Qed.

Lemma eor_state_acc ns : keeps Acc (eor_state ns).
Proof. apply keeps_bind; [apply proc_keeps_gets|]. intros t. apply eor_acc. Qed.

Lemma calExecErr_acc : keeps Acc calExecErr.
Proof. intros s Hs. unfold calExecErr. by destruct (calExecTxn s.1). Qed.

Lemma process_error_acc e : keeps Acc (process_error adapter e).
Proof. intros s Hs. unfold process_error. by destruct (ProcessError adapter e _ _) as [[]| | | |]. Qed.

Lemma update_bind_acc name f : keeps Acc (update_bind name f).
Proof. intros s Hs. unfold update_bind. by destruct (bindVars s.1 !! name). Qed.

Lemma clear_outs_acc : keeps Acc clear_outs.
Proof. intros s Hs. unfold clear_outs. by destruct (_ <? _). Qed.

Lemma set_stmt_params_acc n : keeps Acc (set_stmt_params n).
Proof. intros s Hs. unfold set_stmt_params. by destruct (stmtParams s.1). Qed.

Lemma begin_if_acc b : keeps Acc (begin_if b).
Proof.
  intros s Hs. unfold begin_if, gets, mbind at 1, io_bind at 1.
  destruct (tx s.1) eqn:E; [done|]. destruct b; [|done].
  unfold call, modify, mbind, io_bind. cbn [db_Begin recording]. unfold Acc, acc, journal_of in *. rewrite E in Hs.
  destruct (db_Begin (w_db s.2).1) as [d [e|t]]; cbn [fst snd handle note succeeds w_db tx set_tx]; [done|].
  rewrite jstate_snoc. cbn [jstep fst snd]. destruct Hs as [_ H2]. split; [done|]. intros H. by destruct (H2 H) as [? [? ?]].
Qed.
#[local] Hint Resolve wrote_acc WriteAll_acc eor_acc eor_state_acc calExecErr_acc process_error_acc update_bind_acc
  clear_outs_acc set_stmt_params_acc begin_if_acc : keeps.

(** A statement that ran, and the flag that is set after it. *)
Lemma mark_ran p j : acc p j → acc (mark_trans p) (j ++ [JRun]).
Proof.
  unfold acc, mark_trans. rewrite jstate_snoc. cbn [jstep fst snd]. intros [H1 H2].
  destruct (tx p) eqn:E; cbn [tx set_inTrans inTrans]; rewrite ?E; (split; [done|]).
  - intros _. split; [done|by eexists].
  - intros [H|H]%orb_true_iff; [by apply H1 in H as [? ?]|by destruct (H2 H) as [? [? ?]]].
Qed.

Lemma run_stmt_acc st binds (s : St) : Acc s →
  match run_stmt st binds s with
  | (s', Ret None) => acc (mark_trans s'.1) (journal_of s')
  | (s', _) => Acc s'
  end.
Proof.
  intros Hs. unfold run_stmt, gets, mbind at 1, io_bind at 1. unfold Acc, journal_of in *.
  destruct (hasResult s.1); unfold call, modify, mbind, io_bind; cbn [stmt_Query stmt_Exec recording].
  - destruct (stmt_Query st binds (w_db s.2).1) as [[d [e|r]] f]; cbn [fst snd handle note succeeds w_db]; [done|]. apply mark_ran. exact Hs.
  - destruct (stmt_Exec st binds (w_db s.2).1) as [[d [e|r]] f]; cbn [fst snd handle note succeeds w_db]; [done|]. apply mark_ran. exact Hs.
Qed.

Lemma run_then_acc st binds {B} (F : go_error → io St B) (G : io St B) : (∀ e, keeps Acc (F e)) → keeps Acc G →
  keeps Acc (err ← run_stmt st binds; match err with Some e => F e | None => _ ← modify mark_trans; G end).
Proof.
  intros HF HG s Hs. pose proof (run_stmt_acc st binds s Hs) as H. unfold mbind at 1, io_bind at 1.
  destruct (run_stmt st binds s) as [s' [[e|]| | | |]]; try done; [by apply HF|]. by apply HG.
Qed.


Ltac keep :=
  repeat match goal with
  | |- keeps _ (mbind _ (run_stmt _ _)) => apply run_then_acc; [intros ?|]
  | |- keeps _ (mbind _ _) => apply keeps_bind; [|intros ?]
  | |- keeps _ (mret _) => apply keeps_mret
  | |- keeps _ (lift _) => apply keeps_lift
  | |- keeps _ (gets _) => apply proc_keeps_gets
  | |- keeps _ (call (match ?x with _ => _ end)) => destruct x
  | |- keeps _ (call _) => apply call_acc
  | |- keeps _ (modify _) => apply modify_acc; done
  | |- keeps _ (match ?x with _ => _ end) => destruct x
  | |- _ => solve [eauto with keeps]
  end.

(** ** The commands *)

Lemma preprocess_acc ns : keeps Acc (preprocess adapter ns).
Proof. unfold preprocess. keep. Qed.
#[local] Hint Resolve preprocess_acc : keeps.

Lemma prepare_common_acc ns : keeps Acc (prepare_common adapter ns).
Proof. unfold prepare_common, prepare_sql. keep. Qed.

Lemma prepare_failed_acc err : keeps Acc (prepare_failed adapter err).
Proof. unfold prepare_failed. keep. Qed.

Lemma fetch_rows_acc cts ncols scans nss : keeps Acc (fetch_rows adapter cts ncols scans nss).
Proof. revert nss. induction scans as [|[e|row] scans IH]; intros nss; cbn [fetch_rows]; keep. Qed.
#[local] Hint Resolve prepare_common_acc prepare_failed_acc fetch_rows_acc : keeps.

Lemma answer_result_acc : keeps Acc answer_result.
Proof. unfold answer_result. keep. Qed.

Lemma answer_rows_acc err : keeps Acc (answer_rows err).
Proof. unfold answer_rows. keep. Qed.
#[local] Hint Resolve answer_result_acc answer_rows_acc : keeps.

Lemma execute_failed_acc e : keeps Acc (execute_failed adapter e).
Proof. unfold execute_failed. keep. Qed.

#[local] Hint Resolve execute_failed_acc : keeps.

Lemma do_Prepare_acc ns : keeps Acc (do_Prepare adapter ns).
Proof. unfold do_Prepare. keep. Qed.

Lemma binds_acc ns :
  keeps Acc (do_BindName ns) ∧ keeps Acc (do_BindType ns) ∧ keeps Acc (do_BindValue ns) ∧ keeps Acc do_BindNum.
Proof. unfold do_BindName, do_BindType, do_BindValue, do_BindNum. split_and!; keep. Qed.

Lemma fetch_acc : keeps Acc (do_Fetch adapter) ∧ keeps Acc (do_ColsInfo adapter).
Proof. unfold do_Fetch, do_ColsInfo, send_rows, no_rows. split; keep. Qed.

Lemma do_Execute_acc : keeps Acc (do_Execute adapter).
Proof.
  unfold do_Execute, execute_done, no_statement. unfold calExecDone. keep.
Qed.

(** The end of a transaction; without one the flag may be cleared too. *)
Lemma end_tx_acc end_call e_call : (∀ t d, e_call t d = let '(d', r) := end_call t d.1 in ((d', note JEnd (no_error r) d.2), r)) →
  ∀ s : St, Acc s → match end_tx adapter e_call s with
    | (s', Ret None) => Acc (set_inTrans false s'.1, s'.2)
    | (s', _) => Acc s'
    end.
Proof.
  intros He s Hs. unfold end_tx, gets, mbind at 1, io_bind at 1. cbn [fst snd].
  destruct (tx s.1) as [t|] eqn:E.
  2:{ unfold Acc, acc in *. cbn. rewrite E in *. destruct Hs as [H1 H2]. split; [done|]. intros H. by destruct (H2 H) as [_ [? ?]]. }
  unfold call, mbind at 1, io_bind at 1. rewrite He. destruct (end_call t (w_db s.2).1) as [d [e|]]; cbn [note no_error].
  - assert (keeps Acc (_ ← process_error adapter e; mret (Some e) : io St (option go_error))) as H by keep.
    specialize (H (s.1, mkWorld (d, (w_db s.2).2) (w_sock s.2) (w_more s.2) (w_out s.2)) Hs).
    unfold mbind, io_bind in *. by destruct (process_error adapter e _) as [s' [[]| | | |]].
  - unfold modify, mbind, io_bind, mret, io_ret. unfold Acc, acc, journal_of in *. cbn [fst snd w_db].
    rewrite jstate_snoc. cbn. split; [|done]. split; [done|]. by intros [? ?].
Qed.

Lemma do_end_acc end_call e_call : (∀ t d, e_call t d = let '(d', r) := end_call t d.1 in ((d', note JEnd (no_error r) d.2), r)) →
  keeps Acc (do_end adapter e_call).
Proof.
  intros He s Hs. pose proof (end_tx_acc end_call e_call He s Hs) as H. unfold do_end, mbind at 1, io_bind at 1.
  destruct (end_tx adapter e_call s) as [s' [[e|]| | | |]]; try done.
  - assert (keeps Acc (_ ← eor EORInTransaction (Some (rc_sql_error e)); mret None : io St (option go_error))) as HK by keep. by apply HK.
  - assert (keeps Acc (_ ← eor EORFree (Some (NewNetstringFrom RcOK [])); mret None : io St (option go_error))) as HK by keep. by apply HK.
Qed.

Lemma process_netstring_acc ns : keeps Acc (process_netstring adapter ns).
Proof.
  destruct (binds_acc ns) as (? & ? & ? & ?). destruct fetch_acc as [? ?].
  unfold process_netstring, do_CorrelationID, do_Commit, do_Rollback.
  repeat case_match; auto using do_Prepare_acc, do_Execute_acc, keeps_mret; 
    first [by apply (do_end_acc tx_Commit)|by apply (do_end_acc tx_Rollback)].
Qed.

Lemma send_OK_acc ns res : keeps Acc (send_OK ns res).
Proof. unfold send_OK. keep. Qed.
#[local] Hint Resolve send_OK_acc process_netstring_acc : keeps.

(** A transaction the worker has is marked by any MySQL command that follows it. *)
Lemma mark_trans_acc : keeps Acc (modify mark_trans).
Proof.
  intros s Hs. unfold Acc, acc, journal_of, mark_trans, modify in *. cbn. destruct (tx s.1) eqn:E; [|by rewrite E].
  cbn. rewrite E. destruct Hs as [H1 H2]. by split.
Qed.
#[local] Hint Resolve mark_trans_acc : keeps.

Lemma process_mysql_acc ns : keeps Acc (process_mysql adapter ns).
Proof.
  unfold process_mysql, do_COM_QUERY, do_COM_STMT_PREPARE, do_COM_STMT_EXECUTE, do_COM_STMT_FETCH, do_COM_DB,
    do_COM_STMT_CLOSE, calExecDone. keep.
Qed.
#[local] Hint Resolve process_mysql_acc : keeps.

Lemma ProcessCmd_acc ns : keeps Acc (ProcessCmd adapter ns).
Proof. unfold ProcessCmd. keep. Qed.
#[local] Hint Resolve ProcessCmd_acc : keeps.

Lemma turn_acc e : keeps Acc (turn adapter e).
Proof. unfold turn, recoverworker, drainIncomingChannel. keep. Qed.

Lemma runworker_acc es : keeps Acc (runworker adapter es).
Proof.
  induction es as [|e es IH]; cbn [runworker]; [apply keeps_mret|].
  apply keeps_bind; [apply turn_acc|]. intros [|]; [done|apply keeps_mret].
Qed.

(** A worker that has not done anything yet. *)
Definition fresh (d : D) (sk : list writer) (more : list bool) : St := (NewCmdProcessor, mkWorld (d, []) sk more []).

Lemma Start_acc su es d sk more : Acc (Start adapter su es (fresh d sk more)).1.
Proof.
  assert (keeps Acc (Start adapter su es)) as H.
  { apply keeps_bind; [|intros [|]; [apply runworker_acc|apply keeps_mret]]. unfold start_up. keep. }
  apply H. split; [|done]. split; [done|]. by intros [? ?].
Qed.

(** C17: Through any sequence of commands of both protocols, signals and heartbeats, and
    whatever the driver, the adapter and the socket do, the worker knows what it has begun: it
    has a transaction exactly when one was begun on its connection and not ended since, and
    once a prepared statement has run in that transaction its flag of being in a transaction
    is set. The flag is set only when there is a transaction, and the bind variables are
    exactly the names at the positions of the statement, each under its own name, so that a
    lookup by position never fails. *)
Theorem worker_state_wf (su : setup) (es : list event) (d : D) (sk : list writer) (more : list bool) :
  let s := (Start adapter su es (fresh d sk more)).1 in accounted s ∧ wf s.1.
Proof.
  intros s. split; [apply acc_accounted, Start_acc|]. apply (Start_wf adapter su es), NewCmdProcessor_wf.
Qed.

(** Nothing is unsettled. *)
Definition settled (s : St) : Prop := inTrans s.1 = false ∧ ¬ unsettled (journal_of s).

Lemma reports_settled (ns : Packet) (s : St) : Acc s → IsMySQL ns = false →
  let s' := (ProcessCmd adapter (Some ns) s).1 in
  ∃ l, w_out s'.2 = w_out s.2 ++ l ∧ Forall (λ e, frees e.1 → settled s') l.
Proof.
  intros Hs Hm s'. destruct (process_reports adapter ns s Hm) as (l & El & Hl). exists l. split; [done|].
  eapply Forall_impl; [exact Hl|]. intros e He Hf. specialize (He Hf). split; [done|].
  assert (Acc s') as [_ Ha]%acc_accounted by (by apply ProcessCmd_acc).
  intros Hu. destruct (Ha Hu) as [Ht _]. fold s' in He. by rewrite He in Ht.
Qed.

(** C18: A worker that tells the proxy, in answer to a netstring command, that it is free, or
    free but for waiting requests, has settled its work: whatever it was asked before, in
    either protocol, and whatever the driver and the socket do, no prepared statement has run
    without an error in a transaction of its connection that was neither committed nor rolled
    back. (A transaction in which nothing has run may be left open; see the finding on
    cmdprocessor.go:757.) *)
Theorem free_reports_settled (su : setup) (es : list event) d sk more (ns : Packet) : IsMySQL ns = false →
  let s := (Start adapter su es (fresh d sk more)).1 in
  let s' := (ProcessCmd adapter (Some ns) s).1 in
  ∃ l, w_out s'.2 = w_out s.2 ++ l ∧
    Forall (λ e, frees e.1 → inTrans s'.1 = false ∧ ¬ unsettled (journal_of s')) l.
Proof. intros Hm. apply reports_settled; [apply Start_acc|done]. Qed.
End journal.

(** A worker that has begun a transaction and commits it. *)
Definition ex_setup : setup :=
  mkSetup (Some []) true OracleWorker (str "app") (str "secret") (str "db1") true (λ _, None) (λ _, mkHealth false false false None).

Definition ex_update : list event :=
  [Received (Some (NewNetstringFrom CmdPrepare (str "update t set a = 1"))); Received (Some (NewNetstringFrom CmdExecute []))].

Lemma free_reports_settled_witness :
  let s : CmdProc unit bytes unit unit * World (Toy.D * journal) :=
    (Start Adapter.Mysql.mysqlAdapter ex_setup ex_update (fresh [] (replicate 9 [Ret 1000%nat]) [])).1 in
  let s' := (ProcessCmd Adapter.Mysql.mysqlAdapter (Some (NewNetstringFrom CmdCommit [])) s).1 in
  unsettled (journal_of s) ∧ (∃ e, w_out s'.2 = w_out s.2 ++ [e] ∧ frees e.1) ∧ ¬ unsettled (journal_of s').
Proof.
  intros s s'.
  assert (He : ∃ e, w_out s'.2 = w_out s.2 ++ [e] ∧ frees e.1) by (eexists; split; [vm_compute; reflexivity|vm_compute; by left]).
  split; [apply jstate_unsettled; vm_compute; reflexivity|]. split; [exact He|].
  destruct (free_reports_settled Adapter.Mysql.mysqlAdapter ex_setup ex_update [] (replicate 9 [Ret 1000%nat]) [] (NewNetstringFrom CmdCommit []) eq_refl)
    as (l & El & Hl).
  destruct He as (e & Ee & Hf). fold s in El, Hl. fold s' in El, Hl. rewrite Ee in El. apply app_inv_head in El. subst l.
  apply Forall_cons in Hl as [Hl _]. by apply Hl.
Defined.

End WorkerJournal.
