(* ===== verification/WorkerRuns.v ===== *)
(** * Scenarios of the worker (worker/shared/cmdprocessor.go): bind values and placeholders,
    queries, errors of statements and of fetches. *)

From S2P Require Import Prelude GoIO Codes Netstring MysqlPackets SqlParser Fmt Adapter WorkerClient CmdProcessor WorkerCmd WorkerFacts.
From stdpp Require Import base list gmap strings.
From Stdlib Require Import ZArith Lia.
Open Scope Z_scope.

Module WorkerRuns.
Import Codes MysqlPackets.Mysql Netstring SqlParser Fmt Adapter WorkerClient CmdProcessor WorkerCmd WorkerFacts.

Section runs.
Context {D Tx Stmt Rows Res : Type} `{!SqlDB D Tx Stmt Rows Res} `{!EqDecision Stmt}.
Context (adapter : CmdProcessorAdapter).

Abbreviation St := (CmdProc Tx Stmt Rows Res * World D)%type.

(** The commands of a client, one after the other, until one fails. *)
Fixpoint run (cmds : list Packet) : io St (option go_error) :=
  match cmds with
  | [] => mret None
  | c :: cmds =>
    err ← ProcessCmd adapter (Some c);
    match err with Some e => mret (Some e) | None => run cmds end
  end.

Lemma run_wf cmds : keeps (λ s : St, wf s.1) (run cmds).
Proof.
  induction cmds as [|c cmds IH]; cbn [run]; [apply keeps_mret|].
  apply keeps_bind; [apply ProcessCmd_keeps_wf|]. intros [e|]; [apply keeps_mret|done].
Qed.

(** ** Stepping through the monad *)

Lemma gets_bind {A B} (f : CmdProc Tx Stmt Rows Res → A) (k : A → io St B) s : (gets f ≫= k) s = k (f s.1) s.
Proof. done. Qed.
Lemma modify_bind {B} f (k : unit → io St B) s : (modify f ≫= k) s = k tt (f s.1, s.2).
Proof. done. Qed.
Lemma call_bind {A B} (f : D → D * A) (k : A → io St B) s :
  (call f ≫= k) s = k (f (w_db s.2)).2 (s.1, mkWorld (f (w_db s.2)).1 (w_sock s.2) (w_more s.2) (w_out s.2)).
Proof. unfold call, mbind, io_bind. by destruct (f (w_db s.2)). Qed.
Lemma mret_bind {A B} (a : A) (k : A → io St B) s : (mret a ≫= k) s = k a s.
Proof. done. Qed.
Lemma bind_assoc {A B C} (m : io St A) (f : A → io St B) (g : B → io St C) s :
  ((m ≫= f) ≫= g) s = (m ≫= λ a, f a ≫= g) s.
Proof. unfold mbind, io_bind. by destruct (m s) as [s' [?| | | |]]. Qed.

(** The state after a bind whose continuation does not change it. *)
Lemma bind_state {A B} (m : io St A) (f : A → io St B) s :
  (∀ a s, (f a s).1 = s) → ((m ≫= f) s).1 = (m s).1.
Proof. intros Hf. unfold mbind, io_bind. by destruct (m s) as [s' [a| | | |]]. Qed.

(** ** A statement that fails in a new transaction *)

(** The report of an error: what it leaves and the packet it sends. *)
Lemma execute_failed_state e ws qs (s : St) :
  calExecTxn s.1 = true → ProcessError adapter e (WorkerScope s.1) (queryScope s.1) = Ret (ws, qs) →
  let s' := (execute_failed adapter e s).1 in
  tx s'.1 = tx s.1 ∧ inTrans s'.1 = inTrans s.1 ∧ w_db s'.2 = w_db s.2 ∧
  ∃ more b, w_out s'.2 = w_out s.2 ++ [(NewNetstringFrom CmdEOR
    (eor_payload (eor_code (if inTrans s.1 then EORInTransaction else EORFree) more) (cp_rqId (core s.1)) (Some (rc_sql_error e))), b)].
Proof.
  intros Hc He s'. unfold s', execute_failed.
  assert (E1 : process_error adapter e s = ((set_WorkerScope ws (set_queryScope qs s.1), s.2), Ret tt))
    by (unfold process_error; by rewrite He).
  rewrite (io_bind_Ret _ _ _ _ _ E1). set (s1 := (_, s.2) : St).
  assert (E2 : calExecErr s1 = ((set_calExecTxn false s1.1, s1.2), Ret tt)).
  { unfold calExecErr. change (calExecTxn s1.1) with (calExecTxn s.1). by rewrite Hc. }
  rewrite (io_bind_Ret _ _ _ _ _ E2). set (s2 := (_, s1.2) : St).
  unfold eor_state. rewrite bind_assoc, gets_bind. change (inTrans s2.1) with (inTrans s.1).
  set (code := if inTrans s.1 then EORInTransaction else EORFree).
  destruct (eor_after code (Some (rc_sql_error e)) s2) as (more & c & b & w & Ea & Ew & Ed).
  unfold mbind, io_bind. destruct (eor code (Some (rc_sql_error e)) s2) as [s3 r3]. cbn [fst] in Ea. subst s3.
  destruct r3; cbn; (split_and!; [done|done|done|by exists more, b]).
Qed.

(** The statement with the arguments of the bind variables, run in the state [s], fails. *)
Definition statement_fails (s : St) (e : go_error) : Prop :=
  ∃ st binds, stmt s.1 = Some st ∧ 0 <= numBindOuts s.1 ∧
    build_binds adapter (bindVars s.1) (Z.to_nat (numBindOuts s.1)) 0 (bindPos s.1) = Ret binds ∧
    if hasResult s.1 then (stmt_Query st binds (w_db s.2)).1.2 = inl e
    else (stmt_Exec st binds (w_db s.2)).1.2 = inl e.

(** Up to the point where the failure is reported. *)
Lemma do_Execute_fails (s : St) e : statement_fails s e →
  ∃ s1, do_Execute adapter s = execute_failed adapter e s1 ∧ tx s1.1 = tx s.1 ∧ inTrans s1.1 = inTrans s.1 ∧
    calExecTxn s1.1 = calExecTxn s.1 ∧ WorkerScope s1.1 = WorkerScope s.1 ∧ queryScope s1.1 = queryScope s.1 ∧
    core s1.1 = core s.1 ∧ w_out s1.2 = w_out s.2.
Proof.
  intros (st & binds & Hst & Hn & Hb & Hf). unfold do_Execute. rewrite gets_bind, Hst.
  set (s0 := (set_bindOuts (replicate (Z.to_nat (numBindOuts s.1)) []) s.1, s.2) : St).
  assert (E1 : clear_outs s = (s0, Ret tt)) by (unfold clear_outs; by rewrite (proj2 (Z.ltb_ge _ _))).
  rewrite (io_bind_Ret _ _ _ _ _ E1), gets_bind. cbn [id fst bindVars bindPos bindOuts set_bindOuts s0].
  rewrite length_replicate, Hb. unfold run_stmt. rewrite bind_assoc, gets_bind.
  change (hasResult s0.1) with (hasResult s.1). destruct (hasResult s.1).
  - rewrite bind_assoc, call_bind. change (w_db s0.2) with (w_db s.2).
    destruct (stmt_Query st binds (w_db s.2)) as [[d r] f]. cbn [fst snd] in *. subst r.
    rewrite bind_assoc, modify_bind, mret_bind. cbn [handle snd]. eexists. by split_and!.
  - rewrite bind_assoc, call_bind. change (w_db s0.2) with (w_db s.2).
    destruct (stmt_Exec st binds (w_db s.2)) as [[d r] f]. cbn [fst snd] in *. subst r.
    rewrite bind_assoc, modify_bind, mret_bind. cbn [handle snd]. eexists. by split_and!.
Qed.

Definition execute_cmd : Packet := NewNetstringFrom CmdExecute [].

(** When the first statement of a transaction fails, the worker says that it is free,
    although the transaction is open; the next statement it gets, from whatever client, is
    prepared in that transaction. *)
Theorem failed_statement_leaves_transaction (s : St) (t : Tx) (e : go_error) (ws : WorkerScopeType) (qs : QueryScopeType) :
  tx s.1 = Some t → inTrans s.1 = false → calExecTxn s.1 = true → statement_fails s e →
  ProcessError adapter e (WorkerScope s.1) (mkQueryScope (itoa CmdExecute) (SqlHash (queryScope s.1))) = Ret (ws, qs) →
  let s' := (ProcessCmd adapter (Some execute_cmd) s).1 in
  tx s'.1 = Some t ∧
  (∃ ns b, w_out s'.2 = w_out s.2 ++ [(ns, b)] ∧ frees ns) ∧
  ∀ sql, w_db (prepare_sql sql s').1.2 = (tx_Prepare t sql (w_db s'.2)).1.
Proof.
  intros Ht Hi Hc Hf He s'. unfold s', ProcessCmd. rewrite modify_bind.
  change (Cmd execute_cmd) with CmdExecute.
  set (s0 := (set_queryScope (mkQueryScope (itoa CmdExecute) (SqlHash (queryScope s.1))) s.1, s.2) : St).
  change ((if IsMySQL execute_cmd then process_mysql adapter execute_cmd else process_netstring adapter execute_cmd) s0)
    with (do_Execute adapter s0).
  destruct (do_Execute_fails s0 e) as (s1 & -> & E1 & E2 & E3 & E4 & E5 & E6 & E7); [by apply Hf|].
  change (WorkerScope s0.1) with (WorkerScope s.1) in E4.
  destruct (execute_failed_state e ws qs s1) as (H1 & H2 & H3 & more & b & H4).
  - rewrite E3. done.
  - rewrite E4, E5. done.
  - set (s2 := (execute_failed adapter e s1).1) in *. split_and!.
    + by rewrite H1, E1.
    + eexists _, b. split; [rewrite H4, E7; done|]. rewrite E2. change (inTrans s0.1) with (inTrans s.1). rewrite Hi.
      unfold frees. rewrite eor_of_From; [|by destruct more]. destruct more; [by right|by left].
    + intros sql. unfold prepare_sql. rewrite gets_bind, H1, E1. change (tx s0.1) with (tx s.1). rewrite Ht.
      by rewrite call_bind, modify_bind.
Qed.

(** ** Bind values reach the statement in the order of its placeholders *)

(** Binding names to values, as clients do: a name and then its value. *)
Definition bind_cmds (l : list (bytes * bytes)) : list Packet :=
  concat ((λ e, [NewNetstringFrom CmdBindName e.1; NewNetstringFrom CmdBindValue e.2]) <$> l).

(** The variable of [k] holds the string [v]; an empty one is a null. *)
Definition bound_to (p : CmdProc Tx Stmt Rows Res) (k v : bytes) : Prop :=
  ∃ b, bindVars p !! k = Some b ∧ bind_type b = btIn ∧ bind_valid b = true ∧
    bind_value b = VString (match v with [] => None | _ => Some v end).

(** Everything but the bind variables. *)
Definition same_statement (s s' : St) : Prop :=
  stmt s'.1 = stmt s.1 ∧ bindPos s'.1 = bindPos s.1 ∧ numBindOuts s'.1 = numBindOuts s.1 ∧
  hasResult s'.1 = hasResult s.1 ∧ tx s'.1 = tx s.1 ∧ inTrans s'.1 = inTrans s.1 ∧ calExecTxn s'.1 = calExecTxn s.1 ∧
  s'.2 = s.2.

(** The state in which the handler of a netstring command runs. *)
Definition scoped (ns : Packet) (s : St) : St :=
  (set_queryScope (mkQueryScope (itoa (Cmd ns)) (SqlHash (queryScope s.1))) s.1, s.2).

Lemma ProcessCmd_netstring ns (s : St) : IsMySQL ns = false →
  ProcessCmd adapter (Some ns) s = process_netstring adapter ns (scoped ns s).
Proof. intros E. unfold ProcessCmd. by rewrite modify_bind, E. Qed.

Lemma run_cons c cmds (s s1 : St) : ProcessCmd adapter (Some c) s = (s1, Ret None) → run (c :: cmds) s = run cmds s1.
Proof. intros E. cbn [run]. by rewrite (io_bind_Ret _ _ _ _ _ E). Qed.

Lemma update_bind_bind {B} k f (m : unit → io St B) (s : St) b : bindVars s.1 !! k = Some b →
  (update_bind k f ≫= m) s = m tt (set_bindVars (<[k := f b]> (bindVars s.1)) s.1, s.2).
Proof. intros Hb. unfold update_bind, mbind, io_bind. by rewrite Hb. Qed.

(** The variable after a name and after a value. *)
Definition named (b : BindValue) : BindValue :=
  mkBind (bind_index b) (bind_name b) (bind_value b) (bind_valid b) btIn DataTypeString.
Definition valued (b : BindValue) (v : bytes) : BindValue :=
  mkBind (bind_index b) (bind_name b) (bound_value (bind_dataType b) v) true (bind_type b) (bind_dataType b).

Lemma do_BindName_ok ns (s : St) b : is_Some (stmt s.1) → Cmd ns = CmdBindName →
  bindVars s.1 !! bind_key (Payload ns) = Some b →
  ∃ s', do_BindName ns s = (s', Ret None) ∧ same_statement s s' ∧
    bindVars s'.1 = <[bind_key (Payload ns) := named b]> (bindVars s.1) ∧ currentBindName s'.1 = bind_key (Payload ns).
Proof.
  intros [st Hst] Hc Hb. unfold do_BindName. rewrite gets_bind, Hst, modify_bind, gets_bind.
  cbn [fst bindVars set_currentBindName]. rewrite Hb, Hc. change (CmdBindName =? CmdBindName) with true. cbv iota.
  rewrite (update_bind_bind _ _ _ _ b) by done.
  rewrite (update_bind_bind _ _ _ _ (mkBind (bind_index b) (bind_name b) (bind_value b) (bind_valid b) btIn (bind_dataType b)))
    by (cbn; by rewrite lookup_insert_eq).
  eexists. split; [reflexivity|]. split_and!; try done. cbn. by rewrite insert_insert_eq.
Qed.

Lemma do_BindValue_ok ns (s : St) b : is_Some (stmt s.1) → bindVars s.1 !! currentBindName s.1 = Some b →
  ∃ s', do_BindValue ns s = (s', Ret None) ∧ same_statement s s' ∧
    bindVars s'.1 = <[currentBindName s.1 := valued b (Payload ns)]> (bindVars s.1).
Proof.
  intros [st Hst] Hb. unfold do_BindValue. rewrite gets_bind, Hst, gets_bind, gets_bind, Hb.
  rewrite (update_bind_bind _ _ _ _ b) by done. eexists. split; [reflexivity|]. by split_and!.
Qed.

Lemma same_statement_trans (s1 s2 s3 : St) : same_statement s1 s2 → same_statement s2 s3 → same_statement s1 s3.
Proof. unfold same_statement. intros (? & ? & ? & ? & ? & ? & ? & ?) (? & ? & ? & ? & ? & ? & ? & ?). split_and!; congruence. Qed.

Lemma bind_one (s : St) n v b cmds : is_Some (stmt s.1) → bindVars s.1 !! bind_key n = Some b →
  ∃ s' q, run (NewNetstringFrom CmdBindName n :: NewNetstringFrom CmdBindValue v :: cmds) s = run cmds s' ∧
    same_statement s s' ∧ bindVars s'.1 = <[bind_key n := q]> (bindVars s.1) ∧ bound_to s'.1 (bind_key n) v.
Proof.
  intros Hst Hb. set (n1 := NewNetstringFrom CmdBindName n). set (n2 := NewNetstringFrom CmdBindValue v).
  assert (Payload n1 = n) as P1 by apply From_Payload. assert (Payload n2 = v) as P2 by apply From_Payload.
  destruct (do_BindName_ok n1 (scoped n1 s) b) as (s1 & E1 & S1 & B1 & C1); [done|done|by rewrite P1|].
  rewrite P1 in B1, C1. change (bindVars (scoped n1 s).1) with (bindVars s.1) in B1.
  destruct (do_BindValue_ok n2 (scoped n2 s1) (named b)) as (s2 & E2 & S2 & B2).
  - change (stmt (scoped n2 s1).1) with (stmt s1.1). destruct S1 as (-> & _). done.
  - change (bindVars (scoped n2 s1).1) with (bindVars s1.1). change (currentBindName (scoped n2 s1).1) with (currentBindName s1.1).
    by rewrite C1, B1, lookup_insert_eq.
  - change (bindVars (scoped n2 s1).1) with (bindVars s1.1) in B2.
    change (currentBindName (scoped n2 s1).1) with (currentBindName s1.1) in B2. rewrite C1, B1, P2, insert_insert_eq in B2.
    exists s2, (valued (named b) v). split_and!.
    + rewrite (run_cons _ _ _ s1), (run_cons _ _ _ s2); [done| |]; by rewrite ProcessCmd_netstring.
    + apply (same_statement_trans _ (scoped n2 s1)); [|done]. apply (same_statement_trans _ s1); [|done]. done.
    + done.
    + exists (valued (named b) v). split_and!; try done; [by rewrite B2, lookup_insert_eq|]. by destruct v.
Qed.

Lemma bind_all (l : list (bytes * bytes)) (s : St) : is_Some (stmt s.1) → NoDup (bind_key <$> l.*1) →
  (∀ k, k ∈ bind_key <$> l.*1 → is_Some (bindVars s.1 !! k)) →
  ∃ s', run (bind_cmds l) s = (s', Ret None) ∧ same_statement s s' ∧
    (∀ k, k ∉ bind_key <$> l.*1 → bindVars s'.1 !! k = bindVars s.1 !! k) ∧
    Forall (λ e, bound_to s'.1 (bind_key e.1) e.2) l.
Proof.
  revert s. induction l as [|[n v] l IH]; intros s Hst Hnd Hk.
  { exists s. by split_and!. }
  cbn [fmap list_fmap fst] in *. apply NoDup_cons in Hnd as [Hn Hnd].
  destruct (Hk (bind_key n)) as [b Hb]; [by left|].
  destruct (bind_one s n v b (bind_cmds l) Hst Hb) as (s1 & q & E1 & S1 & B1 & H1).
  destruct (IH s1) as (s2 & E2 & S2 & F2 & H2); [by destruct S1 as [-> _]|done| |].
  { intros k Hin. rewrite B1. destruct (decide (k = bind_key n)) as [->|]; [by rewrite lookup_insert_eq|].
    rewrite lookup_insert_ne by done. apply Hk. by right. }
  exists s2. split_and!.
  - by etrans.
  - by eapply same_statement_trans.
  - intros k Hin. apply not_elem_of_cons in Hin as [? ?]. by rewrite F2, B1, lookup_insert_ne.
  - constructor; [|done]. destruct H1 as (b' & Hb' & Hrest). exists b'. by rewrite F2.
Qed.

(** The value bound to the name at a position, and the argument that carries it. *)
Definition value_of (l : list (bytes * bytes)) (k : bytes) : bytes :=
  match list_find (λ e, bind_key e.1 = k) l with Some (_, e) => e.2 | None => [] end.

Definition in_arg (k v : bytes) : arg :=
  let x := VString (match v with [] => None | _ => Some v end) in
  if UseBindNames adapter then Named (drop 1 k) x else Positional x.

Lemma build_binds_in p n cur (val : bytes → bytes) ks : Forall (λ k, bound_to p k (val k)) ks →
  build_binds adapter (bindVars p) n cur ks = Ret ((λ k, in_arg k (val k)) <$> ks).
Proof.
  induction 1 as [|k ks (b & Hb & Ht & Hv & Hx) _ IH]; cbn [build_binds fmap list_fmap]; [done|].
  rewrite Hb, Ht, Hv, IH. cbn. unfold in_arg. by rewrite Hx.
Qed.

Lemma value_of_bound p l k : Forall (λ e, bound_to p (bind_key e.1) e.2) l → k ∈ bind_key <$> l.*1 →
  bound_to p k (value_of l k).
Proof.
  intros Hl (n & -> & ((n' & v) & -> & Hin)%list_elem_of_fmap)%list_elem_of_fmap. unfold value_of. cbn [fst].
  destruct (list_find _ l) as [[i e]|] eqn:E.
  - apply list_find_Some in E as (Hi & He & _). rewrite <- He.
    apply (proj1 (Forall_forall _ _) Hl). by eapply list_elem_of_lookup_2.
  - apply list_find_None in E. by destruct (proj1 (Forall_forall _ _) E _ Hin).
Qed.

Lemma bound_values_run (l : list (bytes * bytes)) (s : St) (st : Stmt) :
  wf s.1 → stmt s.1 = Some st → NoDup (bind_key <$> l.*1) →
  (∀ k, k ∈ bind_key <$> l.*1 ↔ k ∈ bindPos s.1) →
  ∃ s' s1, run (bind_cmds l) s = (s', Ret None) ∧ clear_outs s' = (s1, Ret tt) ∧ s1.2 = s.2 ∧
    do_Execute adapter s' =
      (err ← run_stmt st ((λ k, in_arg k (value_of l k)) <$> bindPos s.1);
       match err with Some e => execute_failed adapter e | None => execute_done end) s1.
Proof.
  intros (_ & Hpos & _ & Hn) Hst Hnd Hk.
  destruct (bind_all l s) as (s' & E & (S1 & S2 & S3 & S4 & S5 & S6 & S7 & S8) & F & H); [by rewrite Hst|done| |].
  { intros k Hin. by apply Hpos, Hk. }
  assert (E1 : clear_outs s' = ((set_bindOuts (replicate (Z.to_nat (numBindOuts s'.1)) []) s'.1, s'.2), Ret tt)).
  { unfold clear_outs. rewrite S3. by rewrite (proj2 (Z.ltb_ge _ _)). }
  eexists s', _. split_and!; [done|exact E1|done|].
  unfold do_Execute. rewrite gets_bind, S1, Hst, (io_bind_Ret _ _ _ _ _ E1), gets_bind.
  cbn [id fst bindVars bindPos bindOuts set_bindOuts].
  rewrite (build_binds_in _ _ _ (value_of l)), S2; [done|].
  rewrite S2. apply Forall_forall. intros k Hin%Hk. by apply value_of_bound.
Qed.

(** A prepared statement runs with the values the client bound, each at every position
    of its name and whatever the order in which they were bound: when all names of the
    statement are bound, execution calls the driver with one argument per placeholder, in the
    order of the placeholders. *)
Theorem bound_values_reach_statement (l : list (bytes * bytes)) (s : St) (st : Stmt) :
  wf s.1 → stmt s.1 = Some st → NoDup (bind_key <$> l.*1) →
  (∀ k, k ∈ bind_key <$> l.*1 ↔ k ∈ bindPos s.1) →
  ∃ s' s1, run (bind_cmds l) s = (s', Ret None) ∧ clear_outs s' = (s1, Ret tt) ∧ s1.2 = s.2 ∧
    do_Execute adapter s' =
      (err ← run_stmt st ((λ k, in_arg k (value_of l k)) <$> bindPos s.1);
       match err with Some e => execute_failed adapter e | None => execute_done end) s1.
Proof. apply bound_values_run. Qed.

(** ** Queries of MySQL clients *)

(** The state of a worker before it has prepared a netstring statement: its CAL transaction
    and its table of parameters are still nil. *)
Definition unprepared (s : St) : Prop :=
  calExecTxn s.1 = false ∧ hasResult s.1 = false ∧ stmtParams s.1 = None.

(** [m] keeps [I] when it returns. *)
Definition keeps_ret (I : St → Prop) {A} (m : io St A) : Prop := ∀ s s' a, I s → m s = (s', Ret a) → I s'.

Lemma keeps_ret_bind I {A B} (m : io St A) (f : A → io St B) :
  keeps_ret I m → (∀ a, keeps_ret I (f a)) → keeps_ret I (m ≫= f).
Proof.
  intros Hm Hf s s' b Hs E. unfold mbind, io_bind in E. destruct (m s) as [s1 [a| | | |]] eqn:E1; try done.
  eapply Hf; [|done]. by eapply Hm.
Qed.

(** Steps that change none of the three fields. *)
Definition quiet {A} (m : io St A) : Prop := ∀ s, let s' := (m s).1 in
  calExecTxn s'.1 = calExecTxn s.1 ∧ hasResult s'.1 = hasResult s.1 ∧ stmtParams s'.1 = stmtParams s.1.

Lemma quiet_ret {A} (m : io St A) : quiet m → keeps_ret unprepared m.
Proof.
  intros Hm s s' a (H1 & H2 & H3) E. specialize (Hm s). rewrite E in Hm. cbn [fst] in Hm.
  unfold unprepared. destruct Hm as (-> & -> & ->). done.
Qed.

Lemma quiet_call {A} (f : D → D * A) : quiet (call f).
Proof. intros s. unfold call. by destruct (f (w_db s.2)). Qed.

Lemma quiet_eor code ns : quiet (eor code ns).
Proof. intros s. destruct (eor_after code ns s) as (? & ? & ? & ? & -> & _). done. Qed.

Lemma quiet_process_error e : quiet (process_error adapter e).
Proof. intros s. unfold process_error. by destruct (ProcessError adapter e _ _) as [[]| | | |]. Qed.

(** An error report needs a CAL transaction. *)
Lemma calExecErr_unprepared : keeps_ret unprepared calExecErr.
Proof. intros s s' a (H1 & _) E. unfold calExecErr in E. by rewrite H1 in E. Qed.

Lemma execute_failed_panics e (s : St) : calExecTxn s.1 = false → ∀ s' a, execute_failed adapter e s ≠ (s', Ret a).
Proof.
  intros Hc s' a E. unfold execute_failed in E. pose proof (quiet_process_error e s) as Hq.
  unfold mbind, io_bind in E. destruct (process_error adapter e s) as [s1 [?| | | |]]; try done.
  cbn [fst] in Hq. unfold calExecErr in E. rewrite (proj1 Hq), Hc in E. done.
Qed.

Lemma execute_failed_unprepared e : keeps_ret unprepared (execute_failed adapter e).
Proof. intros s s' a (H & _) E. by destruct (execute_failed_panics e s H s' a). Qed.

Lemma quiet_run_stmt st binds : quiet (run_stmt st binds).
Proof.
  intros s s'. unfold s', run_stmt. rewrite gets_bind. destruct (hasResult s.1) eqn:Hh; rewrite call_bind.
  - destruct (stmt_Query st binds (w_db s.2)) as [[d r] f]. by cbn.
  - destruct (stmt_Exec st binds (w_db s.2)) as [[d r] f]. by cbn.
Qed.

Lemma quiet_mark_trans : quiet (modify mark_trans).
Proof. intros s. cbn. unfold mark_trans. by destruct (tx s.1). Qed.

Ltac qret := repeat
  match goal with
  | |- keeps_ret _ (mbind _ _) => apply keeps_ret_bind; [|intros ?]
  | |- keeps_ret _ (eor _ _) => apply quiet_ret, quiet_eor
  | |- keeps_ret _ (call _) => apply quiet_ret, quiet_call
  | |- keeps_ret _ (run_stmt _ _) => apply quiet_ret, quiet_run_stmt
  | |- keeps_ret _ (modify mark_trans) => apply quiet_ret, quiet_mark_trans
  | |- keeps_ret _ calExecErr => apply calExecErr_unprepared
  | |- keeps_ret _ (execute_failed _ _) => apply execute_failed_unprepared
  | |- keeps_ret _ (match ?x with _ => _ end) => destruct x
  | |- _ => apply quiet_ret; by intros ?
  end.

Lemma preprocess_unprepared ns : keeps_ret unprepared (preprocess adapter ns).
Proof. unfold preprocess. qret. Qed.

Lemma send_OK_unprepared ns res : keeps_ret unprepared (send_OK ns res).
Proof. unfold send_OK. qret. Qed.

(** Preparing a statement of a MySQL client assigns to the nil table of parameters. *)
Lemma prepare_never_returns ns (s s' : St) a : unprepared s → do_COM_STMT_PREPARE adapter ns s ≠ (s', Ret a).
Proof.
  intros (_ & _ & Hp) E. unfold do_COM_STMT_PREPARE in E.
  assert (Hk : keeps (λ s : St, stmtParams s.1 = None) (prepare_common adapter ns)).
  { unfold prepare_common, prepare_sql, preprocess, begin_if.
    repeat first [ apply keeps_bind; [|intros ?] | apply keeps_mret | apply proc_keeps_gets | apply (proc_keeps_call (λ p, stmtParams p = None))
      | apply (proc_keeps_modify (λ p, stmtParams p = None)); by intros p
      | match goal with |- keeps _ (match ?x with _ => _ end) => destruct x end ]. }
  specialize (Hk s Hp). unfold mbind at 1, io_bind at 1 in E.
  destruct (prepare_common adapter ns s) as [s1 [err| | | |]]; try done. rewrite modify_bind, gets_bind in E.
  unfold set_stmt_params, mbind at 1, io_bind at 1 in E. cbn [fst stmtParams set_stmts] in E. cbn [fst] in Hk. by rewrite Hk in E.
Qed.

Lemma process_mysql_unprepared ns : keeps_ret unprepared (process_mysql adapter ns).
Proof.
  unfold process_mysql. destruct (_ =? _).
  { unfold do_COM_QUERY. apply keeps_ret_bind; [apply preprocess_unprepared|]. intros ?.
    qret. apply send_OK_unprepared. }
  destruct (_ =? _). { intros s s' a Hs E. by apply prepare_never_returns in E. }
  unfold do_COM_STMT_EXECUTE, do_COM_STMT_FETCH, do_COM_DB, do_COM_STMT_CLOSE, calExecDone. qret; apply send_OK_unprepared.
Qed.

(** The commands of MySQL clients leave a worker as it was in this respect. *)
Lemma run_mysql_unprepared cmds : Forall (λ c, IsMySQL c = true) cmds → keeps_ret unprepared (run cmds).
Proof.
  induction 1 as [|c cmds Hc _ IH]; cbn [run]; [qret|].
  apply keeps_ret_bind; [|intros [e|]; [qret|done]]. unfold ProcessCmd. rewrite Hc.
  apply keeps_ret_bind; [qret|]. intros _. apply process_mysql_unprepared.
Qed.

(** The packet that answers a statement: a header with the next sequence number and the two
    numbers. *)
Definition ok_packet (sqid n i : Z) : Packet :=
  let payload := 0 :: lenenc (u64 n) ++ lenenc (u64 i) ++ [0; 0; 0; 0] in
  mkPacket 0 (0 :: header (zlen payload) (sqid + 1) ++ payload) payload (zlen payload) (sqid + 1) true.

Lemma send_OK_ok ns res (s : St) d2 d3 n i :
  res_RowsAffected res (w_db s.2) = (d2, inr n) → res_LastInsertId res d2 = (d3, inr i) →
  send_OK ns res s = eor EORFree (Some (ok_packet (Sqid ns) n i)) (s.1, mkWorld d3 (w_sock s.2) (w_more s.2) (w_out s.2)).
Proof.
  intros Hn Hi. unfold send_OK. rewrite call_bind, Hn. cbn [fst snd]. rewrite call_bind. cbn [fst snd w_db]. rewrite Hi.
  cbn [fst snd w_sock w_more w_out]. rewrite OKPacket_bytes. change (Supports (u32 CLIENT_PROTOCOL_41) CLIENT_PROTOCOL_41) with true.
  unfold lift, mbind, io_bind. cbv iota. unfold NewMySQLPacketFrom. by rewrite packet_from_eq.
Qed.

Lemma preprocess_mysql ns c q (s : St) : IsMySQL ns = true → Payload ns = c :: q →
  ∃ s0, preprocess adapter ns s = (s0, Ret q) ∧ s0.2 = s.2 ∧ calExecTxn s0.1 = calExecTxn s.1 ∧
    hasResult s0.1 = hasResult s.1 ∧ core s0.1 = core s.1.
Proof.
  intros Hm Hp. unfold preprocess. rewrite Hm, Hp. cbn [negb]. rewrite modify_bind.
  destruct (Fmt.Split _ _) as [|? [|second ?]]; rewrite modify_bind; eexists; by split_and!.
Qed.

Lemma mark_trans_keeps (p : CmdProc Tx Stmt Rows Res) : core (mark_trans p) = core p ∧ sqlresult (mark_trans p) = sqlresult p.
Proof. unfold mark_trans. by destruct (tx p). Qed.

(** A query on a worker that has prepared nothing. *)
Lemma query_outcome (s : St) (ns : Packet) (c : Z) (q : bytes) : unprepared s →
  IsMySQL ns = true → Cmd ns = COM_QUERY → Payload ns = c :: q →
  match db_Exec q (w_db s.2) with
  | (d1, inl _) => ∀ s' a, ProcessCmd adapter (Some ns) s ≠ (s', Ret a)
  | (d1, inr res) => ∀ d2 n d3 i, res_RowsAffected res d1 = (d2, inr n) → res_LastInsertId res d2 = (d3, inr i) →
      let s' := (ProcessCmd adapter (Some ns) s).1 in
      w_db s'.2 = d3 ∧ ∃ more b, w_out s'.2 = w_out s.2 ++ [(NewNetstringFrom CmdEOR
        (eor_payload (eor_code EORFree more) (cp_rqId (core s.1)) (Some (ok_packet (Sqid ns) n i))), b)]
  end.
Proof.
  intros (Hc & Hh & Hp) Hns Hcmd Hpay.
  unfold ProcessCmd. rewrite modify_bind, Hns. unfold process_mysql. rewrite Hcmd.
  change (COM_QUERY =? COM_QUERY) with true. cbv iota. unfold do_COM_QUERY.
  set (sq := (set_queryScope _ s.1, s.2) : St).
  destruct (preprocess_mysql ns c q sq Hns Hpay) as (s0 & E & E2 & E3 & E5 & E4).
  rewrite (io_bind_Ret _ _ _ _ _ E), gets_bind, E5. change (hasResult sq.1) with (hasResult s.1). rewrite Hh.
  rewrite bind_assoc, call_bind, E2. change (w_db sq.2) with (w_db s.2).
  destruct (db_Exec q (w_db s.2)) as [d1 [e|res]]; cbn [fst snd]; rewrite bind_assoc, modify_bind, mret_bind; cbn [handle fst snd].
  - apply execute_failed_panics. cbn. by rewrite E3.
  - intros d2 n d3 i Hn Hi. rewrite modify_bind, gets_bind.
    set (p1 := set_sqlresult (Some res) s0.1). destruct (mark_trans_keeps p1) as [M1 M2]. cbn [fst snd].
    rewrite M2. change (sqlresult p1) with (Some res). rewrite (send_OK_ok ns res _ d2 d3 n i) by done. cbn [fst snd].
    match goal with |- context [eor EORFree ?m ?x] =>
      destruct (eor_after EORFree m x) as (more & c' & b & w' & -> & Ew & Ed) end.
    cbn [fst snd w_out w_db] in *. split; [done|]. exists more, b. rewrite Ew, M1. change (core p1) with (core s0.1). by rewrite E4.
Qed.

(** What becomes of a query of a MySQL client, after any commands of MySQL clients. The
    text is executed as a statement, also when it is a select. When the database takes it,
    the client is sent an OK packet with the numbers the database gives, at the next
    sequence number, and the worker says that it is free; when it does not, the worker
    panics while it reports the error, and the client gets no answer. *)
Theorem mysql_query_outcome (cmds : list Packet) (w : World D) (s : St) (ns : Packet) (c : Z) (q : bytes) :
  Forall (λ p, IsMySQL p = true) cmds → run cmds (NewCmdProcessor, w) = (s, Ret None) →
  IsMySQL ns = true → Cmd ns = COM_QUERY → Payload ns = c :: q →
  match db_Exec q (w_db s.2) with
  | (d1, inl _) => ∀ s' a, ProcessCmd adapter (Some ns) s ≠ (s', Ret a)
  | (d1, inr res) => ∀ d2 n d3 i, res_RowsAffected res d1 = (d2, inr n) → res_LastInsertId res d2 = (d3, inr i) →
      let s' := (ProcessCmd adapter (Some ns) s).1 in
      w_db s'.2 = d3 ∧ ∃ more b, w_out s'.2 = w_out s.2 ++ [(NewNetstringFrom CmdEOR
        (eor_payload (eor_code EORFree more) (cp_rqId (core s.1)) (Some (ok_packet (Sqid ns) n i))), b)]
  end.
Proof.
  intros Hm Hrun. apply query_outcome. apply (run_mysql_unprepared cmds Hm (NewCmdProcessor, w) s None); [by split_and!|done].
Qed.

(** ** A fetch that fails *)

Lemma fetch_rows_good cts n good pss nss rest (s : St) : mapM (row_packets adapter cts n) good = Ret pss →
  fetch_rows adapter cts n ((inr <$> good) ++ rest) nss s = fetch_rows adapter cts n rest (nss ++ concat pss) s.
Proof.
  revert nss pss. induction good as [|row good IH]; intros nss pss Hm.
  - injection Hm as <-. cbn. by rewrite app_nil_r.
  - cbn [mapM] in Hm. apply bind_Ret in Hm as (ps & Hp & Hm). apply bind_Ret in Hm as (pss' & Hm & Heq).
    injection Heq as <-. cbn [fmap list_fmap app fetch_rows]. unfold lift, mbind at 1, io_bind at 1.
    rewrite Hp. cbn [concat]. rewrite (IH _ _ Hm). by rewrite <- app_assoc.
Qed.

(** The state after the rows are sent: the two packets, and no cursor. *)
Lemma send_rows_state nss err (s s1 : St) : nss ≠ [] → WriteAll (NewNetstringEmbedded nss) s = (s1, Ret None) →
  let '(s', r) := send_rows nss err s in
  (∃ b1 more b2, w_out s'.2 = w_out s.2 ++ [(NewNetstringEmbedded nss, b1); (NewNetstringFrom CmdEOR
     (eor_payload (eor_code (if inTrans s.1 then EORInTransaction else EORFree) more) (cp_rqId (core s.1))
        (Some (NewNetstringFrom RcNoMoreData []))), b2)]) ∧
  ∀ x, r = Ret x → x = None.
Proof.
  intros Hne Hw. unfold send_rows. destruct nss as [|n0 nss]; [done|].
  rewrite (io_bind_Ret _ _ _ _ _ Hw).
  assert (∃ b1, w_out s1.2 = w_out s.2 ++ [(NewNetstringEmbedded (n0 :: nss), b1)] ∧ s1.1 = s.1) as (b1 & Ew & Ep).
  { unfold WriteAll in Hw. destruct (writeAll _ _ _) as [out r]. unfold wrote in Hw. destruct r; simplify_eq/=. eauto. }
  unfold eor_state. rewrite bind_assoc, gets_bind, Ep. set (code := if inTrans s.1 then EORInTransaction else EORFree).
  set (nm := NewNetstringFrom RcNoMoreData []).
  destruct (eor_after code (Some nm) s1) as (more & c & b & w & Ea & Ew2 & _).
  unfold mbind, io_bind. destruct (eor code (Some nm) s1) as [s3 r3]. cbn [fst] in Ea. subst s3.
  rewrite Ew, Ep, <- app_assoc in Ew2. destruct r3; cbn; (split; [by exists b1, more, b|naive_solver]).
Qed.

(** An error while rows are read is not reported: the client is sent the rows before it
    and the end of data, the same as for a result that has only those rows. *)
Theorem fetch_error_ends_data (s s1 : St) (rs : Rows) cts cols good e d1 d2 d3 pss ws qs :
  rows s.1 = Some rs → rows_ColumnTypes rs (w_db s.2) = (d1, inr cts) → rows_Columns rs d1 = (d2, inr cols) →
  rows_Scans rs (length cols) d2 = (d3, (inr <$> good) ++ [inl e]) →
  mapM (row_packets adapter (default [] cts) (length cols)) good = Ret pss → concat pss ≠ [] →
  ProcessError adapter e (WorkerScope s.1) (queryScope s.1) = Ret (ws, qs) →
  WriteAll (NewNetstringEmbedded (concat pss))
    (set_WorkerScope ws (set_queryScope qs s.1), mkWorld d3 (w_sock s.2) (w_more s.2) (w_out s.2)) = (s1, Ret None) →
  let '(s', r) := do_Fetch adapter s in
  (∃ b1 more b2, w_out s'.2 = w_out s.2 ++ [(NewNetstringEmbedded (concat pss), b1); (NewNetstringFrom CmdEOR
     (eor_payload (eor_code (if inTrans s.1 then EORInTransaction else EORFree) more) (cp_rqId (core s.1))
        (Some (NewNetstringFrom RcNoMoreData []))), b2)]) ∧
  ∀ x, r = Ret x → x = None.
Proof.
  intros Hr Hct Hc Hs Hm Hne He Hw. unfold do_Fetch. rewrite gets_bind, Hr, call_bind, Hct. cbn [fst snd].
  rewrite call_bind. cbn [fst snd w_db]. rewrite Hc. cbn [fst snd]. rewrite call_bind. cbn [fst snd w_db w_sock w_more w_out].
  rewrite Hs. cbn [fst snd w_db w_sock w_more w_out].
  set (s0 := (s.1, mkWorld d3 (w_sock s.2) (w_more s.2) (w_out s.2)) : St).
  assert (E : fetch_rows adapter (default [] cts) (length cols) ((inr <$> good) ++ [inl e]) [] s0 =
    ((set_WorkerScope ws (set_queryScope qs s.1), s0.2), Ret (concat pss, Some e))).
  { rewrite (fetch_rows_good _ _ _ _ _ _ _ Hm). cbn [fetch_rows].
    unfold process_error, mbind, io_bind. change (WorkerScope s0.1) with (WorkerScope s.1).
    change (queryScope s0.1) with (queryScope s.1). by rewrite He. }
  rewrite (io_bind_Ret _ _ _ _ _ E). 
  exact (send_rows_state (concat pss) (Some e) (set_WorkerScope ws (set_queryScope qs s.1), s0.2) s1 Hne Hw).
Qed.

End runs.

(** A client prepares an update of a table that is not there and runs it. *)
Definition after_bad_prepare : CmdProc unit bytes unit unit * World (list Toy.db_call) :=
  (run Mysql.mysqlAdapter [NewNetstringFrom CmdPrepare (str "update bad set a=1")] (Toy.proc, Toy.world 3)).1.

Lemma failed_statement_leaves_transaction_witness :
  let s' := (ProcessCmd Mysql.mysqlAdapter (Some execute_cmd) after_bad_prepare).1 in
  tx s'.1 = Some () ∧
  (∃ ns b, w_out s'.2 = w_out after_bad_prepare.2 ++ [(ns, b)] ∧ frees ns) ∧
  ∀ sql, w_db (prepare_sql sql s').1.2 = (tx_Prepare () sql (w_db s'.2)).1.
Proof.
  apply (failed_statement_leaves_transaction Mysql.mysqlAdapter after_bad_prepare () Toy.sql_error (mkWorkerScope false)
    (mkQueryScope (str "4") (SqlHash (queryScope after_bad_prepare.1)))); try (vm_compute; reflexivity).
  exists (str "update bad set a=1"), []. vm_compute. split_and!; try reflexivity. discriminate.
Defined.

(** A statement with a name at two positions, bound in another order. *)
Definition after_prepare : CmdProc unit bytes unit unit * World (list Toy.db_call) :=
  (run Mysql.mysqlAdapter [NewNetstringFrom CmdPrepare (str "insert :a :b :a")] (Toy.proc, Toy.world 3)).1.

Lemma bound_values_reach_statement_witness :
  ∃ s' s1, run Mysql.mysqlAdapter (bind_cmds [(str "b", str "1"); (str "a", [])]) after_prepare = (s', Ret None) ∧
    clear_outs s' = (s1, Ret tt) ∧ s1.2 = after_prepare.2 ∧
    do_Execute Mysql.mysqlAdapter s' =
      (err ← run_stmt (str "insert ? ? ?")
         ((λ k, in_arg Mysql.mysqlAdapter k (value_of [(str "b", str "1"); (str "a", [])] k)) <$> bindPos after_prepare.1);
       match err with Some e => execute_failed Mysql.mysqlAdapter e | None => execute_done end) s1.
Proof.
  apply (bound_values_reach_statement Mysql.mysqlAdapter [(str "b", str "1"); (str "a", [])] after_prepare (str "insert ? ? ?")).
  - exact (run_wf Mysql.mysqlAdapter _ (Toy.proc, Toy.world 3) NewCmdProcessor_wf).
  - vm_compute. reflexivity.
  - by_decide.
  - intros k. assert (bindPos after_prepare.1 = [str ":a"; str ":b"; str ":a"]) as -> by (vm_compute; reflexivity).
    change (bind_key <$> [(str "b", str "1"); (str "a", [])].*1) with [str ":b"; str ":a"].
    rewrite !elem_of_cons, elem_of_nil. tauto.
Defined.

(** An insert of a MySQL client. *)
Definition insert_query : Packet := mkPacket COM_QUERY [] (3 :: str "insert into t values (1)") 25 0 true.

Lemma mysql_query_outcome_witness :
  let s' := (ProcessCmd Mysql.mysqlAdapter (Some insert_query) (Toy.proc, Toy.world 2)).1 in
  w_db s'.2 = [Toy.CRun (str "insert into t values (1)") []] ∧
  ∃ more b, w_out s'.2 = [] ++ [(NewNetstringFrom CmdEOR
    (eor_payload (eor_code EORFree more) 0 (Some (ok_packet 0 1 7))), b)].
Proof.
  refine (mysql_query_outcome Mysql.mysqlAdapter [] (Toy.world 2) (Toy.proc, Toy.world 2) insert_query 3
    (str "insert into t values (1)") _ eq_refl eq_refl eq_refl eq_refl _ 1 _ 7 eq_refl eq_refl). constructor.
Defined.

(** ** Dates *)

Lemma bound_value_print_time day month year h m s :
  0 <= day < 2 ^ 63 → 0 <= month < 2 ^ 63 → 0 <= year < 2 ^ 63 → 0 <= h < 2 ^ 63 → 0 <= m < 2 ^ 63 → 0 <= s < 2 ^ 63 →
  bound_value DataTypeTimestamp (Mysql.print_time day month year h m s) = VTime year month day h m s 0 0.
Proof.
  intros. unfold bound_value. destruct (Mysql.print_time day month year h m s) as [|x t] eqn:E.
  { exfalso. unfold Mysql.print_time in E. apply app_eq_nil in E as [E _]. destruct (pad2_numeral day) as (_ & ? & _); [lia|done]. }
  rewrite <- E. clear E. change (DataTypeTimestamp =? DataTypeTimestamp) with true. cbv iota.
  assert (Sscanf (format "%d-%d-%d %d:%d:%d.%d") (Mysql.print_time day month year h m s) = [day; month; year; h; m; s; 0]) as ->;
    [|done].
  unfold Mysql.print_time. change (str "-") with [45]. change (str " ") with [32]. change (str ":") with [58].
  change (str ".000") with (46 :: str "000"). cbn [app].
  change (format "%d-%d-%d %d:%d:%d.%d") with
    [Dint; Dlit 45; Dint; Dlit 45; Dint; Dspace; Dint; Dlit 58; Dint; Dlit 58; Dint; Dlit 46; Dint].
  rewrite (Sscanf_lit _ day), (Sscanf_lit _ month), (Sscanf_space _ year _ h), (Sscanf_lit _ h), (Sscanf_lit _ m), (Sscanf_lit _ s);
    try done; first [apply pad2_numeral; lia | apply itoa_numeral; lia | lia | by intros [? ?]].
Qed.

(** A date the worker sends to a client is read back as the same date when the client
    binds it: the text the MySQL adapter makes of a date or a time of day is the format the
    worker expects of a timestamp. *)
Theorem date_roundtrip (year month day hour min sec : Z) :
  Forall (λ n, 0 <= n < 2 ^ 63) [year; month; day; hour; min; sec] →
  bound_value DataTypeTimestamp (Mysql.ProcessResult (str "DATE")
    (itoa year ++ str "-" ++ pad2 month ++ str "-" ++ pad2 day)) = VTime year month day 0 0 0 0 0 ∧
  bound_value DataTypeTimestamp (Mysql.ProcessResult (str "TIMESTAMP")
    (itoa year ++ str "-" ++ pad2 month ++ str "-" ++ pad2 day ++ str " " ++
     pad2 hour ++ str ":" ++ pad2 min ++ str ":" ++ pad2 sec)) = VTime year month day hour min sec 0 0.
Proof.
  intros H. repeat apply Forall_cons_1 in H as [? H].
  rewrite Mysql.ProcessResult_DATE, Mysql.ProcessResult_TIMESTAMP by done.
  split; apply bound_value_print_time; lia.
Qed.

Lemma date_roundtrip_witness :
  bound_value DataTypeTimestamp (Mysql.ProcessResult (str "DATE") (str "2019-07-04")) = VTime 2019 7 4 0 0 0 0 0 ∧
  bound_value DataTypeTimestamp (Mysql.ProcessResult (str "TIMESTAMP") (str "2019-07-04 01:02:03")) = VTime 2019 7 4 1 2 3 0 0.
Proof. apply (date_roundtrip 2019 7 4 1 2 3). repeat constructor; lia. Defined.

(** A query of which the second row cannot be read. *)
Definition after_query : CmdProc unit bytes unit unit * World (list Toy.db_call) :=
  (run Mysql.mysqlAdapter [NewNetstringFrom CmdPrepare (str "select id from t"); execute_cmd] (Toy.proc, Toy.world 5)).1.

Lemma fetch_error_ends_data_witness :
  let '(s', r) := do_Fetch Mysql.mysqlAdapter after_query in
  (∃ b1 more b2, w_out s'.2 = w_out after_query.2 ++ [(NewNetstringEmbedded (concat [[rc_value (str "one")]]), b1);
     (NewNetstringFrom CmdEOR
        (eor_payload (eor_code (if inTrans after_query.1 then EORInTransaction else EORFree) more) (cp_rqId (core after_query.1))
           (Some (NewNetstringFrom RcNoMoreData []))), b2)]) ∧
  ∀ x, r = Ret x → x = None.
Proof.
  eapply (fetch_error_ends_data Mysql.mysqlAdapter after_query _ () (Some [mkColtype (str "id") (str "VARCHAR") (0, false) (0, 0, false)])
    [str "id"] [[Some (str "one")]] Toy.sql_error _ _ _ [[rc_value (str "one")]] (mkWorkerScope false) (queryScope after_query.1)); try (vm_compute; reflexivity). vm_compute. discriminate.
Defined.

End WorkerRuns.
