(* ===== verification/ClientDriver.v ===== *)
(** * The Go client driver (client/gosqldriver/): the connection, statements, rows and
    transactions of a database/sql driver that talks to the gateway in netstrings. *)

From S2P Require Import Prelude GoIO Codes Netstring ConfigFile Fmt Regexp SqlParser.
From stdpp Require Import base list strings.
From Stdlib Require Import ZArith Lia.
Open Scope Z_scope.

Module ClientDriver.
Import Codes Netstring GoStrings.


(** ** The connection *)

(** [heraConnection]: the reader, the answers of the connection to the following writes
    (none is success), what was written, and the two settings. *)
Record heraConnection := mkConn {
  h_reader : NSReader;
  h_answers : list (option go_error);
  h_sent : list Packet;
  shardKeyPayload : bytes;
  corrID : option Packet
}.

Definition corrIDUnsetCmd : Packet := NewNetstringFrom CmdClientCalCorrelationID (str "CorrId=NotSet").

Definition NewHeraConnection (r : stream) (answers : list (option go_error)) : heraConnection :=
  mkConn (NewNetstringReader r) answers [] [] (Some corrIDUnsetCmd).

Abbreviation conn_io := (io heraConnection).

Definition execNs (ns : Packet) : conn_io unit := λ c,
  let c' := mkConn (h_reader c) (tail (h_answers c)) (h_sent c ++ [ns]) (shardKeyPayload c) (corrID c) in
  match head (h_answers c) with
  | Some (Some e) => (c', Error e)
  | _ => (c', Ret tt)
  end.

Definition exec (cmd : Z) (payload : bytes) : conn_io unit := execNs (NewNetstringFrom cmd payload).

Definition getResponse : conn_io Packet := λ c,
  let '(r, p) := ReadNext (h_reader c) in
  (mkConn r (h_answers c) (h_sent c) (shardKeyPayload c) (corrID c),
   match p with Error _ => Error (errors_New (str "Failed to read response")) | _ => p end).

(** A call whose error is not looked at. *)
Definition ignore_error {A} (m : conn_io A) : conn_io unit := λ c,
  match m c with
  | (c, Ret _) | (c, Error _) => (c, Ret tt)
  | (c, Panic) => (c, Panic)
  | (c, Fatal) => (c, Fatal)
  | (c, Hang) => (c, Hang)
  end.

Definition unknown_error (ns : Packet) : go_error :=
  errors_New (str "Unknown error, cmd=" ++ itoa (Cmd ns) ++ str ", payload size=" ++ itoa (zlen (Payload ns))).

(** The checks [SetShardID] and [GetNumShards] share. *)
Definition check_ok (ns : Packet) : result unit :=
  if Cmd ns =? RcError then Error (errors_New (Payload ns))
  else if negb (Cmd ns =? RcOK) then Error (unknown_error ns)
  else Ret tt.

Definition SetShardID (shard : Z) : conn_io unit :=
  _ ← ignore_error (exec CmdSetShardID (itoa shard));
  ns ← getResponse;
  lift (check_ok ns).

Definition ResetShardID : conn_io unit := SetShardID (-1).

Definition GetNumShards : conn_io Z :=
  _ ← ignore_error (exec CmdGetNumShards []);
  ns ← getResponse;
  _ ← lift (check_ok ns);
  mret (Fmt.scanned (Fmt.Sscanf (Fmt.format "%d") (Payload ns)) 0).

Definition SetShardKeyPayload (payload : bytes) (c : heraConnection) : heraConnection :=
  mkConn (h_reader c) (h_answers c) (h_sent c) payload (corrID c).

Definition ResetShardKeyPayload : heraConnection → heraConnection := SetShardKeyPayload [].

Definition SetCalCorrID (id : bytes) (c : heraConnection) : heraConnection :=
  mkConn (h_reader c) (h_answers c) (h_sent c) (shardKeyPayload c)
    (Some (NewNetstringFrom CmdClientCalCorrelationID (str "CorrId=" ++ id))).

(** ** Statements *)

Record stmt := mkStmt { st_sql : bytes; fetchChunkSize : bytes }.

(** The loop that names the placeholders; every turn consumes one. *)
Fixpoint name_marks (fuel : nat) (s : bytes) (idx : Z) : bytes :=
  let pos := Fmt.Index s (str "?") in
  if pos =? -1 then s
  else
    match fuel with
    | O => s
    | S fuel =>
      take (Z.to_nat pos) s ++ str ":p" ++ itoa idx ++ name_marks fuel (drop (Z.to_nat pos + 1) s) (idx + 1)
    end.

Definition newStmt (sql : bytes) : stmt := mkStmt (name_marks (length sql) sql 1) (str "0").

Definition SetFetchSize (num : Z) (st : stmt) : stmt := mkStmt (st_sql st) (itoa num).

(** [driver.Value] and [driver.NamedValue]; other types are refused. *)
Inductive dvalue : Type :=
  | DInt (n : Z)
  | DInt64 (n : Z)
  | DBytes (b : bytes)
  | DString (s : bytes)
  | DOther (type_name : bytes).

Record NamedValue := mkNamed { nv_name : bytes; nv_value : dvalue }.

Definition bad_type (t : bytes) : go_error :=
  errors_New (str "unexpected parameter type " ++ t ++ str ", only int,string and []byte supported").

Definition value_bytes (v : dvalue) : result bytes :=
  match v with
  | DInt n | DInt64 n => Ret (itoa n)
  | DBytes b => Ret b
  | DString s => Ret s
  | DOther t => Error (bad_type t)
  end.

(** The packets of the arguments; [idx] is the place of the next packet in the request. *)
Fixpoint bind_packets (crid idx : Z) (args : list NamedValue) : result (list Packet) :=
  match args with
  | [] => Ret []
  | val :: args =>
    let name := match nv_name val with [] => str "p" ++ itoa ((idx - crid) / 2 + 1) | n => n end in
    b ← value_bytes (nv_value val);
    rest ← bind_packets crid (idx + 2) args;
    Ret (NewNetstringFrom CmdBindName name :: NewNetstringFrom CmdBindValue b :: rest)
  end.

(** Takes the correlation id for the request, once. *)
Definition take_corrID : conn_io (option Packet) := λ c,
  (mkConn (h_reader c) (h_answers c) (h_sent c) (shardKeyPayload c) None, Ret (corrID c)).

Definition get_shardKey : conn_io bytes := λ c, (c, Ret (shardKeyPayload c)).

(** The request both kinds of calls send: correlation id, statement, arguments, shard key,
    execution and, for a query, a fetch. *)
Definition request_packets (st : stmt) (id : option Packet) (binds : list Packet) (key : bytes) (fetch : bool) : list Packet :=
  match id with Some p => [p] | None => [] end ++
  NewNetstringFrom CmdPrepareV2 (st_sql st) :: binds ++
  match key with [] => [] | _ => [NewNetstringFrom CmdShardKey key] end ++
  NewNetstringFrom CmdExecute [] ::
  if fetch then [NewNetstringFrom CmdFetch (fetchChunkSize st)] else [].

Definition build_request (st : stmt) (args : list NamedValue) (fetch : bool) : conn_io Packet :=
  id ← take_corrID;
  let crid := match id with Some _ => 1 | None => 0 end in
  binds ← lift (bind_packets crid (crid + 1) args);
  key ← get_shardKey;
  mret (NewNetstringEmbedded (request_packets st id binds key fetch)).

Definition response_error (ns : Packet) : go_error :=
  if Cmd ns =? RcSQLError then errors_New (str "SQL error: " ++ Payload ns)
  else if Cmd ns =? RcError then errors_New (str "Internal hera error: " ++ Payload ns)
  else errors_New (str "Unknown code: " ++ itoa (Cmd ns) ++ str ", data: " ++ Payload ns).

Definition code2_error (ns : Packet) : go_error :=
  errors_New (str "Unknown code2: " ++ itoa (Cmd ns) ++ str ", data: " ++ Payload ns).

(** [strconv.Atoi] of a payload; the text of its error is shortened. *)
Definition payload_int (ns : Packet) : result Z :=
  match Atoi (Payload ns) with
  | Some n => Ret n
  | None => Error (errors_New (str "strconv.Atoi: parsing " ++ Payload ns))
  end.

(** [ExecContext], and [Exec] with arguments that have no names: the rows affected. *)
Definition ExecContext (st : stmt) (args : list NamedValue) : conn_io Z :=
  cmd ← build_request st args false;
  _ ← execNs cmd;
  ns ← getResponse;
  if negb (Cmd ns =? RcValue) then fail (response_error ns)
  else
    ns ← getResponse;
    if negb (Cmd ns =? RcValue) then fail (code2_error ns)
    else lift (payload_int ns).

Definition Exec (st : stmt) (args : list dvalue) : conn_io Z := ExecContext st (map (mkNamed []) args).

(** ** Rows *)

Record rows := mkRows {
  r_vals : list bytes;
  r_cols : Z;
  currentRow : Z;
  r_chunk : bytes;
  completed : bool
}.

(** The methods of a rows object work on it and on its connection. *)
Abbreviation rows_io := (io (rows * heraConnection)).

Definition on_conn {A} (m : conn_io A) : rows_io A := λ s, let '(c, x) := m s.2 in ((s.1, c), x).
Definition get_rows : rows_io rows := λ s, (s, Ret s.1).
Definition set_rows (f : rows → rows) : rows_io unit := λ s, ((f s.1, s.2), Ret tt).

Definition set_vals (vals : list bytes) (r : rows) : rows :=
  mkRows vals (r_cols r) (currentRow r) (r_chunk r) (completed r).
Definition set_currentRow (n : Z) (r : rows) : rows :=
  mkRows (r_vals r) (r_cols r) n (r_chunk r) (completed r).
Definition set_completed (r : rows) : rows := mkRows (r_vals r) (r_cols r) (currentRow r) (r_chunk r) true.

(** The loop of [fetchResults]; other answers than these three are passed over. *)
Fixpoint fetch_loop (fuel : nat) : rows_io unit :=
  match fuel with
  | O => lift Hang
  | S fuel =>
    ns ← on_conn getResponse;
    if Cmd ns =? RcValue then _ ← set_rows (λ r, set_vals (r_vals r ++ [Payload ns]) r); fetch_loop fuel
    else if Cmd ns =? RcOK then mret tt
    else if Cmd ns =? RcNoMoreData then set_rows set_completed
    else fetch_loop fuel
  end.

(** Every answer is taken from the buffer of the reader or read from the stream. *)
Definition answer_fuel (c : heraConnection) : nat := S (pending (h_reader c)).

Definition fetchResults : rows_io unit := λ s, fetch_loop (answer_fuel s.2) s.

Definition newRows (cols : Z) (chunk : bytes) : conn_io rows := λ c,
  let '(s, x) := (_ ← fetchResults; get_rows) (mkRows [] cols 0 chunk false, c) in (s.2, x).

(** The loop that waits for the first value of a query. *)
Fixpoint wait_value (fuel : nat) : conn_io Packet :=
  match fuel with
  | O => lift Hang
  | S fuel =>
    ns ← getResponse;
    if Cmd ns =? RcValue then mret ns
    else if Cmd ns =? RcStillExecuting then wait_value fuel
    else fail (response_error ns)
  end.

Definition wait_first : conn_io Packet := λ c, wait_value (answer_fuel c) c.

(** [QueryContext], and [Query] with arguments that have no names. *)
Definition QueryContext (st : stmt) (args : list NamedValue) : conn_io rows :=
  cmd ← build_request st args true;
  _ ← execNs cmd;
  ns ← wait_first;
  cols ← lift (payload_int ns);
  ns ← getResponse;
  if negb (Cmd ns =? RcValue) then fail (code2_error ns)
  else
    _ ← lift (payload_int ns);
    newRows cols (fetchChunkSize st).

Definition Query (st : stmt) (args : list dvalue) : conn_io rows := QueryContext st (map (mkNamed []) args).

(** [Columns]: as many empty names as there are columns. *)
Definition Columns (r : rows) : result (list bytes) :=
  if r_cols r <? 0 then Panic else Ret (replicate (Z.to_nat (r_cols r)) []).

(** More rows, when all that are there have been read. *)
Definition next_chunk : rows_io unit :=
  r ← get_rows;
  if r_cols r * currentRow r =? zlen (r_vals r) then
    if completed r then fail io_EOF
    else
      _ ← on_conn (execNs (NewNetstringFrom CmdFetch (r_chunk r)));
      _ ← set_rows (set_vals []);
      _ ← fetchResults;
      _ ← set_rows (set_currentRow 0);
      r ← get_rows;
      match r_vals r with [] => fail io_EOF | _ => mret tt end
  else mret tt.

Definition next_failed (r : rows) : go_error :=
  errors_New (str "Rows.Next() failed len(r.vals)=" ++ itoa (zlen (r_vals r)) ++ str ", cols=" ++ itoa (r_cols r) ++
    str ", currentRow=" ++ itoa (currentRow r)).

Definition next_short (destsize n : Z) (r : rows) : go_error :=
  errors_New (str "Rows.Next() failed destsize=" ++ itoa destsize ++ str ", n=" ++ itoa n ++
    str ", cols=" ++ itoa (r_cols r) ++ str ", currentRow=" ++ itoa (currentRow r)).

(** [Next] into a slice of [destsize] values: the values of the row, or [io.EOF]. *)
Definition Next (destsize : Z) : rows_io (list bytes) :=
  _ ← next_chunk;
  r ← get_rows;
  if zlen (r_vals r) <? (currentRow r + 1) * r_cols r then fail (next_failed r)
  else if r_cols r <? 0 then lift Panic
  else
    let row := take (Z.to_nat (r_cols r)) (drop (Z.to_nat (currentRow r * r_cols r)) (r_vals r)) in
    let n := Z.min destsize (zlen row) in
    if negb (n =? r_cols r) then fail (next_short destsize n r)
    else
      _ ← set_rows (set_currentRow (currentRow r + 1));
      mret row.

(** ** Transactions *)

(** A transaction is good for one commit or rollback: its connection is then nil. *)
Definition tx_cmd (cmd : Z) (usable : bool) : conn_io unit :=
  if negb usable then fail (errors_New (str "Invalid connection"))
  else
    _ ← exec cmd [];
    ns ← getResponse;
    if negb (Cmd ns =? RcOK) then fail (errors_New (str "Got error=" ++ itoa (Cmd ns)))
    else mret tt.

Definition Commit (usable : bool) : conn_io unit := tx_cmd CmdCommit usable.
Definition Rollback (usable : bool) : conn_io unit := tx_cmd CmdRollback usable.

(** ** Placeholders and names *)

(** [name_marks] byte by byte. *)
Fixpoint mark_names (s : bytes) (idx : Z) : bytes :=
  match s with
  | [] => []
  | c :: s => if c =? 63 then str ":p" ++ itoa idx ++ mark_names s (idx + 1) else c :: mark_names s idx
  end.

Lemma mark_names_none s idx : Forall (λ c, c ≠ 63) s → mark_names s idx = s.
Proof.
  induction 1 as [|c s Hc _ IH]; cbn [mark_names]; [done|]. by rewrite (proj2 (Z.eqb_neq c 63)), IH.
Qed.

Lemma mark_names_app a b idx : Forall (λ c, c ≠ 63) a →
  mark_names (a ++ 63 :: b) idx = a ++ str ":p" ++ itoa idx ++ mark_names b (idx + 1).
Proof.
  induction 1 as [|c a Hc _ IH]; cbn [mark_names app]; [done|]. by rewrite (proj2 (Z.eqb_neq c 63)), IH.
Qed.

(** The first mark of a text, if there is one. *)
Lemma first_mark s : Forall (λ c, c ≠ 63) s ∨ ∃ a b, s = a ++ 63 :: b ∧ Forall (λ c, c ≠ 63) a.
Proof.
  induction s as [|c s [IH|(a & b & -> & IH)]]; [by left| |].
  - destruct (decide (c = 63)) as [->|]; [right; by exists [], s|left; by constructor].
  - right. destruct (decide (c = 63)) as [->|]; [by exists [], (a ++ 63 :: b)|].
    exists (c :: a), b. split; [done|]. by constructor.
Qed.

Lemma name_marks_eq fuel s idx : (length s <= fuel)%nat → name_marks fuel s idx = mark_names s idx.
Proof.
  revert s idx. induction fuel as [|fuel IH]; intros s idx Hf.
  { by destruct s; [|cbn in Hf; lia]. }
  cbn [name_marks]. destruct (first_mark s) as [H|(a & b & -> & H)].
  - change (str "?") with [63]. rewrite Fmt.Index_byte_none by done. by rewrite mark_names_none.
  - change (str "?") with [63]. rewrite Fmt.Index_byte, mark_names_app by done.
    rewrite (proj2 (Z.eqb_neq (zlen a) (-1))) by lia. rewrite Nat2Z.id, take_app_length.
    rewrite drop_app_ge by lia. replace (length a + 1 - length a)%nat with 1%nat by lia. cbn [drop skipn].
    rewrite length_app in Hf. cbn [length] in Hf. rewrite drop_0, IH; [done|]. lia.
Qed.

(** The statement has no names of its own, and a mark is not followed by a word. *)
Definition plain (s : bytes) : Prop := SqlParser.FindAllString s = [].

Fixpoint delimited (s : bytes) : Prop :=
  match s with
  | [] => True
  | c :: s => (c = 63 → match s with [] => True | x :: _ => SqlParser.is_word x = false ∧ x ≠ 96 end) ∧ delimited s
  end.

(** The names the driver gives to [n] marks from number [idx] on. *)
Fixpoint param_names (idx : Z) (n : nat) : list bytes :=
  match n with
  | O => []
  | S n => (str ":p" ++ itoa idx) :: param_names (idx + 1) n
  end.

Definition marks (s : bytes) : nat := length (filter (λ c, c = 63) s).

Lemma plain_cons c s : plain (c :: s) → SqlParser.bind_match (c :: s) = None ∧ plain s.
Proof.
  unfold plain, SqlParser.FindAllString. rewrite SqlParser.tokens_eq.
  destruct (SqlParser.bind_match (c :: s)) as [[m rest]|]; [done|]. cbn. done.
Qed.

(** Naming the marks does not complete a name that was not there. *)
Lemma bind_match_mark_names c s idx : SqlParser.bind_match (c :: s) = None →
  SqlParser.bind_match (c :: mark_names s idx) = None.
Proof.
  destruct (decide (c = 58)) as [->|]; [|intros _; by apply SqlParser.bind_match_other].
  destruct s as [|x s]; [done|]. cbn [mark_names].
  destruct (Z.eqb_spec x 63) as [->|Hx]; [done|].
  unfold SqlParser.bind_match, SqlParser.backtick. destruct (Z.eqb_spec x 96) as [->|].
  - destruct s as [|y s]; [done|]. cbn [mark_names]. destruct (Z.eqb_spec y 63) as [->|Hy]; [done|].
    cbn. by destruct (SqlParser.is_alpha y), (SqlParser.span SqlParser.is_word s) as [? [|z ?]];
      [|destruct (z =? 96)|..].
  - cbn. by destruct (SqlParser.is_alpha x), (SqlParser.span SqlParser.is_word s) as [? [|z ?]];
      [|destruct (z =? 96)|..].
Qed.

Lemma itoa_words n : 0 <= n → Forall (λ c, SqlParser.is_word c = true) (itoa n).
Proof.
  intros Hn. destruct (itoa_spec n Hn) as (F & _). eapply Forall_impl; [exact F|]. intros d. unfold is_digit. cbv beta.
  intros Hd. unfold SqlParser.is_word. rewrite (proj2 (Z.leb_le 48 d)), (proj2 (Z.leb_le d 57)) by lia.
  by rewrite andb_true_r, orb_true_r.
Qed.

(** What follows a mark does not continue the name it gets. *)
Lemma mark_names_head s idx : match s with [] => True | x :: _ => SqlParser.is_word x = false ∧ x ≠ 96 end →
  match mark_names s idx with [] => True | x :: _ => SqlParser.is_word x = false ∧ x ≠ 96 end.
Proof. destruct s as [|x s]; [done|]. cbn [mark_names]. by destruct (Z.eqb_spec x 63). Qed.

Lemma mark_names_tokens s idx : plain s → delimited s → 0 <= idx →
  SqlParser.FindAllString (mark_names s idx) = param_names idx (marks s) ∧
  SqlParser.ReplaceAllString (mark_names s idx) (str "?") = s.
Proof.
  unfold SqlParser.FindAllString, SqlParser.ReplaceAllString, marks. revert idx.
  induction s as [|c s IH]; intros idx Hp Hd Hi; [done|].
  apply plain_cons in Hp as [Hm Hp]. destruct Hd as [Hc Hd]. cbn [mark_names].
  destruct (Z.eqb_spec c 63) as [->|Hne].
  - rewrite filter_cons_True by done. rewrite SqlParser.tokens_eq.
    change (str ":p" ++ itoa idx ++ mark_names s (idx + 1)) with (58 :: 112 :: itoa idx ++ mark_names s (idx + 1)).
    rewrite SqlParser.bind_match_name; [|done|by apply itoa_words|by apply mark_names_head, Hc].
    destruct (IH (idx + 1) Hp Hd ltac:(lia)) as [E1 E2]. cbn [omap list_omap length param_names].
    rewrite fmap_cons. cbn [concat]. by rewrite E1, E2.
  - rewrite filter_cons_False by done. rewrite SqlParser.tokens_eq, bind_match_mark_names by done.
    destruct (IH idx Hp Hd Hi) as [E1 E2]. cbn [omap list_omap].
    rewrite fmap_cons. cbn [concat app]. by rewrite E1, E2.
Qed.

(** The driver's renaming of the placeholders and the worker's undo each other: for a
    statement without names of its own whose marks are not glued to a word, the worker finds
    the names [:p1], ..., [:pn] in the text the driver sends, in order and one per mark, and
    gets the application's text back when it replaces them. *)
Theorem newStmt_roundtrip (sql : bytes) : plain sql → delimited sql →
  SqlParser.FindAllString (st_sql (newStmt sql)) = param_names 1 (marks sql) ∧
  SqlParser.ReplaceAllString (st_sql (newStmt sql)) (str "?") = sql.
Proof. intros. cbn [newStmt st_sql]. rewrite name_marks_eq by done. by apply mark_names_tokens. Qed.

Lemma newStmt_roundtrip_witness : let sql := str "insert into t values (?, ?)" in
  plain sql ∧ delimited sql ∧ st_sql (newStmt sql) = str "insert into t values (:p1, :p2)" ∧
  SqlParser.ReplaceAllString (st_sql (newStmt sql)) (str "?") = sql.
Proof.
  intros sql. assert (plain sql) by (vm_compute; reflexivity).
  assert (delimited sql) by (cbn; repeat (split; try done)).
  split_and!; [done|done|vm_compute; reflexivity|]. by apply newStmt_roundtrip.
Defined.

(** ** The packets of the arguments *)

(** The names the driver gives to [n] arguments without names, from number [k] on. *)
Fixpoint arg_names (k : Z) (n : nat) : list bytes :=
  match n with
  | O => []
  | S n => (str "p" ++ itoa k) :: arg_names (k + 1) n
  end.

Lemma bind_packets_unnamed crid k args vals : mapM value_bytes args = Ret vals →
  bind_packets crid (crid + 1 + 2 * k) (map (mkNamed []) args) =
  Ret (concat ((λ e, [NewNetstringFrom CmdBindName e.1; NewNetstringFrom CmdBindValue e.2]) <$>
       zip (arg_names (k + 1) (length vals)) vals)).
Proof.
  revert k vals. induction args as [|v args IH]; intros k vals; cbn [mapM map bind_packets nv_name nv_value].
  { intros [= <-]. done. }
  destruct (value_bytes v) as [b| | | |]; try done. destruct (mapM value_bytes args) as [vs| | | |]; try done.
  intros [= <-]. cbn [mbind result_bind]. replace (crid + 1 + 2 * k + 2) with (crid + 1 + 2 * (k + 1)) by lia.
  rewrite (IH (k + 1) vs) by done. replace (crid + 1 + 2 * k - crid) with (1 + k * 2) by lia.
  rewrite Z.div_add by done. done.
Qed.

(** ** Rows *)

Lemma getResponse_pending c c' p : getResponse c = (c', Ret p) → (pending (h_reader c') < pending (h_reader c))%nat.
Proof.
  unfold getResponse. destruct (ReadNext (h_reader c)) as [r x] eqn:E. intros [= <- Hx].
  destruct x; simplify_eq. by apply ReadNext_pending in E.
Qed.

Lemma getResponse_returns c : (getResponse c).2 ≠ Hang.
Proof.
  unfold getResponse. pose proof (ReadNext_loop_returns (length (unread (reader (h_reader c))) + 2) (h_reader c)) as H.
  unfold ReadNext. destruct (ReadNext_loop _ (h_reader c)) as [r x]. cbn [snd] in *. destruct x; try done. apply H, Nat.add_lt_mono_l. lia.
Qed.

(** The loops over the answers end: with a result or with an error of the connection. *)
Lemma fetch_loop_returns fuel s : (pending (h_reader s.2) < fuel)%nat → (fetch_loop fuel s).2 ≠ Hang.
Proof.
  revert s. induction fuel as [|fuel IH]; intros [r c] Hf; [lia|]. cbn [fetch_loop snd] in *.
  unfold mbind at 1, io_bind, on_conn. pose proof (getResponse_returns c) as Hr. cbn [snd] in *.
  destruct (getResponse c) as [c' [p| | | |]] eqn:E; try done. apply getResponse_pending in E.
  destruct (Cmd p =? RcValue); [apply (IH (_, c')); cbn; lia|]. destruct (Cmd p =? RcOK); [done|].
  destruct (Cmd p =? RcNoMoreData); [done|]. apply (IH (_, c')); cbn; lia.
Qed.

Lemma wait_value_returns fuel c : (pending (h_reader c) < fuel)%nat → (wait_value fuel c).2 ≠ Hang.
Proof.
  revert c. induction fuel as [|fuel IH]; intros c Hf; [lia|]. cbn [wait_value].
  unfold mbind at 1, io_bind. pose proof (getResponse_returns c) as Hr.
  destruct (getResponse c) as [c' [p| | | |]] eqn:E; try done. apply getResponse_pending in E.
  destruct (Cmd p =? RcValue); [done|]. destruct (Cmd p =? RcStillExecuting); [apply IH; lia|done].
Qed.

(** The connection delivers these answers, one by one. *)
Inductive delivers : heraConnection → list Packet → heraConnection → Prop :=
  | delivers_nil c : delivers c [] c
  | delivers_cons c p c1 ps c2 : getResponse c = (c1, Ret p) → delivers c1 ps c2 → delivers c (p :: ps) c2.

Definition value_packet (v : bytes) : Packet := NewNetstringFrom RcValue v.

(** [fetchResults] on values and a final answer. *)
Lemma fetch_loop_delivers fuel r c vals done c' : (pending (h_reader c) < fuel)%nat →
  Cmd done = RcOK ∨ Cmd done = RcNoMoreData → delivers c (map value_packet vals ++ [done]) c' →
  fetch_loop fuel (r, c) =
    ((mkRows (r_vals r ++ vals) (r_cols r) (currentRow r) (r_chunk r) (completed r || (Cmd done =? RcNoMoreData)), c'), Ret tt).
Proof.
  intros Hf Hdone. revert fuel r c Hf. induction vals as [|v vals IH]; intros [|fuel] r c Hf Hd; try lia.
  - inversion Hd as [|? ? c1 ? ? E Hd1]; subst. inversion Hd1; subst. cbn [fetch_loop].
    rewrite (io_bind_Ret _ _ (r, c) (r, c') done) by (unfold on_conn; cbn [snd]; by rewrite E).
    destruct r as [vs cols cur chunk comp]. rewrite app_nil_r. destruct Hdone as [-> | ->]; cbn; [by rewrite orb_false_r|].
    by rewrite orb_true_r.
  - inversion Hd as [|? ? c1 ? ? E Hd1]; subst. cbn [fetch_loop].
    rewrite (io_bind_Ret _ _ (r, c) (r, c1) (value_packet v)) by (unfold on_conn; cbn [snd]; by rewrite E).
    change (Cmd (value_packet v) =? RcValue) with true. cbv iota. apply getResponse_pending in E.
    unfold value_packet. rewrite From_Payload. unfold set_rows at 1, mbind, io_bind. cbn [fst snd].
    rewrite IH; [|lia|done].
    unfold set_vals. cbn. by rewrite <- app_assoc.
Qed.

(** The answers to the fetches of a query: values in rows, [RcOK] where there are more rows
    and [RcNoMoreData] at the end. *)
Inductive serves (chunk : bytes) : heraConnection → list (list bytes) → heraConnection → Prop :=
  | serves_last c rs p c' : Cmd p = RcNoMoreData →
      delivers c (map value_packet (concat rs) ++ [p]) c' → serves chunk c rs c'
  | serves_more c rs p c1 c2 rs2 c' : rs ≠ [] → Cmd p = RcOK →
      delivers c (map value_packet (concat rs) ++ [p]) c1 →
      execNs (NewNetstringFrom CmdFetch chunk) c1 = (c2, Ret tt) →
      serves chunk c2 rs2 c' → serves chunk c (rs ++ rs2) c'.

(** An application that calls [Next] until [io.EOF]. *)
Fixpoint read_all (fuel : nat) (cols : Z) : rows_io (list (list bytes)) := λ s,
  match fuel with
  | O => (s, Hang)
  | S fuel =>
    match Next cols s with
    | (s, Ret row) => (rest ← read_all fuel cols; mret (row :: rest)) s
    | (s, Error io_EOF) => (s, Ret [])
    | (s, Error e) => (s, Error e)
    | (s, Panic) => (s, Panic)
    | (s, Fatal) => (s, Fatal)
    | (s, Hang) => (s, Hang)
    end
  end.

Section reading.
Context (cols : Z) (chunk : bytes) (Hcols : 0 < cols).

(** The rows object that holds [rs] and has given out the first [n] of them. *)
Definition holding (rs : list (list bytes)) (n : nat) (comp : bool) : rows :=
  mkRows (concat rs) cols (Z.of_nat n) chunk comp.

Lemma concat_length (rs : list (list bytes)) : Forall (λ row, zlen row = cols) rs → zlen (concat rs) = cols * zlen rs.
Proof. induction 1 as [|row rs Hr _ IH]; cbn [concat length]; [lia|]. rewrite length_app. lia. Qed.

Lemma Next_buffered (before : list (list bytes)) row after comp c : Forall (λ row, zlen row = cols) (before ++ row :: after) →
  Next cols (holding (before ++ row :: after) (length before) comp, c) =
    ((holding (before ++ row :: after) (S (length before)) comp, c), Ret row).
Proof.
  intros HF. pose proof (concat_length _ HF) as Hl. apply Forall_app in HF as [Hb [Hr Ha]%Forall_cons].
  pose proof (concat_length _ Hb) as Hlb. rewrite length_app, length_cons in Hl.
  set (rs := before ++ row :: after) in *. unfold Next, next_chunk. cbn [get_rows mbind io_bind].
  unfold mbind, io_bind, get_rows. cbn [fst holding r_cols currentRow r_vals].
  rewrite (proj2 (Z.eqb_neq _ _)) by nia. cbn [mret io_ret fst r_vals r_cols currentRow holding].
  rewrite (proj2 (Z.ltb_ge _ _)), (proj2 (Z.ltb_ge cols 0)) by nia.
  assert (take (Z.to_nat cols) (drop (Z.to_nat (Z.of_nat (length before) * cols)) (concat rs)) = row) as ->.
  { unfold rs. rewrite concat_app. cbn [concat]. rewrite drop_app_length' by nia. by rewrite take_app_length' by lia. }
  rewrite (proj2 (Z.eqb_eq _ _)) by lia. unfold holding.
  replace (Z.of_nat (S (length before))) with (Z.of_nat (length before) + 1) by lia. done.
Qed.

Lemma read_all_buffered before rs comp c fuel : Forall (λ row, zlen row = cols) (before ++ rs) →
  read_all (length rs + fuel) cols (holding (before ++ rs) (length before) comp, c) =
  (rest ← read_all fuel cols; mret (rs ++ rest)) (holding (before ++ rs) (length (before ++ rs)) comp, c).
Proof.
  revert before. induction rs as [|row rs IH]; intros before HF.
  - rewrite !app_nil_r. unfold mbind, io_bind. cbn [length Nat.add].
    by destruct (read_all fuel cols _) as [? [| | | |]].
  - cbn [length Nat.add read_all]. rewrite Next_buffered by done.
    replace (S (length before)) with (length (before ++ [row])) by (rewrite length_app; cbn; lia).
    rewrite (cons_middle row before rs), !app_assoc in *. 
    unfold mbind, io_bind in *. rewrite IH by done. by destruct (read_all fuel cols _) as [? [| | | |]].
Qed.

(** The end of a chunk: the end of the query, or another fetch. *)
Lemma Next_end rs c : Forall (λ row, zlen row = cols) rs →
  Next cols (holding rs (length rs) true, c) = ((holding rs (length rs) true, c), Error io_EOF).
Proof.
  intros HF%concat_length. unfold Next, next_chunk, mbind, io_bind, get_rows. cbn [fst holding r_cols currentRow r_vals].
  by rewrite (proj2 (Z.eqb_eq _ _)) by lia.
Qed.

Lemma fetchResults_delivers r c rs p c' : Cmd p = RcOK ∨ Cmd p = RcNoMoreData →
  delivers c (map value_packet (concat rs) ++ [p]) c' →
  fetchResults (r, c) =
    ((mkRows (r_vals r ++ concat rs) (r_cols r) (currentRow r) (r_chunk r) (completed r || (Cmd p =? RcNoMoreData)), c'), Ret tt).
Proof. intros. unfold fetchResults, answer_fuel. cbn [snd]. by apply fetch_loop_delivers; [lia|..]. Qed.

(** The first [Next] after a chunk fetches the following one. *)
Lemma next_chunk_fetches old c1 c2 rs p c' : Forall (λ row, zlen row = cols) old →
  execNs (NewNetstringFrom CmdFetch chunk) c1 = (c2, Ret tt) → Cmd p = RcOK ∨ Cmd p = RcNoMoreData →
  delivers c2 (map value_packet (concat rs) ++ [p]) c' →
  next_chunk (holding old (length old) false, c1) =
    ((holding rs 0 (Cmd p =? RcNoMoreData), c'), match concat rs with [] => Error io_EOF | _ => Ret tt end).
Proof.
  intros HF%concat_length E Hp Hd. unfold next_chunk, mbind, io_bind. cbn [get_rows fst holding r_cols currentRow r_vals completed r_chunk].
  rewrite (proj2 (Z.eqb_eq _ _)) by lia. unfold on_conn. cbn [snd]. rewrite E. cbn [fst set_rows].
  rewrite (fetchResults_delivers _ _ _ _ _ Hp Hd). cbn. unfold holding. by destruct (concat rs).
Qed.

Lemma Next_fetches old c1 c2 row rs p c' : Forall (λ row, zlen row = cols) old → Forall (λ row, zlen row = cols) (row :: rs) →
  execNs (NewNetstringFrom CmdFetch chunk) c1 = (c2, Ret tt) → Cmd p = RcOK ∨ Cmd p = RcNoMoreData →
  delivers c2 (map value_packet (concat (row :: rs)) ++ [p]) c' →
  Next cols (holding old (length old) false, c1) = Next cols (holding (row :: rs) 0 (Cmd p =? RcNoMoreData), c').
Proof.
  intros Ho Hr E Hp Hd. pose proof (concat_length _ Hr) as Hl. rewrite length_cons in Hl. unfold Next.
  rewrite (io_bind_Ret next_chunk _ _ (holding (row :: rs) 0 (Cmd p =? RcNoMoreData), c') tt).
  - rewrite (io_bind_Ret next_chunk _ (holding (row :: rs) 0 _, c') (holding (row :: rs) 0 (Cmd p =? RcNoMoreData), c') tt); [done|].
    unfold next_chunk, mbind, io_bind, get_rows. cbn [fst holding r_cols currentRow r_vals].
    by rewrite (proj2 (Z.eqb_neq _ (zlen (concat (row :: rs))))) by nia.
  - rewrite (next_chunk_fetches _ _ _ _ _ _ Ho E Hp Hd). by destruct (concat (row :: rs)); [cbn [length] in Hl; nia|].
Qed.

Lemma read_all_Next n s s' : (0 < n)%nat → Next cols s = Next cols s' → read_all n cols s = read_all n cols s'.
Proof. intros Hn E. destruct n; [lia|]. cbn [read_all]. by rewrite E. Qed.

Lemma read_all_end rs c fuel : Forall (λ row, zlen row = cols) rs →
  read_all (S fuel) cols (holding rs (length rs) true, c) = ((holding rs (length rs) true, c), Ret []).
Proof. intros. cbn [read_all]. by rewrite Next_end. Qed.

(** Reading on from the end of a chunk. *)
Lemma read_all_serves c2 rs c' : serves chunk c2 rs c' → Forall (λ row, zlen row = cols) rs → ∀ old c1 fuel,
  Forall (λ row, zlen row = cols) old → execNs (NewNetstringFrom CmdFetch chunk) c1 = (c2, Ret tt) →
  ∃ s', read_all (length rs + S fuel) cols (holding old (length old) false, c1) = (s', Ret rs).
Proof.
  induction 1 as [c2 rs p c' Hp Hd|c2 rs p c3 c4 rs2 c' Hne Hp Hd E' _ IH]; intros HF old c1 fuel Ho E.
  - destruct rs as [|row rs].
    + cbn [length Nat.add read_all]. unfold Next. unfold mbind at 1, io_bind at 1.
      rewrite (next_chunk_fetches _ _ _ _ _ _ Ho E (or_intror Hp) Hd). by eexists.
    + rewrite (read_all_Next _ _ (holding (row :: rs) 0 true, c')); [|lia|].
      * rewrite (read_all_buffered []) by done. unfold mbind, io_bind. rewrite (read_all_end _ _ _ HF). by eexists; rewrite app_nil_r.
      * rewrite (Next_fetches _ _ _ _ _ _ _ Ho HF E (or_intror Hp) Hd). by rewrite Hp.
  - destruct rs as [|row rs]; [done|]. apply Forall_app in HF as [HF1 HF2].
    destruct (IH HF2 (row :: rs) c3 fuel HF1 E') as [s' Es].
    rewrite (read_all_Next _ _ (holding (row :: rs) 0 false, c3)); [|lia|].
    + rewrite length_app, <- Nat.add_assoc. rewrite (read_all_buffered []) by done. unfold mbind, io_bind. cbn [app] in *. 
      rewrite Es. by eexists.
    + rewrite (Next_fetches _ _ _ _ _ _ _ Ho HF1 E (or_introl Hp) Hd). by rewrite Hp.
Qed.

Lemma newRows_delivers c rs p c' : Cmd p = RcOK ∨ Cmd p = RcNoMoreData →
  delivers c (map value_packet (concat rs) ++ [p]) c' →
  newRows cols chunk c = (c', Ret (holding rs 0 (Cmd p =? RcNoMoreData))).
Proof.
  intros Hp Hd. unfold newRows. rewrite (io_bind_Ret _ _ _ _ _ (fetchResults_delivers _ _ _ _ _ Hp Hd)). done.
Qed.

End reading.

(** If the reader of the connection hands over every packet of the answers, which it does
    not do for the parts of a composite after the first, an application that reads a query
    to its end gets every row of the answers, in order and cut at the number of columns,
    over all the fetches the driver makes, and then [io.EOF]. *)
Theorem rows_delivered (cols : Z) (chunk : bytes) (rs : list (list bytes)) (c c' : heraConnection) :
  0 < cols → Forall (λ row, zlen row = cols) rs → serves chunk c rs c' →
  ∃ c1 r s', newRows cols chunk c = (c1, Ret r) ∧ read_all (S (length rs)) cols (r, c1) = (s', Ret rs).
Proof.
  intros Hc HF Hs. rewrite <- Nat.add_1_r. destruct Hs as [c rs p c' Hp Hd|c rs p c1 c2 rs2 c' Hne Hp Hd E Hs].
  - eexists _, _, _. split; [apply (newRows_delivers _ _ _ _ _ _ (or_intror Hp) Hd)|]. rewrite Hp.
    rewrite (read_all_buffered _ _ Hc []) by done. unfold mbind, io_bind. rewrite read_all_end by done.
    by rewrite app_nil_r.
  - apply Forall_app in HF as [HF1 HF2].
    destruct (read_all_serves cols chunk Hc _ _ _ Hs HF2 rs c1 0 HF1 E) as [s' Es].
    eexists _, _, s'. split; [apply (newRows_delivers _ _ _ _ _ _ (or_introl Hp) Hd)|]. rewrite Hp.
    rewrite length_app, <- Nat.add_assoc, (read_all_buffered _ _ Hc []) by done. unfold mbind, io_bind. cbn [app].
    change (RcOK =? RcNoMoreData) with false. by rewrite Es.
Qed.

Lemma rows_delivered_witness :
  let answers := [value_packet (str "1"); value_packet (str "2"); NewNetstringFrom RcOK [];
                  value_packet (str "3"); NewNetstringFrom RcNoMoreData []] in
  let c := mkConn (mkNSReader (mkStream [] io_EOF) None answers 0) [] [] [] None in
  ∃ c1 r s', newRows 1 (str "0") c = (c1, Ret r) ∧ read_all 4 1 (r, c1) = (s', Ret [[str "1"]; [str "2"]; [str "3"]]).
Proof.
  intros answers c. eapply (rows_delivered 1 (str "0") [[str "1"]; [str "2"]; [str "3"]] c _ eq_refl).
  - repeat constructor.
  - eapply (serves_more _ _ [[str "1"]; [str "2"]] (NewNetstringFrom RcOK [])); [done|done| | |].
    + repeat (eapply delivers_cons; [reflexivity|]). apply delivers_nil.
    + reflexivity.
    + eapply (serves_last _ _ [[str "3"]] (NewNetstringFrom RcNoMoreData [])); [done|].
      repeat (eapply delivers_cons; [reflexivity|]). apply delivers_nil.
Defined.

End ClientDriver.
