(* ===== verification/Coordinator.v ===== *)
(** * The session of a client (lib/coordinator.go, lib/coordinatortaf.go): requests of the
    client, messages of its worker, time-outs and cancellation as a sequence of events; the
    workers it takes, returns and recovers as a sequence of actions. *)

From S2P Require Import Prelude GoIO Codes Murmur3 Netstring ConfigFile Config ShardMap Sharding WorkerClient Regexp SqlParser Fmt.
From stdpp Require Import base list gmap strings.
From Stdlib Require Import ZArith Lia.
Open Scope Z_scope.

Module Coordinator.
Import Codes Netstring Config WorkerClient.

(** ** Workers and pools as the session sees them *)

(** [GetWorkerPool(wType, 0, shardID)]. *)
Record PoolRef := mkPool { pl_type : HeraWorkerType; pl_shard : Z }.

(** A worker of a pool, by its number; [worker.shardID] is the shard of its pool. *)
Record WorkerRef := mkRef { wk_pool : PoolRef; wk_id : Z }.

#[global] Instance HeraWorkerType_eq_dec : EqDecision HeraWorkerType.
Proof. solve_decision. Defined.
#[global] Instance PoolRef_eq_dec : EqDecision PoolRef.
Proof. solve_decision. Defined.
#[global] Instance WorkerRef_eq_dec : EqDecision WorkerRef.
Proof. solve_decision. Defined.

(** [worker], [workerpool] and [ticket] of [Coordinator]: set together, reset together. *)
Record attachment := mkAtt { at_worker : WorkerRef; at_pool : PoolRef; at_ticket : bytes }.

#[global] Instance attachment_eq_dec : EqDecision attachment.
Proof. solve_decision. Defined.

(** What the selects of the session receive; [None] is a closed channel. *)
Inductive event : Type :=
  | Client (ns : option Packet)
  | FromWorker (msg : option workerMsg)
  | Ctrl (msg : option workerMsg)
  | IdleTimer
  | RequestTimer
  | Cancelled.

(** What the session does. [Heard] marks that it takes an event; [Lost] marks the points where it finds that a worker is gone:
    a failed write, after which [Write] has terminated it, or its closed control channel. *)
Inductive action : Type :=
  | Heard (e : event)
  | Got (w : WorkerRef) (p : PoolRef) (ticket : bytes)
  | ToWorker (w : WorkerRef) (ns : Packet) (nsCount : Z)
  | SqlStart (w : WorkerRef) (hash : Z)
  | SqlEnd (w : WorkerRef)
  | Counted (w : WorkerRef)
  | ToClient (data : bytes)
  | Returned (p : PoolRef) (w : WorkerRef) (ticket : bytes)
  | Recovering (p : PoolRef) (w : WorkerRef) (ticket : bytes) (param : Z)
  | Lost (w : WorkerRef)
  | MadeIdle (w : WorkerRef)
  | DoneMs (ms : Z)
  | CloseConn
  | TafOK
  | TafError
  | TafAsked (hash : Z)
  | TafTimeout (hash : Z).

Definition StrandedClientClose : Z := 4.
Definition StrandedSaturationRecover : Z := 5.
Definition StrandedSwitch : Z := 6.

Definition ErrClientFail : go_error := errors_New (str "Client error").
Definition ErrWorkerFail : go_error := errors_New (str "Worker error").
Definition ErrTimeout : go_error := errors_New (str "Timeout").
Definition ErrCanceled : go_error := errors_New (str "Canceled").
Definition ErrDML : go_error := errors_New (str "DML not allowed").

(** [tafResponsePreproc], the filter between the primary worker and the client. *)
Record tafResponsePreproc := mkPreproc { tp_ok : bool; tp_ora : bytes; dataSent : bool; tp_replied : bool }.

Record Session := mkSession {
  corrID : option Packet;
  preppendCorrID : bool;
  isRead : bool;
  sqlhash : Z;
  shard : Sharding.shardInfo;
  prevShard : Sharding.shardInfo;
  worker : option attachment;
  inTransaction : bool;
  nss : list Packet;
  preproc : tafResponsePreproc
}.

Definition set_corrID v s := mkSession v (preppendCorrID s) (isRead s) (sqlhash s) (shard s) (prevShard s) (worker s) (inTransaction s) (nss s) (preproc s).
Definition set_preppend v s := mkSession (corrID s) v (isRead s) (sqlhash s) (shard s) (prevShard s) (worker s) (inTransaction s) (nss s) (preproc s).
Definition set_isRead v s := mkSession (corrID s) (preppendCorrID s) v (sqlhash s) (shard s) (prevShard s) (worker s) (inTransaction s) (nss s) (preproc s).
Definition set_sqlhash v s := mkSession (corrID s) (preppendCorrID s) (isRead s) v (shard s) (prevShard s) (worker s) (inTransaction s) (nss s) (preproc s).
Definition set_shards v v' s := mkSession (corrID s) (preppendCorrID s) (isRead s) (sqlhash s) v v' (worker s) (inTransaction s) (nss s) (preproc s).
Definition set_worker v s := mkSession (corrID s) (preppendCorrID s) (isRead s) (sqlhash s) (shard s) (prevShard s) v (inTransaction s) (nss s) (preproc s).
Definition set_inTransaction v s := mkSession (corrID s) (preppendCorrID s) (isRead s) (sqlhash s) (shard s) (prevShard s) (worker s) v (nss s) (preproc s).
Definition set_nss v s := mkSession (corrID s) (preppendCorrID s) (isRead s) (sqlhash s) (shard s) (prevShard s) (worker s) (inTransaction s) v (preproc s).
Definition set_preproc v s := mkSession (corrID s) (preppendCorrID s) (isRead s) (sqlhash s) (shard s) (prevShard s) (worker s) (inTransaction s) (nss s) v.

Definition NewCoordinator : Session :=
  mkSession None false false 0 (Sharding.mkShard [] [] (-1) 0 0) (Sharding.mkShard [] [] (-1) 0 0) None false []
    (mkPreproc true [] false false).

(** The world of a session: the events to come; the answers of the pools, of writes to
    workers and of writes to the client, and of the questions a fail-over asks; what was
    done so far. *)
Record World := mkWorld {
  events : list event;
  gets : list (go_error + Z * bytes);
  sends : list (option go_error);
  replies : list (option go_error);
  answers : list bool;
  log : list action
}.

Abbreviation St := (Session * World)%type.

Definition gets_s {A} (f : Session → A) : io St A := λ s, (s, Ret (f s.1)).
Definition modify (f : Session → Session) : io St unit := λ s, ((f s.1, s.2), Ret tt).
Definition act (a : action) : io St unit := λ s,
  let w := s.2 in ((s.1, mkWorld (events w) (gets w) (sends w) (replies w) (answers w) (log w ++ [a])), Ret tt).

(** The next event; without one the session waits. *)
Definition next_event : io St event := λ s,
  let w := s.2 in
  match events w with
  | [] => (s, Hang)
  | e :: es => ((s.1, mkWorld es (gets w) (sends w) (replies w) (answers w) (log w ++ [Heard e])), Ret e)
  end.

Definition ask : io St bool := λ s,
  let w := s.2 in
  ((s.1, mkWorld (events w) (gets w) (sends w) (replies w) (tail (answers w)) (log w)), Ret (default false (head (answers w)))).

(** ** Writing *)

(** [worker.Write]: false when the worker is gone. *)
Definition write_worker (w : WorkerRef) (ns : Packet) (cnt : Z) : io St bool := λ s,
  let wd := s.2 in
  let err := default None (head (sends wd)) in
  ((s.1, mkWorld (events wd) (gets wd) (tail (sends wd)) (replies wd) (answers wd)
      (log wd ++ ToWorker w ns cnt :: match err with Some _ => [Lost w] | None => [] end)),
   Ret (match err with Some _ => false | None => true end)).

(** [crd.conn.Write] *)
Definition conn_Write (data : bytes) : io St (option go_error) := λ s,
  let wd := s.2 in
  let err := default None (head (replies wd)) in
  ((s.1, mkWorld (events wd) (gets wd) (sends wd) (tail (replies wd)) (answers wd)
      (log wd ++ match err with Some _ => [] | None => [ToClient data] end)),
   Ret err).

(** [respond]; no caller looks at its error. *)
Definition respond (data : bytes) : io St unit := _ ← conn_Write data; mret tt.

Definition processError (err : option go_error) : io St unit :=
  match err with
  | None => mret tt
  | Some e =>
    if bool_decide (e ∈ [ErrBklgTimeout; ErrBklgEviction; ErrRejectDbDown; ErrSaturationKill; ErrSaturationSoftSQLEviction])
    then respond (Serialized (NewNetstringFrom RcError (Error_text e)))
    else mret tt
  end.

Definition resetWorkerInfo : io St unit := modify (λ s, set_inTransaction false (set_worker None s)).

(** [GetWorker] of a pool; without an answer the session waits in the backlog. *)
Definition GetWorker (p : PoolRef) : io St (go_error + attachment) := λ s,
  let w := s.2 in
  match gets w with
  | [] => (s, Hang)
  | inl e :: gs => ((s.1, mkWorld (events w) gs (sends w) (replies w) (answers w) (log w)), Ret (inl e))
  | inr (id, ticket) :: gs =>
    ((s.1, mkWorld (events w) gs (sends w) (replies w) (answers w) (log w ++ [Got (mkRef p id) p ticket])),
     Ret (inr (mkAtt (mkRef p id) p ticket)))
  end.

Definition ReturnWorker (a : attachment) : io St unit := act (Returned (at_pool a) (at_worker a) (at_ticket a)).

(** [go worker.Recover(pool, ticket, ...)]: the connection is idle from here on. *)
Definition Recover (a : attachment) (param : Z) : io St unit :=
  act (Recovering (at_pool a) (at_worker a) (at_ticket a) param).

(** ** One request *)

(** The atoi of lib/util.go: the leading digits and how many they are. *)
Fixpoint atoi_loop (bf : bytes) (ret i : Z) : Z * Z :=
  match bf with
  | [] => (ret, i)
  | b :: bf =>
    let digit := u8 (b - 48) in
    if (digit <? 0) || (9 <? digit) then (ret, i) else atoi_loop bf (i64 (i64 (ret * 10) + digit)) (i + 1)
  end.

Definition atoi (bf : bytes) : Z * Z := atoi_loop bf 0 0.

Definition retriable : list Z :=
  [3113; 3114; 3135; 12514; 3128; 3127; 3123; 3111; 3106; 1012; 28; 31; 51; 25400; 25401; 25402; 25403; 25404; 25405;
   25407; 25408; 25409; 25425; 24343; 1041; 600; 700; 7445].

Section session.
Context (app : Config) (ops : OpsConfig).
Context (smap : option ShardMap.records) (wlcfg : option (gmap ShardMap.key ShardMap.ShardMapRecord)).
(** The error of [GetWorkerPool], if the broker has no such pool; the log level; the name
    of this host and its pool. *)
Context (broker : PoolRef → option go_error) (info : bool) (hostname poolName : bytes).

(** The bytes a slice of the payload of a packet read by [NewNetstring] can reach: the
    payload and the comma behind it. *)
Definition payload_room (ns : Packet) : bytes := drop (length (Serialized ns) - S (length (Payload ns))) (Serialized ns).

(** What [tafResponsePreproc.Write] finds out from an answer. *)
Definition preproc_reads (bf : bytes) (p : tafResponsePreproc) : result tafResponsePreproc :=
  let p := mkPreproc (tp_ok p) (tp_ora p) (dataSent p) true in
  match (NewNetstring (bytes_NewReader bf)).2 with
  | Ret ns =>
    if negb (dataSent p) && (Cmd ns =? RcSQLError) then
      _ ← (if info then slice (payload_room ns) 0 20 else Ret []);
      let '(ora, sz) := atoi (Payload ns) in
      if bool_decide (ora ∈ retriable) then Ret (mkPreproc false (take (Z.to_nat sz) (Payload ns)) (dataSent p) true)
      else Ret (mkPreproc true (tp_ora p) (dataSent p) true)
    else Ret p
  | Error _ => Ret p
  | Panic => Panic
  | Fatal => Fatal
  | Hang => Hang
  end.

Definition preproc_Write (bf : bytes) : io St (option go_error) :=
  p ← gets_s preproc;
  p ← lift (preproc_reads bf p);
  _ ← modify (set_preproc p);
  if tp_ok p then
    _ ← modify (set_preproc (mkPreproc (tp_ok p) (tp_ora p) true (tp_replied p)));
    conn_Write bf
  else mret None.

(** [clientWriter.Write]: the connection, or the filter of a fail-over. *)
Definition client_Write (via : bool) (bf : bytes) : io St (option go_error) :=
  if via then preproc_Write bf else conn_Write bf.

Definition unset_corrID : Packet := NewNetstringFrom CmdClientCalCorrelationID (str "CorrId=NotSet").

(** The request is sent, after a correlation id if one is due; false when the worker is gone. *)
Definition send_request (w : WorkerRef) (request : Packet) : io St bool :=
  pre ← gets_s preppendCorrID;
  id ← gets_s corrID;
  ok ← (if (pre : bool) then write_worker w (default unset_corrID id) 1 else mret true);
  if negb ok then mret false
  else
    l ← gets_s nss;
    write_worker w request (if negb (IsMySQL request) && IsComposite request then u16 (zlen l) else 1).

(** A packet of the client while its request runs: how many netstrings it has. *)
Definition packet_count (ns : Packet) : result (option Z) :=
  if negb (IsMySQL ns) && IsComposite ns then
    match SubNetstrings ns with
    | Ret l => Ret (Some (zlen l))
    | Error _ => Ret None
    | Panic => Panic
    | Fatal => Fatal
    | Hang => Hang
    end
  else Ret (Some 1).

(** The bytes of a message for the client; the time-out is off once there were any. *)
Definition relay_data (via : bool) (timer : bool) (data : bytes) : io St (option go_error * bool) :=
  match data with
  | [] => mret (None, timer)
  | _ :: rest => err ← client_Write via rest; mret (err, false)
  end.

(** The select of [doRequest]; [timer]: the request has a time-out that is still on. *)
Fixpoint wait_worker (fuel : nat) (w : WorkerRef) (via timer : bool) : io St (bool * option go_error) :=
  match fuel with
  | O => lift Hang
  | S fuel =>
    e ← next_event;
    match e with
    | RequestTimer => if timer then mret (false, Some ErrTimeout) else wait_worker fuel w via timer
    | IdleTimer => _ ← act (DoneMs (GetTrIdleTimeoutMs ops)); mret (false, Some ErrTimeout)
    | Client None => lift Panic
    | Client (Some ns) =>
      cnt ← lift (packet_count ns);
      match cnt with
      | None => mret (false, Some ErrClientFail)
      | Some cnt =>
        ok ← write_worker w ns (u16 cnt);
        if (ok : bool) then wait_worker fuel w via false else mret (false, Some ErrWorkerFail)
      end
    | Cancelled => mret (false, Some ErrCanceled)
    | FromWorker None => lift Panic
    | FromWorker (Some msg) =>
      '(err, timer) ← relay_data via timer (msg_data msg);
      match err with
      | Some _ => mret (false, Some ErrClientFail)
      | None =>
        if msg_free msg then _ ← act (SqlEnd w); mret (false, None)
        else if msg_eor msg then
          _ ← modify (λ s, if isRead s then s else set_inTransaction (msg_inTransaction msg) s);
          mret (true, None)
        else wait_worker fuel w via timer
      end
    | Ctrl None => lift Panic
    | Ctrl (Some msg) =>
      if msg_abort msg then _ ← act (SqlEnd w); mret (false, Some ErrSaturationKill)
      else wait_worker fuel w via timer
    end
  end.

Definition wait_events (w : WorkerRef) (via timer : bool) : io St (bool * option go_error) := λ s,
  wait_worker (S (length (events s.2))) w via timer s.

(** [doRequest]: whether the worker is still busy for the session, and the error. *)
Definition doRequest (w : WorkerRef) (request : Packet) (via timer : bool) : io St (bool * option go_error) :=
  ok ← send_request w request;
  r ← (if (ok : bool) then
         hash ← gets_s sqlhash;
         _ ← act (SqlStart w hash);
         wait_events w via timer
       else mret (false, Some ErrWorkerFail));
  _ ← act (Counted w);
  mret r.

(** ** Commands for the proxy itself *)

Definition server_info : bytes :=
  let host := if 40 <=? zlen hostname then take 39 hostname else hostname in
  poolName ++ str ":load_saved_sessions*CalThreadId=0*TopLevelTxnStartTime=TopLevelTxn not set*Host=" ++ host.

Definition processClientInfoMuxCommand : io St unit := respond (Serialized (NewNetstringFrom RcOK server_info)).

(** The fields that sharding works on. *)
Definition routing (s : Session) : Sharding.Coordinator :=
  Sharding.mkCrd (shard s) (prevShard s) (inTransaction s) ((λ a, pl_shard (wk_pool (at_worker a))) <$> worker s)
    (isRead s) (sqlhash s) [].

Definition rerouted (c : Sharding.Coordinator) (s : Session) : Session :=
  set_inTransaction (Sharding.inTransaction c)
    (set_isRead (Sharding.isRead c)
      (set_sqlhash (Sharding.sqlhash c) (set_shards (Sharding.shard c) (Sharding.prevShard c) s))).

(** The answers sharding has written. *)
Fixpoint respond_all (l : list bytes) : io St unit :=
  match l with
  | [] => mret tt
  | b :: l => _ ← respond b; respond_all l
  end.

Definition processSetShardID (payload : bytes) : io St (option go_error) :=
  c ← gets_s routing;
  let '(c, err) := Sharding.processSetShardID (EnableSharding app) (Config.Sharding app) payload c in
  _ ← modify (rerouted c);
  _ ← respond_all (Sharding.responses c);
  mret err.

Definition PreprocessSharding (requests : list Packet) : io St (option (bool * go_error)) :=
  c ← gets_s routing;
  '(c, err) ← lift (Sharding.PreprocessSharding (Config.Sharding app) smap wlcfg requests c);
  _ ← modify (rerouted c);
  _ ← respond_all (Sharding.responses c);
  mret err.

Definition is_prepare (cmd : Z) : bool := (cmd =? CmdPrepare) || (cmd =? CmdPrepareV2) || (cmd =? CmdPrepareSpecial).

(** [processMuxCommand]: whether the command was handled here. *)
Definition processMuxCommand (request : Packet) : io St bool :=
  if IsMySQL request then
    _ ← lift (slice_from (Serialized request) 1);
    mret false
  else
    let cmd := Cmd request in
    a ← gets_s worker;
    if cmd =? CmdClientCalCorrelationID then _ ← modify (set_corrID (Some request)); mret true
    else if cmd =? CmdServerPingCommand then _ ← respond (str "4:1009,"); mret true
    else if cmd =? CmdBacktrace then mret true
    else if cmd =? CmdClientInfo then _ ← processClientInfoMuxCommand; mret true
    else if (cmd =? CmdCommit) || (cmd =? CmdRollback) then
      match a with
      | Some _ => mret false
      | None => _ ← respond (str "1:5,"); mret true
      end
    else if cmd =? CmdFetch then
      match a with
      | Some _ => mret false
      | None => _ ← respond (str "41:2 fetch requested but no statement exists,"); mret true
      end
    else if is_prepare cmd then mret false
    else if cmd =? CmdSetShardID then
      err ← processSetShardID (Payload request);
      match err with
      | None => _ ← respond (str "1:5,"); mret true
      | Some e =>
        _ ← respond (Serialized (NewNetstringFrom RcError (Error_text e)));
        _ ← act CloseConn;
        mret true
      end
    else if cmd =? CmdGetNumShards then
      _ ← respond (Serialized (NewNetstringFrom RcOK (itoa (NumOfShards (Config.Sharding app)))));
      mret true
    else mret true.

(** A prepare inside a composite request. *)
Definition mux_prepare (ns : Packet) (requests : list Packet) : io St bool :=
  _ ← modify (λ s, set_isRead (SqlParser.IsRead (Payload ns)) (set_sqlhash (i32 (SQLHash.GetSQLHash (Payload ns))) s));
  if EnableSharding app then
    err ← PreprocessSharding requests;
    match err with
    | None => mret false
    | Some (hangup, _) =>
      _ ← (if (hangup : bool) then act CloseConn else mret tt);
      mret true
    end
  else mret false.

(** The loop over the parts of a composite request. *)
Fixpoint mux_parts (all l : list Packet) : io St bool :=
  match l with
  | [] => mret true
  | ns :: l =>
    if is_prepare (Cmd ns) then mux_prepare ns all
    else
      handled ← processMuxCommand ns;
      if (handled : bool) then mux_parts all l
      else
        _ ← modify (λ s, if bool_decide (Cmd <$> head all = Some CmdClientCalCorrelationID) then set_preppend false s else s);
        mret false
  end.

(** [handleMux]; its error is not looked at, and a composite request that cannot be taken
    apart is passed on. *)
Definition handleMux (request : Packet) : io St bool :=
  _ ← modify (set_isRead false);
  if negb (IsMySQL request) then
    _ ← modify (λ s, set_preppend (match worker s with None => true | Some _ => false end) s);
    if IsComposite request then
      match SubNetstrings request with
      | Ret l => _ ← modify (set_nss l); mux_parts l l
      | Error _ => mret false
      | Panic => lift Panic
      | Fatal => lift Fatal
      | Hang => lift Hang
      end
    else
      _ ← modify (set_nss []);
      if is_prepare (Cmd request) then _ ← modify (set_isRead (SqlParser.IsRead (Payload request))); mret false
      else processMuxCommand request
  else
    _ ← modify (set_nss []);
    if Cmd request =? COM_STMT_PREPARE then
      sql ← lift (slice_from (Payload request) 1);
      _ ← modify (set_isRead (SqlParser.IsRead sql));
      mret false
    else processMuxCommand request.

(** ** Dispatch *)

(** The first part that fetches with a size, with the size taken out. *)
Fixpoint remove_fetch (l : list Packet) : option (list Packet) :=
  match l with
  | [] => None
  | ns :: l =>
    if (Cmd ns =? CmdFetch) && negb (bool_decide (Payload ns = str "0")) then
      Some (mkPacket (Cmd ns) (str "3:7 0,") (str "0") (Length ns) (Sqid ns) (IsMySQL ns) :: l)
    else cons ns <$> remove_fetch l
  end.

Definition removeFetchSize (request : Packet) : io St Packet :=
  l ← gets_s nss;
  match remove_fetch l with
  | None => mret request
  | Some l => _ ← modify (set_nss l); mret (NewNetstringEmbedded l)
  end.

Definition get_from (p : PoolRef) : io St (go_error + attachment) :=
  match broker p with
  | Some e => mret (inl e)
  | None => GetWorker p
  end.

(** What becomes of a worker after a request that did not keep it. *)
Definition release (a : attachment) (err : option go_error) : io St unit :=
  match err with
  | None => ReturnWorker a
  | Some e =>
    if bool_decide (e = ErrWorkerFail) then mret tt
    else Recover a (if bool_decide (e = ErrSaturationKill) then StrandedSaturationRecover else StrandedClientClose)
  end.

(** A request on the worker of the session, or on one that becomes its worker. *)
Definition request_on (a : attachment) (request : Packet) : io St (option go_error) :=
  '(wait, err) ← doRequest (at_worker a) request false false;
  if (wait : bool) then
    _ ← modify (set_worker (Some a));
    mret None
  else
    _ ← resetWorkerInfo;
    _ ← act (MadeIdle (at_worker a));
    _ ← release a err;
    mret err.

(** A read on another shard during a transaction: on a worker of its own, which is given
    back at once. *)
Definition cross_shard_read (a : attachment) (request : Packet) : io St (option go_error) :=
  request ← (if negb (IsMySQL request) then removeFetchSize request else mret request);
  '(wait, err) ← doRequest (at_worker a) request false false;
  _ ← modify (λ s, set_inTransaction true (set_shards (prevShard s) (prevShard s) s));
  _ ← act (MadeIdle (at_worker a));
  if (wait : bool) then _ ← Recover a StrandedClientClose; mret None
  else
    _ ← (match err with None => mret tt | Some _ => modify (set_inTransaction false) end);
    _ ← release a err;
    mret err.

Definition dispatchRequest (request : Packet) : io St (option go_error) :=
  s ← gets_s id;
  let sid := Sharding.shardID (shard s) in
  let reads := if ReadonlyPct app =? 0 then wtypeRW else wtypeRO in
  match worker s with
  | None =>
    g ← get_from (mkPool (if isRead s then reads else wtypeRW) sid);
    match g with
    | inl e => mret (Some e)
    | inr a => request_on a request
    end
  | Some a =>
    if isRead s && negb (sid =? pl_shard (wk_pool (at_worker a))) then
      g ← get_from (mkPool reads sid);
      match g with
      | inl e => mret (Some e)
      | inr a => cross_shard_read a request
      end
    else request_on a request
  end.

(** ** Fail-over *)

(** After the primary: [Some] is the result of the session, [None] goes on to the fallback. *)
Definition primary_done (a : attachment) (wait : bool) (err : option go_error) : io St (option (option go_error)) :=
  p ← gets_s preproc;
  if wait then
    if TestingEnableDMLTaf app then
      _ ← modify (set_worker (Some a));
      _ ← act (if tp_ok p then TafOK else TafError);
      mret (Some None)
    else
      _ ← act (MadeIdle (at_worker a));
      _ ← Recover a StrandedClientClose;
      mret (Some (Some ErrDML))
  else
    _ ← act (MadeIdle (at_worker a));
    hash ← gets_s sqlhash;
    _ ← (if bool_decide (err = Some ErrTimeout) && (0 <? TAFBinDuration (TAF app)) then
           high ← ask; if (high : bool) then act (TafTimeout hash) else mret tt
         else mret tt);
    _ ← release a err;
    match err with
    | None => if tp_ok p then _ ← act TafOK; mret (Some None) else _ ← act TafError; mret None
    | Some e =>
      if dataSent p then mret (Some err)
      else if bool_decide (e = ErrTimeout) then _ ← act TafError; mret None
      else if bool_decide (e = ErrWorkerFail) && negb (tp_ok p) then _ ← act TafError; mret None
      else mret (Some err)
    end.

(** The primary is asked if it is chosen and healthy; [ticket] is that of its worker, and
    stays empty when there is none. *)
Definition try_primary (primary : PoolRef) (request : Packet) : io St (option (option go_error) * bytes) :=
  use ← ask;
  healthy ← (if (use : bool) then ask else mret false);
  if negb healthy then mret (None, [])
  else
    g ← GetWorker primary;
    match g with
    | inl _ => mret (None, [])
    | inr a =>
      _ ← modify (set_preproc (mkPreproc true [] false false));
      '(wait, err) ← doRequest (at_worker a) request true true;
      r ← primary_done a wait err;
      mret (r, at_ticket a)
    end.

(** The fallback; a worker it leaves in a transaction is recovered into the primary pool,
    with the ticket of the primary. *)
Definition try_fallback (primary fallback : PoolRef) (ticket : bytes) (request : Packet) : io St (option go_error) :=
  g ← GetWorker fallback;
  match g with
  | inl e => mret (Some e)
  | inr a =>
    '(wait, err) ← doRequest (at_worker a) request false false;
    if (wait : bool) then
      if TestingEnableDMLTaf app then _ ← modify (set_worker (Some a)); mret None
      else
        _ ← act (MadeIdle (at_worker a));
        _ ← Recover (mkAtt (at_worker a) primary ticket) StrandedClientClose;
        mret (Some ErrDML)
    else
      _ ← act (MadeIdle (at_worker a));
      _ ← release a err;
      mret err
  end.

Definition DispatchTAFSession (request : Packet) : io St (option go_error) :=
  request ← removeFetchSize request;
  sid ← gets_s (λ s, Sharding.shardID (shard s));
  let primary := mkPool wtypeRW sid in
  let fallback := mkPool wtypeStdBy sid in
  match broker primary with
  | Some e => mret (Some e)
  | None =>
    hash ← gets_s sqlhash;
    _ ← (if 0 <? TAFBinDuration (TAF app) then act (TafAsked hash) else mret tt);
    healthy ← (match broker fallback with Some _ => mret false | None => ask end);
    if negb healthy then dispatchRequest request
    else
      '(r, ticket) ← try_primary primary request;
      match r with
      | Some err => mret err
      | None => try_fallback primary fallback ticket request
      end
  end.

(** [dispatch]: whether the session goes on. *)
Definition dispatch (request : Packet) : io St bool :=
  a ← gets_s worker;
  err ← (match a with
         | None => if EnableTAF app then DispatchTAFSession request else dispatchRequest request
         | Some _ => dispatchRequest request
         end);
  _ ← processError err;
  mret (match err with None => true | Some _ => false end).

(** ** The main loop *)

Definition idle_worker (a : option attachment) : io St unit :=
  match a with Some a => act (MadeIdle (at_worker a)) | None => mret tt end.

(** A request of the client: [None] when it was for the proxy, otherwise whether the
    session goes on. *)
Definition on_client (ns : Packet) : io St (option bool) :=
  _ ← modify (set_nss []);
  handled ← handleMux ns;
  if (handled : bool) then mret None
  else
    s ← gets_s id;
    _ ← (match worker s with
         | Some a =>
           if negb (inTransaction s) && IsComposite ns then
             _ ← act (MadeIdle (at_worker a)); _ ← Recover a StrandedSwitch; resetWorkerInfo
           else mret tt
         | None => mret tt
         end);
    running ← dispatch ns;
    mret (Some running).

(** A message of the attached worker outside a request; false ends the session. *)
Definition on_worker (msg : workerMsg) : io St bool :=
  _ ← modify (λ s, if isRead s then s else set_inTransaction (msg_inTransaction msg) s);
  a ← gets_s worker;
  err ← (match msg_data msg with [] => mret None | data => conn_Write data end);
  match err with
  | Some _ =>
    _ ← idle_worker a;
    _ ← (match a with Some a => Recover a StrandedClientClose | None => mret tt end);
    mret false
  | None =>
    if msg_free msg then
      match a with
      | None => lift Panic
      | Some a =>
        _ ← act (SqlEnd (at_worker a));
        _ ← act (MadeIdle (at_worker a));
        _ ← ReturnWorker a;
        _ ← resetWorkerInfo;
        mret true
      end
    else mret true
  end.

(** An abort from the saturation recovery. *)
Definition on_abort : io St unit :=
  a ← gets_s worker;
  _ ← (match a with
       | Some a =>
         _ ← act (SqlEnd (at_worker a));
         _ ← act (MadeIdle (at_worker a));
         _ ← Recover a StrandedSaturationRecover;
         resetWorkerInfo
       | None => mret tt
       end);
  processError (Some ErrSaturationKill).

(** The closed control channel of the attached worker. *)
Definition on_ctrl_closed : io St unit :=
  a ← gets_s worker;
  match a with
  | Some a => _ ← act (Lost (at_worker a)); act (MadeIdle (at_worker a))
  | None => mret tt
  end.

(** The time-out the idle timer is set to. *)
Definition idle_ms (s : Session) : Z := match worker s with Some _ => GetTrIdleTimeoutMs ops | None => GetIdleTimeoutMs ops end.

(** The loop of [Run]: [listening] is whether the channels of a worker are selected,
    [idle] the setting of the idle timer, until it has fired. *)
Fixpoint run_loop (fuel : nat) (listening : bool) (idle : option Z) : io St unit :=
  match fuel with
  | O => lift Hang
  | S fuel =>
    e ← next_event;
    match e with
    | Client None => lift Panic
    | Client (Some ns) =>
      running ← on_client ns;
      s ← gets_s id;
      let idle := idle ≫= λ _, Some (idle_ms s) in
      match running with
      | None => run_loop fuel listening idle
      | Some true => run_loop fuel (match worker s with Some _ => true | None => false end) idle
      | Some false => mret tt
      end
    | IdleTimer =>
      match idle with
      | None => run_loop fuel listening idle
      | Some ms => _ ← act (DoneMs ms); run_loop fuel listening None
      end
    | FromWorker m =>
      if negb listening then run_loop fuel listening idle
      else
        match m with
        | None => lift Panic
        | Some msg =>
          running ← on_worker msg;
          if negb running then mret tt
          else if msg_free msg then run_loop fuel false (idle ≫= λ _, Some (GetIdleTimeoutMs ops))
          else run_loop fuel listening idle
        end
    | Ctrl m =>
      if negb listening then run_loop fuel listening idle
      else
        match m with
        | None => on_ctrl_closed
        | Some msg => if msg_abort msg then on_abort else run_loop fuel listening idle
        end
    | RequestTimer | Cancelled => run_loop fuel listening idle
    end
  end.

(** [Run]; the connection is closed when it returns. *)
Definition Run : io St unit := λ s,
  (_ ← run_loop (S (length (events s.2))) false (Some (GetIdleTimeoutMs ops)); act CloseConn) s.

End session.
End Coordinator.
