(* ===== verification/CoordinatorFacts.v ===== *)
(** * Workers of a session (lib/coordinator.go): each is used only while it is held and given
    back once; what the client is sent; and the ways a session ends. *)

From S2P Require Import Prelude GoIO Codes Netstring ConfigFile Config ShardMap Sharding WorkerClient Regexp SqlParser Fmt Coordinator.
From stdpp Require Import base list gmap strings.
From Stdlib Require Import ZArith Lia.
Open Scope Z_scope.

Module CoordinatorFacts.
Import Codes Netstring Config WorkerClient Coordinator.

(** ** The ledger of workers *)

Fixpoint remove1 {A} (P : A → Prop) `{!∀ x, Decision (P x)} (l : list A) : option (list A) :=
  match l with
  | [] => None
  | x :: l => if decide (P x) then Some l else cons x <$> remove1 P l
  end.

(** The workers held after an action, when at most [n] may be held: a worker must be held to
    be written to, and is given back with the pool and the ticket it was got with. *)
Definition ledger_step (n : nat) (h : list attachment) (a : action) : option (list attachment) :=
  match a with
  | Got w p t => if decide (length h < n)%nat then Some (mkAtt w p t :: h) else None
  | ToWorker w _ _ | SqlStart w _ => if decide (w ∈ at_worker <$> h) then Some h else None
  | Returned p w t | Recovering p w t _ => remove1 (λ b, b = mkAtt w p t) h
  | Lost w => remove1 (λ b, at_worker b = w) h
  | _ => Some h
  end.

Fixpoint ledger (n : nat) (l : list action) (h : list attachment) : option (list attachment) :=
  match l with
  | [] => Some h
  | a :: l => ledger_step n h a ≫= ledger n l
  end.

Lemma ledger_app n l1 l2 h : ledger n (l1 ++ l2) h = ledger n l1 h ≫= ledger n l2.
Proof. revert h. induction l1 as [|a l1 IH]; intros h; cbn; [done|]. destruct (ledger_step n h a); cbn; [apply IH|done]. Qed.

Section facts.
Context (app : Config) (ops : OpsConfig).
Context (smap : option ShardMap.records) (wlcfg : option (gmap ShardMap.key ShardMap.ShardMapRecord)).
Context (broker : PoolRef → option go_error) (info : bool) (hostname poolName : bytes).

(** ** Steps that leave the kind of the statement *)

Definition reading (b : bool) (s : St) : Prop := isRead s.1 = b.

Lemma reading_mret {A} b (a : A) : keeps (reading b) (mret a).
Proof. apply keeps_mret. Qed.

Lemma reading_gets {A} b (f : Session → A) : keeps (reading b) (gets_s f).
Proof. by intros s. Qed.

Lemma reading_modify b f : (∀ s, isRead (f s) = isRead s) → keeps (reading b) (modify f).
Proof. intros Hf s Hs. unfold reading in *. cbn. by rewrite Hf. Qed.

Lemma reading_act b a : keeps (reading b) (act a).
Proof. by intros s. Qed.

Lemma reading_next_event b : keeps (reading b) next_event.
Proof. intros s Hs. unfold next_event. by destruct (events s.2). Qed.

Lemma reading_conn_Write b data : keeps (reading b) (conn_Write data).
Proof. by intros s. Qed.

Lemma reading_write_worker b w ns cnt : keeps (reading b) (write_worker w ns cnt).
Proof. by intros s. Qed.

Lemma reading_GetWorker b p : keeps (reading b) (GetWorker p).
Proof. intros s Hs. unfold GetWorker. by destruct (gets s.2) as [|[?|[? ?]] ?]. Qed.

Ltac keep_reading :=
  repeat match goal with
  | |- keeps _ (mbind _ _) => apply keeps_bind; [|intros ?]
  | |- keeps _ (mret _) => apply keeps_mret
  | |- keeps _ (lift _) => apply keeps_lift
  | |- keeps _ (gets_s _) => apply reading_gets
  | |- keeps _ (act _) => apply reading_act
  | |- keeps _ next_event => apply reading_next_event
  | |- keeps _ (conn_Write _) => apply reading_conn_Write
  | |- keeps _ (write_worker _ _ _) => apply reading_write_worker
  | |- keeps _ (GetWorker _) => apply reading_GetWorker
  | |- keeps _ (modify _) => apply reading_modify; intros ?; by repeat case_match
  | |- keeps _ (match ?x with _ => _ end) => destruct x eqn:?
  | |- _ => progress unfold relay_data, client_Write, preproc_Write, send_request, respond, get_from, release, ReturnWorker, Recover
  end.

Lemma reading_wait_worker b fuel w via timer : keeps (reading b) (wait_worker ops info fuel w via timer).
Proof. revert timer. induction fuel as [|fuel IH]; intros timer; cbn [wait_worker]; keep_reading; apply IH. Qed.

Lemma reading_doRequest b w request via timer : keeps (reading b) (doRequest ops info w request via timer).
Proof. unfold doRequest. keep_reading. intros s Hs. by apply reading_wait_worker. Qed.

Lemma reading_cross_shard_read b a request : keeps (reading b) (cross_shard_read ops info a request).
Proof. unfold cross_shard_read, removeFetchSize. keep_reading. apply reading_doRequest. Qed.

Lemma reading_get_from b p : keeps (reading b) (get_from broker p).
Proof. unfold get_from. keep_reading. Qed.

Lemma reading_processError b err : keeps (reading b) (processError err).
Proof. unfold processError. keep_reading. Qed.

Section limit.
Context (n : nat).

(** What the ledger says, and the parts of the session that routing and the worker are. *)
Definition frame (s : Session) : option attachment * Sharding.shardInfo * Sharding.shardInfo :=
  (worker s, shard s, prevShard s).

Definition at_ (h : list attachment) (fr : option attachment * Sharding.shardInfo * Sharding.shardInfo) (s : St) : Prop :=
  ledger n (log s.2) [] = Some h ∧ frame s.1 = fr.

Definition sound (s : St) : Prop := is_Some (ledger n (log s.2) []).

(** From [P], the log stays sound whatever happens, and a result meets [Q]. *)
Definition triple {A} (P : St → Prop) (m : io St A) (Q : A → St → Prop) : Prop := ∀ s, P s →
  sound (m s).1 ∧ ∀ a, (m s).2 = Ret a → Q a (m s).1.

Lemma at_sound h fr s : at_ h fr s → sound s.
Proof. intros [E _]. by eexists. Qed.

Lemma triple_bind {A B} P (m : io St A) R (f : A → io St B) Q :
  triple P m R → (∀ a, triple (R a) (f a) Q) → triple P (m ≫= f) Q.
Proof.
  intros Hm Hf s Hs. destruct (Hm s Hs) as [H1 H2]. unfold mbind, io_bind.
  destruct (m s) as [s' [a| | | |]]; cbn [fst snd] in *; try (split; [done|naive_solver]). by apply Hf, H2.
Qed.

Lemma triple_conseq {A} (P P' : St → Prop) (m : io St A) (Q Q' : A → St → Prop) :
  triple P m Q → (∀ s, P' s → P s) → (∀ a s, Q a s → Q' a s) → triple P' m Q'.
Proof. intros Hm HP HQ s Hs. destruct (Hm s (HP s Hs)). split; [done|]. intros a E. by apply HQ, H0. Qed.

Lemma triple_mret {A} h fr (a : A) (Q : A → St → Prop) : (∀ s, at_ h fr s → Q a s) → triple (at_ h fr) (mret a) Q.
Proof. intros HQ s Hs. split; [exact (at_sound _ _ _ Hs)|]. intros b [= <-]. by apply HQ. Qed.

Lemma triple_lift {A} h fr (r : result A) : triple (at_ h fr) (lift r) (λ a s, r = Ret a ∧ at_ h fr s).
Proof. intros s Hs. split; [exact (at_sound _ _ _ Hs)|]. intros b E. done. Qed.

Lemma triple_gets {A} h fr (f : Session → A) : triple (at_ h fr) (gets_s f) (λ a s, a = f s.1 ∧ at_ h fr s).
Proof. intros s Hs. split; [exact (at_sound _ _ _ Hs)|]. intros b [= <-]. done. Qed.

Lemma triple_gets_bind {A B} P (f : Session → A) (k : A → io St B) Q :
  (∀ s, P s → triple P (k (f s.1)) Q) → triple P (gets_s f ≫= k) Q.
Proof. intros Hk s Hs. exact (Hk s Hs s Hs). Qed.

(** The same, remembering the session that was read. *)
Lemma triple_get_bind {B} P (k : Session → io St B) Q :
  (∀ s, triple (λ s', P s' ∧ s'.1 = s) (k s) Q) → triple P (gets_s id ≫= k) Q.
Proof. intros Hk s Hs. exact (Hk s.1 s (conj Hs eq_refl)). Qed.

Lemma triple_reading {A} b P (m : io St A) Q : triple P m Q → keeps (reading b) m →
  triple (λ s, P s ∧ reading b s) m (λ a s, Q a s ∧ reading b s).
Proof. intros Hm Hk s [Hs Hr]. destruct (Hm s Hs). split; [done|]. intros a E. split; [by auto|by apply Hk]. Qed.

Lemma triple_lift_bind {A B} h fr (r : result A) (k : A → io St B) Q :
  (∀ a, r = Ret a → triple (at_ h fr) (k a) Q) → triple (at_ h fr) (lift r ≫= k) Q.
Proof.
  intros Hk. eapply triple_bind; [apply triple_lift|]. intros a s [E Hs]. by apply (Hk a E).
Qed.

(** Steps that do not touch the frame. *)
Lemma triple_modify_frame h fr f : (∀ s, frame (f s) = frame s) → triple (at_ h fr) (modify f) (λ _, at_ h fr).
Proof. intros Hf s [H1 H2]. split; [by eexists|]. intros [] _. split; [done|]. cbn. by rewrite Hf. Qed.

Lemma triple_act h fr a h' : ledger_step n h a = Some h' → triple (at_ h fr) (act a) (λ _, at_ h' fr).
Proof.
  intros E s [H1 H2]. assert (ledger n (log s.2 ++ [a]) [] = Some h') as E2 by (rewrite ledger_app, H1; cbn; by rewrite E).
  split; [by eexists|]. by intros [] _.
Qed.

(** ** The steps of the session *)

Lemma t_next_event h fr : triple (at_ h fr) next_event (λ _, at_ h fr).
Proof.
  intros s [H1 H2]. unfold next_event. destruct (events s.2) as [|e es]; [split; [by eexists|done]|].
  assert (ledger n (log s.2 ++ [Heard e]) [] = Some h) as E by (by rewrite ledger_app, H1). split; [by eexists|done].
Qed.

Lemma t_ask h fr : triple (at_ h fr) ask (λ _, at_ h fr).
Proof. intros s [H1 H2]. split; [by eexists|done]. Qed.

Lemma t_conn_Write h fr data : triple (at_ h fr) (conn_Write data) (λ _, at_ h fr).
Proof.
  intros s [H1 H2]. unfold conn_Write. set (err := default None _).
  assert (ledger n (log s.2 ++ match err with Some _ => [] | None => [ToClient data] end) [] = Some h) as E
    by (rewrite ledger_app, H1; by destruct err).
  split; [by eexists|]. by intros ? _.
Qed.

Lemma t_write_worker a h fr ns cnt :
  triple (at_ (a :: h) fr) (write_worker (at_worker a) ns cnt) (λ ok, at_ (if ok : bool then a :: h else h) fr).
Proof.
  intros s [H1 H2]. unfold write_worker. set (err := default None _). set (l := log s.2 ++ _).
  assert (ledger n l [] = Some (match err with Some _ => h | None => a :: h end)) as E.
  { unfold l. rewrite ledger_app, H1. cbn. rewrite decide_True by (by left). destruct err; cbn; [|done].
    by rewrite decide_True. }
  split; [by eexists|]. intros ok [= <-]. split; [|done]. cbn. rewrite E. by destruct err.
Qed.

Lemma t_GetWorker h fr p : (length h < n)%nat → triple (at_ h fr) (GetWorker p) (λ r s,
  match r with inl _ => at_ h fr s | inr a => at_ (a :: h) fr s ∧ wk_pool (at_worker a) = p end).
Proof.
  intros Hn s [H1 H2]. unfold GetWorker. destruct (gets s.2) as [|[e|[id t]] gs]; [by split; [eexists|]| |].
  - split; [by eexists|]. by intros ? [= <-].
  - assert (ledger n (log s.2 ++ [Got (mkRef p id) p t]) [] = Some (mkAtt (mkRef p id) p t :: h)) as E
      by (rewrite ledger_app, H1; cbn; by rewrite decide_True).
    split; [by eexists|]. by intros ? [= <-].
Qed.

Lemma t_get_from h fr p : (length h < n)%nat → triple (at_ h fr) (get_from broker p) (λ r s,
  match r with inl _ => at_ h fr s | inr a => at_ (a :: h) fr s ∧ wk_pool (at_worker a) = p end).
Proof. intros Hn. unfold get_from. destruct (broker p); [by apply triple_mret|by apply t_GetWorker]. Qed.

Lemma t_Recover a h fr param : triple (at_ (a :: h) fr) (Recover a param) (λ _, at_ h fr).
Proof. apply triple_act. cbn. destruct a. by rewrite decide_True. Qed.

Lemma t_ReturnWorker a h fr : triple (at_ (a :: h) fr) (ReturnWorker a) (λ _, at_ h fr).
Proof. apply triple_act. cbn. destruct a. by rewrite decide_True. Qed.

Ltac tseq R := apply (triple_bind _ _ (λ _, R)); [|intros ?].

Lemma t_respond h fr data : triple (at_ h fr) (respond data) (λ _, at_ h fr).
Proof. unfold respond. tseq (at_ h fr); [apply t_conn_Write|by apply triple_mret]. Qed.

Lemma t_processError h fr err : triple (at_ h fr) (processError err) (λ _, at_ h fr).
Proof. unfold processError. destruct err; [|by apply triple_mret]. case_bool_decide; [apply t_respond|by apply triple_mret]. Qed.

Lemma t_client_Write h fr via data : triple (at_ h fr) (client_Write info via data) (λ _, at_ h fr).
Proof.
  unfold client_Write, preproc_Write. destruct via; [|apply t_conn_Write].
  apply triple_gets_bind. intros s _. apply triple_lift_bind. intros q _.
  tseq (at_ h fr); [by apply triple_modify_frame|]. destruct (tp_ok q); [|by apply triple_mret].
  tseq (at_ h fr); [by apply triple_modify_frame|]. apply t_conn_Write.
Qed.

Lemma t_relay_data h fr via timer data : triple (at_ h fr) (relay_data info via timer data) (λ _, at_ h fr).
Proof.
  unfold relay_data. destruct data as [|x data]; [by apply triple_mret|].
  tseq (at_ h fr); [apply t_client_Write|by apply triple_mret].
Qed.

(** The workers held after a request on [a]: a worker that failed is gone. *)
Definition left_after (a : attachment) (h : list attachment) (err : option go_error) : list attachment :=
  if bool_decide (err = Some ErrWorkerFail) then h else a :: h.

Definition after_request (a : attachment) (h : list attachment) fr (r : bool * option go_error) (s : St) : Prop :=
  at_ (left_after a h r.2) fr s ∧ (r.1 = true → r.2 = None).

Lemma t_wait_worker fuel a h fr via timer :
  triple (at_ (a :: h) fr) (wait_worker ops info fuel (at_worker a) via timer) (after_request a h fr).
Proof.
  revert timer. induction fuel as [|fuel IH]; intros timer; cbn [wait_worker].
  { intros s Hs. by split; [exact (at_sound _ _ _ Hs)|]. }
  tseq (at_ (a :: h) fr); [apply t_next_event|]. destruct a0 as [[ns|]|[msg|]|[msg|]| | |].
  - apply triple_lift_bind. intros [cnt|] _; [|by apply triple_mret; split].
    eapply triple_bind; [apply t_write_worker|]. intros [|]; [apply IH|by apply triple_mret; split].
  - intros s Hs. by split; [exact (at_sound _ _ _ Hs)|].
  - tseq (at_ (a :: h) fr); [apply t_relay_data|]. destruct a0 as [[e|] timer']; [by apply triple_mret; split|].
    destruct (msg_free msg).
    { tseq (at_ (a :: h) fr); [by apply triple_act|by apply triple_mret; split]. }
    destruct (msg_eor msg); [|apply IH].
    tseq (at_ (a :: h) fr); [apply triple_modify_frame; intros s; by destruct (isRead s)|by apply triple_mret; split].
  - intros s Hs. by split; [exact (at_sound _ _ _ Hs)|].
  - destruct (msg_abort msg); [|apply IH]. tseq (at_ (a :: h) fr); [by apply triple_act|by apply triple_mret; split].
  - intros s Hs. by split; [exact (at_sound _ _ _ Hs)|].
  - tseq (at_ (a :: h) fr); [by apply triple_act|by apply triple_mret; split].
  - destruct timer; [by apply triple_mret; split|apply IH].
  - by apply triple_mret; split.
Qed.

Lemma t_send_request a h fr request :
  triple (at_ (a :: h) fr) (send_request (at_worker a) request) (λ ok, at_ (if ok : bool then a :: h else h) fr).
Proof.
  unfold send_request. apply triple_gets_bind. intros s _. apply triple_gets_bind. intros s' _.
  apply (triple_bind _ _ (λ ok, at_ (if ok : bool then a :: h else h) fr)).
  { destruct (preppendCorrID s.1); [apply t_write_worker|by apply triple_mret]. }
  intros [|]; cbn [negb]; [|by apply triple_mret]. apply triple_gets_bind. intros s2 _. apply t_write_worker.
Qed.

Lemma t_doRequest a h fr request via timer :
  triple (at_ (a :: h) fr) (doRequest ops info (at_worker a) request via timer) (after_request a h fr).
Proof.
  unfold doRequest. eapply triple_bind; [apply t_send_request|]. intros ok.
  apply (triple_bind _ _ (after_request a h fr)).
  - destruct ok; [|by apply triple_mret; split]. apply triple_gets_bind. intros s _.
    tseq (at_ (a :: h) fr); [apply triple_act; cbn; by rewrite decide_True by (by left)|].
    intros s' Hs'. by apply t_wait_worker.
  - intros r. apply (triple_bind _ _ (λ _, after_request a h fr r)).
    + intros s' [Hs' Hw]. destruct (triple_act _ _ (Counted (at_worker a)) _ eq_refl s' Hs') as [H1 H2].
      split; [done|]. intros u E. split; [by apply (H2 u)|done].
    + intros _ s' Hs'. split; [by eapply at_sound, Hs'|]. by intros ? [= <-].
Qed.

Lemma t_release a h fr err : triple (at_ (left_after a h err) fr) (release a err) (λ _, at_ h fr).
Proof.
  unfold left_after, release. destruct err as [e|]; [|apply t_ReturnWorker].
  repeat case_bool_decide; simplify_eq; try done; try apply t_Recover. by apply triple_mret.
Qed.

Lemma t_modify_to h wk sh psh f wk' sh' psh' : (∀ s, frame s = (wk, sh, psh) → frame (f s) = (wk', sh', psh')) →
  triple (at_ h (wk, sh, psh)) (modify f) (λ _, at_ h (wk', sh', psh')).
Proof. intros Hf s [H1 H2]. split; [by eexists|]. intros [] _. split; [done|]. cbn. by apply Hf. Qed.

Lemma t_resetWorkerInfo h wk sh psh : triple (at_ h (wk, sh, psh)) resetWorkerInfo (λ _, at_ h (None, sh, psh)).
Proof. apply t_modify_to. by intros s [= <- <- <-]. Qed.

(** A precondition that holds only under a condition. *)
Lemma triple_pre {A} (φ : Prop) P (m : io St A) Q : (φ → triple P m Q) → triple (λ s, P s ∧ φ) m Q.
Proof. intros Hm s [Hs Hφ]. by apply Hm. Qed.

Definition opt (wk : option attachment) : list attachment := match wk with Some a => [a] | None => [] end.

Lemma t_request_on a wk sh psh request :
  triple (at_ [a] (wk, sh, psh)) (request_on ops info a request)
    (λ err s, ∃ wk', at_ (opt wk') (wk', sh, psh) s ∧ (wk' = None ∨ wk' = Some a) ∧ (err ≠ None → wk' = None)).
Proof.
  unfold request_on. eapply triple_bind; [apply t_doRequest|]. intros [wait err]. unfold after_request. cbn [fst snd].
  destruct wait.
  - apply (triple_conseq (λ s, at_ (left_after a [] err) (wk, sh, psh) s ∧ err = None) _ _ (λ r s, at_ [a] (Some a, sh, psh) s ∧ r = None));
      [|naive_solver|intros r s [? ->]; exists (Some a); naive_solver].
    apply triple_pre. intros ->. tseq (at_ [a] (Some a, sh, psh)).
    + apply t_modify_to. by intros s [= <- <- <-].
    + by apply triple_mret.
  - apply (triple_conseq (at_ (left_after a [] err) (wk, sh, psh)) _ _ (λ _, at_ [] (None, sh, psh)));
      [|naive_solver|intros r s ?; exists None; naive_solver].
    tseq (at_ (left_after a [] err) (None, sh, psh)); [apply t_resetWorkerInfo|].
    tseq (at_ (left_after a [] err) (None, sh, psh)); [by apply triple_act|].
    tseq (at_ [] (None, sh, psh)); [apply t_release|by apply triple_mret].
Qed.

Lemma t_removeFetchSize h fr request : triple (at_ h fr) (removeFetchSize request) (λ _, at_ h fr).
Proof.
  unfold removeFetchSize. apply triple_gets_bind. intros s _. destruct (remove_fetch _); [|by apply triple_mret].
  tseq (at_ h fr); [by apply triple_modify_frame|by apply triple_mret].
Qed.

Lemma t_cross_shard_read a h wk sh psh request :
  triple (at_ (a :: h) (wk, sh, psh)) (cross_shard_read ops info a request) (λ _, at_ h (wk, psh, psh)).
Proof.
  unfold cross_shard_read. tseq (at_ (a :: h) (wk, sh, psh)).
  { destruct (negb _); [apply t_removeFetchSize|by apply triple_mret]. }
  eapply triple_bind; [apply t_doRequest|]. intros [wait err]. unfold after_request. cbn [fst snd].
  apply (triple_conseq (λ s, at_ (left_after a h err) (wk, sh, psh) s ∧ (wait = true → err = None)) _ _ (λ _, at_ h (wk, psh, psh)));
    [|naive_solver|done].
  apply triple_pre. intros Hw. tseq (at_ (left_after a h err) (wk, psh, psh)).
  { apply t_modify_to. by intros s [= <- <- <-]. }
  tseq (at_ (left_after a h err) (wk, psh, psh)); [by apply triple_act|]. destruct wait.
  - rewrite Hw by done. tseq (at_ h (wk, psh, psh)); [apply t_Recover|by apply triple_mret].
  - tseq (at_ (left_after a h err) (wk, psh, psh)).
    { destruct err; [by apply triple_modify_frame|by apply triple_mret]. }
    tseq (at_ h (wk, psh, psh)); [apply t_release|by apply triple_mret].
Qed.

(** ** The invariant of a session *)

(** Without sharding everything is on shard 0. *)
Definition on_shard_0 (wk : option attachment) (sh : Sharding.shardInfo) : Prop :=
  EnableSharding app = false →
  Sharding.shardID sh = 0 ∧ ∀ a, wk = Some a → pl_shard (wk_pool (at_worker a)) = 0.

Definition Inv (s : St) : Prop := ∃ wk sh psh, at_ (opt wk) (wk, sh, psh) s ∧ on_shard_0 wk sh.

(** The exception at the end of a session: with sharding, a read on another shard failed, and
    the worker of the session is still attached. *)
Definition left_behind (s : Session) : Prop := EnableSharding app = true ∧ isRead s = true ∧ worker s ≠ None.

(** After the end of the session nothing is held, but for the worker that is left behind. *)
Definition Ended (s : St) : Prop := ∃ h, ledger n (log s.2) [] = Some h ∧
  (h = [] ∨ left_behind s.1 ∧ h = opt (worker s.1)).

Context (Hn : n = if EnableSharding app then 2%nat else 1%nat).

Lemma triple_ex {A X} (P : X → St → Prop) (m : io St A) Q : (∀ x, triple (P x) m Q) → triple (λ s, ∃ x, P x s) m Q.
Proof. intros H s [x Hx]. by apply (H x). Qed.

Lemma triple_Inv {A} (m : io St A) Q :
  (∀ wk sh psh, on_shard_0 wk sh → triple (at_ (opt wk) (wk, sh, psh)) m Q) → triple Inv m Q.
Proof. intros H s (wk & sh & psh & Hs & H0). by apply (H wk sh psh H0). Qed.

(** A request that failed has left no worker attached, but for the exception. *)
Definition Failed (err : option go_error) (s : St) : Prop := err ≠ None → worker s.1 = None ∨ left_behind s.1.

Lemma t_other_shard a sh psh p request : EnableSharding app = true →
  triple (λ s, at_ [a] (Some a, sh, psh) s ∧ reading true s)
    (g ← get_from broker p; match g with inl e => mret (Some e) | inr b => cross_shard_read ops info b request end)
    (λ err s, Inv s ∧ Failed err s).
Proof.
  intros Hs. assert (HL : ∀ sh' s, at_ [a] (Some a, sh', psh) s ∧ reading true s → Inv s ∧ worker s.1 = Some a).
  { intros sh' s [Ha _]. split; [|by destruct Ha as [_ [=]]]. exists (Some a), sh', psh. split; [done|]. intros E. congruence. }
  assert (HF : ∀ err sh' s, at_ [a] (Some a, sh', psh) s ∧ reading true s → Inv s ∧ Failed err s).
  { intros err sh' s H. destruct (HL sh' s H) as [? Hw]. split; [done|]. intros _. right. split_and!; [done|apply H|congruence]. }
  eapply triple_bind.
  { apply triple_reading; [apply t_get_from; rewrite Hn, Hs; cbn; lia|apply reading_get_from]. }
  intros [e|b].
  - intros s H. split; [by eapply at_sound, H|]. intros err [= <-]. exact (HF _ sh _ H).
  - eapply triple_conseq; [apply (triple_reading true); [apply (t_cross_shard_read b [a] (Some a) sh psh)|apply reading_cross_shard_read]| |].
    + intros s [[H _] Hr]. by split.
    + intros err s H. exact (HF _ psh _ H).
Qed.

Lemma t_dispatchRequest request : triple Inv (dispatchRequest app ops broker info request) (λ err s, Inv s ∧ Failed err s).
Proof.
  apply triple_Inv. intros wk sh psh H0. unfold dispatchRequest. apply triple_get_bind. intros s0. cbn [id].
  apply (triple_conseq (λ s', (at_ (opt wk) (wk, sh, psh) s' ∧ s'.1 = s0) ∧ frame s0 = (wk, sh, psh)) _ _ (λ err s, Inv s ∧ Failed err s));
    [|intros s [Hs <-]; split; [done|apply Hs]|done].
  apply triple_pre. intros Hf. injection Hf as -> -> _. set (sid := Sharding.shardID sh).
  destruct wk as [a|]; cbn [opt].
  - destruct (_ && _) eqn:Ex.
    + apply andb_true_iff in Ex as [Er Ex]. assert (EnableSharding app = true) as Hs.
      { destruct (EnableSharding app) eqn:E; [done|]. destruct (H0 E) as [Hz Ha]. rewrite (Ha a eq_refl) in Ex.
        unfold sid in Ex. by rewrite Hz in Ex. }
      eapply triple_conseq; [by apply (t_other_shard a sh psh)| |done]. intros s [? <-]. done.
    + eapply triple_conseq; [apply (t_request_on a (Some a) sh psh)|naive_solver|].
      intros err s' (wk' & Hs' & Hw & He). split.
      * exists wk', sh, psh. split; [done|]. intros E. destruct (H0 E) as [Hz Ha]. split; [done|]. naive_solver.
      * intros Hne. left. rewrite (He Hne) in Hs'. by destruct Hs' as [_ [=]].
  - apply (triple_conseq (at_ [] (None, sh, psh)) _ _ (λ err s, Inv s ∧ Failed err s)); [|naive_solver|done].
    eapply triple_bind; [apply t_get_from; rewrite Hn; cbn; destruct (EnableSharding app); lia|]. intros [e|a].
    + apply triple_mret. intros s' Hs'. split; [by exists None, sh, psh|]. intros _. left. by destruct Hs' as [_ [=]].
    + intros s1 [Hs1 Hp]. destruct (t_request_on a None sh psh request s1 Hs1) as [H1 H2].
      split; [done|]. intros err Er. destruct (H2 err Er) as (wk' & Hs' & Hw & He). split.
      * exists wk', sh, psh. split; [done|]. intros E. destruct (H0 E) as [Hz Ha]. split; [done|].
        intros b Eb. destruct Hw as [->| ->]; [done|]. injection Eb as <-. by rewrite Hp.
      * intros Hne. left. rewrite (He Hne) in Hs'. by destruct Hs' as [_ [=]].
Qed.

(** ** Commands and the main loop *)

Lemma t_respond_all h fr l : triple (at_ h fr) (respond_all l) (λ _, at_ h fr).
Proof. induction l as [|b l IH]; cbn [respond_all]; [by apply triple_mret|]. tseq (at_ h fr); [apply t_respond|done]. Qed.

Definition Unmoved (wk : option attachment) (s : St) : Prop := ∃ sh psh, at_ (opt wk) (wk, sh, psh) s ∧ on_shard_0 wk sh.

Lemma Unmoved_at {A} wk (m : io St A) Q :
  (∀ sh psh, on_shard_0 wk sh → triple (at_ (opt wk) (wk, sh, psh)) m Q) → triple (Unmoved wk) m Q.
Proof. intros H s (sh & psh & Hs & H0). by apply (H sh psh H0). Qed.

Lemma at_Unmoved {A} wk (m : io St A) :
  (∀ sh psh, triple (at_ (opt wk) (wk, sh, psh)) m (λ _, at_ (opt wk) (wk, sh, psh))) →
  triple (Unmoved wk) m (λ _, Unmoved wk).
Proof. intros H. apply Unmoved_at. intros sh psh H0. eapply triple_conseq; [apply H|done|]. intros ? s Hs. by exists sh, psh. Qed.

Lemma triple_mret_U {A} wk (a : A) : triple (Unmoved wk) (mret a) (λ _, Unmoved wk).
Proof. apply at_Unmoved. intros. by apply triple_mret. Qed.

Lemma triple_lift_U {A} wk (r : result A) : triple (Unmoved wk) (lift r) (λ _, Unmoved wk).
Proof. apply at_Unmoved. intros sh psh. eapply triple_conseq; [apply triple_lift|done|]. naive_solver. Qed.

Lemma triple_modify_U wk f : (∀ s, frame (f s) = frame s) → triple (Unmoved wk) (modify f) (λ _, Unmoved wk).
Proof. intros. apply at_Unmoved. intros. by apply triple_modify_frame. Qed.

Lemma triple_respond_U wk b : triple (Unmoved wk) (respond b) (λ _, Unmoved wk).
Proof. apply at_Unmoved. intros. apply t_respond. Qed.

Lemma triple_close_U wk : triple (Unmoved wk) (act CloseConn) (λ _, Unmoved wk).
Proof. apply at_Unmoved. intros. by apply triple_act. Qed.

(** Without sharding a session can only choose shard 0. *)
Lemma processSetShardID_shard_0 val (c c' : Sharding.Coordinator) err :
  EnableSharding app = false → Sharding.shardID (Sharding.shard c) = 0 →
  Sharding.processSetShardID (EnableSharding app) (Config.Sharding app) val c = (c', err) → Sharding.shardID (Sharding.shard c') = 0.
Proof.
  intros Hs H0. unfold Sharding.processSetShardID. rewrite Hs. destruct (GoStrings.ParseInt 32 val) as [sh ok]. cbn [negb andb].
  destruct (negb (sh =? 0) && negb (sh =? -1)) eqn:E; [by intros [= <- <-]|].
  destruct (_ || _); [by intros [= <- <-]|].
  assert ((if (EnableWhitelistTest (Config.Sharding app) || true) && (sh =? -1) then 0 else sh) = 0) as Hz.
  { rewrite orb_true_r. cbn [andb]. destruct (Z.eqb_spec sh (-1)); [done|]. destruct (Z.eqb_spec sh 0); [done|]. by rewrite andb_true_r in E. }
  repeat case_match; intros [= <- <-]; cbn; done.
Qed.

Lemma t_processSetShardID wk payload : triple (Unmoved wk) (processSetShardID app payload) (λ _, Unmoved wk).
Proof.
  apply Unmoved_at. intros sh psh H0. unfold processSetShardID. apply triple_gets_bind. intros [s w] [_ Hf]. cbn in Hf.
  cbn [fst]. destruct (Sharding.processSetShardID _ _ payload (routing s)) as [c err] eqn:E.
  injection Hf as Hwk Hsh Hpsh.
  set (fr := (wk, Sharding.shard c, Sharding.prevShard c)).
  tseq (at_ (opt wk) fr); [apply t_modify_to; intros s1 [= <- <- <-]; done|].
  tseq (at_ (opt wk) fr); [apply t_respond_all|]. apply triple_mret. intros s' Hs'.
  exists (Sharding.shard c), (Sharding.prevShard c). split; [done|]. intros Hd. destruct (H0 Hd) as [Hz Ha].
  split; [|done]. eapply processSetShardID_shard_0; [done| |exact E]. unfold routing. cbn. by rewrite Hsh.
Qed.

Lemma t_PreprocessSharding wk requests : EnableSharding app = true →
  triple (Unmoved wk) (PreprocessSharding app smap wlcfg requests) (λ _, Unmoved wk).
Proof.
  intros Hs. apply Unmoved_at. intros sh psh H0. unfold PreprocessSharding. apply triple_gets_bind. intros [s w] _.
  apply triple_lift_bind. intros [c err] _. set (fr := (wk, Sharding.shard c, Sharding.prevShard c)).
  tseq (at_ (opt wk) fr); [apply t_modify_to; intros s1 [= <- <- <-]; done|].
  tseq (at_ (opt wk) fr); [apply t_respond_all|]. apply triple_mret. intros s' Hs'.
  exists (Sharding.shard c), (Sharding.prevShard c). split; [done|]. intros E. congruence.
Qed.

Ltac mux wk := repeat
  match goal with
  | |- triple _ (gets_s _ ≫= _) _ => apply triple_gets_bind; intros ? _
  | |- triple _ (_ ≫= _) _ => apply (triple_bind _ _ (λ _, Unmoved wk)); [|intros ?]
  | |- triple _ (mret _) _ => apply triple_mret_U
  | |- triple _ (lift _) _ => apply triple_lift_U
  | |- triple _ (respond _) _ => apply triple_respond_U
  | |- triple _ (act CloseConn) _ => apply triple_close_U
  | |- triple _ (modify _) _ => apply triple_modify_U; intros ?; by repeat case_match
  | |- triple _ (processSetShardID _ _) _ => apply t_processSetShardID
  | |- triple _ (match ?x with _ => _ end) _ => destruct x eqn:?
  end.

Lemma t_processMuxCommand wk request :
  triple (Unmoved wk) (processMuxCommand app hostname poolName request) (λ _, Unmoved wk).
Proof. unfold processMuxCommand, processClientInfoMuxCommand. mux wk. Qed.

Lemma t_mux_prepare wk ns all : triple (Unmoved wk) (mux_prepare app smap wlcfg ns all) (λ _, Unmoved wk).
Proof. unfold mux_prepare. mux wk. by apply t_PreprocessSharding. Qed.

Lemma t_mux_parts wk all l : triple (Unmoved wk) (mux_parts app smap wlcfg hostname poolName all l) (λ _, Unmoved wk).
Proof.
  induction l as [|ns l IH]; cbn [mux_parts]; [apply triple_mret_U|].
  destruct (is_prepare _); [apply t_mux_prepare|].
  apply (triple_bind _ _ (λ _, Unmoved wk)); [apply t_processMuxCommand|]. intros [|]; [done|]. mux wk.
Qed.

Lemma t_handleMux wk request :
  triple (Unmoved wk) (handleMux app smap wlcfg hostname poolName request) (λ _, Unmoved wk).
Proof.
  unfold handleMux. mux wk; try apply t_processMuxCommand. apply t_mux_parts.
Qed.

(** ** The main loop *)

Context (Htaf : EnableTAF app = false).

Lemma Unmoved_Inv wk s : Unmoved wk s → Inv s.
Proof. intros (sh & psh & ?). by exists wk, sh, psh. Qed.

Lemma t_Inv_at {A} (m : io St A) :
  (∀ wk sh psh, triple (at_ (opt wk) (wk, sh, psh)) m (λ _, at_ (opt wk) (wk, sh, psh))) → triple Inv m (λ _, Inv).
Proof.
  intros H. apply triple_Inv. intros wk sh psh H0. eapply triple_conseq; [apply H|done|].
  intros ? s Hs. by exists wk, sh, psh.
Qed.

Lemma Inv_Ended s : Inv s → worker s.1 = None ∨ left_behind s.1 → Ended s.
Proof.
  intros (wk & sh & psh & [H1 H2] & _) Hw. exists (opt wk). split; [done|]. injection H2 as H2 _ _. rewrite H2 in *.
  destruct Hw as [->|Hl]; [by left|by right].
Qed.

(** A request leaves the invariant, or the session has ended. *)
Definition Goes_on (r : option bool) (s : St) : Prop := if bool_decide (r = Some false) then Ended s else Inv s.

Lemma t_dispatch request : triple Inv (dispatch app ops broker info request) (λ r, Goes_on (Some r)).
Proof.
  unfold dispatch. apply triple_gets_bind. intros s _.
  apply (triple_bind _ _ (λ err s, Inv s ∧ Failed err s)).
  { rewrite Htaf. destruct (worker s.1); apply t_dispatchRequest. }
  intros err. apply (triple_bind _ _ (λ _ s, Inv s ∧ Failed err s)).
  - intros s1 [(wk & sh & psh & Hs & H0) Hw]. destruct (t_processError _ _ err s1 Hs) as [H1 H2]. split; [done|].
    intros u Eu. specialize (H2 u Eu). split; [by exists wk, sh, psh|]. intros He. specialize (Hw He).
    pose proof (reading_processError (isRead s1.1) err s1 eq_refl) as Hr. unfold reading in Hr.
    destruct Hs as [_ Hf], H2 as [_ Hf2]. injection Hf as Hf _ _. injection Hf2 as Hf2 _ _. unfold left_behind in *. by rewrite Hr, Hf2, <- Hf.
  - intros _ s1 [Hs Hw]. split; [destruct Hs as (? & ? & ? & Hs & _); exact (at_sound _ _ _ Hs)|].
    intros r [= <-]. unfold Goes_on. destruct err; [|done]. apply Inv_Ended; [done|]. by apply Hw.
Qed.

Lemma t_on_client ns : triple Inv (on_client app ops smap wlcfg broker info hostname poolName ns) Goes_on.
Proof.
  apply triple_Inv. intros wk sh psh H0.
  apply (triple_conseq (Unmoved wk) _ _ Goes_on); [|intros s Hs; by exists sh, psh|done].
  unfold on_client. apply (triple_bind _ _ (λ _, Unmoved wk)); [by apply triple_modify_U|]. intros _.
  apply (triple_bind _ _ (λ _, Unmoved wk)); [apply t_handleMux|]. intros [|].
  { intros s Hs. split; [destruct Hs as (? & ? & Hs & _); exact (at_sound _ _ _ Hs)|]. intros r [= <-]. by eapply Unmoved_Inv. }
  apply Unmoved_at. intros sh' psh' H0'. apply triple_gets_bind. intros [s w] [_ Hf]. injection Hf as Hf _ _. cbn [fst id].
  cbn in Hf. rewrite Hf. apply (triple_bind _ _ (λ _, Inv)).
  - destruct wk as [a|]; [|by apply triple_mret; intros s' Hs'; exists None, sh', psh'].
    destruct (_ && _); [|by apply triple_mret; intros s' Hs'; exists (Some a), sh', psh'].
    tseq (at_ [a] (Some a, sh', psh')); [by apply triple_act|].
    tseq (at_ [] (Some a, sh', psh')); [apply t_Recover|].
    eapply triple_conseq; [apply t_resetWorkerInfo|done|]. intros ? s' Hs'. exists None, sh', psh'. split; [done|].
    intros E. destruct (H0' E). done.
  - intros _. eapply triple_bind; [apply t_dispatch|]. intros r s' Hs'. split; [|by intros ? [= <-]].
    unfold Goes_on in Hs'. case_bool_decide; [destruct Hs' as (h & E & _); by exists h|].
    destruct Hs' as (? & ? & ? & Hs' & _). exact (at_sound _ _ _ Hs').
Qed.

Lemma t_on_worker msg : triple Inv (on_worker msg) (λ r, Goes_on (Some r)).
Proof.
  apply triple_Inv. intros wk sh psh H0. unfold on_worker. tseq (at_ (opt wk) (wk, sh, psh)).
  { apply triple_modify_frame. intros s. by destruct (isRead s). }
  apply triple_gets_bind. intros [s w] [_ Hf]. injection Hf as Hf _ _. cbn [fst]. cbn in Hf. rewrite Hf.
  apply (triple_bind _ _ (λ _, at_ (opt wk) (wk, sh, psh))); [destruct (msg_data msg); [by apply triple_mret|apply t_conn_Write]|].
  intros [e|].
  - tseq (at_ (opt wk) (wk, sh, psh)); [destruct wk; [by apply triple_act|by apply triple_mret]|].
    tseq (at_ [] (wk, sh, psh)); [destruct wk; [apply t_Recover|by apply triple_mret]|].
    apply triple_mret. intros s' [Hs' _]. exists []. by auto.
  - destruct (msg_free msg); [|by apply triple_mret; intros s' Hs'; exists wk, sh, psh].
    destruct wk as [at0|]; [|intros s' Hs'; by split; [exact (at_sound _ _ _ Hs')|]].
    tseq (at_ [at0] (Some at0, sh, psh)); [by apply triple_act|].
    tseq (at_ [at0] (Some at0, sh, psh)); [by apply triple_act|].
    tseq (at_ [] (Some at0, sh, psh)); [apply t_ReturnWorker|].
    tseq (at_ [] (None, sh, psh)); [apply t_resetWorkerInfo|].
    apply triple_mret. intros s' Hs'. exists None, sh, psh. split; [done|]. intros E. by destruct (H0 E).
Qed.

Lemma at_nil_Ended fr s : at_ [] fr s → Ended s.
Proof. intros [H _]. exists []. by auto. Qed.

Lemma t_on_abort : triple Inv on_abort (λ _, Ended).
Proof.
  apply triple_Inv. intros wk sh psh H0. unfold on_abort.
  apply triple_gets_bind. intros [s w] [_ Hf]. injection Hf as Hf _ _. cbn [fst]. cbn in Hf. rewrite Hf.
  apply (triple_bind _ _ (λ _, at_ [] (None, sh, psh))).
  - destruct wk as [a|]; [|by apply triple_mret]. tseq (at_ [a] (Some a, sh, psh)); [by apply triple_act|].
    tseq (at_ [a] (Some a, sh, psh)); [by apply triple_act|].
    tseq (at_ [] (Some a, sh, psh)); [apply t_Recover|apply t_resetWorkerInfo].
  - intros _. eapply triple_conseq; [apply t_processError|done|]. intros ? s'. apply at_nil_Ended.
Qed.

Lemma t_on_ctrl_closed : triple Inv on_ctrl_closed (λ _, Ended).
Proof.
  apply triple_Inv. intros wk sh psh H0. unfold on_ctrl_closed.
  apply triple_gets_bind. intros [s w] [_ Hf]. injection Hf as Hf _ _. cbn [fst]. cbn in Hf. rewrite Hf.
  destruct wk as [a|]; [|by apply triple_mret; intros s'; apply at_nil_Ended].
  tseq (at_ [] (Some a, sh, psh)); [apply triple_act; cbn; by rewrite decide_True|].
  eapply triple_conseq; [by apply (triple_act [] (Some a, sh, psh) _ [])|done|]. intros ? s'. apply at_nil_Ended.
Qed.

Lemma t_run_loop fuel listening idle :
  triple Inv (run_loop app ops smap wlcfg broker info hostname poolName fuel listening idle) (λ _, Ended).
Proof.
  assert (HI : ∀ s, Inv s → sound s) by (intros s (? & ? & ? & Hs & _); exact (at_sound _ _ _ Hs)).
  assert (HE : ∀ s, Ended s → sound s) by (intros s (h & E & _); by exists h).
  revert listening idle. induction fuel as [|fuel IH]; intros listening idle; cbn [run_loop].
  { intros s Hs. by split; [apply HI|]. }
  apply (triple_bind _ _ (λ _, Inv)); [apply t_Inv_at; intros; apply t_next_event|].
  intros [[ns|]|m|m| | |]; try apply IH.
  - eapply triple_bind; [apply t_on_client|]. intros r.
    destruct (decide (r = Some false)) as [->|Hr].
    + apply triple_gets_bind. intros s _. intros s' Hs'. split; [by apply HE|]. by intros ? [= <-].
    + unfold Goes_on. rewrite bool_decide_eq_false_2 by done. apply triple_gets_bind. intros s _.
      destruct r as [[|]|]; [apply IH|done|apply IH].
  - intros s Hs. by split; [apply HI|].
  - destruct (negb listening); [apply IH|]. destruct m as [msg|]; [|intros s Hs; by split; [apply HI|]].
    eapply triple_bind; [apply t_on_worker|]. intros [|]; cbn [negb].
    + destruct (msg_free msg); apply IH.
    + intros s Hs. split; [by apply HE|]. by intros ? [= <-].
  - destruct (negb listening); [apply IH|]. destruct m as [msg|]; [|apply t_on_ctrl_closed].
    destruct (msg_abort msg); [apply t_on_abort|apply IH].
  - destruct idle as [ms|]; [|apply IH]. apply (triple_bind _ _ (λ _, Inv)); [|intros _; apply IH].
    apply t_Inv_at. intros. by apply triple_act.
Qed.

Lemma t_Run : triple Inv (Run app ops smap wlcfg broker info hostname poolName) (λ _, Ended).
Proof.
  intros s. unfold Run. generalize (S (length (events s.2))). intros fuel. revert s.
  apply triple_bind with (λ _, Ended); [apply t_run_loop|]. intros _ s (h & E & Hh).
  destruct (triple_act h (frame s.1) CloseConn h eq_refl s (conj E eq_refl)) as [H1 H2].
  split; [done|]. intros u Eu. destruct (H2 u Eu) as [H3 _]. exists h. split; [done|exact Hh].
Qed.

End limit.

(** What a session has done with its workers: the account of its log, and what is left of it
    when the session has returned. *)
Definition accounts (s : Session) (w : World) (r : result unit) : Prop :=
  ∃ h, ledger (if EnableSharding app then 2 else 1) (log w) [] = Some h ∧
    (r = Ret tt → h = [] ∨ left_behind s ∧ h = opt (worker s)).

Lemma Run_ledger (w : World) :
  EnableTAF app = false → log w = [] →
  let '((s', w'), r) := Run app ops smap wlcfg broker info hostname poolName (NewCoordinator, w) in accounts s' w' r.
Proof.
  intros Htaf Hlog. set (n := if EnableSharding app then 2%nat else 1%nat).
  assert (Hi : Inv n (NewCoordinator, w)).
  { exists None. eexists _, _. split; [split; [by cbn; rewrite Hlog|reflexivity]|]. done. }
  destruct (t_Run n eq_refl Htaf _ Hi) as [[h Es] Hq].
  destruct (Run _ _ _ _ _ _ _ _ _) as [[s' w'] r]. cbn [fst snd] in *. destruct r as [[]| | | |]; try (by exists h).
  destruct (Hq tt eq_refl) as (h' & E' & Hh). exists h'. by split.
Qed.

(** C6: A session uses only workers it holds and gives each back once, to the pool and with
    the ticket it got it with: whatever the client, the workers, the timers and the pools do,
    every worker it writes to is held at that moment, and it never holds more than one, or
    two with sharding, for reads on another shard. When the session returns none is left:
    each was returned, is being recovered, or has failed; with the one exception that, with
    sharding, a read on another shard that fails ends the session and leaves the worker of
    its transaction behind. Fail-over, which the code turns off, is not covered. *)
Theorem session_accounts_for_workers (w : World) :
  EnableTAF app = false → log w = [] →
  let '((s', w'), r) := Run app ops smap wlcfg broker info hostname poolName (NewCoordinator, w) in
  ∃ h, ledger (if EnableSharding app then 2 else 1) (log w') [] = Some h ∧
    (r = Ret tt → h = [] ∨ (EnableSharding app = true ∧ isRead s' = true ∧ worker s' ≠ None) ∧ h = opt (worker s')).
Proof. apply Run_ledger. Qed.

End facts.

Definition sample_config : Config := gAppConfig sample_init.
Definition sample_opsconfig : OpsConfig := mkOpsConfig 0 4 600000 900000 0 0 200 0.

(** A client that sends a query and then nothing; its worker is aborted. *)
Definition sample_query : Packet := mkPacket 3 (0 :: [9; 0; 0; 0] ++ 3 :: str "select 1") (3 :: str "select 1") 9 0 true.
Definition sample_world : World :=
  mkWorld [Client (Some sample_query); FromWorker (Some (mkMsg [0; 1] false false false false 1)); Ctrl (Some (mkMsg [] false false false true 0))]
    [inr (7, str "ticket")] [] [] [] [].

Definition sample_Run : St * result unit :=
  Run sample_config sample_opsconfig None None (λ _, None) false (str "host") (str "pool") (NewCoordinator, sample_world).

Lemma session_accounts_for_workers_witness :
  EnableTAF sample_config = false ∧ EnableSharding sample_config = false ∧ sample_Run.2 = Ret tt ∧
  ledger 1 (log sample_Run.1.2) [] = Some [].
Proof.
  split; [reflexivity|]. split; [reflexivity|]. split; [vm_compute; reflexivity|].
  pose proof (session_accounts_for_workers sample_config sample_opsconfig None None (λ _, None) false (str "host") (str "pool") sample_world eq_refl eq_refl) as H.
  fold sample_Run in H. assert (sample_Run.2 = Ret tt) as Hr by (vm_compute; reflexivity).
  destruct sample_Run as [[s' w'] r]. cbn [fst snd] in *. destruct H as (h & Hl & Hh).
  destruct (Hh Hr) as [->|[(Hx & _) _]]; [exact Hl|discriminate Hx].
Defined.

End CoordinatorFacts.
