(* ===== verification/SessionRuns.v ===== *)
(** * Runs of a session (lib/coordinator.go, lib/coordinatortaf.go): the bytes of a worker on
    their way to the client, disconnected clients, reads on another shard, and fail-over. *)

From S2P Require Import Prelude GoIO Codes Netstring ConfigFile Config ShardMap Sharding WorkerClient CmdProcessor Regexp SqlParser Fmt Coordinator CoordinatorFacts.
From stdpp Require Import base list gmap strings.
From Stdlib Require Import ZArith Lia.
Open Scope Z_scope.

Module SessionRuns.
Import Codes Netstring Config WorkerClient CmdProcessor Coordinator CoordinatorFacts.

Section runs.
Context (app : Config) (ops : OpsConfig).
Context (smap : option ShardMap.records) (wlcfg : option (gmap ShardMap.key ShardMap.ShardMapRecord)).
Context (broker : PoolRef → option go_error) (info : bool) (hostname poolName : bytes).

(** ** Disconnected clients *)

(** When [m] returns, it has not been told that the client is gone. *)
Definition unaware {A} (m : io St A) : Prop := ∀ s s' a, m s = (s', Ret a) →
  ∃ seen, events s.2 = seen ++ events s'.2 ∧ Client None ∉ seen.

Lemma unaware_bind {A B} (m : io St A) (f : A → io St B) : unaware m → (∀ a, unaware (f a)) → unaware (m ≫= f).
Proof.
  intros Hm Hf s s' b (s1 & a & E1 & E2)%io_bind_inv.
  destruct (Hm _ _ _ E1) as (l1 & H1 & N1), (Hf a _ _ _ E2) as (l2 & H2 & N2).
  exists (l1 ++ l2). rewrite H1, H2, app_assoc. split; [done|]. by intros [?|?]%elem_of_app.
Qed.

(** Steps that receive no event. *)
Lemma unaware_quiet {A} (m : io St A) : (∀ s, events (m s).1.2 = events s.2) → unaware m.
Proof. intros Hm s s' a E. exists []. specialize (Hm s). rewrite E in Hm. split; [by rewrite <- Hm|by intros ?%elem_of_nil]. Qed.

(** The branch of the select that has the closed channel does not return. *)
Lemma unaware_next {A} (f : event → io St A) :
  (∀ e, e ≠ Client None → unaware (f e)) → (∀ s s' a, f (Client None) s ≠ (s', Ret a)) → unaware (next_event ≫= f).
Proof.
  intros Hf Hn s s' a (s1 & e & E1 & E2)%io_bind_inv. unfold next_event in E1.
  destruct (events s.2) as [|e' es] eqn:Ee; simplify_eq.
  assert (e = Client None ∨ e ≠ Client None) as [->|Hne] by (destruct e as [[]| | | | |]; naive_solver); [by apply Hn in E2|].
  destruct (Hf e Hne _ _ _ E2) as (l & H & N). exists (e :: l). cbn in H |- *. rewrite H. split; [done|].
  intros [He|?]%elem_of_cons; [by rewrite He in Hne|done].
Qed.

Lemma unaware_mret {A} (a : A) : unaware (mret a).
Proof. by apply unaware_quiet. Qed.
Lemma unaware_lift {A} (r : result A) : unaware (lift r).
Proof. by apply unaware_quiet. Qed.
Lemma unaware_gets {A} (f : Session → A) : unaware (gets_s f).
Proof. by apply unaware_quiet. Qed.
Lemma unaware_modify f : unaware (modify f).
Proof. by apply unaware_quiet. Qed.
Lemma unaware_act a : unaware (act a).
Proof. by apply unaware_quiet. Qed.
Lemma unaware_ask : unaware ask.
Proof. by apply unaware_quiet. Qed.
Lemma unaware_conn_Write b : unaware (conn_Write b).
Proof. by apply unaware_quiet. Qed.
Lemma unaware_write_worker w ns cnt : unaware (write_worker w ns cnt).
Proof. by apply unaware_quiet. Qed.
Lemma unaware_GetWorker p : unaware (GetWorker p).
Proof. apply unaware_quiet. intros s. unfold GetWorker. by destruct (gets s.2) as [|[?|[? ?]] ?]. Qed.

Ltac unaware := repeat
  match goal with
  | |- unaware (_ ≫= _) => apply unaware_bind; [|intros ?]
  | |- unaware (mret _) => apply unaware_mret
  | |- unaware (lift _) => apply unaware_lift
  | |- unaware (gets_s _) => apply unaware_gets
  | |- unaware (modify _) => apply unaware_modify
  | |- unaware (act _) => apply unaware_act
  | |- unaware ask => apply unaware_ask
  | |- unaware (conn_Write _) => apply unaware_conn_Write
  | |- unaware (write_worker _ _ _) => apply unaware_write_worker
  | |- unaware (GetWorker _) => apply unaware_GetWorker
  | |- unaware (respond _) => unfold respond
  | |- unaware (Recover _ _) => unfold Recover
  | |- unaware (ReturnWorker _) => unfold ReturnWorker
  | |- unaware resetWorkerInfo => unfold resetWorkerInfo
  | |- unaware (release _ _) => unfold release
  | |- unaware (processError _) => unfold processError
  | |- unaware (get_from _ _) => unfold get_from
  | |- unaware (match ?x with _ => _ end) => destruct x
  end.

Lemma unaware_wait_worker fuel w via timer : unaware (wait_worker ops info fuel w via timer).
Proof.
  revert timer. induction fuel as [|fuel IH]; intros timer; cbn [wait_worker]; [unaware|].
  apply unaware_next; [|done]. intros [[ns|]|[msg|]|[msg|]| | |] He; try done; unfold relay_data, client_Write, preproc_Write; unaware; apply IH.
Qed.

Lemma unaware_doRequest w request via timer : unaware (doRequest ops info w request via timer).
Proof.
  unfold doRequest, send_request. unaware. intros s s' r E. by apply (unaware_wait_worker _ _ _ _ _ _ _ E).
Qed.

Lemma unaware_respond_all l : unaware (respond_all l).
Proof. induction l as [|b l IH]; cbn [respond_all]; unaware. done. Qed.

Lemma unaware_processMuxCommand request : unaware (processMuxCommand app hostname poolName request).
Proof. unfold processMuxCommand, processClientInfoMuxCommand, processSetShardID. unaware; apply unaware_respond_all. Qed.

Lemma unaware_mux_parts all l : unaware (mux_parts app smap wlcfg hostname poolName all l).
Proof.
  induction l as [|ns l IH]; cbn [mux_parts]; [unaware|]. unfold mux_prepare, PreprocessSharding.
  unaware; [apply unaware_respond_all|apply unaware_processMuxCommand|done].
Qed.

Lemma unaware_handleMux request : unaware (handleMux app smap wlcfg hostname poolName request).
Proof. unfold handleMux. unaware; try apply unaware_processMuxCommand. apply unaware_mux_parts. Qed.

Lemma unaware_dispatchRequest request : unaware (dispatchRequest app ops broker info request).
Proof.
  unfold dispatchRequest, request_on, cross_shard_read, removeFetchSize. unaware; apply unaware_doRequest.
Qed.

Lemma unaware_dispatch request : unaware (dispatch app ops broker info request).
Proof.
  unfold dispatch, DispatchTAFSession, try_primary, primary_done, try_fallback, removeFetchSize.
  unaware; apply unaware_dispatchRequest || apply unaware_doRequest.
Qed.

Lemma unaware_run_loop fuel listening idle :
  unaware (run_loop app ops smap wlcfg broker info hostname poolName fuel listening idle).
Proof.
  revert listening idle. induction fuel as [|fuel IH]; intros listening idle; cbn [run_loop]; [unaware|].
  apply unaware_next; [|done]. intros [[ns|]|[msg|]|[msg|]| | |] He; try done;
    unfold on_client, on_worker, idle_worker, on_ctrl_closed, on_abort; unaware;
    try apply IH; try apply unaware_handleMux; apply unaware_dispatch.
Qed.

(** A session that ends has never been told that its client is gone: the log line before
    the check of the closed channel takes a field of a nil packet, so for every session the
    receipt of the disconnect is a panic, and the recovery of the attached worker that is
    written there never runs. *)
Theorem disconnect_never_handled (w w' : World) (s' : Session) :
  Run app ops smap wlcfg broker info hostname poolName (NewCoordinator, w) = ((s', w'), Ret tt) →
  ∃ seen, events w = seen ++ events w' ∧ Client None ∉ seen.
Proof.
  unfold Run. intros E.
  apply (unaware_bind _ _ (unaware_run_loop (S (length (events w))) false (Some (GetIdleTimeoutMs ops))) (λ _, unaware_act CloseConn) _ _ _ E).
Qed.

(** ** The bytes of an answer *)

(** A message is taken and relayed without its indicator byte. *)
Definition stripped (msg : workerMsg) : list action :=
  Heard (FromWorker (Some msg)) :: match msg_data msg with [] => [] | _ :: rest => [ToClient rest] end.

Definition with_log (l : list action) (es : list event) (w : World) : World :=
  mkWorld es (gets w) (sends w) (replies w) (answers w) (log w ++ l).

Lemma relay_one fuel wk timer msg es (s : Session) (w : World) :
  replies w = [] → events w = FromWorker (Some msg) :: es →
  ∃ timer', wait_worker ops info (S fuel) wk false timer (s, w) =
    (if msg_free msg then ((s, with_log (stripped msg ++ [SqlEnd wk]) es w), Ret (false, None))
     else if msg_eor msg then
       ((if isRead s then s else set_inTransaction (msg_inTransaction msg) s, with_log (stripped msg) es w), Ret (true, None))
     else wait_worker ops info fuel wk false timer' (s, with_log (stripped msg) es w)).
Proof.
  intros Hr He. cbn [wait_worker]. unfold mbind at 1, io_bind at 1, next_event. cbn [fst snd]. rewrite He.
  unfold relay_data, stripped, client_Write, conn_Write. destruct (msg_data msg) as [|x rest].
  - exists timer. cbn. unfold with_log, mbind, io_bind. cbn. destruct (msg_free msg); [unfold act; cbn; by rewrite <- app_assoc|]. by destruct (msg_eor msg).
  - exists false. unfold with_log, mbind, io_bind. cbn. rewrite Hr. cbn.
    destruct (msg_free msg); [unfold act; cbn; by rewrite <- !app_assoc|]. rewrite <- app_assoc. by destruct (msg_eor msg).
Qed.

Definition data_only (msg : workerMsg) : Prop := msg_free msg = false ∧ msg_eor msg = false.

Lemma relay_all fuel wk timer ms last es (s : Session) (w : World) :
  replies w = [] → Forall data_only ms → msg_eor last = true → (length ms < fuel)%nat →
  events w = map (λ m, FromWorker (Some m)) (ms ++ [last]) ++ es →
  ∃ s', wait_worker ops info fuel wk false timer (s, w) =
    ((s', with_log (concat (map stripped (ms ++ [last])) ++ if msg_free last then [SqlEnd wk] else []) es w),
     Ret (negb (msg_free last), None)) ∧ frame s' = frame s.
Proof.
  revert fuel timer w. induction ms as [|m ms IH]; intros [|fuel] timer w Hr Hd Hl Hf He; cbn [length] in Hf; try lia.
  - destruct (relay_one fuel wk timer last es s w Hr He) as [t ->]. cbn [Datatypes.app map concat]. rewrite Hl.
    rewrite app_nil_r. destruct (msg_free last); [by exists s|].
    exists (if isRead s then s else set_inTransaction (msg_inTransaction last) s). rewrite app_nil_r. by destruct (isRead s).
  - apply Forall_cons in Hd as [[Hd1 Hd2] Hd].
    destruct (relay_one fuel wk timer m (map (λ m, FromWorker (Some m)) (ms ++ [last]) ++ es) s w Hr He) as [t ->].
    rewrite Hd1, Hd2. destruct (IH fuel t (with_log (stripped m) (map (λ m, FromWorker (Some m)) (ms ++ [last]) ++ es) w)) as (s' & -> & Hs');
      [done|done|done|lia|done|].
    exists s'. split; [|done]. unfold with_log. cbn. by rewrite <- !app_assoc.
Qed.

(** What the log says the client was sent. *)
Definition sent_to_client (l : list action) : bytes :=
  concat (map (λ a, match a with ToClient b => b | _ => [] end) l).

(** A netstring of data, as opposed to the messages for the proxy. *)
Definition is_data (ns : Packet) : Prop :=
  IsMySQL ns = false ∧ Cmd ns ≠ CmdEOR ∧ Cmd ns ≠ CmdControlMsg ∧ Serialized ns ≠ [].

Lemma doRead_data ds st sent pkts : Forall is_data ds →
  ∃ st', doRead (ds ++ pkts) (mkRead st [] sent) = doRead pkts (mkRead st' [] (sent ++ map (λ d, data_msg (Serialized d)) ds)).
Proof.
  revert st sent. induction ds as [|d ds IH]; intros st sent; [intros _; exists st; by rewrite app_nil_r|].
  intros [(Hm & Hc & Hk & _) Hds]%Forall_cons. cbn [Datatypes.app doRead]. unfold read_one at 1. rewrite Hm.
  rewrite (proj2 (Z.eqb_neq _ _) Hc), (proj2 (Z.eqb_neq _ _) Hk). cbn [mbind result_bind flush rd_payload rd_sent rd_status].
  destruct (IH (if Cmd d =? RcStillExecuting then st else wsWait) (sent ++ [data_msg (Serialized d)]) Hds) as [st' ->]. exists st'. by rewrite <- app_assoc.
Qed.

Lemma sent_to_client_app l1 l2 : sent_to_client (l1 ++ l2) = sent_to_client l1 ++ sent_to_client l2.
Proof. unfold sent_to_client. by rewrite map_app, concat_app. Qed.

Lemma sent_stripped ms : sent_to_client (concat (map stripped ms)) = concat (map (λ m, drop 1 (msg_data m)) ms).
Proof.
  induction ms as [|m ms IH]; cbn [map concat]; [done|]. rewrite sent_to_client_app, IH. f_equal.
  unfold stripped. destruct (msg_data m) as [|x r]; [done|]. unfold sent_to_client. cbn. by rewrite app_nil_r, drop_0.
Qed.

(** An answer of a worker, from its packets to the bytes the client is sent. *)
Lemma answer_reaches_client (ds : list Packet) (p : Packet) (code rqId st : Z) (q : option Packet) (wk : WorkerRef) (timer : bool)
    (es : list event) (s : Session) (w : World) :
  Forall is_data ds → IsMySQL p = false → Cmd p = CmdEOR → Payload p = eor_payload code rqId q →
  0 <= code <= 6 → code ≠ EORMoreIncomingRequests → in_u16 rqId → replies w = [] →
  ∃ rs, doRead (ds ++ [p]) (mkRead st [] []) = Ret rs ∧
    (events w = map (λ m, FromWorker (Some m)) (rd_sent rs) ++ es →
     ∃ s' w', wait_worker ops info (S (length ds)) wk false timer (s, w) = ((s', w'), Ret (negb (code =? EORFree), None)) ∧
       frame s' = frame s ∧ events w' = es ∧
       sent_to_client (log w') = sent_to_client (log w) ++ concat (map (λ d, drop 1 (Serialized d)) ds) ++
         match q with Some q => drop 1 (Serialized q) | None => [] end).
Proof.
  intros Hds Hm Hc Hp Hcode Hne Hrq Hr. destruct (doRead_data ds st [] [p] Hds) as [st' Ed]. rewrite Ed.
  cbn [doRead]. unfold read_one. rewrite Hm, Hc, Z.eqb_refl. rewrite (read_eor_payload p code rqId q) by done.
  unfold after_eor. rewrite (proj2 (Z.eqb_neq _ _) Hne). cbn [mbind result_bind rd_sent rd_payload Datatypes.app].
  set (fin := mkMsg _ true _ _ _ _). eexists. split; [reflexivity|]. cbn [rd_sent flush rd_payload]. intros He.
  assert (Hdo : Forall data_only (map (λ d, data_msg (Serialized d)) ds)).
  { clear. induction ds; cbn; constructor; [by split|done]. }
  destruct (relay_all (S (length ds)) wk timer _ fin es s w Hr Hdo eq_refl) as (s' & E & Hf); [rewrite length_map; lia|done|].
  eexists s', _. split; [exact E|]. split; [done|]. split; [done|]. cbn [log with_log].
  rewrite !sent_to_client_app, sent_stripped, map_app, concat_app, map_map. cbn [map concat msg_data fin data_msg].
  assert (sent_to_client (if msg_free fin then [SqlEnd wk] else []) = []) as -> by (by destruct (msg_free fin)).
  rewrite !app_nil_r. do 2 f_equal. by destruct q.
Qed.

(** ** Fail-over *)

(** Nothing was sent to the client since it had been sent [b], unless the filter says so; and
    a filter that has sent something keeps sending. *)
Definition filtered (b : bytes) (s : St) : Prop :=
  (dataSent (preproc s.1) = false → sent_to_client (log s.2) = b) ∧
  (dataSent (preproc s.1) = true → tp_ok (preproc s.1) = true).

Definition stable (I : St → Prop) {A} (m : io St A) : Prop := ∀ s s' a, I s → m s = (s', Ret a) → I s'.

Lemma stable_bind I {A B} (m : io St A) (f : A → io St B) : stable I m → (∀ a, stable I (f a)) → stable I (m ≫= f).
Proof. intros Hm Hf s s' b Hs (s1 & a & E1 & E2)%io_bind_inv. eapply Hf; [|done]. by eapply Hm. Qed.

Lemma stable_pure I {A} (m : io St A) : (∀ s, (m s).1 = s) → stable I m.
Proof. intros Hm s s' a Hs E. specialize (Hm s). rewrite E in Hm. cbn in Hm. by subst s'. Qed.

Lemma stable_modify b f : (∀ s, preproc (f s) = preproc s) → stable (filtered b) (modify f).
Proof. intros Hf s s' a [H1 H2] [= <-]. unfold filtered. cbn. by rewrite Hf. Qed.

Lemma stable_act b a : sent_to_client [a] = [] → stable (filtered b) (act a).
Proof. intros Ha s s' u [H1 H2] [= <-]. split; [|done]. cbn -[sent_to_client]. by rewrite sent_to_client_app, Ha, app_nil_r. Qed.

Lemma stable_write_worker b w ns cnt : stable (filtered b) (write_worker w ns cnt).
Proof.
  intros s s' u [H1 H2] [= <- _]. split; [|done]. cbn -[sent_to_client]. rewrite sent_to_client_app.
  destruct (default None (head (sends s.2))); by rewrite app_nil_r.
Qed.

Lemma stable_next b : stable (filtered b) next_event.
Proof.
  intros s s' u [H1 H2]. unfold next_event. destruct (events s.2); [done|]. intros [= <- _]. split; [|done].
  cbn -[sent_to_client]. by rewrite sent_to_client_app, app_nil_r.
Qed.

Lemma preproc_reads_keeps bf p p' : preproc_reads info bf p = Ret p' →
  dataSent p' = dataSent p ∧ (dataSent p = true → tp_ok p' = tp_ok p).
Proof.
  unfold preproc_reads. destruct (NewNetstring _).2 as [ns|e| | |]; cbn [dataSent]; try done; [|by intros [= <-]].
  destruct (dataSent p) eqn:Hd; cbn [negb andb]; [intros [= <-]; by cbn|].
  destruct (Cmd ns =? RcSQLError); [|intros [= <-]; by cbn].
  destruct (if info then _ else _) as [?| | | |]; try done. cbn. destruct (atoi (Payload ns)) as [ora sz].
  case_bool_decide; intros [= <-]; by cbn.
Qed.

Lemma stable_preproc_Write b bf : stable (filtered b) (preproc_Write info bf).
Proof.
  intros s s' r [H1 H2] E. unfold preproc_Write in E. apply io_bind_inv in E as (s1 & p & [= <- <-] & E).
  apply io_bind_inv in E as (s2 & q & E1 & E). unfold lift in E1. injection E1 as <- E1.
  apply preproc_reads_keeps in E1 as [Hd Hok]. apply io_bind_inv in E as (s3 & [] & [= <-] & E). destruct (tp_ok q) eqn:Hq.
  - apply io_bind_inv in E as (s4 & [] & [= <-] & E). unfold conn_Write in E. injection E as <- _. by split.
  - injection E as <- _. split; cbn; [rewrite Hd; done|]. intros Ht. rewrite Hd in Ht. rewrite Hok, H2 in Hq by done. done.
Qed.

Lemma stable_wait_worker b fuel w timer : stable (filtered b) (wait_worker ops info fuel w true timer).
Proof.
  revert timer. induction fuel as [|fuel IH]; intros timer; cbn [wait_worker]; [by apply stable_pure|].
  apply stable_bind; [apply stable_next|]. intros [[ns|]|[msg|]|[msg|]| | |]; unfold relay_data, client_Write;
    repeat match goal with
    | |- stable _ (_ ≫= _) => apply stable_bind; [|intros ?]
    | |- stable _ (mret _) => by apply stable_pure
    | |- stable _ (lift _) => by apply stable_pure
    | |- stable _ (act _) => by apply stable_act
    | |- stable _ (write_worker _ _ _) => apply stable_write_worker
    | |- stable _ (preproc_Write _ _) => apply stable_preproc_Write
    | |- stable _ (modify _) => apply stable_modify; intros ?; by case_match
    | |- stable _ (match ?x with _ => _ end) => destruct x
    end; try apply IH; intros s s' ?; done.
Qed.

Lemma stable_doRequest b w request timer : stable (filtered b) (doRequest ops info w request true timer).
Proof.
  unfold doRequest, send_request. repeat match goal with
    | |- stable _ (_ ≫= _) => apply stable_bind; [|intros ?]
    | |- stable _ (mret _) => by apply stable_pure
    | |- stable _ (gets_s _) => by apply stable_pure
    | |- stable _ (act _) => by apply stable_act
    | |- stable _ (write_worker _ _ _) => apply stable_write_worker
    | |- stable _ (match ?x with _ => _ end) => destruct x
    end.
  intros s s' r. by apply stable_wait_worker.
Qed.

(** Steps after the request that send nothing. *)
Definition silent {A} (m : io St A) : Prop := ∀ s, sent_to_client (log (m s).1.2) = sent_to_client (log s.2).

Lemma silent_bind {A B} (m : io St A) (f : A → io St B) : silent m → (∀ a, silent (f a)) → silent (m ≫= f).
Proof.
  intros Hm Hf s. specialize (Hm s). unfold mbind, io_bind. destruct (m s) as [s1 [a| | | |]]; try done.
  rewrite Hf. done.
Qed.

Lemma silent_act a : sent_to_client [a] = [] → silent (act a).
Proof. intros Ha s. cbn -[sent_to_client]. by rewrite sent_to_client_app, Ha, app_nil_r. Qed.

Lemma silent_primary_done a wait err : silent (primary_done app a wait err).
Proof.
  unfold primary_done, release, Recover, ReturnWorker. repeat match goal with
    | |- silent (_ ≫= _) => apply silent_bind; [|intros ?]
    | |- silent (act _) => apply silent_act; by repeat case_match
    | |- silent (match ?x with _ => _ end) => destruct x
    | |- silent _ => by intros ?
    end.
Qed.

(** The fallback is asked only when the filter has sent nothing. *)
Lemma primary_done_fallback a wait err (s s' : St) : primary_done app a wait err s = (s', Ret None) →
  tp_ok (preproc s.1) = false ∨ dataSent (preproc s.1) = false.
Proof.
  unfold primary_done. intros (s1 & p & [= <- <-] & E)%io_bind_inv.
  destruct wait; [by destruct (TestingEnableDMLTaf app); repeat (apply io_bind_inv in E as (? & ? & _ & E))|].
  do 4 (apply io_bind_inv in E as (? & ? & _ & E)). destruct err as [e|].
  - destruct (dataSent (preproc s.1)); [done|by right].
  - destruct (tp_ok (preproc s.1)); [|by left]. by apply io_bind_inv in E as (? & ? & _ & E).
Qed.

(** C19: A fail-over does not mix two answers: whenever a request is sent on to the fallback
    after the primary, not one byte of the primary's answer has gone to the client. *)
Theorem failover_sends_one_answer (primary : PoolRef) (request : Packet) (t : bytes) (s s' : Session) (w w' : World) :
  try_primary app ops info primary request (s, w) = ((s', w'), Ret (None, t)) →
  sent_to_client (log w') = sent_to_client (log w).
Proof.
  unfold try_primary. intros (s1 & use & E1 & E)%io_bind_inv. apply io_bind_inv in E as (s2 & h & E2 & E).
  assert (log s2.2 = log w) as Hl.
  { unfold ask in E1. injection E1 as <- _. destruct use; [unfold ask in E2|]; by injection E2 as <- _. }
  destruct (negb h); [injection E as -> _; by rewrite <- Hl|].
  apply io_bind_inv in E as (s3 & g & E3 & E). unfold GetWorker in E3.
  destruct (gets s2.2) as [|[e|[id tk]] gs]; simplify_eq; [injection E as <- <- _; cbn -[sent_to_client]; by rewrite Hl|].
  apply io_bind_inv in E as (s4 & [] & [= <-] & E). apply io_bind_inv in E as (s5 & [wait err] & E4 & E).
  apply io_bind_inv in E as (s6 & r & E5 & E). injection E as -> -> _.
  set (b := sent_to_client (log w)). assert (filtered b s5) as [F1 F2].
  { eapply stable_doRequest; [|exact E4]. split; [|done]. cbn -[sent_to_client]. by rewrite sent_to_client_app, Hl, app_nil_r. }
  pose proof (silent_primary_done (mkAtt (mkRef primary id) primary tk) wait err s5) as Hs. rewrite E5 in Hs. cbn [fst snd] in Hs.
  rewrite Hs. apply F1. destruct (primary_done_fallback _ _ _ _ _ E5) as [H|H]; [|done].
  destruct (dataSent (preproc s5.1)); [by rewrite F2 in H|done].
Qed.

(** ** Errors of the primary *)

Lemma NewNetstring_digit d l : is_digit d → ∃ e, (NewNetstring (bytes_NewReader (d :: l))).2 = Error e.
Proof.
  unfold is_digit. intros Hd. unfold NewNetstring.
  destruct (bufio.ReadByte_some (bufio.NewReader (bytes_NewReader (d :: l))) d l) as (b & -> & _).
  { unfold unread. cbn. by rewrite app_nil_r. }
  rewrite (proj2 (Z.eqb_neq d 1)), (proj2 (Z.eqb_neq d 0)) by lia. by eexists.
Qed.

(** The errors that a fail-over is for are not recognised: the filter is given the
    answers without their indicator byte and cannot decode them, so no netstring answer of
    the primary, whatever its error code, makes it ask for the fallback. *)
Theorem primary_errors_not_recognised (cmd : Z) (payload : bytes) (p : tafResponsePreproc) : 0 <= cmd →
  preproc_reads info (drop 1 (Serialized (NewNetstringFrom cmd payload))) p =
    Ret (mkPreproc (tp_ok p) (tp_ora p) (dataSent p) true).
Proof.
  intros Hc. rewrite From_Serialized. cbn [drop skipn]. rewrite drop_0. unfold Netstring.frame.
  destruct (itoa_spec (zlen (body_of (itoa cmd) payload))) as (Fd & Hne & _); [lia|].
  destruct (itoa _) as [|d ds]; [done|]. apply Forall_cons in Fd as [Hd _]. cbn [Datatypes.app]. unfold preproc_reads.
  set (l := ds ++ _). destruct (NewNetstring_digit d l Hd) as [e ->]. done.
Qed.

(** ** Reads on another shard *)

(** A read on another shard can cost a session its worker: when no worker of that shard
    is to be had during a transaction, the session ends without giving back the worker it
    holds, neither to the pool nor to the recovery. *)
Theorem cross_shard_read_leaks (request : Packet) (a : attachment) (e : go_error) (gs : list (go_error + Z * bytes)) (s : Session) (w : World) :
  worker s = Some a → isRead s = true → Sharding.shardID (shard s) ≠ pl_shard (wk_pool (at_worker a)) →
  (∀ p, broker p = None) → gets w = inl e :: gs → ledger 2 (log w) [] = Some [a] →
  ∃ w', dispatch app ops broker info request (s, w) = ((s, w'), Ret false) ∧ ledger 2 (log w') [] = Some [a].
Proof.
  intros Hw Hr Hne Hb Hg Hl. set (w1 := mkWorld (events w) gs (sends w) (replies w) (answers w) (log w)).
  assert (E : dispatchRequest app ops broker info request (s, w) = ((s, w1), Ret (Some e))).
  { unfold dispatchRequest. unfold gets_s, mbind at 1, io_bind at 1. cbn [fst id]. rewrite Hw, Hr.
    rewrite (proj2 (Z.eqb_neq _ _) Hne). cbn [negb andb]. unfold get_from, GetWorker, mbind, io_bind. rewrite Hb. cbn [snd].
    by rewrite Hg. }
  unfold dispatch. unfold gets_s, mbind at 1, io_bind at 1. cbn [fst]. rewrite Hw, (io_bind_Ret _ _ _ _ _ E).
  unfold processError, respond, conn_Write. case_bool_decide; eexists; (split; [reflexivity|]); [|done]. cbn -[ledger].
  rewrite ledger_app, Hl. by destruct (default None (head (replies w))).
Qed.

End runs.

Lemma disconnect_never_handled_witness :
  ∃ seen, events sample_world = seen ++ events sample_Run.1.2 ∧ Client None ∉ seen.
Proof.
  refine (disconnect_never_handled sample_config sample_opsconfig None None (λ _, None) false (str "host") (str "pool")
    sample_world sample_Run.1.2 sample_Run.1.1 _).
  vm_compute. reflexivity.
Defined.

(** The primary does not answer in time; the request goes on to the fallback. *)
Definition sample_failover : World := mkWorld [RequestTimer] [inr (7, str "t1")] [] [] [true; true] [].

Lemma failover_sends_one_answer_witness :
  let p := mkPool wtypeRW 0 in
  let x := try_primary sample_config sample_opsconfig false p sample_query (NewCoordinator, sample_failover) in
  x.2 = Ret (None, str "t1") ∧ sent_to_client (log x.1.2) = sent_to_client (log sample_failover).
Proof.
  intros p x. split; [vm_compute; reflexivity|].
  apply (failover_sends_one_answer sample_config sample_opsconfig false p sample_query (str "t1") NewCoordinator x.1.1 sample_failover x.1.2).
  vm_compute. reflexivity.
Defined.

Lemma primary_errors_not_recognised_witness :
  preproc_reads false (drop 1 (Serialized (NewNetstringFrom RcSQLError (str "3113: end-of-file on communication channel"))))
    (mkPreproc true [] false false) = Ret (mkPreproc true [] false true).
Proof. apply (primary_errors_not_recognised false RcSQLError _ (mkPreproc true [] false false)). done. Defined.

(** A session in a transaction on shard 1, and a read on shard 0. *)
Definition sample_transaction : Session :=
  set_isRead true (set_inTransaction true (set_worker (Some (mkAtt (mkRef (mkPool wtypeRW 1) 7) (mkPool wtypeRW 1) (str "t"))) NewCoordinator)).

Lemma cross_shard_read_leaks_witness :
  let p := mkPool wtypeRW 1 in
  let a := mkAtt (mkRef p 7) p (str "t") in
  ∃ w', dispatch sample_config sample_opsconfig (λ _, None) false sample_query
      (sample_transaction, mkWorld [] [inl ErrBklgTimeout] [] [] [] [Got (mkRef p 7) p (str "t")]) =
    ((sample_transaction, w'), Ret false) ∧ ledger 2 (log w') [] = Some [a].
Proof.
  intros p a. apply (cross_shard_read_leaks sample_config sample_opsconfig (λ _, None) false sample_query a ErrBklgTimeout [] sample_transaction
    (mkWorld [] [inl ErrBklgTimeout] [] [] [] [Got (mkRef p 7) p (str "t")])); try reflexivity; done.
Defined.

(** Without its hypothesis on fail-over, the account of the workers does not balance: a
    worker of the fallback that stays in a transaction is recovered into the pool of the
    primary, with an empty ticket. *)
Lemma fallback_recovered_into_primary :
  let app := mkConfig (CertChainFile sample_config) (KeyFile sample_config) 0 [] 0 0 0 0 0 0 0 0 0 false 0 0 0 0 0 0 0 false
    MySQL false (Config.Sharding sample_config) ∅ 0 true (TAF sample_config) false [] [] false [] [] 0 0 0 [] false false false 0 in
  let w := mkWorld [Client (Some sample_query); FromWorker (Some (mkMsg [0; 1] true false true false 1))]
    [inr (7, str "t1")] [] [] [true; false] [] in
  ledger 2 (log (Run app sample_opsconfig None None (λ _, None) false [] [] (NewCoordinator, w)).1.2) [] = None.
Proof. vm_compute. reflexivity. Qed.

End SessionRuns.
