(* ===== verification/EndToEnd.v ===== *)
(** * The Go driver (client/gosqldriver/) and the worker (worker/shared/): what the worker's
    reader makes of a request of the driver and the driver's reader of an answer, what the
    packets of a statement mean to the worker one by one, and a query of a MySQL client from
    the worker to the client. *)

From S2P Require Import Prelude GoIO Codes Netstring Config Fmt Adapter SqlParser WorkerClient CmdProcessor WorkerCmd WorkerFacts WorkerRuns WorkerService ClientDriver Coordinator CoordinatorFacts SessionRuns.
From stdpp Require Import base list gmap strings.
From Stdlib Require Import ZArith Lia.
Open Scope Z_scope.

Module EndToEnd.
Import Codes Netstring SqlParser Adapter WorkerCmd WorkerFacts WorkerRuns ClientDriver.

(** ** Names *)

Lemma itoa_inj n m : 0 <= n → 0 <= m → itoa n = itoa m → n = m.
Proof. intros Hn Hm E. destruct (itoa_spec n Hn) as (_ & _ & <-), (itoa_spec m Hm) as (_ & _ & <-). by rewrite E. Qed.

Lemma param_names_elem k n x : x ∈ param_names k n → ∃ i, k <= i ∧ x = str ":p" ++ itoa i.
Proof.
  revert k. induction n as [|n IH]; intros k; cbn [param_names]; [by intros ?%elem_of_nil|].
  intros [->|H]%elem_of_cons; [by exists k|]. destruct (IH _ H) as (i & ? & ->). exists i. split; [lia|done].
Qed.

Lemma param_names_NoDup k n : 0 <= k → NoDup (param_names k n).
Proof.
  revert k. induction n as [|n IH]; intros k Hk; cbn [param_names]; constructor; [|apply IH; lia].
  intros (i & Hi & E%app_inv_head)%param_names_elem. apply itoa_inj in E; lia.
Qed.

Lemma arg_names_length k n : length (arg_names k n) = n.
Proof. revert k. by induction n as [|n IH]; intros k; cbn; rewrite ?IH. Qed.

(** The worker looks an argument's name up with the colon the driver left out. *)
Lemma bind_key_arg_names k n : bind_key <$> arg_names k n = param_names k n.
Proof. revert k. induction n as [|n IH]; intros k; cbn [arg_names param_names]; [done|]. by rewrite fmap_cons, IH. Qed.

(** A name is bound to the value at its position. *)
Lemma value_of_zip (ns vs : list bytes) : length ns = length vs → NoDup (bind_key <$> ns) →
  value_of (zip ns vs) <$> (bind_key <$> ns) = vs.
Proof.
  revert vs. induction ns as [|n ns IH]; intros [|v vs] Hl Hnd; try done. injection Hl as Hl.
  rewrite fmap_cons in Hnd. apply NoDup_cons in Hnd as [Hn Hnd]. rewrite !fmap_cons. f_equal.
  - unfold value_of. cbn [zip zip_with list_find]. by rewrite decide_True.
  - rewrite <- (IH vs Hl Hnd) at 2. apply list_fmap_ext. intros i k Hk. apply list_elem_of_lookup_2 in Hk.
    unfold value_of. cbn [zip zip_with list_find fst]. rewrite decide_False by (intros E; by rewrite E in Hn).
    by destruct (list_find _ _) as [[]|].
Qed.

Section e2e.
Context {D Tx Stmt Rows Res : Type} `{!SqlDB D Tx Stmt Rows Res} `{!EqDecision Stmt}.
Context (adapter : CmdProcessorAdapter).
Abbreviation St := (CmdProc Tx Stmt Rows Res * World D)%type.

(** An argument of a driver without named arguments; an empty value is a null. *)
Definition positional (v : bytes) : arg := Positional (VString (match v with [] => None | _ => Some v end)).

(** What the packets of a statement of the Go driver mean to a worker that is given them one
    by one (a composite request does not arrive so, see [driver_request_lost]): for a worker
    whose driver takes arguments by position, preparing hands the application's text to the
    database, and once it is prepared, the packets of the arguments are accepted and
    execution calls the statement with the application's values, in their order, an empty
    value as a null. *)
Theorem driver_statement_reaches_database (sql : bytes) (args : list dvalue) (vals : list bytes) (crid : Z) (s : St) :
  UseBindNames adapter = false → plain sql → delimited sql →
  mapM value_bytes args = Ret vals → length vals = marks sql →
  ∃ s0 binds,
    preprocess adapter (NewNetstringFrom CmdPrepareV2 (st_sql (newStmt sql))) s = (s0, Ret sql) ∧
    bind_packets crid (crid + 1) (map (mkNamed []) args) = Ret binds ∧
    ∀ (s1 : St) (st : Stmt), wf s1.1 → WorkerCmd.stmt s1.1 = Some st → bindPos s1.1 = bindPos s0.1 →
      ∃ s2 s3, run adapter binds s1 = (s2, Ret None) ∧ clear_outs s2 = (s3, Ret tt) ∧ s3.2 = s1.2 ∧
        do_Execute adapter s2 =
          (err ← run_stmt st (positional <$> vals);
           match err with Some e => execute_failed adapter e | None => execute_done end) s3.
Proof.
  intros Hu Hp Hd Hv Hl. pose proof (bind_packets_unnamed crid 0 args vals Hv) as Eb. rewrite Z.add_0_r in Eb.
  change (0 + 1) with 1 in Eb. set (l := zip (arg_names 1 (length vals)) vals) in Eb.
  set (ns := NewNetstringFrom CmdPrepareV2 (st_sql (newStmt sql))).
  assert (Payload ns = st_sql (newStmt sql)) as Hns by apply From_Payload.
  cbn [newStmt st_sql] in Hns. rewrite name_marks_eq in Hns by done.
  destruct (mark_names_tokens sql 1 Hp Hd ltac:(lia)) as [Ef Er].
  assert (Hk : bind_key <$> l.*1 = param_names 1 (marks sql)).
  { unfold l. rewrite fst_zip by (rewrite arg_names_length; lia). by rewrite bind_key_arg_names, Hl. }
  assert (Hw : value_of l <$> param_names 1 (marks sql) = vals).
  { rewrite <- Hl, <- bind_key_arg_names. apply value_of_zip; rewrite ?arg_names_length; [done|].
    rewrite bind_key_arg_names. by apply param_names_NoDup. }
  eexists _, _. split_and!; [|exact Eb|].
  { unfold preprocess. change (IsMySQL ns) with false. cbn [negb]. rewrite modify_bind, Hu, Hns, Er. reflexivity. }
  intros s1 st Hwf Hst Hpos. cbn [fst bindPos set_bindPos set_bindVars] in Hpos. rewrite Ef in Hpos.
  destruct (bound_values_run adapter l s1 st Hwf Hst) as (s2 & s3 & E1 & E2 & E3 & E4).
  { rewrite Hk. by apply param_names_NoDup. }
  { by rewrite Hk, Hpos. }
  exists s2, s3. split_and!; [done|done|done|]. rewrite E4, Hpos.
  assert ((λ k, in_arg adapter k (value_of l k)) <$> param_names 1 (marks sql) = positional <$> vals) as ->; [|done].
  rewrite <- Hw. rewrite <- list_fmap_compose. apply list_fmap_ext. intros i k _.
  unfold in_arg, positional. cbn. by rewrite Hu.
Qed.

End e2e.

Lemma driver_statement_reaches_database_witness :
  let sql := str "insert into t values (?, ?)" in
  ∃ s0 binds,
    preprocess Adapter.Mysql.mysqlAdapter (NewNetstringFrom CmdPrepareV2 (st_sql (newStmt sql))) (Toy.proc, Toy.world 4) = (s0, Ret sql) ∧
    bind_packets 1 2 (map (mkNamed []) [DInt 5; DString (str "x")]) = Ret binds ∧
    ∀ s1 st, wf s1.1 → WorkerCmd.stmt s1.1 = Some st → bindPos s1.1 = bindPos s0.1 →
      ∃ s2 s3, run Adapter.Mysql.mysqlAdapter binds s1 = (s2, Ret None) ∧ clear_outs s2 = (s3, Ret tt) ∧ s3.2 = s1.2 ∧
        do_Execute Adapter.Mysql.mysqlAdapter s2 =
          (err ← run_stmt st (positional <$> [str "5"; str "x"]);
           match err with Some e => execute_failed Adapter.Mysql.mysqlAdapter e | None => execute_done end) s3.
Proof.
  intros sql.
  refine (driver_statement_reaches_database Adapter.Mysql.mysqlAdapter sql [DInt 5; DString (str "x")] [str "5"; str "x"] 1
    (Toy.proc, Toy.world 4) _ _ _ _ _).
  - reflexivity.
  - vm_compute; reflexivity.
  - cbn; repeat (split; try done).
  - vm_compute; reflexivity.
  - vm_compute; reflexivity.
Defined.

(** ** The answer to a statement *)

(** A composite answer is the netstring of its parts under the command 0. *)
Lemma Embedded_From l : concat (map Serialized l) ≠ [] →
  NewNetstringEmbedded l = NewNetstringFrom 0 (concat (map Serialized l)).
Proof.
  intros Hne. rewrite Embedded_eq, From_eta, From_Serialized. set (p := concat (map Serialized l)) in *.
  destruct p as [|x p]; [done|]. cbn [body_of]. change (itoa 0) with [48]. cbn [app length].
  replace (Z.of_nat (S (length p)) + 2) with (Z.of_nat (S (S (S (length p))))) by lia. done.
Qed.

(** The reader on a composite answer in one piece: the first part, then what follows on the
    connection. *)
Lemma ReadNext_composite cmd payload l e : 0 <= cmd < 2 ^ 63 →
  let p := NewNetstringFrom cmd payload in
  zlen (Serialized (NewNetstringEmbedded (p :: l))) <= 4096 →
  ReadNext (NewNetstringReader (mkStream [Serialized (NewNetstringEmbedded (p :: l))] e)) =
    (mkNSReader (mkStream [] e) None [p] 1, Ret p).
Proof.
  intros Hc p Hsz. unfold ReadNext. set (f := (length _ + 2)%nat).
  assert (∃ f', f = S (S f')) as [f' ->] by (exists (f - 2)%nat; lia).
  pose proof (SubNetstrings_first_only cmd payload l Hc) as Hs. fold p in Hs.
  pose proof (Embedded_From (p :: l)) as He. set (q := concat (map Serialized (p :: l))) in *.
  assert (q ≠ []) as Hq by (unfold q, p; cbn [map concat]; by rewrite From_Serialized).
  specialize (He Hq). rewrite He in *. rewrite From_Payload in Hs.
  cbn [ReadNext_loop NewNetstringReader ns nss next reader lookup list_lookup].
  pose proof (NewNetstring_in_chunk 0 q [] [] e ltac:(lia)) as Hn. rewrite app_nil_r in Hn. rewrite Hn by done.
  change (Cmd (NewNetstringFrom 0 q) =? CodeSubCommand - 48) with true. cbv iota. rewrite Hs; [done|].
  rewrite From_Serialized in Hsz. unfold frame, body_of in Hsz. destruct q as [|x q]; [done|].
  rewrite length_cons, length_app, length_cons, !length_app, length_cons in Hsz. lia.
Qed.

Lemma ReadNext_end p e : ∃ r e', ReadNext (mkNSReader (mkStream [] e) None [p] 1) = (r, Error e').
Proof.
  assert (∃ e', NewNetstring (mkStream [] e) = (mkStream [] e, Error e')) as [e' E]
    by (unfold NewNetstring; cbn; destruct e; by eexists).
  unfold ReadNext. change (length _ + 2)%nat with 2%nat.
  cbn [ReadNext_loop ns nss next reader lookup list_lookup]. rewrite E. by eexists _, _.
Qed.

(** ** The request *)

(** The request of the driver is a composite that begins with the correlation id, the first
    time, or with the statement. *)
Definition first_packet (st : ClientDriver.stmt) (c : heraConnection) : Packet :=
  match corrID c with Some p => p | None => NewNetstringFrom CmdPrepareV2 (st_sql st) end.

Lemma build_request_head st args fetch c c' req : build_request st args fetch c = (c', Ret req) →
  ∃ l, req = NewNetstringEmbedded (first_packet st c :: l) ∧ l ≠ [].
Proof.
  unfold build_request. intros (c1 & id & [= <- <-] & H)%io_bind_inv. apply io_bind_inv in H as (c2 & binds & _ & H).
  apply io_bind_inv in H as (c3 & key & _ & [= _ <-]). unfold request_packets, first_packet.
  destruct (corrID c) as [p|]; cbn [app]; eexists; (split; [done|]); [done|by destruct binds, key].
Qed.

(** A correlation id as the driver makes it. *)
Definition corr_ok (c : heraConnection) : Prop :=
  ∀ p, corrID c = Some p → ∃ cmd payload, p = NewNetstringFrom cmd payload ∧ 0 <= cmd < 2 ^ 63.

Lemma first_packet_ok st c : corr_ok c → ∃ cmd payload, first_packet st c = NewNetstringFrom cmd payload ∧ 0 <= cmd < 2 ^ 63.
Proof.
  intros Hc. unfold first_packet. destruct (corrID c) as [p|] eqn:E; [by apply Hc|].
  exists CmdPrepareV2, (st_sql st). split; [done|]. unfold CmdPrepareV2. lia.
Qed.

(** C24: The request that [Exec] and [Query] of the Go driver send, a composite of the
    correlation id, the statement, its arguments and the execution, does not get through to
    a worker. A worker that has not yet read a netstring cannot read it, however the bytes
    arrive and whatever follows: it gets nil, on which it ends, or panics when warnings are
    logged. A worker that reads netstrings gets, of a request of at most 4096 bytes that
    arrives in one piece with nothing behind it, only the first packet: the next read fails,
    and the arguments and the execution are lost. *)
Theorem driver_request_lost (st : ClientDriver.stmt) (args : list NamedValue) (fetch : bool) (c c' : heraConnection) (req : Packet) :
  corr_ok c → build_request st args fetch c = (c', Ret req) →
  (∀ warn s rest, unread s = Serialized req ++ rest →
    (WorkerService.read_next warn (WorkerService.new_reader s)).2 = if warn then Panic else Ret None) ∧
  (zlen (Serialized req) <= 4096 → ∀ warn e, ∃ r,
    WorkerService.read_next warn (WorkerService.mkCmdReader (mkStream [Serialized req] e) true (None, [], 0%nat)) =
      (r, Ret (Some (first_packet st c))) ∧
    (WorkerService.read_next warn r).2 = if warn then Panic else Ret None).
Proof.
  intros Hc (l & -> & _)%build_request_head. destruct (first_packet_ok st c Hc) as (cmd & payload & -> & Hcmd).
  set (p := NewNetstringFrom cmd payload).
  assert (Hne : concat (map Serialized (p :: l)) ≠ []) by (unfold p; cbn [map concat]; by rewrite From_Serialized).
  split.
  - intros warn s rest Hu. rewrite (Embedded_From _ Hne) in Hu. by eapply WorkerService.first_netstring_unreadable.
  - intros Hsz warn e. pose proof (ReadNext_composite cmd payload l e Hcmd Hsz) as Er. unfold NewNetstringReader in Er. fold p in Er.
    eexists. unfold WorkerService.read_next at 1, WorkerService.ns_ReadNext at 1.
    cbn [WorkerService.use_netstring WorkerService.buffered WorkerService.sock]. rewrite Er. split; [done|].
    unfold WorkerService.read_next, WorkerService.ns_ReadNext.
    cbn [WorkerService.use_netstring WorkerService.buffered WorkerService.sock reader ns nss next].
    destruct e; done.
Qed.

Lemma driver_request_lost_witness :
  let c := NewHeraConnection (mkStream [] io_EOF) [] in
  let r := build_request (newStmt (str "delete from t where id = ?")) [mkNamed [] (DInt 7)] false c in
  ∃ req, r = (r.1, Ret req) ∧
  (∀ warn s rest, unread s = Serialized req ++ rest →
    (WorkerService.read_next warn (WorkerService.new_reader s)).2 = if warn then Panic else Ret None) ∧
  ∃ r, WorkerService.read_next false (WorkerService.mkCmdReader (mkStream [Serialized req] io_EOF) true (None, [], 0%nat)) =
      (r, Ret (Some corrIDUnsetCmd)) ∧
    (WorkerService.read_next false r).2 = Ret None.
Proof.
  intros c r. destruct r as [c' [req| | | |]] eqn:E; try (exfalso; revert E; vm_compute; discriminate).
  exists req. split; [done|]. destruct (driver_request_lost (newStmt (str "delete from t where id = ?")) [mkNamed [] (DInt 7)] false c c' req)
    as [H1 H2]; [|done|].
  - intros p [= <-]. eexists _, _. split; [reflexivity|]. vm_compute. split; [discriminate|reflexivity].
  - split; [done|]. apply H2. revert E. intros [= _ <-]. vm_compute. discriminate.
Defined.

(** C25: When the worker's answer to an execution, a composite of at most 4096 bytes,
    arrives in one piece with nothing behind it, [Exec] of the Go driver never returns the
    number of rows, whatever the statement and its arguments: its reader decodes only the
    first part of the composite and drops the others, and [Exec] asks the connection for
    the second. *)
Theorem Exec_answer_lost (st : ClientDriver.stmt) (args : list NamedValue) (rowcnt : Z) (outs : list bytes) (e : go_error) (c c' : heraConnection) (n : Z) :
  let answer := Serialized (exec_response rowcnt outs) in
  zlen answer <= 4096 → h_reader c = NewNetstringReader (mkStream [answer] e) →
  ExecContext st args c ≠ (c', Ret n).
Proof.
  intros answer Hsz Hr E. unfold ExecContext, build_request in E.
  apply io_bind_inv in E as (c1 & ns & E1 & E). apply io_bind_inv in E1 as (c2 & id & E2 & E1).
  apply io_bind_inv in E1 as (c3 & binds & E3 & E1). apply io_bind_inv in E1 as (c4 & key & E4 & E1).
  apply io_bind_inv in E as (c5 & u & E5 & E). apply io_bind_inv in E as (c6 & p & E6 & E).
  assert (h_reader c5 = h_reader c) as H5.
  { unfold take_corrID, lift, get_shardKey, execNs, mret, io_ret in *. simplify_eq. destruct (bind_packets _ _ _); simplify_eq.
    cbn [h_answers h_reader] in *. repeat case_match; by simplify_eq. }
  unfold getResponse in E6. rewrite H5, Hr in E6. unfold answer, exec_response in E6, Hsz.
  cbn [app] in E6, Hsz. unfold rc_value at 1 in E6. unfold rc_value at 1 in Hsz. rewrite ReadNext_composite in E6 by done. apply pair_equal_spec in E6 as [<- [= <-]].
  change (Cmd (NewNetstringFrom RcValue (str "0")) =? RcValue) with true in E. cbn [negb] in E.
  apply io_bind_inv in E as (c7 & q & E7 & _). unfold getResponse in E7. cbn [h_reader] in E7.
  destruct (ReadNext_end (rc_value (str "0")) e) as (r & e' & Ee). unfold rc_value in Ee. rewrite Ee in E7. done.
Qed.

Lemma Exec_answer_lost_witness :
  let answer := Serialized (exec_response 3 []) in
  ¬ ∃ c' n, ExecContext (newStmt (str "delete from t")) []
    (NewHeraConnection (mkStream [answer] io_EOF) []) = (c', Ret n).
Proof.
  intros answer (c' & n & E).
  exact (Exec_answer_lost (newStmt (str "delete from t")) [] 3 [] io_EOF
    (NewHeraConnection (mkStream [answer] io_EOF) []) c' n ltac:(vm_compute; discriminate) eq_refl E).
Defined.

(** ** A query of a MySQL client *)

Section query.
Context {D Tx Stmt Rows Res : Type} `{!SqlDB D Tx Stmt Rows Res} `{!EqDecision Stmt}.
Context (adapter : CmdProcessorAdapter) (ops : Config.OpsConfig) (info : bool).
Abbreviation St := (CmdProc Tx Stmt Rows Res * WorkerCmd.World D)%type.

(** A query of a MySQL client that the database takes is answered with an OK packet:
    the worker runs the text and writes one end of response; unless that announces more
    requests, the proxy's reader of the worker turns it into one message, and the session
    that waits for the worker sends the client exactly the OK packet with the numbers of the
    database, at the next sequence number, and counts the worker as free. *)
Theorem mysql_query_end_to_end (ns : Packet) (c : Z) (q : bytes) (s : St) d1 res d2 n d3 i :
  unprepared s → in_u16 (CmdProcessor.cp_rqId (core s.1)) → IsMySQL ns = true → Cmd ns = COM_QUERY → Payload ns = c :: q →
  db_Exec q (w_db s.2) = (d1, inr res) → res_RowsAffected res d1 = (d2, inr n) → res_LastInsertId res d2 = (d3, inr i) →
  ∃ p b, w_out (ProcessCmd adapter (Some ns) s).1.2 = w_out s.2 ++ [(p, b)] ∧
    (eor_of p = Some WorkerClient.EORFree → ∀ st wk timer es sx wx, Coordinator.replies wx = [] →
     ∃ rs, WorkerClient.doRead [p] (WorkerClient.mkRead st [] []) = Ret rs ∧
       (Coordinator.events wx = map (λ m, Coordinator.FromWorker (Some m)) (WorkerClient.rd_sent rs) ++ es →
        ∃ s' w', Coordinator.wait_worker ops info 1 wk false timer (sx, wx) = ((s', w'), Ret (false, None)) ∧
          Coordinator.events w' = es ∧
          SessionRuns.sent_to_client (Coordinator.log w') =
          SessionRuns.sent_to_client (Coordinator.log wx) ++ drop 1 (Serialized (ok_packet (Sqid ns) n i)))).
Proof.
  intros Hu Hrq Hm Hc Hp Hdb Hn Hi. pose proof (query_outcome adapter s ns c q Hu Hm Hc Hp) as H. rewrite Hdb in H.
  destruct (H d2 n d3 i Hn Hi) as (_ & more & b & Hw). eexists _, b. split; [exact Hw|].
  set (p := NewNetstringFrom _ _). intros He st wk timer es sx wx Hr.
  assert (CmdProcessor.eor_code WorkerClient.EORFree more = WorkerClient.EORFree) as Hcode.
  { unfold p in He. rewrite eor_of_From in He by (by destruct more). by destruct more. }
  destruct (SessionRuns.answer_reaches_client ops info [] p WorkerClient.EORFree (CmdProcessor.cp_rqId (core s.1)) st
    (Some (ok_packet (Sqid ns) n i)) wk timer es sx wx) as (rs & E & Hrun); try done.
  { unfold p. by rewrite From_Payload, Hcode. }
  exists rs. split; [exact E|]. intros Hev. destruct (Hrun Hev) as (s' & w' & E1 & _ & E3 & E4).
  exists s', w'. by split_and!.
Qed.

End query.

Lemma mysql_query_end_to_end_witness :
  ∃ p b, w_out (ProcessCmd Adapter.Mysql.mysqlAdapter (Some insert_query) (Toy.proc, Toy.world 2)).1.2 = [] ++ [(p, b)] ∧
    (eor_of p = Some WorkerClient.EORFree → ∀ st wk timer es sx wx, Coordinator.replies wx = [] →
     ∃ rs, WorkerClient.doRead [p] (WorkerClient.mkRead st [] []) = Ret rs ∧
       (Coordinator.events wx = map (λ m, Coordinator.FromWorker (Some m)) (WorkerClient.rd_sent rs) ++ es →
        ∃ s' w', Coordinator.wait_worker CoordinatorFacts.sample_opsconfig false 1 wk false timer (sx, wx) = ((s', w'), Ret (false, None)) ∧
          Coordinator.events w' = es ∧
          SessionRuns.sent_to_client (Coordinator.log w') =
          SessionRuns.sent_to_client (Coordinator.log wx) ++ drop 1 (Serialized (ok_packet (Sqid insert_query) 1 7)))).
Proof.
  refine (mysql_query_end_to_end Adapter.Mysql.mysqlAdapter CoordinatorFacts.sample_opsconfig false insert_query 3
    (str "insert into t values (1)") (Toy.proc, Toy.world 2) _ tt _ 1 _ 7 _ _ eq_refl eq_refl eq_refl eq_refl eq_refl eq_refl).
  - by split_and!.
  - done.
Defined.

End EndToEnd.
