(* ===== verification/Connection.v ===== *)
(** * The connection handler (lib/connectionhandler.go)

    One goroutine per client: the handshake of the MySQL protocol, then a loop that reads
    packets from the connection and hands them to the session. The connection is a reader
    of bytes and a log of what the handler does; the global connection counter is part of
    the state. *)

From S2P Require Import Prelude GoIO Codes Netstring MysqlPackets WorkerPool Coordinator.
From stdpp Require Import base list strings.
From Stdlib Require Import ZArith Lia.
Import Codes Netstring WorkerPool Mysql.
Open Scope Z_scope.

Module Connection.

Definition CLIENT_CONNECT_WITH_DB : Z := Z.shiftl 1 3.
Definition CLIENT_PLUGIN_AUTH : Z := Z.shiftl 1 19.
Definition CLIENT_CONNECT_ATTRS : Z := Z.shiftl 1 20.
Definition CLIENT_PLUGIN_AUTH_LENENC_CLIENT_DATA : Z := Z.shiftl 1 21.

(** ** What the handler does *)

Inductive conn_action : Type :=
  | Published (oldCState newCState : ConnState)
  | Written (data : bytes)
  | SessionStarted
  | Forwarded (ns : Packet)
  | ConnClosed
  | CtxCancelled
  | ChannelClosed.

Record Conn := mkConn { c_in : stream; connection_id : Z; c_log : list conn_action }.

Definition emit (a : conn_action) : io Conn unit := λ c, (mkConn (c_in c) (connection_id c) (c_log c ++ [a]), Ret tt).

(** A call that reads from the connection. *)
Definition reading {A} (m : io stream A) : io Conn A := λ c,
  let '(s, r) := m (c_in c) in (mkConn s (connection_id c) (c_log c), r).

(** The counter, then its increment. *)
Definition next_connection_id : io Conn Z := λ c,
  (mkConn (c_in c) (i64 (connection_id c + 1)) (c_log c), Ret (connection_id c)).

(** ** The handshake *)

Definition scramble : bytes := str "ham&eggs".

(** The payload of a handshake packet, built in [writeBuf]. *)
Definition handshake_payload (writeBuf : bytes) (thread_id : Z) : result bytes :=
  let cflags := u32 CLIENT_PROTOCOL_41 in
  '(writeBuf, pos) ← WriteFixedLenInt writeBuf INT1 0xa 0;
  '(writeBuf, pos) ← WriteString writeBuf (str "hera_server") NULLSTR pos 0;
  '(writeBuf, pos) ← WriteFixedLenInt writeBuf INT4 thread_id pos;
  '(writeBuf, pos) ← WriteString writeBuf scramble FIXEDSTR pos 8;
  '(writeBuf, pos) ← WriteFixedLenInt writeBuf INT1 0 pos;
  '(writeBuf, pos) ← WriteFixedLenInt writeBuf INT2 cflags pos;
  '(writeBuf, pos) ← WriteFixedLenInt writeBuf INT1 0xff pos;
  '(writeBuf, pos) ← WriteFixedLenInt writeBuf INT2 0 pos;
  '(writeBuf, pos) ← WriteFixedLenInt writeBuf INT2 (Z.shiftr cflags 16) pos;
  '(writeBuf, pos) ← (if Supports cflags CLIENT_PLUGIN_AUTH then WriteFixedLenInt writeBuf INT1 0xaa pos
                      else WriteFixedLenInt writeBuf INT1 0 pos);
  '(writeBuf, pos) ← WriteString writeBuf (str "0000000000") FIXEDSTR pos 10;
  '(writeBuf, pos) ← WriteString writeBuf scramble LENENCSTR pos 13;
  '(writeBuf, pos) ← (if Supports cflags CLIENT_PLUGIN_AUTH
                      then WriteString writeBuf (str "temp_auth") NULLSTR pos 0 else Ret (writeBuf, pos));
  slice writeBuf 0 pos.

(** A write error is only logged. *)
Definition sendHandshake : io Conn unit :=
  writeBuf ← lift (make_bytes MAX_PACKET_SIZE);
  thread_id ← next_connection_id;
  payload ← lift (handshake_payload writeBuf thread_id);
  handshake ← lift (NewMySQLPacketFrom 0 payload);
  data ← lift (slice_from (Serialized handshake) 1);
  emit (Written data).

(** [reader.ReadByte()] with the error ignored: the byte is then zero. *)
Definition next_byte : io (bufio.t stream) byte := λ b,
  match bufio.ReadByte b with
  | (b, Error _) => (b, Ret 0)
  | x => x
  end.

(** [io.ReadFull] into a slice of [n] zero bytes, with the error ignored; a [Read] that
    returns delivers at least one byte. *)
Fixpoint ReadFull (fuel n : nat) (got : bytes) : io (bufio.t stream) bytes := λ b,
  if (n <=? length got)%nat then (b, Ret got)
  else
    match fuel with
    | O => (b, Hang)
    | S fuel =>
      match Read (Z.of_nat (n - length got)) b with
      | (b, Ret d) => ReadFull fuel n (got ++ d) b
      | (b, Error _) => (b, Ret (got ++ replicate (n - length got) 0))
      | (b, Panic) => (b, Panic)
      | (b, Fatal) => (b, Fatal)
      | (b, Hang) => (b, Hang)
      end
    end.

(** The handshake response, its values thrown away. *)
Definition parse_response (packet : bytes) : result unit :=
  let cflags := u32 CLIENT_PROTOCOL_41 in
  if negb (Supports cflags CLIENT_PROTOCOL_41) then
    '(_, pos) ← ReadFixedLenInt packet INT2 0;
    '(_, pos) ← ReadFixedLenInt packet INT3 pos;
    '(_, pos) ← ReadString packet NULLSTR pos 0;
    (if Supports cflags CLIENT_CONNECT_WITH_DB then
       '(_, pos) ← ReadString packet NULLSTR pos 0;
       _ ← ReadString packet NULLSTR pos 0; Ret tt
     else _ ← ReadString packet EOFSTR pos (zlen packet - pos); Ret tt)
  else
    '(flags, pos) ← ReadFixedLenInt packet INT4 0;
    let cflags := Z.land cflags (u32 flags) in
    '(_, pos) ← ReadFixedLenInt packet INT4 pos;
    '(_, pos) ← ReadFixedLenInt packet INT1 pos;
    '(_, pos) ← ReadString packet FIXEDSTR pos 23;
    '(_, pos) ← ReadString packet NULLSTR pos 0;
    '(_, pos) ← (if Supports cflags CLIENT_PLUGIN_AUTH_LENENC_CLIENT_DATA then ReadString packet LENENCSTR pos 0
                 else '(n, pos) ← ReadFixedLenInt packet INT1 pos; ReadString packet FIXEDSTR pos n);
    '(_, pos) ← (if Supports cflags CLIENT_CONNECT_WITH_DB then ReadString packet NULLSTR pos 0 else Ret ([], pos));
    '(_, pos) ← (if Supports cflags CLIENT_PLUGIN_AUTH then ReadString packet NULLSTR pos 0 else Ret ([], pos));
    if Supports cflags CLIENT_CONNECT_ATTRS then _ ← ReadLenEncInt packet pos; Ret tt else Ret tt.

(** The packet that carries the response and its sequence number, incremented. *)
Definition read_response : io (bufio.t stream) (bytes * Z) :=
  a ← next_byte;
  b ← next_byte;
  d ← next_byte;
  let length := Z.lor (Z.lor (Z.shiftl d 16) (Z.shiftl b 8)) a in
  sqid ← next_byte;
  packet ← ReadFull (Z.to_nat length) (Z.to_nat length) [];
  mret (packet, u8 (sqid + 1)).

(** The buffered reader is dropped, with what it has read ahead. *)
Definition buffered {A} (m : io (bufio.t stream) A) : io stream A := λ s,
  let '(b, r) := m (bufio.NewReader s) in (bufio.rd b, r).

Definition readHandshakeResponse : io Conn unit :=
  '(packet, sqid) ← reading (buffered read_response);
  _ ← lift (parse_response packet);
  payload ← lift (OKPacket 0 0 0 (str "Welcome to Hera!"));
  ok ← lift (NewMySQLPacketFrom sqid payload);
  data ← lift (slice_from (Serialized ok) 1);
  emit (Written data).

(** ** The command phase *)

Section handler.
(** The log level is at least Info. *)
Variable info : bool.

(** The goroutine that reads one packet; [None] is the nil it sends. The log line of a
    read error and the size check take a field of the packet. *)
Definition wrapNewNetstring (isMySQL : bool) : io stream (option Packet) := λ s,
  match (if isMySQL then NewInitSQLPacket s
         else let '(s, r) := NewInitNetstring s in (s, p ← r; Ret (Some p))) with
  | (s, Ret None) => (s, Panic)
  | (s, Ret (Some ns)) => (s, Ret (Some ns))
  | (s, Error e) =>
      if bool_decide (e = io_EOF) then (s, Ret None)
      else if info then (s, Panic) else (s, Ret None)
  | (s, Panic) => (s, Panic)
  | (s, Fatal) => (s, Fatal)
  | (s, Hang) => (s, Hang)
  end.

(** What the select of the loop takes: the next packet, or the idle timeout of the
    session, with the part of a packet that has arrived by then. *)
Inductive arrival : Type :=
  | NextPacket
  | IdleTimeout (partial : bytes).

Definition errClosing : go_error := errors_New (str "use of closed network connection").

(** The goroutine left behind by the timeout reads on from the closed connection. *)
Definition left_behind (partial : bytes) : io Conn unit := λ c,
  (c, let '(_, r) := wrapNewNetstring true (mkStream [partial] errClosing) in _ ← r; Ret tt).

Definition ends_session (ns : Packet) : bool :=
  (IsMySQL ns && (Cmd ns =? COM_QUIT)) || (IsMySQL ns && (Cmd ns =? COM_SLEEP)) || (IsMySQL ns && (Cmd ns =? COM_SHUTDOWN)).

Fixpoint handle_loop (arrivals : list arrival) : io Conn unit :=
  match arrivals with
  | [] => lift Hang
  | IdleTimeout partial :: _ => _ ← emit ConnClosed; left_behind partial
  | NextPacket :: arrivals =>
      ns ← reading (wrapNewNetstring true);
      match ns with
      | None => mret tt
      | Some ns => if ends_session ns then mret tt else _ ← emit (Forwarded ns); handle_loop arrivals
      end
  end.

(** The deferred function runs at the end. *)
Definition HandleConnection (arrivals : list arrival) : io Conn unit :=
  _ ← emit (Published Close Idle);
  _ ← sendHandshake;
  _ ← readHandshakeResponse;
  _ ← emit SessionStarted;
  _ ← handle_loop arrivals;
  _ ← emit ConnClosed;
  _ ← emit CtxCancelled;
  _ ← emit ChannelClosed;
  emit (Published Idle Close).

End handler.

(** What the session sees of the handler. *)
Definition channel (log : list conn_action) : list Coordinator.event :=
  l ← log;
  match l with
  | Forwarded ns => [Coordinator.Client (Some ns)]
  | ChannelClosed => [Coordinator.Client None]
  | _ => []
  end.

(** ** The handshake packet *)

Definition handshake_bytes (thread_id : Z) : bytes :=
  [0xa] ++ (str "hera_server" ++ [0]) ++ le_bytes 4 thread_id ++ scramble ++ [0; 0; 2; 0xff; 0; 0; 0; 0; 0] ++
  str "0000000000" ++ [8] ++ scramble ++ replicate 5 0.

Lemma fill_lenencstr pre m s l : zlen s < 251 → zlen s <= l → l + 1 <= Z.of_nat m →
  WriteString (pre ++ replicate m 0) s LENENCSTR (zlen pre) l =
  Ret (((pre ++ [zlen s]) ++ s ++ replicate (Z.to_nat l - length s) 0) ++ replicate (m - 1 - Z.to_nat l) 0,
       zlen ((pre ++ [zlen s]) ++ s ++ replicate (Z.to_nat l - length s) 0)).
Proof.
  intros Hs Hl Hm. assert (u64 (zlen s) = zlen s) as E by (apply Z.mod_small; lia).
  assert (lenenc (zlen s) = [zlen s]) as El.
  { unfold lenenc, calculateLenEnc. destruct (Z.leb_spec 251 (zlen s)); [lia|]. cbn [andb].
    destruct (Z.leb_spec (Z.shiftl 1 16) (zlen s)) as [Hq|]; [change (Z.shiftl 1 16) with 65536 in Hq; lia|]. cbn [andb].
    destruct (Z.leb_spec (Z.shiftl 1 24) (zlen s)) as [Hq|]; [change (Z.shiftl 1 24) with 16777216 in Hq; lia|].
    rewrite i64_id by go_lia. cbn. f_equal. apply Z.mod_small. lia. }
  cbn [WriteString]. rewrite E, fill_lenenc; [|unfold in_u64; lia|pose proof (length_lenenc (zlen s)) as HL; rewrite El in HL; cbn in HL; unfold in_u64 in HL; lia].
  rewrite El. cbn [mbind result_bind length]. apply (fill_fixedstr _ _ s l). lia.
Qed.

Lemma slice_front (p q : bytes) : slice (p ++ q) 0 (zlen p) = Ret p.
Proof.
  unfold slice. rewrite length_app, !(proj2 (Z.leb_le _ _)) by lia. cbn [andb].
  rewrite Z.sub_0_r, Nat2Z.id. change (drop (Z.to_nat 0) (p ++ q)) with (p ++ q). by rewrite take_app_length.
Qed.

(** The constant strings have room in what is left of the buffer. *)
Ltac room :=
  repeat match goal with |- context [length ?s] =>
    let s' := constr:(length s) in let n := eval vm_compute in s' in
    match n with context [length] => fail 1 | _ => change (length s) with n end end;
  unfold int_size, INT1, INT2, INT4; lia.

Ltac fills := rewrite fill_fixed by room; cbn [mbind result_bind].

Lemma handshake_payload_bytes m thread_id : (64 <= m)%nat →
  handshake_payload (replicate m 0) thread_id = Ret (handshake_bytes thread_id).
Proof.
  intros Hm. unfold handshake_payload. cbv zeta.
  change (Supports (u32 CLIENT_PROTOCOL_41) CLIENT_PLUGIN_AUTH) with false. cbv iota.
  pose proof (fill_fixed [] m INT1 0xa ltac:(by left) ltac:(unfold INT1; lia)) as E.
  cbn [app] in E. change (zlen []) with 0 in E. rewrite E. cbn [mbind result_bind]. clear E.
  rewrite fill_nullstr by room. cbn [mbind result_bind]. fills.
  rewrite fill_fixedstr by room. cbn [mbind result_bind]. do 6 fills.
  rewrite fill_fixedstr by room. cbn [mbind result_bind].
  rewrite fill_lenencstr by room. cbn [mbind result_bind].
  rewrite slice_front, <- !app_assoc. done.
Qed.

Lemma length_handshake_bytes thread_id : length (handshake_bytes thread_id) = 58%nat.
Proof. unfold handshake_bytes. rewrite !length_app, length_le_bytes. done. Qed.

Definition written (data : bytes) (c : Conn) : Conn := mkConn (c_in c) (connection_id c) (c_log c ++ [Written data]).

(** Writing the packet of a payload without its indicator byte. *)
Lemma write_packet (sqid cmd : Z) (rest : bytes) (c : Conn) :
  (p ← lift (NewMySQLPacketFrom sqid (cmd :: rest)); data ← lift (slice_from (Serialized p) 1); emit (Written data)) c =
  (written (header (zlen (cmd :: rest)) sqid ++ cmd :: rest) c, Ret tt).
Proof.
  unfold NewMySQLPacketFrom. rewrite packet_from_eq.
  unfold lift, mbind, io_bind. cbn [Serialized]. unfold slice_from.
  rewrite !(proj2 (Z.leb_le _ _)) by (cbn [length]; lia). done.
Qed.

Lemma sendHandshake_eq (c : Conn) :
  sendHandshake c =
  (written (header 58 0 ++ handshake_bytes (connection_id c)) (mkConn (c_in c) (i64 (connection_id c + 1)) (c_log c)), Ret tt).
Proof.
  unfold sendHandshake. rewrite (io_bind_Ret _ _ c c (replicate (Z.to_nat MAX_PACKET_SIZE) 0)) by done.
  unfold next_connection_id at 1. unfold mbind at 1, io_bind at 1. set (c1 := mkConn _ _ _).
  rewrite (io_bind_Ret _ _ c1 c1 (handshake_bytes (connection_id c))).
  2: { unfold lift. rewrite handshake_payload_bytes; [done|change MAX_PACKET_SIZE with 16777215; lia]. }
  pose proof (length_handshake_bytes (connection_id c)) as Hl.
  destruct (handshake_bytes (connection_id c)) as [|cmd rest]; [done|].
  rewrite write_packet. by rewrite Hl.
Qed.

(** Every client is greeted with the same handshake packet: sequence number 0,
    protocol version 10, the server version "hera_server", the connection's number, the
    scramble, the single capability CLIENT_PROTOCOL_41, character set 255, and the
    scramble again as a length-encoded string in a slot of 13 bytes; the connection
    counter moves on. *)
Theorem sendHandshake_greets (c : Conn) :
  sendHandshake c =
  (written (header 58 0 ++ handshake_bytes (connection_id c)) (mkConn (c_in c) (i64 (connection_id c + 1)) (c_log c)), Ret tt).
Proof. apply sendHandshake_eq. Qed.

(** The buffer of the handshake is large. *)
#[local] Opaque sendHandshake.

(** ** The response of the client *)

Lemma next_byte_some (b : bufio.t stream) x l : unread b = x :: l →
  ∃ b', next_byte b = (b', Ret x) ∧ unread b' = l.
Proof. intros E. unfold next_byte. destruct (bufio.ReadByte_some b x l E) as (b' & -> & ? & _). eauto. Qed.

Lemma next_byte_end (b : bufio.t stream) : unread b = [] → ∃ b', next_byte b = (b', Ret 0) ∧ unread b' = [].
Proof. intros E. unfold next_byte. destruct (bufio.ReadByte_end b E) as (b' & -> & ?). eauto. Qed.

Lemma buffer_read_app (d l : bytes) n : (length d <= n)%nat → buffer_read (d ++ l) n = d ++ buffer_read l (n - length d).
Proof.
  intros H. unfold buffer_read. rewrite take_app_ge by done. rewrite length_app, <- app_assoc. do 3 f_equal. lia.
Qed.

Lemma length_buffer_read (l : bytes) n : length (buffer_read l n) = n.
Proof. unfold buffer_read. rewrite length_app, length_take, length_replicate. lia. Qed.

(** [ReadFull] fills the slice with what arrives, and leaves zeros after the end. *)
Lemma ReadFull_reads (fuel n : nat) (got : bytes) (b : bufio.t stream) : (n <= fuel + length got)%nat →
  ∃ b', ReadFull fuel n got b = (b', Ret (got ++ buffer_read (unread b) (n - length got))).
Proof.
  revert got b. induction fuel as [|fuel IH]; intros got b Hf; cbn [ReadFull].
  - rewrite (proj2 (Nat.leb_le _ _)) by lia. exists b. do 2 f_equal.
    replace (n - length got)%nat with 0%nat by lia. unfold buffer_read. by rewrite take_0, app_nil_r.
  - destruct (Nat.leb_spec n (length got)) as [H|H].
    { exists b. do 2 f_equal. replace (n - length got)%nat with 0%nat by lia. unfold buffer_read. by rewrite take_0, app_nil_r. }
    destruct (decide (unread b = [])) as [E|E].
    + destruct (Read_end (Z.of_nat (n - length got)) b) as (b' & -> & _); [lia|done|]. exists b'. rewrite E. unfold buffer_read.
      rewrite take_nil, Nat.sub_0_r. done.
    + destruct (Read_some (Z.of_nat (n - length got)) b) as (b' & d & -> & Hd & Hl & Hu & _); [lia|done|].
      assert (0 < length d)%nat by (destruct d; [done|cbn; lia]).
      destruct (IH (got ++ d) b') as [b'' ->]; [rewrite length_app; lia|]. exists b''.
      rewrite Hu, buffer_read_app by lia. rewrite <- app_assoc, length_app, Nat.sub_add_distr. done.
Qed.

Lemma header_value len sqid : 0 <= len < 2 ^ 24 → 0 <= sqid < 256 →
  ∃ a b d, header len sqid = [a; b; d; sqid] ∧ Z.lor (Z.lor (Z.shiftl d 16) (Z.shiftl b 8)) a = len.
Proof.
  intros Hl Hs. assert (Forall is_byte (header len sqid)) as Hb by (apply Forall_app_2; apply le_bytes_is_byte).
  pose proof (read3_ok (header len sqid) 0 Hb 0) as E. rewrite length_header in E. specialize (E ltac:(lia)).
  change (take 3 (drop 0 (header len sqid))) with (le_bytes 3 len) in E. rewrite le_word_le_bytes in E.
  rewrite !Z.mul_0_l, !Z.add_0_l, Z.mod_small in E by lia. revert E. unfold header.
  change (le_bytes 1 sqid) with [sqid mod 256]. rewrite (Z.mod_small sqid) by lia.
  pose proof (length_le_bytes 3 len) as H3. destruct (le_bytes 3 len) as [|a [|b [|d [|]]]]; try done.
  intros E. exists a, b, d. split; [done|]. cbn in E. by injection E.
Qed.

Lemma read_response_ok (len sqid : Z) (data : bytes) (b : bufio.t stream) : 0 <= len < 2 ^ 24 → 0 <= sqid < 256 →
  unread b = header len sqid ++ data →
  ∃ b', read_response b = (b', Ret (buffer_read data (Z.to_nat len), u8 (sqid + 1))).
Proof.
  intros Hl Hs Hu. destruct (header_value len sqid Hl Hs) as (x & y & z & E & El). rewrite E in Hu. unfold read_response.
  destruct (next_byte_some b _ _ Hu) as (b1 & E1 & Hu1). rewrite (io_bind_Ret _ _ _ _ _ E1).
  destruct (next_byte_some b1 _ _ Hu1) as (b2 & E2 & Hu2). rewrite (io_bind_Ret _ _ _ _ _ E2).
  destruct (next_byte_some b2 _ _ Hu2) as (b3 & E3 & Hu3). rewrite (io_bind_Ret _ _ _ _ _ E3). cbv zeta. rewrite El.
  destruct (next_byte_some b3 _ _ Hu3) as (b4 & E4 & Hu4). rewrite (io_bind_Ret _ _ _ _ _ E4).
  destruct (ReadFull_reads (Z.to_nat len) (Z.to_nat len) [] b4) as (b5 & E5); [lia|]. cbn [app length] in E5.
  rewrite (io_bind_Ret _ _ _ _ _ E5). rewrite Nat.sub_0_r. rewrite <- Hu4. by exists b5.
Qed.

(** The answer of the parser: nothing but the length, the zero byte that ends the user
    name and the byte after it matters. *)
Definition response_verdict (packet : bytes) : result unit :=
  if zlen packet <? 9 then Fatal
  else if zlen packet <? 32 then Panic
  else
    match read_bytes_until 0 (drop 32 packet) with
    | None => Fatal
    | Some line => if zlen packet <=? 32 + zlen line then Fatal else Ret tt
    end.

Lemma Supports_masked (mask f c : Z) : Z.land mask (u32 c) = 0 → Supports (Z.land mask f) c = false.
Proof.
  intros E. unfold Supports. rewrite (Z.land_comm mask f), <- Z.land_assoc, E, Z.land_0_r. done.
Qed.

Lemma ReadFixedLenInt_short (data : bytes) l pos : 0 <= pos <= zlen data → zlen data < pos + l →
  ReadFixedLenInt data l pos = Fatal.
Proof.
  intros Hp Hl. unfold ReadFixedLenInt, slice_from. rewrite !(proj2 (Z.leb_le _ _)) by lia. cbn [mbind result_bind andb].
  unfold checkSize. rewrite length_drop, (proj2 (Z.ltb_lt _ _)) by lia. done.
Qed.

Lemma length_read_bytes_until (delim : byte) (l line : bytes) : read_bytes_until delim l = Some line → (length line <= length l)%nat.
Proof.
  revert line. induction l as [|x l IH]; intros line; cbn; [done|]. destruct (x =? delim); [intros [= <-]; cbn; lia|].
  destruct (read_bytes_until delim l) as [line'|]; [|done]. intros [= <-]. cbn. specialize (IH line' eq_refl). lia.
Qed.

Lemma ReadString_fixed (data : bytes) pos l : 0 <= pos <= zlen data → 0 <= l →
  ReadString data FIXEDSTR pos l = Ret (buffer_read (drop (Z.to_nat pos) data) (Z.to_nat l), pos + l).
Proof.
  intros Hp Hl. unfold ReadString, slice_from. rewrite !(proj2 (Z.leb_le _ _)) by lia. cbn [andb mbind result_bind].
  by rewrite (proj2 (Z.ltb_ge _ _)) by lia.
Qed.

Lemma ReadString_null (data : bytes) pos l : 0 <= pos →
  ReadString data NULLSTR pos l =
  if pos <=? zlen data then
    match read_bytes_until 0 (drop (Z.to_nat pos) data) with Some line => Ret (line, pos + zlen line) | None => Fatal end
  else Panic.
Proof.
  intros Hp. unfold ReadString, slice_from. rewrite (proj2 (Z.leb_le 0 _)) by lia. cbn [andb].
  by destruct (pos <=? zlen data).
Qed.

Lemma parse_response_verdict (packet : bytes) : Forall is_byte packet → parse_response packet = response_verdict packet.
Proof.
  intros Hb. unfold parse_response. change (Supports (u32 CLIENT_PROTOCOL_41) CLIENT_PROTOCOL_41) with true. cbn [negb]. cbv zeta.
  unfold response_verdict. destruct (Z.ltb_spec (zlen packet) 9) as [H9|H9].
  { destruct (decide (zlen packet < 4)); [by rewrite ReadFixedLenInt_short by (unfold INT4; lia)|].
    rewrite ReadFixedLenInt_ok by (unfold int_size, INT4; lia || done). cbn [mbind result_bind].
    destruct (decide (zlen packet < 8)); [by rewrite ReadFixedLenInt_short by (unfold INT4; lia)|].
    rewrite ReadFixedLenInt_ok by (unfold int_size, INT4; lia || done). cbn [mbind result_bind].
    by rewrite ReadFixedLenInt_short by (unfold INT4, INT1; lia). }
  rewrite !ReadFixedLenInt_ok by (unfold int_size, INT4; lia || done). cbn [mbind result_bind].
  rewrite !ReadFixedLenInt_ok by (unfold int_size, INT4; lia || done). cbn [mbind result_bind].
  rewrite !ReadFixedLenInt_ok by (unfold int_size, INT4, INT1; lia || done). cbn [mbind result_bind].
  rewrite ReadString_fixed by (unfold INT4, INT1; lia). cbn [mbind result_bind].
  replace (0 + INT4 + INT4 + INT1 + 23) with 32 by done. rewrite ReadString_null by done.
  destruct (Z.ltb_spec (zlen packet) 32) as [H|H]; [by rewrite (proj2 (Z.leb_gt _ _)) by lia|].
  rewrite !(proj2 (Z.leb_le _ _)) by lia. cbn [andb mbind result_bind]. change (Z.to_nat 32) with 32%nat.
  destruct (read_bytes_until 0 (drop 32 packet)) as [line|] eqn:E; [|done].
  apply length_read_bytes_until in E. rewrite length_drop in E. cbn [mbind result_bind].
  rewrite !Supports_masked by done. destruct (Z.leb_spec (zlen packet) (32 + zlen line)).
  { by rewrite ReadFixedLenInt_short by (unfold INT1; lia). }
  rewrite ReadFixedLenInt_ok by (unfold int_size, INT1; lia || done). cbn [mbind result_bind].
  set (w := le_word _). assert (0 <= w < 256) as Hw.
  { subst w. change 256 with (2 ^ (8 * 1)).
    pose proof (le_word_range (take (Z.to_nat INT1) (drop (Z.to_nat (32 + zlen line)) packet))) as R.
    rewrite length_take, length_drop in R. replace (Z.to_nat INT1 `min` _)%nat with 1%nat in R by (unfold INT1; lia).
    apply R. by apply Forall_take, Forall_drop. }
  rewrite i64_id by go_lia. by rewrite ReadString_fixed by (unfold INT1; lia).
Qed.

Lemma Forall_buffer_read (l : bytes) n : Forall is_byte l → Forall is_byte (buffer_read l n).
Proof.
  intros H. unfold buffer_read. apply Forall_app_2; [by apply Forall_take|]. apply Forall_replicate. unfold is_byte, in_u8. lia.
Qed.

Definition at_stream (s : stream) (c : Conn) : Conn := mkConn s (connection_id c) (c_log c).

(** From the packet that was read on. *)
Lemma readHandshakeResponse_from (c : Conn) (b : bufio.t stream) (packet : bytes) (sqid : Z) : Forall is_byte packet →
  read_response (bufio.NewReader (c_in c)) = (b, Ret (packet, sqid)) →
  readHandshakeResponse c =
    match response_verdict packet with
    | Ret _ => (written (header 3 sqid ++ [0; 0; 0]) (at_stream (bufio.rd b) c), Ret tt)
    | r => (at_stream (bufio.rd b) c, r)
    end.
Proof.
  intros Hb E. unfold readHandshakeResponse, at_stream. set (c1 := mkConn _ _ _).
  rewrite (io_bind_Ret _ _ c c1 (packet, sqid)) by (unfold reading, buffered; by rewrite E).
  pose proof (parse_response_verdict _ Hb) as Ev.
  destruct (response_verdict _) as [[]| | | |]; [|unfold lift at 1, mbind, io_bind; by rewrite Ev..].
  rewrite (io_bind_Ret _ _ c1 c1 tt) by (unfold lift; by rewrite Ev).
  rewrite (io_bind_Ret _ _ c1 c1 [0; 0; 0]) by (unfold lift; by rewrite OKPacket_bytes).
  apply (write_packet _ 0 [0; 0]).
Qed.

(** The response of a client, of any length the header can give, is judged by its
    length, the end of the user name and the byte after it alone: a good one is answered
    with an OK packet at the next sequence number, and every other one, a response of
    fewer than 33 bytes or one that arrives short among them, ends the process for all
    clients. *)
Theorem readHandshakeResponse_answers (c : Conn) (len sqid : Z) (data : bytes) :
  0 <= len < 2 ^ 24 → 0 <= sqid < 256 → Forall is_byte data → unread (c_in c) = header len sqid ++ data →
  ∃ s', readHandshakeResponse c =
    match response_verdict (buffer_read data (Z.to_nat len)) with
    | Ret _ => (written (header 3 (u8 (sqid + 1)) ++ [0; 0; 0]) (at_stream s' c), Ret tt)
    | r => (at_stream s' c, r)
    end.
Proof.
  intros Hl Hs Hd Hu. destruct (read_response_ok len sqid data (bufio.NewReader (c_in c)) Hl Hs Hu) as (b & E).
  exists (bufio.rd b). apply readHandshakeResponse_from; [by apply Forall_buffer_read|done].
Qed.

(** A client that connects and leaves takes the proxy with it. *)
Lemma closed_before_response_exits (c : Conn) : unread (c_in c) = [] → ∃ c', readHandshakeResponse c = (c', Fatal).
Proof.
  intros Hu. assert (∃ b, read_response (bufio.NewReader (c_in c)) = (b, Ret ([], 1))) as [b E].
  { unfold read_response. destruct (next_byte_end (bufio.NewReader (c_in c)) Hu) as (b1 & E1 & Hu1). rewrite (io_bind_Ret _ _ _ _ _ E1).
    destruct (next_byte_end b1 Hu1) as (b2 & E2 & Hu2). rewrite (io_bind_Ret _ _ _ _ _ E2).
    destruct (next_byte_end b2 Hu2) as (b3 & E3 & Hu3). rewrite (io_bind_Ret _ _ _ _ _ E3).
    destruct (next_byte_end b3 Hu3) as (b4 & E4 & _). rewrite (io_bind_Ret _ _ _ _ _ E4). by exists b4. }
  eexists. by rewrite (readHandshakeResponse_from c b [] 1).
Qed.

(** ** Commands *)

(** A command packet, as it is on the wire and as the proxy reads it. *)
Record command := mkCommand { cmd_sqid : Z; cmd_code : Z; cmd_args : bytes }.

Definition cmd_payload (k : command) : bytes := cmd_code k :: cmd_args k.
Definition wire (k : command) : bytes := header (zlen (cmd_payload k)) (cmd_sqid k) ++ cmd_payload k.
Definition cmd_packet (k : command) : Packet :=
  mkPacket (cmd_code k) (0 :: wire k) (cmd_payload k) (zlen (cmd_payload k)) (cmd_sqid k) true.

Definition cmd_ok (k : command) : Prop := 0 <= cmd_sqid k < 256 ∧ zlen (cmd_payload k) < 2 ^ 24.

(** A payload that is one chunk is read in one go. *)
Lemma read_payload_chunk (fuel : nat) (ser p : bytes) (pos total : Z) cs f : p ≠ [] → 0 <= pos →
  zlen ser = total + 1 → total + 1 = pos + zlen p →
  read_payload (Datatypes.S fuel) ser pos total (mkStream (p :: cs) f) =
  (mkStream cs f, Ret (overwrite ser (Z.to_nat pos) p, total + 1)).
Proof.
  intros Hp Hpos Hs Ht. cbn [read_payload].
  assert (0 < zlen p) by (destruct p; [done|cbn [length]; lia]). rewrite (proj2 (Z.ltb_lt _ _)) by lia.
  rewrite (io_bind_Ret _ _ (mkStream (p :: cs) f) (mkStream (p :: cs) f) (drop (Z.to_nat pos) ser)).
  2: { unfold lift, slice_from. by rewrite !(proj2 (Z.leb_le _ _)) by lia. }
  rewrite (io_bind_Ret _ _ (mkStream (p :: cs) f) (mkStream cs f) p).
  2: { unfold Read, stream_Reader, stream_Read. cbn [chunks fin]. destruct p as [|x p]; [done|]. cbn [read_chunks].
       by rewrite drop_ge, take_ge by (rewrite length_drop; lia). }
  rewrite <- Ht. destruct fuel; cbn [read_payload]; by rewrite (proj2 (Z.ltb_ge _ _)) by lia.
Qed.

Lemma NewInitSQLPacket_command (k : command) (cs : list bytes) (f : go_error) : cmd_ok k →
  NewInitSQLPacket (mkStream (wire k :: cs) f) = (mkStream cs f, Ret (Some (cmd_packet k))).
Proof.
  intros [Hs Hl]. unfold NewInitSQLPacket, cmd_packet, wire. set (p := cmd_payload k) in *.
  assert (length (header (zlen p) (cmd_sqid k)) = 4%nat) as Hh by apply length_header.
  assert (0 < zlen p) as Hp by (subst p; unfold cmd_payload; cbn [length]; lia).
  rewrite (io_bind_Ret _ _ _ (mkStream (p :: cs) f) (header (zlen p) (cmd_sqid k))).
  2: { unfold read_into, Read, stream_Reader, stream_Read. cbn [chunks fin]. rewrite length_replicate.
       destruct (header (zlen p) (cmd_sqid k)) as [|a [|b [|d [|e [|]]]]]; try done. }
  destruct (ReadFixedLenInt_header (zlen p) (cmd_sqid k)) as [E1 E2]; [lia|done|].
  rewrite (io_bind_Ret _ _ _ (mkStream (p :: cs) f) (zlen p, 3)) by (unfold lift; by rewrite E1).
  rewrite (io_bind_Ret _ _ _ (mkStream (p :: cs) f) (cmd_sqid k, 4)) by (unfold lift; by rewrite E2).
  rewrite (proj2 (Z.eqb_neq _ _)) by lia.
  assert (read_body 0 (header (zlen p) (cmd_sqid k)) (zlen p) (cmd_sqid k) (mkStream (p :: cs) f) =
    (mkStream cs f, Ret (mkPacket (cmd_code k) (0 :: header (zlen p) (cmd_sqid k) ++ p) p (zlen p) (cmd_sqid k) true))) as E3; [|by rewrite (io_bind_Ret _ _ _ _ _ E3)].
  apply (read_body_from (cmd_code k) (cmd_args k)). change (cmd_code k :: cmd_args k) with p.
  rewrite read_payload_chunk; [done|by subst p|done| |lia].
  rewrite !length_app, length_replicate, Hh. cbn [length]. lia.
Qed.

Lemma NewInitSQLPacket_end (s : stream) : unread s = [] → ∃ s', NewInitSQLPacket s = (s', Ret None).
Proof.
  intros Hu. destruct (Read_end 4 s) as (s' & E & _); [lia|done|]. exists s'. unfold NewInitSQLPacket.
  rewrite (io_bind_Ret _ _ s s' [0; 0; 0; 0]); [done|]. unfold read_into. change (zlen (replicate (Z.to_nat INT4) 0)) with 4. by rewrite E.
Qed.

(** A response that arrives in one piece. *)
Lemma next_byte_buffered (x : byte) (l : bytes) (s : stream) :
  next_byte (bufio.mk (x :: l) s) = (bufio.mk l s, Ret x).
Proof. done. Qed.

Lemma read_response_chunk (len sqid : Z) (data : bytes) cs f : 0 <= sqid < 256 → zlen data = len → len <= 4092 →
  read_response (bufio.NewReader (mkStream ((header len sqid ++ data) :: cs) f)) =
  (bufio.mk [] (mkStream cs f), Ret (data, u8 (sqid + 1))).
Proof.
  intros Hs Hd Hl. destruct (header_value len sqid) as (x & y & z & E & El); [lia|done|]. rewrite E. unfold read_response.
  rewrite (io_bind_Ret _ _ _ (bufio.mk (y :: z :: sqid :: data) (mkStream cs f)) x).
  2: { unfold next_byte, bufio.ReadByte, bufio.NewReader. cbn [bufio.buf bufio.rd].
       unfold Read, stream_Reader, stream_Read. cbn [chunks fin app read_chunks].
       by rewrite drop_ge, take_ge by (cbn [length]; unfold bufio.defaultBufSize; lia). }
  rewrite (io_bind_Ret _ _ _ _ _ (next_byte_buffered _ _ _)).
  rewrite (io_bind_Ret _ _ _ _ _ (next_byte_buffered _ _ _)).
  cbv zeta. rewrite El. rewrite (io_bind_Ret _ _ _ _ _ (next_byte_buffered _ _ _)).
  rewrite (io_bind_Ret _ _ _ (bufio.mk [] (mkStream cs f)) data); [done|].
  replace (Z.to_nat len) with (length data) by lia.
  destruct data as [|w data]; [done|]. cbn [length ReadFull Nat.leb]. unfold Read, bufio.Reader_t, bufio.Read. cbn [bufio.buf bufio.rd].
  rewrite Nat.sub_0_r. replace (Z.to_nat (Z.of_nat (S (length data)))) with (length (w :: data)) by (cbn [length]; lia).
  rewrite drop_all, firstn_all. cbn [app]. destruct (length data) as [|n] eqn:En; cbn [ReadFull length]; rewrite En, Nat.leb_refl; done.
Qed.

Section runs.
Variable info : bool.

Definition forwards (ks : list command) : list conn_action := (λ k, Forwarded (cmd_packet k)) <$> ks.

Lemma handle_loop_commands (ks : list command) arrivals cs f n log :
  Forall cmd_ok ks → Forall (λ k, ends_session (cmd_packet k) = false) ks →
  handle_loop info (replicate (length ks) NextPacket ++ arrivals) (mkConn (mkStream ((wire <$> ks) ++ cs) f) n log) =
  handle_loop info arrivals (mkConn (mkStream cs f) n (log ++ forwards ks)).
Proof.
  revert log. induction ks as [|k ks IH]; intros log Hok Hs; [cbn; by rewrite app_nil_r|].
  apply Forall_cons in Hok as [Hk Hok]. apply Forall_cons in Hs as [Hn Hs]. cbn [length replicate app handle_loop fmap list_fmap].
  rewrite (io_bind_Ret _ _ _ (mkConn (mkStream ((wire <$> ks) ++ cs) f) n log) (Some (cmd_packet k))).
  2: { unfold reading, wrapNewNetstring. cbn [c_in]. by rewrite NewInitSQLPacket_command. }
  rewrite Hn. unfold emit at 1, mbind at 1, io_bind at 1. cbn [c_in connection_id c_log]. rewrite IH by done.
  by rewrite <- app_assoc.
Qed.

(** What is on the wire of a client whose response is good: the response, then commands. *)
Record dialogue := mkDialogue { resp_sqid : Z; resp_data : bytes; commands : list command }.

Definition dialogue_ok (d : dialogue) : Prop :=
  0 <= resp_sqid d < 256 ∧ zlen (resp_data d) <= 4092 ∧ Forall is_byte (resp_data d) ∧ response_verdict (resp_data d) = Ret tt ∧
  Forall cmd_ok (commands d) ∧ Forall (λ k, ends_session (cmd_packet k) = false) (commands d).

Definition dialogue_wire (d : dialogue) : list bytes :=
  (header (zlen (resp_data d)) (resp_sqid d) ++ resp_data d) :: (wire <$> commands d).

Definition greeting (n : Z) (d : dialogue) : list conn_action :=
  [Published Close Idle; Written (header 58 0 ++ handshake_bytes n); Written (header 3 (u8 (resp_sqid d + 1)) ++ [0; 0; 0]);
   SessionStarted].

Definition closing : list conn_action := [ConnClosed; CtxCancelled; ChannelClosed; Published Idle Close].

(** The handler up to the end of the commands. *)
Lemma HandleConnection_commands (d : dialogue) arrivals cs f n : dialogue_ok d →
  HandleConnection info (replicate (length (commands d)) NextPacket ++ arrivals) (mkConn (mkStream (dialogue_wire d ++ cs) f) n []) =
  (_ ← handle_loop info arrivals; _ ← emit ConnClosed; _ ← emit CtxCancelled; _ ← emit ChannelClosed; emit (Published Idle Close))
    (mkConn (mkStream cs f) (i64 (n + 1)) (greeting n d ++ forwards (commands d))).
Proof.
  intros (Hs & Hl & Hb & Hv & Hk & He). unfold HandleConnection. set (c0 := mkConn _ _ _).
  rewrite (io_bind_Ret _ _ c0 (mkConn (c_in c0) n [Published Close Idle]) tt) by done. set (c1 := mkConn _ _ _).
  pose proof (sendHandshake_eq c1) as E. rewrite (io_bind_Ret _ _ _ _ _ E). clear E.
  unfold written. cbn [c_in connection_id c_log dialogue_wire app c0 c1]. set (c2 := mkConn _ _ _).
  pose proof (read_response_chunk (zlen (resp_data d)) (resp_sqid d) (resp_data d) ((wire <$> commands d) ++ cs) f Hs eq_refl Hl) as Er.
  pose proof (readHandshakeResponse_from c2 _ _ _ Hb Er) as E. rewrite Hv in E. rewrite (io_bind_Ret _ _ _ _ _ E). clear Er E.
  unfold written, at_stream. cbn [c_in connection_id c_log bufio.rd app c2]. set (c3 := mkConn _ _ _).
  rewrite (io_bind_Ret _ _ c3 (mkConn (c_in c3) (connection_id c3) (c_log c3 ++ [SessionStarted])) tt) by done.
  cbn [c_in connection_id c_log app c3]. unfold mbind at 1 5, io_bind at 1 5. rewrite handle_loop_commands by done. done.
Qed.

Lemma channel_app l1 l2 : channel (l1 ++ l2) = channel l1 ++ channel l2.
Proof. apply bind_app. Qed.

Lemma channel_forwards ks : channel (forwards ks) = (λ k, Coordinator.Client (Some (cmd_packet k))) <$> ks.
Proof. induction ks as [|k ks IH]; [done|]. cbn. by f_equal. Qed.

(** The client leaves without a goodbye: the end of the connection reads as no packet,
    whose fields the reading goroutine then asks for, and the idle timeout, which closes
    the connection under that goroutine, ends in the same panic. *)
Lemma hangup_panics (d : dialogue) (f : go_error) (n : Z) (leave : arrival) (rest : list arrival) :
  dialogue_ok d → leave = NextPacket ∨ leave = IdleTimeout [] →
  ∃ c', HandleConnection info (replicate (length (commands d)) NextPacket ++ leave :: rest)
      (mkConn (mkStream (dialogue_wire d) f) n []) = (c', Panic) ∧ channel (c_log c') = channel (greeting n d ++ forwards (commands d)).
Proof.
  intros Hd Hl. rewrite <- (app_nil_r (dialogue_wire d)), HandleConnection_commands by done.
  destruct Hl as [-> | ->]; cbn [handle_loop]; [|eexists; split; [done|cbn [c_log]; rewrite channel_app; by rewrite app_nil_r]].
  unfold reading, wrapNewNetstring, mbind, io_bind. cbn [c_in].
  destruct (NewInitSQLPacket_end (mkStream [] f) eq_refl) as [s' ->]. by eexists.
Qed.


End runs.

(** A response of the least length, with an empty user name, and one query. *)
Definition sample_dialogue : dialogue :=
  mkDialogue 1 (replicate 32 1 ++ [0; 0]) [mkCommand 0 3 (str "select 1")].

Lemma sample_dialogue_ok : dialogue_ok sample_dialogue.
Proof.
  unfold dialogue_ok. split_and!; try (cbn; lia); [|done|repeat constructor; cbn; lia|by repeat constructor].
  repeat constructor; cbn; lia.
Qed.

Lemma readHandshakeResponse_answers_witness :
  let c := mkConn (mkStream [header 34 1 ++ resp_data sample_dialogue] io_EOF) 0 [] in
  ∃ s', readHandshakeResponse c =
    match response_verdict (buffer_read (resp_data sample_dialogue) (Z.to_nat 34)) with
    | Ret _ => (written (header 3 (u8 (1 + 1)) ++ [0; 0; 0]) (at_stream s' c), Ret tt)
    | r => (at_stream s' c, r)
    end.
Proof.
  intros c. apply (readHandshakeResponse_answers c 34 1 (resp_data sample_dialogue)); [lia|lia| |done].
  apply sample_dialogue_ok.
Defined.


End Connection.
