(* ===== verification/Cal.v ===== *)
(** * The CAL client (cal/calconfig.go, cal/calclient.go, cal/calmessage.go)

    CAL logs transactions, events and heartbeats, in thread groups. A transaction is an
    object that its children, the group and the caller share, so the transactions live in
    a store and are named by their number; events and heartbeats stay with their creator. *)

From S2P Require Import Prelude GoIO ConfigFile Fmt.
From stdpp Require Import base list gmap strings.
From Stdlib Require Import ZArith Lia.
Open Scope Z_scope.

Module Cal.

(** ** Configuration *)

Record calConfig := mkCalConfig {
  enabled : bool;
  poolName : bytes;
  environment : bytes;
  label : bytes;
  labelAffix : bytes;
  releaseBuildNum : bytes;
  host : bytes;
  port : bytes;
  connTimeSec : Z;
  ringBufferSize : Z;
  msgBufferSize : Z;
  handlerType : bytes;
  logFileName : bytes;
  enableTG : bool;
  poolstackEnabled : bool;
  poolStackSize : Z
}.

Definition loopbackIP : bytes := str "127.0.0.1".
Definition unknown : bytes := str "unknown".
Definition crlf : bytes := [13; 10].

(** [os.Hostname()] may fail; [start] is the time of the start, formatted. *)
Definition local_host (hostname : option bytes) : bytes := default loopbackIP hostname.

Definition createLabel (hostname : option bytes) (start pool env affix version build : bytes) : bytes :=
  str "SQLLog for " ++ pool ++ str ":" ++ local_host hostname ++ crlf ++
  str "Environment: " ++ env ++ crlf ++
  str "Label: " ++ pool ++ str "-" ++ version ++ str "-" ++ build ++ affix ++ crlf ++
  str "Start: " ++ start ++ crlf ++ crlf.

Definition initialize_config (cfg : TxtConfig.data) (vcfg : option TxtConfig.data) (affix : bytes)
    (hostname : option bytes) (start : bytes) : calConfig :=
  let pool := TxtConfig.GetOrDefaultString cfg (str "cal_pool_name") (str "play_abc") in
  let env := TxtConfig.GetOrDefaultString cfg (str "cal_environment") [] in
  let size := TxtConfig.GetOrDefaultInt cfg (str "cal_max_pool_stack_size") 2048 in
  let version := match vcfg with Some v => TxtConfig.GetOrDefaultString v (str "release_product_number") unknown | None => unknown end in
  let build := match vcfg with Some v => TxtConfig.GetOrDefaultString v (str "release_build_number") unknown | None => [] end in
  mkCalConfig
    (TxtConfig.GetOrDefaultBool cfg (str "enable_cal") true)
    pool env
    (createLabel hostname start pool env affix version build)
    affix build
    (TxtConfig.GetOrDefaultString cfg (str "cal_socket_machine_name") loopbackIP)
    (TxtConfig.GetOrDefaultString cfg (str "cal_socket_machine_port") (str "1118"))
    (TxtConfig.GetOrDefaultInt cfg (str "cal_socket_connect_time_secs") 1)
    (TxtConfig.GetOrDefaultInt cfg (str "cal_socket_ring_buffer_size") 32000)
    (TxtConfig.GetOrDefaultInt cfg (str "cal_message_buffer_size") 300)
    (TxtConfig.GetOrDefaultString cfg (str "cal_handler") (str "socket"))
    (TxtConfig.GetOrDefaultString cfg (str "cal_log_file") (str "logCalClient.txt"))
    (bool_decide (TxtConfig.GetOrDefaultString cfg (str "cal_enable_threadgroup") (str "false") = str "true"))
    (bool_decide (TxtConfig.GetOrDefaultString cfg (str "cal_pool_stack_enable") (str "true") = str "true"))
    (if 2048 <? size then 2048 else size).

(** ** Messages *)

Definition DefaultTGName : bytes := str "CDTGName##%%&&**".
Definition CALMaxThreadNum : Z := 100.
Definition calMaxNameLength : Z := 127.
Definition calMaxTypeLength : Z := 127.

Definition calUnset : bytes := str "unset".
Definition calUnknown : bytes := str "U".
Definition calZero : bytes := str "0".
Definition calTab : bytes := [9].
Definition calEndOfLine : bytes := crlf.
Definition calClassStartTransaction : bytes := str "t".
Definition calClassEndTransaction : bytes := str "T".
Definition calClassAtomicTransaction : bytes := str "A".
Definition calClassEvent : bytes := str "E".
Definition calClassHeartbeat : bytes := str "H".
Definition handlerCtrlMsgNewRoot : bytes := str "calHandlerCtrlmsgNewRoot".
Definition bfMsgChannelSize : nat := 300.

Record calActivity := mkActivity {
  mThreadGroupName : bytes;
  mTimeStamp : bytes;
  mClass : bytes;
  mType : bytes;
  mName : bytes;
  mStatus : bytes;
  mData : bytes;
  mCompleted : bool
}.

(** [new(...)]: every field is zero. *)
Definition new_activity : calActivity := mkActivity [] [] [] [] [] [] [] false.

Definition set_class v a := mkActivity (mThreadGroupName a) (mTimeStamp a) v (mType a) (mName a) (mStatus a) (mData a) (mCompleted a).
Definition set_type v a := mkActivity (mThreadGroupName a) (mTimeStamp a) (mClass a) v (mName a) (mStatus a) (mData a) (mCompleted a).
Definition set_name v a := mkActivity (mThreadGroupName a) (mTimeStamp a) (mClass a) (mType a) v (mStatus a) (mData a) (mCompleted a).
Definition set_status v a := mkActivity (mThreadGroupName a) (mTimeStamp a) (mClass a) (mType a) (mName a) v (mData a) (mCompleted a).
Definition set_data v a := mkActivity (mThreadGroupName a) (mTimeStamp a) (mClass a) (mType a) (mName a) (mStatus a) v (mCompleted a).
Definition set_stamp v a := mkActivity (mThreadGroupName a) v (mClass a) (mType a) (mName a) (mStatus a) (mData a) (mCompleted a).
Definition set_completed a := mkActivity (mThreadGroupName a) (mTimeStamp a) (mClass a) (mType a) (mName a) (mStatus a) (mData a) true.

(** A transaction; [mParent] is its number in the store. *)
Record calTransaction := mkTxn { act : calActivity; mParent : option nat; mDuration : Z }.

(** The client: its maps per thread group, the channel to the handler, the store of
    transactions and how often the clock was read. [instance]: whether there is a client. *)
Record Cal := mkCal {
  instance : bool;
  mCalConfig : calConfig;
  mAlreadyInit : bool;
  mPendingMsgBuffer : gmap bytes (list bytes);
  mPending : gmap bytes bool;
  mCurrentCalTxn : gmap bytes (option nat);
  mRootCalTxn : gmap bytes (option nat);
  mCorrelationID : gmap bytes bytes;
  mParentStack : gmap bytes bytes;
  mCurrentOpName : gmap bytes bytes;
  mMsgChann : list bytes;
  store : list calTransaction;
  clock : nat
}.

Definition set_buffers v c := mkCal (instance c) (mCalConfig c) (mAlreadyInit c) v (mPending c) (mCurrentCalTxn c) (mRootCalTxn c) (mCorrelationID c) (mParentStack c) (mCurrentOpName c) (mMsgChann c) (store c) (clock c).
Definition set_pending v c := mkCal (instance c) (mCalConfig c) (mAlreadyInit c) (mPendingMsgBuffer c) v (mCurrentCalTxn c) (mRootCalTxn c) (mCorrelationID c) (mParentStack c) (mCurrentOpName c) (mMsgChann c) (store c) (clock c).
Definition set_current v c := mkCal (instance c) (mCalConfig c) (mAlreadyInit c) (mPendingMsgBuffer c) (mPending c) v (mRootCalTxn c) (mCorrelationID c) (mParentStack c) (mCurrentOpName c) (mMsgChann c) (store c) (clock c).
Definition set_root v c := mkCal (instance c) (mCalConfig c) (mAlreadyInit c) (mPendingMsgBuffer c) (mPending c) (mCurrentCalTxn c) v (mCorrelationID c) (mParentStack c) (mCurrentOpName c) (mMsgChann c) (store c) (clock c).
Definition set_corr v c := mkCal (instance c) (mCalConfig c) (mAlreadyInit c) (mPendingMsgBuffer c) (mPending c) (mCurrentCalTxn c) (mRootCalTxn c) v (mParentStack c) (mCurrentOpName c) (mMsgChann c) (store c) (clock c).
Definition set_stacks v v' c := mkCal (instance c) (mCalConfig c) (mAlreadyInit c) (mPendingMsgBuffer c) (mPending c) (mCurrentCalTxn c) (mRootCalTxn c) (mCorrelationID c) v v' (mMsgChann c) (store c) (clock c).
Definition set_chann v c := mkCal (instance c) (mCalConfig c) (mAlreadyInit c) (mPendingMsgBuffer c) (mPending c) (mCurrentCalTxn c) (mRootCalTxn c) (mCorrelationID c) (mParentStack c) (mCurrentOpName c) v (store c) (clock c).
Definition set_store v c := mkCal (instance c) (mCalConfig c) (mAlreadyInit c) (mPendingMsgBuffer c) (mPending c) (mCurrentCalTxn c) (mRootCalTxn c) (mCorrelationID c) (mParentStack c) (mCurrentOpName c) (mMsgChann c) v (clock c).
Definition set_clock v c := mkCal (instance c) (mCalConfig c) (mAlreadyInit c) (mPendingMsgBuffer c) (mPending c) (mCurrentCalTxn c) (mRootCalTxn c) (mCorrelationID c) (mParentStack c) (mCurrentOpName c) (mMsgChann c) (store c) v.

(** [Client.init]: empty maps. *)
Definition new_client (cfg : calConfig) : Cal := mkCal true cfg true ∅ ∅ ∅ ∅ ∅ ∅ ∅ [] [] 0.

(** [GetCalClientInstance], the first time: without [cal_client.txt] there is no client. *)
Definition GetCalClientInstance (cfg vcfg : option TxtConfig.data) (hostname : option bytes) (start : bytes) : option Cal :=
  match cfg with
  | None => None
  | Some cfg => Some (new_client (initialize_config cfg vcfg [] hostname start))
  end.

(** The variadic thread group name of the client's methods. *)
Definition tgkey (g : bytes) : bytes := if bool_decide (g = []) then DefaultTGName else g.

(** ** Effects *)

Definition gets {A} (f : Cal → A) : io Cal A := λ c, (c, Ret (f c)).
Definition modify (f : Cal → Cal) : io Cal unit := λ c, (f c, Ret tt).

(** A transaction of the store. A nil one is a nil pointer: a panic. *)
Definition deref (t : nat) : io Cal calTransaction := λ c,
  match store c !! t with Some x => (c, Ret x) | None => (c, Panic) end.

Definition update (t : nat) (f : calTransaction → calTransaction) : io Cal unit := modify (λ c, set_store (alter f t (store c)) c).

Definition update_act (t : nat) (f : calActivity → calActivity) : io Cal unit :=
  update t (λ x, mkTxn (f (act x)) (mParent x) (mDuration x)).

Section client.
(** [time.Now().Format("15:04:05.00")], the n-th time; the name of this host; midnight of
    today in seconds. *)
Context (stamp : nat → bytes) (hostname : option bytes) (midnight : Z).

Definition now : io Cal bytes := λ c, (set_clock (S (clock c)) c, Ret (stamp (clock c))).

(** ** The client *)

(** [WriteData]: without room in the channel the message is gone. *)
Definition WriteData (msg : bytes) : io Cal (option go_error) := λ c,
  if (length (mMsgChann c) <? bfMsgChannelSize)%nat then (set_chann (mMsgChann c ++ [msg]) c, Ret None)
  else (c, Ret (Some (errors_New (str "write buffer full. no message written")))).

Definition IsEnabled (c : Cal) : bool := enabled (mCalConfig c).
Definition IsInitialized (c : Cal) : bool := mAlreadyInit c.
Definition IsPoolstackEnabled (c : Cal) : bool := poolstackEnabled (mCalConfig c).

Definition isCalClientEnabled (c : Cal) : bool := instance c && IsEnabled c.

Definition releaseCxtResource (g : bytes) (c : Cal) : Cal :=
  let k := tgkey g in
  mkCal (instance c) (mCalConfig c) (mAlreadyInit c) (delete k (mPendingMsgBuffer c)) (delete k (mPending c))
    (delete k (mCurrentCalTxn c)) (delete k (mRootCalTxn c)) (delete k (mCorrelationID c)) (delete k (mParentStack c))
    (delete k (mCurrentOpName c)) (mMsgChann c) (store c) (clock c).

(** A missing key is nil. *)
Definition getCurrentCalTxn (g : bytes) (c : Cal) : option nat := default None (mCurrentCalTxn c !! tgkey g).

(** The transaction becomes that of the default group as well. *)
Definition setCurrentCalTxn (t : option nat) (g : bytes) (c : Cal) : Cal :=
  let m := if bool_decide (g = []) then mCurrentCalTxn c else <[g := t]> (mCurrentCalTxn c) in
  set_current (<[DefaultTGName := t]> m) c.

Definition getRootCalTxn (g : bytes) (c : Cal) : option nat := default None (mRootCalTxn c !! tgkey g).

Definition setRootCalTxn (t : option nat) (g : bytes) : io Cal unit :=
  _ ← modify (λ c, set_root (<[tgkey g := t]> (mRootCalTxn c)) c);
  match t with
  | Some _ => _ ← WriteData handlerCtrlMsgNewRoot; mret tt
  | None => mret tt
  end.

Definition getCorrelationID (g : bytes) (c : Cal) : bytes := default [] (mCorrelationID c !! tgkey g).
Definition setCorrelationID (id g : bytes) (c : Cal) : Cal := set_corr (<[tgkey g := id]> (mCorrelationID c)) c.
Definition getPendingFlag (g : bytes) (c : Cal) : bool := default false (mPending c !! tgkey g).
Definition setPendingFlag (b : bool) (g : bytes) (c : Cal) : Cal := set_pending (<[tgkey g := b]> (mPending c)) c.

(** The buffer of a group, made when it is missing with a capacity from the configuration. *)
Definition getPendingMessageBuffer (g : bytes) : io Cal (list bytes) := λ c,
  match mPendingMsgBuffer c !! tgkey g with
  | Some b => (c, Ret b)
  | None =>
    if msgBufferSize (mCalConfig c) + 5 <? 0 then (c, Panic)
    else (set_buffers (<[tgkey g := []]> (mPendingMsgBuffer c)) c, Ret [])
  end.

Definition GetPoolName (c : Cal) : bytes := poolName (mCalConfig c).
Definition GetReleaseBuildNum (c : Cal) : bytes := releaseBuildNum (mCalConfig c).

(** [fmt.Sprintf("%X", n)] *)
Definition hex_digit (d : Z) : byte := if d <? 10 then 48 + d else 55 + d.
Fixpoint hex_digits (fuel : nat) (n : Z) (acc : bytes) : bytes :=
  match fuel with
  | O => acc
  | S fuel => let acc := hex_digit (n mod 16) :: acc in if n <? 16 then acc else hex_digits fuel (n / 16) acc
  end.
Definition Sprintf_X (n : Z) : bytes := if n <? 0 then 45 :: hex_digits 16 (- n) [] else hex_digits 16 n [].

Definition getLogID (ts : bytes) : result bytes :=
  cs ← slice_from ts (Fmt.Index ts (str "."));
  let centisec := default 0 (GoStrings.Atoi cs) in
  Ret (Sprintf_X (i64 (midnight * 1000 + centisec * 10))).

Definition getCurrentPoolInfo (g : bytes) : io Cal bytes :=
  on ← gets (λ c, IsEnabled c && IsPoolstackEnabled c);
  if negb on then mret []
  else
    let printable := if bool_decide (g = []) then str "0" else g in
    root ← gets (getRootCalTxn (tgkey g));
    start ← (match root with
             | Some t => x ← deref t; lift (getLogID (mTimeStamp (act x)))
             | None => mret (str "TopLevelTxn not set")
             end);
    pool ← gets GetPoolName;
    op ← gets (λ c, default [] (mCurrentOpName c !! tgkey g));
    mret (pool ++ str ":" ++ op ++ str "*CalThreadId=" ++ printable ++ str "*TopLevelTxnStartTime=" ++ start ++
          str "*Host=" ++ local_host hostname).

Definition GetPoolStack (g : bytes) : io Cal bytes :=
  p ← gets (λ c, default [] (mParentStack c !! tgkey g));
  info ← getCurrentPoolInfo [];
  mret (match p with [] => info | _ => p ++ str "^" ++ info end).

(** A stack that is too long is to lose its oldest pool. *)
Definition SetParentStack (info op g : bytes) : io Cal unit :=
  size ← gets (λ c, poolStackSize (mCalConfig c));
  stack ← (if size <=? zlen info then
             rest ← lift (slice_from info (Fmt.Index info (str "^")));
             lift (slice_from rest (Fmt.Index rest (str "^")))
           else mret info);
  modify (λ c, set_stacks (<[g := stack]> (mParentStack c))
    (match op with [] => mCurrentOpName c | _ => <[g := op]> (mCurrentOpName c) end) c).

(** ** Writing of a group *)

(** [hash/fnv]: New32a. *)
Definition fnv32a (l : bytes) : Z := fold_left (λ h b, u32 (Z.lxor h b * 16777619)) l 2166136261.

(** The thread id is the last four bytes of a message. *)
Definition tid_bytes (c : Cal) (g : bytes) : bytes :=
  if enableTG (mCalConfig c) then le_bytes 4 (fnv32a g mod CALMaxThreadNum) else [0; 0; 0; 0].

Definition writeMessageToHandler (g msg : bytes) : io Cal unit :=
  tid ← gets (λ c, tid_bytes c g);
  _ ← WriteData (msg ++ tid); mret tt.

Fixpoint write_messages (g : bytes) (l : list bytes) : io Cal unit :=
  match l with
  | [] => mret tt
  | msg :: l => _ ← writeMessageToHandler g msg; write_messages g l
  end.

Definition isPending (g : bytes) (c : Cal) : bool := instance c && getPendingFlag g c.

Definition setPending (b : bool) (g : bytes) : io Cal unit := modify (λ c, if instance c then setPendingFlag b g c else c).

Definition writable (c : Cal) : bool := instance c && IsInitialized c && IsEnabled c.

Definition flushMessageBuffer (force : bool) (g : bytes) : io Cal unit :=
  ok ← gets writable;
  pending ← gets (isPending g);
  if negb ok || (pending && negb force) then mret tt
  else
    b ← getPendingMessageBuffer g;
    _ ← write_messages g b;
    modify (λ c, set_buffers (<[tgkey g := []]> (mPendingMsgBuffer c)) c).

(** A full buffer ends the pending state; the buffer keeps its order. *)
Definition writeData (g msg : bytes) : io Cal unit :=
  ok ← gets writable;
  if negb ok then mret tt
  else
    b ← getPendingMessageBuffer g;
    size ← gets (λ c, msgBufferSize (mCalConfig c));
    _ ← (if size <=? zlen b then setPending false g else mret tt);
    _ ← modify (λ c, set_buffers (<[tgkey g := b ++ [msg]]> (mPendingMsgBuffer c)) c);
    flushMessageBuffer false g.

(** ** Activities *)

(** Too long a name or type is cut and marked; an empty one stays empty, the default being
    overwritten. *)
Definition shorten (max : Z) (s : bytes) : bytes :=
  if max <? zlen s then take (Z.to_nat (max - 1)) s ++ str "+" else s.

Definition validateAndSetType (t : bytes) (a : calActivity) : calActivity := set_type (shorten calMaxTypeLength t) a.
Definition validateAndSetName (n : bytes) (a : calActivity) : calActivity := set_name (shorten calMaxNameLength n) a.
Definition validateAndSetStatus (s : bytes) (a : calActivity) : calActivity :=
  set_status (match s with [] => calZero | _ => s end) a.
Definition validateAndAppendData (d : bytes) (a : calActivity) : calActivity :=
  set_data (match mData a with [] => d | old => old ++ str "&" ++ d end) a.

Definition formatStatusWithRc (status : bytes) (rc : Z) : bytes :=
  if bool_decide (last status = Some 46) then status ++ itoa rc else status ++ str "." ++ itoa rc.

(** [AddData] of an activity that is not completed. *)
Definition add_data (d : bytes) (a : calActivity) : calActivity :=
  match d with [] => a | _ => validateAndAppendData d a end.

Definition pair_text (name value : bytes) : bytes := match name with [] => value | _ => name ++ str "=" ++ value end.

(** [initialize]; the client is enabled where it is called. *)
Definition initialize (ty name status data g : bytes) (a : calActivity) : io Cal calActivity :=
  t ← now;
  on ← gets isCalClientEnabled;
  let a := mkActivity (tgkey g) t (mClass a) (mType a) (mName a) (mStatus a) (mData a) (mCompleted a) in
  let a := validateAndSetStatus status (validateAndSetName name (validateAndSetType ty a)) in
  mret (if (on : bool) then add_data data a else a).

(** The line of an event or a heartbeat. *)
Definition activity_line (a : calActivity) : bytes :=
  mClass a ++ mTimeStamp a ++ calTab ++ mType a ++ calTab ++ mName a ++ calTab ++ mStatus a ++ calTab ++ mData a ++ calEndOfLine.

Definition sendSelf (a : calActivity) : io Cal unit := writeData (mThreadGroupName a) (activity_line a).

Definition Completed (a : calActivity) : io Cal calActivity :=
  on ← gets isCalClientEnabled;
  if mCompleted a || negb on then mret a
  else _ ← sendSelf a; mret (set_completed a).

(** The report of a change that comes too late: an event of its own. *)
Definition reportAlreadyCompletedEvent (func arg : bytes) (a : calActivity) : io Cal unit :=
  e ← initialize (str "BadInstrumentation") (str "AlreadyCompleted") (str "1") [] (mThreadGroupName a) new_activity;
  on ← gets isCalClientEnabled;
  let add n v e := if (on : bool) then add_data (pair_text n v) e else e in
  let e := add (str "Class") (mClass a) e in
  let e := add (str "When") (mTimeStamp a) e in
  let e := add (str "Type") (mType a) e in
  let e := add (str "Name") (mName a) e in
  let e := add (str "Func") func e in
  let e := add (str "Arg") arg e in
  _ ← Completed e; mret tt.

Definition SetName (name : bytes) (a : calActivity) : io Cal calActivity :=
  on ← gets isCalClientEnabled;
  if negb on then mret a
  else if mCompleted a then _ ← reportAlreadyCompletedEvent (str "SetName") name a; mret a
  else mret (validateAndSetName name a).

Definition SetStatus (status : bytes) (a : calActivity) : io Cal calActivity :=
  on ← gets isCalClientEnabled;
  if negb on then mret a
  else if negb (bool_decide (mStatus a = calZero)) && negb (bool_decide (mStatus a = calUnknown)) then mret a
  else mret (validateAndSetStatus status a).

Definition SetStatusRc (status : bytes) (rc : Z) (a : calActivity) : io Cal calActivity :=
  on ← gets isCalClientEnabled;
  if negb on then mret a else SetStatus (formatStatusWithRc status rc) a.

Definition AddData (pairs : bytes) (a : calActivity) : io Cal calActivity :=
  on ← gets isCalClientEnabled;
  if negb on || bool_decide (pairs = []) then mret a
  else if mCompleted a then _ ← reportAlreadyCompletedEvent (str "AddDataPairs") pairs a; mret a
  else mret (validateAndAppendData pairs a).

Definition AddDataStr (name value : bytes) (a : calActivity) : io Cal calActivity :=
  on ← gets isCalClientEnabled;
  if negb on then mret a else AddData (pair_text name value) a.

Definition AddDataInt (name : bytes) (value : Z) (a : calActivity) : io Cal calActivity :=
  on ← gets isCalClientEnabled;
  if negb on then mret a else AddDataStr name (itoa value) a.

Definition GetStatus (a : calActivity) : io Cal bytes := on ← gets isCalClientEnabled; mret (if (on : bool) then mStatus a else []).

Definition SetType (ty : bytes) (a : calActivity) : io Cal calActivity :=
  on ← gets isCalClientEnabled; mret (if (on : bool) then validateAndSetType ty a else a).

Definition AddPoolStack (a : calActivity) : io Cal calActivity :=
  on ← gets (λ c, isCalClientEnabled c && IsPoolstackEnabled c);
  if negb on || negb (bool_decide (mType a = str "CLIENT_INFO")) then mret a
  else
    info ← GetPoolStack [];
    match info with [] => mret a | _ => AddDataStr (str "PoolStack") info a end.

(** ** Transactions *)

(** Interfaces: [None] is the nil interface, [Some None] one that holds a nil pointer. *)
Abbreviation Transaction := (option (option nat)).

(** The typed pointer of the client goes into the interface, so that it is nil only when
    there is no client. *)
Definition GetRootCalTxn (g : bytes) (c : Cal) : Transaction := if instance c then Some (getRootCalTxn g c) else None.
Definition GetCurrentCalTxn (g : bytes) (c : Cal) : Transaction := if instance c then Some (getCurrentCalTxn g c) else None.

(** The assertion of the type fails on the nil interface, and nothing is set. *)
Definition SetRootCalTxn (root : Transaction) (g : bytes) : io Cal unit := λ c,
  match root with
  | Some t => if instance c then setRootCalTxn t g c else (c, Ret tt)
  | None => (c, Ret tt)
  end.

Definition SetCurrentCalTxn (cur : Transaction) (g : bytes) : io Cal unit :=
  match cur with
  | Some t => modify (λ c, if instance c then setCurrentCalTxn t g c else c)
  | None => mret tt
  end.

(** [GetCurrentCalTxn().(\*calTransaction)] *)
Definition current_txn (g : bytes) : io Cal (option nat) := λ c,
  match GetCurrentCalTxn g c with Some t => (c, Ret t) | None => (c, Panic) end.

Definition prepareStartOfTransactionMessage (class : bytes) (x : calTransaction) : bytes :=
  match mParent x with None => calEndOfLine | Some _ => [] end ++
  class ++ mTimeStamp (act x) ++ calTab ++ mType (act x) ++ calTab ++ mName (act x) ++ calEndOfLine.

(** The duration is left empty. *)
Definition prepareEndOfTransactionMessage (class : bytes) (x : calTransaction) : bytes :=
  class ++ mTimeStamp (act x) ++ calTab ++ mType (act x) ++ calTab ++ mName (act x) ++ calTab ++ mStatus (act x) ++
  calTab ++ [] ++ calTab ++ mData (act x) ++ calEndOfLine.

(** [sendSelf] of a transaction, by its class. *)
Definition send_txn (t : nat) : io Cal unit :=
  x ← deref t;
  let a := act x in
  if bool_decide (mClass a = calClassAtomicTransaction) then
    writeData (mThreadGroupName a) (prepareEndOfTransactionMessage calClassAtomicTransaction x)
  else if bool_decide (mClass a = calClassStartTransaction) then
    _ ← writeData (mThreadGroupName a) (prepareStartOfTransactionMessage calClassStartTransaction x);
    update_act t (set_class calClassEndTransaction)
  else if bool_decide (mClass a = calClassEndTransaction) then
    ts ← now;
    _ ← update_act t (set_stamp ts);
    x ← deref t;
    writeData (mThreadGroupName a) (prepareEndOfTransactionMessage calClassEndTransaction x)
  else mret tt.

Definition onChildCreation (t : nat) : io Cal unit :=
  x ← deref t;
  if bool_decide (mClass (act x) = calClassAtomicTransaction) then
    _ ← update_act t (set_class calClassStartTransaction);
    send_txn t
  else mret tt.

(** [calEvent.init], which [calHeartBeat.init] repeats with another class; without CAL the object stays
    as [new] made it. *)
Definition init_child (class ty name status data g : bytes) : io Cal (calActivity * option nat) :=
  on ← gets isCalClientEnabled;
  if negb on then mret (new_activity, None)
  else
    a ← initialize ty name status data g (set_class class new_activity);
    p ← current_txn (mThreadGroupName a);
    _ ← (match p with Some t => onChildCreation t | None => mret tt end);
    mret (a, p).

Definition NewCalEvent (ty name status data g : bytes) : io Cal (calActivity * option nat) :=
  init_child calClassEvent ty name status data g.

(** [calHeartBeat.init] *)
Definition init_heartbeat : bytes → bytes → bytes → bytes → bytes → io Cal (calActivity * option nat) :=
  init_child calClassHeartbeat.

Definition NewCalHeartBeat (ty name status data g : bytes) : io Cal (calActivity * option nat) :=
  init_heartbeat ty name status data g.

(** A new object of the store. *)
Definition alloc (x : calTransaction) : io Cal nat := λ c, (set_store (store c ++ [x]) c, Ret (length (store c))).

Definition init_txn (t : nat) (ty name status data g : bytes) : io Cal unit :=
  on ← gets isCalClientEnabled;
  if negb on then mret tt
  else
    a ← initialize ty name status data g (set_class calClassAtomicTransaction new_activity);
    p ← current_txn (mThreadGroupName a);
    _ ← (match p with Some t => onChildCreation t | None => mret tt end);
    _ ← update t (λ x, mkTxn a p (mDuration x));
    root ← gets (GetRootCalTxn (mThreadGroupName a));
    _ ← (match root with None => SetRootCalTxn (Some (Some t)) (mThreadGroupName a) | Some _ => mret tt end);
    SetCurrentCalTxn (Some (Some t)) (mThreadGroupName a).

Definition NewCalTransaction (ty name status data g : bytes) : io Cal nat :=
  t ← alloc (mkTxn new_activity None 0);
  _ ← init_txn t ty name status data g;
  mret t.

Definition ReleaseCxtResource (g : bytes) : io Cal unit := modify (λ c, if instance c then releaseCxtResource (tgkey g) c else c).

(** A method of [calActivity] on a transaction. *)
Definition on_act (t : nat) (f : calActivity → io Cal calActivity) : io Cal unit :=
  x ← deref t;
  a ← f (act x);
  update_act t (λ _, a).

(** A method on the root: the test for nil does not see a nil pointer. *)
Definition on_root (t : nat) (f : calActivity → io Cal calActivity) : io Cal unit :=
  x ← deref t;
  root ← gets (GetRootCalTxn (mThreadGroupName (act x)));
  match root with
  | None => mret tt
  | Some None => lift Panic
  | Some (Some r) => on_act r f
  end.

Inductive Flags : Set := FlagDefault | FlagPending | FlagFinalizeRootName | FlagSetRootStatus.

Definition SetStatusWithFlag (t : nat) (status : bytes) (flag : Flags) : io Cal unit :=
  on ← gets isCalClientEnabled;
  if negb on then mret tt
  else
    _ ← on_act t (SetStatus status);
    match flag with FlagSetRootStatus => on_root t (SetStatus status) | _ => mret tt end.

Definition SetRootTransactionStatus (t : nat) (status : bytes) : io Cal unit :=
  on ← gets isCalClientEnabled;
  if negb on then mret tt else on_root t (SetStatus status).

Definition AddDataToRoot (t : nat) (name value : bytes) : io Cal unit :=
  on ← gets isCalClientEnabled;
  if negb on then mret tt else on_root t (AddDataStr name value).

Definition SetDuration (t : nat) (d : Z) : io Cal unit :=
  on ← gets isCalClientEnabled;
  if negb on then mret tt
  else update t (λ x, mkTxn (act x) (mParent x) (if d <? 0 then 0 else if 999999 <? d then 999999 else d)).

(** The arguments of [setCorrelationID] are swapped. *)
Definition SetCorrelationID (t : nat) (id : bytes) : io Cal unit :=
  x ← deref t;
  modify (λ c, if instance c then setCorrelationID (mThreadGroupName (act x)) id c else c).

Definition GetCorrelationID (t : nat) : io Cal bytes :=
  x ← deref t;
  gets (λ c, if instance c then getCorrelationID (mThreadGroupName (act x)) c else []).

Definition handlePendingFlag (t : nat) : io Cal unit :=
  x ← deref t;
  match mParent x with
  | Some _ => mret tt
  | None =>
    if bool_decide (mClass (act x) = calClassEndTransaction) then mret tt
    else
      _ ← flushMessageBuffer false (mThreadGroupName (act x));
      setPending true (mThreadGroupName (act x))
  end.

(** The start line of the root, still in the buffer, gets its final name. *)
Definition handleFinalizeRootNameFlag (t : nat) (name : bytes) : io Cal unit :=
  x ← deref t;
  let g := mThreadGroupName (act x) in
  pending ← gets (isPending g);
  if negb pending then mret tt
  else
    root ← gets (GetRootCalTxn g);
    match root with
    | None => lift Panic
    | Some root =>
      b ← getPendingMessageBuffer g;
      _ ← (match root, name, b with
           | Some r, _ :: _, _ :: rest =>
             _ ← on_act r (SetName name);
             y ← deref r;
             modify (λ c, set_buffers (<[tgkey g := prepareStartOfTransactionMessage calClassStartTransaction y :: rest]>
               (mPendingMsgBuffer c)) c)
           | _, _, _ => mret tt
           end);
      _ ← setPending false g;
      flushMessageBuffer false g
    end.

Definition SetNameWithFlag (t : nat) (name : bytes) (flag : Flags) : io Cal unit :=
  on ← gets isCalClientEnabled;
  if negb on then mret tt
  else
    _ ← on_act t (SetName name);
    match flag with
    | FlagPending => handlePendingFlag t
    | FlagFinalizeRootName => handleFinalizeRootNameFlag t name
    | _ => mret tt
    end.

(** The fields that come before the data of a root. *)
Definition addAdditionalFieldsForRoot (t : nat) : io Cal unit :=
  id ← GetCorrelationID t;
  update_act t (λ a, set_data (str "corr_id_=" ++ id ++ str "&log_id_=&session_id_=" ++
    match mData a with [] => [] | d => str "&" ++ d end) a).

Definition onCompletion (t : nat) : io Cal unit :=
  x ← deref t;
  let g := mThreadGroupName (act x) in
  _ ← SetCurrentCalTxn (Some (mParent x)) g;
  match mParent x with
  | Some _ => mret tt
  | None =>
    _ ← setPending false g;
    _ ← flushMessageBuffer true g;
    SetRootCalTxn None g
  end.

(** The report of a parent that is completed before its child; the thread group is passed
    for the type, and every other argument one place too late. *)
Definition report_nested (self nested : nat) : io Cal unit :=
  s ← deref self;
  n ← deref nested;
  e ← init_child calClassEvent (mThreadGroupName (act s)) (str "BadInstrumentation") (str "CompletingParentWithUncompletedChild")
        (str "1") [];
  a ← AddDataStr (str "ParentType") (mType (act s)) e.1;
  a ← AddDataStr (str "ParentName") (mName (act s)) a;
  a ← AddDataStr (str "ChildType") (mType (act n)) a;
  a ← AddDataStr (str "ChildName") (mName (act n)) a;
  _ ← Completed a; mret tt.

(** From the innermost transaction outwards, to the one that is completed. *)
Fixpoint nested_loop (complete : nat → io Cal unit) (steps self : nat) (nested : option nat) : io Cal unit :=
  match nested with
  | None => mret tt
  | Some n =>
    if bool_decide (n = self) then mret tt
    else
      match steps with
      | O => lift Hang
      | S steps =>
        _ ← report_nested self n;
        _ ← complete n;
        x ← deref n;
        nested_loop complete steps self (mParent x)
      end
  end.

Definition completeAnyNestedTransactions (complete : nat → io Cal unit) (t : nat) : io Cal unit :=
  x ← deref t;
  nested ← current_txn (mThreadGroupName (act x));
  n ← gets (λ c, length (store c));
  nested_loop complete n t nested.

Fixpoint Completed_txn (fuel t : nat) : io Cal unit :=
  match fuel with
  | O => lift Hang
  | S fuel =>
    x ← deref t;
    on ← gets isCalClientEnabled;
    if mCompleted (act x) || negb on then mret tt
    else
      _ ← (if bool_decide (mParent x = None) && bool_decide (mClass (act x) = calClassEndTransaction)
           then addAdditionalFieldsForRoot t else mret tt);
      _ ← completeAnyNestedTransactions (Completed_txn fuel) t;
      _ ← send_txn t;
      _ ← update_act t set_completed;
      onCompletion t
  end.

(** [calTransaction.Completed]; one level per transaction of the store is enough. *)
Definition CompletedTransaction (t : nat) : io Cal unit := λ c, Completed_txn (S (length (store c))) t c.

Definition CompletedWithStatus (t : nat) (status : bytes) : io Cal unit :=
  on ← gets isCalClientEnabled;
  if negb on then mret tt
  else
    _ ← on_act t (SetStatus status);
    CompletedTransaction t.

(** The optional return code of a status. *)
Inductive rc_value : Type := RcInt (n : Z) | RcString (s : bytes) | RcOther.

Definition TxnStatus (severity moduleName sysErr : bytes) (rc : option rc_value) : bytes :=
  if bool_decide (severity = str "0") then str "0"
  else severity ++ str "." ++ moduleName ++ str "." ++ sysErr ++ str "." ++
    match rc with Some (RcInt n) => itoa n | Some (RcString s) => s | _ => str "0" end.

End client.
End Cal.
