(* ===== verification/CalHandler.v ===== *)
(** * The CAL handlers (cal/calsockethandler.go, cal/calfilehandler.go): messages become
    frames, frames go through the ring buffer to the CAL daemon, over connections that may
    fail at any time. *)

From S2P Require Import Prelude GoIO CalRing ConfigFile Cal.
From stdpp Require Import base list strings.
From Stdlib Require Import ZArith Lia.
Import CalRing.
Open Scope Z_scope.

Module CalHandler.

(** ** Frames *)

Definition calMessageBodyMaxSize : Z := 4096.

(** [mZero] is a slice of zeros. *)
Record clientMessage := mkMsg { mThreadID : Z; mConnectTime : Z; mMsgLen : Z; mBody : bytes }.

(** [binary.BigEndian.PutUint32] *)
Definition be4 (n : Z) : bytes := rev (le_bytes 4 n).

Definition getLength (m : clientMessage) : Z := u32 (mMsgLen m + 12).

Definition toBytes (m : clientMessage) : result bytes :=
  serialized ← make_bytes (getLength m);
  serialized ← copy_at serialized 0 (be4 (mThreadID m));
  serialized ← copy_at serialized 4 (be4 (mConnectTime m));
  serialized ← copy_at serialized 8 (be4 (mMsgLen m));
  body ← slice (mBody m) 0 (mMsgLen m);
  copy_at serialized 12 body.

Definition constructCalMessage (buffer : bytes) (m : clientMessage) : result clientMessage :=
  let size := zlen buffer in
  tid ← slice_from buffer (size - 4);
  buffer ← slice buffer 0 (size - 4);
  buffer ← (if calMessageBodyMaxSize <? zlen buffer then slice buffer 0 calMessageBodyMaxSize else Ret buffer);
  let body := overwrite (replicate (length (mBody m)) 0) 0 buffer in
  body ← index_set body (calMessageBodyMaxSize - 2) 13;
  body ← index_set body (calMessageBodyMaxSize - 1) 10;
  Ret (mkMsg (le_word tid) (mConnectTime m) (u32 (zlen buffer)) body).

Definition resetMessageHeader (now : Z) (m : clientMessage) : clientMessage := mkMsg 0 (u32 now) (mMsgLen m) (mBody m).

Definition init_message (label : bytes) (enableTG : bool) (now : Z) : result clientMessage :=
  body ← make_bytes calMessageBodyMaxSize;
  constructCalMessage (label ++ (if enableTG then [0; 0; 0; 1] else [0; 0; 0; 0])) (resetMessageHeader now (mkMsg 0 0 0 body)).

(** ** The socket *)

Inductive clientSocketStatus : Set := statusConnInProgress | statusConnected | statusNotConnected.

#[global] Instance clientSocketStatus_eq_dec : EqDecision clientSocketStatus.
Proof. solve_decision. Defined.

(** The errors of dialling and writing that the code tells apart. *)
Inductive net_error : Set := EINPROGRESS | EISCONN | EALREADY | EAGAIN | OtherErrno | OtherError.

(** The handler and its socket. [mConn]: whether there is a connection object; [sent]: what
    has been written to each connection, the latest last; the clock, the dialled and the
    written are counted. *)
Record socketHandler := mkHandler {
  mMsg : clientMessage;
  mRingBuf : ringBuffer;
  mLabel : bytes;
  mLabelSize : Z;
  mRootTxnLossyFlag : bool;
  mLastConnAttemptTime : Z;
  mConnTime : Z;
  mStatus : clientSocketStatus;
  mConn : bool;
  sent : list bytes;
  ticks : nat;
  dials : nat;
  writes : nat
}.

Definition set_msg v h := mkHandler v (mRingBuf h) (mLabel h) (mLabelSize h) (mRootTxnLossyFlag h) (mLastConnAttemptTime h) (mConnTime h) (mStatus h) (mConn h) (sent h) (ticks h) (dials h) (writes h).
Definition set_ring v h := mkHandler (mMsg h) v (mLabel h) (mLabelSize h) (mRootTxnLossyFlag h) (mLastConnAttemptTime h) (mConnTime h) (mStatus h) (mConn h) (sent h) (ticks h) (dials h) (writes h).
Definition set_lossy v h := mkHandler (mMsg h) (mRingBuf h) (mLabel h) (mLabelSize h) v (mLastConnAttemptTime h) (mConnTime h) (mStatus h) (mConn h) (sent h) (ticks h) (dials h) (writes h).
Definition set_attempt v h := mkHandler (mMsg h) (mRingBuf h) (mLabel h) (mLabelSize h) (mRootTxnLossyFlag h) v (mConnTime h) (mStatus h) (mConn h) (sent h) (ticks h) (dials h) (writes h).
Definition set_socket s c l h := mkHandler (mMsg h) (mRingBuf h) (mLabel h) (mLabelSize h) (mRootTxnLossyFlag h) (mLastConnAttemptTime h) (mConnTime h) s c l (ticks h) (dials h) (writes h).
Definition count t d w h := mkHandler (mMsg h) (mRingBuf h) (mLabel h) (mLabelSize h) (mRootTxnLossyFlag h) (mLastConnAttemptTime h) (mConnTime h) (mStatus h) (mConn h) (sent h) (ticks h + t) (dials h + d) (writes h + w).

Definition modify (f : socketHandler → socketHandler) : io socketHandler unit := λ h, (f h, Ret tt).
Definition gets {A} (f : socketHandler → A) : io socketHandler A := λ h, (h, Ret (f h)).

Section handler.
(** [time.Now().Unix()], the outcome of dialling and of writing, the n-th time. *)
Context (unix : nat → Z) (dial : nat → option net_error) (write : nat → bytes → Z * option net_error).

Definition now : io socketHandler Z := λ h, (count 1 0 0 h, Ret (unix (ticks h))).

Definition hasConnTimeoutExpired : io socketHandler bool :=
  t ← now;
  gets (λ h, i64 (mLastConnAttemptTime h + mConnTime h) <=? t).

Definition checkSocketConnectErrors (e : net_error) : io socketHandler bool :=
  let status s := modify (λ h, set_socket s (mConn h) (sent h) h) in
  match e with
  | EINPROGRESS => _ ← status statusConnInProgress; mret true
  | EISCONN => _ ← status statusConnected; mret true
  | EALREADY =>
    expired ← hasConnTimeoutExpired;
    if negb expired then _ ← status statusConnInProgress; mret true else mret false
  | _ => mret false
  end.

(** [net.DialTimeout] gives a connection or an error, and no connection then. *)
Definition connectToCaldaemon : io socketHandler bool := λ h,
  match dial (dials h) with
  | None => (set_socket statusConnected true (sent h ++ [[]]) (count 0 1 0 h), Ret true)
  | Some e => checkSocketConnectErrors e (set_socket (mStatus h) false (sent h) (count 0 1 0 h))
  end.

Definition closeSocket (h : socketHandler) : socketHandler :=
  match mStatus h with
  | statusNotConnected => h
  | _ => set_socket statusNotConnected (mConn h) (sent h) h
  end.

Definition establishCaldConnection : io socketHandler bool :=
  expired ← hasConnTimeoutExpired;
  if negb expired then mret false
  else
    t ← now;
    _ ← modify (set_attempt t);
    ok ← connectToCaldaemon;
    if (ok : bool) then mret true else _ ← modify closeSocket; mret false.

(** The bytes that went out on the current connection. *)
Definition deliver (data : bytes) (l : list bytes) : list bytes :=
  match rev l with [] => [] | s :: rest => rev rest ++ [s ++ data] end.

Definition SendData (msg : bytes) : io socketHandler Z := λ h,
  match mStatus h with
  | statusConnected =>
    if mConn h then
      let '(n, err) := write (writes h) msg in
      let h := set_socket (mStatus h) (mConn h) (deliver (take (Z.to_nat n) msg) (sent h)) (count 0 0 1 h) in
      (h, Ret (if n <=? 0 then match err with None => n | Some EAGAIN => 0 | Some _ => -1 end else n))
    else (h, Panic)
  | _ => (h, Ret 0)
  end.

(** ** The handler *)

Definition write_ring (data : bytes) (size : Z) : io socketHandler bool := λ h,
  match WriteData (mRingBuf h) data size with
  | Ret (rb, ok) => (set_ring rb h, Ret ok)
  | Error e => (h, Error e)
  | Panic => (h, Panic)
  | Fatal => (h, Fatal)
  | Hang => (h, Hang)
  end.

(** The ring is emptied and starts with the label again. *)
Definition closeConnection : io socketHandler unit :=
  _ ← modify closeSocket;
  _ ← modify (λ h, set_ring (Clear (mRingBuf h)) h);
  label ← gets (λ h, (mLabel h, mLabelSize h));
  _ ← write_ring label.1 label.2; mret tt.

Definition handleDisconnect : io socketHandler unit :=
  ok ← establishCaldConnection;
  if (ok : bool) then t ← now; modify (λ h, set_msg (resetMessageHeader t (mMsg h)) h) else mret tt.

Definition handleConnectionInProgress : io socketHandler unit :=
  ok ← connectToCaldaemon;
  if (ok : bool) then mret tt else closeConnection.

Definition completeConnectionToCaldaemon : io socketHandler unit :=
  s ← gets mStatus;
  match s with
  | statusNotConnected => handleDisconnect
  | statusConnInProgress => handleConnectionInProgress
  | statusConnected => mret tt
  end.

(** A message that finds no room is lost. *)
Definition addDataToRingBuffer (msg : bytes) : io socketHandler unit :=
  m ← gets mMsg;
  m ← lift (constructCalMessage msg m);
  _ ← modify (set_msg m);
  data ← lift (toBytes m);
  ok ← write_ring data (getLength m);
  if (ok : bool) then mret tt else modify (set_lossy true).

Definition flush : io socketHandler unit :=
  s ← gets mStatus;
  match s with
  | statusConnected =>
    rb ← gets mRingBuf;
    let size := mUsed rb in
    buffer ← lift (make_bytes size);
    data ← lift (CopyData rb buffer size);
    dataSent ← SendData data.1;
    if dataSent <? 0 then _ ← closeConnection; modify (set_lossy true)
    else
      rb ← gets mRingBuf;
      r ← lift (RemoveData rb dataSent);
      modify (set_ring r.1)
  | _ => mret tt
  end.

Definition handleNewRootTransaction : io socketHandler unit :=
  lossy ← gets mRootTxnLossyFlag;
  if (lossy : bool) then
    _ ← flush;
    _ ← closeConnection;
    _ ← modify (set_lossy false);
    completeConnectionToCaldaemon
  else mret tt.

(** One message of the channel. *)
Definition handle_message (msg : bytes) : io socketHandler unit :=
  if bool_decide (msg = Cal.handlerCtrlMsgNewRoot) then handleNewRootTransaction
  else
    _ ← completeConnectionToCaldaemon;
    _ ← addDataToRingBuffer msg;
    flush.

(** [run], until the channel is closed. *)
Fixpoint run (msgs : list bytes) : io socketHandler unit :=
  match msgs with
  | [] => mret tt
  | msg :: msgs => _ ← handle_message msg; run msgs
  end.

(** [socketHandler.init] *)
Definition init_handler (cfg : Cal.calConfig) : result socketHandler :=
  ring ← CalRing.Init (mkRing [] 0 0 0 0) (Cal.ringBufferSize cfg);
  msg ← init_message (Cal.label cfg) (Cal.enableTG cfg) (unix 0);
  label ← toBytes msg;
  let h := mkHandler msg ring label (getLength msg) false 0 (Cal.connTimeSec cfg) statusNotConnected false [] 1 0 0 in
  let '(h, r) := (_ ← establishCaldConnection; _ ← write_ring label (getLength msg); mret tt) h in
  _ ← r; Ret h.

End handler.

(** ** The file handler *)

(** [fileHandler.init]: the name of the file it writes to; [opens] says which files can be
    opened for appending. *)
Definition file_init (opens : bytes → bool) (cfg : option Cal.calConfig) : result bytes :=
  let filename := match cfg with Some c => Cal.logFileName c | None => str "cal.log" end in
  if opens filename then Ret filename else Error (errors_New (str "open " ++ filename)).

(** One line per message, without the line end and the thread id. *)
Definition file_line (msg : bytes) : result bytes :=
  line ← slice msg 0 (zlen msg - 6); Ret (line ++ [10]).

Fixpoint file_run (msgs : list bytes) : result bytes :=
  match msgs with
  | [] => Ret []
  | msg :: msgs =>
    if bool_decide (msg = Cal.handlerCtrlMsgNewRoot) then file_run msgs
    else l ← file_line msg; rest ← file_run msgs; Ret (l ++ rest)
  end.

(** ** The frame of a message *)

(** The text of a message, at most the largest body. *)
Definition text (msg : bytes) : bytes := take 4096 (take (length msg - 4) msg).

(** The body; a text that reaches the last two bytes ends in a line end there. *)
Definition body (msg : bytes) : bytes :=
  take (length (text msg)) (take 4094 (overwrite (replicate 4096 0) 0 (text msg)) ++ [13; 10]).

Definition frame (time : Z) (msg : bytes) : bytes :=
  be4 (le_word (drop (length msg - 4) msg)) ++ be4 time ++ be4 (zlen (text msg)) ++ body msg.

Lemma length_be4 n : length (be4 n) = 4%nat.
Proof. unfold be4. by rewrite length_rev, length_le_bytes. Qed.

Lemma length_text msg : (length (text msg) <= 4096)%nat.
Proof. unfold text. rewrite length_take. lia. Qed.

Lemma length_frame time msg : zlen (frame time msg) = zlen (text msg) + 12.
Proof.
  pose proof (length_text msg). unfold frame. rewrite !length_app, !length_be4. unfold body.
  rewrite length_take, length_app, length_take, length_overwrite, length_replicate by lia. cbn [length]. lia.
Qed.

Lemma insert_last_two (l : bytes) n : length l = S (S n) → <[S n := 10]> (<[n := 13]> l) = take n l ++ [13; 10].
Proof.
  intros Hl. rewrite <- (take_drop n l) at 1. assert (Hn : length (take n l) = n) by (rewrite length_take; lia).
  destruct (drop n l) as [|a [|b [|]]] eqn:E; apply (f_equal length) in E; rewrite length_drop in E; cbn [length] in E; try lia.
  rewrite insert_app_r_alt by lia. rewrite Hn, Nat.sub_diag. rewrite insert_app_r_alt by lia. rewrite Hn.
  by replace (S n - n)%nat with 1%nat by lia.
Qed.

Lemma constructCalMessage_ok (msg : bytes) (m : clientMessage) : (4 <= length msg)%nat → length (mBody m) = 4096%nat →
  ∃ b, constructCalMessage msg m = Ret (mkMsg (le_word (drop (length msg - 4) msg)) (mConnectTime m) (zlen (text msg)) b) ∧
    length b = 4096%nat ∧ take (length (text msg)) b = body msg.
Proof.
  intros Hm Hb. unfold constructCalMessage. cbv zeta. unfold slice_from. rewrite !(proj2 (Z.leb_le _ _)) by lia.
  cbn [andb mbind result_bind]. rewrite (slice_prefix msg) by lia. cbn [mbind result_bind].
  replace (Z.to_nat (zlen msg - 4)) with (length msg - 4)%nat by lia. set (t := take (length msg - 4) msg).
  assert ((if calMessageBodyMaxSize <? zlen t then slice t 0 calMessageBodyMaxSize else Ret t) = Ret (text msg)) as ->.
  { unfold calMessageBodyMaxSize. destruct (Z.ltb_spec 4096 (zlen t)).
    - rewrite slice_prefix by lia. unfold text. fold t. by replace (Z.to_nat 4096) with 4096%nat by lia.
    - unfold text. fold t. rewrite take_ge; [done|lia]. }
  cbn [mbind result_bind]. rewrite Hb. remember (overwrite (replicate 4096 0) 0 (text msg)) as z eqn:Ez.
  assert (length z = 4096%nat) as Hz by (rewrite Ez, length_overwrite; rewrite length_replicate; lia).
  rewrite index_set_ok by (unfold calMessageBodyMaxSize; lia). cbn [mbind result_bind].
  rewrite index_set_ok by (rewrite length_insert; unfold calMessageBodyMaxSize; lia). cbn [mbind result_bind].
  replace (Z.to_nat (calMessageBodyMaxSize - 2)) with 4094%nat by (unfold calMessageBodyMaxSize; lia).
  replace (Z.to_nat (calMessageBodyMaxSize - 1)) with (S 4094) by (unfold calMessageBodyMaxSize; lia).
  rewrite insert_last_two by lia. pose proof (length_text msg).
  assert (u32 (zlen (text msg)) = zlen (text msg)) as -> by (apply Z.mod_small; lia).
  eexists. split; [reflexivity|]. split; [rewrite length_app, length_take, Hz; cbn [length]; lia|]. unfold body. by rewrite <- Ez.
Qed.

Lemma fill_copy (pre src : bytes) n : (length src <= n)%nat →
  copy_at (pre ++ replicate n 0) (zlen pre) src = Ret ((pre ++ src) ++ replicate (n - length src) 0).
Proof.
  intros Hn. unfold copy_at. rewrite length_app, length_replicate, !(proj2 (Z.leb_le _ _)) by lia. cbn [andb].
  rewrite Nat2Z.id, overwrite_after by (rewrite ?length_replicate; lia || done).
  by rewrite drop_replicate, <- app_assoc.
Qed.

Lemma toBytes_ok (m : clientMessage) : 0 <= mMsgLen m <= 4096 → length (mBody m) = 4096%nat →
  toBytes m = Ret (be4 (mThreadID m) ++ be4 (mConnectTime m) ++ be4 (mMsgLen m) ++ take (Z.to_nat (mMsgLen m)) (mBody m)) ∧
  getLength m = mMsgLen m + 12.
Proof.
  intros Hl Hb. assert (getLength m = mMsgLen m + 12) as E by (apply Z.mod_small; lia). split; [|done].
  unfold toBytes. rewrite E. unfold make_bytes. rewrite (proj2 (Z.leb_le _ _)) by lia. cbn [mbind result_bind].
  set (n := Z.to_nat (mMsgLen m)).
  replace (Z.to_nat (mMsgLen m + 12)) with (12 + n)%nat by lia.
  pose proof (fill_copy [] (be4 (mThreadID m)) (12 + n)) as E0. rewrite length_be4 in E0. cbn [app length] in E0.
  change (Z.of_nat 0) with 0 in E0. rewrite E0 by lia. cbn [mbind result_bind].
  change 4 with (zlen (be4 (mThreadID m))). rewrite fill_copy by (rewrite length_be4; lia). cbn [mbind result_bind].
  change 8 with (zlen (be4 (mThreadID m) ++ be4 (mConnectTime m))). rewrite fill_copy by (rewrite ?length_be4; lia).
  cbn [mbind result_bind]. rewrite slice_prefix by lia. cbn [mbind result_bind].
  set (p := (be4 _ ++ be4 _) ++ be4 _). change 12 with (zlen p).
  rewrite fill_copy by (rewrite ?length_be4, length_take; lia). rewrite !length_be4, length_take.
  replace (12 + n - 4 - 4 - 4 - _)%nat with 0%nat by lia. cbn [replicate]. rewrite app_nil_r. unfold p. by rewrite <- !app_assoc.
Qed.

(** ** What a connection carries *)

(** The label, then whole frames of some of the messages, in their order. *)
Definition stream (label : bytes) (msgs : list bytes) (s : bytes) : Prop :=
  ∃ kept frames, sublist kept msgs ∧ Forall2 (λ m f, ∃ t, f = frame t m) kept frames ∧ s = label ++ concat frames.

Lemma stream_label label msgs : stream label msgs label.
Proof. exists [], []. split_and!; [apply sublist_nil_l|constructor|by rewrite app_nil_r]. Qed.

Lemma stream_more label msgs m s : stream label msgs s → stream label (msgs ++ [m]) s.
Proof.
  intros (kept & fs & Hs & Hf & ->). exists kept, fs. split_and!; [|done|done].
  rewrite <- (app_nil_r kept). by apply sublist_app; [|apply sublist_nil_l].
Qed.

Lemma stream_add label msgs m t s : stream label msgs s → stream label (msgs ++ [m]) (s ++ frame t m).
Proof.
  intros (kept & fs & Hs & Hf & ->). exists (kept ++ [m]), (fs ++ [frame t m]). split_and!.
  - by apply sublist_app.
  - apply Forall2_app; [done|]. by repeat constructor; exists t.
  - rewrite concat_app, <- app_assoc. cbn. by rewrite app_nil_r.
Qed.

(** What was written to the connection that is open. *)
Definition current (h : socketHandler) : bytes :=
  match mStatus h with statusConnected => default [] (last (sent h)) | _ => [] end.

Record inv (label : bytes) (cap : Z) (msgs : list bytes) (h : socketHandler) : Prop := {
  inv_body : length (mBody (mMsg h)) = 4096%nat;
  inv_label : mLabel h = label ∧ mLabelSize h = zlen label;
  inv_cap : Capacity (mRingBuf h) = cap;
  inv_ring : ∃ hd l, rep (mRingBuf h) hd l ∧ stream label msgs (current h ++ l);
  inv_conn : mStatus h = statusConnected → mConn h = true ∧ sent h ≠ [];
  inv_sent : Forall (λ s, ∃ r, stream label msgs (s ++ r)) (sent h)
}.

Lemma Clear_rep rb hd l : rep rb hd l → rep (Clear rb) 0 [] ∧ Capacity (Clear rb) = Capacity rb ∧ FreeCapacity (Clear rb) = Capacity rb.
Proof.
  intros [Hcap Hpos ? ? ? ? ? ?]. split_and!; [|done|unfold FreeCapacity, Capacity; cbn; lia].
  split; cbn; try done; try lia. by rewrite slot_0.
Qed.

Lemma write_ring_ok data h hd l : rep (mRingBuf h) hd l →
  ∃ rb, write_ring data (zlen data) h = (set_ring rb h, Ret (zlen data <=? FreeCapacity (mRingBuf h))) ∧
    rep rb hd (if zlen data <=? FreeCapacity (mRingBuf h) then l ++ data else l) ∧ Capacity rb = Capacity (mRingBuf h).
Proof.
  intros R. unfold write_ring. destruct (WriteData_rep (mRingBuf h) hd l data (zlen data) R) as (rb & -> & R' & Hc); [lia|].
  exists rb. split_and!; [done| |done]. by rewrite Nat2Z.id, take_ge in R' by done.
Qed.

(** A message goes into the ring as its frame, if there is room. *)
Lemma add_frame (msg : bytes) (h : socketHandler) (hd : nat) (l : bytes) :
  (4 <= length msg)%nat → length (mBody (mMsg h)) = 4096%nat → rep (mRingBuf h) hd l →
  let f := frame (mConnectTime (mMsg h)) msg in
  let fits := zlen f <=? FreeCapacity (mRingBuf h) in
  ∃ m rb, addDataToRingBuffer msg h = ((if fits then set_ring rb (set_msg m h) else set_lossy true (set_ring rb (set_msg m h))), Ret tt) ∧
    length (mBody m) = 4096%nat ∧ mConnectTime m = mConnectTime (mMsg h) ∧
    rep rb hd (if fits then l ++ f else l) ∧ Capacity rb = Capacity (mRingBuf h).
Proof.
  intros Hm Hb Hr f fits.
  destruct (constructCalMessage_ok msg (mMsg h) Hm Hb) as (b & E & Hb' & Eb). set (m := mkMsg _ _ _ _) in E.
  pose proof (length_text msg). destruct (toBytes_ok m) as [Et Eg]; [cbn; lia|done|]. cbn [mThreadID mConnectTime mMsgLen mBody m] in Et.
  rewrite Nat2Z.id, Eb in Et. fold (frame (mConnectTime (mMsg h)) msg) in Et.
  assert (getLength m = zlen f) as Eg' by (unfold f; by rewrite Eg, length_frame).
  destruct (write_ring_ok f (set_msg m h) hd l Hr) as (rb & Ew & R & HcR).
  change (mRingBuf (set_msg m h)) with (mRingBuf h) in *. fold fits in Ew, R. exists m, rb. split_and!; try done.
  unfold addDataToRingBuffer. rewrite (io_bind_Ret _ _ h h (mMsg h)) by done.
  rewrite (io_bind_Ret _ _ h h m) by (unfold lift; by rewrite E). rewrite (io_bind_Ret _ _ h (set_msg m h) tt) by done.
  rewrite (io_bind_Ret _ _ (set_msg m h) (set_msg m h) f) by (unfold lift; by rewrite Et).
  rewrite Eg', (io_bind_Ret _ _ _ _ _ Ew). by destruct fits.
Qed.

(** The bytes a flush sends are all those of the ring. *)
Lemma flush_eq write (h : socketHandler) hd l : mStatus h = statusConnected → rep (mRingBuf h) hd l →
  flush write h =
  (dataSent ← SendData write l;
   if dataSent <? 0 then _ ← closeConnection; modify (set_lossy true)
   else rb ← gets mRingBuf; r ← lift (RemoveData rb dataSent); modify (set_ring r.1)) h.
Proof.
  intros Hs Hr. unfold flush. rewrite (io_bind_Ret _ _ h h (mStatus h)) by done. rewrite Hs.
  rewrite (io_bind_Ret _ _ h h (mRingBuf h)) by done. cbv zeta. rewrite (rep_used _ _ _ Hr).
  rewrite (io_bind_Ret _ _ h h (replicate (length l) 0)).
  2: { unfold lift, make_bytes. rewrite (proj2 (Z.leb_le _ _)) by lia. by rewrite Nat2Z.id. }
  rewrite (io_bind_Ret _ _ h h (l, true)); [done|].
  unfold lift. rewrite (CopyData_rep _ hd l) by (try done; rewrite length_replicate; lia).
  rewrite (proj2 (Z.leb_le _ _)) by lia. by rewrite Nat2Z.id, take_ge, drop_ge, app_nil_r by (rewrite ?length_replicate; lia).
Qed.

Lemma deliver_last data (l : list bytes) : l ≠ [] → ∃ s rest, l = rest ++ [s] ∧ deliver data l = rest ++ [s ++ data].
Proof.
  intros Hl. destruct l as [|s rest _] using rev_ind; [done|]. exists s, rest. split; [done|].
  unfold deliver. rewrite rev_app_distr. cbn. by rewrite rev_involutive.
Qed.

Ltac effects := unfold checkSocketConnectErrors, hasConnTimeoutExpired, now, gets, modify, mbind, io_bind; cbv beta iota zeta.

Section facts.
Context (unix : nat → Z) (dial : nat → option net_error) (write : nat → bytes → Z * option net_error).
(** A socket that is being made is not connected before, and [Write] says how many bytes
    of the slice it has written. *)
Hypothesis dial_new : ∀ n, dial n ≠ Some EISCONN.
Hypothesis write_count : ∀ n b, 0 <= (write n b).1 <= zlen b.
Context (label : bytes) (cap : Z).
Hypothesis label_fits : zlen label <= cap.

Abbreviation Inv := (inv label cap).

Abbreviation keeps msgs := (serves (Inv msgs)).

Lemma handler_gets {A} msgs (f : socketHandler → A) : keeps msgs (gets f).
Proof. intros h Hh. by exists h, (f h). Qed.

Lemma handler_modify msgs f : (∀ h, Inv msgs h → Inv msgs (f h)) → keeps msgs (modify f).
Proof. intros Hf h Hh. exists (f h), tt. by split; [|apply Hf]. Qed.

(** The fields the invariant looks at. *)
Definition same (h h' : socketHandler) : Prop :=
  mMsg h' = mMsg h ∧ mRingBuf h' = mRingBuf h ∧ mLabel h' = mLabel h ∧ mLabelSize h' = mLabelSize h.

Lemma Inv_same msgs h h' : same h h' → mStatus h' = mStatus h → mConn h' = mConn h → sent h' = sent h → Inv msgs h → Inv msgs h'.
Proof.
  intros (E1 & E2 & E3 & E4) E5 E6 E7 []. split; unfold current in *; rewrite ?E1, ?E2, ?E3, ?E4, ?E5, ?E6, ?E7; done.
Qed.

(** A try to connect: a new connection, or none. *)
Definition tried (h h' : socketHandler) : Prop :=
  same h h' ∧
  (mStatus h' = statusConnected ∧ mConn h' = true ∧ sent h' = sent h ++ [[]] ∨
   mStatus h' ≠ statusConnected ∧ sent h' = sent h).

Lemma connect_tried h : mStatus h ≠ statusConnected →
  ∃ h' b, connectToCaldaemon unix dial h = (h', Ret b) ∧ tried h h' ∧ (b = false → mStatus h' ≠ statusConnected).
Proof.
  intros Hs. unfold connectToCaldaemon. pose proof (dial_new (dials h)).
  destruct (dial (dials h)) as [e|] eqn:E; [|eexists _, _; split; [reflexivity|]; split; [|done]; split; [done|by left]].
  destruct e; try done; effects; try destruct (_ <=? _); cbn [negb];
    (eexists _, _; split; [reflexivity|]; split; [split; [done|by right]|done]).
Qed.

Lemma establish_tried h : mStatus h ≠ statusConnected → ∃ h' b, establishCaldConnection unix dial h = (h', Ret b) ∧ tried h h'.
Proof.
  intros Hs. unfold establishCaldConnection. effects. destruct (_ <=? _); cbn [negb].
  2: { eexists _, _; (split; [reflexivity|]); (split; [done|by right]). }
  set (h1 := set_attempt _ _). destruct (connect_tried h1 Hs) as (h' & b & E & T & Hb). rewrite E. destruct b; [by exists h', true|].
  destruct T as [Tm Tc]. specialize (Hb eq_refl). destruct Tc as [(Hc & _)|(_ & Hl)]; [done|].
  eexists _, _. split; [reflexivity|]. split; [unfold closeSocket; destruct (mStatus h'); exact Tm|]. right.
  unfold closeSocket. destruct (mStatus h') eqn:Es; (split; [cbn; congruence|exact Hl]).
Qed.

Lemma tried_Inv msgs h h' : mStatus h ≠ statusConnected → tried h h' → Inv msgs h → Inv msgs h'.
Proof.
  intros Hs [(E1 & E2 & E3 & E4) T] [Hb Hl Hc (hd & l & Hr & Hst) Hcn Hsent].
  assert (Ecur : current h = []) by (unfold current; by destruct (mStatus h)). rewrite Ecur in Hst. cbn [app] in Hst.
  destruct T as [(Ts & Tc & Tl)|(Ts & Tl)]; split; rewrite ?E1, ?E2, ?E3, ?E4, ?Tl; try done.
  - exists hd, l. split; [done|]. unfold current. rewrite Ts, Tl, last_snoc. done.
  - intros _. split; [done|]. by destruct (sent h).
  - apply Forall_app. split; [done|]. constructor; [|done]. by exists l.
  - exists hd, l. split; [done|]. unfold current. by destruct (mStatus h').
Qed.

Lemma closeConnection_keeps msgs : keeps msgs closeConnection.
Proof.
  intros h [Hb [Hl1 Hl2] Hc (hd & l & Hr & Hst) Hcn Hsent]. destruct (Clear_rep _ _ _ Hr) as (Hr0 & Hc0 & Hf0).
  set (h1 := set_ring (Clear (mRingBuf h)) (closeSocket h)).
  assert (Eh : mRingBuf (closeSocket h) = mRingBuf h) by (unfold closeSocket; by destruct (mStatus h)).
  assert (El : mLabel (closeSocket h) = label ∧ mLabelSize (closeSocket h) = zlen label) by (unfold closeSocket; by destruct (mStatus h)).
  assert (Es : mStatus h1 = statusNotConnected ∧ sent h1 = sent h) by (unfold h1, closeSocket; by destruct (mStatus h) eqn:E).
  assert (Em : mMsg h1 = mMsg h) by (unfold h1, closeSocket; by destruct (mStatus h)).
  destruct (write_ring_ok label h1 0 [] Hr0) as (rb & E & R & HcR).
  change (mRingBuf h1) with (Clear (mRingBuf h)) in *. rewrite Hf0, Hc, (proj2 (Z.leb_le _ _)) in * by lia.
  exists (set_ring rb h1), tt. split.
  - unfold closeConnection, modify, gets, mbind, io_bind. rewrite Eh. cbn [mLabel mLabelSize set_ring fst snd].
    destruct El as [-> ->]. fold h1. by rewrite E.
  - split; cbn [mMsg mLabel mLabelSize mRingBuf set_ring]; rewrite ?Em, ?HcR; try done.
    + exists 0%nat, label. split; [done|]. unfold current. cbn [mStatus set_ring]. destruct Es as [-> _]. apply stream_label.
    + cbn [mStatus set_ring]. destruct Es as [-> _]. done.
    + cbn [sent set_ring]. by destruct Es as [_ ->].
Qed.

Lemma complete_keeps msgs : keeps msgs (completeConnectionToCaldaemon unix dial).
Proof.
  intros h Hh. unfold completeConnectionToCaldaemon. unfold gets, mbind at 1, io_bind at 1.
  destruct (mStatus h) eqn:Es; [| |].
  - destruct (connect_tried h) as (h1 & b & E & T & _); [by rewrite Es|]. apply tried_Inv with msgs _ _ in T; [|by rewrite Es|done].
    unfold handleConnectionInProgress. destruct b; rewrite (io_bind_Ret _ _ _ _ _ E); [by exists h1, tt|by apply closeConnection_keeps].
  - by exists h, tt.
  - destruct (establish_tried h) as (h1 & b & E & T); [by rewrite Es|]. apply tried_Inv with msgs _ _ in T; [|by rewrite Es|done].
    unfold handleDisconnect. rewrite (io_bind_Ret _ _ _ _ _ E). destruct b; [|by exists h1, tt].
    eexists _, tt. split; [reflexivity|]. destruct T. by split.
Qed.

(** A message is added as its frame, or lost. *)
Lemma add_adds msgs msg : (4 <= length msg)%nat → ∀ h, Inv msgs h →
  ∃ h', addDataToRingBuffer msg h = (h', Ret tt) ∧ Inv (msgs ++ [msg]) h'.
Proof.
  intros Hm h [Hb Hl Hc (hd & l & Hr & Hst) Hcn Hsent].
  destruct (add_frame msg h hd l Hm Hb Hr) as (m & rb & E & Hb' & _ & R & HcR).
  assert (Inv (msgs ++ [msg]) (set_ring rb (set_msg m h))) as Hi.
  { split; cbn [mMsg mLabel mLabelSize mRingBuf set_ring set_msg mStatus mConn sent]; rewrite ?HcR; try done.
    - exists hd. change (current (set_ring rb (set_msg m h))) with (current h). destruct (_ <=? _).
      + exists (l ++ frame (mConnectTime (mMsg h)) msg). split; [done|]. rewrite app_assoc. by apply stream_add.
      + exists l. split; [done|]. by apply stream_more.
    - eapply Forall_impl; [exact Hsent|]. intros s [r Hs]. exists r. by apply stream_more. }
  eexists. split; [exact E|]. destruct (_ <=? _); [done|]. eapply Inv_same; [..|exact Hi]; done.
Qed.

(** What is sent leaves the ring for the connection. *)
Lemma flush_keeps msgs : keeps msgs (flush write).
Proof.
  intros h Hh. destruct (decide (mStatus h = statusConnected)) as [Es|Es].
  2: { exists h, tt. split; [|done]. unfold flush. rewrite (io_bind_Ret _ _ h h (mStatus h)) by done. by destruct (mStatus h). }
  pose proof Hh as [Hb Hl Hc (hd & l & Hr & Hst) Hcn Hsent]. destruct (Hcn Es) as [Hconn Hne].
  rewrite (flush_eq write h hd l Es Hr).
  destruct (write (writes h) l) as [n err] eqn:Ew. pose proof (write_count (writes h) l) as Hn. rewrite Ew in Hn. cbn in Hn.
  destruct (deliver_last (take (Z.to_nat n) l) (sent h) Hne) as (s & rest & El & Ed).
  set (h1 := set_socket (mStatus h) (mConn h) (deliver (take (Z.to_nat n) l) (sent h)) (count 0 0 1 h)).
  set (r := if n <=? 0 then match err with None => n | Some EAGAIN => 0 | Some _ => -1 end else n).
  assert (ES : SendData write l h = (h1, Ret r)) by (unfold SendData, h1, r; rewrite Es, Hconn, Ew; done).
  rewrite (io_bind_Ret _ _ _ _ _ ES).
  assert (Hcur : current h = s) by (unfold current; by rewrite Es, El, last_snoc).
  assert (Hs1 : Forall (λ s, ∃ r, stream label msgs (s ++ r)) (sent h1)).
  { unfold h1. cbn [sent set_socket]. rewrite Ed. rewrite El in Hsent. apply Forall_app in Hsent as [Hs1 _]. apply Forall_app. split; [done|].
    constructor; [|done]. exists (drop (Z.to_nat n) l). by rewrite <- app_assoc, take_drop, <- Hcur. }
  assert (Hc1 : mStatus h1 = statusConnected → mConn h1 = true ∧ sent h1 ≠ []).
  { intros _. split; [done|]. unfold h1. cbn [sent set_socket]. rewrite Ed. by destruct rest. }
  assert (Hn0 : r < 0 → n = 0) by (unfold r; destruct (Z.leb_spec n 0); lia).
  destruct (Z.ltb_spec r 0) as [Hr0|Hr0].
  - specialize (Hn0 Hr0). assert (Inv msgs h1) as H1.
    { split; try done. exists hd, l. split; [done|]. unfold current, h1. cbn [mStatus set_socket sent]. rewrite Es, Ed, last_snoc.
      rewrite Hn0. cbn [Z.to_nat]. rewrite take_0, app_nil_r. cbn. by rewrite <- Hcur. }
    apply (serves_bind (Inv msgs) closeConnection (λ _, modify (set_lossy true)) (closeConnection_keeps msgs)); [|done].
    intros _. apply handler_modify. intros h2 H2. eapply Inv_same; [..|exact H2]; done.
  - assert (r = n) as Er by (unfold r in *; destruct (Z.leb_spec n 0); [destruct err as [[]|]|]; lia).
    rewrite (io_bind_Ret _ _ h1 h1 (mRingBuf h)) by done. rewrite Er.
    destruct (RemoveData_rep _ hd l n Hr) as (rb & hd' & E & R & HcR); [lia|]. rewrite (proj2 (Z.leb_le _ _)) in R, E by lia.
    rewrite (io_bind_Ret _ _ h1 h1 (rb, true)) by (unfold lift; by rewrite E).
    exists (set_ring rb h1), tt. split; [done|]. split; cbn [mMsg mLabel mLabelSize mRingBuf set_ring mStatus mConn sent]; rewrite ?HcR; try done.
    exists hd', (drop (Z.to_nat n) l). split; [done|]. unfold current, h1. cbn [mStatus set_socket sent set_ring count]. rewrite Es, Ed, last_snoc.
    cbn. by rewrite <- app_assoc, take_drop, <- Hcur.
Qed.

Lemma newroot_keeps msgs : keeps msgs (handleNewRootTransaction unix dial write).
Proof.
  apply serves_bind; [apply handler_gets|]. intros [|]; [|apply serves_mret].
  apply serves_bind; [apply flush_keeps|intros _]. apply serves_bind; [apply closeConnection_keeps|intros _].
  apply serves_bind; [|intros _; apply complete_keeps]. apply handler_modify. intros h Hh. eapply Inv_same; [..|exact Hh]; done.
Qed.

Definition is_data (m : bytes) : Prop := m ≠ Cal.handlerCtrlMsgNewRoot.
#[local] Instance is_data_dec m : Decision (is_data m).
Proof. unfold is_data. apply _. Defined.

Lemma run_carries (msgs : list bytes) : Forall (λ m, (4 <= length m)%nat) msgs →
  ∀ done h, Inv done h → ∃ h', run unix dial write msgs h = (h', Ret tt) ∧ Inv (done ++ filter is_data msgs) h'.
Proof.
  induction 1 as [|m msgs Hm _ IH]; intros seen h Hh; cbn [run].
  { exists h. by rewrite filter_nil, app_nil_r. }
  destruct (decide (is_data m)) as [Hd|Hd].
  - rewrite filter_cons_True by done. unfold handle_message. rewrite bool_decide_false by done.
    destruct (complete_keeps seen h Hh) as (h1 & [] & E1 & H1). destruct (add_adds seen m Hm h1 H1) as (h2 & E2 & H2).
    destruct (flush_keeps _ h2 H2) as (h3 & [] & E3 & H3). destruct (IH _ h3 H3) as (h4 & E4 & H4).
    exists h4. rewrite <- app_assoc in H4. split; [|done].
    rewrite (io_bind_Ret _ _ h h3 tt); [done|]. by rewrite (io_bind_Ret _ _ _ _ _ E1), (io_bind_Ret _ _ _ _ _ E2).
  - rewrite filter_cons_False by done. unfold handle_message.
    assert (m = Cal.handlerCtrlMsgNewRoot) as Em by (by apply dec_stable). rewrite bool_decide_true by done.
    destruct (newroot_keeps seen h Hh) as (h1 & [] & E1 & H1). destruct (IH _ h1 H1) as (h2 & E2 & H2).
    exists h2. by rewrite (io_bind_Ret _ _ _ _ _ E1).
Qed.

End facts.

(** ** Delivery *)

(** A connection that is up, with [s] sent and [l] to be sent. *)
Record up (label : bytes) (cap time : Z) (s l : bytes) (h : socketHandler) : Prop := {
  up_body : length (mBody (mMsg h)) = 4096%nat;
  up_time : mConnectTime (mMsg h) = time;
  up_cap : Capacity (mRingBuf h) = cap;
  up_ring : ∃ hd, rep (mRingBuf h) hd l;
  up_status : mStatus h = statusConnected;
  up_conn : mConn h = true;
  up_sent : sent h = [s];
  up_lossy : mRootTxnLossyFlag h = false
}.

Section delivery.
Context (unix : nat → Z) (dial : nat → option net_error) (write : nat → bytes → Z * option net_error).
Hypothesis write_all : ∀ n b, write n b = (zlen b, None).
Context (label : bytes) (cap time : Z).

Lemma add_up (msg s l : bytes) h : (4 <= length msg)%nat → zlen l + 4108 <= cap → up label cap time s l h →
  ∃ h', addDataToRingBuffer msg h = (h', Ret tt) ∧ up label cap time s (l ++ frame time msg) h'.
Proof.
  intros Hm Hcap [Hb Ht Hc [hd Hr] Hs Hcn Hsent Hlossy].
  destruct (add_frame msg h hd l Hm Hb Hr) as (m & rb & E & Hb' & Et & R & HcR). rewrite Ht in *.
  pose proof (length_text msg). pose proof (length_frame time msg).
  assert (FreeCapacity (mRingBuf h) = cap - zlen l) as Ef by (unfold FreeCapacity, Capacity in *; rewrite (rep_used _ _ _ Hr); lia).
  rewrite Ef, (proj2 (Z.leb_le _ _)) in E, R by lia. eexists. split; [exact E|].
  split; try done; [by rewrite <- Hc|by exists hd].
Qed.

Lemma flush_up (s l : bytes) h : up label cap time s l h →
  ∃ h', flush write h = (h', Ret tt) ∧ up label cap time (s ++ l) [] h'.
Proof.
  intros [Hb Ht Hc [hd Hr] Hs Hcn Hsent Hlossy]. rewrite (flush_eq write h hd l Hs Hr).
  set (h1 := set_socket (mStatus h) (mConn h) (deliver (take (Z.to_nat (zlen l)) l) (sent h)) (count 0 0 1 h)).
  rewrite (io_bind_Ret _ _ h h1 (zlen l)).
  2: { unfold SendData. rewrite Hs, Hcn, write_all. unfold h1. rewrite Hs, Hcn. by destruct (_ <=? _). }
  rewrite (proj2 (Z.ltb_ge _ _)) by lia. rewrite (io_bind_Ret _ _ h1 h1 (mRingBuf h)) by done.
  destruct (RemoveData_rep _ hd l (zlen l) Hr) as (rb & hd' & E & R & HcR); [lia|]. rewrite (proj2 (Z.leb_le _ _)) in R, E by lia.
  rewrite Nat2Z.id, drop_all in R. rewrite (io_bind_Ret _ _ h1 h1 (rb, true)) by (unfold lift; by rewrite E).
  exists (set_ring rb h1). split; [done|]. split; try done; [by rewrite <- Hc|by exists hd'|].
  unfold h1. cbn [sent set_ring set_socket]. by rewrite Hsent, Nat2Z.id, firstn_all.
Qed.

Lemma messages_up (msgs : list bytes) (s l : bytes) h : 4108 <= cap → zlen l + 4108 <= cap →
  Forall (λ m, (4 <= length m)%nat ∧ is_data m) msgs → msgs ≠ [] → up label cap time s l h →
  ∃ h', run unix dial write msgs h = (h', Ret tt) ∧ up label cap time (s ++ l ++ concat (frame time <$> msgs)) [] h'.
Proof.
  intros Hcap Hl Hm Hne. revert s l h Hl. induction Hm as [|m msgs [Hm Hd] Hms IH]; intros s l h Hl Hup; [done|]. clear Hne.
  cbn [run fmap list_fmap concat]. destruct (add_up m s l h Hm Hl Hup) as (h1 & E1 & U1). destruct (flush_up _ _ _ U1) as (h2 & E2 & U2).
  assert (E : handle_message unix dial write m h = (h2, Ret tt)).
  { unfold handle_message. rewrite bool_decide_false by done. rewrite (io_bind_Ret _ _ h h tt); [by rewrite (io_bind_Ret _ _ _ _ _ E1)|].
    unfold completeConnectionToCaldaemon. rewrite (io_bind_Ret _ _ h h (mStatus h)) by done. by rewrite (up_status _ _ _ _ _ _ Hup). }
  rewrite (io_bind_Ret _ _ _ _ _ E). destruct msgs as [|m' msgs].
  - exists h2. split; [done|]. cbn [fmap list_fmap concat]. by rewrite app_nil_r.
  - destruct (IH ltac:(done) (s ++ l ++ frame time m) [] h2) as (h3 & E3 & U3); [cbn; lia|done|].
    exists h3. split; [done|]. by rewrite <- !app_assoc in U3.
Qed.
End delivery.

(** The label as the first message of every connection. *)
Definition label_msg (cfg : Cal.calConfig) : bytes :=
  Cal.label cfg ++ (if Cal.enableTG cfg then [0; 0; 0; 1] else [0; 0; 0; 0]).

Section handler_theorem.
Context (unix : nat → Z) (dial : nat → option net_error) (write : nat → bytes → Z * option net_error).

Lemma init_message_ok (cfg : Cal.calConfig) (now : Z) :
  ∃ m, init_message (Cal.label cfg) (Cal.enableTG cfg) now = Ret m ∧ length (mBody m) = 4096%nat ∧ mConnectTime m = u32 now ∧
    toBytes m = Ret (frame (u32 now) (label_msg cfg)) ∧ getLength m = zlen (frame (u32 now) (label_msg cfg)).
Proof.
  unfold init_message, make_bytes. rewrite (proj2 (Z.leb_le _ _)) by (unfold calMessageBodyMaxSize; lia).
  cbn [mbind result_bind]. fold (label_msg cfg).
  assert (Hz : length (replicate (Z.to_nat calMessageBodyMaxSize) 0) = 4096%nat).
  { rewrite length_replicate. unfold calMessageBodyMaxSize. lia. }
  revert Hz. generalize (replicate (Z.to_nat calMessageBodyMaxSize) 0). intros z Hz.
  destruct (constructCalMessage_ok (label_msg cfg) (resetMessageHeader now (mkMsg 0 0 0 z))) as (b & -> & Hb & Eb); [|done|].
  { unfold label_msg. rewrite length_app. destruct (Cal.enableTG cfg); cbn [length]; lia. }
  eexists. split; [done|]. cbn [mBody mConnectTime resetMessageHeader]. split; [done|]. split; [done|].
  set (m := mkMsg _ _ _ _). pose proof (length_text (label_msg cfg)).
  destruct (toBytes_ok m) as [-> ->]; [cbn [mMsgLen m]; lia|done|]. cbn [mThreadID mConnectTime mMsgLen mBody m].
  rewrite Nat2Z.id, Eb, length_frame. done.
Qed.

(** The handler before its first try to connect. *)
Definition starting (cfg : Cal.calConfig) (m : clientMessage) (ring : ringBuffer) (label : bytes) : socketHandler :=
  mkHandler m ring label (zlen label) false 0 (Cal.connTimeSec cfg) statusNotConnected false [] 1 0 0.

(** [init]: the label goes into the ring after the try to connect. *)
Lemma init_steps (cfg : Cal.calConfig) : let label := frame (u32 (unix 0)) (label_msg cfg) in
  zlen label <= Cal.ringBufferSize cfg →
  ∃ m ring, length (mBody m) = 4096%nat ∧ mConnectTime m = u32 (unix 0) ∧ rep ring 0 [] ∧ Capacity ring = Cal.ringBufferSize cfg ∧
    ∀ h1 ok, establishCaldConnection unix dial (starting cfg m ring label) = (h1, Ret ok) → mRingBuf h1 = ring →
      ∃ rb, init_handler unix dial cfg = Ret (set_ring rb h1) ∧ rep rb 0 label ∧ Capacity rb = Cal.ringBufferSize cfg.
Proof.
  intros label Hfit. assert (12 <= zlen label) by (unfold label; rewrite length_frame; lia).
  unfold init_handler. destruct (Init_rep (mkRing [] 0 0 0 0) (Cal.ringBufferSize cfg)) as (ring & -> & Hr & Hc); [lia|].
  cbn [mbind result_bind]. destruct (init_message_ok cfg (unix 0)) as (m & -> & Hm1 & Hm2 & Et & El). cbn [mbind result_bind].
  fold label in Et, El. rewrite Et, El. cbn [mbind result_bind].
  exists m, ring. split_and!; [done|done|done|done|]. intros h1 ok E1 Er. fold (starting cfg m ring label).
  assert (R1 : rep (mRingBuf h1) 0 []) by (by rewrite Er). destruct (write_ring_ok label h1 0 [] R1) as (rb & E2 & R2 & C2).
  assert (FreeCapacity (mRingBuf h1) = Cal.ringBufferSize cfg) as Ef.
  { rewrite Er. unfold FreeCapacity. rewrite (rep_used _ _ _ Hr). unfold Capacity in Hc. cbn [length]. lia. }
  rewrite Ef, (proj2 (Z.leb_le _ _)) in E2, R2 by lia. exists rb.
  rewrite (io_bind_Ret _ _ _ _ _ E1), (io_bind_Ret _ _ _ _ _ E2). cbn [mret io_ret mbind result_bind].
  split_and!; [done|done|]. by rewrite C2, Er.
Qed.

Lemma init_inv (cfg : Cal.calConfig) : let label := frame (u32 (unix 0)) (label_msg cfg) in
  (∀ n, dial n ≠ Some EISCONN) → zlen label <= Cal.ringBufferSize cfg →
  ∃ h, init_handler unix dial cfg = Ret h ∧ inv label (Cal.ringBufferSize cfg) [] h.
Proof.
  intros label Hdial Hfit. destruct (init_steps cfg Hfit) as (m & ring & Hb & _ & Hr & Hc & H).
  destruct (establish_tried unix dial Hdial (starting cfg m ring label)) as (h1 & ok & E1 & (S1 & S2 & S3 & S4) & T); [done|].
  destruct (H h1 ok E1 S2) as (rb & E & R & C). exists (set_ring rb h1). split; [done|].
  split; cbn [mMsg mLabel mLabelSize mRingBuf set_ring mStatus mConn sent]; rewrite ?S1, ?S3, ?S4; try done.
  - exists 0%nat, label. split; [done|]. unfold current. cbn [mStatus sent set_ring].
    destruct T as [(-> & _ & ->)|(Hn & ->)]; [apply stream_label|]. destruct (mStatus h1); try done; apply stream_label.
  - intros Hs. destruct T as [(_ & Hc1 & ->)|(Hn & _)]; [by split|done].
  - destruct T as [(_ & _ & ->)|(_ & ->)]; [|done]. constructor; [|done]. exists label. apply stream_label.
Qed.

Lemma init_up (cfg : Cal.calConfig) : let label := frame (u32 (unix 0)) (label_msg cfg) in
  dial 0 = None → i64 (Cal.connTimeSec cfg) <= unix 1 → zlen label <= Cal.ringBufferSize cfg →
  ∃ h, init_handler unix dial cfg = Ret h ∧ up label (Cal.ringBufferSize cfg) (u32 (unix 0)) [] label h.
Proof.
  intros label Hdial Ht Hfit. destruct (init_steps cfg Hfit) as (m & ring & Hb & Htm & Hr & Hc & H). set (h0 := starting cfg m ring label).
  set (h1 := set_attempt (unix 2) (count 1 0 0 (count 1 0 0 h0))).
  set (h2 := set_socket statusConnected true (sent h1 ++ [[]]) (count 0 1 0 h1)).
  assert (E1 : establishCaldConnection unix dial h0 = (h2, Ret true)).
  { unfold establishCaldConnection. effects. cbn [mLastConnAttemptTime mConnTime count h0 starting ticks].
    rewrite Z.add_0_l, (proj2 (Z.leb_le _ _)) by done. cbn [negb]. unfold connectToCaldaemon. cbn [dials set_attempt count Nat.add].
    cbn [set_attempt mStatus]. unfold dials at 1. cbn. rewrite Hdial. done. }
  destruct (H h2 true E1 eq_refl) as (rb & E & R & C). exists (set_ring rb h2). split; [done|]. split; try done. by exists 0%nat.
Qed.

(** C29: What the CAL daemon receives on any connection, however often connecting and
    writing fail or stop half way, is a prefix of the label followed by whole frames of
    messages in the order in which they were logged: a message is lost as a whole or not at
    all, never cut, repeated or overtaken, and the handler serves every message without
    blocking or panicking. *)
Theorem connection_carries_frames (cfg : Cal.calConfig) (msgs : list bytes) : let label := frame (u32 (unix 0)) (label_msg cfg) in
  (∀ n, dial n ≠ Some EISCONN) → (∀ n b, 0 <= (write n b).1 <= zlen b) →
  zlen label <= Cal.ringBufferSize cfg → Forall (λ m, (4 <= length m)%nat) msgs →
  ∃ h h', init_handler unix dial cfg = Ret h ∧ run unix dial write msgs h = (h', Ret tt) ∧
    Forall (λ s, ∃ rest, stream label (filter is_data msgs) (s ++ rest)) (sent h').
Proof.
  intros label Hdial Hwrite Hfit Hm. destruct (init_inv cfg Hdial Hfit) as (h & E & Hi).
  destruct (run_carries unix dial write Hdial Hwrite label (Cal.ringBufferSize cfg) Hfit msgs Hm [] h Hi) as (h' & E' & []).
  by exists h, h'.
Qed.

(** When the daemon is there and takes what it is sent, everything arrives: the one
    connection carries the label and the frame of every message, in order, and no message
    is counted as lost. *)
Theorem all_messages_delivered (cfg : Cal.calConfig) (msgs : list bytes) : let label := frame (u32 (unix 0)) (label_msg cfg) in
  dial 0 = None → (∀ n b, write n b = (zlen b, None)) → i64 (Cal.connTimeSec cfg) <= unix 1 →
  zlen label + 4108 <= Cal.ringBufferSize cfg → Forall (λ m, (4 <= length m)%nat ∧ is_data m) msgs → msgs ≠ [] →
  ∃ h h', init_handler unix dial cfg = Ret h ∧ run unix dial write msgs h = (h', Ret tt) ∧
    sent h' = [label ++ concat (frame (u32 (unix 0)) <$> msgs)] ∧ mRootTxnLossyFlag h' = false.
Proof.
  intros label Hdial Hwrite Ht Hfit Hm Hne. destruct (init_up cfg Hdial Ht) as (h & E & U); [fold label; lia|].
  destruct (messages_up unix dial write Hwrite label (Cal.ringBufferSize cfg) (u32 (unix 0)) msgs [] label h) as (h' & E' & []);
    [lia|lia|done|done|done|]. by exists h, h'.
Qed.
End handler_theorem.

(** ** Witnesses *)

Definition sample_config : Cal.calConfig :=
  Cal.mkCalConfig true (str "pool") (str "test") (str "label") [] [] (str "localhost") (str "1118") 1 8192 300 (str "socket") [] false false 0.

Definition sample_messages : list bytes := [str "E1" ++ [13; 10; 0; 0; 0; 0]; Cal.handlerCtrlMsgNewRoot; str "E2" ++ [13; 10; 0; 0; 0; 0]].

(** A daemon that refuses the first connection and takes half of every write. *)
Lemma connection_carries_frames_witness : let unix := λ n, 1000 * Z.of_nat n in
  let dial := λ n : nat, if (n =? 0)%nat then Some OtherErrno else None in
  let write := λ (_ : nat) (b : bytes), (zlen b / 2, Some EAGAIN) in
  ∃ h h', init_handler unix dial sample_config = Ret h ∧ run unix dial write sample_messages h = (h', Ret tt) ∧
    Forall (λ s, ∃ rest, stream (frame (u32 (unix 0%nat)) (label_msg sample_config)) (filter is_data sample_messages) (s ++ rest)) (sent h').
Proof.
  intros unix dial write. apply (connection_carries_frames unix dial write sample_config sample_messages).
  - intros [|n]; done.
  - intros n b. cbn. pose proof (Z.div_mod (zlen b) 2 ltac:(lia)). pose proof (Z.mod_pos_bound (zlen b) 2 ltac:(lia)). lia.
  - vm_compute. discriminate.
  - repeat constructor; vm_compute; lia.
Defined.

Lemma all_messages_delivered_witness : let unix := λ n, 1000 * Z.of_nat n in
  let dial := λ _ : nat, None in let write := λ (_ : nat) (b : bytes), (zlen b, None) in
  let msgs := [str "E1" ++ [13; 10; 0; 0; 0; 0]; str "E2" ++ [13; 10; 0; 0; 0; 0]] in
  ∃ h h', init_handler unix dial sample_config = Ret h ∧ run unix dial write msgs h = (h', Ret tt) ∧
    sent h' = [frame (u32 (unix 0%nat)) (label_msg sample_config) ++ concat (frame (u32 (unix 0%nat)) <$> msgs)] ∧ mRootTxnLossyFlag h' = false.
Proof.
  intros unix dial write msgs. apply (all_messages_delivered unix dial write sample_config msgs).
  - done.
  - done.
  - vm_compute. discriminate.
  - vm_compute. discriminate.
  - repeat constructor; try (vm_compute; lia); vm_compute; discriminate.
  - done.
Defined.

End CalHandler.
