(* ===== verification/CalLog.v ===== *)
(** * What the CAL client logs: a tree of transactions and events of one thread group
    becomes a well-nested sequence of lines, which the handler takes to the CAL daemon; and
    what it does not: the root transaction and the correlation id. *)

From S2P Require Import Prelude GoIO CalRing ConfigFile Fmt Cal CalHandler.
From stdpp Require Import base list gmap strings.
From Stdlib Require Import ZArith Lia.
Import Cal.
Open Scope Z_scope.

Module CalLog.

(** ** Trees of activities *)

Inductive node : Type :=
  | Event (ty name status data : bytes)
  | Txn (ty name status data : bytes) (kids : list node).

Lemma node_ind' (P : node → Prop) :
  (∀ ty name status data, P (Event ty name status data)) →
  (∀ ty name status data kids, Forall P kids → P (Txn ty name status data kids)) →
  ∀ n, P n.
Proof.
  intros HE HT. fix IH 1. intros [ty name status data|ty name status data kids]; [apply HE|]. apply HT.
  induction kids as [|n kids IHk]; constructor; [apply IH|apply IHk].
Qed.

Section log.
Context (stamp : nat → bytes) (g : bytes).

(** A program with this tree: every child is made and completed between the making and
    the completion of its parent. *)
Fixpoint run_node (n : node) : io Cal unit :=
  match n with
  | Event ty name status data => e ← NewCalEvent stamp ty name status data g; _ ← Completed e.1; mret tt
  | Txn ty name status data kids =>
    t ← NewCalTransaction stamp ty name status data g;
    _ ← (fix run_nodes (l : list node) : io Cal unit :=
           match l with [] => mret tt | n :: l => _ ← run_node n; run_nodes l end) kids;
    CompletedTransaction stamp t
  end.

Fixpoint run_nodes (l : list node) : io Cal unit :=
  match l with [] => mret tt | n :: l => _ ← run_node n; run_nodes l end.

(** ** The lines of a tree *)

(** How often the clock is read. *)
Fixpoint ticks (n : node) : nat :=
  match n with
  | Event _ _ _ _ => 1
  | Txn _ _ _ _ kids => match kids with [] => 1 | _ => 2 + sum_list_with ticks kids end
  end.

Definition entry (class ty name status data : bytes) (k : nat) : calActivity :=
  mkActivity (tgkey g) (stamp k) class (shorten calMaxTypeLength ty) (shorten calMaxNameLength name)
    (match status with [] => calZero | _ => status end) data false.

(** The data of a root with children. *)
Definition root_data (cid : bytes) (data : bytes) : bytes :=
  str "corr_id_=" ++ cid ++ str "&log_id_=&session_id_=" ++ match data with [] => [] | d => str "&" ++ d end.

(** A transaction without children is one line, one with children a start line, the lines
    of the children, and an end line with the time of its completion. *)
Fixpoint lines (cid : bytes) (parent : option nat) (k : nat) (n : node) : list bytes :=
  match n with
  | Event ty name status data => [activity_line (entry calClassEvent ty name status data k)]
  | Txn ty name status data kids =>
    let a := entry calClassAtomicTransaction ty name status data k in
    match kids with
    | [] => [prepareEndOfTransactionMessage calClassAtomicTransaction (mkTxn a parent 0)]
    | _ =>
      [prepareStartOfTransactionMessage calClassStartTransaction (mkTxn a parent 0)] ++
      (fix go (k : nat) (l : list node) : list bytes :=
         match l with [] => [] | n :: l => lines cid (Some 0%nat) k n ++ go (k + ticks n)%nat l end) (S k) kids ++
      [prepareEndOfTransactionMessage calClassEndTransaction
         (mkTxn (set_stamp (stamp (S k + sum_list_with ticks kids)%nat)
           (match parent with None => set_data (root_data cid data) a | Some _ => a end)) parent 0)]
    end
  end.

Fixpoint lines_all (cid : bytes) (k : nat) (l : list node) : list bytes :=
  match l with [] => [] | n :: l => lines cid (Some 0%nat) k n ++ lines_all cid (k + ticks n)%nat l end.

(** ** The state *)

Abbreviation G := (tgkey g).

Lemma tgkey_idemp : tgkey G = G.
Proof. unfold tgkey. destruct (bool_decide_reflect (g = [])); case_bool_decide; done. Qed.

Lemma tgkey_ne : G ≠ [].
Proof. unfold tgkey. by case_bool_decide. Qed.

(** A client that logs at once: enabled, with nothing held back in this group. *)
Record at_ (cfg : calConfig) (cid : bytes) (buf : list bytes) (cur : option nat) (S : list calTransaction) (k : nat) (ch : list bytes) (c : Cal) : Prop := {
  at_instance : instance c = true;
  at_cfg : mCalConfig c = cfg;
  at_init : mAlreadyInit c = true;
  at_buffer : default [] (mPendingMsgBuffer c !! G) = buf;
  at_pending : default false (mPending c !! G) = false;
  at_current : default None (mCurrentCalTxn c !! G) = cur;
  at_corr : default [] (mCorrelationID c !! G) = cid;
  at_store : store c = S;
  at_clock : clock c = k;
  at_chann : mMsgChann c = ch
}.

Context (cfg : calConfig) (cid : bytes).
Hypothesis on : enabled cfg = true.
Hypothesis buffers : 0 <= msgBufferSize cfg + 5.

Abbreviation At := (at_ cfg cid []).

Definition tid : bytes := if enableTG cfg then le_bytes 4 (fnv32a G mod CALMaxThreadNum) else [0; 0; 0; 0].
Definition tagged (l : list bytes) : list bytes := (λ m, m ++ tid) <$> l.

Lemma leads_gets {A} (P : Cal → Prop) (f : Cal → A) a : (∀ c, P c → f c = a) → yields P (gets f) a P.
Proof. intros H c Hc. exists c. split; [|done]. unfold gets. by rewrite H. Qed.

Lemma leads_modify (P Q : Cal → Prop) f : (∀ c, P c → Q (f c)) → yields P (modify f) tt Q.
Proof. intros H c Hc. exists (f c). split; [done|auto]. Qed.

Lemma leads_if_true {A} P (b : bool) (m m' : io Cal A) a Q : b = true → yields P m a Q → yields P (if b then m else m') a Q.
Proof. by intros ->. Qed.
Lemma leads_if_false {A} P (b : bool) (m m' : io Cal A) a Q : b = false → yields P m' a Q → yields P (if b then m else m') a Q.
Proof. by intros ->. Qed.

(** ** Operations *)

Lemma leads_now cur S k ch : yields (At cur S k ch) (now stamp) (stamp k) (At cur S (Datatypes.S k) ch).
Proof. intros c []. exists (set_clock (Datatypes.S (clock c)) c). split; [unfold now; congruence|]. split; cbn; congruence. Qed.

Lemma leads_enabled buf cur S k ch : yields (at_ cfg cid buf cur S k ch) (gets isCalClientEnabled) true (at_ cfg cid buf cur S k ch).
Proof. apply leads_gets. intros c []. unfold isCalClientEnabled, IsEnabled. by rewrite at_instance0, at_cfg0, on. Qed.

Lemma at_writable buf cur S k ch c : at_ cfg cid buf cur S k ch c → writable c = true.
Proof. intros []. unfold writable, IsInitialized, IsEnabled. by rewrite at_instance0, at_init0, at_cfg0, on. Qed.

Lemma at_isPending buf cur S k ch c : at_ cfg cid buf cur S k ch c → isPending G c = false.
Proof. intros []. unfold isPending, getPendingFlag. rewrite tgkey_idemp. by rewrite at_pending0, andb_false_r. Qed.

Lemma leads_buffer buf cur S k ch :
  yields (at_ cfg cid buf cur S k ch) (getPendingMessageBuffer G) buf (at_ cfg cid buf cur S k ch).
Proof.
  intros c Hc. pose proof Hc as []. unfold getPendingMessageBuffer. rewrite tgkey_idemp.
  destruct (mPendingMsgBuffer c !! G) as [b|] eqn:E; cbn in at_buffer0.
  - exists c. by subst.
  - rewrite at_cfg0, (proj2 (Z.ltb_ge _ _)) by lia. subst buf. eexists. split; [done|].
    split; cbn; try done. by rewrite lookup_insert_eq.
Qed.

Lemma leads_set_buffer b buf cur S k ch :
  yields (at_ cfg cid buf cur S k ch) (modify (λ c, set_buffers (<[tgkey G := b]> (mPendingMsgBuffer c)) c)) tt (at_ cfg cid b cur S k ch).
Proof. apply leads_modify. intros c []. rewrite tgkey_idemp. split; cbn; try done. by rewrite lookup_insert_eq. Qed.

Lemma leads_WriteData m buf cur S k ch : (length ch < bfMsgChannelSize)%nat →
  yields (at_ cfg cid buf cur S k ch) (WriteData m) None (at_ cfg cid buf cur S k (ch ++ [m])).
Proof.
  intros Hl c []. unfold WriteData. rewrite at_chann0, (proj2 (Nat.ltb_lt _ _)) by done. eexists. split; [done|].
  by split.
Qed.

Lemma leads_write_messages l buf cur S k ch : (length ch + length l <= bfMsgChannelSize)%nat →
  yields (at_ cfg cid buf cur S k ch) (write_messages G l) tt (at_ cfg cid buf cur S k (ch ++ tagged l)).
Proof.
  revert ch. induction l as [|m l IH]; intros ch Hl; cbn [write_messages length] in *.
  { unfold tagged. cbn. rewrite app_nil_r. apply yields_mret. }
  eapply yields_bind.
  - eapply yields_bind; [apply (leads_gets _ _ tid)|].
    { intros c []. unfold tid_bytes. by rewrite at_cfg0. }
    eapply yields_bind; [apply leads_WriteData; lia|apply yields_mret].
  - replace (ch ++ tagged (m :: l)) with ((ch ++ [m ++ tid]) ++ tagged l) by by rewrite <- app_assoc. apply IH. rewrite length_app. cbn. lia.
Qed.

Lemma leads_flush force buf cur S k ch : (length ch + length buf <= bfMsgChannelSize)%nat →
  yields (at_ cfg cid buf cur S k ch) (flushMessageBuffer force G) tt (at_ cfg cid [] cur S k (ch ++ tagged buf)).
Proof.
  intros Hl. eapply yields_bind; [apply (leads_gets _ _ true), at_writable|].
  eapply yields_bind; [apply (leads_gets _ _ false), at_isPending|]. cbn [negb orb andb].
  eapply yields_bind; [apply leads_buffer|]. eapply yields_bind; [by apply leads_write_messages|]. apply leads_set_buffer.
Qed.

Lemma leads_unpend buf cur S k ch : yields (at_ cfg cid buf cur S k ch) (setPending false G) tt (at_ cfg cid buf cur S k ch).
Proof.
  apply leads_modify. intros c []. rewrite at_instance0. unfold setPendingFlag. rewrite tgkey_idemp.
  split; cbn; try done. by rewrite lookup_insert_eq.
Qed.

(** One message is one line in the channel. *)
Lemma leads_writeData msg cur S k ch : (length ch < bfMsgChannelSize)%nat →
  yields (At cur S k ch) (writeData G msg) tt (At cur S k (ch ++ tagged [msg])).
Proof.
  intros Hl. eapply yields_bind; [apply (leads_gets _ _ true), at_writable|]. cbn [negb].
  eapply yields_bind; [apply leads_buffer|].
  eapply yields_bind; [apply (leads_gets _ _ (msgBufferSize cfg)); by intros c []; subst|].
  eapply (yields_bind _ (At cur S k ch) _ _ tt); [destruct (_ <=? _); [apply leads_unpend|apply yields_mret]|].
  eapply yields_bind; [apply leads_set_buffer|]. apply leads_flush. cbn. lia.
Qed.

Lemma leads_initialize class ty name status data cur S k ch :
  yields (At cur S k ch) (initialize stamp ty name status data g (set_class class new_activity))
    (entry class ty name status data k) (At cur S (Datatypes.S k) ch).
Proof.
  eapply yields_bind; [apply leads_now|]. eapply yields_bind; [apply leads_enabled|].
  replace (mret _) with (mret (M:=io Cal) (entry class ty name status data k)); [apply yields_mret|].
  f_equal. by destruct data.
Qed.

Lemma leads_deref t x buf cur S k ch : S !! t = Some x →
  yields (at_ cfg cid buf cur S k ch) (deref t) x (at_ cfg cid buf cur S k ch).
Proof. intros E c Hc. exists c. split; [|done]. unfold deref. destruct Hc. by rewrite at_store0, E. Qed.

Lemma leads_update t f cur S k ch : yields (At cur S k ch) (update t f) tt (At cur (alter f t S) k ch).
Proof. apply leads_modify. intros c []. split; cbn; congruence. Qed.

Lemma leads_update_act t f cur S k ch :
  yields (At cur S k ch) (update_act t f) tt (At cur (alter (λ x, mkTxn (f (act x)) (mParent x) (mDuration x)) t S) k ch).
Proof. apply leads_update. Qed.

Lemma leads_current cur S k ch : yields (At cur S k ch) (current_txn G) cur (At cur S k ch).
Proof.
  intros c Hc. exists c. split; [|done]. destruct Hc. unfold current_txn, GetCurrentCalTxn, getCurrentCalTxn.
  by rewrite at_instance0, tgkey_idemp, at_current0.
Qed.

Lemma leads_SetCurrent cur' cur S k ch : yields (At cur S k ch) (SetCurrentCalTxn (Some cur') G) tt (At cur' S k ch).
Proof.
  apply leads_modify. intros c []. rewrite at_instance0. unfold setCurrentCalTxn.
  rewrite bool_decide_false by apply tgkey_ne. split; try done. cbn [mCurrentCalTxn set_current].
  destruct (decide (DefaultTGName = G)) as [->|]; [by rewrite lookup_insert_eq|].
  by rewrite lookup_insert_ne, lookup_insert_eq by done.
Qed.

(** What the first child does to its parent. *)
Definition is_atomic (x : calTransaction) : bool := bool_decide (mClass (act x) = calClassAtomicTransaction).
Definition begin (x : calTransaction) : calTransaction :=
  if is_atomic x then mkTxn (set_class calClassEndTransaction (act x)) (mParent x) (mDuration x) else x.
Definition start_line (x : calTransaction) : bytes := prepareStartOfTransactionMessage calClassStartTransaction x.

Definition opening (cur : option nat) (S : list calTransaction) : list bytes :=
  match cur ≫= λ t, S !! t with
  | Some x => if is_atomic x then [start_line x] else []
  | None => []
  end.

Definition started (cur : option nat) (S : list calTransaction) : list calTransaction :=
  match cur with Some t => alter begin t S | None => S end.

Definition open_txn (x : calTransaction) : Prop :=
  mThreadGroupName (act x) = G ∧ (mClass (act x) = calClassAtomicTransaction ∨ mClass (act x) = calClassEndTransaction).

Definition parent_ok (cur : option nat) (S : list calTransaction) : Prop :=
  ∀ t, cur = Some t → ∃ x, S !! t = Some x ∧ open_txn x.

Lemma alter_at {A} (f : A → A) (l : list A) t x : l !! t = Some x → alter f t l = <[t := f x]> l.
Proof.
  intros E. apply list_eq. intros i. destruct (decide (t = i)) as [->|Hne].
  - rewrite list_lookup_alter_eq, E, list_lookup_insert_eq; [done|]. by apply lookup_lt_Some in E.
  - by rewrite list_lookup_alter_ne, list_lookup_insert_ne.
Qed.

Lemma insert_at {A} (l : list A) t x y : l !! t = Some x → <[t := y]> l !! t = Some y.
Proof. intros E. apply list_lookup_insert_eq. by apply lookup_lt_Some in E. Qed.

Lemma leads_update_at t x f cur S k ch : S !! t = Some x →
  yields (At cur S k ch) (update_act t f) tt (At cur (<[t := mkTxn (f (act x)) (mParent x) (mDuration x)]> S) k ch).
Proof. intros E. pose proof (leads_update_act t f cur S k ch) as H. by rewrite (alter_at _ _ _ _ E) in H. Qed.

Lemma leads_send_start t x cur S k ch : S !! t = Some x → mThreadGroupName (act x) = G →
  mClass (act x) = calClassStartTransaction → (length ch < bfMsgChannelSize)%nat →
  yields (At cur S k ch) (send_txn stamp t) tt
    (At cur (<[t := mkTxn (set_class calClassEndTransaction (act x)) (mParent x) (mDuration x)]> S) k (ch ++ tagged [start_line x])).
Proof.
  intros Hx Hg Hc Hl. eapply yields_bind; [by apply leads_deref|]. cbv zeta. rewrite Hc, Hg.
  apply leads_if_false; [done|]. apply leads_if_true; [done|].
  eapply yields_bind; [by apply leads_writeData|]. by apply leads_update_at.
Qed.

Lemma leads_child cur S k ch : parent_ok cur S → (length ch + length (opening cur S) <= bfMsgChannelSize)%nat →
  yields (At cur S k ch) (match cur with Some t => onChildCreation stamp t | None => mret tt end) tt
    (At cur (started cur S) k (ch ++ tagged (opening cur S))).
Proof.
  intros Hp Hl. destruct cur as [t|]; [|unfold opening, tagged; cbn; rewrite app_nil_r; apply yields_mret].
  destruct (Hp t eq_refl) as (x & Hx & Hg & Hc). unfold opening, started in *. cbn [mbind option_bind] in *. rewrite Hx in *.
  rewrite (alter_at _ _ _ _ Hx). unfold begin.
  eapply yields_bind; [by apply leads_deref|]. unfold is_atomic in *. case_bool_decide as Ha; cbn [length] in Hl.
  - eapply yields_bind; [by apply leads_update_at|].
    set (x1 := mkTxn (set_class calClassStartTransaction (act x)) (mParent x) (mDuration x)).
    pose proof (leads_send_start t x1 (Some t) (<[t := x1]> S) k ch (insert_at _ _ _ _ Hx) Hg eq_refl ltac:(lia)) as H.
    by rewrite list_insert_insert_eq in H.
  - rewrite list_insert_id by done. unfold tagged. cbn. rewrite app_nil_r. apply yields_mret.
Qed.

(** A child of the current transaction. *)
Lemma leads_init_child class ty name status data cur S k ch : parent_ok cur S →
  (length ch + length (opening cur S) <= bfMsgChannelSize)%nat →
  yields (At cur S k ch) (init_child stamp class ty name status data g) (entry class ty name status data k, cur)
    (At cur (started cur S) (Datatypes.S k) (ch ++ tagged (opening cur S))).
Proof.
  intros Hp Hl. eapply yields_bind; [apply leads_enabled|]. cbn [negb].
  eapply yields_bind; [apply leads_initialize|]. eapply yields_bind; [apply leads_current|].
  eapply yields_bind; [by apply leads_child|]. apply yields_mret.
Qed.

Lemma leads_Completed a cur S k ch : mThreadGroupName a = G → mCompleted a = false → (length ch < bfMsgChannelSize)%nat →
  yields (At cur S k ch) (Completed a) (set_completed a) (At cur S k (ch ++ tagged [activity_line a])).
Proof.
  intros Hg Hc Hl. eapply yields_bind; [apply leads_enabled|]. rewrite Hc. cbn [orb negb].
  eapply yields_bind; [unfold sendSelf; rewrite Hg; by apply leads_writeData|]. apply yields_mret.
Qed.

Lemma parent_lt cur S t : parent_ok cur S → cur = Some t → (t < length S)%nat.
Proof. intros H E. destruct (H t E) as (x & Hx & _). by apply lookup_lt_Some in Hx. Qed.

Lemma opening_app cur S l : parent_ok cur S → opening cur (S ++ l) = opening cur S.
Proof.
  intros H. unfold opening. destruct cur as [t|]; [|done]. cbn. rewrite lookup_app_l; [done|]. by eapply parent_lt.
Qed.

Lemma started_app cur S l : parent_ok cur S → started cur (S ++ l) = started cur S ++ l.
Proof.
  intros H. unfold started. destruct cur as [t|]; [|done]. destruct (H t eq_refl) as (x & Hx & _).
  rewrite (alter_at _ _ _ _ Hx), (alter_at _ (S ++ l) t x), insert_app_l; [done| |]; try by eapply lookup_lt_Some.
  by apply lookup_app_l_Some.
Qed.

Lemma length_started cur S : length (started cur S) = length S.
Proof. unfold started. destruct cur; [apply length_alter|done]. Qed.

Lemma parent_ok_app cur S l : parent_ok cur S → parent_ok cur (S ++ l).
Proof. intros H t E. destruct (H t E) as (x & Hx & Ho). exists x. split; [by apply lookup_app_l_Some|done]. Qed.

(** A nil root is not seen. *)
Lemma leads_root {A} cur S k ch (f : option (option nat) → io Cal A) a Q :
  (∀ r, yields (At cur S k ch) (f (Some r)) a Q) → yields (At cur S k ch) (gets (GetRootCalTxn G) ≫= f) a Q.
Proof.
  intros H c Hc. destruct (H (getRootCalTxn G c) c Hc) as (c' & E & HQ). exists c'. split; [|done].
  unfold gets, mbind, io_bind, GetRootCalTxn. destruct Hc. by rewrite at_instance0.
Qed.

(** A new transaction becomes the current one. *)
Lemma leads_NewCalTransaction ty name status data cur S k ch : parent_ok cur S →
  (length ch + length (opening cur S) <= bfMsgChannelSize)%nat →
  let x := mkTxn (entry calClassAtomicTransaction ty name status data k) cur 0 in
  yields (At cur S k ch) (NewCalTransaction stamp ty name status data g) (length S)
    (At (Some (length S)) (started cur S ++ [x]) (Datatypes.S k) (ch ++ tagged (opening cur S))).
Proof.
  intros Hp Hl x. set (x0 := mkTxn new_activity None 0).
  eapply (yields_bind _ (At cur (S ++ [x0]) k ch)).
  { intros c []. eexists. split; [unfold alloc; by rewrite at_store0|]. split; cbn; try done. }
  eapply yields_bind; [|apply yields_mret]. eapply yields_bind; [apply leads_enabled|]. cbn [negb].
  eapply yields_bind; [apply leads_initialize|]. eapply yields_bind; [apply leads_current|].
  eapply yields_bind; [apply leads_child; [by apply parent_ok_app|by rewrite opening_app]|].
  rewrite opening_app, started_app by done.
  eapply yields_bind; [apply leads_update|].
  rewrite (alter_at _ _ (length S) x0), insert_app_r_alt, length_started, Nat.sub_diag.
  2: by rewrite length_started. 2: by rewrite lookup_app_r, length_started, Nat.sub_diag by (by rewrite length_started).
  cbn [list_insert insert mDuration x0]. apply leads_root. intros r.
  eapply yields_bind; [apply yields_mret|]. apply leads_SetCurrent.
Qed.

Lemma leads_onCompletion t x cur S k ch : S !! t = Some x → mThreadGroupName (act x) = G →
  (length ch <= bfMsgChannelSize)%nat →
  yields (At cur S k ch) (onCompletion t) tt (At (mParent x) S k ch).
Proof.
  intros Hx Hg Hl. eapply yields_bind; [by apply leads_deref|]. rewrite Hg.
  eapply yields_bind; [apply leads_SetCurrent|]. destruct (mParent x); [apply yields_mret|].
  eapply yields_bind; [apply leads_unpend|].
  eapply yields_bind; [apply leads_flush; cbn; lia|]. unfold tagged. cbn. rewrite app_nil_r. apply yields_mret.
Qed.

Lemma leads_nothing_nested complete t x S k ch : S !! t = Some x → mThreadGroupName (act x) = G →
  yields (At (Some t) S k ch) (completeAnyNestedTransactions stamp complete t) tt (At (Some t) S k ch).
Proof.
  intros Hx Hg. eapply yields_bind; [by apply leads_deref|]. rewrite Hg. eapply yields_bind; [apply leads_current|].
  eapply yields_bind; [apply (leads_gets _ _ (length S)); by intros c []; subst|].
  destruct (length S); cbn [nested_loop]; rewrite bool_decide_true by done; apply yields_mret.
Qed.

Lemma leads_CompletedTransaction (P Q : Cal → Prop) t : (∀ fuel, yields P (Completed_txn stamp (S fuel) t) tt Q) →
  yields P (CompletedTransaction stamp t) tt Q.
Proof. intros H c Hc. apply (H (length (store c)) c Hc). Qed.

(** The completion of a transaction without children. *)
Lemma leads_complete_atomic t x S k ch : S !! t = Some x → mThreadGroupName (act x) = G → mCompleted (act x) = false →
  mClass (act x) = calClassAtomicTransaction → (length ch < bfMsgChannelSize)%nat →
  yields (At (Some t) S k ch) (CompletedTransaction stamp t) tt
    (At (mParent x) (<[t := mkTxn (set_completed (act x)) (mParent x) (mDuration x)]> S) k
       (ch ++ tagged [prepareEndOfTransactionMessage calClassAtomicTransaction x])).
Proof.
  intros Hx Hg Hc Ha Hl. apply leads_CompletedTransaction. intros fuel. cbn [Completed_txn].
  eapply yields_bind; [by apply leads_deref|]. eapply yields_bind; [apply leads_enabled|]. rewrite Hc, Ha. cbn [orb negb].
  rewrite (bool_decide_false (calClassAtomicTransaction = calClassEndTransaction)), andb_false_r by done.
  eapply yields_bind; [apply yields_mret|]. eapply yields_bind; [by eapply leads_nothing_nested|].
  eapply yields_bind.
  { eapply yields_bind; [by apply leads_deref|]. cbv zeta. rewrite Ha, Hg. apply leads_if_true; [done|]. by apply leads_writeData. }
  eapply yields_bind; [by apply leads_update_at|].
  eapply (leads_onCompletion t (mkTxn (set_completed (act x)) (mParent x) (mDuration x)));
    [by eapply insert_at|done|rewrite length_app; cbn; lia].
Qed.

(** What the end of a transaction with children writes. *)
Definition ended (k : nat) (x : calTransaction) : calTransaction :=
  mkTxn (set_stamp (stamp k) (match mParent x with None => set_data (root_data cid (mData (act x))) (act x) | Some _ => act x end))
    (mParent x) (mDuration x).

Lemma leads_root_fields t x S k ch : S !! t = Some x → mThreadGroupName (act x) = G →
  yields (At (Some t) S k ch) (addAdditionalFieldsForRoot t) tt
    (At (Some t) (<[t := mkTxn (set_data (root_data cid (mData (act x))) (act x)) (mParent x) (mDuration x)]> S) k ch).
Proof.
  intros Hx Hg. eapply (yields_bind _ _ _ _ cid).
  - eapply yields_bind; [by apply leads_deref|]. apply leads_gets. intros c []. unfold getCorrelationID.
    by rewrite at_instance0, Hg, tgkey_idemp.
  - eapply yields_mono; [by apply leads_update_at|]. intros c. unfold root_data. by destruct (mData (act x)).
Qed.

Lemma leads_complete_ended t x S k ch : S !! t = Some x → mThreadGroupName (act x) = G → mCompleted (act x) = false →
  mClass (act x) = calClassEndTransaction → (length ch < bfMsgChannelSize)%nat →
  yields (At (Some t) S k ch) (CompletedTransaction stamp t) tt
    (At (mParent x) (<[t := mkTxn (set_completed (act (ended k x))) (mParent x) (mDuration x)]> S) (Datatypes.S k)
       (ch ++ tagged [prepareEndOfTransactionMessage calClassEndTransaction (ended k x)])).
Proof.
  intros Hx Hg Hc Ha Hl. apply leads_CompletedTransaction. intros fuel. cbn [Completed_txn].
  eapply yields_bind; [by apply leads_deref|]. eapply yields_bind; [apply leads_enabled|]. rewrite Hc. cbn [orb negb].
  set (x1 := mkTxn (match mParent x with None => set_data (root_data cid (mData (act x))) (act x) | Some _ => act x end)
    (mParent x) (mDuration x)).
  eapply (yields_bind _ (At (Some t) (<[t := x1]> S) k ch)).
  { unfold x1. rewrite Ha, (bool_decide_true (calClassEndTransaction = _)), andb_true_r by done.
    destruct (mParent x) as [p|] eqn:Ep.
    - rewrite bool_decide_false by done. assert (mkTxn (act x) (Some p) (mDuration x) = x) as -> by (destruct x; cbn in *; congruence).
      rewrite list_insert_id by done. apply yields_mret.
    - rewrite bool_decide_true by done. pose proof (leads_root_fields t x S k ch Hx Hg) as H. by rewrite Ep in H. }
  assert (E1 : <[t := x1]> S !! t = Some x1) by (by eapply insert_at).
  assert (Hg1 : mThreadGroupName (act x1) = G) by (unfold x1; by destruct (mParent x)).
  assert (Ha1 : mClass (act x1) = calClassEndTransaction) by (unfold x1; by destruct (mParent x)).
  eapply yields_bind; [by eapply leads_nothing_nested|].
  set (x2 := mkTxn (set_stamp (stamp k) (act x1)) (mParent x) (mDuration x)).
  assert (E2 : <[t := x2]> (<[t := x1]> S) !! t = Some x2) by (by eapply insert_at).
  eapply yields_bind.
  { eapply yields_bind; [by apply leads_deref|]. cbv zeta. rewrite Ha1, Hg1.
    apply leads_if_false; [done|]. apply leads_if_false; [done|]. apply leads_if_true; [done|].
    eapply yields_bind; [apply leads_now|]. eapply yields_bind; [by apply leads_update_at|].
    eapply yields_bind; [by apply (leads_deref t x2)|]. by apply leads_writeData. }
  eapply yields_bind; [by apply leads_update_at|]. rewrite !list_insert_insert_eq.
  change x2 with (ended k x).
  eapply (leads_onCompletion t (mkTxn (set_completed (act (ended k x))) (mParent x) (mDuration x)));
    [by eapply insert_at|by unfold ended; destruct (mParent x)|rewrite length_app; cbn; lia].
Qed.

(** ** Trees *)

Lemma run_node_Txn ty name status data kids :
  run_node (Txn ty name status data kids) =
  (t ← NewCalTransaction stamp ty name status data g; _ ← run_nodes kids; CompletedTransaction stamp t).
Proof. done. Qed.

Lemma lines_Txn id parent k ty name status data n kids :
  let a := entry calClassAtomicTransaction ty name status data k in
  lines id parent k (Txn ty name status data (n :: kids)) =
  [start_line (mkTxn a parent 0)] ++ lines_all id (Datatypes.S k) (n :: kids) ++
  [prepareEndOfTransactionMessage calClassEndTransaction
     (mkTxn (set_stamp (stamp (Datatypes.S k + sum_list_with ticks (n :: kids))%nat)
       (match parent with None => set_data (root_data id data) a | Some _ => a end)) parent 0)].
Proof.
  intros a. cbn [lines]. apply (f_equal (λ z, _ ++ z)), (f_equal (λ z, z ++ _)).
  cbn [lines_all]. apply (f_equal (λ z, _ ++ z)). generalize (Datatypes.S k + ticks n)%nat as j.
  induction kids as [|m l IH]; intros j; [done|]. cbn [lines_all]. by rewrite <- IH.
Qed.

Lemma lines_parent id p p' k n : lines id (Some p) k n = lines id (Some p') k n.
Proof. by destruct n as [|? ? ? ? []]. Qed.

Lemma begin_idemp x : begin (begin x) = begin x.
Proof. unfold begin at 2 3. destruct (is_atomic x) eqn:E; unfold begin; [done|by rewrite E]. Qed.


Lemma started_again cur S l : parent_ok cur S →
  started cur (started cur S ++ l) = started cur S ++ l ∧ opening cur (started cur S ++ l) = [].
Proof.
  intros H. unfold opening, started. destruct cur as [t|]; [|done]. destruct (H t eq_refl) as (x & Hx & _).
  rewrite (alter_at _ _ _ _ Hx). pose proof (insert_at _ _ _ (begin x) Hx) as Hb.
  assert (Hb' : (<[t := begin x]> S ++ l) !! t = Some (begin x)) by (by apply lookup_app_l_Some).
  split.
  - rewrite (alter_at _ _ _ _ Hb'), begin_idemp. by apply list_insert_id.
  - cbn. rewrite Hb'. unfold begin. destruct (is_atomic x) eqn:E; [done|by rewrite E].
Qed.

Lemma parent_ok_started cur S l : parent_ok cur S → parent_ok cur (started cur S ++ l).
Proof.
  intros H. apply parent_ok_app. intros t E. destruct (H t E) as (x & Hx & Hg & Hc). subst cur. cbn.
  rewrite (alter_at _ _ _ _ Hx). exists (begin x). split; [by eapply insert_at|]. unfold begin.
  destruct (is_atomic x); split; auto.
Qed.

Definition runs_well (n : node) : Prop := ∀ cur S k ch, parent_ok cur S →
  (length ch + length (opening cur S ++ lines cid cur k n) <= bfMsgChannelSize)%nat →
  ∃ l, yields (At cur S k ch) (run_node n) tt
    (At cur (started cur S ++ l) (k + ticks n)%nat (ch ++ tagged (opening cur S ++ lines cid cur k n))).

Lemma tagged_app l1 l2 : tagged (l1 ++ l2) = tagged l1 ++ tagged l2.
Proof. apply fmap_app. Qed.

(** Siblings: the first one opens the parent. *)
Lemma siblings_run (n : node) (kids : list node) (t : nat) S k ch : runs_well n → Forall runs_well kids → parent_ok (Some t) S →
  (length ch + length (opening (Some t) S ++ lines_all cid k (n :: kids)) <= bfMsgChannelSize)%nat →
  ∃ l, yields (At (Some t) S k ch) (run_nodes (n :: kids)) tt
    (At (Some t) (started (Some t) S ++ l) (k + sum_list_with ticks (n :: kids))%nat
       (ch ++ tagged (opening (Some t) S ++ lines_all cid k (n :: kids)))).
Proof.
  intros Hn Hk. revert n Hn S k ch. induction Hk as [|n' kids Hn' _ IH]; intros n Hn S k ch Hp Hl;
    cbn [lines_all] in *; rewrite (lines_parent cid 0 t) in *;
    destruct (Hn (Some t) S k ch Hp) as [l1 H1]; [rewrite !length_app in *; lia| |rewrite !length_app in *; lia|].
  - exists l1. cbn [run_nodes]. eapply yields_bind; [exact H1|]. rewrite app_nil_r.
    cbn [sum_list_with]. rewrite Nat.add_0_r. apply yields_mret.
  - destruct (started_again (Some t) S l1 Hp) as [Es Eo].
    destruct (IH n' Hn' (started (Some t) S ++ l1) (k + ticks n)%nat
      (ch ++ tagged (opening (Some t) S ++ lines cid (Some t) k n))) as [l2 H2]; [by apply parent_ok_started| |].
    { rewrite Eo. unfold tagged. rewrite length_app, length_fmap in *. cbn [lines_all app] in *. rewrite !length_app in *. lia. }
    exists (l1 ++ l2). eapply yields_bind; [exact H1|]. rewrite Es, Eo in H2. cbn [sum_list_with] in *.
    eapply yields_mono; [exact H2|]. intros c Hc. rewrite <- app_assoc in Hc. cbn [app] in Hc.
    rewrite <- app_assoc, <- tagged_app, <- app_assoc in Hc. by rewrite Nat.add_assoc.
Qed.

Lemma length_tagged l : length (tagged l) = length l.
Proof. apply length_fmap. Qed.

Lemma event_runs ty name status data : runs_well (Event ty name status data).
Proof.
  intros cur S k ch Hp Hl. cbn [lines] in *. rewrite length_app in Hl. cbn [length] in Hl. exists [].
  eapply yields_bind; [apply leads_init_child; [done|lia]|]. cbn [fst].
  eapply yields_bind; [apply leads_Completed; [done|done|rewrite length_app, length_tagged; lia]|].
  rewrite app_nil_r, tagged_app, app_assoc. cbn [ticks]. rewrite Nat.add_1_r. apply yields_mret.
Qed.

Lemma last_alter {A} (l : list A) x y : <[length l := y]> (l ++ [x]) = l ++ [y].
Proof. rewrite insert_app_r_alt, Nat.sub_diag by done. done. Qed.

Lemma atomic_runs ty name status data : runs_well (Txn ty name status data []).
Proof.
  intros cur S k ch Hp Hl. cbn [lines] in *. rewrite length_app in Hl. cbn [length] in Hl.
  set (x := mkTxn (entry calClassAtomicTransaction ty name status data k) cur 0) in *.
  exists [mkTxn (set_completed (act x)) cur 0]. rewrite run_node_Txn.
  eapply yields_bind; [apply leads_NewCalTransaction; [done|lia]|]. eapply yields_bind; [apply yields_mret|]. fold x.
  assert (Hx : (started cur S ++ [x]) !! length S = Some x).
  { by rewrite lookup_app_r, length_started, Nat.sub_diag by (by rewrite length_started). }
  eapply yields_mono; [apply (leads_complete_atomic _ x); try done; rewrite length_app, length_tagged; lia|].
  intros c Hc. cbn [ticks]. rewrite Nat.add_1_r, tagged_app, app_assoc. cbn [mParent mDuration x] in Hc.
  rewrite <- (length_started cur S), last_alter in Hc. done.
Qed.

Lemma nested_runs ty name status data n kids : runs_well n → Forall runs_well kids →
  runs_well (Txn ty name status data (n :: kids)).
Proof.
  intros Hn Hk cur S k ch Hp Hl. set (x := mkTxn (entry calClassAtomicTransaction ty name status data k) cur 0).
  set (kids' := n :: kids) in *. set (k' := (Datatypes.S k + sum_list_with ticks kids')%nat).
  assert (Ea : is_atomic x = true) by (by apply bool_decide_true).
  assert (Eb : begin x = mkTxn (set_class calClassEndTransaction (act x)) cur 0) by (unfold begin; by rewrite Ea).
  assert (El : lines cid cur k (Txn ty name status data kids') =
    [start_line x] ++ lines_all cid (Datatypes.S k) kids' ++
    [prepareEndOfTransactionMessage calClassEndTransaction (ended k' (begin x))]) by (unfold kids'; rewrite lines_Txn, Eb; by destruct cur).
  rewrite El in *. rewrite !length_app in Hl. cbn [length] in Hl. rewrite run_node_Txn.
  assert (Hx : (started cur S ++ [x]) !! length S = Some x).
  { by rewrite lookup_app_r, length_started, Nat.sub_diag by (by rewrite length_started). }
  assert (Ho : opening (Some (length S)) (started cur S ++ [x]) = [start_line x]) by (unfold opening; cbn [mbind option_bind]; by rewrite Hx, Ea).
  assert (Hst : started (Some (length S)) (started cur S ++ [x]) = started cur S ++ [begin x]).
  { unfold started at 1. rewrite (alter_at _ _ _ _ Hx). rewrite <- (length_started cur S). apply last_alter. }
  destruct (siblings_run n kids (length S) (started cur S ++ [x]) (Datatypes.S k) (ch ++ tagged (opening cur S)) Hn Hk)
    as [l2 H2].
  { intros t [= <-]. exists x. split; [done|]. split; [done|by left]. }
  { rewrite Ho, !length_app, length_tagged. cbn [length]. fold kids'. lia. }
  fold kids' k' in H2. rewrite Ho, Hst in H2.
  exists ([mkTxn (set_completed (act (ended k' (begin x)))) cur 0] ++ l2).
  eapply yields_bind; [apply leads_NewCalTransaction; [done|lia]|]. eapply yields_bind; [exact H2|].
  assert (Hb : ((started cur S ++ [begin x]) ++ l2) !! length S = Some (begin x)).
  { apply lookup_app_l_Some. by rewrite lookup_app_r, length_started, Nat.sub_diag by (by rewrite length_started). }
  eapply yields_mono; [apply (leads_complete_ended _ (begin x)); try done|].
  { rewrite !length_app, !length_tagged, length_app. cbn [length]. lia. }
  intros c Hc. rewrite insert_app_l in Hc by (rewrite length_app, length_started; cbn [length]; lia).
  rewrite <- (length_started cur S), last_alter, <- app_assoc in Hc. cbn [mParent mDuration begin x] in Hc.
  replace (k + ticks (Txn ty name status data kids'))%nat with (Datatypes.S k') by (unfold k', kids'; cbn [ticks]; lia).
  rewrite !tagged_app in *. rewrite <- !app_assoc in Hc. exact Hc.
Qed.

Lemma node_runs (n : node) : runs_well n.
Proof.
  induction n as [|ty name status data kids Hk] using node_ind'; [apply event_runs|].
  destruct Hk; [apply atomic_runs|by apply nested_runs].
Qed.

(** The log of a thread group is well nested: a tree of transactions and events, each
    completed before its parent, appears in the channel to the CAL daemon as the lines of a
    depth-first walk: one line for an event and for a transaction without children, and for
    every other transaction a start line, the lines of its children and an end line; the
    group is then without a transaction again. *)
Theorem tree_logged (n : node) (c : Cal) (ch : list bytes) (S : list calTransaction) (k : nat) :
  At None S k ch c → (length ch + length (lines cid None k n) <= bfMsgChannelSize)%nat →
  ∃ c' l, run_node n c = (c', Ret tt) ∧ At None (S ++ l) (k + ticks n)%nat (ch ++ tagged (lines cid None k n)) c'.
Proof.
  intros Hc Hl. destruct (node_runs n None S k ch) as [l H]; [done|done|].
  destruct (H c Hc) as (c' & E & H'). by exists c', l.
Qed.

End log.

(** ** From the program to the daemon *)

(** A line of the log ends in a line end. *)
Definition is_line (l : bytes) : Prop := ∃ l', l = l' ++ calEndOfLine.

Lemma start_is_line class x : is_line (prepareStartOfTransactionMessage class x).
Proof. unfold prepareStartOfTransactionMessage. rewrite !app_assoc. by eexists. Qed.

Lemma end_is_line class x : is_line (prepareEndOfTransactionMessage class x).
Proof. unfold prepareEndOfTransactionMessage. rewrite !app_assoc. by eexists. Qed.

Lemma activity_is_line a : is_line (activity_line a).
Proof. unfold activity_line. rewrite !app_assoc. by eexists. Qed.

#[local] Hint Resolve start_is_line end_is_line activity_is_line : core.

Section lines_facts.
Context (stamp : nat → bytes) (g cid : bytes).

Lemma lines_are_lines (n : node) parent k : Forall is_line (lines stamp g cid parent k n).
Proof.
  revert parent k. induction n as [|ty name status data kids IH] using node_ind'; intros parent k; [apply Forall_singleton; eauto|].
  destruct kids as [|m kids]; [apply Forall_singleton; eauto|]. rewrite lines_Txn. cbv zeta. rewrite !Forall_app, !Forall_singleton.
  split_and!; [apply start_is_line| |apply end_is_line]. generalize (Datatypes.S k) as j.
  induction IH as [|n' l Hn _ IHl]; intros j; [constructor|]. cbn [lines_all]. apply Forall_app. auto.
Qed.

Lemma lines_ne (n : node) parent k : lines stamp g cid parent k n ≠ [].
Proof. by destruct n as [|? ? ? ? []]. Qed.
End lines_facts.

Lemma tid_shape g cfg : ∃ a b d, tid g cfg = [a; b; d; 0].
Proof.
  unfold tid. destruct (enableTG cfg); [|by eexists _, _, _]. set (n := fnv32a _ mod _).
  assert (0 <= n < 100) by (apply Z.mod_pos_bound; unfold CALMaxThreadNum; lia).
  cbn [le_bytes]. rewrite !Z.shiftr_div_pow2, (Z.div_small n) by lia. by eexists _, _, _.
Qed.

Lemma tagged_is_data g cfg l : is_line l → (6 <= length (l ++ tid g cfg))%nat ∧ CalHandler.is_data (l ++ tid g cfg).
Proof.
  intros [l' ->]. destruct (tid_shape g cfg) as (a & b & d & ->). split; [rewrite !length_app; cbn; lia|].
  intros E. apply (f_equal last) in E. rewrite (app_assoc _ [a; b; d] [0] : _ ++ [a; b; d; 0] = _), last_snoc in E. done.
Qed.

Lemma tagged_data g cfg (ls : list bytes) : Forall is_line ls →
  Forall (λ m, (4 <= length m)%nat ∧ CalHandler.is_data m) (tagged g cfg ls).
Proof. intros H. apply Forall_fmap. eapply Forall_impl; [exact H|]. intros l Hl. destruct (tagged_is_data g cfg l Hl). split; [lia|done]. Qed.

(** A client that has just been made. *)
Lemma new_client_at g cfg : at_ g cfg [] [] None [] 0 [] (new_client cfg).
Proof. by split. Qed.


(** A line without its line end. *)
Definition chomp (l : bytes) : bytes := take (length l - 2) l.

(** The same tree in a log file: one line per line of the walk, and nothing else. *)
Theorem tree_reaches_file (stamp : nat → bytes) (g : bytes) (cfg : calConfig) (n : node) : let ls := lines stamp g [] None 0 n in
  enabled cfg = true → 0 <= msgBufferSize cfg + 5 → (length ls <= bfMsgChannelSize)%nat →
  ∃ c, run_node stamp g n (new_client cfg) = (c, Ret tt) ∧ CalHandler.file_run (mMsgChann c) = Ret (concat ((λ l, chomp l ++ [10]) <$> ls)).
Proof.
  intros ls On Hb Hn.
  destruct (node_runs stamp g cfg [] On Hb n None [] 0%nat []) as [l H]; [done|done|]. cbn [app started opening mbind option_bind] in H.
  destruct (H _ (new_client_at g cfg)) as (c & E & Hc). fold ls in Hc. exists c. split; [done|].
  rewrite (at_chann _ _ _ _ _ _ _ _ _ Hc). pose proof (lines_are_lines stamp g [] n None 0) as Hl. fold ls in Hl. clear - Hl.
  induction Hl as [|x ls Hx _ IH]; [done|]. destruct (tagged_is_data g cfg x Hx) as [Hlen Hd].
  change (tagged g cfg (x :: ls)) with ((x ++ tid g cfg) :: tagged g cfg ls). cbn [CalHandler.file_run]. rewrite bool_decide_false by done.
  unfold CalHandler.file_line. rewrite CalRing.slice_prefix by lia. cbn [mbind result_bind]. rewrite IH. cbn [mbind result_bind fmap list_fmap concat].
  do 3 f_equal. destruct (tid_shape g cfg) as (a & b & d & Et). rewrite Et in *. rewrite length_app. cbn [length].
  replace (Z.to_nat _) with (length x - 2)%nat by lia. unfold chomp. by rewrite take_app_le by lia.
Qed.

(** ** What is not logged *)

(** The calls a program makes on the client and its objects. *)
Inductive call : Type :=
  | CallNewTransaction (ty name status data g : bytes)
  | CallNewEvent (ty name status data g : bytes)
  | CallNewHeartBeat (ty name status data g : bytes)
  | CallCompleted (a : calActivity)
  | CallSetName (name : bytes) (a : calActivity)
  | CallSetStatus (status : bytes) (a : calActivity)
  | CallAddData (name value : bytes) (a : calActivity)
  | CallAddPoolStack (a : calActivity)
  | CallTxnSetName (t : nat) (name : bytes) (flag : Flags)
  | CallTxnSetStatus (t : nat) (status : bytes) (flag : Flags)
  | CallTxnAddData (t : nat) (name value : bytes)
  | CallSetRootStatus (t : nat) (status : bytes)
  | CallAddDataToRoot (t : nat) (name value : bytes)
  | CallSetDuration (t : nat) (d : Z)
  | CallSetCorrelationID (t : nat) (id : bytes)
  | CallTxnCompleted (t : nat)
  | CallCompletedWithStatus (t : nat) (status : bytes)
  | CallSetParentStack (info op g : bytes)
  | CallRelease (g : bytes).

Section calls.
Context (stamp : nat → bytes) (hostname : option bytes) (midnight : Z).

Definition perform (x : call) : io Cal unit :=
  match x with
  | CallNewTransaction ty name status data g => _ ← NewCalTransaction stamp ty name status data g; mret tt
  | CallNewEvent ty name status data g => _ ← NewCalEvent stamp ty name status data g; mret tt
  | CallNewHeartBeat ty name status data g => _ ← NewCalHeartBeat stamp ty name status data g; mret tt
  | CallCompleted a => _ ← Completed a; mret tt
  | CallSetName name a => _ ← SetName stamp name a; mret tt
  | CallSetStatus status a => _ ← SetStatus status a; mret tt
  | CallAddData name value a => _ ← AddDataStr stamp name value a; mret tt
  | CallAddPoolStack a => _ ← AddPoolStack stamp hostname midnight a; mret tt
  | CallTxnSetName t name flag => SetNameWithFlag stamp t name flag
  | CallTxnSetStatus t status flag => SetStatusWithFlag t status flag
  | CallTxnAddData t name value => on_act t (AddDataStr stamp name value)
  | CallSetRootStatus t status => SetRootTransactionStatus t status
  | CallAddDataToRoot t name value => AddDataToRoot stamp t name value
  | CallSetDuration t d => SetDuration t d
  | CallSetCorrelationID t id => SetCorrelationID t id
  | CallTxnCompleted t => CompletedTransaction stamp t
  | CallCompletedWithStatus t status => CompletedWithStatus stamp t status
  | CallSetParentStack info op g => SetParentStack info op g
  | CallRelease g => ReleaseCxtResource g
  end.

Fixpoint perform_all (l : list call) : io Cal unit :=
  match l with [] => mret tt | x :: l => _ ← perform x; perform_all l end.
End calls.

(** No group has a root transaction. *)
Record rootless (cfg : calConfig) (c : Cal) : Prop := {
  rootless_instance : instance c = true;
  rootless_cfg : mCalConfig c = cfg;
  rootless_root : ∀ g, getRootCalTxn g c = None
}.

Create HintDb cal_keeps.

Lemma keeps_state {A} (P : Cal → Prop) (r : result A) : keeps P (λ c, (c, r)).
Proof. by intros c Hc. Qed.

Lemma cal_keeps_gets {A} (P : Cal → Prop) (f : Cal → A) : keeps P (gets f).
Proof. by intros c Hc. Qed.
#[export] Hint Resolve cal_keeps_gets : cal_keeps.

Ltac walk := repeat first
  [ assumption | solve [auto with cal_keeps nocore]
  | apply keeps_bind; [|intros ?]
  | apply keeps_state
  | match goal with |- keeps _ (if ?b then _ else _) => destruct b end
  | match goal with |- keeps _ (match ?x with _ => _ end) => destruct x end ].

Section rootless_kept.
Context (stamp : nat → bytes) (hostname : option bytes) (midnight : Z) (cfg : calConfig).
Abbreviation kept := (keeps (rootless cfg)).

Lemma kept_modify f : (∀ c, instance (f c) = instance c ∧ mCalConfig (f c) = mCalConfig c ∧ mRootCalTxn (f c) = mRootCalTxn c) → kept (modify f).
Proof.
  intros Hf c []. destruct (Hf c) as (H1 & H2 & H3). split; cbn; [congruence..|]. intros g. unfold getRootCalTxn in *. by rewrite H3.
Qed.

Ltac changes := apply kept_modify; intros c; cbn; try (case_match; cbn); split_and!; first [done|congruence].

Lemma kept_now : kept (now stamp).
Proof. by intros c []. Qed.
Lemma kept_deref t : kept (deref t).
Proof. intros c Hc. unfold deref. by destruct (store c !! t). Qed.
Lemma kept_update t f : kept (update t f).
Proof. changes. Qed.
Lemma kept_WriteData m : kept (WriteData m).
Proof. intros c []. unfold WriteData. by destruct (_ <? _)%nat. Qed.
Lemma kept_buffer g : kept (getPendingMessageBuffer g).
Proof. intros c Hc. unfold getPendingMessageBuffer. destruct (_ !! _); [done|]. destruct (_ <? 0); [done|]. by destruct Hc. Qed.
Lemma kept_setPending b g : kept (setPending b g).
Proof. changes. Qed.
Lemma kept_alloc x : kept (alloc x).
Proof. by intros c []. Qed.
Lemma kept_current g : kept (current_txn g).
Proof. intros c Hc. unfold current_txn. by destruct (GetCurrentCalTxn g c). Qed.
Lemma kept_SetCurrent t g : kept (SetCurrentCalTxn t g).
Proof. destruct t; [changes|apply keeps_state]. Qed.
Lemma kept_unroot g : kept (SetRootCalTxn None g).
Proof. by intros c. Qed.
#[local] Hint Resolve kept_now kept_deref kept_update kept_WriteData kept_buffer kept_setPending kept_alloc kept_current kept_SetCurrent kept_unroot : cal_keeps.

Lemma kept_update_act t f : kept (update_act t f).
Proof. apply kept_update. Qed.
Lemma kept_set_buffers g b : kept (modify (λ c, set_buffers (<[tgkey g := b]> (mPendingMsgBuffer c)) c)).
Proof. changes. Qed.
#[local] Hint Resolve kept_update_act kept_set_buffers : cal_keeps.

Lemma kept_write_messages g l : kept (write_messages g l).
Proof. induction l as [|m l IH]; cbn [write_messages]; [walk|]. unfold writeMessageToHandler. walk. Qed.
#[local] Hint Resolve kept_write_messages : cal_keeps.

Lemma kept_flush force g : kept (flushMessageBuffer force g).
Proof. unfold flushMessageBuffer. walk. Qed.
#[local] Hint Resolve kept_flush : cal_keeps.

Lemma kept_writeData g m : kept (writeData g m).
Proof. unfold writeData. walk. Qed.
#[local] Hint Resolve kept_writeData : cal_keeps.

Lemma kept_reports func arg a : kept (reportAlreadyCompletedEvent stamp func arg a).
Proof. unfold reportAlreadyCompletedEvent, initialize, add_data, sendSelf, Completed. walk. Qed.
#[local] Hint Resolve kept_reports : cal_keeps.

Lemma kept_Completed a : kept (Completed a).
Proof. unfold Completed, sendSelf. walk. Qed.
Lemma kept_SetName name a : kept (SetName stamp name a).
Proof. unfold SetName. walk. Qed.
Lemma kept_SetStatus status a : kept (SetStatus status a).
Proof. unfold SetStatus. walk. Qed.
Lemma kept_AddData pairs a : kept (AddData stamp pairs a).
Proof. unfold AddData. walk. Qed.
#[local] Hint Resolve kept_Completed kept_SetName kept_SetStatus kept_AddData : cal_keeps.
Lemma kept_AddDataStr name value a : kept (AddDataStr stamp name value a).
Proof. unfold AddDataStr. walk. Qed.
Lemma kept_initialize ty name status data g a : kept (initialize stamp ty name status data g a).
Proof. unfold initialize. walk. Qed.
#[local] Hint Resolve kept_AddDataStr kept_initialize : cal_keeps.
Lemma kept_AddPoolStack a : kept (AddPoolStack stamp hostname midnight a).
Proof. unfold AddPoolStack, GetPoolStack, getCurrentPoolInfo. walk. Qed.
Lemma kept_SetParentStack info op g : kept (SetParentStack info op g).
Proof. unfold SetParentStack. walk. changes. Qed.

Lemma kept_send_txn t : kept (send_txn stamp t).
Proof. unfold send_txn. walk. Qed.
#[local] Hint Resolve kept_send_txn : cal_keeps.
Lemma kept_onChild t : kept (onChildCreation stamp t).
Proof. unfold onChildCreation. walk. Qed.
#[local] Hint Resolve kept_onChild : cal_keeps.
Lemma kept_init_child class ty name status data g : kept (init_child stamp class ty name status data g).
Proof. unfold init_child. walk. Qed.

(** The test for a root never finds the nil interface. *)
Lemma kept_root {A} g (f : option (option nat) → io Cal A) : (∀ r, kept (f (Some r))) → kept (gets (GetRootCalTxn g) ≫= f).
Proof.
  intros Hf c Hc. unfold mbind, io_bind, gets, GetRootCalTxn. rewrite (rootless_instance _ _ Hc). by apply Hf.
Qed.

Lemma kept_init_txn t ty name status data g : kept (init_txn stamp t ty name status data g).
Proof.
  unfold init_txn. apply keeps_bind; [walk|intros on]. destruct (negb on); [walk|].
  do 4 (apply keeps_bind; [walk|intros ?]). apply kept_root. intros r. walk.
Qed.
#[local] Hint Resolve kept_init_child kept_init_txn : cal_keeps.

Lemma kept_on_act t f : (∀ a, kept (f a)) → kept (on_act t f).
Proof. intros Hf. unfold on_act. walk. Qed.
Lemma kept_on_root t f : (∀ a, kept (f a)) → kept (on_root t f).
Proof. intros Hf. unfold on_root. walk. Qed.
#[local] Hint Resolve kept_on_act kept_on_root : cal_keeps.

Lemma kept_SetNameWithFlag t name flag : kept (SetNameWithFlag stamp t name flag).
Proof. unfold SetNameWithFlag, handlePendingFlag, handleFinalizeRootNameFlag. walk. Qed.
Lemma kept_onCompletion t : kept (onCompletion t).
Proof. unfold onCompletion. walk. Qed.
#[local] Hint Resolve kept_onCompletion : cal_keeps.

Lemma kept_Completed_txn fuel t : kept (Completed_txn stamp fuel t).
Proof.
  revert t. induction fuel as [|fuel IH]; intros t; cbn [Completed_txn]; [walk|].
  walk; unfold addAdditionalFieldsForRoot, GetCorrelationID, completeAnyNestedTransactions; walk.
  match goal with |- kept (nested_loop _ _ ?n _ ?p) => generalize p, n end. intros p n. revert p.
  induction n as [|n IHn]; intros p; cbn [nested_loop]; unfold report_nested; walk.
Qed.
#[local] Hint Resolve kept_AddPoolStack kept_SetParentStack kept_SetNameWithFlag kept_Completed_txn : cal_keeps.

Lemma kept_complete t : kept (CompletedTransaction stamp t).
Proof. intros c. apply kept_Completed_txn. Qed.
#[local] Hint Resolve kept_complete : cal_keeps.

Lemma kept_release g : kept (ReleaseCxtResource g).
Proof.
  intros c Hc. pose proof Hc as [H1 H2 H3]. unfold ReleaseCxtResource, modify. rewrite H1. split; [done|done|].
  intros g'. specialize (H3 g'). unfold getRootCalTxn in *. cbn. by rewrite lookup_delete; case_decide.
Qed.
#[local] Hint Resolve kept_release : cal_keeps.

Lemma kept_perform x : kept (perform stamp hostname midnight x).
Proof.
  destruct x; cbn [perform]; unfold NewCalTransaction, NewCalEvent, NewCalHeartBeat, init_heartbeat, SetStatusWithFlag, SetRootTransactionStatus,
    AddDataToRoot, SetDuration, SetCorrelationID, CompletedWithStatus; walk; try changes.
Qed.

Lemma kept_all l : kept (perform_all stamp hostname midnight l).
Proof. induction l as [|x l IH]; cbn [perform_all]; [walk|]. apply keeps_bind; [apply kept_perform|done]. Qed.

Lemma new_client_rootless : rootless cfg (new_client cfg).
Proof. split; [done|done|]. intros g. unfold getRootCalTxn. cbn. by rewrite lookup_empty. Qed.
End rootless_kept.

Lemma on_root_panics t f c x : instance c = true → (∀ g, getRootCalTxn g c = None) → store c !! t = Some x → (on_root t f c).2 = Panic.
Proof. intros Hi Hr Hx. unfold on_root, mbind, io_bind, deref, gets, GetRootCalTxn. by rewrite Hx, Hi, Hr. Qed.

Lemma SetStatus_returns status a c : ∃ a', SetStatus status a c = (c, Ret a').
Proof. unfold SetStatus, mbind, io_bind, gets. repeat case_match; by eexists. Qed.

Lemma on_act_status t status c x : store c !! t = Some x →
  ∃ a, on_act t (SetStatus status) c = (set_store (alter (λ x, mkTxn a (mParent x) (mDuration x)) t (store c)) c, Ret tt).
Proof.
  intros Hx. destruct (SetStatus_returns status (act x) c) as [a Ha]. exists a. unfold on_act.
  rewrite (io_bind_Ret _ _ c c x) by (unfold deref; by rewrite Hx). by rewrite (io_bind_Ret _ _ _ _ _ Ha).
Qed.

(** No call a program can make gives a thread group a root transaction, because the
    test for a missing root compares an interface that holds a nil pointer with nil. So the
    methods that address the root, of whatever transaction of an enabled client, panic. *)
Theorem root_methods_panic (stamp : nat → bytes) (hostname : option bytes) (midnight : Z) (cfg : calConfig) (l : list call) :
  let c := (perform_all stamp hostname midnight l (new_client cfg)).1 in
  (∀ g, getRootCalTxn g c = None) ∧
  (enabled cfg = true → ∀ t, is_Some (store c !! t) → ∀ status name value,
     (SetRootTransactionStatus t status c).2 = Panic ∧ (AddDataToRoot stamp t name value c).2 = Panic ∧
     (SetStatusWithFlag t status FlagSetRootStatus c).2 = Panic).
Proof.
  intros c. assert (R : rootless cfg c) by apply kept_all, new_client_rootless. destruct R as [R1 R2 R3]. split; [done|].
  intros On t [x Hx] status name value.
  assert (E : isCalClientEnabled c = true) by (unfold isCalClientEnabled, IsEnabled; by rewrite R1, R2, On).
  unfold SetRootTransactionStatus, AddDataToRoot, SetStatusWithFlag.
  rewrite !(io_bind_Ret _ _ c c true) by (unfold gets; by rewrite E). cbn [negb]. split; [by eapply on_root_panics|]. split; [by eapply on_root_panics|].
  destruct (on_act_status t status c x Hx) as [a Ha]. rewrite (io_bind_Ret _ _ _ _ _ Ha).
  eapply on_root_panics; [done|done|]. cbn. by rewrite list_lookup_alter_eq, Hx.
Qed.

(** The correlation id that a program sets is not the one it gets: the arguments are
    swapped on the way, and the group becomes the id of a group named like the id. *)
Lemma SetCorrelationID_lost (t : nat) (id : bytes) (c : Cal) (x : calTransaction) :
  store c !! t = Some x → instance c = true → tgkey id ≠ tgkey (mThreadGroupName (act x)) →
  ∃ c', SetCorrelationID t id c = (c', Ret tt) ∧ (GetCorrelationID t c').2 = (GetCorrelationID t c).2.
Proof.
  intros Hx Hi Hne. unfold SetCorrelationID. rewrite (io_bind_Ret _ _ c c x) by (unfold deref; by rewrite Hx).
  eexists. split; [done|]. cbn. rewrite Hi. unfold GetCorrelationID, mbind, io_bind, deref, gets, setCorrelationID. cbn.
  rewrite Hx, Hi. unfold getCorrelationID. cbn [mCorrelationID set_corr instance snd]. rewrite Hi. by rewrite lookup_insert_ne by done.
Qed.

(** ** Witnesses *)

Definition sample_stamp (_ : nat) : bytes := str "10:20:30.45".
Definition sample_tree : node :=
  Txn (str "API") (str "CLIENT_SESSION") (str "0") [] [Event (str "EVENT") (str "a") [] (str "k=v"); Txn (str "EXEC") (str "sql") [] [] []].

Lemma tree_logged_witness : let cfg := CalHandler.sample_config in let g := str "g1" in
  ∃ c' l, run_node sample_stamp g sample_tree (new_client cfg) = (c', Ret tt) ∧
    at_ g cfg [] [] None ([] ++ l) (0 + ticks sample_tree)%nat ([] ++ tagged g cfg (lines sample_stamp g [] None 0 sample_tree)) c'.
Proof.
  intros cfg g. apply (tree_logged sample_stamp g cfg []); [done|done|apply new_client_at|vm_compute; lia].
Defined.


Lemma tree_reaches_file_witness : let cfg := CalHandler.sample_config in let g := str "g1" in
  ∃ c, run_node sample_stamp g sample_tree (new_client cfg) = (c, Ret tt) ∧
    CalHandler.file_run (mMsgChann c) = Ret (concat ((λ l, chomp l ++ [10]) <$> lines sample_stamp g [] None 0 sample_tree)).
Proof. intros cfg g. apply (tree_reaches_file sample_stamp g cfg sample_tree); [done|done|vm_compute; lia]. Defined.

Lemma root_methods_panic_witness : let cfg := CalHandler.sample_config in
  let l := [CallNewTransaction (str "API") (str "CLIENT_SESSION") (str "0") [] []] in
  let c := (perform_all sample_stamp None 0 l (new_client cfg)).1 in
  (SetRootTransactionStatus 0 (str "1") c).2 = Panic.
Proof.
  intros cfg l c. destruct (root_methods_panic sample_stamp None 0 cfg l) as [_ H].
  apply (H eq_refl 0%nat ltac:(vm_compute; by eexists) (str "1") [] []).
Defined.

End CalLog.
