(* ===== verification/ClientInfo.v ===== *)
(** * The client info command of a session (lib/coordinator.go, the CAL part of
    processClientInfoMuxCommand): the pool of the client becomes an event of the log. *)

From S2P Require Import Prelude GoIO ConfigFile Fmt Cal CalHandler CalLog.
From stdpp Require Import base list gmap strings.
From Stdlib Require Import ZArith Lia.
Import Cal CalLog.
Open Scope Z_scope.

Module ClientInfo.

Definition EventTypeClientInfo : bytes := str "CLIENT_INFO".
Definition TransOK : bytes := str "0".

(** The text up to a separator. *)
Definition upto (s sep : bytes) : bytes :=
  let i := Fmt.Index s sep in if i =? -1 then s else take (Z.to_nat i) s.

(** What follows the last occurrence of a prefix. *)
Definition after_last (s prefix : bytes) : option bytes :=
  let i := Fmt.LastIndex s prefix in
  if i =? -1 then None else Some (drop (Z.to_nat i + length prefix) s).

Definition pool_name (clientInfo : bytes) : bytes :=
  match after_last clientInfo (str "Poolname: ") with
  | Some rest => upto rest (str ",")
  | None => str "UNKNOWN"
  end.

Definition corr_id (corrID : option bytes) : bytes :=
  match corrID with
  | None => str "NotSet"
  | Some payload =>
    let i := Fmt.Index payload (str "=") in
    if i =? -1 then str "NotSet" else upto (drop (Z.to_nat i + 1) payload) (str "&")
  end.

Section client_info.
Context (stamp : nat → bytes) (hostname : option bytes) (midnight : Z).

(** [calActivity.SetParentStack] *)
Definition SetParentStack_act (info op g : bytes) : io Cal unit := λ c,
  if instance c then SetParentStack info op (tgkey g) c else (c, Ret tt).

(** The pool stack of the client: its end is looked for in the pool name. *)
Definition parent_stack (clientInfo : bytes) : io Cal unit :=
  match after_last clientInfo (str "PoolStack: ") with
  | None => mret tt
  | Some rest =>
    let e := Fmt.Index (pool_name clientInfo) (str ",") in
    stack ← lift (if e =? -1 then Ret rest else slice rest 0 e);
    SetParentStack_act stack EventTypeClientInfo []
  end.

(** The event; a missing client is a nil pointer. *)
Definition client_info_event (clientInfo : bytes) (corrID : option bytes) : io Cal unit :=
  e ← NewCalEvent stamp EventTypeClientInfo (pool_name clientInfo) TransOK (str "mux") [];
  there ← gets instance;
  if negb there then lift Panic
  else
    stacks ← gets IsPoolstackEnabled;
    _ ← (if (stacks : bool) then parent_stack clientInfo else mret tt);
    a ← AddPoolStack stamp hostname midnight e.1;
    a ← AddDataStr stamp (str "corr_id") (corr_id corrID) a;
    _ ← Completed a;
    mret tt.
End client_info.

(** ** What is logged *)

Lemma index_from_shift s c i j : Fmt.index_from i s [c] = -1 ∧ 0 <= i → 0 <= j → Fmt.index_from j s [c] = -1.
Proof.
  revert i j. induction s as [|x s IH]; intros i j [E Hi] Hj; [done|]. cbn [Fmt.index_from Fmt.HasPrefix] in *.
  destruct (x =? c); cbn in *; [lia|]. eapply IH; [split; [exact E|lia]|lia].
Qed.

Lemma index_from_range s c i : 0 <= i → Fmt.index_from i s [c] = -1 ∨ i <= Fmt.index_from i s [c] < i + zlen s.
Proof.
  revert i. induction s as [|x s IH]; intros i Hi; [by left|]. cbn [Fmt.index_from Fmt.HasPrefix length].
  destruct (x =? c); cbn [andb]; [right; lia|]. destruct (IH (i + 1)) as [->|]; [lia|by left|right; lia].
Qed.

Lemma index_from_take s c i : 0 <= i → let j := Fmt.index_from i s [c] in
  j ≠ -1 → Fmt.index_from i (take (Z.to_nat (j - i)) s) [c] = -1.
Proof.
  revert i. induction s as [|x s IH]; intros i Hi j Hj; [done|]. subst j. cbn [Fmt.index_from Fmt.HasPrefix] in *.
  destruct (x =? c) eqn:E; cbn [andb] in *; [by rewrite Z.sub_diag|].
  pose proof (index_from_range s c (i + 1) ltac:(lia)) as [Hr|Hr]; [done|].
  replace (Z.to_nat _) with (S (Z.to_nat (Fmt.index_from (i + 1) s [c] - (i + 1)))) by lia.
  cbn [take Fmt.index_from Fmt.HasPrefix]. rewrite E. cbn [andb]. by apply IH; [lia|].
Qed.

(** What is cut at a separator has none. *)
Lemma upto_clean s c : Fmt.Index (upto s [c]) [c] = -1.
Proof.
  unfold upto, Fmt.Index. destruct (Z.eqb_spec (Fmt.index_from 0 s [c]) (-1)) as [E|E]; [done|].
  pose proof (index_from_take s c 0 ltac:(lia) E) as H. by rewrite Z.sub_0_r in H.
Qed.

Lemma pool_name_clean info : Fmt.Index (pool_name info) (str ",") = -1.
Proof. unfold pool_name. destruct (after_last _ _); [apply upto_clean|done]. Qed.

Section facts.
Context (stamp : nat → bytes) (hostname : option bytes) (midnight : Z) (cfg : calConfig) (cid : bytes).
Hypothesis on : enabled cfg = true.
Hypothesis buffers : 0 <= msgBufferSize cfg + 5.

Abbreviation At := (at_ [] cfg cid []).

Definition event (info : bytes) (k : nat) : calActivity :=
  entry stamp [] calClassEvent EventTypeClientInfo (pool_name info) TransOK (str "mux") k.

Lemma at_enabled cur S k ch c : At cur S k ch c → isCalClientEnabled c = true.
Proof. intros [H1 H2 _ _ _ _ _ _ _ _]. unfold isCalClientEnabled, IsEnabled. by rewrite H1, H2, on. Qed.

Lemma yields_event info S k ch : (length ch <= bfMsgChannelSize)%nat →
  yields (At None S k ch) (NewCalEvent stamp EventTypeClientInfo (pool_name info) TransOK (str "mux") []) (event info k, None)
    (At None S (Datatypes.S k) ch).
Proof.
  intros Hch. pose proof (leads_init_child stamp [] cfg cid on buffers calClassEvent EventTypeClientInfo (pool_name info) TransOK
    (str "mux") None S k ch) as H. unfold opening, started, tagged in H. cbn [mbind option_bind fmap list_fmap length] in H.
  rewrite app_nil_r in H. apply H; [done|lia].
Qed.

Lemma yields_AddDataStr name value a S k ch : name ≠ [] → mCompleted a = false →
  yields (At None S k ch) (AddDataStr stamp name value a) (validateAndAppendData (pair_text name value) a) (At None S k ch).
Proof.
  intros Hn Hc. apply (yields_bind _ (At None S k ch) _ _ true); [apply leads_gets, at_enabled|]. cbn [negb].
  apply (yields_bind _ (At None S k ch) _ _ true); [apply leads_gets, at_enabled|]. cbn [negb orb].
  rewrite bool_decide_false by (by destruct name). rewrite Hc. apply yields_mret.
Qed.

(** The line of the event: the pool of the client, and the correlation id. *)
Definition info_line (info : bytes) (corrID : option bytes) (k : nat) : bytes :=
  activity_line (set_data (str "mux&corr_id=" ++ corr_id corrID) (event info k)).

Lemma yields_client_info info corrID S k ch : poolstackEnabled cfg = false → (length ch < bfMsgChannelSize)%nat →
  yields (At None S k ch) (client_info_event stamp hostname midnight info corrID) tt
    (At None S (Datatypes.S k) (ch ++ tagged [] cfg [info_line info corrID k])).
Proof.
  intros Hp Hch. eapply yields_bind; [apply yields_event; lia|].
  eapply (yields_bind _ _ _ _ true); [apply leads_gets; by intros c []|]. cbn [negb].
  eapply (yields_bind _ _ _ _ false); [apply leads_gets; intros c [_ E _ _ _ _ _ _ _ _]; unfold IsPoolstackEnabled; by rewrite E|].
  eapply yields_bind; [apply yields_mret|].
  eapply (yields_bind _ _ _ _ (event info k)).
  { apply (yields_bind _ (At None S (Datatypes.S k) ch) _ _ false); [apply leads_gets|apply yields_mret].
    intros c [_ E _ _ _ _ _ _ _ _]. unfold IsPoolstackEnabled. by rewrite E, Hp, andb_false_r. }
  eapply yields_bind; [by apply yields_AddDataStr|].
  eapply yields_bind; [|apply yields_mret]. apply leads_Completed; done.
Qed.

(** A pool stack that is as long as the limit and has no separator. *)
Lemma SetParentStack_panics stack op g c : poolStackSize (mCalConfig c) <= zlen stack → Fmt.Index stack (str "^") = -1 →
  SetParentStack stack op g c = (c, Panic).
Proof.
  intros Hs Hi. unfold SetParentStack. rewrite (io_bind_Ret _ _ c c (poolStackSize (mCalConfig c))) by done.
  rewrite (proj2 (Z.leb_le _ _)) by done. rewrite Hi. done.
Qed.

End facts.

(** A client info command of a client without transactions adds one event to the log,
    with the name of the client's pool, or UNKNOWN, and the correlation id of the session. *)
Theorem client_info_logged (stamp : nat → bytes) (hostname : option bytes) (midnight : Z) (cfg : calConfig)
    (info : bytes) (corrID : option bytes) (cid : bytes) S k ch c :
  enabled cfg = true → 0 <= msgBufferSize cfg + 5 → poolstackEnabled cfg = false → (length ch < bfMsgChannelSize)%nat →
  at_ [] cfg cid [] None S k ch c →
  ∃ c', client_info_event stamp hostname midnight info corrID c = (c', Ret tt) ∧
    mMsgChann c' = ch ++ tagged [] cfg [info_line stamp info corrID k].
Proof.
  intros On Hb Hp Hch Hc. destruct (yields_client_info stamp hostname midnight cfg cid On Hb info corrID S k ch Hp Hch c Hc) as (c' & E & H).
  exists c'. split; [done|]. by destruct H.
Qed.

(** A client can end the proxy with one command: a client info whose pool stack is as
    long as the configured limit (2048 bytes at most) and has no separator panics, whatever
    else it says. *)
Theorem long_pool_stack_panics (stamp : nat → bytes) (hostname : option bytes) (midnight : Z) (cfg : calConfig)
    (info stack : bytes) (corrID : option bytes) (cid : bytes) S k ch c :
  enabled cfg = true → 0 <= msgBufferSize cfg + 5 → poolstackEnabled cfg = true → (length ch <= bfMsgChannelSize)%nat →
  at_ [] cfg cid [] None S k ch c →
  after_last info (str "PoolStack: ") = Some stack → poolStackSize cfg <= zlen stack → Fmt.Index stack (str "^") = -1 →
  (client_info_event stamp hostname midnight info corrID c).2 = Panic.
Proof.
  intros On Hb Hp Hch Hc Hi Hs Hx. destruct (yields_event stamp cfg cid On Hb info S k ch Hch c Hc) as (c1 & E & [H1 H2 _ _ _ _ _ _ _ _]).
  unfold client_info_event. rewrite (io_bind_Ret _ _ _ _ _ E), (io_bind_Ret _ _ c1 c1 true) by (unfold gets; by rewrite H1).
  cbn [negb]. rewrite (io_bind_Ret _ _ c1 c1 true) by (unfold gets, IsPoolstackEnabled; by rewrite H2, Hp).
  rewrite (io_bind_Panic _ _ c1 c1); [done|]. unfold parent_stack. rewrite Hi, pool_name_clean.
  rewrite (io_bind_Ret _ _ c1 c1 stack) by done. unfold SetParentStack_act. rewrite H1. apply SetParentStack_panics; by rewrite ?H2.
Qed.

(** ** Witnesses *)

Definition sample_info : bytes := str "Poolname: shop, Host: h".

Lemma client_info_logged_witness : let cfg := CalHandler.sample_config in
  ∃ c', client_info_event sample_stamp None 0 sample_info (Some (str "CorrId=abc&x")) (new_client cfg) = (c', Ret tt) ∧
    mMsgChann c' = [] ++ tagged [] cfg [info_line sample_stamp sample_info (Some (str "CorrId=abc&x")) 0].
Proof.
  intros cfg. eapply (client_info_logged sample_stamp None 0 cfg sample_info (Some (str "CorrId=abc&x")) [] [] 0%nat []);
    [done|done|done|vm_compute; lia|apply new_client_at].
Defined.

(** A configuration with pool stacks of at most four bytes. *)
Definition stack_config : calConfig :=
  mkCalConfig true (str "pool") (str "test") (str "label") [] [] (str "localhost") (str "1118") 1 8192 300 (str "socket") [] false true 4.

Lemma long_pool_stack_panics_witness :
  (client_info_event sample_stamp None 0 (str "PoolStack: shop") None (new_client stack_config)).2 = Panic.
Proof.
  eapply (long_pool_stack_panics sample_stamp None 0 stack_config (str "PoolStack: shop") (str "shop") None [] [] 0%nat []);
    [done|done|done|vm_compute; lia|apply new_client_at|done|vm_compute; discriminate|done].
Defined.
End ClientInfo.
