(* ===== verification/WorkerProcess.v ===== *)
(** * Worker processes (lib/workerclient.go, utility/wrapc.go): the environment a worker is
    started with, how it is terminated, and how dead ones are reaped. *)

From S2P Require Import Prelude ConfigFile Fmt Config WorkerClient.
From stdpp Require Import base list sets strings.
From Stdlib Require Import ZArith Lia.
Import Config WorkerClient.
Open Scope Z_scope.

Module WorkerProcess.

(** ** The environment *)

(** An environment is a list of entries, the name, an equals sign and the value. *)
Abbreviation environment := (list bytes).

(** [os.Getenv]: the first entry of the name, or nothing. *)
Fixpoint Getenv (key : bytes) (env : environment) : bytes :=
  match env with
  | [] => []
  | e :: env => if Fmt.HasPrefix e (key ++ str "=") then drop (length key + 1) e else Getenv key env
  end.

Fixpoint envUpsert (key val : bytes) (env : environment) : environment :=
  match env with
  | [] => [key ++ str "=" ++ val]
  | e :: env =>
    if Fmt.HasPrefix e (key ++ str "=") then (key ++ str "=" ++ val) :: env else e :: envUpsert key val env
  end.

Definition envCalClientSession : bytes := str "CAL_CLIENT_SESSION".
Definition envDbHostName : bytes := str "DB_HOSTNAME".
Definition envLogPrefix : bytes := str "logger.LOG_PREFIX".
Definition envHeraName : bytes := str "HERA_NAME".
Definition envTwoTask : bytes := str "TWO_TASK".
Definition mysql_datasource : bytes := str "mysql_datasource".

(** The host name in the name of the module, in capitals. *)
Definition dbHostName (module : bytes) : result bytes :=
  if 4 <? zlen module then
    let name := GoStrings.ToUpper (drop 4 module) in
    let pos := Fmt.Index name (str "-") in
    Ret (if pos =? -1 then name else take (Z.to_nat pos) name)
  else Error (errors_New (str "Invalid module name, must be like hera-<name> ")).

(** The names of the worker in the log and in the database. *)
Definition worker_names (app : Config) (t : HeraWorkerType) (id shard : Z) (module host : bytes) (env : environment) : environment :=
  let sfx := if EnableSharding app then str "_" ++ itoa shard else [] in
  let shd := if EnableSharding app then str " shd" ++ itoa shard else [] in
  let names session dbhost prefix hera env :=
    envUpsert envHeraName hera
      (envUpsert envLogPrefix (prefix ++ shd ++ str " " ++ itoa id)
        (envUpsert envDbHostName (host ++ dbhost ++ sfx)
          (envUpsert envCalClientSession (str "CLIENT_SESSION" ++ session ++ sfx) env))) in
  match t with
  | wtypeStdBy => names (str "_TAF") (if EnableTAF app then str "_TAF" else str "_R") (str "S0-WORKER") (module ++ str "_taf") env
  | wtypeRO => names (str "_R") (str "_R") (str "R-WORKER") module env
  | wtypeRW => names [] [] (str "WORKER") module env
  end.

Definition task_prefix (t : HeraWorkerType) : bytes :=
  match t with
  | wtypeStdBy => str "TWO_TASK_STANDBY0_"
  | wtypeRO => str "TWO_TASK_READ_"
  | wtypeRW => str "TWO_TASK_"
  end.

Definition task_fallback (t : HeraWorkerType) : bytes :=
  match t with
  | wtypeStdBy => str "TWO_TASK_STANDBY0"
  | wtypeRO => str "TWO_TASK_READ"
  | wtypeRW => envTwoTask
  end.

Definition not_defined (name : bytes) : go_error := errors_New (name ++ str " is not defined").

(** The variable of the shard, or for shard 0 the one without a shard; whether it was the
    one of the shard. *)
Definition two_task (t : HeraWorkerType) (shard : Z) (environ : environment) : result (bytes * bool) :=
  let v := task_prefix t ++ itoa shard in
  match Getenv v environ with
  | [] => if negb (shard =? 0) then Error (not_defined v) else Ret (Getenv (task_fallback t) environ, false)
  | task => Ret (task, true)
  end.

(** Every entry of [TWO_TASK] gets the value; there may be none. *)
Definition replace_task (task : bytes) (env : environment) : environment :=
  map (λ e, if (9 <=? zlen e) && bool_decide (take 9 e = str "TWO_TASK=") then str "TWO_TASK=" ++ task else e) env.

(** The environment of [StartWorker], from that of the proxy. *)
Definition worker_env (app : Config) (t : HeraWorkerType) (id shard : Z) (module : bytes) (environ : environment) : result environment :=
  host ← dbHostName module;
  let env := worker_names app t id shard module host environ in
  '(task, own) ← two_task t shard environ;
  env ← match t with
        | wtypeStdBy =>
          match task with [] => Error (not_defined (task_fallback t)) | _ => Ret (replace_task task env) end
        | wtypeRO =>
          match task with
          | [] =>
            match Getenv envTwoTask environ with
            | [] => Error (errors_New (str "TWO_TASK is not defined for READ worker"))
            | _ => Ret env
            end
          | _ => Ret (envUpsert envTwoTask task env)
          end
        | wtypeRW =>
          let env := if (own : bool) then envUpsert envTwoTask task env else env in
          match task with [] => Error (errors_New (str "TWO_TASK is not defined")) | _ => Ret env end
        end;
  Ret (envUpsert mysql_datasource task env).

(** ** Starting *)

(** What the system answers: the first call that fails, or the new process. *)
Inductive os_start : Set :=
  | SocketpairFails (e : go_error)
  | FileConnFails (e : go_error)
  | ForkFails (e : go_error)
  | Forked (pid : Z).

(** [dir] is the absolute directory of the proxy, when it can be found. *)
Definition worker_path (app : Config) (dir : option bytes) : bytes := default (str ".") dir ++ str "/" ++ ChildExecutable app.

Definition worker_argv (app : Config) (dir : option bytes) : list bytes := [worker_path app dir; str "--config"; str "hera.txt"].

(** [StartWorker]: the new process with its environment and its arguments. *)
Definition StartWorker (app : Config) (t : HeraWorkerType) (id shard : Z) (module : bytes) (environ : environment) (dir : option bytes)
    (os : os_start) : result (Z * environment * list bytes) :=
  env ← worker_env app t id shard module environ;
  match os with
  | SocketpairFails e | FileConnFails e | ForkFails e => Error e
  | Forked pid => Ret (pid, env, worker_argv app dir)
  end.

(** ** Signals *)

Inductive signal : Set := SIGTERM | SIGKILL | Probe.

(** [alive n] is whether the [n]-th signal to the process finds it. *)
Section terminate.
Context (alive : nat → bool).

(** The loop that waits in steps of 100 ms; [slept] in milliseconds. *)
Fixpoint wait_loop (fuel n : nat) (slept : Z) (sent : list signal) : Z * list signal :=
  match fuel with
  | O => (slept, sent)
  | S fuel =>
    if slept <? 2000 then
      let slept := slept + 100 in
      let sent := sent ++ [Probe] in
      if negb (alive n) then (slept, sent) else wait_loop fuel (S n) slept sent
    else (slept, sent)
  end.

(** [Terminate], when the process object can be found, as on Unix it always can; how long
    it sleeps and the signals it sends. Twenty rounds reach the limit. *)
Definition Terminate : Z * list signal :=
  if negb (alive 0) then (0, [SIGTERM])
  else
    let '(slept, sent) := wait_loop 21 1 0 [SIGTERM] in
    (slept, if 2000 <=? slept then sent ++ [SIGKILL] else sent).

(** [isProcessRunning] *)
Definition isProcessRunning : bool := alive 0.
End terminate.

(** [initiateRecover]: the value that goes with the signal, a C int. *)
Definition initiateRecover (param rqId : Z) : Z := i32 (Z.shiftl param 16 + rqId).

(** [reapDefunctPids]: the dead children, in the order in which [waitpid] reports them, which
    is up to the system, go into the array until it is full. *)
Fixpoint reapDefunctPids (dead : list Z) (room : nat) : list Z * list Z :=
  match dead, room with
  | pid :: dead, S room => let '(got, rest) := reapDefunctPids dead room in (pid :: got, rest)
  | _, _ => ([], dead)
  end.

(** [ReapDefunctPids]: the rest of the array stays zero. *)
Definition ReapDefunctPids (size : nat) (dead : list Z) : list Z * list Z :=
  let '(got, rest) := reapDefunctPids dead size in (got ++ replicate (size - length got) 0, rest).

(** ** Environments *)

Lemma HasPrefix_app s p : Fmt.HasPrefix (p ++ s) p = true.
Proof. induction p as [|c p IH]; [done|]. cbn. by rewrite Z.eqb_refl, IH. Qed.

Lemma HasPrefix_spec s p : Fmt.HasPrefix s p = true ↔ ∃ r, s = p ++ r.
Proof.
  split; [|by intros [r ->]; apply HasPrefix_app]. revert s. induction p as [|c p IH]; intros s; [by exists s|].
  destruct s as [|x s]; [done|]. cbn. intros [->%Z.eqb_eq [r ->]%IH]%andb_true_iff. by exists r.
Qed.

(** A name has no equals sign. *)
Definition is_name (k : bytes) : Prop := 61 ∉ k.

Ltac name_ok := apply (bool_decide_unpack _); vm_compute; exact I.

(** An entry belongs to one name only. *)
Lemma entry_name k k' v : is_name k → is_name k' → Fmt.HasPrefix (k ++ str "=" ++ v) (k' ++ str "=") = true → k = k'.
Proof.
  intros Hk Hk' [r E]%HasPrefix_spec. revert k' Hk' E. induction k as [|c k IH]; intros [|c' k'] Hk' E; [done|..].
  - cbn in E. injection E as E1 E2. unfold is_name in Hk'. set_solver.
  - cbn in E. injection E as E1 E2. unfold is_name in Hk. set_solver.
  - cbn in E. injection E as -> E. f_equal. apply IH; [unfold is_name in *; set_solver|unfold is_name in *; set_solver|done].
Qed.

Lemma drop_entry k v : drop (length k + 1) (k ++ str "=" ++ v) = v.
Proof. rewrite drop_app_ge by lia. replace (length k + 1 - length k)%nat with 1%nat by lia. done. Qed.

Lemma Getenv_upsert k v env : Getenv k (envUpsert k v env) = v.
Proof.
  assert (E : Fmt.HasPrefix (k ++ str "=" ++ v) (k ++ str "=") = true) by (rewrite app_assoc; apply HasPrefix_app).
  induction env as [|e env IH]; cbn [envUpsert Getenv]; [by rewrite E, drop_entry|].
  destruct (Fmt.HasPrefix e (k ++ str "=")) eqn:Ee; cbn [Getenv]; [by rewrite E, drop_entry|by rewrite Ee].
Qed.

Lemma Getenv_upsert_ne k k' v env : is_name k → is_name k' → k ≠ k' → Getenv k' (envUpsert k v env) = Getenv k' env.
Proof.
  intros Hk Hk' Hne.
  assert (E : ∀ w, Fmt.HasPrefix (k ++ str "=" ++ w) (k' ++ str "=") = false).
  { intros w. apply not_true_is_false. intros H. by apply entry_name in H. }
  induction env as [|e env IH]; cbn [envUpsert Getenv]; [by rewrite E|].
  destruct (Fmt.HasPrefix e (k ++ str "=")) eqn:Ee; cbn [Getenv]; [|by rewrite IH].
  apply HasPrefix_spec in Ee as [r ->]. rewrite <- app_assoc, !E. done.
Qed.

(** At most one entry is added, and none is lost. *)
Lemma length_envUpsert k v env : (length env <= length (envUpsert k v env) <= length env + 1)%nat.
Proof. induction env as [|e env IH]; cbn; [lia|]. destruct (Fmt.HasPrefix _ _); cbn; lia. Qed.

Lemma Getenv_replace task k env : is_name k → k ≠ envTwoTask → Getenv k (replace_task task env) = Getenv k env.
Proof.
  intros Hk Hne. assert (Ht : is_name envTwoTask) by name_ok.
  assert (E : ∀ w, Fmt.HasPrefix (envTwoTask ++ str "=" ++ w) (k ++ str "=") = false).
  { intros w. apply not_true_is_false. intros H. by apply entry_name in H. }
  induction env as [|e env IH]; [done|]. cbn [replace_task map]. fold (replace_task task env).
  destruct ((9 <=? zlen e) && bool_decide (take 9 e = str "TWO_TASK=")) eqn:B; cbn [Getenv]; [|by rewrite IH].
  apply andb_true_iff in B as [_ B%bool_decide_eq_true]. change (str "TWO_TASK=" ++ task) with (envTwoTask ++ str "=" ++ task).
  rewrite E, IH, <- (take_drop 9 e), B. change (str "TWO_TASK=" ++ drop 9 e) with (envTwoTask ++ str "=" ++ drop 9 e). by rewrite E.
Qed.

(** The data source a worker of a shard is meant to have. *)
Definition source (t : HeraWorkerType) (shard : Z) (environ : environment) : bytes :=
  match Getenv (task_prefix t ++ itoa shard) environ with
  | [] => if shard =? 0 then Getenv (task_fallback t) environ else []
  | task => task
  end.

Lemma two_task_source t shard environ task own : two_task t shard environ = Ret (task, own) → task = source t shard environ.
Proof.
  unfold two_task, source. destruct (Getenv _ environ); [|by intros [= <- <-]]. destruct (shard =? 0); cbn [negb]; [|done].
  by intros [= <- _].
Qed.

Lemma two_task_ok t shard environ : shard = 0 ∨ source t shard environ ≠ [] →
  ∃ own, two_task t shard environ = Ret (source t shard environ, own).
Proof.
  unfold two_task, source. destruct (Getenv _ environ); [|by eexists]. destruct (Z.eqb_spec shard 0); [by eexists|].
  intros [|]; done.
Qed.

(** The names a worker's environment sets. *)
Definition set_names : list bytes := [envCalClientSession; envDbHostName; envLogPrefix; envHeraName; envTwoTask; mysql_datasource].

Lemma set_names_names : Forall is_name set_names.
Proof. repeat constructor; name_ok. Qed.

Lemma name_of k : k ∈ set_names → is_name k.
Proof. intros Hk. by apply (proj1 (Forall_forall _ _) set_names_names). Qed.

Lemma other_name k k' : k ∈ set_names → k' ∉ set_names → k ≠ k'.
Proof. congruence. Qed.

(** The side conditions about names. *)
Ltac closed := apply (bool_decide_unpack _); vm_compute; exact I.
Ltac names := first [assumption | apply name_of; closed | closed
  | apply other_name; [closed|assumption] | apply not_eq_sym, other_name; [closed|assumption]].
Ltac env_ne := rewrite ?Getenv_upsert_ne, ?Getenv_replace by names.

Lemma worker_names_keep app t id shard module host env k : is_name k → k ∉ set_names →
  Getenv k (worker_names app t id shard module host env) = Getenv k env.
Proof. intros Hk Hs. unfold worker_names. by destruct t; env_ne. Qed.

Definition hera_name (t : HeraWorkerType) (module : bytes) : bytes :=
  match t with wtypeStdBy => module ++ str "_taf" | _ => module end.

Lemma worker_names_hera app t id shard module host env :
  Getenv envHeraName (worker_names app t id shard module host env) = hera_name t module.
Proof. unfold worker_names. destruct t; by rewrite Getenv_upsert. Qed.

#[local] Opaque worker_names.

Lemma dbHostName_ok module : 4 < zlen module → ∃ host, dbHostName module = Ret host.
Proof. intros H. unfold dbHostName. rewrite (proj2 (Z.ltb_lt _ _)) by done. by eexists. Qed.

(** A worker is started with the data source of its own shard and type, or for shard 0
    the one without a shard, and with the name of the proxy's module; of the proxy's
    environment it inherits every other variable unchanged. It is not started without a
    data source, unless it is a read worker of shard 0. *)
Theorem worker_env_spec (app : Config) (t : HeraWorkerType) (id shard : Z) (module : bytes) (environ env : environment) :
  worker_env app t id shard module environ = Ret env →
  Getenv mysql_datasource env = source t shard environ ∧ Getenv envHeraName env = hera_name t module ∧
  (∀ k, is_name k → k ∉ set_names → Getenv k env = Getenv k environ) ∧
  (source t shard environ ≠ [] ∨ t = wtypeRO ∧ shard = 0 ∧ Getenv envTwoTask environ ≠ []).
Proof.
  unfold worker_env. intros (host & _ & H)%bind_Ret. apply bind_Ret in H as ([task own] & E & H).
  pose proof (two_task_source _ _ _ _ _ E) as Hs. apply bind_Ret in H as (env1 & E1 & [= <-]). rewrite <- Hs.
  assert (Hk : (∀ k, is_name k → k ∉ set_names → Getenv k env1 = Getenv k environ) ∧ Getenv envHeraName env1 = hera_name t module ∧
    (task ≠ [] ∨ t = wtypeRO ∧ shard = 0 ∧ Getenv envTwoTask environ ≠ [])).
  { destruct t; [destruct task; [done|]; destruct own|destruct task eqn:Et; [destruct (Getenv envTwoTask environ) eqn:E2; [done|]|]|destruct task; [done|]];
      injection E1 as <-; (split_and!;
        [intros k Hk1 Hk2; env_ne; by rewrite worker_names_keep|env_ne; apply worker_names_hera|first [by left|right]]).
    split_and!; [done| |done]. unfold two_task in E. destruct (Getenv _ environ); [|done].
    destruct (Z.eqb_spec shard 0); [done|by cbn in E]. }
  destruct Hk as (Hk1 & Hk2 & Hk3). split_and!; [apply Getenv_upsert|by env_ne| |done].
  intros k H1 H2. env_ne. auto.
Qed.

(** It is started when it has one. *)
Lemma worker_env_ok app t id shard module environ : 4 < zlen module → source t shard environ ≠ [] →
  is_Some (match worker_env app t id shard module environ with Ret e => Some e | _ => None end).
Proof.
  intros Hm Hs. unfold worker_env. destruct (dbHostName_ok module Hm) as [host ->]. cbn [mbind result_bind].
  destruct (two_task_ok t shard environ) as [own ->]; [by right|]. cbn [mbind result_bind].
  destruct (source t shard environ) eqn:E; [done|]. destruct t; by eexists.
Qed.

(** A read worker of shard 0 for which only [TWO_TASK] is defined is started, but with
    an empty data source: the fallback that the code announces does not reach it. *)
Theorem read_worker_without_source (app : Config) (id : Z) (module : bytes) (environ : environment) :
  4 < zlen module → Getenv (str "TWO_TASK_READ_0") environ = [] → Getenv (str "TWO_TASK_READ") environ = [] →
  Getenv envTwoTask environ ≠ [] →
  ∃ env, worker_env app wtypeRO id 0 module environ = Ret env ∧ Getenv mysql_datasource env = [].
Proof.
  intros Hm H1 H2 H3. unfold worker_env. destruct (dbHostName_ok module Hm) as [host ->]. cbn [mbind result_bind].
  unfold two_task. change (task_prefix wtypeRO ++ itoa 0) with (str "TWO_TASK_READ_0"). rewrite H1. cbn [negb Z.eqb].
  change (task_fallback wtypeRO) with (str "TWO_TASK_READ"). rewrite H2. cbn [mbind result_bind].
  destruct (Getenv envTwoTask environ); [done|]. eexists. split; [done|]. apply Getenv_upsert.
Qed.

(** ** Termination *)

(** The first poll that does not find the process. *)
Section terminate_facts.
Context (alive : nat → bool).

Lemma wait_loop_gone fuel k n slept sent : (k < fuel)%nat → slept + 100 * Z.of_nat k < 2000 →
  (∀ i, (i < k)%nat → alive (n + i)%nat = true) → alive (n + k)%nat = false →
  wait_loop alive fuel n slept sent = (slept + 100 * (Z.of_nat k + 1), sent ++ replicate (S k) Probe).
Proof.
  revert k n slept sent. induction fuel as [|fuel IH]; intros k n slept sent Hf Hs Ha Hg; [lia|]. cbn [wait_loop].
  rewrite (proj2 (Z.ltb_lt _ _)) by lia. destruct k as [|k].
  - rewrite Nat.add_0_r in Hg. rewrite Hg. cbn [negb]. f_equal; lia.
  - rewrite (eq_trans (f_equal alive (eq_sym (Nat.add_0_r n))) (Ha 0%nat ltac:(lia))). cbn [negb].
    rewrite (IH k); [|lia|lia| |by rewrite <- Hg; f_equal; lia].
    + rewrite <- app_assoc. f_equal; lia.
    + intros i Hi. rewrite <- (Ha (S i)) by lia. f_equal. lia.
Qed.

Lemma wait_loop_stays fuel k n slept sent : (k <= fuel)%nat → slept + 100 * Z.of_nat k = 2000 →
  (∀ i, (S i < k)%nat → alive (n + i)%nat = true) → (0 < k)%nat →
  wait_loop alive fuel n slept sent = (2000, sent ++ replicate k Probe).
Proof.
  revert k n slept sent. induction fuel as [|fuel IH]; intros k n slept sent Hf Hs Ha Hk; [lia|]. cbn [wait_loop].
  rewrite (proj2 (Z.ltb_lt _ _)) by lia. destruct (decide (k = 1%nat)) as [->|Hk1].
  - destruct (negb (alive n)); [f_equal; lia|]. assert (slept + 100 = 2000) as -> by lia.
    destruct fuel; [done|]. cbn [wait_loop]. done.
  - rewrite (eq_trans (f_equal alive (eq_sym (Nat.add_0_r n))) (Ha 0%nat ltac:(lia))). cbn [negb]. destruct k as [|k]; [lia|].
    rewrite (IH k); [by rewrite <- app_assoc|lia|lia| |lia]. intros i Hi. rewrite <- (Ha (S i)) by lia. f_equal. lia.
Qed.
End terminate_facts.

Lemma first_gone (alive : nat → bool) n : (∀ i, (i < n)%nat → alive (S i) = true) ∨
  ∃ k, (k < n)%nat ∧ (∀ i, (i < k)%nat → alive (S i) = true) ∧ alive (S k) = false.
Proof.
  induction n as [|n [IH|(k & Hk & Ha & Hg)]]; [left; lia| |right; exists k; split_and!; [lia|done|done]].
  destruct (alive (S n)) eqn:E.
  - left. intros i Hi. destruct (decide (i = n)) as [->|]; [done|]. apply IH. lia.
  - right. exists n. split_and!; [lia|done|done].
Qed.

(** [Terminate] asks first: one SIGTERM, and if the process is there, polls 100 ms
    apart until it is gone. It takes at most two seconds and twenty polls, and SIGKILL is
    sent, last and once, exactly to a process that answers the SIGTERM and the first
    nineteen polls. *)
Theorem Terminate_bounded (alive : nat → bool) : let '(slept, sent) := Terminate alive in
  0 <= slept <= 2000 ∧
  ∃ n, (n <= 20)%nat ∧ slept = 100 * Z.of_nat n ∧
    sent = [SIGTERM] ++ replicate n Probe ++
      (if forallb alive (seq 0 20) then [SIGKILL] else []).
Proof.
  assert (K : forallb alive (seq 0 20) = true ↔ ∀ i, (i < 20)%nat → alive i = true).
  { rewrite forallb_forall. split; intros H i Hi; apply H; [apply in_seq; lia|apply in_seq in Hi; lia]. }
  unfold Terminate. destruct (alive 0%nat) eqn:E0; cbn [negb].
  2: { split; [lia|]. exists 0%nat. rewrite (not_true_is_false (forallb _ _)); [split_and!; [lia|lia|done]|]. intros H. rewrite (proj1 K H) in E0; [done|lia]. }
  destruct (first_gone alive 19) as [Ha|(k & Hk & Ha & Hg)].
  - rewrite (wait_loop_stays alive 21 20) by (try lia; intros i Hi; apply Ha; lia).
    split; [lia|]. exists 20%nat. split_and!; [lia|lia|]. rewrite (proj2 K); [done|].
    intros [|i] Hi; [done|apply Ha; lia].
  - rewrite (wait_loop_gone alive 21 k) by (first [lia|done]).
    rewrite (proj2 (Z.leb_gt _ _)) by lia. split; [lia|]. exists (S k). split_and!; [lia|lia|].
    rewrite (not_true_is_false (forallb _ _)); [by rewrite app_nil_r|]. intros H. rewrite (proj1 K H) in Hg; [done|lia].
Qed.

(** ** Reaping *)

Lemma reap_all (pids : list Z) (room : nat) : (length pids <= room)%nat → reapDefunctPids pids room = (pids, []).
Proof.
  revert room. induction pids as [|pid pids IH]; intros room Hr; [by destruct room|].
  destruct room as [|room]; cbn in *; [lia|]. by rewrite IH by lia.
Qed.

Lemma ReapDefunctPids_all (pids : list Z) (size : nat) : (length pids <= size)%nat →
  ReapDefunctPids size pids = (pids ++ replicate (size - length pids) 0, []).
Proof. intros H. unfold ReapDefunctPids. by rewrite reap_all. Qed.

(** The two halves of the value that goes with the recovery signal can be taken apart. *)
Lemma recover_halves param rqId : 0 <= param < 2 ^ 15 → in_u16 rqId →
  Z.shiftr (initiateRecover param rqId) 16 = param ∧ Z.land (initiateRecover param rqId) 65535 = rqId.
Proof.
  unfold in_u16, initiateRecover. intros Hp Hr. rewrite Z.shiftl_mul_pow2 by lia.
  rewrite i32_id by (unfold in_i32; lia). change 65535 with (Z.ones 16). rewrite Z.shiftr_div_pow2, Z.land_ones by lia. split.
  - rewrite Z.div_add_l, Z.div_small by lia. lia.
  - rewrite Z.add_comm, Z.mod_add, Z.mod_small by lia. done.
Qed.

(** ** A proxy with a data source *)

Definition ex_environ : environment := [str "TWO_TASK=tcp(127.0.0.1:3306)/db"; str "PATH=/bin"].

Lemma worker_env_spec_witness : ∃ env, worker_env (gAppConfig blank_globals) wtypeRW 3 0 (str "hera-test") ex_environ = Ret env ∧
  Getenv mysql_datasource env = str "tcp(127.0.0.1:3306)/db" ∧ Getenv (str "PATH") env = str "/bin".
Proof.
  destruct (worker_env (gAppConfig blank_globals) wtypeRW 3 0 (str "hera-test") ex_environ) as [env| | | |] eqn:E0;
    try (exfalso; revert E0; vm_compute; discriminate).
  exists env. split; [reflexivity|]. destruct (worker_env_spec _ _ _ _ _ _ _ E0) as (H1 & _ & H3 & _). split.
  - rewrite H1. vm_compute. reflexivity.
  - rewrite H3; [vm_compute; reflexivity|name_ok|name_ok].
Defined.

Lemma read_worker_without_source_witness : ∃ env,
  worker_env (gAppConfig blank_globals) wtypeRO 3 0 (str "hera-test") ex_environ = Ret env ∧ Getenv mysql_datasource env = [].
Proof. apply (read_worker_without_source (gAppConfig blank_globals) 3 (str "hera-test") ex_environ); vm_compute; congruence. Defined.

End WorkerProcess.
