(* ===== verification/WorkerBroker.v ===== *)
(** * The worker broker (lib/workerbroker.go): the pools of all shards, the map from process
    ids to workers, and the monitor that reaps dead workers, restarts them, resizes the
    pools and shuts everything down.

    The broker is modelled against an interface of pools; the worker pool of [WorkerPool]
    implements it. *)

From S2P Require Import Prelude Config RingQueue AdaptiveQueue WorkerClient WorkerPool StateLog WorkerProcess.
From stdpp Require Import base list gmap strings.
From Stdlib Require Import ZArith Lia.
Import Config StateLog.
Open Scope Z_scope.

Module WorkerBroker.

(** ** Pools as the broker sees them *)

(** Workers are numbered in the order in which they are made; [p_next] is the next number.
    The list of booleans says which starts of a worker process succeed. [p_step] is
    everything else that happens in a pool. *)
Class PoolOps (P E Op : Type) := {
  p_init : E → Z → list bool → result (P * bool);
  p_restart : E → wref → bool → P → result P;
  p_resize : E → Z → list bool → P → result P;
  p_terminate : wref → P → P;
  p_step : Op → P → result P;
  p_next : P → nat
}.

(** The processes that a list of starts makes before the first failure. *)
Fixpoint started (l : list bool) : nat := match l with true :: l => S (started l) | _ => 0 end.

(** [ok n p]: a good pool after at most [n] other steps, of which a machine counter takes
    [limit]. *)
Class PoolLaws (P E Op : Type) `{!PoolOps P E Op} (ok : nat → P → Prop) (limit : nat) := {
  ok_mono n p : ok n p → ok (S n) p;
  init_ok e size l p b : p_init e size l = Ret (p, b) → ok 0%nat p ∧ (p_next p <= started l)%nat;
  restart_ok e w b n p : ok n p → (w < p_next p)%nat →
    ∃ p', p_restart e w b p = Ret p' ∧ ok n p' ∧ (p_next p' = p_next p ∨ b = true ∧ p_next p' = S (p_next p));
  resize_ok e size l n p : ok n p →
    ∃ p', p_resize e size l p = Ret p' ∧ ok n p' ∧ (p_next p <= p_next p' <= p_next p + started l)%nat;
  terminate_ok w n p : ok n p → ok n (p_terminate w p) ∧ p_next (p_terminate w p) = p_next p;
  step_ok o n p p' : ok n p → (n < limit)%nat → p_step o p = Ret p' → ok (S n) p' ∧ p_next p' = p_next p
}.

(** ** The broker *)

(** A pool is named by its shard, its type and its instance; a worker by its pool and its
    number. *)
Abbreviation pool_id := (Z * Z * Z)%type.
Abbreviation worker_id := (pool_id * wref)%type.

Inductive os_signal : Set := SIGCHLD | SIGTERM.

#[export] Instance os_signal_eq_dec : EqDecision os_signal.
Proof. solve_decision. Defined.

(** [children] are the processes that run, [dead] those that have exited and wait to be
    reaped; [sigch] is the signal in the channel, which holds one. *)
Record WorkerBroker {P : Type} := mkBroker {
  workerpools : gmap pool_id P;
  poolCfgs : gmap (Z * Z) WorkerPoolCfg;
  maxShards : Z;
  pidworkermap : gmap Z worker_id;
  children : gset Z;
  dead : list Z;
  sigch : option os_signal;
  stopped : bool
}.
Arguments WorkerBroker : clear implicits.

Section broker.
Context {P E Op : Type} `{!PoolOps P E Op}.
Abbreviation B := (WorkerBroker P).

Definition set_pools x (b : B) : B := mkBroker P x (poolCfgs b) (maxShards b) (pidworkermap b) (children b) (dead b) (sigch b) (stopped b).
Definition set_cfgs x (b : B) : B := mkBroker P (workerpools b) x (maxShards b) (pidworkermap b) (children b) (dead b) (sigch b) (stopped b).
Definition set_procs m c d (b : B) : B := mkBroker P (workerpools b) (poolCfgs b) (maxShards b) m c d (sigch b) (stopped b).
Definition set_sigch x (b : B) : B := mkBroker P (workerpools b) (poolCfgs b) (maxShards b) (pidworkermap b) (children b) (dead b) x (stopped b).
Definition set_stopped (b : B) : B := mkBroker P (workerpools b) (poolCfgs b) (maxShards b) (pidworkermap b) (children b) (dead b) (sigch b) true.

(** [WorkerBroker.init] *)
Definition init (app : Config) (ops : OpsConfig) : B :=
  let n := shard_count app in
  mkBroker P ∅
    (list_to_map (concat (map (λ s, map (λ t, ((s, wnum t), pool_cfg app ops s t)) wtypes) (map Z.of_nat (seq 0 (Z.to_nat n))))))
    n ∅ ∅ [] None false.

(** [GetWorkerPool]: indices out of range panic, and a type without instances is an error. *)
Definition GetWorkerPool (k : pool_id) (b : B) : result P :=
  let '(s, t, i) := k in
  if (s <? 0) || (maxShards b <=? s) then Panic
  else
    let cnt := match poolCfgs b !! (s, t) with Some cfg => instCnt cfg | None => 0 end in
    if cnt <=? 0 then Error (errors_New (str "uninitialized worker pool"))
    else if (i <? 0) || (cnt <=? i) then Panic
    else match workerpools b !! k with Some p => Ret p | None => Error (errors_New (str "uninitialized worker pool")) end.

Definition AddPidToWorkermap (w : worker_id) (pid : Z) (b : B) : B :=
  set_procs (<[pid := w]> (pidworkermap b)) ({[pid]} ∪ children b) (dead b) b.

(** The new workers of a pool and their processes. *)
Fixpoint adopt (k : pool_id) (w : wref) (n : nat) (pids : list Z) (b : B) : B :=
  match n, pids with
  | S n, pid :: pids => adopt k (S w) n pids (AddPidToWorkermap (k, w) pid b)
  | _, _ => b
  end.

Definition set_pool (k : pool_id) (p p' : P) (forks : list (option Z)) (b : B) : B :=
  adopt k (p_next p) (p_next p' - p_next p) (omap id forks) (set_pools (<[k := p']> (workerpools b)) b).

Definition oks (forks : list (option Z)) : list bool := map (λ f, bool_decide (is_Some f)) forks.

(** A worker process exits; it waits to be reaped. *)
Definition child_exit (pid : Z) (b : B) : B :=
  set_procs (pidworkermap b) (children b ∖ {[pid]}) (dead b ++ [pid]) b.

(** Something happens in a pool. *)
Definition pool_event (k : pool_id) (o : Op) (b : B) : result B :=
  match workerpools b !! k with
  | Some p => p' ← p_step o p; Ret (set_pools (<[k := p']> (workerpools b)) b)
  | None => Ret b
  end.

(** What happens while the pools are being started. The signals are registered only after
    that, so the exit of a process leaves none. *)
Inductive early : Type :=
  | EarlyExit (pid : Z)
  | EarlyPool (k : pool_id) (o : Op).

Definition early_step (x : early) (b : B) : result B :=
  match x with
  | EarlyExit pid => Ret (if bool_decide (pid ∈ children b) then child_exit pid b else b)
  | EarlyPool k o => pool_event k o b
  end.

Fixpoint early_run (xs : list early) (b : B) : result B :=
  match xs with
  | [] => Ret b
  | x :: xs => b ← early_step x b; early_run xs b
  end.

(** The loops of [RestartWorkerPool], for the pools in their order, each with the processes
    started for it and with what happens before the next one is started. *)
Fixpoint start_pools (e : E) (ks : list (pool_id * (list (option Z) * list early))) (b : B) : result B :=
  match ks with
  | [] => Ret b
  | ((s, t, i), (forks, xs)) :: ks =>
    let size := match poolCfgs b !! (s, t) with Some cfg => maxWorkerCnt cfg | None => 0 end in
    '(p, good) ← p_init e size (oks forks);
    let b := adopt (s, t, i) 0 (p_next p) (omap id forks) (set_pools (<[(s, t, i) := p]> (workerpools b)) b) in
    if (good : bool) then b ← early_run xs b; start_pools e ks b else Error (errors_New (str "failed to start workerpool"))
  end.

Definition inst_count (b : B) (s t : Z) : nat := Z.to_nat (match poolCfgs b !! (s, t) with Some cfg => instCnt cfg | None => 0 end).

Definition pool_ids (b : B) : list pool_id :=
  s ← seq 0 (Z.to_nat (maxShards b));
  t ← wtypes;
  i ← seq 0 (inst_count b (Z.of_nat s) (wnum t));
  [(Z.of_nat s, wnum t, Z.of_nat i)].

(** [RestartWorkerPool]: the monitor, and with it the signals, comes after all the pools. *)
Definition RestartWorkerPool (e : E) (forks : list (list (option Z) * list early)) (b : B) : result B :=
  start_pools e (zip (pool_ids b) (forks ++ replicate (length (pool_ids b)) ([], []))) b.

(** ** The monitor *)

(** The dead children in the array, up to the first zero; the workers restarted. [starts]
    are the environment and the outcome of each start. *)
Fixpoint restart_loop (pids : list Z) (starts : list (E * option Z)) (b : B) (done : list worker_id) : result (B * list worker_id) :=
  match pids with
  | [] => Ret (b, done)
  | pid :: pids =>
    if pid =? 0 then Ret (b, done)
    else
      match pidworkermap b !! pid with
      | None => restart_loop pids starts b done
      | Some (k, w) =>
        let b := set_procs (delete pid (pidworkermap b)) (children b) (dead b) b in
        match GetWorkerPool k b, starts with
        | Ret p, (e, f) :: starts =>
          p' ← p_restart e w (bool_decide (is_Some f)) p;
          restart_loop pids starts (set_pool k p p' [f] b) (done ++ [(k, w)])
        | Ret p, [] => Hang
        | Error _, _ => restart_loop pids starts b done
        | Panic, _ => Panic
        | Fatal, _ => Fatal
        | Hang, _ => Hang
        end
      end
  end.

(** [order] are the dead children in the order in which the system reports them. *)
Definition on_SIGCHLD (order : list Z) (starts : list (E * option Z)) (b : B) : result (B * list worker_id) :=
  let arraySize := (2 * size (pidworkermap b) + 1)%nat in
  let '(defunctPids, rest) := WorkerProcess.ReapDefunctPids arraySize order in
  restart_loop defunctPids starts (set_procs (pidworkermap b) (children b) rest b) [].

(** Every worker of the map is terminated, and waited for. *)
Definition on_SIGTERM (b : B) : B :=
  let known := dom (pidworkermap b) in
  let pools := map_fold (λ _ '(k, w) m, alter (p_terminate w) k m) (workerpools b) (pidworkermap b) in
  set_stopped (set_procs (pidworkermap b) (children b ∖ known) (filter (.∉ known) (dead b)) (set_pools pools b)).

(** [resizePool]: the configuration that is changed is that of shard 0. *)
Definition resizePool (e : E) (forks : list (option Z)) (t maxWorkers shard : Z) (b : B) : result B :=
  let b := set_cfgs (alter (λ c, mkPoolCfg maxWorkers (instCnt c)) (0, t) (poolCfgs b)) b in
  match GetWorkerPool (shard, t, 0) b with
  | Ret p => p' ← p_resize e maxWorkers (oks forks) p; Ret (set_pool (shard, t, 0) p p' forks b)
  | Error _ => Ret b
  | Panic => Panic
  | Fatal => Fatal
  | Hang => Hang
  end.

(** One shard of [changeMaxWorkers]; the processes of the three pools. *)
Definition change_shard (app : Config) (e : E) (wW rW shard : Z) (forks : list (list (option Z))) (b : B) : result B :=
  b ← resizePool e (nth 0 forks []) (wnum wtypeRW) wW shard b;
  b ← (if negb (rW =? 0) then resizePool e (nth 1 forks []) (wnum wtypeRO) rW shard b else Ret b);
  if EnableTAF app then resizePool e (nth 2 forks []) (wnum wtypeStdBy) wW shard b else Ret b.

Fixpoint change_loop (app : Config) (e : E) (wW rW : Z) (n : nat) (shard : Z) (forks : list (list (list (option Z)))) (b : B) : result B :=
  match n with
  | O => Ret b
  | S n =>
    b ← change_shard app e wW rW shard (hd [] forks) b;
    if EnableWhitelistTest (Sharding app) then Ret b
    else change_loop app e wW rW n (shard + 1) (tail forks) b
  end.

Definition changeMaxWorkers (app : Config) (ops : OpsConfig) (e : E) (forks : list (list (list (option Z)))) (b : B) : result B :=
  change_loop app e (GetNumWWorkers app ops 0) (GetNumRWorkers app ops 0) (Z.to_nat (NumOfShards (Sharding app))) 0 forks b.

(** ** Runs *)

(** What happens: a worker process exits, the proxy is asked to stop, something happens in a
    pool, the monitor takes a signal from its channel or is told of a new number of
    workers. *)
Inductive event : Type :=
  | EvExit (pid : Z)
  | EvTerm
  | EvPool (k : pool_id) (o : Op)
  | EvSignal (order : list Z) (starts : list (E * option Z))
  | EvChange (ops : OpsConfig) (e : E) (forks : list (list (list (option Z)))).

(** [signal.Notify]: a signal that finds the channel full is dropped. *)
Definition notify (s : os_signal) (b : B) : B :=
  match sigch b with None => set_sigch (Some s) b | Some _ => b end.

Definition bstep (app : Config) (ev : event) (b : B) : result B :=
  match ev with
  | EvExit pid => Ret (if bool_decide (pid ∈ children b) then notify SIGCHLD (child_exit pid b) else b)
  | EvTerm => Ret (notify SIGTERM b)
  | EvPool k o => pool_event k o b
  | EvSignal order starts =>
    if stopped b then Ret b
    else
      match sigch b with
      | None => Ret b
      | Some SIGCHLD => '(b, _) ← on_SIGCHLD order starts (set_sigch None b); Ret b
      | Some SIGTERM => Ret (on_SIGTERM (set_sigch None b))
      end
  | EvChange ops e forks => if stopped b then Ret b else changeMaxWorkers app ops e forks b
  end.

Fixpoint brun (app : Config) (evs : list event) (b : B) : result B :=
  match evs with
  | [] => Ret b
  | ev :: evs => b ← bstep app ev b; brun app evs b
  end.

(** The system gives a new process an id that the map does not have. *)
Definition fresh_pids (pids : list Z) (b : B) : Prop := NoDup pids ∧ Forall (λ pid, (pid ∉ dom (pidworkermap b)) ∧ pid ≠ 0) pids.

(** The system's part in an event: it reports every dead child once, in any order, each start
    of a process has an outcome, and the ids of the new processes are fresh. *)
Definition fresh_event (ev : event) (b : B) : Prop :=
  match ev with
  | EvSignal order starts => order ≡ₚ dead b ∧ (length (dead b) <= length starts)%nat ∧ fresh_pids (omap snd starts) b
  | EvChange _ _ forks => fresh_pids (omap id (concat (concat forks))) b
  | _ => True
  end.

(** ** The invariant *)

Context {ok : nat → P → Prop} {limit : nat} `{!PoolLaws P E Op ok limit}.

(** [X] are the processes that have been reaped and not yet been looked at. *)
Record core (n : nat) (X : list Z) (b : B) : Prop := {
  c_procs pid : pid ∈ dom (pidworkermap b) ↔ pid ∈ children b ∨ pid ∈ dead b ∨ pid ∈ X;
  c_running pid : pid ∈ dead b ∨ pid ∈ X → pid ∉ children b;
  c_distinct : NoDup (dead b ++ X);
  c_positive pid : pid ∈ dom (pidworkermap b) → pid ≠ 0;
  c_worker pid k w : pidworkermap b !! pid = Some (k, w) → ∃ p, GetWorkerPool k b = Ret p ∧ (w < p_next p)%nat;
  c_one pid1 pid2 x : pidworkermap b !! pid1 = Some x → pidworkermap b !! pid2 = Some x → pid1 = pid2;
  c_pools k p : workerpools b !! k = Some p → ok n p
}.

Lemma GetWorkerPool_lookup k b p : GetWorkerPool k b = Ret p → workerpools b !! k = Some p.
Proof.
  unfold GetWorkerPool. destruct k as [[s t] i]. destruct (_ || _); [done|]. destruct (_ <=? 0); [done|]. destruct (_ || _); [done|].
  by destruct (workerpools b !! _); intros [= ->].
Qed.

Lemma GetWorkerPool_ne k k' b p : k ≠ k' → GetWorkerPool k' (set_pools (<[k := p]> (workerpools b)) b) = GetWorkerPool k' b.
Proof. intros Hne. unfold GetWorkerPool. destruct k' as [[s' t'] i']. cbn [poolCfgs maxShards workerpools set_pools]. by rewrite lookup_insert_ne. Qed.

(** The first instance of a pool of an existing shard. *)
Lemma GetWorkerPool_first s t b : 0 <= s < maxShards b →
  (∃ p, GetWorkerPool (s, t, 0) b = Ret p) ∨ ∃ err, GetWorkerPool (s, t, 0) b = Error err.
Proof.
  intros Hs. unfold GetWorkerPool. rewrite (proj2 (Z.ltb_ge _ _)), (proj2 (Z.leb_gt _ _)) by lia. cbn [orb].
  destruct (Z.leb_spec (match poolCfgs b !! (s, t) with Some cfg => instCnt cfg | None => 0 end) 0); [right; by eexists|].
  cbn [Z.ltb Z.compare orb]. destruct (workerpools b !! _); [left|right]; by eexists.
Qed.

(** Replacing a pool. *)
Lemma GetWorkerPool_insert k k' b p p' : GetWorkerPool k b = Ret p →
  GetWorkerPool k' (set_pools (<[k := p']> (workerpools b)) b) = if decide (k = k') then Ret p' else GetWorkerPool k' b.
Proof.
  case_decide as Ek; [subst k'|intros _; by apply GetWorkerPool_ne].
  unfold GetWorkerPool. destruct k as [[s t] i]. cbn [poolCfgs maxShards workerpools set_pools].
  destruct (_ || _); [done|]. destruct (_ <=? 0); [done|]. destruct (_ || _); [done|]. by rewrite lookup_insert_eq.
Qed.

Lemma core_set_pool n X k b p p' : core n X b → GetWorkerPool k b = Ret p → ok n p' → (p_next p <= p_next p')%nat →
  core n X (set_pools (<[k := p']> (workerpools b)) b).
Proof.
  intros [] Hk Hp' Hn. constructor; try done.
  - intros pid k' w Hw. destruct (c_worker0 pid k' w Hw) as (p0 & E0 & Hlt). rewrite (GetWorkerPool_insert k k' b p p' Hk).
    case_decide as Ek; [subst k'; rewrite Hk in E0; injection E0 as <-; exists p'; split; [done|lia]|by exists p0].
  - intros k' q. cbn [workerpools set_pools]. destruct (decide (k = k')) as [<-|]; [rewrite lookup_insert_eq; by intros [= <-]|].
    rewrite lookup_insert_ne by done. apply c_pools0.
Qed.

Lemma core_add n X k w pid b p : core n X b → pid ∉ dom (pidworkermap b) → pid ≠ 0 → GetWorkerPool k b = Ret p →
  (w < p_next p)%nat → (∀ pid', pidworkermap b !! pid' ≠ Some (k, w)) → core n X (AddPidToWorkermap (k, w) pid b).
Proof.
  intros [] Hf Hz Hk Hw Hnew.
  assert (Hpid : ¬ (pid ∈ dead b ∨ pid ∈ X)) by (intros H; apply Hf, c_procs0; by right).
  constructor; cbn [pidworkermap children dead workerpools AddPidToWorkermap set_procs]; try done.
  - intros q. rewrite dom_insert, !elem_of_union, elem_of_singleton, c_procs0. tauto.
  - intros q Hq [->%elem_of_singleton|Hc]%elem_of_union; [done|]. by apply (c_running0 q).
  - intros q. rewrite dom_insert, elem_of_union, elem_of_singleton. intros [->|Hq]; auto.
  - intros q k' w'. destruct (decide (q = pid)) as [->|Hne]; [rewrite lookup_insert_eq; intros [= <- <-]; by exists p|].
    rewrite lookup_insert_ne by done. apply c_worker0.
  - intros q1 q2 x. destruct (decide (q1 = pid)) as [->|H1], (decide (q2 = pid)) as [->|H2];
      rewrite ?lookup_insert_eq, ?lookup_insert_ne by done; try done; [intros [= <-] H; by destruct (Hnew q2)|intros H [= <-]; by destruct (Hnew q1)|].
    apply c_one0.
Qed.

Lemma core_adopt n X k m w pids b p : core n X b → fresh_pids pids b → GetWorkerPool k b = Ret p →
  (w + m <= p_next p)%nat → (∀ w' pid', (w <= w')%nat → pidworkermap b !! pid' ≠ Some (k, w')) →
  core n X (adopt k w m pids b).
Proof.
  revert w pids b. induction m as [|m IH]; intros w pids b Hc Hf Hk Hw Hnew; [done|]. destruct pids as [|pid pids]; [done|].
  destruct Hf as [[Hni Hnd]%NoDup_cons [[Hp1 Hp2] Hf]%Forall_cons]. cbn [adopt]. apply IH.
  - eapply core_add; [done|done|done|done|lia|]. intros pid'. apply Hnew. lia.
  - split; [done|]. apply Forall_forall. intros q Hq. rewrite Forall_forall in Hf. destruct (Hf q Hq) as [H1 H2].
    split; [|done]. cbn. rewrite dom_insert. set_solver.
  - done.
  - lia.
  - intros w' pid' Hle. cbn. destruct (decide (pid' = pid)) as [->|]; [rewrite lookup_insert_eq; intros [= ?]; lia|].
    rewrite lookup_insert_ne by done. apply Hnew. lia.
Qed.
Lemma adopt_keeps k w m pids b : let b' := adopt k w m pids b in
  dead b' = dead b ∧ sigch b' = sigch b ∧ stopped b' = stopped b ∧
  workerpools b' = workerpools b ∧ poolCfgs b' = poolCfgs b ∧ maxShards b' = maxShards b ∧
  (∀ pid, pid ∉ pids → pidworkermap b' !! pid = pidworkermap b !! pid).
Proof.
  revert w pids b. induction m as [|m IH]; intros w pids b; [done|]. destruct pids as [|pid pids]; [done|]. cbn [adopt].
  destruct (IH (S w) pids (AddPidToWorkermap (k, w) pid b)) as (-> & -> & -> & -> & -> & -> & Hm). split_and!; try done.
  intros q [Hq1 Hq2]%not_elem_of_cons. rewrite Hm by done. cbn. by rewrite lookup_insert_ne.
Qed.

Lemma fresh_sub pids pids' b b' : fresh_pids pids b → sublist pids' pids →
  (∀ pid, pid ∈ pids' → pidworkermap b' !! pid = None ∨ pidworkermap b' !! pid = pidworkermap b !! pid) → fresh_pids pids' b'.
Proof.
  intros [Hn Hf] Hs Hm. split; [by eapply sublist_NoDup|]. apply Forall_forall. intros pid Hp. rewrite Forall_forall in Hf.
  destruct (Hf pid) as [H1 H2]; [by eapply elem_of_submseteq; [|apply sublist_submseteq]|]. split; [|done].
  rewrite not_elem_of_dom in *. destruct (Hm pid Hp) as [-> | ->]; done.
Qed.

(** A pool that has been restarted or resized, with its new processes. *)
Lemma set_pool_ok n X k b p p' forks : core n X b → GetWorkerPool k b = Ret p → ok n p' →
  (p_next p <= p_next p')%nat → fresh_pids (omap id forks) b → core n X (set_pool k p p' forks b).
Proof.
  intros Hc Hk Hp' Hn Hf. pose proof (core_set_pool _ _ _ _ _ _ Hc Hk Hp' Hn) as Hc1. unfold set_pool.
  eapply core_adopt; [done|done|by rewrite (GetWorkerPool_insert _ _ _ _ _ Hk), decide_True|lia|].
  intros w' pid' Hw' Hm. destruct (c_worker _ _ _ Hc _ _ _ Hm) as (p0 & E0 & Hlt). rewrite Hk in E0. injection E0 as <-. lia.
Qed.

Lemma set_pool_keeps k p p' forks b : let b' := set_pool k p p' forks b in
  dead b' = dead b ∧ sigch b' = sigch b ∧ stopped b' = stopped b ∧ poolCfgs b' = poolCfgs b ∧ maxShards b' = maxShards b ∧
  (∀ pid, pid ∉ omap id forks → pidworkermap b' !! pid = pidworkermap b !! pid).
Proof.
  unfold set_pool. destruct (adopt_keeps k (p_next p) (p_next p' - p_next p) (omap id forks)
    (set_pools (<[k := p']> (workerpools b)) b)) as (H1 & H2 & H3 & H4 & H5 & H6 & H7). done.
Qed.

Lemma core_reaped n pid X b : core n (pid :: X) b → core n X (set_procs (delete pid (pidworkermap b)) (children b) (dead b) b).
Proof.
  intros []. pose proof c_distinct0 as Hd. apply NoDup_app in Hd as (Hd1 & Hd2 & [Hd3 Hd4]%NoDup_cons).
  assert (Hc : pid ∉ children b) by (apply c_running0; right; set_solver).
  assert (Hd : pid ∉ dead b) by (intros H; apply (Hd2 pid H); set_solver).
  constructor; cbn [pidworkermap children dead workerpools set_procs].
  - intros q. rewrite dom_delete, elem_of_difference, elem_of_singleton, c_procs0, elem_of_cons. split; [tauto|].
    intros [H|[H|H]]; (split; [tauto|]); intros ->; done.
  - intros q Hq. apply c_running0. set_solver.
  - apply NoDup_app. split_and!; [done| |done]. intros q Hq Hx. apply (Hd2 q Hq). set_solver.
  - intros q. rewrite dom_delete, elem_of_difference. intros [Hq _]. by apply c_positive0.
  - intros q k w [_ Hq]%lookup_delete_Some. by apply (c_worker0 q).
  - intros q1 q2 x [_ H1]%lookup_delete_Some [_ H2]%lookup_delete_Some. by apply (c_one0 q1 q2 x).
  - done.
Qed.
Lemma restart_loop_ok n pids zeros starts b acc : core n pids b → Forall (λ z, z = 0) zeros →
  (length pids <= length starts)%nat → fresh_pids (omap snd starts) b →
  ∃ b' ws, restart_loop (pids ++ zeros) starts b acc = Ret (b', acc ++ ws) ∧ core n [] b' ∧ dead b' = dead b ∧
    sigch b' = sigch b ∧ stopped b' = stopped b ∧ maxShards b' = maxShards b ∧ Some <$> ws = (λ pid, pidworkermap b !! pid) <$> pids.
Proof.
  intros Hc Hz. revert starts b acc Hc. induction pids as [|pid pids IH]; intros starts b acc Hc Hl Hf.
  { exists b, []. rewrite app_nil_r. split_and!; try done. destruct Hz as [|z zs ->]; done. }
  destruct starts as [|[e f] starts]; [cbn in Hl; lia|]. cbn [length] in Hl.
  assert (Hd : pid ∈ dom (pidworkermap b)) by (apply (c_procs _ _ _ Hc); right; right; set_solver).
  pose proof (c_positive _ _ _ Hc _ Hd) as Hp. apply elem_of_dom in Hd as [[k w] Hkw].
  cbn [app restart_loop]. rewrite (proj2 (Z.eqb_neq _ _)) by done. rewrite Hkw.
  destruct (c_worker _ _ _ Hc _ _ _ Hkw) as (p & Hk & Hw). set (b1 := set_procs _ _ _ b).
  assert (Hk1 : GetWorkerPool k b1 = Ret p) by exact Hk. pose proof (core_reaped _ _ _ _ Hc) as Hc1. fold b1 in Hc1. rewrite Hk1.
  destruct (restart_ok e w (bool_decide (is_Some f)) n p) as (p' & -> & Hp' & Hn);
    [by apply (c_pools _ _ _ Hc k), GetWorkerPool_lookup|done|]. cbn [mbind result_bind].
  assert (Hf1 : fresh_pids (omap id [f]) b1).
  { eapply fresh_sub; [exact Hf| |].
    - destruct f as [q|]; cbn; [apply sublist_skip, sublist_nil_l|apply sublist_nil_l].
    - intros q _. cbn. destruct (decide (q = pid)) as [->|]; [left; by rewrite lookup_delete_eq|right; by rewrite lookup_delete_ne]. }
  assert (Hc2 : core n pids (set_pool k p p' [f] b1)) by (apply set_pool_ok; [done|done|done|lia|done]).
  destruct (set_pool_keeps k p p' [f] b1) as (K1 & K2 & K3 & _ & K5 & K6).
  assert (Hsub : ∀ q, q ∈ omap snd starts → q ∉ omap id [f]).
  { intros q Hq. destruct f as [q0|]; cbn; [|set_solver]. destruct Hf as [[Hni _]%NoDup_cons _]. set_solver. }
  destruct (IH starts (set_pool k p p' [f] b1) (acc ++ [(k, w)])) as (b' & ws & E1 & C & D & S1 & S2 & S3 & F); [done|lia| |].
  { eapply fresh_sub; [exact Hf| |].
    - cbn. destruct f; [by apply sublist_cons|done].
    - intros q Hq. rewrite (K6 q (Hsub q Hq)). cbn. destruct (decide (q = pid)) as [->|]; [left; by rewrite lookup_delete_eq|right; by rewrite lookup_delete_ne]. }
  exists b', ((k, w) :: ws). rewrite E1, <- app_assoc. split_and!; try done; [by rewrite D, K1|by rewrite S1, K2|by rewrite S2, K3|by rewrite S3, K5|].
  cbn [fmap list_fmap]. rewrite Hkw. f_equal. etrans; [exact F|]. apply list_fmap_ext. intros i q Hq.
  apply list_elem_of_lookup_2 in Hq as Hqi.
  assert (q ≠ pid) as Hne by (intros ->; pose proof (c_distinct _ _ _ Hc) as (_ & _ & [Hni _]%NoDup_cons)%NoDup_app; done).
  rewrite K6; [cbn; by rewrite lookup_delete_ne|]. intros Hin. destruct Hf1 as [_ Hf1]. rewrite Forall_forall in Hf1.
  destruct (Hf1 q Hin) as [Hnd _]. apply Hnd. cbn. rewrite dom_delete, elem_of_difference, (c_procs _ _ _ Hc). set_solver.
Qed.

(** The array of the monitor has room for every dead worker. *)
Lemma dead_fits n b : core n [] b → (length (dead b) <= size (pidworkermap b))%nat.
Proof.
  intros Hc. pose proof (c_distinct _ _ _ Hc) as Hn. rewrite app_nil_r in Hn.
  rewrite <- size_dom, <- (size_list_to_set (C:=gset Z) (dead b)) by done. apply subseteq_size.
  intros pid Hp%elem_of_list_to_set. apply (c_procs _ _ _ Hc). auto.
Qed.

Lemma core_reap n order b : core n [] b → order ≡ₚ dead b → core n order (set_procs (pidworkermap b) (children b) [] b).
Proof.
  intros [] Ho. rewrite app_nil_r in *. constructor; cbn; try done.
  - intros pid. rewrite c_procs0, <- Ho. set_solver.
  - intros pid Hp. apply c_running0. left. rewrite <- Ho. set_solver.
  - by rewrite Ho.
Qed.

Lemma on_SIGCHLD_ok n order starts b : core n [] b → order ≡ₚ dead b → (length (dead b) <= length starts)%nat → fresh_pids (omap snd starts) b →
  ∃ b' ws, on_SIGCHLD order starts b = Ret (b', ws) ∧ core n [] b' ∧ dead b' = [] ∧ sigch b' = sigch b ∧ stopped b' = stopped b ∧
    maxShards b' = maxShards b ∧ Some <$> ws = (λ pid, pidworkermap b !! pid) <$> order.
Proof.
  intros Hc Ho Hl Hf. apply Permutation_length in Ho as Hlen. pose proof (dead_fits n b Hc). unfold on_SIGCHLD. rewrite WorkerProcess.ReapDefunctPids_all by lia.
  destruct (restart_loop_ok n order (replicate (2 * size (pidworkermap b) + 1 - length order) 0) starts
    (set_procs (pidworkermap b) (children b) [] b) []) as (b' & ws & E1 & C & D & S1 & S2 & S3 & F); try done.
  - by apply core_reap.
  - by apply Forall_replicate.
  - lia.
  - exists b', ws. done.
Qed.

Lemma on_SIGTERM_ok n b : core n [] b → children (on_SIGTERM b) = ∅ ∧ dead (on_SIGTERM b) = [] ∧ stopped (on_SIGTERM b) = true.
Proof.
  intros Hc. cbn. split_and!; [|apply elem_of_nil_inv|done].
  - apply set_eq. intros pid. rewrite elem_of_difference, (c_procs _ _ _ Hc). set_solver.
  - intros pid [Hn Hp]%list_elem_of_filter. apply Hn, (c_procs _ _ _ Hc). auto.
Qed.

(** Changing the size of a pool in the configuration. *)
Lemma GetWorkerPool_cfgs k t m b :
  GetWorkerPool k (set_cfgs (alter (λ c, mkPoolCfg m (instCnt c)) (0, t) (poolCfgs b)) b) = GetWorkerPool k b.
Proof.
  unfold GetWorkerPool. destruct k as [[s' t'] i]. cbn [maxShards poolCfgs workerpools set_cfgs].
  destruct (decide ((0, t) = (s', t'))) as [Ek|Ek]; [rewrite Ek, lookup_alter_eq|by rewrite lookup_alter_ne].
  by destruct (poolCfgs b !! (s', t')).
Qed.

Lemma core_cfgs n X t m b : core n X b → core n X (set_cfgs (alter (λ c, mkPoolCfg m (instCnt c)) (0, t) (poolCfgs b)) b).
Proof. intros []. constructor; try done. intros pid k w Hw. rewrite GetWorkerPool_cfgs. by apply (c_worker0 pid). Qed.

(** The parts a resize leaves alone. *)
Definition quiet (b b' : B) : Prop := dead b' = dead b ∧ sigch b' = sigch b ∧ stopped b' = stopped b ∧ maxShards b' = maxShards b.

Lemma resizePool_ok n X e forks rest t m shard b : core n X b → fresh_pids (omap id forks ++ rest) b → 0 <= shard < maxShards b →
  ∃ b', resizePool e forks t m shard b = Ret b' ∧ core n X b' ∧ fresh_pids rest b' ∧ quiet b b'.
Proof.
  intros Hc Hf Hs. unfold resizePool. set (b1 := set_cfgs _ b). assert (Hc1 : core n X b1) by (by apply core_cfgs).
  destruct (GetWorkerPool_first shard t b1 Hs) as [[p Hp]|[err ->]].
  2: { exists b1. split_and!; try done. eapply fresh_sub; [exact Hf|by apply sublist_inserts_l|by right]. }
  rewrite Hp. destruct (resize_ok e m (oks forks) n p) as (p' & -> & Hp' & Hn1 & _);
    [by apply (c_pools _ _ _ Hc1 (shard, t, 0)), GetWorkerPool_lookup|]. cbn [mbind result_bind].
  destruct (set_pool_keeps (shard, t, 0) p p' forks b1) as (K1 & K2 & K3 & K4 & K5 & K6).
  eexists. split; [done|]. split_and!.
  - apply set_pool_ok; try done. eapply fresh_sub; [exact Hf|by apply sublist_inserts_r|by right].
  - eapply fresh_sub; [exact Hf|by apply sublist_inserts_l|]. intros q Hq. right. rewrite K6; [done|].
    destruct Hf as [(_ & Hd & _)%NoDup_app _]. intros Hin. by apply (Hd q).
  - split_and!; by rewrite ?K1, ?K2, ?K3, ?K5.
Qed.

Lemma quiet_trans b1 b2 b3 : quiet b1 b2 → quiet b2 b3 → quiet b1 b3.
Proof. unfold quiet. intros (? & ? & ? & ?) (? & ? & ? & ?). split_and!; congruence. Qed.

Lemma omap_sublist {A C} (f : A → option C) l1 l2 : sublist l1 l2 → sublist (omap f l1) (omap f l2).
Proof.
  induction 1 as [|x l1 l2 _ IH|x l1 l2 _ IH]; cbn; [done|destruct (f x); [by apply sublist_skip|done]|destruct (f x); [by apply sublist_cons|done]].
Qed.

(** The processes of the pools of one shard. *)
Lemma nth_sublist (l : list (list (option Z))) : sublist (nth 0 l [] ++ nth 1 l [] ++ nth 2 l []) (concat l).
Proof.
  destruct l as [|a [|c [|d l]]]; cbn; rewrite ?app_nil_r; try done.
  apply sublist_app; [done|]. apply sublist_app; [done|]. by apply sublist_inserts_r.
Qed.

Lemma change_shard_ok n X app e wW rW shard forks rest b : core n X b → fresh_pids (omap id (concat forks) ++ rest) b →
  0 <= shard < maxShards b →
  ∃ b', change_shard app e wW rW shard forks b = Ret b' ∧ core n X b' ∧ fresh_pids rest b' ∧ quiet b b'.
Proof.
  intros Hc Hf Hs.
  assert (Hf0 : fresh_pids (omap id (nth 0 forks []) ++ omap id (nth 1 forks []) ++ omap id (nth 2 forks []) ++ rest) b).
  { eapply fresh_sub; [exact Hf| |by right]. rewrite !app_assoc, <- !omap_app. apply sublist_app; [|done].
    apply omap_sublist. rewrite <- app_assoc. apply nth_sublist. }
  unfold change_shard. destruct (resizePool_ok n X e (nth 0 forks []) _ (wnum wtypeRW) wW shard b Hc Hf0 Hs)
    as (b1 & -> & C1 & F1 & Q1). cbn [mbind result_bind].
  assert (H2 : ∃ b2, (if negb (rW =? 0) then resizePool e (nth 1 forks []) (wnum wtypeRO) rW shard b1 else Ret b1) = Ret b2 ∧
    core n X b2 ∧ fresh_pids (omap id (nth 2 forks []) ++ rest) b2 ∧ quiet b1 b2).
  { destruct (negb (rW =? 0)).
    - apply resizePool_ok; [done|done|]. destruct Q1 as (_ & _ & _ & ->). done.
    - exists b1. split_and!; try done. eapply fresh_sub; [exact F1|by apply sublist_inserts_l|by right]. }
  destruct H2 as (b2 & -> & C2 & F2 & Q2). cbn [mbind result_bind]. pose proof (quiet_trans _ _ _ Q1 Q2) as Q12.
  destruct (EnableTAF app).
  - destruct (resizePool_ok n X e (nth 2 forks []) rest (wnum wtypeStdBy) wW shard b2) as (b3 & -> & C3 & F3 & Q3); [done|done| |].
    { destruct Q12 as (_ & _ & _ & ->). done. }
    exists b3. split_and!; try done. by eapply quiet_trans.
  - exists b2. split_and!; try done; [|apply Q12..]. eapply fresh_sub; [exact F2|by apply sublist_inserts_l|by right].
Qed.

Lemma change_loop_ok k n X app e wW rW shard forks b : core n X b → fresh_pids (omap id (concat (concat forks))) b →
  0 <= shard → shard + Z.of_nat k <= maxShards b →
  ∃ b', change_loop app e wW rW k shard forks b = Ret b' ∧ core n X b' ∧ quiet b b'.
Proof.
  revert shard forks b. induction k as [|k IH]; intros shard forks b Hc Hf Hs Hk; [by exists b|]. cbn [change_loop].
  destruct (change_shard_ok n X app e wW rW shard (hd [] forks) (omap id (concat (concat (tail forks)))) b) as (b1 & -> & C1 & F1 & Q1);
    [done| |lia|].
  { eapply fresh_sub; [exact Hf| |by right]. destruct forks as [|f forks]; cbn [hd tail concat]; [done|]. by rewrite concat_app, omap_app. }
  cbn [mbind result_bind]. destruct (EnableWhitelistTest (Sharding app)); [by exists b1|].
  destruct (IH (shard + 1) (tail forks) b1) as (b2 & -> & C2 & Q2); [done|done|lia|destruct Q1 as (_ & _ & _ & ->); lia|].
  exists b2. split_and!; try done. by eapply quiet_trans.
Qed.

(** ** Reachable states *)

(** While the monitor runs, the map has exactly the child processes, and an exit that has
    not been dealt with has its signal in the channel or is one of [lost], the processes
    that exited before the signals were registered. *)
Definition good (lost : list Z) (n : nat) (b : B) : Prop := core n [] b ∧ stopped b = false ∧ (dead b ⊆ lost ∨ is_Some (sigch b)).

(** After the monitor, nothing is left. *)
Definition halted (b : B) : Prop := stopped b = true ∧ children b = ∅ ∧ dead b = [].

Lemma core_mono n X b : core n X b → core (S n) X b.
Proof. intros []. constructor; try done. intros k p Hp. by eapply ok_mono, c_pools0. Qed.

Lemma core_sigch n X s b : core n X b → core n X (set_sigch s b).
Proof. intros []. by constructor. Qed.

Lemma core_exit n pid b : core n [] b → pid ∈ children b → core n [] (child_exit pid b).
Proof.
  intros [] Hp. rewrite app_nil_r in *. assert (Hd : pid ∉ dead b) by (intros H; by apply (c_running0 pid); [left|]).
  constructor; cbn; try done.
  - intros q. rewrite c_procs0, elem_of_difference, elem_of_app, elem_of_singleton, list_elem_of_singleton.
    destruct (decide (q = pid)) as [->|]; [tauto|]. set_solver.
  - intros q [[Hq|Hq%list_elem_of_singleton]%elem_of_app|Hq]; [|set_solver|set_solver].
    intros [H _]%elem_of_difference. by apply (c_running0 q); [left|].
  - rewrite app_nil_r. apply NoDup_app. split_and!; [done| |apply NoDup_singleton]. intros q Hq ->%list_elem_of_singleton. done.
Qed.

Lemma notify_some s b : is_Some (sigch (notify s b)).
Proof. unfold notify. destruct (sigch b) eqn:Es; cbn; rewrite ?Es; by eexists. Qed.

Lemma notify_core n X s b : core n X b → core n X (notify s b) ∧ dead (notify s b) = dead b ∧ stopped (notify s b) = stopped b.
Proof. unfold notify. destruct (sigch b); intros Hc; [done|]. split; [by apply core_sigch|done]. Qed.

Lemma core_step n k p p' b : core n [] b → workerpools b !! k = Some p → ok (S n) p' → p_next p' = p_next p →
  core (S n) [] (set_pools (<[k := p']> (workerpools b)) b).
Proof.
  intros Hc Hk Hp' Hn. pose proof (core_mono _ _ _ Hc) as []. constructor; try done.
  - intros pid k' w Hw. destruct (c_worker0 pid k' w Hw) as (p0 & E0 & Hlt).
    destruct (decide (k = k')) as [<-|Hne].
    + apply GetWorkerPool_lookup in E0 as E1. rewrite Hk in E1. injection E1 as <-. exists p'.
      rewrite (GetWorkerPool_insert _ _ _ _ _ E0), decide_True by done. split; [done|lia].
    + exists p0. by rewrite GetWorkerPool_ne.
  - intros k' q. cbn [workerpools set_pools]. destruct (decide (k = k')) as [<-|]; [rewrite lookup_insert_eq; by intros [= <-]|].
    rewrite lookup_insert_ne by done. apply c_pools0.
Qed.

(** An event of a pool. *)
Lemma pool_event_ok n k o b b' : core n [] b → (n < limit)%nat → pool_event k o b = Ret b' →
  core (S n) [] b' ∧ quiet b b' ∧ poolCfgs b' = poolCfgs b ∧ pidworkermap b' = pidworkermap b ∧
  (∀ k', workerpools b !! k' = None → workerpools b' !! k' = None).
Proof.
  intros Hc Hn. unfold pool_event. destruct (workerpools b !! k) as [p|] eqn:Hk.
  - intros (p' & E1 & [= <-])%bind_Ret. destruct (step_ok o n p p') as [O1 O2]; [by apply (c_pools _ _ _ Hc k)|done|done|].
    split_and!; try done; [by eapply core_step|]. intros k' Hk'. cbn. rewrite lookup_insert_ne; [done|]. intros <-. congruence.
  - intros [= <-]. split_and!; try done. by apply core_mono.
Qed.

Lemma good_mono lost n b : good lost n b → good lost (S n) b.
Proof. intros (Hc & Hs & Hd). split_and!; [by apply core_mono|done|done]. Qed.

Lemma notify_good lost n s b : core n [] b → stopped b = false → good lost n (notify s b) ∧ maxShards (notify s b) = maxShards b.
Proof.
  intros Hc Hs. destruct (notify_core n [] s b Hc) as (C2 & D2 & S2). split; [split_and!; [done|by rewrite S2|right; apply notify_some]|].
  unfold notify. by destruct (sigch b).
Qed.

(** The monitor takes a signal. *)
Lemma signal_good app order starts lost n b : good lost n b → fresh_event (EvSignal order starts) b →
  ∃ b', bstep app (EvSignal order starts) b = Ret b' ∧ (good lost n b' ∨ halted b') ∧ maxShards b' = maxShards b.
Proof.
  intros (Hc & Hs & Hd) (Ho & Hl & Hf). cbn [bstep]. rewrite Hs. destruct (sigch b) as [[]|] eqn:Esig.
  - destruct (on_SIGCHLD_ok n order starts (set_sigch None b)) as (b' & ws & -> & C & D & S1 & S2 & S3 & _); [by apply core_sigch|done..|].
    cbn [mbind result_bind]. exists b'. split_and!; [done| |done]. left. split_and!; [done|by rewrite S2|left; rewrite D; set_solver].
  - eexists. split_and!; [done| |done]. right. apply (core_sigch n [] None) in Hc.
    destruct (on_SIGTERM_ok n (set_sigch None b) Hc) as (H1 & H2 & H3). done.
  - exists b. split_and!; [done| |done]. left. split_and!; [done|done|]. rewrite Esig. by destruct Hd as [|[? ?]]; [left|].
Qed.

Lemma bstep_good app ev lost n b : good lost n b → (n < limit)%nat → 0 <= NumOfShards (Sharding app) <= maxShards b → fresh_event ev b →
  (∀ k o, ev = EvPool k o → ∃ b', bstep app ev b = Ret b') →
  ∃ b', bstep app ev b = Ret b' ∧ (good lost (S n) b' ∨ halted b') ∧ maxShards b' = maxShards b.
Proof.
  intros Hg Hn Hm Hf Hp. pose proof Hg as (Hc & Hs & Hd). destruct ev as [pid| |k o|order starts|ops e forks].
  - cbn [bstep]. case_bool_decide as Hin; [|exists b; split_and!; [done| |done]; left; by apply good_mono].
    destruct (notify_good lost n SIGCHLD _ (core_exit n pid b Hc Hin) Hs) as [G1 G2]. eexists. split_and!; [done|left; by apply good_mono|by rewrite G2].
  - destruct (notify_good lost n SIGTERM b Hc Hs) as [G1 G2]. eexists. split_and!; [done|left; by apply good_mono|done].
  - destruct (Hp k o eq_refl) as [b' Hb']. exists b'. split; [done|].
    destruct (pool_event_ok n k o b b' Hc Hn Hb') as (C & (Q1 & Q2 & Q3 & Q4) & _).
    split; [left; split_and!; [done|congruence|by rewrite Q1, Q2]|done].
  - destruct (signal_good app order starts lost n b Hg Hf) as (b' & E1 & [G|G] & M); exists b'; split_and!; try done; [left; by apply good_mono|by right].
  - cbn [bstep]. rewrite Hs. destruct (change_loop_ok (Z.to_nat (NumOfShards (Sharding app))) n [] app e
      (GetNumWWorkers app ops 0) (GetNumRWorkers app ops 0) 0 forks b) as (b' & E1 & C & Q1 & Q2 & Q3 & Q4); [done|done|lia|lia|].
    exists b'. split_and!; [done| |done]. left. apply good_mono. split_and!; [done|congruence|by rewrite Q1, Q2].
Qed.

Lemma bstep_halted app ev b b' : halted b → bstep app ev b = Ret b' → halted b'.
Proof.
  intros (Hs & Hc & Hd). destruct ev as [pid| |k o|order starts|ops e forks]; cbn [bstep]; rewrite ?Hs.
  - rewrite bool_decide_false by set_solver. by intros [= <-].
  - intros [= <-]. unfold notify. by destruct (sigch b).
  - unfold pool_event. destruct (workerpools b !! k); [intros (p' & _ & [= <-])%bind_Ret|intros [= <-]]; done.
  - by intros [= <-].
  - by intros [= <-].
Qed.

(** ** The start *)

Definition in_range (k : pool_id) (b : B) : Prop :=
  let '(s, t, i) := k in 0 <= s < maxShards b ∧ 0 <= i < Z.of_nat (inst_count b s t).

Lemma GetWorkerPool_new k p b : in_range k b → GetWorkerPool k (set_pools (<[k := p]> (workerpools b)) b) = Ret p.
Proof.
  destruct k as [[s t] i]. unfold in_range, GetWorkerPool, inst_count. cbn [poolCfgs maxShards workerpools set_pools].
  set (cnt := match poolCfgs b !! _ with Some _ => _ | None => _ end). intros [Hs Hi].
  rewrite (proj2 (Z.ltb_ge s 0)), (proj2 (Z.leb_gt (maxShards b) s)) by lia. cbn [orb].
  rewrite (proj2 (Z.leb_gt cnt 0)), (proj2 (Z.ltb_ge i 0)), (proj2 (Z.leb_gt cnt i)) by lia. cbn [orb]. by rewrite lookup_insert_eq.
Qed.

Lemma core_new n X k p b : core n X b → workerpools b !! k = None → ok n p →
  core n X (set_pools (<[k := p]> (workerpools b)) b).
Proof.
  intros [] Hk Hp. constructor; try done.
  - intros pid k' w Hw. destruct (c_worker0 pid k' w Hw) as (p0 & E0 & Hlt). exists p0.
    rewrite GetWorkerPool_ne; [done|]. intros <-. apply GetWorkerPool_lookup in E0. congruence.
  - intros k' q. cbn [workerpools set_pools]. destruct (decide (k = k')) as [<-|]; [rewrite lookup_insert_eq; by intros [= <-]|].
    rewrite lookup_insert_ne by done. apply c_pools0.
Qed.

(** Before the signals are registered, nothing is put into the channel. *)
Definition silent (b b' : B) : Prop := sigch b' = sigch b ∧ stopped b' = stopped b ∧ maxShards b' = maxShards b.

Lemma early_run_ok xs n b b' : core n [] b → (n + length xs <= limit)%nat → early_run xs b = Ret b' →
  core (n + length xs) [] b' ∧ silent b b' ∧ poolCfgs b' = poolCfgs b ∧ pidworkermap b' = pidworkermap b ∧
  (∀ k, workerpools b !! k = None → workerpools b' !! k = None).
Proof.
  revert n b. induction xs as [|x xs IH]; intros n b Hc Hn; cbn [early_run length] in *.
  { intros [= <-]. rewrite Nat.add_0_r. done. }
  intros (b1 & E1 & E2)%bind_Ret. assert (H1 : core (S n) [] b1 ∧ silent b b1 ∧ poolCfgs b1 = poolCfgs b ∧ pidworkermap b1 = pidworkermap b ∧
    (∀ k, workerpools b !! k = None → workerpools b1 !! k = None)).
  { destruct x as [pid|k o]; cbn [early_step] in E1.
    - injection E1 as <-. case_bool_decide; (split; [apply core_mono; by try apply core_exit|done]).
    - destruct (pool_event_ok n k o b b1 Hc ltac:(lia) E1) as (C & (Q1 & Q2 & Q3 & Q4) & Q5 & Q6 & Q7). done. }
  destruct H1 as (C1 & (S1 & S2 & S3) & P1 & M1 & W1).
  destruct (IH (S n) b1 C1) as (C2 & (T1 & T2 & T3) & P2 & M2 & W2); [lia|done|]. replace (n + S (length xs))%nat with (S n + length xs)%nat by lia.
  split_and!; try done; [split_and!; congruence|congruence|congruence|auto].
Qed.

Lemma ok_le n m p : ok n p → (n <= m)%nat → ok m p.
Proof. intros Hp Hm. induction Hm; [done|by apply ok_mono]. Qed.

Lemma start_pools_ok e ks n b b' : core n [] b → (n + length (concat ks.*2.*2) <= limit)%nat → NoDup ks.*1 →
  (∀ k, k ∈ ks.*1 → in_range k b ∧ workerpools b !! k = None) →
  fresh_pids (omap id (concat ks.*2.*1)) b → start_pools e ks b = Ret b' → core (n + length (concat ks.*2.*2)) [] b' ∧ silent b b'.
Proof.
  revert n b. induction ks as [|[[[s t] i] [forks xs]] ks IH]; intros n b Hc Hl Hn Hk Hf; [cbn; rewrite Nat.add_0_r; by intros [= <-]|].
  cbn [start_pools]. intros ([p g] & Ei & E1)%bind_Ret. destruct g; [|done]. destruct (init_ok _ _ _ _ _ Ei) as [Hp _].
  apply bind_Ret in E1 as (b2 & E1 & E2). cbn [fmap list_fmap concat fst snd] in Hf, Hl, Hn, Hk |- *. rewrite length_app in Hl |- *.
  apply NoDup_cons in Hn as [Hni Hn]. destruct (Hk (s, t, i)) as [Hr Hnone]; [by left|].
  set (b1 := set_pools _ b) in E1. rewrite omap_app in Hf.
  assert (Hc1 : core n [] b1) by (apply core_new; [done|done|eapply ok_le; [done|lia]]).
  destruct (adopt_keeps (s, t, i) 0 (p_next p) (omap id forks) b1) as (K1 & K2 & K3 & K4 & K5 & K6 & K7).
  eapply (early_run_ok xs n) in E1 as (C2 & (S1 & S2 & S3) & P2 & M2 & W2); [|eapply core_adopt; [done| |by apply GetWorkerPool_new|done|]|lia].
  2: { by eapply fresh_sub; [exact Hf|apply sublist_inserts_r|right]. }
  2: { intros w' pid' _ Hm. destruct (c_worker _ _ _ Hc _ _ _ Hm) as (p0 & E0%GetWorkerPool_lookup & _). congruence. }
  destruct (IH (n + length xs)%nat b2) as [C (Q1 & Q2 & Q3)]; [done|lia|done| | |done|].
  - intros k Hin. destruct (Hk k) as [R1 R2]; [by right|]. split.
    + destruct k as [[s' t'] i']. unfold in_range, inst_count in *. by rewrite P2, S3, K5, K6.
    + apply W2. rewrite K4. cbn. rewrite lookup_insert_ne; [done|]. by intros <-.
  - eapply fresh_sub; [exact Hf|by apply sublist_inserts_l|]. intros q Hq. right. rewrite M2, K7; [done|].
    destruct Hf as [(_ & Hd & _)%NoDup_app _]. intros Hin. by apply (Hd q).
  - rewrite Nat.add_assoc. split; [done|]. split_and!; [by rewrite Q1, S1, K2|by rewrite Q2, S2, K3|by rewrite Q3, S3, K6].
Qed.

Lemma pool_ids_range b k : k ∈ pool_ids b → in_range k b.
Proof.
  unfold pool_ids. intros (s & H1 & Hs%elem_of_seq)%list_elem_of_bind.
  apply list_elem_of_bind in H1 as (t & H2 & Ht). apply list_elem_of_bind in H2 as (i & ->%list_elem_of_singleton & Hi%elem_of_seq).
  unfold in_range. lia.
Qed.

Lemma wnum_inj t1 t2 : wnum t1 = wnum t2 → t1 = t2.
Proof. by destruct t1, t2. Qed.

Lemma pool_ids_NoDup b : NoDup (pool_ids b).
Proof.
  unfold pool_ids. apply NoDup_bind; [| |apply NoDup_ListNoDup, seq_NoDup].
  - intros s1 s2 k _ _ (t1 & (i1 & ->%list_elem_of_singleton & _)%list_elem_of_bind & _)%list_elem_of_bind
      (t2 & (i2 & [= E1 _ _]%list_elem_of_singleton & _)%list_elem_of_bind & _)%list_elem_of_bind. lia.
  - intros s _. apply NoDup_bind; [| |unfold wtypes; rewrite !NoDup_cons; split_and!; [set_solver..|apply NoDup_nil_2]].
    + intros t1 t2 k _ _ (i1 & ->%list_elem_of_singleton & _)%list_elem_of_bind (i2 & [= E1 _]%list_elem_of_singleton & _)%list_elem_of_bind.
      by apply wnum_inj.
    + intros t _. apply NoDup_bind; [| |apply NoDup_ListNoDup, seq_NoDup].
      * intros i1 i2 k _ _ ->%list_elem_of_singleton [= E1]%list_elem_of_singleton. lia.
      * intros i _. apply NoDup_singleton.
Qed.

Lemma zip_sublist {A C D} (f : C * D → list A) (l : list pool_id) (forks : list (C * D)) m x : f x = [] →
  sublist (concat (f <$> (zip l (forks ++ replicate m x)).*2)) (concat (f <$> forks)).
Proof.
  intros Hx. revert l. induction forks as [|y forks IH]; intros l; cbn [app].
  - revert l. induction m as [|m IHm]; intros [|k l]; cbn; rewrite ?Hx; [done..|apply IHm].
  - destruct l as [|k l]; cbn; [apply sublist_nil_l|]. apply sublist_app; [done|apply IH].
Qed.

Lemma start_good app ops e forks b : fresh_pids (omap id (concat forks.*1)) (init app ops) → (length (concat forks.*2) <= limit)%nat →
  RestartWorkerPool e forks (init app ops) = Ret b →
  good (dead b) (length (concat forks.*2)) b ∧ sigch b = None ∧ maxShards b = shard_count app.
Proof.
  intros Hf Hl Hr. unfold RestartWorkerPool in Hr. set (ks := zip _ _) in Hr.
  assert (Hle : (length (concat ks.*2.*2) <= length (concat forks.*2))%nat) by (by apply sublist_length, zip_sublist).
  eapply (start_pools_ok _ _ 0) in Hr as (C & Q1 & Q2 & Q3).
  - split; [|done]. split_and!; [|done|by left]. destruct C. constructor; try done. intros k p Hp. eapply ok_le; [by eapply c_pools0|done].
  - constructor; cbn; first [done|apply NoDup_nil_2|set_solver].
  - lia.
  - subst ks. rewrite fst_zip by (rewrite length_app, length_replicate; lia). apply pool_ids_NoDup.
  - intros k. subst ks. rewrite fst_zip by (rewrite length_app, length_replicate; lia). intros Hk. split; [by apply pool_ids_range|apply lookup_empty].
  - eapply fresh_sub; [exact Hf|by apply omap_sublist, zip_sublist|by right].
Qed.

(** What the system does along a run: the ids of the new processes are fresh, and there is
    an outcome for each start. *)
Fixpoint fresh_run (app : Config) (evs : list event) (b : B) : Prop :=
  match evs with
  | [] => True
  | ev :: evs => fresh_event ev b ∧ match bstep app ev b with Ret b' => fresh_run app evs b' | _ => True end
  end.

Lemma brun_halted app evs b b' : halted b → brun app evs b = Ret b' → halted b'.
Proof.
  revert b. induction evs as [|ev evs IH]; intros b Hb; cbn [brun]; [by intros [= <-]|].
  intros (b1 & E1 & E2)%bind_Ret. eapply IH; [|done]. by eapply bstep_halted.
Qed.

Lemma brun_good app evs lost n b b' : good lost n b ∨ halted b → (n + length evs <= limit)%nat →
  0 <= NumOfShards (Sharding app) <= maxShards b → fresh_run app evs b → brun app evs b = Ret b' →
  good lost (n + length evs) b' ∧ maxShards b' = maxShards b ∨ halted b'.
Proof.
  revert n b. induction evs as [|ev evs IH]; intros n b Hg Hl Hm Hf; cbn [brun].
  { intros [= <-]. cbn. rewrite Nat.add_0_r. destruct Hg; auto. }
  intros (b1 & E1 & E2)%bind_Ret. cbn [length] in Hl. destruct Hf as [Hf1 Hf2]. rewrite E1 in Hf2.
  replace (n + length (ev :: evs))%nat with (S n + length evs)%nat by (cbn; lia).
  destruct Hg as [Hg|Hg]; [|right; eapply brun_halted; [eapply bstep_halted|]; done].
  destruct (bstep_good app ev lost n b) as (b2 & E3 & G & M); [done|lia|done|done|by exists b1|]. rewrite E3 in E1. injection E1 as <-.
  rewrite <- M. apply (IH (S n) b2); [done|lia|by rewrite M|done|done].
Qed.

(** A state of the proxy after the start of all the pools left [b0]. The bound on the number
    of events is that of the machine counters of a pool. *)
Definition reached_from (app : Config) (b0 b : B) : Prop :=
  ∃ ops e forks evs, fresh_pids (omap id (concat forks.*1)) (init app ops) ∧ RestartWorkerPool e forks (init app ops) = Ret b0 ∧
    (length (concat forks.*2) + length evs <= limit)%nat ∧ fresh_run app evs b0 ∧ brun app evs b0 = Ret b.

Definition reached (app : Config) (b : B) : Prop := ∃ b0, reached_from app b0 b.

Lemma reached_from_good app b0 b : 0 <= NumOfShards (Sharding app) <= shard_count app → reached_from app b0 b →
  sigch b0 = None ∧ ((∃ n, good (dead b0) n b ∧ maxShards b = shard_count app) ∨ halted b).
Proof.
  intros Hn (ops & e & forks & evs & Hf & Hr & Hl & Hfr & Hb). destruct (start_good app ops e forks b0 Hf ltac:(lia) Hr) as (G0 & S0 & M0).
  split; [done|]. destruct (brun_good app evs (dead b0) (length (concat forks.*2)) b0 b) as [[G M]|G]; [by left|lia|by rewrite M0|done|done| |by right].
  left. eexists. split; [done|congruence].
Qed.

(** A state of the running monitor. *)
Lemma reached_running app b : 0 <= NumOfShards (Sharding app) <= shard_count app → reached app b → stopped b = false →
  ∃ lost n, good lost n b ∧ maxShards b = shard_count app.
Proof. intros Hn [b0 Hr] Hs. destruct (reached_from_good app b0 b Hn Hr) as [_ [[n H]|(H & _)]]; [by exists (dead b0), n|congruence]. Qed.

(** C13: After the start of all the pools, whatever happens in them, whichever worker
    processes exit and however often the number of workers is changed: while the monitor
    runs, the map of process ids has exactly the processes that run or wait to be reaped,
    each of them a worker of an existing pool and no worker having two, and when no signal
    is in the channel, a process that waits to be reaped is one that exited before the
    start of the pools was over. The exit of such a process is not noticed: the signals are
    registered after the pools have been started, the channel is empty then and the monitor
    does nothing about it. When the monitor has ended, no worker process is left. *)
Theorem no_exit_unnoticed app b0 b : 0 <= NumOfShards (Sharding app) <= shard_count app → reached_from app b0 b →
  (sigch b0 = None ∧ ∀ order starts, bstep app (EvSignal order starts) b0 = Ret b0) ∧
  (stopped b = false →
    (∀ pid, pid ∈ dom (pidworkermap b) ↔ pid ∈ children b ∨ pid ∈ dead b) ∧
    (∀ pid k w, pidworkermap b !! pid = Some (k, w) → ∃ p, GetWorkerPool k b = Ret p ∧ (w < p_next p)%nat) ∧
    (∀ pid1 pid2 x, pidworkermap b !! pid1 = Some x → pidworkermap b !! pid2 = Some x → pid1 = pid2) ∧
    (sigch b = None → ∀ pid, pid ∈ dead b → pid ∈ dead b0)) ∧
  (stopped b = true → children b = ∅ ∧ dead b = []).
Proof.
  intros Hn Hr. destruct (reached_from_good app b0 b Hn Hr) as [S0 Hg]. split_and!; [done| | |].
  - intros order starts. cbn [bstep]. rewrite S0. by destruct (stopped b0).
  - intros Hs. destruct Hg as [(n & (Hc & _ & Hd) & _)|(? & _)]; [|congruence]. split_and!; [|apply Hc|apply Hc|].
    + intros pid. rewrite (c_procs _ _ _ Hc). set_solver.
    + intros Hnone. rewrite Hnone in Hd. by destruct Hd as [Hd|[? ?]]; [apply Hd|].
  - intros Hs. destruct Hg as [(n & (_ & H & _) & _)|(_ & H1 & H2)]; [congruence|done].
Qed.

(** C21: When the monitor takes the signal of an exit, it reaps every dead child, also one
    whose own exit left no signal, and restarts the worker of each exactly once, in the
    order in which the system reports them, whether or not the new processes can be
    started; none is left to be reaped and none of them is left in the map. *)
Theorem dead_workers_restarted app b order starts : 0 <= NumOfShards (Sharding app) <= shard_count app → reached app b →
  stopped b = false → fresh_event (EvSignal order starts) b →
  ∃ b' ws, on_SIGCHLD order starts (set_sigch None b) = Ret (b', ws) ∧
    Some <$> ws = (λ pid, pidworkermap b !! pid) <$> order ∧ NoDup ws ∧ dead b' = [] ∧ stopped b' = false ∧
    (∀ pid, pid ∈ dom (pidworkermap b') ↔ pid ∈ children b').
Proof.
  intros Hn Hr Hs (Ho & Hl & Hf). destruct (reached_running app b Hn Hr Hs) as (lost & n & (Hc & _ & _) & _).
  destruct (on_SIGCHLD_ok n order starts (set_sigch None b)) as (b' & ws & E1 & C & D & _ & S2 & _ & F); [by apply core_sigch|done..|].
  exists b', ws. split_and!; [done|exact F| |done|by rewrite S2|].
  - apply (NoDup_fmap_1 Some). rewrite F. apply NoDup_fmap_2_strong; [|rewrite Ho; pose proof (c_distinct _ _ _ Hc) as H; by rewrite app_nil_r in H].
    intros x y Hx Hy. cbn [dead pidworkermap set_sigch] in *. rewrite Ho in Hx, Hy.
    assert (Hx' : x ∈ dom (pidworkermap b)) by (apply (c_procs _ _ _ Hc); auto). apply elem_of_dom in Hx' as [v Hv].
    rewrite Hv. intros Hv'. symmetry in Hv'. by apply (c_one _ _ _ Hc x y v).
  - intros pid. rewrite (c_procs _ _ _ C), D. set_solver.
Qed.

(** The channel of the monitor holds one signal: a request to stop that arrives while
    the signal of a dead worker is waiting in it is lost, and the proxy runs on after the
    monitor has dealt with the dead worker. *)
Theorem stop_request_lost app b order starts : 0 <= NumOfShards (Sharding app) <= shard_count app → reached app b →
  stopped b = false → sigch b = Some SIGCHLD → fresh_event (EvSignal order starts) b →
  ∃ b', brun app [EvTerm; EvSignal order starts] b = Ret b' ∧ stopped b' = false ∧ sigch b' = None.
Proof.
  intros Hn Hr Hs Hc (Ho & Hl & Hf). destruct (reached_running app b Hn Hr Hs) as (lost & n & (Hg & _ & _) & _). cbn [brun bstep]. unfold notify.
  rewrite Hc. cbn [mbind result_bind]. rewrite Hs, Hc.
  destruct (on_SIGCHLD_ok n order starts (set_sigch None b)) as (b' & ws & -> & _ & _ & S1 & S2 & _); [by apply core_sigch|done..|].
  exists b'. split_and!; [done|by rewrite S2|done].
Qed.

(** The monitor never panics: it deals with every signal and every change of the
    number of workers, also when workers cannot be started. *)
Theorem monitor_never_panics app b ev : 0 <= NumOfShards (Sharding app) <= shard_count app → reached app b → fresh_event ev b →
  (∀ k o, ev ≠ EvPool k o) → ∃ b', bstep app ev b = Ret b'.
Proof.
  intros Hn Hr Hf Hev. destruct (stopped b) eqn:Hs.
  - destruct ev as [pid| |k o|order starts|ops e forks]; cbn [bstep]; rewrite ?Hs; [case_bool_decide| |by destruct (Hev k o)| |]; by eexists.
  - destruct (reached_running app b Hn Hr Hs) as (lost & n & Hg & M). destruct ev as [pid| |k o|order starts|ops e forks].
    + cbn [bstep]. case_bool_decide; by eexists.
    + by eexists.
    + by destruct (Hev k o).
    + destruct (signal_good app order starts lost n b Hg Hf) as (b' & -> & _). by eexists.
    + cbn [bstep]. rewrite Hs. destruct Hg as (Hc & _). destruct (change_loop_ok (Z.to_nat (NumOfShards (Sharding app))) n [] app e
        (GetNumWWorkers app ops 0) (GetNumRWorkers app ops 0) 0 forks b) as (b' & E1 & _); [done|done|lia|lia|]. by exists b'.
Qed.

End broker.

(** ** The worker pool as a pool of the broker *)

(** The dynamic configuration may differ at each event. *)
Abbreviation pool_env := (OpsConfig * WorkerPool.env)%type.
Abbreviation pool_op := (OpsConfig * HeraWorkerType * Z * WorkerPool.op)%type.

Section pools.
Context {Q : Type} `{!Queue wref Q} {qrep : Q → list wref → Prop} `{!QueueLaws wref Q qrep}.
Context (app : Config).
Import AdaptiveQueue WorkerClient WorkerPool.
Abbreviation Pool := (WorkerPool.WorkerPool Q).

Ltac chase := repeat match goal with
  | H : Ret _ = Ret _ |- _ => apply Ret_inj in H
  | H : (_, _) = (_, _) |- _ => injection H as H ?
  | H : mbind _ _ = Ret _ |- _ => apply bind_Ret in H as (? & ? & H)
  | H : Error _ = Ret _ |- _ => discriminate H
  | H : Panic = Ret _ |- _ => discriminate H
  | H : match ?x with _ => _ end = _ |- _ => destruct x eqn:?
  end; subst; try done.

Lemma next_Signal (p : Pool) : next (Signal p) = next p.
Proof. unfold Signal. by destruct (cond p). Qed.

Lemma next_setState st w (p : Pool) : next (setState st w p) = next p.
Proof. unfold setState. destruct (objs p !! w); [|done]. by destruct (_ =? _). Qed.

Lemma next_getActive (p p' : Pool) w : getActiveWorker p = Ret (p', w) → next p' = next p.
Proof. unfold getActiveWorker. intros ([q x] & _ & [= <- _]%Ret_inj)%bind_Ret. done. Qed.

Lemma next_dispatch t w (p : Pool) : next (fst (dispatch t w p)) = next p.
Proof. unfold dispatch. by destruct (alreadyDispatched _ _ _). Qed.

Lemma next_backlog e id h tm (p : Pool) : next (fst (enter_backlog app e id h tm p)) = next p.
Proof.
  unfold enter_backlog. destruct (_ =? 0); [done|]. destruct (getBacklogTimeout _ _ _) as [to lt]. destruct (_ =? 0); [done|].
  destruct (shouldSoftEvict _ _ _ _ _) as [m []]; [done|]. cbn. by destruct (backlogCnt p =? 0).
Qed.

Lemma next_reset e (p : Pool) : next (decBacklogCnt (resetIfLastBacklogEntry e p)) = next p ∧ next (decBacklogCnt p) = next p.
Proof. unfold decBacklogCnt, resetIfLastBacklogEntry. repeat case_match; done. Qed.

Lemma next_release ops e w (p p' : Pool) : release app ops e w p = Ret p' → next p' = next p.
Proof.
  unfold release. set (p1 := setState _ _ _). assert (Hp : next p1 = next p) by (subst p1; by rewrite next_setState). clearbody p1.
  intros (wk & _ & H)%bind_Ret. revert H. destruct (_ && _); [intros <-%Ret_inj; done|].
  destruct (_ && _); [intros <-%Ret_inj; done|]. destruct (_ && _); [intros <-%Ret_inj; done|].
  unfold push_free. intros ([q x] & _ & <-%Ret_inj)%bind_Ret. by rewrite next_Signal.
Qed.

Lemma next_rac e inst tm dl n i (p p' : Pool) : rac_loop app e inst tm dl n i p = Ret p' → next p' = next p.
Proof.
  revert i p. induction n as [|n IH]; intros i p; cbn [rac_loop]; [by intros <-%Ret_inj|]. intros (p1 & H1 & H2)%bind_Ret.
  rewrite (IH _ _ H2). unfold rac_one in H1. chase.
Qed.

Lemma next_lifespan e due cut n i (p p' : Pool) : lifespan_loop app e due cut n i p = Ret p' → next p' = next p.
Proof.
  revert i p. induction n as [|n IH]; intros i p; cbn [lifespan_loop]; [by intros <-%Ret_inj|]. intros (p1 & H1 & H2)%bind_Ret.
  rewrite (IH _ _ H2). unfold lifespan_one in H1. chase.
Qed.

Lemma next_attach w ns (p p' : Pool) : attach w ns p = Ret p' → next p' = next p.
Proof.
  unfold attach. intros (wk & _ & H)%bind_Ret. destruct (control_message ns wk) as [wk'|]; [|by apply Ret_inj in H as <-].
  apply bind_Ret in H as (p1 & H1 & <-%Ret_inj). cbn. unfold WorkerReady in H1. chase. rewrite next_Signal. cbn. by rewrite next_setState.
Qed.

(** The steps of a pool that are not the broker's. *)
Definition own_step (o : op) : bool := match o with OpExit _ _ _ | OpResize _ _ _ => false | _ => true end.

Lemma next_step ops wtype shard o (p p' : Pool) out : own_step o = true →
  step app ops wtype shard o p = Ret (p', out) → next p' = next p.
Proof.
  destruct o; cbn [step own_step]; unfold WorkerPool.quiet; intros Ho H; try done.
  - chase. by eapply next_attach.
  - chase.
  - chase.
  - revert H. destruct (_ || _); [by intros [= <- _]|]. unfold GetWorker. intros ([p1 x] & E1%next_getActive & H)%bind_Ret.
    rewrite <- E1. destruct x as [w|]; apply Ret_inj in H; [rewrite <- (next_dispatch t w p1)|rewrite <- (next_backlog e id sqlhash timeoutMs p1)]; by rewrite H.
  - destruct (waiting p !! id); apply Ret_inj in H as [= <- _]; [|done]. cbn. apply next_reset.
  - case_bool_decide; [|by apply Ret_inj in H as [= <- _]]. destruct (waiting _ !! id) as [wt|]; [|by apply Ret_inj in H as [= <- _]].
    unfold backlog_wakeup in H. apply bind_Ret in H as ([p1 x] & E1%next_getActive & H). cbn in E1. rewrite <- E1.
    destruct (next_reset e p1) as [R1 R2].
    destruct x as [w|]; apply Ret_inj in H.
    + match type of H with dispatch t w ?q = _ => pose proof (next_dispatch t w q) as D end. rewrite H in D. cbn in D. congruence.
    + match type of H with enter_backlog _ _ _ _ _ ?q = _ => pose proof (next_backlog e id (w_sqlhash wt) (w_timeout wt) q) as D end.
      rewrite H in D. cbn in D. congruence.
  - unfold ReturnWorker in H. destruct w as [w|]; [|by apply Ret_inj in H as [= <- _]]. apply bind_Ret in H as (wk & _ & H).
    destruct (Status wk =? wsQuce); [by apply Ret_inj in H as [= <- _]|]. destruct (_ || _); [by apply Ret_inj in H as [= <- _]|].
    apply bind_Ret in H as (p1 & E1%next_release & [= <- _]%Ret_inj). done.
  - unfold RacMaint in H. apply bind_Ret in H as (p1 & E1%next_rac & [= <- _]%Ret_inj). done.
  - unfold checkWorkerLifespan in H. apply bind_Ret in H as ([p1 x] & E1 & [= <- _]%Ret_inj).
    destruct (if skipcnt <? 90 then _ else _) as [sk ct]. apply bind_Ret in E1 as (p2 & E1%next_lifespan & [= <- _]%Ret_inj). done.
  - apply Ret_inj in H as [= <- _]. apply next_setState.
  - destruct (saturation_recovery _ _ _ _ _ _ _ _ _ _ _) as [[h m] x]. by apply Ret_inj in H as [= <- _].
Qed.

Lemma next_spawn_loop ops e n i l (p : Pool) :
  (next p <= next (fst (spawn_loop ops e n i l p)) <= next p + started l)%nat.
Proof.
  revert i l p. induction n as [|n IH]; intros i l p; cbn [spawn_loop]; [cbn; lia|]. unfold spawnWorker.
  destruct l as [|[] l]; cbn [head tail default from_option id fst started]; [lia| |lia].
  specialize (IH (i + 1) l (publish (WorkerStateEvt i wsInit) (alloc (set_status wsInit
    (NewWorker ops i (now_s e) (rnd e (2 * next p)) (rnd e (2 * next p + 1)))) p))). cbn [next publish set_events alloc] in IH. lia.
Qed.

Lemma next_init_loop ops e n i l (p : Pool) : (next (fst (init_loop ops e n i l p)) <= next p + started l)%nat.
Proof.
  revert i l p. induction n as [|n IH]; intros i l p; cbn [init_loop]; [cbn; lia|]. unfold spawnWorker.
  destruct l as [|[] l]; cbn [head tail default from_option id fst started]; [lia| |lia].
  match goal with |- context [init_loop _ _ _ _ _ ?q] => specialize (IH (i + 1) l q) end.
  cbn [next publish set_events set_currentSize alloc] in IH. lia.
Qed.

Definition pool_step (x : pool_op) (p : Pool) : result Pool :=
  let '(ops, wtype, shard, o) := x in
  if own_step o then '(p, _) ← step app ops wtype shard o p; Ret p else Ret p.

#[export] Instance pool_ops : PoolOps Pool pool_env pool_op := {|
  p_init e size l := Init app (fst e) (snd e) size l;
  p_restart e w b p := RestartWorker (fst e) (snd e) w b p;
  p_resize e size l p := Resize (fst e) (snd e) size l p;
  p_terminate := terminate;
  p_step := pool_step;
  p_next := next
|}.

(** The backlog counter has 32 bits. *)
Definition backlog_limit : nat := Z.to_nat (2 ^ 31 - 1).
Definition pool_ok (n : nat) (p : Pool) : Prop := ∃ l, inv (qrep := qrep) ∅ p l ∧ (size (waiting p) <= n)%nat.

Lemma next_Restart ops e w b (p p' : Pool) : RestartWorker ops e w b p = Ret p' →
  next p' = next p ∨ b = true ∧ next p' = S (next p).
Proof.
  unfold RestartWorker. intros (wk & _ & H)%bind_Ret. revert H. destruct (_ <=? _).
  - set (p1 := if _ =? _ then _ else _). intros ([q x] & _ & <-%Ret_inj)%bind_Ret. left. subst p1. by destruct (_ =? _).
  - intros ([q x] & _ & H)%bind_Ret. unfold spawnWorker in H. destruct b; apply Ret_inj in H as <-; auto.
Qed.

Lemma next_Resize ops e size l (p p' : Pool) : Resize ops e size l p = Ret p' → (next p <= next p' <= next p + started l)%nat.
Proof.
  unfold Resize. destruct (_ =? _); [intros <-%Ret_inj; lia|]. set (p1 := set_desiredSize size p). destruct (_ <? _).
  - set (p2 := publish _ _). pose proof (next_spawn_loop ops e (Z.to_nat (size - currentSize p2)) (currentSize p2) l p2) as Hs.
    change (next p2) with (next p) in Hs. destruct (spawn_loop _ _ _ _ _ _) as [p3 []]; intros <-%Ret_inj; cbn in *; lia.
  - intros ([[q k] x] & _ & <-%Ret_inj)%bind_Ret. cbn. lia.
Qed.

#[export] Instance pool_laws : PoolLaws Pool pool_env pool_op pool_ok backlog_limit.
Proof.
  constructor.
  - intros n p (l & I & Hs). exists l. split; [done|lia].
  - intros [ops e] size l p b Hi. cbn [p_init pool_ops fst snd p_next] in *. split.
    + destruct (Init_ok app ops (qrep := qrep) e size l p b Hi) as [I Hw]. exists []. rewrite Hw. by split.
    + unfold Init in Hi. destruct (_ <? _); [done|]. apply Ret_inj in Hi.
      pose proof (next_init_loop ops e (Z.to_nat size) 0 l (empty_pool app e size)) as H. rewrite Hi in H. cbn in H. done.
  - intros [ops e] w b n p (l & I & Hs) Hw. cbn [p_restart p_next pool_ops fst snd] in *.
    destruct (RestartWorker_ok ops ∅ e w b p l I Hw) as (p' & E1 & I' & Hw' & _). exists p'. split; [done|]. split.
    + exists (filter (.≠ w) l). by rewrite Hw'.
    + by eapply next_Restart.
  - intros [ops e] size l n p (l0 & I & Hs). cbn [p_resize p_next pool_ops fst snd] in *.
    destruct (Resize_ok ops ∅ e size l p l0 I) as (p' & l' & E1 & I' & _ & Hw' & _). exists p'. split; [done|]. split.
    + exists l'. by rewrite Hw'.
    + by eapply next_Resize.
  - intros w n p (l & I & Hs). cbn. split; [|done]. exists l. split; [by destruct I; constructor|done].
  - intros [[[ops wtype] shard] o] n p p' (l & I & Hs) Hn. cbn [p_step p_next pool_ops pool_step].
    destruct (own_step o) eqn:Ho; [|intros <-%Ret_inj; split; [exists l; split; [done|lia]|done]].
    intros ([p1 out] & E1 & <-%Ret_inj)%bind_Ret. split; [|by eapply next_step].
    destruct (WorkerPool.step_ok app ops wtype shard ∅ o p l p1 out I) as (l' & I' & Hs'); [by destruct o as [| | | | | |? [w|] ?| | | | | |]|unfold backlog_limit in Hn; lia|done|].
    exists l'. split; [done|lia].
Qed.

End pools.

(** ** A proxy with four workers *)

Abbreviation ring_pool := (WorkerPool.WorkerPool (RingQueue.ringQueue (A := nat))).

Definition ex_op : pool_op := (WorkerPool.ex_cfg, wtypeRW, 0, WorkerPool.OpAttach 1%nat WorkerPool.ex_control).
Definition ex_here : pool_env := (WorkerPool.ex_cfg, WorkerPool.ex_env).
Definition ex_pools : PoolOps ring_pool pool_env pool_op := pool_ops WorkerPool.ex_app.
#[export] Existing Instance ex_pools.

(** One of the four processes exits before the start is over; then a worker connects and two
    others die, and the system reports the dead in an order of its own. *)
Definition ex_events : list (event (E := pool_env) (Op := pool_op)) := [EvPool (0, 0, 0) ex_op; EvExit 102; EvExit 103].
Definition ex_forks : list (list (option Z) * list (early (Op := pool_op))) := [([Some 101; Some 102; Some 103; Some 104], [EarlyExit 104])].
Definition ex_order : list Z := [103; 104; 102].
Definition ex_starts : list (pool_env * option Z) := [(ex_here, Some 105); (ex_here, None); (ex_here, Some 106)].
Definition ex_start : result (WorkerBroker ring_pool) := RestartWorkerPool ex_here ex_forks (init WorkerPool.ex_app WorkerPool.ex_cfg).
Definition ex_began : WorkerBroker ring_pool := match ex_start with Ret b => b | _ => init WorkerPool.ex_app WorkerPool.ex_cfg end.
Definition ex_run : result (WorkerBroker ring_pool) := brun WorkerPool.ex_app ex_events ex_began.
Definition ex_broker : WorkerBroker ring_pool :=
  match ex_run with Ret b => b | _ => init WorkerPool.ex_app WorkerPool.ex_cfg end.

Lemma ex_reached_from : reached_from (limit := backlog_limit) WorkerPool.ex_app ex_began ex_broker.
Proof.
  exists WorkerPool.ex_cfg, ex_here, ex_forks, ex_events. split_and!.
  - split; apply (bool_decide_unpack _); vm_compute; exact I.
  - vm_compute. reflexivity.
  - change (length (concat ex_forks.*2) + length ex_events)%nat with 4%nat. unfold backlog_limit. lia.
  - split; [done|]. destruct (bstep _ _ _); [|done..]. split; [done|]. destruct (bstep _ _ _); [|done..]. split; [done|]. by destruct (bstep _ _ _).
  - vm_compute. reflexivity.
Qed.

Lemma ex_reached : reached (limit := backlog_limit) WorkerPool.ex_app ex_broker.
Proof. eexists. apply ex_reached_from. Qed.

Lemma ex_fresh : fresh_event (EvSignal (Op := pool_op) ex_order ex_starts) ex_broker.
Proof.
  split; [|split; [vm_compute; lia|split; apply (bool_decide_unpack _); vm_compute; exact I]].
  apply (bool_decide_unpack _). vm_compute. exact I.
Qed.

Lemma ex_shards : 0 <= NumOfShards (Sharding WorkerPool.ex_app) <= shard_count WorkerPool.ex_app.
Proof. vm_compute. split; discriminate. Qed.

Lemma no_exit_unnoticed_witness : dead ex_began = [104] ∧ sigch ex_began = None ∧ dead ex_broker = [104; 102; 103] ∧
  ∀ pid, pid ∈ dom (pidworkermap ex_broker) ↔ pid ∈ children ex_broker ∨ pid ∈ dead ex_broker.
Proof.
  destruct (no_exit_unnoticed (ok := pool_ok (qrep := RingQueue.rep)) (limit := backlog_limit) WorkerPool.ex_app ex_began ex_broker
    ex_shards ex_reached_from) as ([S0 _] & H & _).
  split_and!; [vm_compute; reflexivity|exact S0|vm_compute; reflexivity|].
  apply H. vm_compute. reflexivity.
Defined.

Lemma dead_workers_restarted_witness : ∃ b', on_SIGCHLD ex_order ex_starts (set_sigch None ex_broker) =
  Ret (b', [(0, 0, 0, 2%nat); (0, 0, 0, 3%nat); (0, 0, 0, 1%nat)]) ∧ dead b' = [].
Proof.
  destruct (dead_workers_restarted (ok := pool_ok (qrep := RingQueue.rep)) (limit := backlog_limit) WorkerPool.ex_app ex_broker ex_order ex_starts
    ex_shards ex_reached) as (b' & ws & E1 & F & _ & D & _); [vm_compute; reflexivity|apply ex_fresh|].
  assert (Ew : Some <$> ws = Some <$> [(0, 0, 0, 2%nat); (0, 0, 0, 3%nat); (0, 0, 0, 1%nat)]) by (rewrite F; vm_compute; reflexivity).
  apply (inj (fmap Some)) in Ew as ->. exists b'. split; [exact E1|exact D].
Defined.

Lemma stop_request_lost_witness : ∃ b', brun WorkerPool.ex_app [EvTerm; EvSignal ex_order ex_starts] ex_broker = Ret b' ∧ stopped b' = false.
Proof.
  destruct (stop_request_lost (ok := pool_ok (qrep := RingQueue.rep)) (limit := backlog_limit) WorkerPool.ex_app ex_broker ex_order ex_starts
    ex_shards ex_reached) as (b' & E1 & S1 & _); [vm_compute; reflexivity|vm_compute; reflexivity|apply ex_fresh|].
  exists b'. split; [exact E1|exact S1].
Defined.

Lemma monitor_never_panics_witness : ∃ b', bstep WorkerPool.ex_app (EvSignal ex_order ex_starts) ex_broker = Ret b'.
Proof.
  apply (monitor_never_panics (ok := pool_ok (qrep := RingQueue.rep)) (limit := backlog_limit) WorkerPool.ex_app ex_broker (EvSignal ex_order ex_starts)
    ex_shards ex_reached); [apply ex_fresh|intros k o; discriminate].
Defined.

End WorkerBroker.
