(* ===== verification/RacMaint.v ===== *)
(** * RAC maintenance (lib/racmaint.go): the table that announces the maintenance of a
    database instance is polled, and the workers of that instance are restarted, through
    the broker and the pools. *)

From S2P Require Import Prelude ConfigFile Fmt Config RingQueue AdaptiveQueue WorkerClient WorkerPool StateLog WorkerBroker.
From stdpp Require Import base list gmap strings.
From Stdlib Require Import ZArith Lia.
Import Config StateLog WorkerClient WorkerBroker.
Open Scope Z_scope.

Module RacMaint.

(** ** Polling *)

Record racCfg := mkRacCfg { inst : Z; status : bytes; tm : Z; module : bytes }.
Record racAct := mkRacAct { instID : Z; act_tm : Z; delay : bool }.

Definition MaxRacID : Z := 16.

(** What the table holds before the first poll. *)
Definition first_prev : list racCfg := map (λ i, mkRacCfg (Z.of_nat i + 1) (str "U") 0 []) (seq 0 (Z.to_nat MaxRacID)).

(** The statement and its three values. *)
Definition racSQL (app : Config) (shard : Z) : bytes :=
  str "/*shard=" ++ itoa shard ++ str "*/ SELECT inst_id, UPPER(status), status_time, UPPER(module) " ++
  str "FROM " ++ ManagementTablePrefix app ++ str "_maint " ++
  str "WHERE UPPER(machine) = ? and " ++ str "UPPER(module) in ( ?, ? ) " ++ str "ORDER BY inst_id".

Definition racBinds (hostname cmdLineModuleName : bytes) : list bytes :=
  let m := GoStrings.ToUpper cmdLineModuleName in
  [GoStrings.ToUpper hostname; m ++ str "_TAF"; m].

(** What the database answers; a row that cannot be scanned is [None]. *)
Inductive answer : Type :=
  | NoConn
  | NoStmt
  | NoRows
  | Rows (rows : list (option racCfg)).

(** [strings.HasSuffix] *)
Definition HasSuffix (s sfx : bytes) : bool :=
  (zlen sfx <=? zlen s) && bool_decide (drop (length s - length sfx) s = sfx).

(** The request for a row: a status that is not known voids it. *)
Definition request (row : racCfg) : racAct :=
  if bool_decide (status row = str "R") then mkRacAct (inst row) (tm row) true
  else if bool_decide (status row = str "F") then mkRacAct (inst row) (tm row) false
  else mkRacAct (inst row) 0 true.

Definition changed (old row : racCfg) : bool := negb (tm row =? tm old) || negb (bool_decide (status row = status old)).

(** The entry after a change. *)
Definition update_prev (row old : racCfg) : racCfg := mkRacCfg (inst old) (status row) (tm row) (module old).

Section rac.
Context {P E Op : Type} `{!PoolOps P E Op}.
Abbreviation B := (WorkerBroker P).
Context (app : Config) (shard : Z).

Definition row_type (row : racCfg) : HeraWorkerType := if HasSuffix (module row) (str "_TAF") then wtypeStdBy else wtypeRW.

(** [go workerpool.RacMaint(racReq)], when the pool is there. *)
Definition spawn (t : HeraWorkerType) (req : racAct) (b : B) : result (list (pool_id * racAct)) :=
  match GetWorkerPool (shard, wnum t, 0) b with
  | Ret _ => Ret [((shard, wnum t, 0), req)]
  | Error _ => Ret []
  | Panic => Panic
  | Fatal => Fatal
  | Hang => Hang
  end.

Definition row_actions (row : racCfg) (b : B) : result (list (pool_id * racAct)) :=
  a1 ← spawn (row_type row) (request row) b;
  a2 ← (if 0 <? ReadonlyPct app then spawn wtypeRO (request row) b else Ret []);
  Ret (a1 ++ a2).

(** The loop over the rows, with the goroutines it starts. *)
Fixpoint rac_rows (rows : list (option racCfg)) (b : B) (prev : list racCfg) : result (list racCfg * list (pool_id * racAct)) :=
  match rows with
  | [] => Ret (prev, [])
  | None :: _ => Ret (prev, [])
  | Some row :: rows =>
    if MaxRacID <? inst row then rac_rows rows b prev
    else
      old ← index_get prev (inst row);
      if changed old row then
        acts ← row_actions row b;
        '(prev, acts') ← rac_rows rows b (<[Z.to_nat (inst row) := update_prev row old]> prev);
        Ret (prev, acts ++ acts')
      else rac_rows rows b prev
  end.

Definition racMaint (a : answer) (b : B) (prev : list racCfg) : result (list racCfg * list (pool_id * racAct)) :=
  match a with
  | Rows rows => rac_rows rows b prev
  | _ => Ret (prev, [])
  end.

(** [racMaintMain]: the polls one after the other. *)
Fixpoint polls (l : list (answer * B)) (prev : list racCfg) : result (list racCfg * list (pool_id * racAct)) :=
  match l with
  | [] => Ret (prev, [])
  | (a, b) :: l =>
    '(prev, acts) ← racMaint a b prev;
    '(prev, acts') ← polls l prev;
    Ret (prev, acts ++ acts')
  end.

Definition racMaintMain (l : list (answer * B)) : result (list racCfg * list (pool_id * racAct)) := polls l first_prev.

(** ** What a poll does *)

Definition in_table (row : racCfg) : Prop := 0 <= inst row < MaxRacID.

Lemma index_get_Some {A} (l : list A) (i : Z) (x : A) : 0 <= i → l !! Z.to_nat i = Some x → index_get l i = Ret x.
Proof. intros Hi Hx. unfold index_get. by rewrite (proj2 (Z.leb_le _ _)), Hx. Qed.

Lemma spawn_ok t req (b : B) : 0 <= shard < maxShards b →
  ∃ acts, spawn t req b = Ret acts ∧
    ∀ x, x ∈ acts ↔ x = ((shard, wnum t, 0), req) ∧ is_Some (match GetWorkerPool (shard, wnum t, 0) b with Ret p => Some p | _ => None end).
Proof.
  intros Hs. unfold spawn.
  destruct (GetWorkerPool_first shard (wnum t) b Hs) as [[p ->]|[err ->]]; eexists; (split; [done|]); intros x.
  - rewrite list_elem_of_singleton. split; [intros ->; split; [done|by eexists]|by intros [-> _]].
  - split; [by intros ?%not_elem_of_nil|by intros [_ [? ?]]].
Qed.

(** The goroutines for a row: the pool that the module names, and the read pool when there
    is one. *)
Definition acts_on (row : racCfg) (b : B) (x : pool_id * racAct) : Prop :=
  ∃ t, x = ((shard, wnum t, 0), request row) ∧ (t = row_type row ∨ t = wtypeRO ∧ 0 < ReadonlyPct app) ∧
    is_Some (match GetWorkerPool (shard, wnum t, 0) b with Ret p => Some p | _ => None end).

Lemma row_actions_ok row (b : B) : 0 <= shard < maxShards b →
  ∃ acts, row_actions row b = Ret acts ∧ ∀ x, x ∈ acts ↔ acts_on row b x.
Proof.
  intros Hs. unfold row_actions. destruct (spawn_ok (row_type row) (request row) b Hs) as (a1 & -> & H1). cbn [mbind result_bind].
  destruct (spawn_ok wtypeRO (request row) b Hs) as (a2 & E2 & H2). destruct (Z.ltb_spec 0 (ReadonlyPct app)).
  - rewrite E2. cbn [mbind result_bind]. eexists. split; [done|]. intros x. rewrite elem_of_app, H1, H2. unfold acts_on. naive_solver.
  - cbn [mbind result_bind]. eexists. split; [done|]. intros x. rewrite app_nil_r, H1. unfold acts_on.
    split; [naive_solver|]. intros (t & -> & [->|[_ ?]] & Hp); [done|lia].
Qed.

(** What the previous poll saw of the instance of a row. *)
Definition seen (prev : list racCfg) (row : racCfg) : Prop :=
  ∃ old, prev !! Z.to_nat (inst row) = Some old ∧ changed old row = false.

Lemma changed_update row old : changed (update_prev row old) row = false.
Proof. unfold changed. cbn. rewrite Z.eqb_refl, bool_decide_true by done. done. Qed.

Lemma rac_rows_ok rows (b : B) prev : length prev = Z.to_nat MaxRacID → 0 <= shard < maxShards b → Forall in_table rows →
  NoDup (inst <$> rows) →
  ∃ prev' acts, rac_rows (Some <$> rows) b prev = Ret (prev', acts) ∧ length prev' = length prev ∧
    (∀ row, row ∈ rows → seen prev' row) ∧
    (∀ i, (∀ row, row ∈ rows → Z.to_nat (inst row) ≠ i) → prev' !! i = prev !! i) ∧
    (∀ x, x ∈ acts ↔ ∃ row, row ∈ rows ∧ ¬ seen prev row ∧ acts_on row b x).
Proof.
  intros Hp Hs. revert prev Hp. induction rows as [|row rows IH]; intros prev Hp Ht Hn.
  { exists prev, []. split_and!; try done; [set_solver|]. intros x. split; [by intros ?%not_elem_of_nil|set_solver]. }
  apply Forall_cons in Ht as [[H0 H1] Ht]. apply NoDup_cons in Hn as [Hni Hn]. cbn [fmap list_fmap rac_rows].
  rewrite (proj2 (Z.ltb_ge _ _)) by lia.
  destruct (lookup_lt_is_Some_2 prev (Z.to_nat (inst row))) as [old Hold]; [lia|]. rewrite (index_get_Some _ _ old) by done. cbn [mbind result_bind].
  assert (Hne : ∀ r, r ∈ rows → Z.to_nat (inst r) ≠ Z.to_nat (inst row)).
  { intros r Hr He. rewrite Forall_forall in Ht. destruct (Ht r Hr). apply Hni, list_elem_of_fmap. exists r. split; [lia|done]. }
  destruct (changed old row) eqn:Ec.
  - destruct (row_actions_ok row b Hs) as (a1 & -> & Ha). cbn [mbind result_bind].
    destruct (IH (<[Z.to_nat (inst row) := update_prev row old]> prev)) as (prev' & acts & -> & L & I1 & I2 & I3); [by rewrite length_insert|done|done|].
    cbn [mbind result_bind]. eexists _, _. split; [done|]. rewrite length_insert in L. split; [done|]. split_and!.
    + intros r [->|Hr]%elem_of_cons; [|by apply I1]. exists (update_prev row old). split; [|apply changed_update].
      rewrite I2 by done. apply list_lookup_insert_eq. lia.
    + intros i Hi. rewrite I2 by set_solver. apply list_lookup_insert_ne. set_solver.
    + intros x. rewrite elem_of_app, Ha, I3. split.
      * intros [Hx|(r & Hr & Hsn & Hx)]; [exists row; split_and!; [by left| |done]; intros (o & Ho & ?); congruence|].
        exists r. split_and!; [by right| |done]. intros (o & Ho & Hc). apply Hsn. exists o. split; [|done].
        rewrite list_lookup_insert_ne; [done|]. apply not_eq_sym. by apply Hne.
      * intros (r & [->|Hr]%elem_of_cons & Hsn & Hx); [by left|right]. exists r. split_and!; [done| |done].
        intros (o & Ho & Hc). apply Hsn. exists o. split; [|done]. rewrite list_lookup_insert_ne in Ho; [done|]. apply not_eq_sym. by apply Hne.
  - destruct (IH prev) as (prev' & acts & -> & L & I1 & I2 & I3); [done|done|done|]. exists prev', acts. split_and!; try done.
    + intros r [->|Hr]%elem_of_cons; [|by apply I1]. exists old. by rewrite I2.
    + intros i Hi. apply I2. set_solver.
    + intros x. rewrite I3. split; [intros (r & Hr & H); exists r; split; [by right|done]|].
      intros (r & [->|Hr]%elem_of_cons & Hsn & Hx); [|by exists r]. destruct Hsn. by exists old.
Qed.

(** A table that has been seen. *)
Lemma rac_rows_quiet rows (b : B) prev : Forall in_table rows → (∀ row, row ∈ rows → seen prev row) →
  rac_rows (Some <$> rows) b prev = Ret (prev, []).
Proof.
  intros Ht. induction Ht as [|row rows [H0 H1] Ht IH]; intros Hs; [done|]. cbn [fmap list_fmap rac_rows].
  rewrite (proj2 (Z.ltb_ge _ _)) by lia. destruct (Hs row) as (old & Hold & Hc); [by left|].
  rewrite (index_get_Some _ _ old) by done. cbn [mbind result_bind]. rewrite Hc. apply IH. set_solver.
Qed.

(** A poll of a table with one row for each instance starts the maintenance of exactly
    the rows that have changed since the poll before, on the pool that the module of the row
    names and on the read pool, and as long as the table stays the same no later poll starts
    any. *)
Theorem maintenance_once rows (b : B) prev (later : list B) : length prev = Z.to_nat MaxRacID → 0 <= shard < maxShards b →
  Forall in_table rows → NoDup (inst <$> rows) →
  ∃ prev' acts, racMaint (Rows (Some <$> rows)) b prev = Ret (prev', acts) ∧
    (∀ x, x ∈ acts ↔ ∃ row, row ∈ rows ∧ ¬ seen prev row ∧ acts_on row b x) ∧
    polls (map (λ b', (Rows (Some <$> rows), b')) later) prev' = Ret (prev', []).
Proof.
  intros Hp Hs Ht Hn. destruct (rac_rows_ok rows b prev Hp Hs Ht Hn) as (prev' & acts & E1 & _ & I1 & _ & I3).
  exists prev', acts. split_and!; [done|done|]. induction later as [|b' later IH]; [done|]. cbn [map polls racMaint].
  rewrite rac_rows_quiet by done. cbn [mbind result_bind]. by rewrite IH.
Qed.

(** The test of the instance number lets the first number through that the table of
    instances does not have: a row for instance 16, or for a negative one, crashes the
    proxy. *)
Theorem instance_16_panics rows row rest (b : B) prev : length prev = Z.to_nat MaxRacID → 0 <= shard < maxShards b →
  Forall in_table rows → NoDup (inst <$> rows) → inst row = MaxRacID ∨ inst row < 0 →
  racMaint (Rows ((Some <$> rows) ++ Some row :: rest)) b prev = Panic.
Proof.
  intros Hp Hs Ht Hn Hr. cbn [racMaint]. revert prev Hp Hn. induction Ht as [|r rows [H0 H1] Ht IH]; intros prev Hp Hn; cbn [fmap list_fmap Datatypes.app rac_rows].
  - rewrite (proj2 (Z.ltb_ge _ _)) by (unfold MaxRacID in *; lia). unfold index_get. destruct Hr as [->|Hr].
    + cbn [Z.leb MaxRacID Z.compare]. by rewrite lookup_ge_None_2 by lia.
    + by rewrite (proj2 (Z.leb_gt _ _)).
  - rewrite (proj2 (Z.ltb_ge _ _)) by lia. apply NoDup_cons in Hn as [_ Hn].
    destruct (lookup_lt_is_Some_2 prev (Z.to_nat (inst r))) as [old Hold]; [lia|]. rewrite (index_get_Some _ _ old) by done. cbn [mbind result_bind].
    destruct (changed old r); [|by apply IH]. destruct (row_actions_ok r b Hs) as (a1 & -> & _). cbn [mbind result_bind].
    by rewrite IH by (by rewrite ?length_insert).
Qed.

Lemma update_update r r' old : update_prev r (update_prev r' old) = update_prev r old.
Proof. done. Qed.

(** Two rows of one instance. *)
Lemma two_rows r1 r2 (b : B) prev old : in_table r1 → inst r2 = inst r1 → 0 <= shard < maxShards b →
  prev !! Z.to_nat (inst r1) = Some old → changed old r1 = true → changed r1 r2 = true →
  ∃ a1 a2, row_actions r1 b = Ret a1 ∧ row_actions r2 b = Ret a2 ∧
    rac_rows [Some r1; Some r2] b prev = Ret (<[Z.to_nat (inst r1) := update_prev r2 old]> prev, a1 ++ a2).
Proof.
  intros [H0 H1] Ei Hs Hold Hc Hd. destruct (row_actions_ok r1 b Hs) as (a1 & E1 & _). destruct (row_actions_ok r2 b Hs) as (a2 & E2 & _).
  exists a1, a2. split_and!; [done|done|]. cbn [rac_rows]. rewrite Ei, (proj2 (Z.ltb_ge _ _)) by lia.
  rewrite (index_get_Some _ _ old) by done. cbn [mbind result_bind]. rewrite Hc, E1. cbn [mbind result_bind].
  apply lookup_lt_Some in Hold as Hl. rewrite (index_get_Some _ _ (update_prev r1 old)) by (try done; by rewrite list_lookup_insert_eq).
  cbn [mbind result_bind]. assert (Hd' : changed (update_prev r1 old) r2 = true) by done. rewrite Hd', E2. cbn [mbind result_bind].
  by rewrite list_insert_insert_eq, app_nil_r.
Qed.

(** The table of instances does not tell the two modules of the proxy apart: with a row
    for each of them whose times or statuses differ, every poll restarts the workers of both
    again, although the table does not change. *)
Theorem two_modules_repeat r1 r2 (b : B) prev : length prev = Z.to_nat MaxRacID → in_table r1 → inst r2 = inst r1 →
  0 <= shard < maxShards b → changed r1 r2 = true →
  ∃ prev' acts a1 a2, racMaint (Rows [Some r1; Some r2]) b prev = Ret (prev', acts) ∧
    row_actions r1 b = Ret a1 ∧ row_actions r2 b = Ret a2 ∧
    ∀ n, polls (replicate n (Rows [Some r1; Some r2], b)) prev' = Ret (prev', concat (replicate n (a1 ++ a2))).
Proof.
  intros Hp Ht Ei Hs Hd. pose proof Ht as [H0 H1]. destruct (lookup_lt_is_Some_2 prev (Z.to_nat (inst r1))) as [old Hold]; [lia|].
  apply lookup_lt_Some in Hold as Hl. set (prev' := <[Z.to_nat (inst r1) := update_prev r2 old]> prev).
  destruct (row_actions_ok r1 b Hs) as (a1 & E1 & _). destruct (row_actions_ok r2 b Hs) as (a2 & E2 & _).
  assert (Hf : ∃ acts, racMaint (Rows [Some r1; Some r2]) b prev = Ret (prev', acts)).
  { destruct (changed old r1) eqn:Hc.
    - destruct (two_rows r1 r2 b prev old Ht Ei Hs Hold Hc Hd) as (x1 & x2 & _ & _ & E3). by eexists.
    - exists a2. cbn [racMaint rac_rows]. rewrite Ei, (proj2 (Z.ltb_ge _ _)) by lia. rewrite (index_get_Some _ _ old) by done.
      cbn [mbind result_bind]. rewrite Hc. assert (Hc2 : changed old r2 = true).
      { revert Hc Hd. unfold changed. rewrite !orb_false_iff, !negb_false_iff. intros [->%Z.eqb_eq ->%bool_decide_eq_true]. done. }
      rewrite Hc2, E2. cbn [mbind result_bind]. by rewrite app_nil_r. }
  destruct Hf as [acts Hf]. exists prev', acts, a1, a2. split_and!; [done|done|done|]. induction n as [|n IH]; [done|].
  cbn [replicate polls racMaint concat]. destruct (two_rows r1 r2 b prev' (update_prev r2 old)) as (x1 & x2 & X1 & X2 & ->); try done.
  { by apply list_lookup_insert_eq. }
  { revert Hd. unfold changed, update_prev. cbn. rewrite (Z.eqb_sym (tm r1)), (bool_decide_ext (status r1 = _) (status r2 = status r1)); done. }
  cbn [mbind result_bind]. rewrite update_update. assert (Hid : <[Z.to_nat (inst r1) := update_prev r2 old]> prev' = prev') by (apply list_insert_id, list_lookup_insert_eq; done).
  rewrite Hid, IH. cbn [mbind result_bind]. rewrite E1 in X1. rewrite E2 in X2. by injection X1 as ->; injection X2 as ->.
Qed.

End rac.

(** [InitRacMaint]: the shards that are polled. *)
Definition InitRacMaint (app : Config) : list Z :=
  if 0 <? RacMaintReloadInterval app then map Z.of_nat (seq 0 (Z.to_nat (NumOfShards (Sharding app)))) else [].

(** ** The workers of a pool *)

Section pool.
Context {Q : Type} `{!Queue wref Q} {qrep : Q → list wref → Prop} `{!QueueLaws wref Q qrep}.
Context (app : Config).
Import WorkerPool.
Abbreviation Pool := (WorkerPool.WorkerPool Q).

(** The workers that a request is about. *)
Definition target (req : racAct) (wk : WorkerClient) : bool :=
  ((instID req =? 0) || (racID wk =? instID req)) && (startTime wk <? act_tm req).

(** When the restarts start, and when it is the turn of slot [i]. *)
Definition start_at (e : env) (req : racAct) : Z := Z.max (now_s e) (act_tm req).
Definition turn (e : env) (req : racAct) (size i : Z) : Z :=
  start_at e req + if delay req then Z.quot (i64 (RacRestartWindow app * i)) size else 0.

Definition in_slot (p : Pool) (w : wref) (i n j : Z) : Prop := i <= j < i + n ∧ workers p !! Z.to_nat j = Some (Some w).

Lemma rac_one_spec e req i (p : Pool) : 0 <= i < zlen (workers p) → (∀ w, Some w ∈ workers p → is_Some (objs p !! w)) →
  rac_one app e (instID req) (act_tm req) (delay req) i p =
    Ret (match workers p !! Z.to_nat i with
         | Some (Some w) =>
           match objs p !! w with
           | Some wk => if target req wk then update (set_exitTime (turn e req (currentSize p) i)) w p else p
           | None => p
           end
         | _ => p
         end).
Proof.
  intros Hi Ho. destruct (lookup_lt_is_Some_2 (workers p) (Z.to_nat i)) as [slot Hs]; [lia|]. unfold rac_one.
  rewrite (index_get_Some _ _ slot) by (try lia; done). rewrite Hs. cbn [mbind result_bind]. destruct slot as [w|]; [|done].
  destruct (Ho w) as [wk Hwk]; [by eapply list_elem_of_lookup_2|]. unfold deref. rewrite Hwk. cbn [mbind result_bind]. unfold target.
  destruct (_ && _); [|done]. do 2 f_equal. unfold turn, start_at. destruct (delay req); [|rewrite Z.add_0_r].
  - f_equal. f_equal. destruct (Z.ltb_spec (now_s e) (act_tm req)); lia.
  - f_equal. destruct (Z.ltb_spec (now_s e) (act_tm req)); lia.
Qed.

(** What the loop has done to a worker. *)
Definition marked (e : env) (req : racAct) (p p' : Pool) (i n : Z) (w : wref) (wk : WorkerClient) : Prop :=
  objs p' !! w = Some wk ∧ (target req wk = false ∨ ∀ j, ¬ in_slot p w i n j) ∨
  target req wk = true ∧ ∃ j, in_slot p w i n j ∧ objs p' !! w = Some (set_exitTime (turn e req (currentSize p) j) wk).

Lemma rac_loop_spec e req n i (p : Pool) : 0 <= i → i + Z.of_nat n <= zlen (workers p) →
  (∀ w, Some w ∈ workers p → is_Some (objs p !! w)) →
  ∃ p', rac_loop app e (instID req) (act_tm req) (delay req) n i p = Ret p' ∧ workers p' = workers p ∧
    currentSize p' = currentSize p ∧ terminating p' = terminating p ∧
    ∀ w wk, objs p !! w = Some wk → marked e req p p' i (Z.of_nat n) w wk.
Proof.
  revert i p. induction n as [|n IH]; intros i p Hi Hn Ho; cbn [rac_loop].
  { exists p. split_and!; try done. intros w wk Hw. left. split; [done|right]. intros j [? _]. lia. }
  rewrite rac_one_spec by (try lia; done). cbn [mbind result_bind]. set (p1 := match workers p !! _ with Some _ => _ | None => _ end).
  assert (H1 : workers p1 = workers p ∧ currentSize p1 = currentSize p ∧ terminating p1 = terminating p ∧
    (∀ w wk, objs p !! w = Some wk → workers p !! Z.to_nat i = Some (Some w) ∧ target req wk = true ∧
      objs p1 !! w = Some (set_exitTime (turn e req (currentSize p) i) wk) ∨
      (workers p !! Z.to_nat i ≠ Some (Some w) ∨ target req wk = false) ∧ objs p1 !! w = Some wk)).
  { subst p1. destruct (workers p !! Z.to_nat i) as [[v|]|] eqn:Es; [|split_and!; try done; intros w wk Hw; right; split; [by left|done]..].
    destruct (Ho v) as [vk Hv]; [by eapply list_elem_of_lookup_2|]. rewrite Hv. destruct (target req vk) eqn:Et.
    - split_and!; try done. intros w wk Hw. cbn. destruct (decide (w = v)) as [->|Hne].
      + left. rewrite Hv in Hw. injection Hw as ->. rewrite lookup_alter_eq, Hv. done.
      + right. split; [left; congruence|]. by rewrite lookup_alter_ne.
    - split_and!; try done. intros w wk Hw. right. split; [|done]. destruct (decide (w = v)) as [->|Hne]; [right; congruence|left; congruence]. }
  destruct H1 as (W1 & C1 & T1 & O1). clearbody p1.
  destruct (IH (i + 1) p1) as (p' & E1 & W2 & C2 & T2 & O2); [lia|rewrite W1; lia| |].
  { rewrite W1. intros w Hw. destruct (Ho w Hw) as [wk Hwk]. destruct (O1 w wk Hwk) as [(_ & _ & ->)|(_ & ->)]; by eexists. }
  exists p'. rewrite E1. split_and!; try congruence. intros w wk Hw.
  assert (Hslot : ∀ j, in_slot p1 w (i + 1) (Z.of_nat n) j → in_slot p w i (Z.of_nat (S n)) j).
  { intros j [? Hj]. rewrite W1 in Hj. split; [lia|done]. }
  destruct (O1 w wk Hw) as [(Es & Et & Ew)|(Hne & Ew)].
  - right. split; [done|]. destruct (O2 w _ Ew) as [(E3 & _)|(_ & j & Hj & E3)].
    + exists i. split; [split; [lia|done]|]. done.
    + exists j. split; [by apply Hslot|]. rewrite C1 in E3. done.
  - destruct (O2 w _ Ew) as [(E3 & H3)|(Ht & j & Hj & E3)].
    + left. split; [done|]. destruct H3 as [?|H3]; [by left|]. destruct Hne as [Hne|?]; [right|by left].
      intros j [Hj1 Hj2]. destruct (decide (j = i)) as [->|]; [done|]. apply (H3 j). split; [lia|by rewrite W1].
    + right. split; [done|]. exists j. split; [by apply Hslot|]. by rewrite C1 in E3.
Qed.

Definition pool_RacMaint (e : env) (req : racAct) (p : Pool) : result Pool := RacMaint app e (instID req) (act_tm req) (delay req) p.

Lemma pool_RacMaint_spec e req (p : Pool) l : inv (qrep := qrep) ∅ p l → 0 <= currentSize p <= zlen (workers p) →
  ∃ p', pool_RacMaint e req p = Ret p' ∧ workers p' = workers p ∧ currentSize p' = currentSize p ∧ terminating p' = terminating p ∧
    ∀ w wk, objs p !! w = Some wk → marked e req p p' 0 (currentSize p) w wk.
Proof.
  intros I Hc. destruct (rac_loop_spec e req (Z.to_nat (currentSize p)) 0 p) as (p' & E1 & W & C & T & M); [lia|lia| |].
  - intros w Hw. apply (inv_alloc _ _ _ I), (inv_known _ _ _ I). auto.
  - exists p'. split_and!; try done. intros w wk Hw. specialize (M w wk Hw). by rewrite Z2Nat.id in M by lia.
Qed.

Lemma turn_bounds e req size j : 0 <= RacRestartWindow app → RacRestartWindow app * size < 2 ^ 63 → 0 <= j < size →
  start_at e req <= turn e req size j <= start_at e req + (if delay req then RacRestartWindow app else 0).
Proof.
  intros Hw Hm Hj. unfold turn. destruct (delay req); [|lia]. rewrite i64_id by (unfold in_i64; nia).
  rewrite Z.quot_div_nonneg by nia. assert (0 <= RacRestartWindow app * j / size) by (apply Z.div_pos; nia).
  assert (RacRestartWindow app * j / size <= RacRestartWindow app) by (apply Z.div_le_upper_bound; nia). lia.
Qed.

(** The maintenance of an instance is given to exactly the workers of a pool that are
    connected to it and were started before the announced time: each is to exit not before
    that time or now, whichever is later, and within the restart window after it, or at
    once when the restart is forced. No other worker is touched. *)
Theorem maintenance_window e req (p : Pool) l : inv (qrep := qrep) ∅ p l → 0 <= currentSize p <= zlen (workers p) →
  0 <= RacRestartWindow app → RacRestartWindow app * currentSize p < 2 ^ 63 →
  ∃ p', pool_RacMaint e req p = Ret p' ∧ ∀ w wk, objs p !! w = Some wk → ∃ wk', objs p' !! w = Some wk' ∧
    if target req wk && bool_decide (Some w ∈ take (Z.to_nat (currentSize p)) (workers p)) then
      wk' = set_exitTime (exitTime wk') wk ∧
      start_at e req <= exitTime wk' <= start_at e req + (if delay req then RacRestartWindow app else 0)
    else wk' = wk.
Proof.
  intros I Hc Hw Hm. destruct (pool_RacMaint_spec e req p l I Hc) as (p' & E1 & _ & _ & _ & M). exists p'. split; [done|].
  intros w wk Hwk. destruct (M w wk Hwk) as [(E2 & H)|(Ht & j & [Hj Hs] & E2)].
  - exists wk. split; [done|]. destruct (target req wk && _) eqn:B; [|done]. apply andb_true_iff in B as [Bt Bi%bool_decide_eq_true].
    destruct H as [?|H]; [congruence|]. apply list_elem_of_lookup in Bi as [k Hk].
    apply lookup_take_Some in Hk as [Hk1 Hk2]. destruct (H (Z.of_nat k)). split; [lia|]. by rewrite Nat2Z.id.
  - eexists. split; [exact E2|]. rewrite Ht, bool_decide_true.
    + cbn [andb]. split; [done|]. change (exitTime (set_exitTime ?t wk)) with t. apply turn_bounds; [done|done|lia].
    + apply list_elem_of_lookup. exists (Z.to_nat j). apply lookup_take_Some. split; [done|lia].
Qed.

(** ** Restarts that never come *)

(** A worker whose time has not come is left alone by the check of the life spans. *)
Lemma lifespan_spares e due cut n i (p p' : Pool) w wk : objs p !! w = Some wk → exitTime wk = 0 ∨ now_s e < exitTime wk →
  (w ∉ terminating p) → lifespan_loop app e due cut n i p = Ret p' →
  objs p' !! w = Some wk ∧ workers p' = workers p ∧ currentSize p' = currentSize p ∧ (w ∉ terminating p').
Proof.
  intros Hw Ht. revert i p Hw. induction n as [|n IH]; intros i p Hw Hn; cbn [lifespan_loop]; [by intros <-%Ret_inj|].
  intros (p1 & H1 & H2)%bind_Ret.
  assert (K : objs p1 !! w = Some wk ∧ workers p1 = workers p ∧ currentSize p1 = currentSize p ∧ (w ∉ terminating p1)).
  { unfold lifespan_one in H1. apply bind_Ret in H1 as (slot & _ & H1). destruct slot as [v|]; [|by apply Ret_inj in H1 as <-].
    apply bind_Ret in H1 as (vk & Hv & H1). unfold deref in Hv. destruct (objs p !! v) as [vk'|] eqn:Ev; [|done]. injection Hv as ->.
    destruct (decide (v = w)) as [->|Hne].
    - rewrite Hw in Ev. injection Ev as <-. destruct (negb (exitTime wk =? 0) && (exitTime wk <=? now_s e)) eqn:B; [|by apply Ret_inj in H1 as <-].
      apply andb_true_iff in B as [B1%negb_true_iff%Z.eqb_neq B2%Z.leb_le]. lia.
    - assert (Hk : ∀ q, objs (terminate v (update (set_exitTime 0) v (set_activeQ q p))) !! w = Some wk ∧
        (w ∉ terminating (terminate v (update (set_exitTime 0) v (set_activeQ q p))))).
      { intros q. cbn. split; [by rewrite lookup_alter_ne|]. set_solver. }
      destruct (_ && _); [|by apply Ret_inj in H1 as <-]. apply bind_Ret in H1 as ([q rm] & _ & H1).
      destruct rm; [apply Ret_inj in H1 as <-; destruct (Hk q); done|].
      destruct (_ && _); apply Ret_inj in H1 as <-; [destruct (Hk q); done|done]. }
  destruct K as (K1 & K2 & K3 & K4). destruct (IH (i + 1) p1 K1 K4 H2) as (J1 & J2 & J3 & J4). split_and!; congruence.
Qed.

(** A poll that starts the maintenance, and the check of the life spans before the next. *)
Record cycle := mkCycle { c_poll : env; c_req : racAct; c_check : env; c_ops : OpsConfig; c_skip : Z; c_cut : Z }.

Fixpoint cycles (cs : list cycle) (p : Pool) : result Pool :=
  match cs with
  | [] => Ret p
  | c :: cs =>
    p ← pool_RacMaint (c_poll c) (c_req c) p;
    '(p, _) ← checkWorkerLifespan app (c_ops c) (c_check c) (c_skip c) (c_cut c) p;
    cycles cs p
  end.

(** When the polls start the maintenance of a pool again and again, and come more often
    than it is the turn of a worker, that worker is never restarted: every poll moves its
    time of exit further away. *)
Theorem restart_postponed cs (p p' : Pool) l w wk i : inv (qrep := qrep) ∅ p l → 0 <= i < currentSize p → currentSize p <= zlen (workers p) →
  (∀ j, workers p !! j = Some (Some w) ↔ j = Z.to_nat i) → objs p !! w = Some wk → (w ∉ terminating p) →
  Forall (λ c, target (c_req c) wk = true ∧ now_s (c_check c) < turn (c_poll c) (c_req c) (currentSize p) i) cs →
  cycles cs p = Ret p' → w ∉ terminating p'.
Proof.
  revert p l wk. induction cs as [|c cs IH]; intros p l wk I Hi Hc Hu Hw Hn Hf; cbn [cycles]; [by intros <-%Ret_inj|].
  apply Forall_cons in Hf as [[Ht Hlt] Hf]. destruct (pool_RacMaint_spec (c_poll c) (c_req c) p l I) as (p1 & E1 & W1 & C1 & T1 & M); [lia|].
  rewrite E1. cbn [mbind result_bind]. pose proof (rac_loop_ok app (qrep := qrep) _ _ _ _ _ _ _ p l p1 I E1) as Hsc. pose proof (inv_core _ _ _ _ Hsc I) as I1.
  intros ([p2 x] & E2 & E3)%bind_Ret. unfold checkWorkerLifespan in E2. destruct (if c_skip c <? 90 then _ else _) as [sk ct].
  apply bind_Ret in E2 as (p3 & E2 & [= -> _]%Ret_inj).
  set (wk1 := set_exitTime (turn (c_poll c) (c_req c) (currentSize p) i) wk).
  assert (Hw1 : objs p1 !! w = Some wk1).
  { destruct (M w wk Hw) as [(_ & [?|H])|(_ & j & [Hj Hs] & ->)]; [congruence| |].
    - destruct (H i). split; [lia|]. by apply Hu.
    - apply Hu in Hs. assert (j = i) as -> by lia. done. }
  destruct (lifespan_spares (c_check c) (sk =? 0) ct (Z.to_nat (currentSize p1)) 0 p1 p2 w wk1) as (J1 & J2 & J3 & J4); [done|by right|by rewrite T1|done|].
  destruct (lifespan_loop_ok app (qrep := qrep) _ _ _ _ _ _ p1 l p2 I1 E2) as (l2 & I2 & _).
  eapply (IH p2 l2 wk1); [done|lia|rewrite J2, W1; lia|rewrite J2, W1; done|done|done| |done].
  eapply Forall_impl; [exact Hf|]. intros c' [H1 H2]. rewrite J3, C1. done.
Qed.
End pool.

(** ** A proxy and a pool of two workers *)

Definition ex_row : racCfg := mkRacCfg 3 (str "R") 100 (str "HERA").
Definition ex_row_taf : racCfg := mkRacCfg 3 (str "R") 200 (str "HERA_TAF").
Definition ex_prev : list racCfg := first_prev.
Abbreviation ex_rac := (racMaint (P := ring_pool) sample_app 0).

Lemma maintenance_once_witness : ∃ prev' acts, ex_rac (Rows [Some ex_row]) ex_broker first_prev = Ret (prev', acts) ∧
  ((0, 0, 0), mkRacAct 3 100 true) ∈ acts ∧ polls sample_app 0 [(Rows [Some ex_row], ex_broker)] prev' = Ret (prev', []).
Proof.
  destruct (maintenance_once (P := ring_pool) sample_app 0 [ex_row] ex_broker first_prev [ex_broker]) as (prev' & acts & E1 & H & E2).
  - reflexivity.
  - vm_compute. split; congruence.
  - repeat constructor; vm_compute; congruence.
  - apply NoDup_singleton.
  - exists prev', acts. split; [exact E1|]. split; [|exact E2]. apply H. exists ex_row. split; [by left|]. split.
    + intros (old & Ho & Hc). vm_compute in Ho. injection Ho as <-. vm_compute in Hc. discriminate.
    + exists wtypeRW. split; [reflexivity|]. split; [left; reflexivity|]. vm_compute. by eexists.
Defined.

Lemma instance_16_panics_witness : ex_rac (Rows [Some ex_row; Some (mkRacCfg 16 (str "R") 100 (str "HERA"))]) ex_broker first_prev = Panic.
Proof.
  apply (instance_16_panics (P := ring_pool) sample_app 0 [ex_row] (mkRacCfg 16 (str "R") 100 (str "HERA")) [] ex_broker first_prev).
  - reflexivity.
  - vm_compute. split; congruence.
  - repeat constructor; vm_compute; congruence.
  - apply NoDup_singleton.
  - left. reflexivity.
Defined.

Lemma two_modules_repeat_witness : ∃ prev' acts,
  polls (P := ring_pool) sample_app 0 (replicate 3 (Rows [Some ex_row; Some ex_row_taf], ex_broker)) prev' = Ret (prev', acts) ∧ length acts = 3%nat.
Proof.
  destruct (two_modules_repeat (P := ring_pool) sample_app 0 ex_row ex_row_taf ex_broker first_prev) as (prev' & acts & a1 & a2 & _ & E1 & E2 & H).
  - reflexivity.
  - vm_compute. split; congruence.
  - reflexivity.
  - vm_compute. split; congruence.
  - reflexivity.
  - assert (Ea : a1 = [((0, 0, 0), mkRacAct 3 100 true)] ∧ a2 = []).
    { vm_compute in E1, E2. injection E1 as <-. injection E2 as <-. done. }
    destruct Ea as [-> ->]. eexists prev', _. split; [exact (H 3%nat)|reflexivity].
Defined.

Definition ex_pool : ring_pool := WorkerPool.example_pool WorkerPool.example_ops1.
Definition ex_req : racAct := mkRacAct 0 100 true.
Definition ex_at (t : Z) : WorkerPool.env := WorkerPool.mkEnv 1000 t 1000 (λ _, 0).
Definition ex_cycles : list cycle :=
  [mkCycle (ex_at 1000) ex_req (ex_at 1009) sample_cfg 0 0; mkCycle (ex_at 1010) ex_req (ex_at 1019) sample_cfg 0 0].

Lemma ex_pool_inv : ∃ l, WorkerPool.inv (qrep := RingQueue.rep) ∅ ex_pool l.
Proof. apply WorkerPool.example_inv; vm_compute; reflexivity. Qed.

Lemma maintenance_window_witness : ∃ p' wk, pool_RacMaint sample_app (ex_at 1000) ex_req ex_pool = Ret p' ∧
  WorkerPool.objs p' !! 1%nat = Some wk ∧ 1000 <= exitTime wk <= 1240.
Proof.
  destruct ex_pool_inv as [l I].
  destruct (maintenance_window sample_app (ex_at 1000) ex_req ex_pool l I) as (p' & E1 & H).
  - vm_compute. split; congruence.
  - vm_compute. congruence.
  - vm_compute. reflexivity.
  - assert (Hw : is_Some (WorkerPool.objs ex_pool !! 1%nat)) by (vm_compute; by eexists). destruct Hw as [wk Hw].
    destruct (H 1%nat wk Hw) as (wk' & Hw' & Hx). exists p', wk'. split; [exact E1|]. split; [exact Hw'|].
    vm_compute in Hw. injection Hw as <-. vm_compute in Hx. destruct Hx as [_ Hx]. exact Hx.
Defined.

Lemma restart_postponed_witness : match cycles sample_app ex_cycles ex_pool with Ret p' => 1%nat ∉ WorkerPool.terminating p' | _ => False end.
Proof.
  destruct ex_pool_inv as [l I]. destruct (cycles sample_app ex_cycles ex_pool) as [p'| | | |] eqn:Ep; try (exfalso; revert Ep; vm_compute; discriminate).
  assert (Hw : is_Some (WorkerPool.objs ex_pool !! 1%nat)) by (vm_compute; by eexists). destruct Hw as [wk Hw].
  apply (restart_postponed sample_app ex_cycles ex_pool p' l 1%nat wk 1 I).
  - vm_compute. split; congruence.
  - vm_compute. congruence.
  - intros j. change (WorkerPool.workers ex_pool) with [Some 0%nat; Some 1%nat]. split; [|intros ->; reflexivity].
    intros Hj. destruct j as [|[|j]]; [discriminate|reflexivity|by destruct j].
  - exact Hw.
  - vm_compute. intros H. inversion H.
  - vm_compute in Hw. injection Hw as <-. repeat constructor; vm_compute; congruence.
  - exact Ep.
Defined.

End RacMaint.
