(* ===== verification/StateReport.v ===== *)
(** * The periodic report of the state log (lib/statelog.go): its titles, its header, and a
    line and a heartbeat for each pool of workers. *)

From S2P Require Import Prelude Codes Config Fmt WorkerClient AdaptiveQueue WorkerPool StateLog.
From stdpp Require Import base list gmap strings.
From Stdlib Require Import ZArith Lia.
Import Config StateLog.
Open Scope Z_scope.

Module StateReport.
Import Codes Fmt WorkerClient WorkerPool.

(** ** Titles *)

Definition StateNames : list bytes :=
  [str "init"; str "acpt"; str "wait"; str "busy"; str "schd"; str "fnsh"; str "quce";
   str "asgn"; str "idle"; str "bklg"; str "strd"; str "cls"].

(** [%6s], [%6d] and [%-11s] *)
Definition pad_left (n : nat) (s : bytes) : bytes := replicate (n - length s) 32 ++ s.
Definition pad_right (n : nat) (s : bytes) : bytes := s ++ replicate (n - length s) 32.

(** The columns of a line: the last state, closed, is not reported. *)
Definition columns : nat := Z.to_nat MaxWorkerState + MaxConnState - 1.

Definition mStateHeader : bytes := str "-----------" ++ concat (map (pad_left 6) (take columns StateNames)).

Definition typeTitlePrefix (app : Config) (t : HeraWorkerType) : bytes :=
  match t with
  | wtypeRW => if ReadonlyPct app =? 0 then StateLogPrefix app else StateLogPrefix app ++ str ".w"
  | wtypeRO => StateLogPrefix app ++ str ".r"
  | wtypeStdBy => StateLogPrefix app ++ str ".taf"
  end.

Definition type_title (app : Config) (ops : OpsConfig) (s : Z) (t : HeraWorkerType) (i : Z) : bytes :=
  typeTitlePrefix app t ++
  (if 1 <? instCnt (pool_cfg app ops s t) then itoa (i + 1) else []) ++
  (if EnableSharding app && (1 <=? NumOfShards (Sharding app)) then str ".sh" ++ itoa s else []).

(** [getTime] *)
Definition getTime (year month day hour min sec : Z) : bytes :=
  pad2 month ++ str "/" ++ pad2 day ++ str "/" ++ itoa year ++ str " " ++
  pad2 hour ++ str ":" ++ pad2 min ++ str ":" ++ pad2 sec ++ str ": ".

(** ** The report *)

Abbreviation pool_key := (Z * HeraWorkerType * Z)%type.

#[export] Instance worker_type_eq_dec : EqDecision HeraWorkerType.
Proof. solve_decision. Defined.

#[export] Instance worker_type_countable : Countable HeraWorkerType.
Proof.
  refine {| encode t := match t with wtypeRW => 1%positive | wtypeRO => 2%positive | wtypeStdBy => 3%positive end;
            decode p := match p with 1%positive => Some wtypeRW | 2%positive => Some wtypeRO | 3%positive => Some wtypeStdBy | _ => None end |}.
  by intros [].
Defined.

(** What the report keeps: when the header is due, and the requests and responses of each
    pool at the last report. The two arrays have an entry, at first zero, for each pool of
    the log. *)
Record report := mkReport { mWriteHeader : Z; mLastReqCnt : gmap pool_key Z; mLastRspCnt : gmap pool_key Z }.

Definition mWriteHeaderInterval : Z := 20.
Definition new_report : report := mkReport 0 ∅ ∅.

Definition last_of (m : gmap pool_key Z) (k : pool_key) : Z := default 0 (m !! k).

(** The heartbeat of a pool. *)
Record heartbeat := mkHeartbeat { hb_pool : pool_key; hb_name : bytes; hb_data : list (bytes * Z) }.

(** The state of [genReport]: the lines and the heartbeats so far. *)
Record output := mkOutput { o_report : report; o_lines : list bytes; o_beats : list heartbeat }.

(** [stateCnt[workerState.state]++] and the sums over the workers of a pool. *)
Fixpoint worker_loop (ws : list WorkerStateInfo) (cnt : list Z) (req resp : Z) : result (list Z * Z * Z) :=
  match ws with
  | [] => Ret (cnt, req, resp)
  | w :: ws =>
    x ← index_get cnt (ws_state w);
    cnt ← index_set cnt (ws_state w) (x + 1);
    worker_loop ws cnt (i64 (req + ws_req w)) (i64 (resp + ws_resp w))
  end.

(** The counts of the connections; a negative one is shown as zero. *)
Fixpoint conn_loop (n : nat) (c : Z) (counts : list Z) (cnt : list Z) : result (list Z) :=
  match n with
  | O => Ret cnt
  | S n =>
    x ← index_get counts c;
    cnt ← index_set cnt (MaxWorkerState + c) (if x <? 0 then 0 else x);
    conn_loop n (c + 1) counts cnt
  end.

Section report.
Context (app : Config) (ops : OpsConfig) (stamp : nat → bytes).

Definition println (line : bytes) (lines : list bytes) : list bytes := lines ++ [stamp (length lines) ++ line ++ [10]].

(** One pool. *)
Definition report_cell (sl : StateLog) (s : Z) (t : HeraWorkerType) (n : Z) (out : output) : result output :=
  ws ← cell (mWorkerStates sl) s t n;
  match ws with
  | [] => Ret out
  | _ =>
    '(cnt, req, resp) ← worker_loop ws (replicate (Z.to_nat MaxWorkerState + MaxConnState) 0) 0 0;
    counts ← cell (mConnStates sl) s t n;
    cnt ← conn_loop MaxConnState 0 counts cnt;
    let r := o_report out in
    let title := type_title app ops s t n in
    let line := pad_right 11 title ++ concat (map (λ x, pad_left 6 (itoa x)) (take columns cnt)) in
    let data := zip (take columns StateNames) (take columns cnt) ++
      [(str "req", i64 (req - last_of (mLastReqCnt r) (s, t, n))); (str "resp", i64 (resp - last_of (mLastRspCnt r) (s, t, n)))] in
    Ret (mkOutput (mkReport (mWriteHeader r) (<[(s, t, n) := req]> (mLastReqCnt r)) (<[(s, t, n) := resp]> (mLastRspCnt r)))
      (println line (o_lines out)) (o_beats out ++ [mkHeartbeat (s, t, n) title data]))
  end.

Definition report_type (sl : StateLog) (s : Z) (t : HeraWorkerType) (out : output) : result output :=
  ty ← insts (mWorkerStates sl) s t;
  for_range (length ty) 0 (report_cell sl s t) out.

Definition report_shard (sl : StateLog) (s : Z) (out : output) : result output :=
  out ← report_type sl s wtypeRW out;
  out ← report_type sl s wtypeRO out;
  report_type sl s wtypeStdBy out.

(** [genReport], with a log file. *)
Definition genReport (sl : StateLog) (r : report) : result output :=
  let n := mWriteHeader r - 1 in
  let out :=
    if n <=? 0 then mkOutput (mkReport mWriteHeaderInterval (mLastReqCnt r) (mLastRspCnt r)) (println mStateHeader []) []
    else mkOutput (mkReport n (mLastReqCnt r) (mLastRspCnt r)) [] [] in
  for_range (Z.to_nat (maxShardSize sl)) 0 (report_shard sl) out.

(** ** The goroutine of the state log *)

(** It takes an event from its channel, or its timer fires. *)
Inductive log_step : Type := LogEvent (s : Z) (t : HeraWorkerType) (n : Z) (e : StateEvent) | LogReport.

Fixpoint log_run (steps : list log_step) (sl : StateLog) (r : report) (beats : list heartbeat) : result (StateLog * report * list heartbeat) :=
  match steps with
  | [] => Ret (sl, r, beats)
  | LogEvent s t n e :: steps => sl ← process_event s t n e sl; log_run steps sl r beats
  | LogReport :: steps => out ← genReport sl r; log_run steps sl (o_report out) (beats ++ o_beats out)
  end.
End report.

(** ** The counts of a pool *)

Definition state_ok (w : WorkerStateInfo) : Prop := 0 <= ws_state w < MaxWorkerState.

Lemma in_state_cons st w ws : in_state st (w :: ws) = (if bool_decide (ws_state w = st) then 1 else 0) + in_state st ws.
Proof. unfold in_state. rewrite filter_cons. case_decide as H; [rewrite bool_decide_true by done|rewrite bool_decide_false by done]; cbn [length]; lia. Qed.

Lemma worker_loop_ok ws cnt req resp : Forall state_ok ws → (Z.to_nat MaxWorkerState <= length cnt)%nat → in_i64 req → in_i64 resp →
  ∃ cnt', worker_loop ws cnt req resp = Ret (cnt', i64 (req + sum ws_req ws), i64 (resp + sum ws_resp ws)) ∧
    length cnt' = length cnt ∧ ∀ i : nat, cnt' !! i = (λ x, x + in_state (Z.of_nat i) ws) <$> cnt !! i.
Proof.
  intros Hw. revert cnt req resp. induction Hw as [|w ws [H0 H1] Hw IH]; intros cnt req resp Hl Hq Hp; cbn [worker_loop].
  { exists cnt. cbn [sum foldr]. rewrite !Z.add_0_r, !i64_id by done. split_and!; try done. intros i. destruct (cnt !! i); cbn; [f_equal; unfold in_state; cbn; lia|done]. }
  destruct (lookup_lt_is_Some_2 cnt (Z.to_nat (ws_state w))) as [x Hx]; [lia|].
  assert (Eg : index_get cnt (ws_state w) = Ret x) by (unfold index_get; by rewrite (proj2 (Z.leb_le _ _)), Hx). rewrite Eg. cbn [mbind result_bind].
  apply lookup_lt_Some in Hx as Hxl.
  assert (Es : index_set cnt (ws_state w) (x + 1) = Ret (<[Z.to_nat (ws_state w) := x + 1]> cnt)).
  { unfold index_set. rewrite (proj2 (Z.leb_le 0 _)), (proj2 (Z.ltb_lt _ (zlen cnt))) by lia. done. }
  rewrite Es. cbn [mbind result_bind].
  destruct (IH (<[Z.to_nat (ws_state w) := x + 1]> cnt) (i64 (req + ws_req w)) (i64 (resp + ws_resp w))) as (cnt' & -> & L & C);
    [by rewrite length_insert|apply i64_range|apply i64_range|].
  exists cnt'. rewrite length_insert in L. split_and!; [|done|].
  - rewrite !sum_cons. do 2 f_equal; [f_equal|]; rewrite Z.add_assoc; apply eqm_add; try done; apply i64_eqm.
  - intros i. rewrite C. destruct (decide (i = Z.to_nat (ws_state w))) as [->|Hne].
    + rewrite list_lookup_insert_eq, Hx by lia. cbn. rewrite in_state_cons, bool_decide_true by lia. f_equal. lia.
    + rewrite list_lookup_insert_ne by done. destruct (cnt !! i); cbn; [|done]. rewrite in_state_cons, bool_decide_false by lia. done.
Qed.

(** The twelve counts of a pool: the workers in each state and the connections. *)
Definition pool_counts (ws : list WorkerStateInfo) (counts : list Z) : list Z :=
  map (λ i, in_state (Z.of_nat i) ws) (seq 0 (Z.to_nat MaxWorkerState)) ++ map (Z.max 0) counts.

Lemma conn_loop_ok counts cnt : length counts = MaxConnState → length cnt = (Z.to_nat MaxWorkerState + MaxConnState)%nat →
  conn_loop MaxConnState 0 counts cnt = Ret (take (Z.to_nat MaxWorkerState) cnt ++ map (Z.max 0) counts).
Proof.
  intros H1 H2. assert (M : ∀ x, (if x <? 0 then 0 else x) = Z.max 0 x) by (intros x; destruct (Z.ltb_spec x 0); lia).
  do 6 (destruct counts as [|? counts]; try done). do 13 (destruct cnt as [|? cnt]; try done).
  cbn [map]. rewrite <- !M. reflexivity.
Qed.

Lemma pool_counts_ok ws counts : Forall state_ok ws → length counts = MaxConnState →
  ∃ cnt, worker_loop ws (replicate (Z.to_nat MaxWorkerState + MaxConnState) 0) 0 0 = Ret (cnt, i64 (sum ws_req ws), i64 (sum ws_resp ws)) ∧
    conn_loop MaxConnState 0 counts cnt = Ret (pool_counts ws counts).
Proof.
  intros Hw Hc. destruct (worker_loop_ok ws (replicate (Z.to_nat MaxWorkerState + MaxConnState) 0) 0 0) as (cnt & E1 & L & C);
    [done|rewrite length_replicate; lia|done|done|].
  rewrite length_replicate in L. exists cnt. split; [done|]. rewrite conn_loop_ok by done. do 2 f_equal. unfold pool_counts. f_equal.
  apply list_eq. intros i. destruct (decide (i < Z.to_nat MaxWorkerState)%nat) as [Hi|Hi].
  - rewrite lookup_take_lt, C, lookup_replicate_2 by (cbn in *; lia). rewrite list_lookup_fmap, lookup_seq_lt by done. done.
  - rewrite lookup_take_ge, list_lookup_fmap, lookup_seq_ge by lia. done.
Qed.

(** ** The pools of the log *)

(** A loop over a list. *)
Fixpoint each {A St : Type} (f : A → St → result St) (l : list A) (st : St) : result St :=
  match l with
  | [] => Ret st
  | x :: l => st ← f x st; each f l st
  end.

Lemma each_app {A St} (f : A → St → result St) l1 l2 st : each f (l1 ++ l2) st = (st ← each f l1 st; each f l2 st).
Proof. revert st. induction l1 as [|x l1 IH]; intros st; cbn [app each]; [done|]. destruct (f x st); cbn [mbind result_bind]; [apply IH|done..]. Qed.

Lemma for_range_each {St} n i (body : Z → St → result St) st :
  for_range n i body st = each body (map (λ j, i + Z.of_nat j) (seq 0 n)) st.
Proof.
  revert i st. induction n as [|n IH]; intros i st; [done|]. cbn [for_range seq map each]. rewrite Z.add_0_r.
  destruct (body i st); cbn [mbind result_bind]; [|done..]. rewrite IH. f_equal. rewrite <- (fmap_S_seq 0 n), <- list_fmap_compose.
  apply list_fmap_ext. intros ? j _. cbn. lia.
Qed.

Lemma each_bind {A C St} (f : A → St → result St) (g : C → list A) l st : each f (l ≫= g) st = each (λ x, each f (g x)) l st.
Proof.
  revert st. induction l as [|x l IH]; intros st; [done|]. cbn [mbind list_bind each]. rewrite each_app.
  destruct (each f (g x) st); cbn [mbind result_bind]; [apply IH|done..].
Qed.

Lemma each_map {A C St} (f : A → St → result St) (g : C → A) l st : each f (map g l) st = each (λ x, f (g x)) l st.
Proof. revert st. induction l as [|x l IH]; intros st; [done|]. cbn [map each]. destruct (f (g x) st); cbn [mbind result_bind]; [apply IH|done..]. Qed.

Lemma each_ext {A St} (f g : A → St → result St) l st : (∀ x st, x ∈ l → f x st = g x st) → each f l st = each g l st.
Proof.
  revert st. induction l as [|x l IH]; intros st H; [done|]. cbn [each]. rewrite H by (by left). destruct (g x st); cbn [mbind result_bind]; try done.
  apply IH. intros y st' Hy. apply H. by right.
Qed.

(** The instances of a type of workers of a shard. *)
Definition inst_count (sl : StateLog) (s : nat) (t : HeraWorkerType) : nat :=
  match insts (mWorkerStates sl) (Z.of_nat s) t with Ret ty => length ty | _ => 0 end.

(** The pools in the order of the report. *)
Definition pools (sl : StateLog) : list pool_key :=
  s ← seq 0 (length (mWorkerStates sl)); t ← wtypes; n ← seq 0 (inst_count sl s t); [(Z.of_nat s, t, Z.of_nat n)].

(** A log whose worker states are states. *)
Record report_ok (sl : StateLog) : Prop := {
  ro_log : log_ok sl;
  ro_states : Forall (Forall (Forall (Forall state_ok))) (mWorkerStates sl)
}.

Lemma pools_NoDup sl : NoDup (pools sl).
Proof.
  unfold pools. apply NoDup_bind; [| |apply NoDup_ListNoDup, seq_NoDup].
  - intros s1 s2 k _ _ (t1 & (i1 & ->%list_elem_of_singleton & _)%list_elem_of_bind & _)%list_elem_of_bind
      (t2 & (i2 & [= E1 _ _]%list_elem_of_singleton & _)%list_elem_of_bind & _)%list_elem_of_bind. lia.
  - intros s0 _. apply NoDup_bind; [| |unfold wtypes; rewrite !NoDup_cons; split_and!; [set_solver..|apply NoDup_nil_2]].
    + intros t1 t2 k _ _ (i1 & ->%list_elem_of_singleton & _)%list_elem_of_bind (i2 & [= E1 _]%list_elem_of_singleton & _)%list_elem_of_bind. done.
    + intros t _. apply NoDup_bind; [| |apply NoDup_ListNoDup, seq_NoDup].
      * intros i1 i2 k _ _ ->%list_elem_of_singleton [= E1]%list_elem_of_singleton. lia.
      * intros i _. apply NoDup_singleton.
Qed.

Section facts.
Context (app : Config) (ops : OpsConfig) (stamp : nat → bytes).

Definition report_pool (sl : StateLog) (k : pool_key) (out : output) : result output :=
  let '(s, t, n) := k in report_cell app ops stamp sl s t n out.

Lemma insts_ok (sl : StateLog) s t : log_ok sl → (s < length (mWorkerStates sl))%nat → ∃ ty, insts (mWorkerStates sl) (Z.of_nat s) t = Ret ty.
Proof.
  intros [Hz Hf] Hs. destruct (lookup_lt_is_Some_2 _ _ Hs) as [ws Hw]. destruct (Forall2_lookup_l _ _ _ _ _ Hf Hw) as (sh & Hsh & [H3 Hi _ _]).
  assert (Hl : length ws = 3%nat) by (rewrite <- H3, <- (length_map length sh), <- Hi, length_map; done).
  unfold insts. rewrite (index_get_lookup _ _ _ Hw). cbn [mbind result_bind].
  destruct (lookup_lt_is_Some_2 ws (Z.to_nat (wnum t))) as [ty Ht]; [rewrite Hl; destruct t; cbn; lia|].
  exists ty. pose proof (index_get_lookup ws _ ty Ht) as E1. by rewrite Z2Nat.id in E1 by (destruct t; done).
Qed.

Lemma genReport_pools sl out : log_ok sl →
  for_range (Z.to_nat (maxShardSize sl)) 0 (report_shard app ops stamp sl) out = each (report_pool sl) (pools sl) out.
Proof.
  intros Hl. pose proof Hl as [Hz Hf]. rewrite Hz, Nat2Z.id, <- (Forall2_length _ _ _ Hf), for_range_each, each_map. unfold pools. rewrite each_bind.
  apply each_ext. intros s st Hs%elem_of_seq. rewrite each_bind. unfold wtypes. cbn [each]. unfold report_shard. cbn [Z.add].
  assert (Et : ∀ t st, report_type app ops stamp sl (Z.of_nat s) t st = each (report_pool sl) (n ← seq 0 (inst_count sl s t); [(Z.of_nat s, t, Z.of_nat n)]) st).
  { intros t st'. unfold report_type, inst_count. destruct (insts_ok sl s t Hl) as [ty ->]; [lia|]. cbn [mbind result_bind].
    rewrite for_range_each, each_map, each_bind. apply each_ext. intros n st2 _. cbn [each report_pool]. rewrite Z.add_0_l.
    by destruct (report_cell _ _ _ _ _ _ _ _). }
  rewrite !Et. destruct (each _ _ st) as [st1| | | |]; cbn [mbind result_bind]; try done. rewrite Et.
  destruct (each _ _ st1) as [st2| | | |]; cbn [mbind result_bind]; try done. rewrite Et. by destruct (each _ _ st2).
Qed.

Definition workers_of (sl : StateLog) (k : pool_key) : list WorkerStateInfo :=
  let '(s, t, n) := k in match cell (mWorkerStates sl) s t n with Ret ws => ws | _ => [] end.
Definition conns_of (sl : StateLog) (k : pool_key) : list Z :=
  let '(s, t, n) := k in match cell (mConnStates sl) s t n with Ret c => c | _ => [] end.

(** The line and the heartbeat of a pool. *)
Definition title_of (k : pool_key) : bytes := let '(s, t, n) := k in type_title app ops s t n.
Definition counts_of (sl : StateLog) (k : pool_key) : list Z := take columns (pool_counts (workers_of sl k) (conns_of sl k)).
Definition line_of (sl : StateLog) (k : pool_key) : bytes :=
  pad_right 11 (title_of k) ++ concat (map (λ x, pad_left 6 (itoa x)) (counts_of sl k)).
Definition reqs (sl : StateLog) (k : pool_key) : Z := i64 (sum ws_req (workers_of sl k)).
Definition resps (sl : StateLog) (k : pool_key) : Z := i64 (sum ws_resp (workers_of sl k)).
Definition beat_of (sl : StateLog) (r : report) (k : pool_key) : heartbeat :=
  mkHeartbeat k (title_of k) (zip (take columns StateNames) (counts_of sl k) ++
    [(str "req", i64 (reqs sl k - last_of (mLastReqCnt r) k)); (str "resp", i64 (resps sl k - last_of (mLastRspCnt r) k))]).

Definition has_workers (sl : StateLog) (k : pool_key) : bool := negb (bool_decide (workers_of sl k = [])).

Lemma pools_cell sl s t n : report_ok sl → (s, t, n) ∈ pools sl →
  ∃ ws c, cell (mWorkerStates sl) s t n = Ret ws ∧ cell (mConnStates sl) s t n = Ret c ∧ Forall state_ok ws ∧ length c = MaxConnState.
Proof.
  intros [Hl Hst] (s' & H1 & Hs%elem_of_seq)%list_elem_of_bind. apply list_elem_of_bind in H1 as (t' & H2 & _).
  apply list_elem_of_bind in H2 as (n' & [= -> -> ->]%list_elem_of_singleton & Hn%elem_of_seq). unfold inst_count in Hn.
  destruct (insts_ok sl s' t' Hl) as [ty Hty]; [lia|]. rewrite Hty in Hn. destruct (lookup_lt_is_Some_2 ty n') as [ws Hw]; [lia|].
  pose proof Hty as Hty'. unfold insts in Hty'. apply bind_Ret in Hty' as (sh & [Hsh _]%index_get_Ret & [Hshty _]%index_get_Ret). rewrite Nat2Z.id in Hsh.
  destruct Hl as [_ Hf]. destruct (Forall2_lookup_l _ _ _ _ _ Hf Hsh) as (ch & Hch & [H3 Hi _ Hc]).
  assert (El : map length ch !! Z.to_nat (wnum t') = Some (length ty)) by (rewrite <- Hi, list_lookup_fmap, Hshty; done).
  rewrite list_lookup_fmap in El. destruct (ch !! Z.to_nat (wnum t')) as [cty|] eqn:Ect; [|done]. injection El as El.
  destruct (lookup_lt_is_Some_2 cty n') as [c Hcc]; [lia|]. exists ws, c. split_and!.
  - by apply (cell_ok _ s' t' n' sh ty).
  - by apply (cell_ok _ s' t' n' ch cty).
  - rewrite !Forall_lookup in Hst. specialize (Hst _ _ Hsh). rewrite Forall_lookup in Hst. specialize (Hst _ _ Hshty). rewrite Forall_lookup in Hst. eauto.
  - rewrite Forall_lookup in Hc. specialize (Hc _ _ Ect). rewrite Forall_lookup in Hc. eauto.
Qed.

Lemma report_pool_ok sl k out : report_ok sl → k ∈ pools sl →
  report_pool sl k out = Ret (if has_workers sl k then
    let r := o_report out in
    mkOutput (mkReport (mWriteHeader r) (<[k := reqs sl k]> (mLastReqCnt r)) (<[k := resps sl k]> (mLastRspCnt r)))
      (println stamp (line_of sl k) (o_lines out)) (o_beats out ++ [beat_of sl r k]) else out).
Proof.
  intros Hr Hk. destruct k as [[s t] n]. destruct (pools_cell sl s t n Hr Hk) as (ws & c & E1 & E2 & Hw & Hc).
  unfold report_pool, report_cell, has_workers, beat_of, line_of, counts_of, reqs, resps, workers_of, conns_of, title_of. rewrite E1, E2.
  cbn [mbind result_bind]. destruct ws as [|w ws]; [done|]. destruct (pool_counts_ok (w :: ws) c Hw Hc) as (cnt & -> & E3).
  cbn [mbind result_bind]. rewrite E3. done.
Qed.

(** The lines with their times. *)
Definition stamped (raw : list bytes) : list bytes := imap (λ i l, stamp i ++ l ++ [10]) raw.

Lemma println_stamped l raw : println stamp l (stamped raw) = stamped (raw ++ [l]).
Proof. unfold println, stamped. rewrite imap_app, length_imap. cbn [imap]. by rewrite Nat.add_0_r. Qed.

(** The pools that have a line. *)
Definition shown (sl : StateLog) (ks : list pool_key) : list pool_key := filter (λ k, has_workers sl k = true) ks.

Lemma last_insert m k k' x : last_of (<[k := x]> m) k' = if decide (k = k') then x else last_of m k'.
Proof. unfold last_of. case_decide as H; [subst; by rewrite lookup_insert_eq|by rewrite lookup_insert_ne]. Qed.

Lemma beat_of_ext sl r r' k : last_of (mLastReqCnt r) k = last_of (mLastReqCnt r') k → last_of (mLastRspCnt r) k = last_of (mLastRspCnt r') k →
  beat_of sl r k = beat_of sl r' k.
Proof. unfold beat_of. by intros -> ->. Qed.

Lemma report_pools_ok sl ks out raw : report_ok sl → ks ⊆ pools sl → NoDup ks → o_lines out = stamped raw →
  ∃ out', each (report_pool sl) ks out = Ret out' ∧
    o_beats out' = o_beats out ++ map (beat_of sl (o_report out)) (shown sl ks) ∧
    o_lines out' = stamped (raw ++ map (line_of sl) (shown sl ks)) ∧
    mWriteHeader (o_report out') = mWriteHeader (o_report out) ∧
    ∀ k, last_of (mLastReqCnt (o_report out')) k =
      if bool_decide (k ∈ shown sl ks) then reqs sl k else last_of (mLastReqCnt (o_report out)) k.
Proof.
  intros Hr. revert out raw. induction ks as [|k ks IH]; intros out raw Hsub Hn Hraw; cbn [each].
  { exists out. cbn. rewrite !app_nil_r. split_and!; try done. }
  apply NoDup_cons in Hn as [Hni Hn]. rewrite report_pool_ok by (try done; set_solver). cbn [mbind result_bind]. unfold shown. rewrite filter_cons.
  destruct (has_workers sl k) eqn:Hk.
  - rewrite decide_True by done. set (out1 := mkOutput _ (println _ _ _) _).
    destruct (IH out1 (raw ++ [line_of sl k])) as (out' & E1 & B & L & W & Q); [set_solver|done|cbn; by rewrite Hraw, println_stamped|].
    exists out'. split_and!; [done| | |done|].
    + rewrite B. cbn [o_beats out1 map]. rewrite <- app_assoc. cbn [Datatypes.app]. do 2 f_equal. apply map_ext_in. intros k' Hk'.
      apply list_elem_of_In, list_elem_of_filter in Hk' as [_ Hk']. apply beat_of_ext; cbn [o_report out1 mLastReqCnt mLastRspCnt];
        rewrite last_insert, decide_False; try done; by intros <-.
    + rewrite L, <- app_assoc. done.
    + intros k'. rewrite Q. cbn [o_report out1 mLastReqCnt]. rewrite last_insert. destruct (decide (k = k')) as [<-|Hne].
      * rewrite bool_decide_false by (intros [_ ?]%list_elem_of_filter; done). by rewrite bool_decide_true by (by left).
      * rewrite (bool_decide_ext (k' ∈ shown sl ks) (k' ∈ k :: filter (λ k, has_workers sl k = true) ks)); [done|].
        unfold shown. rewrite elem_of_cons. naive_solver.
  - rewrite decide_False by done. destruct (IH out raw) as (out' & E1 & B & L & W & Q); [set_solver|done|done|]. by exists out'.
Qed.

(** The header is due. *)
Definition header_due (r : report) : bool := mWriteHeader r <=? 1.

Lemma genReport_ok sl r : report_ok sl →
  ∃ out, genReport app ops stamp sl r = Ret out ∧
    o_beats out = map (beat_of sl r) (shown sl (pools sl)) ∧
    o_lines out = stamped ((if header_due r then [mStateHeader] else []) ++ map (line_of sl) (shown sl (pools sl))) ∧
    mWriteHeader (o_report out) = (if header_due r then mWriteHeaderInterval else mWriteHeader r - 1) ∧
    ∀ k, last_of (mLastReqCnt (o_report out)) k = if bool_decide (k ∈ shown sl (pools sl)) then reqs sl k else last_of (mLastReqCnt r) k.
Proof.
  intros Hr. unfold genReport. rewrite genReport_pools by apply Hr. unfold header_due.
  replace (mWriteHeader r - 1 <=? 0) with (mWriteHeader r <=? 1) by (destruct (Z.leb_spec (mWriteHeader r) 1), (Z.leb_spec (mWriteHeader r - 1) 0); lia).
  destruct (mWriteHeader r <=? 1).
  - destruct (report_pools_ok sl (pools sl) (mkOutput (mkReport mWriteHeaderInterval (mLastReqCnt r) (mLastRspCnt r)) (println stamp mStateHeader []) []) [mStateHeader])
      as (out & E1 & B & L & W & Q); [done|done|apply pools_NoDup|apply (println_stamped mStateHeader [])|]. exists out. split_and!; try done.
  - destruct (report_pools_ok sl (pools sl) (mkOutput (mkReport (mWriteHeader r - 1) (mLastReqCnt r) (mLastRspCnt r)) [] []) [])
      as (out & E1 & B & L & W & Q); [done|done|apply pools_NoDup|done|]. exists out. split_and!; try done.
Qed.
End facts.

(** ** Runs of the state log *)

Lemma Forall_alter_same {A} (R : A → Prop) (f : A → A) i l : Forall R l → (∀ x, R x → R (f x)) → Forall R (alter f i l).
Proof.
  intros Hl Hf. revert i. induction Hl as [|x l Hx Hl IH]; intros i; [by destruct i|]. destruct i as [|i].
  - constructor; [by apply Hf|done].
  - constructor; [done|apply IH].
Qed.

Lemma Forall2_alter_l {A C} (R : A → C → Prop) (f : A → A) i l l' : Forall2 R l l' → (∀ x y, R x y → R (f x) y) → Forall2 R (alter f i l) l'.
Proof.
  intros Hl Hf. revert i. induction Hl as [|x y l l' Hx Hl IH]; intros i; [by destruct i|]. destruct i as [|i].
  - constructor; [by apply Hf|done].
  - constructor; [done|apply IH].
Qed.

Lemma map_length_alter {A} (g : list A → list A) i (l : list (list A)) : (∀ x, length (g x) = length x) → map length (alter g i l) = map length l.
Proof.
  intros Hg. revert i. induction l as [|x l IH]; intros i; [by destruct i|]. destruct i as [|i].
  - change (alter g 0%nat (x :: l)) with (g x :: l). cbn [map]. by rewrite Hg.
  - change (alter g (S i) (x :: l)) with (x :: alter g i l). cbn [map]. by rewrite IH.
Qed.

Lemma report_ok_workers sl s t n ws : report_ok sl → Forall state_ok ws →
  report_ok (mkLog (alter_cell (λ _, ws) s t n (mWorkerStates sl)) (mConnStates sl) (maxShardSize sl) (maxStndbySize sl)).
Proof.
  intros [[Hz Hf] Hs] Hw. split; [split; [done|]|]; cbn [mWorkerStates mConnStates].
  - apply Forall2_alter_l; [done|]. intros x y []. constructor; try done. rewrite <- so_insts0.
    apply map_length_alter. intros z. apply length_alter.
  - apply Forall_alter_same; [done|]. intros x Hx. apply Forall_alter_same; [done|]. intros y Hy. by apply Forall_alter_same.
Qed.

Lemma cell_states sl s t n ws : report_ok sl → cell (mWorkerStates sl) s t n = Ret ws → Forall state_ok ws.
Proof.
  intros [_ Hs] (sh & ty & H1 & H2 & H3)%cell_Ret. rewrite Forall_lookup in Hs. specialize (Hs _ _ H1).
  rewrite Forall_lookup in Hs. specialize (Hs _ _ H2). rewrite Forall_lookup in Hs. eauto.
Qed.

Lemma process_event_ok s t n e sl sl' : report_ok sl → process_event s t n e sl = Ret sl' → report_ok sl'.
Proof.
  intros Hr. destruct e as [w st|old new|size]; cbn [process_event].
  - unfold setWorkerState. destruct (_ || _) eqn:Eb; [by intros <-%Ret_inj|]. intros (ws & Hc & H)%bind_Ret.
    apply orb_false_iff in Eb as [E1%Z.ltb_ge E2%Z.leb_gt].
    destruct (_ <=? _); [by apply Ret_inj in H as <-|]. apply bind_Ret in H as (x & _ & H). apply bind_Ret in H as (ws' & Hi & <-%Ret_inj).
    apply report_ok_workers; [done|]. unfold index_set in Hi. destruct (_ && _); [|done]. apply Ret_inj in Hi as <-.
    apply Forall_insert; [by eapply cell_states|]. split; cbn; lia.
  - unfold updateConnectionState. destruct (_ || _); [by intros <-%Ret_inj|]. intros (c & _ & <-%Ret_inj)%bind_Ret.
    destruct Hr as [[Hz Hf] Hs]. pose proof (count_state_shape 1 new s t n (mConnStates sl)) as S1.
    pose proof (count_state_shape (-1) old s t n (count_state 1 new s t n (mConnStates sl))) as S2.
    split; [|done]. split; cbn [maxShardSize mConnStates mWorkerStates].
    + by rewrite <- (Forall2_length _ _ _ S2), <- (Forall2_length _ _ _ S1).
    + eapply shards_shape; [|exact S2]. by eapply shards_shape.
  - unfold resizeWorkers. intros (ws & Hc & H)%bind_Ret. apply bind_Ret in H as (c & _ & H). destruct (_ =? _); [by apply Ret_inj in H as <-|].
    apply bind_Ret in H as (ws' & H' & <-%Ret_inj). apply report_ok_workers; [done|]. pose proof (cell_states _ _ _ _ _ Hr Hc) as Hw.
    destruct (_ <? _); [apply Ret_inj in H' as <-; apply Forall_app; split; [done|by apply Forall_replicate]|].
    destruct (_ <? _); [done|]. apply Ret_inj in H' as <-. by apply Forall_take.
Qed.

Lemma init_report_ok app ops : 1 <= shard_count app → report_ok (StateLog_init app ops).
Proof.
  intros Hs. split; [by apply init_log_ok|]. cbn [mWorkerStates StateLog_init]. unfold init_grid.
  apply Forall_map, Forall_true. intros s. apply Forall_map, Forall_true. intros t. apply Forall_replicate, Forall_replicate. done.
Qed.

(** The requests that a heartbeat reports, and those of all heartbeats of a pool. *)
Definition hb_req (hb : heartbeat) : Z := default 0 (snd <$> head (filter (λ x, x.1 = str "req") (hb_data hb))).
Definition reported (k : pool_key) (beats : list heartbeat) : Z := sum (λ hb, if bool_decide (hb_pool hb = k) then hb_req hb else 0) beats.

Lemma reported_app k b1 b2 : reported k (b1 ++ b2) = reported k b1 + reported k b2.
Proof. unfold reported. induction b1 as [|b b1 IH]; cbn [app]; [done|]. rewrite !sum_cons, IH. lia. Qed.

Lemma beat_req app ops sl r k : hb_req (beat_of app ops sl r k) = i64 (reqs sl k - last_of (mLastReqCnt r) k).
Proof.
  unfold hb_req, beat_of. cbn [hb_data]. rewrite filter_app.
  assert (Hz : ∀ cs, filter (λ x : bytes * Z, x.1 = str "req") (zip (take columns StateNames) cs) = []).
  { intros cs. apply elem_of_nil_inv. intros [a c] [Ha Hin]%list_elem_of_filter. cbn in Ha. subst a.
    apply elem_of_zip_l in Hin. revert Hin. apply (bool_decide_unpack _). vm_compute. exact I. }
  by rewrite Hz.
Qed.

Lemma reported_none app ops sl r k ks : k ∉ ks → reported k (map (beat_of app ops sl r) ks) = 0.
Proof.
  induction ks as [|k' ks IH]; [done|]. intros [Hne Hn]%not_elem_of_cons. unfold reported in *. cbn [map]. rewrite sum_cons, IH by done.
  rewrite bool_decide_false by (cbn; done). done.
Qed.

Lemma reported_once app ops sl r k ks : NoDup ks → k ∈ ks →
  reported k (map (beat_of app ops sl r) ks) = i64 (reqs sl k - last_of (mLastReqCnt r) k).
Proof.
  induction ks as [|k' ks IH]; [by intros _ ?%not_elem_of_nil|]. intros [Hni Hn]%NoDup_cons [<-|Hk]%elem_of_cons; unfold reported; cbn [map]; rewrite sum_cons;
    fold (reported k (map (beat_of app ops sl r) ks)).
  - rewrite reported_none by done. rewrite bool_decide_true, beat_req by done. lia.
  - rewrite IH by done. rewrite bool_decide_false; [lia|]. cbn. by intros <-.
Qed.

(** What has been reported of a pool is what it had at its last report. *)
Definition accounted (r : report) (beats : list heartbeat) : Prop := ∀ k, i64 (reported k beats) = i64 (last_of (mLastReqCnt r) k).

Lemma report_accounts app ops stamp sl r beats out : report_ok sl → accounted r beats → genReport app ops stamp sl r = Ret out →
  accounted (o_report out) (beats ++ o_beats out).
Proof.
  intros Hr Ha Hg k. destruct (genReport_ok app ops stamp sl r Hr) as (out' & E1 & B & _ & _ & Q). rewrite Hg in E1. injection E1 as <-.
  rewrite reported_app, B, Q. case_bool_decide as Hk.
  - rewrite reported_once; [|apply (NoDup_filter _ (pools sl)), pools_NoDup|done]. etrans; [apply eqm_add; [exact (Ha k)|apply i64_eqm]|].
    unfold eqm. f_equal. lia.
  - rewrite reported_none by done. rewrite Z.add_0_r. apply Ha.
Qed.

Lemma log_run_ok app ops stamp steps sl r beats sl' r' beats' : report_ok sl → accounted r beats →
  log_run app ops stamp steps sl r beats = Ret (sl', r', beats') → report_ok sl' ∧ accounted r' beats'.
Proof.
  revert sl r beats. induction steps as [|[s t n e|] steps IH]; intros sl r beats Hr Ha; cbn [log_run].
  - by intros [= <- <- <-].
  - intros (sl1 & H1 & H2)%bind_Ret. eapply IH; [|exact Ha|exact H2]. by eapply process_event_ok.
  - intros (out & H1 & H2)%bind_Ret. eapply IH; [exact Hr| |exact H2]. by eapply report_accounts.
Qed.

Lemma log_run_app app ops stamp l1 l2 sl r beats : log_run app ops stamp (l1 ++ l2) sl r beats =
  ('(sl, r, beats) ← log_run app ops stamp l1 sl r beats; log_run app ops stamp l2 sl r beats).
Proof.
  revert sl r beats. induction l1 as [|[s t n e|] l1 IH]; intros sl r beats; cbn [Datatypes.app log_run]; [done| |].
  - destruct (process_event s t n e sl); cbn [mbind result_bind]; [apply IH|done..].
  - destruct (genReport _ _ _ sl r); cbn [mbind result_bind]; [apply IH|done..].
Qed.

Lemma workers_shown sl k : report_ok sl → workers_of sl k ≠ [] → k ∈ shown sl (pools sl).
Proof.
  intros Hr Hw. apply list_elem_of_filter. split; [unfold has_workers; by rewrite bool_decide_false|].
  destruct k as [[s t] n]. unfold workers_of in Hw. destruct (cell (mWorkerStates sl) s t n) as [ws| | | |] eqn:Ec; try done.
  pose proof Ec as Ec'. unfold cell, insts in Ec'. apply bind_Ret in Ec' as (ty & Hi & [Hn Hn0]%index_get_Ret).
  pose proof Hi as Hi'. apply bind_Ret in Hi' as (sh & [Hs Hs0]%index_get_Ret & _).
  unfold pools. apply list_elem_of_bind. exists (Z.to_nat s). split; [|apply elem_of_seq; split; [lia|by apply lookup_lt_Some in Hs]].
  apply list_elem_of_bind. exists t. split; [|destruct t; unfold wtypes; set_solver].
  apply list_elem_of_bind. exists (Z.to_nat n). split; [apply list_elem_of_singleton; rewrite !Z2Nat.id by done; done|].
  apply elem_of_seq. split; [lia|]. unfold inst_count, insts. rewrite Z2Nat.id by done. rewrite Hi. by apply lookup_lt_Some in Hn.
Qed.

(** The report has, after the header when it is due, one line and one heartbeat for each
    pool that has workers, in the order of shards, types and instances, with the number of
    workers in each state and the number of connections in each, none negative; the header
    is due in the first report and in every twentieth after it. *)
Theorem genReport_lines app ops stamp sl r : report_ok sl →
  ∃ out, genReport app ops stamp sl r = Ret out ∧
    o_lines out = imap (λ i l, stamp i ++ l ++ [10])
      ((if mWriteHeader r <=? 1 then [mStateHeader] else []) ++ map (line_of app ops sl) (shown sl (pools sl))) ∧
    o_beats out = map (beat_of app ops sl r) (shown sl (pools sl)) ∧
    mWriteHeader (o_report out) = (if mWriteHeader r <=? 1 then 20 else mWriteHeader r - 1).
Proof. intros Hr. destruct (genReport_ok app ops stamp sl r Hr) as (out & E1 & B & L & W & _). by exists out. Qed.

(** Whatever events the state log has seen since its start and however often it has
    reported, right after a report the requests it has reported of a pool add up to those
    that the workers of the pool have counted, at 64 bits. *)
Theorem reported_requests_add_up app ops stamp steps sl r beats k : 1 <= shard_count app →
  log_run app ops stamp (steps ++ [LogReport]) (StateLog_init app ops) new_report [] = Ret (sl, r, beats) →
  workers_of sl k ≠ [] → i64 (reported k beats) = reqs sl k.
Proof.
  intros Hs Hrun Hk. assert (Ha0 : accounted new_report []) by done.
  destruct (log_run_ok _ _ _ _ _ _ _ _ _ _ (init_report_ok app ops Hs) Ha0 Hrun) as [Hr Ha]. rewrite Ha.
  rewrite log_run_app in Hrun. apply bind_Ret in Hrun as ([[sl1 r1] beats1] & H1 & H2). cbn [log_run] in H2.
  apply bind_Ret in H2 as (out & H2 & [= <- <- <-]). destruct (genReport_ok app ops stamp sl1 r1 Hr) as (out' & E1 & _ & _ & _ & Q).
  rewrite H2 in E1. injection E1 as <-. rewrite Q, bool_decide_true by (by apply workers_shown). apply i64_id, i64_range.
Qed.

(** ** A log of four workers *)

Definition ex_steps : list log_step :=
  [LogEvent 0 wtypeRW 0 (WorkerStateEvt 1 wsBusy); LogReport;
   LogEvent 0 wtypeRW 0 (WorkerStateEvt 1 wsAcpt); LogEvent 0 wtypeRW 0 (WorkerStateEvt 2 wsBusy)].
Definition ex_stamp : nat → bytes := λ _, getTime 2024 5 17 9 30 0.

Lemma genReport_lines_witness : ∃ out, genReport sample_app sample_cfg ex_stamp (StateLog_init sample_app sample_cfg) new_report = Ret out ∧
  length (o_lines out) = 6%nat.
Proof.
  destruct (genReport_lines sample_app sample_cfg ex_stamp (StateLog_init sample_app sample_cfg) new_report) as (out & E1 & L & _).
  - apply init_report_ok. vm_compute. congruence.
  - exists out. split; [exact E1|]. rewrite L. vm_compute. reflexivity.
Defined.

Lemma reported_requests_add_up_witness :
  match log_run sample_app sample_cfg ex_stamp (ex_steps ++ [LogReport]) (StateLog_init sample_app sample_cfg) new_report [] with
  | Ret (_, _, beats) => i64 (reported (0, wtypeRW, 0) beats) = 2
  | _ => False
  end.
Proof.
  destruct (log_run sample_app sample_cfg ex_stamp (ex_steps ++ [LogReport]) (StateLog_init sample_app sample_cfg) new_report []) as [[[sl r] beats]| | | |] eqn:Er;
    try (exfalso; revert Er; vm_compute; discriminate).
  assert (Ew : match log_run sample_app sample_cfg ex_stamp (ex_steps ++ [LogReport]) (StateLog_init sample_app sample_cfg) new_report [] with
    | Ret (sl, _, _) => bool_decide (workers_of sl (0, wtypeRW, 0) = []) = false ∧ reqs sl (0, wtypeRW, 0) = 2 | _ => False end) by (vm_compute; split; reflexivity).
  rewrite Er in Ew. destruct Ew as [Ew%bool_decide_eq_false Eq].
  rewrite (reported_requests_add_up sample_app sample_cfg ex_stamp ex_steps sl r beats (0, wtypeRW, 0)); [exact Eq|vm_compute; congruence|exact Er|exact Ew].
Defined.

End StateReport.
