(* ===== verification/ShardLoad.v ===== *)
(** * Loading the shard map (lib/shardingcfg.go): the statements that read the tables, the
    retries at the start of the proxy and the periodic reload. *)

From S2P Require Import Prelude Config ShardMap.
From stdpp Require Import base list gmap strings.
From Stdlib Require Import ZArith Lia.
Open Scope Z_scope.

Module ShardLoad.
Import Config ShardMap.

(** ** The statements *)

(** [slow] is what the file [slow.<pid>] holds: the statement has the whole buffer of 64
    bytes, of which the file fills at most 63. *)
Definition slow_buf (slow : bytes) : bytes := let s := take 63 slow in s ++ replicate (64 - length s) 0.

Definition getSQL (app : Config) (slow : option bytes) : bytes :=
  match ShardingPostfix (Sharding app) with
  | [] =>
    match slow with
    | Some f =>
      str "SELECT scuttle_id + usleep(" ++ slow_buf f ++ str ") - " ++ slow_buf f ++
      str ", shard_id, read_status, write_status from " ++ ManagementTablePrefix app ++ str "_shard_map where status = 'Y'"
    | None => str "SELECT scuttle_id, shard_id, read_status, write_status from " ++ ManagementTablePrefix app ++ str "_shard_map where status = 'Y'"
    end
  | postfix =>
    str "SELECT scuttle_id, shard_id, read_status, write_status from " ++ ManagementTablePrefix app ++ str "_shard_map_" ++ postfix ++ str " where status = 'Y'"
  end.

Definition getWLSQL (app : Config) : bytes :=
  let skCol := if ShardKeyValueTypeIsString (Sharding app) then str "shard_key_string" else str "shard_key" in
  str "SELECT " ++ skCol ++ str ", shard_id, read_status, write_status FROM " ++ ManagementTablePrefix app ++ str "_whitelist" ++
  (match ShardingPostfix (Sharding app) with [] => [] | p => str "_" ++ p end) ++ str " WHERE enable = 'Y'".

(** ** One attempt *)

(** What the database answers: it cannot be reached or does not take the statement; after
    these rows nothing comes any more, and the load, which has no time limit, waits; the rows
    end with one that cannot be read; or the rows. *)
Inductive answer (R : Type) : Type := NoAnswer | Silent (rows : list R) | Broken (rows : list R) | Rows (rows : list R).
Arguments NoAnswer {R}.
Arguments Silent {R} rows.
Arguments Broken {R} rows.
Arguments Rows {R} rows.

Abbreviation whitelist := (gmap key ShardMapRecord).

Record config_state := mkState { gShardingCfg : option records; gWLCfg : option whitelist }.

(** [loadMap] with its reading of the table: the map in use, and whether there is no error. *)
Definition load_map (cfg : ShardingPart) (a : answer map_row) (st : config_state) : result (config_state * bool) :=
  match a with
  | NoAnswer => Ret (st, false)
  | Silent rows => _ ← load_rows (MaxScuttleBuckets cfg) (NumOfShards cfg) no_records rows; Hang
  | Broken rows => _ ← load_rows (MaxScuttleBuckets cfg) (NumOfShards cfg) no_records rows; Ret (st, false)
  | Rows rows =>
    '(m, err) ← loadMap cfg (gShardingCfg st) rows;
    Ret (mkState m (gWLCfg st), match err with None => true | Some _ => false end)
  end.

Definition load_whitelist (a : answer wl_row) (st : config_state) : result config_state :=
  match a with
  | NoAnswer => Ret st
  | Silent rows => _ ← loadWhitelist rows; Hang
  | Broken rows => _ ← loadWhitelist rows; Ret st
  | Rows rows => wl ← loadWhitelist rows; Ret (mkState (gShardingCfg st) (Some wl))
  end.

(** The loop over the shards, which ends with the first that has the whole map. *)
Fixpoint try_shards (cfg : ShardingPart) (n : nat) (shard : Z) (ans : Z → answer map_row) (st : config_state) : result (config_state * bool) :=
  match n with
  | O => Ret (st, false)
  | S n =>
    '(st, ok) ← load_map cfg (ans shard) st;
    if (ok : bool) then Ret (st, true) else try_shards cfg n (shard + 1) ans st
  end.

(** ** The start *)

Definition max_rounds : nat := 60.

(** The rounds; without shards the first of them has no error. *)
Fixpoint load_rounds (cfg : ShardingPart) (fuel i : nat) (ans : nat → Z → answer map_row) (st : config_state) : result (config_state * bool) :=
  match fuel with
  | O => Ret (st, false)
  | S fuel =>
    '(st, ok) ← try_shards cfg (Z.to_nat (NumOfShards cfg)) 0 (ans i) st;
    if (ok || (NumOfShards cfg <=? 0) : bool) then Ret (st, true) else load_rounds cfg fuel (S i) ans st
  end.

Definition no_more_retry : go_error := errors_New (str "Failed to load shard map, no more retry").

(** [InitShardingCfg]. The whitelist is read from the shard that gave the map; without
    shards there is none. *)
Definition InitShardingCfg (cfg : ShardingPart) (ans : nat → Z → answer map_row) (wl : answer wl_row) (st : config_state) : result config_state :=
  if UseShardMap cfg then
    '(st, ok) ← load_rounds cfg max_rounds 0 ans st;
    if (ok : bool) then (if EnableWhitelistTest cfg then (if NumOfShards cfg <=? 0 then Panic else load_whitelist wl st) else Ret st)
    else Error no_more_retry
  else
    m ← InitShardingCfg_nomap cfg;
    Ret (mkState (Some m) (if EnableWhitelistTest cfg then Some ∅ else gWLCfg st)).

(** ** The reload *)

(** One turn of the goroutine: the whitelist is read from the shard that has the map. *)
Definition reload (cfg : ShardingPart) (ans : Z → answer map_row) (wl : answer wl_row) (st : config_state) : result config_state :=
  '(st, ok) ← try_shards cfg (Z.to_nat (NumOfShards cfg)) 0 ans st;
  if (ok : bool) && EnableWhitelistTest cfg then load_whitelist wl st else Ret st.

Fixpoint reloads (cfg : ShardingPart) (l : list ((Z → answer map_row) * answer wl_row)) (st : config_state) : result config_state :=
  match l with
  | [] => Ret st
  | (ans, wl) :: l => st ← reload cfg ans wl st; reloads cfg l st
  end.

(** ** Facts *)

Lemma status_flags_panic r w : ¬ (r ≠ Some [] ∧ w ≠ Some []) → status_flags r w = Panic.
Proof. destruct r as [[|]|], w as [[|]|]; intros H; try done; by destruct H. Qed.

Section facts.
Context (cfg : ShardingPart) (HB : 0 <= MaxScuttleBuckets cfg <= 1024).

(** The rows of an answer. *)
Definition rows_of {R} (a : answer R) : list R :=
  match a with NoAnswer => [] | Silent rows | Broken rows | Rows rows => rows end.

Definition silent {R} (a : answer R) : bool := match a with Silent _ => true | _ => false end.

(** An empty string as a status is out of range for the code. *)
Definition answer_ok (a : answer map_row) : Prop := Forall row_ok (rows_of a).

#[global] Instance row_ok_dec r : Decision (row_ok r).
Proof. unfold row_ok. apply _. Defined.

(** Every bucket has a row. *)
Definition complete (rows : list map_row) : Prop := ∀ b, 0 <= b < MaxScuttleBuckets cfg → is_Some (first_row rows b).

(** The answer of a shard that has the whole map. *)
Definition whole (a : answer map_row) : Prop := ∃ rows, a = Rows rows ∧ complete rows.

(** The answers after which no other is asked for. *)
Definition decided (a : answer map_row) : Prop := ¬ answer_ok a ∨ silent a = true ∨ whole a.

(** The map in use routes every bucket as the first of the rows for it says. *)
Definition routes (st : config_state) (rows : list map_row) : Prop :=
  ∃ m, gShardingCfg st = Some m ∧ wf_map cfg m ∧ ∀ b, 0 <= b < MaxScuttleBuckets cfg → same_route (bucket_at m b) (Some (bucket_rec cfg rows b)).

Definition maps_ok (st : config_state) : Prop := ∀ m, gShardingCfg st = Some m → wf_map cfg m.

Lemma wf_complete m : wf_map cfg m → map_complete (MaxScuttleBuckets cfg) m.
Proof. intros [Hl Hm]. split; [done|]. intros b Hb. destruct (Hm b Hb) as (r & -> & _). by eexists. Qed.

(** A row that is out of range ends the proxy. *)
Lemma load_rows_panic rows recs : ¬ Forall row_ok rows → length recs = 1024%nat →
  load_rows (MaxScuttleBuckets cfg) (NumOfShards cfg) recs rows = Panic.
Proof.
  revert recs. induction rows as [|r rows IH]; intros recs Hn Hl; [by destruct Hn|]. cbn [load_rows].
  destruct (decide (row_ok r)) as [Hr|Hr].
  - destruct (load_rows_spec cfg HB [r] recs (Forall_cons_2 _ _ _ Hr (Forall_nil_2 _)) Hl) as (recs' & E & Hl' & _).
    cbn [load_rows] in E. apply bind_Ret in E as (recs1 & -> & [= ->]). cbn [mbind result_bind]. apply IH; [|done].
    intros HF. apply Hn. by constructor.
  - unfold load_row. rewrite status_flags_panic; [done|]. intros H. apply Hr, H.
Qed.

Lemma load_map_ok a st : maps_ok st →
  if decide (answer_ok a) then
    if silent a then load_map cfg a st = Hang
    else ∃ st' ok, load_map cfg a st = Ret (st', ok) ∧ maps_ok st' ∧ gWLCfg st' = gWLCfg st ∧
      (is_Some (gShardingCfg st) → is_Some (gShardingCfg st')) ∧
      if (ok : bool) then ∃ rows, a = Rows rows ∧ complete rows ∧ routes st' rows else ¬ whole a
  else load_map cfg a st = Panic.
Proof.
  intros Hm. case_decide as Ha.
  - assert (Hr : ∃ recs, load_rows (MaxScuttleBuckets cfg) (NumOfShards cfg) no_records (rows_of a) = Ret recs).
    { destruct (load_rows_spec cfg HB (rows_of a) no_records Ha (length_replicate _ _)) as (recs & E & _). by exists recs. }
    destruct Hr as [recs Hr]. destruct a as [|rows|rows|rows]; cbn [load_map rows_of silent] in *.
    + exists st, false. split_and!; try done. by intros (rows & ? & _).
    + by rewrite Hr.
    + rewrite Hr. exists st, false. split_and!; try done. by intros (rows' & ? & _).
    + destruct (loadMap_ok cfg (gShardingCfg st) rows HB Ha) as (m & err & -> & W & R & Er & _).
      { intros o Ho. by apply wf_complete, Hm. }
      cbn [mbind result_bind]. eexists _, _. split; [done|]. split_and!; [by intros ? [= <-]|done|by eexists|].
      destruct err as [e|].
      * intros (rows' & [= <-] & Hc). destruct Er as (He & Hn & _). specialize (Hc e He). rewrite Hn in Hc. by destruct Hc.
      * exists rows. split_and!; [done|done|]. by exists m.
  - pose proof (load_rows_panic (rows_of a) no_records Ha (length_replicate _ _)) as Hp.
    destruct a as [|rows|rows|rows]; cbn [load_map rows_of] in *; [by destruct Ha; constructor|by rewrite Hp..|].
    unfold loadMap. by rewrite Hp.
Qed.

(** The loop over the shards as a search for the first answer that decides. [outcome] is what
    the loop gives when that is the answer [a]. *)
Definition outcome (a : answer map_row) (r : result (config_state * bool)) : Prop :=
  ¬ answer_ok a ∧ r = Panic ∨
  answer_ok a ∧ silent a = true ∧ r = Hang ∨
  answer_ok a ∧ ∃ rows st', a = Rows rows ∧ complete rows ∧ r = Ret (st', true) ∧ routes st' rows.

(** One attempt decides or leaves a map in good order. *)
Lemma load_map_cases a st : maps_ok st →
  outcome a (load_map cfg a st) ∨
  ¬ decided a ∧ ∃ st', load_map cfg a st = Ret (st', false) ∧ maps_ok st' ∧ (is_Some (gShardingCfg st) → is_Some (gShardingCfg st')).
Proof.
  intros Hm. pose proof (load_map_ok a st Hm) as H. unfold outcome, decided. case_decide as Ha; [|by left; left].
  destruct (silent a) eqn:Es; [left; right; by left|]. destruct H as (st' & ok & E & M & _ & S1 & H). destruct ok.
  - left. right. right. destruct H as (rows & ? & ? & ?). split; [done|]. by exists rows, st'.
  - right. split; [intros [?|[?|?]]; [done|congruence|done]|]. by exists st'.
Qed.

Lemma try_shards_cases n shard ans st : maps_ok st →
  (∃ s, shard <= s < shard + Z.of_nat n ∧ outcome (ans s) (try_shards cfg n shard ans st) ∧ ∀ s', shard <= s' < s → ¬ decided (ans s')) ∨
  (∀ s, shard <= s < shard + Z.of_nat n → ¬ decided (ans s)) ∧
    ∃ st', try_shards cfg n shard ans st = Ret (st', false) ∧ maps_ok st' ∧ (is_Some (gShardingCfg st) → is_Some (gShardingCfg st')).
Proof.
  revert shard st. induction n as [|n IH]; intros shard st Hm; cbn [try_shards].
  { right. split; [intros s Hs; lia|]. by exists st. }
  destruct (load_map_cases (ans shard) st Hm) as [Ho|(Hn & st1 & -> & M1 & S1)].
  - left. exists shard. split_and!; [lia|lia| |intros s' Hs'; lia].
    destruct Ho as [[? ->]|[(? & ? & ->)|(? & rows & st' & ? & ? & -> & ?)]]; [by left|by right; left|right; right].
    split; [done|]. by exists rows, st'.
  - cbn [mbind result_bind]. assert (Hd : ∀ s, s = shard → ¬ decided (ans s)) by (by intros s ->).
    destruct (IH (shard + 1) st1 M1) as [(s & Hs & Ho & Hb)|(Hb & st2 & E2 & M2 & S2)].
    + left. exists s. split_and!; [lia|lia|done|]. intros s' Hs'. destruct (decide (s' = shard)); [auto|]. apply Hb. lia.
    + right. split; [|exists st2; split_and!; auto]. intros s Hs. destruct (decide (s = shard)); [auto|]. apply Hb. lia.
Qed.

Lemma load_rounds_cases fuel i ans st : maps_ok st → 0 < NumOfShards cfg →
  (∃ j s, (i <= j < i + fuel)%nat ∧ 0 <= s < NumOfShards cfg ∧ outcome (ans j s) (load_rounds cfg fuel i ans st) ∧
    (∀ s', 0 <= s' < s → ¬ decided (ans j s')) ∧ ∀ j' s', (i <= j' < j)%nat → 0 <= s' < NumOfShards cfg → ¬ decided (ans j' s')) ∨
  (∀ j s, (i <= j < i + fuel)%nat → 0 <= s < NumOfShards cfg → ¬ decided (ans j s)) ∧ ∃ st', load_rounds cfg fuel i ans st = Ret (st', false).
Proof.
  intros Hm HN. revert i st Hm. induction fuel as [|fuel IH]; intros i st Hm; cbn [load_rounds].
  { right. split; [intros j s Hj; lia|]. by eexists. }
  assert (Hr : ∀ s, 0 <= s < 0 + Z.of_nat (Z.to_nat (NumOfShards cfg)) ↔ 0 <= s < NumOfShards cfg) by (intros s; lia).
  destruct (try_shards_cases (Z.to_nat (NumOfShards cfg)) 0 (ans i) st Hm) as [(s & Hs%Hr & Ho & Hb)|(Hb & st1 & -> & M1 & _)].
  - left. exists i, s. split_and!; [lia|lia|lia|lia| |done|intros j' s' Hj'; lia].
    destruct Ho as [[? ->]|[(? & ? & ->)|(? & rows & st' & ? & ? & -> & ?)]]; [by left|by right; left|right; right].
    split; [done|]. by exists rows, st'.
  - cbn [mbind result_bind]. rewrite (proj2 (Z.leb_gt _ _)) by lia. cbn [orb].
    assert (Hi : ∀ j s, j = i → 0 <= s < NumOfShards cfg → ¬ decided (ans j s)) by (intros j s -> Hs; by apply Hb, Hr).
    destruct (IH (S i) st1 M1) as [(j & s & Hj & Hs & Ho & Hb1 & Hb2)|(Hb1 & E)].
    + left. exists j, s. split_and!; [lia|lia|lia|lia|done|done|]. intros j' s' Hj' Hs'. destruct (decide (j' = i)); [auto|]. apply Hb2; [lia|done].
    + right. split; [|done]. intros j s Hj Hs. destruct (decide (j = i)); [auto|]. apply Hb1; [lia|done].
Qed.

End facts.

(** ** The whitelist *)

Definition wl_row_ok (r : wl_row) : Prop := wl_rstatus r ≠ Some [] ∧ wl_wstatus r ≠ Some [].
Definition wl_answer_ok (a : answer wl_row) : Prop := Forall wl_row_ok (rows_of a).

#[global] Instance wl_row_ok_dec r : Decision (wl_row_ok r).
Proof. unfold wl_row_ok. apply _. Defined.

Lemma load_wl_ok recs rows : if decide (Forall wl_row_ok rows) then ∃ wl, load_wl recs rows = Ret wl else load_wl recs rows = Panic.
Proof.
  revert recs. induction rows as [|r rows IH]; intros recs; cbn [load_wl]; [by eexists|].
  destruct (decide (wl_row_ok r)) as [Hr|Hr].
  - assert (∃ fl, status_flags (wl_rstatus r) (wl_wstatus r) = Ret fl) as [fl ->].
    { destruct r as [k l [[|? ?]|] [[|? ?]|]], Hr; try done; by eexists. }
    cbn [mbind result_bind]. specialize (IH (<[wl_key r:=mkRec 0 (wl_logical r) fl]> recs)).
    pose proof (Forall_cons wl_row_ok r rows). repeat case_decide; try done; tauto.
  - destruct (decide (Forall wl_row_ok (r :: rows))) as [HF|]; [by apply Forall_cons_1 in HF as [? _]|]. by rewrite (status_flags_panic _ _ Hr).
Qed.

(** Reading the whitelist leaves the shard map alone. *)
Lemma load_whitelist_cases a st :
  if decide (wl_answer_ok a) then
    if silent a then load_whitelist a st = Hang else ∃ st', load_whitelist a st = Ret st' ∧ gShardingCfg st' = gShardingCfg st
  else load_whitelist a st = Panic.
Proof.
  pose proof (load_wl_ok ∅ (rows_of a)) as H. unfold wl_answer_ok. case_decide as Ha.
  - destruct H as [wl H]. destruct a; cbn [load_whitelist silent rows_of] in *; unfold loadWhitelist; rewrite ?H; first [done|by eexists].
  - destruct a; cbn [load_whitelist rows_of] in *; unfold loadWhitelist; rewrite ?H; try done.
Qed.

(** The answer about the whitelist that is looked at. *)
Definition wl_used (cfg : ShardingPart) (wl : answer wl_row) : answer wl_row := if EnableWhitelistTest cfg then wl else NoAnswer.

(** The start after the rounds. *)
Lemma InitShardingCfg_ok cfg ans wl : 0 <= MaxScuttleBuckets cfg <= 1024 → 0 < NumOfShards cfg → UseShardMap cfg = true →
  let r := InitShardingCfg cfg ans wl (mkState None None) in
  (∃ i s, (i < 60)%nat ∧ 0 <= s < NumOfShards cfg ∧
     (∀ i' s', 0 <= s' < NumOfShards cfg → (i' < i)%nat ∨ i' = i ∧ s' < s → ¬ decided cfg (ans i' s')) ∧
     (¬ answer_ok (ans i s) ∧ r = Panic ∨
      answer_ok (ans i s) ∧ silent (ans i s) = true ∧ r = Hang ∨
      answer_ok (ans i s) ∧ ∃ rows, ans i s = Rows rows ∧ complete cfg rows ∧
        (¬ wl_answer_ok (wl_used cfg wl) ∧ r = Panic ∨
         wl_answer_ok (wl_used cfg wl) ∧ silent (wl_used cfg wl) = true ∧ r = Hang ∨
         wl_answer_ok (wl_used cfg wl) ∧ silent (wl_used cfg wl) = false ∧ ∃ st, r = Ret st ∧ routes cfg st rows))) ∨
  (∀ i s, (i < 60)%nat → 0 <= s < NumOfShards cfg → ¬ decided cfg (ans i s)) ∧ r = Error no_more_retry.
Proof.
  intros HB HN Hu r. unfold r, InitShardingCfg. rewrite Hu, (proj2 (Z.leb_gt _ _)) by lia.
  destruct (load_rounds_cases cfg HB max_rounds 0 ans (mkState None None)) as [(i & s & Hi & Hs & Ho & Hb1 & Hb2)|(Hb & st & ->)]; [done|done| |].
  - left. exists i, s. unfold max_rounds in Hi. split_and!; [lia|lia|lia| |].
    + intros i' s' Hs' [Hlt|[-> Hlt]]; [apply Hb2; [lia|done]|apply Hb1; lia].
    + destruct Ho as [[? ->]|[(? & ? & ->)|(? & rows & st & ? & ? & -> & R)]]; [by left|by right; left|right; right].
      split; [done|]. exists rows. split_and!; [done|done|]. cbn [mbind result_bind]. unfold wl_used.
      destruct (EnableWhitelistTest cfg); [|right; right; split_and!; [constructor|done|by exists st]].
      pose proof (load_whitelist_cases wl st) as Hw. case_decide; [right|by left]. destruct (silent wl); [by left|right].
      destruct Hw as (st' & -> & G). split_and!; [done|done|]. exists st'. split; [done|]. unfold routes. by rewrite G.
  - right. split; [|done]. intros i s Hi. apply Hb. unfold max_rounds. lia.
Qed.

(** C22: With a shard map in use, the map is read at the start from one shard after the
    other, in at most sixty rounds, up to the first answer that decides; the answers before
    it are passed over. If that answer is complete and in range, with a row for every
    bucket, the proxy goes on with this map, in which every bucket is routed as the first
    of its rows says, once the whitelist, where there is one, has been read. If a row has an
    empty string for a status the proxy panics, and if the answer stops coming it waits for
    ever, there being no time limit; likewise for the whitelist. If no answer decides, the
    start fails. *)
Theorem InitShardingCfg_spec cfg ans wl : 0 <= MaxScuttleBuckets cfg <= 1024 → 0 < NumOfShards cfg → UseShardMap cfg = true →
  let r := InitShardingCfg cfg ans wl (mkState None None) in
  (∃ i s, (i < 60)%nat ∧ 0 <= s < NumOfShards cfg ∧
     (∀ i' s', 0 <= s' < NumOfShards cfg → (i' < i)%nat ∨ i' = i ∧ s' < s → ¬ decided cfg (ans i' s')) ∧
     (¬ answer_ok (ans i s) ∧ r = Panic ∨
      answer_ok (ans i s) ∧ silent (ans i s) = true ∧ r = Hang ∨
      answer_ok (ans i s) ∧ ∃ rows, ans i s = Rows rows ∧ complete cfg rows ∧
        (¬ wl_answer_ok (wl_used cfg wl) ∧ r = Panic ∨
         wl_answer_ok (wl_used cfg wl) ∧ silent (wl_used cfg wl) = true ∧ r = Hang ∨
         wl_answer_ok (wl_used cfg wl) ∧ silent (wl_used cfg wl) = false ∧ ∃ st, r = Ret st ∧ routes cfg st rows))) ∨
  (∀ i s, (i < 60)%nat → 0 <= s < NumOfShards cfg → ¬ decided cfg (ans i s)) ∧ r = Error no_more_retry.
Proof. apply InitShardingCfg_ok. Qed.

(** However often the shard map is read again, as long as the answers come and are in range
    the proxy has a map in which every bucket names an existing shard or is marked bad. *)
Theorem reloads_keep_map cfg l st st' : 0 <= MaxScuttleBuckets cfg <= 1024 →
  (∃ m, gShardingCfg st = Some m ∧ wf_map cfg m) → reloads cfg l st = Ret st' →
  ∃ m, gShardingCfg st' = Some m ∧ wf_map cfg m.
Proof.
  intros HB. revert st. induction l as [|[ans wl] l IH]; intros st Hm; cbn [reloads]; [by intros [= <-]|].
  intros (st1 & E1 & E2)%bind_Ret. apply (IH st1); [|done]. clear IH E2. destruct Hm as (m & Hm & W). unfold reload in E1.
  apply bind_Ret in E1 as ([st2 ok] & E1 & E2).
  assert (H2 : ∃ m, gShardingCfg st2 = Some m ∧ wf_map cfg m).
  { destruct (try_shards_cases cfg HB (Z.to_nat (NumOfShards cfg)) 0 ans st) as [(s & _ & Ho & _)|(_ & st3 & E3 & M & S1)];
      [by intros ? [= <-]%(eq_trans (eq_sym Hm))|..].
    - rewrite E1 in Ho. destruct Ho as [[_ ?]|[(_ & _ & ?)|(_ & rows & st4 & _ & _ & [= <- _] & m' & ? & ? & _)]]; [done..|by exists m'].
    - rewrite E3 in E1. injection E1 as <- _. destruct S1 as [m' Hm']; [by rewrite Hm|]. exists m'. split; [done|by apply M]. }
  destruct (ok && _); [|by injection E2 as <-]. pose proof (load_whitelist_cases wl st2) as Hw.
  case_decide; [|congruence]. destruct (silent wl); [congruence|]. destruct Hw as (st3 & E3 & G). rewrite E3 in E2. injection E2 as <-. by rewrite G.
Qed.

(** ** Two buckets on two shards *)

(** The table of the first shard lacks a bucket. *)
Definition ex_ans (i : nat) (s : Z) : answer map_row :=
  if s =? 0 then Rows [mkRow 0 1 None None] else Rows [mkRow 0 1 None None; mkRow 1 0 None (Some (str "N"))].

Lemma InitShardingCfg_spec_witness : ∃ st, InitShardingCfg two_buckets ex_ans NoAnswer (mkState None None) = Ret st ∧
  routes two_buckets st [mkRow 0 1 None None; mkRow 1 0 None (Some (str "N"))].
Proof.
  assert (Hok : ∀ i s, answer_ok (ex_ans i s)) by (intros i s; unfold ex_ans; destruct (s =? 0); repeat constructor; vm_compute; congruence).
  assert (Hs : ∀ i s, silent (ex_ans i s) = false) by (intros i s; unfold ex_ans; by destruct (s =? 0)).
  destruct (InitShardingCfg_spec two_buckets ex_ans NoAnswer) as [(i & s & _ & _ & _ & H)|[H _]].
  - vm_compute. split; congruence.
  - reflexivity.
  - reflexivity.
  - destruct H as [[H _]|[(_ & H & _)|(_ & rows & E1 & C & H)]]; [by destruct H|congruence|].
    destruct H as [[H _]|[(_ & H & _)|(_ & _ & st & E2 & R)]]; [destruct H; constructor|discriminate H|].
    exists st. split; [exact E2|]. unfold ex_ans in E1. destruct (s =? 0) eqn:Es; [|injection E1 as <-; exact R].
    injection E1 as <-. destruct (C 1) as [x Hx]; [vm_compute; split; congruence|]. vm_compute in Hx. discriminate Hx.
  - exfalso. apply (H 0%nat 1); [lia|vm_compute; split; congruence|]. right. right. exists [mkRow 0 1 None None; mkRow 1 0 None (Some (str "N"))].
    split; [reflexivity|]. intros b Hb. assert (b = 0 ∨ b = 1) as [-> | ->] by (change (MaxScuttleBuckets two_buckets) with 2 in Hb; lia); vm_compute; by eexists.
Defined.

(** A shard that does not answer holds the start up for good. *)
Lemma silent_shard_hangs : InitShardingCfg two_buckets (λ _ _, Silent []) NoAnswer (mkState None None) = Hang.
Proof. vm_compute. reflexivity. Qed.

End ShardLoad.
