(* ===== verification/AcceptLoop.v ===== *)
(** * Accepting connections (lib/server.go, lib/tcp_listener.go, lib/tls_listener.go): the
    loop of the server, what becomes of each connection, and the listeners. *)

From S2P Require Import Prelude Config StateLog Server.
From stdpp Require Import base list strings.
From Stdlib Require Import ZArith Lia.
Open Scope Z_scope.

Module AcceptLoop.
Import Server.

(** ** Listeners *)

(** A connection of the listener, by its number. *)
Abbreviation conn := nat.

(** The two kinds of listeners, and what the TLS handshake of each connection gives. *)
Inductive listener : Type := tcpListener | tlsListener (handshake : conn → option go_error).

(** [Init] of the two listeners: the TLS listener closes a connection whose handshake
    fails. *)
Definition nil_connection : go_error := errors_New (str "Nil connection").

Definition tcp_Init (c : option conn) : result conn * list conn :=
  match c with Some c => (Ret c, []) | None => (Error nil_connection, []) end.

Definition tls_Init (handshake : conn → option go_error) (c : option conn) : result conn * list conn :=
  match c with
  | None => (Error nil_connection, [])
  | Some c => match handshake c with Some err => (Error err, [c]) | None => (Ret c, []) end
  end.

Definition Init (l : listener) : option conn → result conn * list conn :=
  match l with tcpListener => tcp_Init | tlsListener handshake => tls_Init handshake end.

(** ** A connection *)

Inductive action : Set :=
  | Delay
  | Bounce (c : option conn)
  | AcceptFailed (c : option conn)
  | Handle (c : conn)
  | CloseConn (c : conn)
  | Stop.

(** [authAndHandle] *)
Definition authAndHandle (l : listener) (c : conn) : list action :=
  let '(r, closed) := Init l (Some c) in
  map CloseConn closed ++ (match r with Ret c => [Handle c] | _ => [] end) ++ [CloseConn c].

(** [bounce] *)
Definition bounce (c : option conn) : list action := Bounce c :: match c with Some c => [CloseConn c] | None => [] end.

(** ** The loop *)

(** One turn: the number of connections, the clock in seconds, what [Accept] gives (a
    connection, or an error with or without one) and the call of the bouncer. *)
Record turn := mkTurn { connections : Z; clock : Z; accepted : option conn; accept_err : bool; bouncer_call : call }.

Definition max_fd : Z := 65536.

Section loop.
Context (lsn : listener) (enabled info : bool) (startTime startupDelay pollInterval startShutdown : Z).

(** The actions of a turn; [None] ends the loop. [info] is whether the log prints at that
    level: the address of the connection is then asked for, also of one that is missing. *)
Definition one_turn (t : turn) (srv : server) : result (option server * list action) :=
  if max_fd <? connections t then Ret (Some srv, [Delay])
  else if 0 <? startShutdown then
    if (0 <? connections t) && (i64 (clock t - startShutdown) <? 62) then Ret (Some srv, [Delay]) else Ret (None, [Stop])
  else
    let '(srv, o) := bounceRequired enabled startTime startupDelay pollInterval (bouncer_call t) srv in
    if bounced o then
      match accepted t with
      | None => if info then Panic else Ret (Some srv, bounce None)
      | Some c => Ret (Some srv, bounce (Some c))
      end
    else if accept_err t then
      Ret (Some srv, AcceptFailed (accepted t) :: match accepted t with Some c => [CloseConn c] | None => [] end)
    else
      match accepted t with
      | Some c => Ret (Some srv, authAndHandle lsn c)
      | None => Panic
      end.

Fixpoint Run (ts : list turn) (srv : server) : result (option server * list action) :=
  match ts with
  | [] => Ret (Some srv, [])
  | t :: ts =>
    '(s, acts) ← one_turn t srv;
    match s with
    | None => Ret (None, acts)
    | Some srv => '(s, acts') ← Run ts srv; Ret (s, acts ++ acts')
    end
  end.

(** ** What becomes of the connections *)

(** [net.Listener.Accept] returns a connection or an error. *)
Definition accept_ok (t : turn) : Prop := accept_err t = true ↔ accepted t = None.

(** The turns in which a connection is accepted. *)
Definition accepting (ts : list turn) : list turn := filter (λ t, connections t <= max_fd) ts.

Definition passes (c : conn) : bool := match (Init lsn (Some c)).1 with Ret _ => true | _ => false end.

(** The connection of a turn that is handed to the handler: one that is not bounced and
    whose initialisation succeeds. *)
Definition to_handle (x : turn * outcome) : option conn :=
  if bounced x.2 then None else c ← accepted x.1; if passes c then Some c else None.

Definition handled (acts : list action) : list conn := omap (λ a, match a with Handle c => Some c | _ => None end) acts.

Lemma handled_auth c : handled (authAndHandle lsn c) = if passes c then [c] else [].
Proof. unfold authAndHandle, passes, Init. destruct lsn as [|hs]; [done|]. unfold tls_Init. by destruct (hs c). Qed.

Lemma closed_auth c : CloseConn c ∈ authAndHandle lsn c.
Proof. unfold authAndHandle. destruct (Init lsn (Some c)) as [r closed]. rewrite !elem_of_app. right. right. by left. Qed.

Lemma Run_ok ts srv s acts : startShutdown = 0 → Forall accept_ok ts → Run ts srv = Ret (s, acts) →
  handled acts = omap to_handle (zip (accepting ts) (run_calls enabled startTime startupDelay pollInterval (map bouncer_call (accepting ts)) srv)) ∧
  Forall (λ c, CloseConn c ∈ acts) (omap accepted (accepting ts)) ∧ is_Some s.
Proof.
  intros Hd Hts. revert srv s acts. induction Hts as [|t ts Ht Hts IH]; intros srv s acts; cbn [Run]; [intros [= <- <-]; by split_and!|].
  intros ([s1 a1] & H1 & H2)%bind_Ret. unfold one_turn in H1. rewrite Hd in H1. unfold accepting. rewrite filter_cons. fold (accepting ts).
  destruct (Z.ltb_spec max_fd (connections t)).
  - injection H1 as <- <-. apply bind_Ret in H2 as ([s2 a2] & H2 & [= <- <-]). rewrite decide_False by lia.
    destruct (IH _ _ _ H2) as (I1 & I2 & I3). split_and!; [done| |done]. eapply Forall_impl; [exact I2|]. intros c Hc. by right.
  - rewrite decide_True by lia. cbn [Z.ltb Z.compare] in H1. cbn [map run_calls].
    destruct (bounceRequired _ _ _ _ (bouncer_call t) srv) as [srv1 o]. cbn [zip zip_with omap list_omap].
    assert (K : s1 = Some srv1 ∧ handled a1 = (match to_handle (t, o) with Some c => [c] | None => [] end) ∧ ∀ c, accepted t = Some c → CloseConn c ∈ a1).
    { unfold to_handle. cbn [fst snd]. destruct (bounced o).
      - destruct (accepted t) as [c|]; [|destruct info; [done|]]; injection H1 as <- <-; split_and!; try done.
        intros c' [= ->]. right. by left.
      - destruct (accept_err t) eqn:Ee.
        + assert (En : accepted t = None) by (by apply Ht). rewrite En in *. injection H1 as <- <-. done.
        + destruct (accepted t) as [c|]; [|done]. injection H1 as <- <-. split_and!; [done| |].
          * cbn [mbind option_bind]. rewrite handled_auth. by destruct (passes c).
          * intros c' [= ->]. apply closed_auth. }
    destruct K as (-> & K2 & K3). apply bind_Ret in H2 as ([s2 a2] & H2 & [= <- <-]). destruct (IH _ _ _ H2) as (I1 & I2 & I3). split_and!; [| |done].
    + unfold handled. rewrite omap_app. fold (handled a1) (handled a2). rewrite K2, I1. by destruct (to_handle (t, o)).
    + assert (I2' : Forall (λ c, CloseConn c ∈ a1 ++ a2) (omap accepted (accepting ts))).
      { eapply Forall_impl; [exact I2|]. intros c Hc. apply elem_of_app. by right. }
      destruct (accepted t) as [c|] eqn:Ea; [|done]. constructor; [|done]. apply elem_of_app. left. by apply K3.
Qed.
End loop.

(** Every connection that is accepted is closed in the end, and the handler is given
    exactly those that the bouncer lets through and whose initialisation succeeds, each
    once and in the order of their arrival; with more than 65536 connections none is
    accepted. *)
Theorem connections_served lsn enabled info startTime startupDelay pollInterval ts srv s acts :
  Forall accept_ok ts → Run lsn enabled info startTime startupDelay pollInterval 0 ts srv = Ret (s, acts) →
  handled acts = omap (to_handle lsn)
    (zip (accepting ts) (run_calls enabled startTime startupDelay pollInterval (map bouncer_call (accepting ts)) srv)) ∧
  Forall (λ c, CloseConn c ∈ acts) (omap accepted (accepting ts)) ∧ is_Some s.
Proof. by apply Run_ok. Qed.

(** An error of [Accept] while the bouncer refuses connections crashes the proxy when
    the log prints the refused addresses: the address of no connection is asked for. *)
Theorem accept_error_panics lsn enabled startTime startupDelay pollInterval t ts srv :
  connections t <= max_fd → accepted t = None →
  bounced (bounceRequired enabled startTime startupDelay pollInterval (bouncer_call t) srv).2 = true →
  Run lsn enabled true startTime startupDelay pollInterval 0 (t :: ts) srv = Panic.
Proof.
  intros Hc Ha Hb. cbn [Run]. unfold one_turn. rewrite (proj2 (Z.ltb_ge _ _)) by done. cbn [Z.ltb Z.compare].
  destruct (bounceRequired _ _ _ _ _ srv) as [srv1 o]. cbn in Hb. by rewrite Hb, Ha.
Qed.

Definition ex_turns : list turn :=
  zip_with (λ i c, mkTurn 10 0 (Some i) false c) (seq 0 6) sample_calls.

Lemma connections_served_witness :
  match Run tcpListener true true 0 10 100 0 ex_turns NewServer with
  | Ret (_, acts) => handled acts = [0; 1; 2; 3; 4]%nat
  | _ => False
  end.
Proof.
  destruct (Run tcpListener true true 0 10 100 0 ex_turns NewServer) as [[s acts]| | | |] eqn:Er; try (exfalso; revert Er; vm_compute; discriminate).
  destruct (connections_served tcpListener true true 0 10 100 ex_turns NewServer s acts) as (H & _).
  - repeat constructor; cbn; discriminate.
  - exact Er.
  - rewrite H. vm_compute. reflexivity.
Defined.

Lemma accept_error_panics_witness :
  Run tcpListener true true 0 10 100 0 [mkTurn 10 0 None true (mkCall 9001 9001000000000 9001000000000 false)] (mkServer 0 0 true true) = Panic.
Proof. apply accept_error_panics; [vm_compute; congruence|reflexivity|vm_compute; reflexivity]. Defined.

End AcceptLoop.
