(* ===== verification/Startup.v ===== *)
(** * The start of the proxy (lib/main.go): the configuration, the workers, the wait for the
    database, the listener, the shard map and the server, in this order; any failure on
    the way ends the process. *)

From S2P Require Import Prelude GoIO ConfigFile Fmt Config RingQueue ShardMap WorkerClient WorkerPool StateLog WorkerBroker ShardLoad RacMaint.
From stdpp Require Import base list gmap strings.
From Stdlib Require Import ZArith Lia.
Import Config StateLog WorkerBroker.
Open Scope Z_scope.

Module Startup.

(** ** Actions *)

Inductive action : Type :=
  | KillParent
  | Exit (code : Z)
  | WritePid (pid : Z)
  | Setenv (name value : bytes)
  | CalTxn (name : bytes)
  | CalVersion (release : bytes)
  | StartWorkers
  | SetStartTime
  | StartConfigReload (ms : Z)
  | StartProfiling (http telnet : bytes)
  | StartStats (interval : Z)
  | RegisterLoopDriver
  | Listen (tls : bool) (service : bytes)
  | LoadShardMap
  | StartRacMaint (shards : list Z)
  | Serve.

Abbreviation boot := (io (list action)).

Definition act (a : action) : boot unit := λ s, (s ++ [a], Ret tt).

(** [FullShutdown]: [parent] is the first line of the status of the parent process, when it
    can be read. The process ends. *)
Definition FullShutdown {A} (parent : option bytes) : boot A :=
  _ ← match parent with
      | Some ln => if Fmt.Contains ln (str "watchdog") || Fmt.Contains ln (str "mux") then act KillParent else mret tt
      | None => mret tt
      end;
  _ ← act (Exit 9);
  lift Fatal.

(** ** Listeners *)

(** What the files and the system answer: the first step that fails, if any. *)
Record tls_files := mkTls { key_read : bool; pem_ok : bool; passwd : bool; decrypt_ok : bool; chain_read : bool; pair_ok : bool }.

Definition tls_ok (f : tls_files) : bool :=
  key_read f && pem_ok f && (negb (passwd f) || decrypt_ok f) && chain_read f && pair_ok f.

Definition NewTCPListener (parent : option bytes) (listen : bool) (service : bytes) : boot unit :=
  if listen then act (Listen false service) else FullShutdown parent.

Definition NewTLSListener (parent : option bytes) (f : tls_files) (listen : bool) (service : bytes) : boot unit :=
  if negb (tls_ok f) then FullShutdown parent else if listen then act (Listen true service) else FullShutdown parent.

(** ** The start *)

Section run.
Context {P E Op : Type} `{!PoolOps P E Op} (healthy : P → Z).
Abbreviation B := (WorkerBroker P).

(** Everything the start takes from outside. [w_log] is whether the log file could be opened
    in time; [w_forks] are the processes started for each pool and what happens before the
    next pool is started; [w_waits] are the events in the broker between the turns of the
    wait for the database. *)
Record world := mkWorld {
  w_name : bytes;
  w_parent : option bytes;
  w_pid : Z;
  w_now : Z;
  w_hera : option (list bytes);
  w_log : bool;
  w_ops : option (bytes * option (list bytes));
  w_pidfile : bool;
  w_release : option bytes;
  w_env : E;
  w_forks : list (list (option Z) * list (early (Op := Op)));
  w_waits : list (list (event (E := E) (Op := Op)));
  w_listen : bool;
  w_tls : tls_files;
  w_map : nat → Z → ShardLoad.answer ShardMap.map_row;
  w_wl : ShardLoad.answer ShardMap.wl_row
}.

(** Whether a pool has a worker that is connected. *)
Definition has_healthy (t : HeraWorkerType) (b : B) : bool :=
  match GetWorkerPool (0, wnum t, 0) b with Ret p => 0 <? healthy p | _ => false end.

(** The wait for the database, in turns of 100 ms. *)
Fixpoint wait_healthy (app : Config) (waits : list (list (event (E := E) (Op := Op)))) (b : B) : result B :=
  if has_healthy wtypeRW b || EnableTAF app && has_healthy wtypeStdBy b then Ret b
  else
    match waits with
    | [] => Hang
    | evs :: waits => b ← brun app evs b; wait_healthy app waits b
    end.

Definition service (app : Config) : bytes := str "0.0.0.0:" ++ itoa (Port app).

(** [InitConfig], from either setting of its two switches. *)
Definition read_config (sharding taf : bool) (w : world) : boot Globals :=
  if negb (w_log w) then FullShutdown (w_parent w) else
  match init_config sharding taf (w_hera w) (w_ops w) with
  | Ret g => mret g
  | Error _ => FullShutdown (w_parent w)
  | r => lift r
  end.

(** The singleton of the broker waits for the number of workers, which only an ops
    configuration sends. *)
Definition start_workers (g : Globals) (w : world) : boot B :=
  match numWorkersCh g, gOpsConfig g with
  | _ :: _, Some ops =>
    match RestartWorkerPool (w_env w) (w_forks w) (init (gAppConfig g) ops) with
    | Ret b => _ ← act StartWorkers; mret b
    | Error _ => FullShutdown (w_parent w)
    | r => lift r
    end
  | _, _ => lift Hang
  end.

Definition open_listener (app : Config) (w : world) : boot unit :=
  match KeyFile app with
  | [] => NewTCPListener (w_parent w) (w_listen w) (service app)
  | _ => NewTLSListener (w_parent w) (w_tls w) (w_listen w) (service app)
  end.

Definition load_sharding (app : Config) (w : world) : boot ShardLoad.config_state :=
  if EnableSharding app then
    match ShardLoad.InitShardingCfg (Sharding app) (w_map w) (w_wl w) (ShardLoad.mkState None None) with
    | Ret st => _ ← act LoadShardMap; mret st
    | Error _ => FullShutdown (w_parent w)
    | r => lift r
    end
  else mret (ShardLoad.mkState None None).

(** The transactions that only mark the start. *)
Definition mark_start (w : world) : boot unit :=
  _ ← act (CalTxn (str "mux-go"));
  match w_release w with
  | Some r => if bool_decide (r = []) then mret tt else act (CalVersion r)
  | None => mret tt
  end.

(** [Run] up to the start of the server. *)
Definition prepare (sharding taf : bool) (w : world) : boot (Config * B * ShardLoad.config_state) :=
  _ ← (match w_name w with [] => FullShutdown (w_parent w) | _ => mret tt end);
  g ← read_config sharding taf w;
  let app := gAppConfig g in
  _ ← (if w_pidfile w then act (WritePid (w_pid w)) else FullShutdown (w_parent w));
  _ ← act (Setenv (str "MUX_START_TIME_SEC") (itoa (w_now w)));
  _ ← act (Setenv (str "MUX_START_TIME_USEC") (str "0"));
  _ ← mark_start w;
  b ← start_workers g w;
  _ ← act (CalTxn (str "mux-go-start"));
  _ ← act SetStartTime;
  _ ← act (StartConfigReload (ConfigReloadTimeMs app));
  _ ← (if EnableProfile app then act (StartProfiling (ProfileHTTPPort app) (ProfileTelnetPort app)) else mret tt);
  _ ← (if 0 <? GoStatsInterval app then act (StartStats (GoStatsInterval app)) else mret tt);
  _ ← act RegisterLoopDriver;
  b ← (match GetWorkerPool (0, wnum wtypeRW, 0) b with
       | Ret _ => lift (wait_healthy app (w_waits w) b)
       | Error _ => FullShutdown (w_parent w)
       | Panic => lift Panic
       | Fatal => lift Fatal
       | Hang => lift Hang
       end);
  _ ← open_listener app w;
  st ← load_sharding app w;
  _ ← act (StartRacMaint (RacMaint.InitRacMaint app));
  mret (app, b, st).

(** [Run]: the state in which connections are served. *)
Definition Run (sharding taf : bool) (w : world) : boot (Config * B * ShardLoad.config_state) :=
  x ← prepare sharding taf w;
  _ ← act Serve;
  mret x.

(** ** What is ready when connections are served *)

Context {ok : nat → P → Prop} {limit : nat} `{!PoolLaws P E Op ok limit}.

(** The system's part along the wait. *)
Fixpoint fresh_waits (app : Config) (waits : list (list (event (E := E) (Op := Op)))) (b : B) : Prop :=
  match waits with
  | [] => True
  | evs :: waits => fresh_run app evs b ∧ match brun app evs b with Ret b' => fresh_waits app waits b' | _ => True end
  end.

Lemma brun_app app evs1 evs2 (b : B) : brun app (evs1 ++ evs2) b = (b' ← brun app evs1 b; brun app evs2 b').
Proof. revert b. induction evs1 as [|ev evs1 IH]; intros b; [done|]. cbn [Datatypes.app brun]. destruct (bstep app ev b); cbn [mbind result_bind]; [apply IH|done..]. Qed.

Lemma fresh_run_app app evs1 evs2 (b b' : B) : fresh_run app evs1 b → brun app evs1 b = Ret b' → fresh_run app evs2 b' → fresh_run app (evs1 ++ evs2) b.
Proof.
  revert b. induction evs1 as [|ev evs1 IH]; intros b; cbn [Datatypes.app brun fresh_run]; [by intros _ [= ->]|].
  intros [H1 H2] E1 H3. split; [done|]. destruct (bstep app ev b); cbn [mbind result_bind] in *; try done. by apply IH.
Qed.

Definition ready (app : Config) (b : B) : bool := has_healthy wtypeRW b || EnableTAF app && has_healthy wtypeStdBy b.

Lemma wait_healthy_ok app waits b b' : fresh_waits app waits b → wait_healthy app waits b = Ret b' →
  ready app b' = true ∧ ∃ evs, (length evs <= length (concat waits))%nat ∧ fresh_run app evs b ∧ brun app evs b = Ret b'.
Proof.
  revert b. induction waits as [|evs waits IH]; intros b Hf; cbn [wait_healthy]; fold (ready app b); destruct (ready app b) eqn:Er; try done.
  - intros [= <-]. split; [done|]. by exists [].
  - intros [= <-]. split; [done|]. exists []. split_and!; [cbn; lia|done|done].
  - destruct Hf as [H1 H2]. intros (b1 & E1 & E2)%bind_Ret. rewrite E1 in H2. destruct (IH b1 H2 E2) as (R & evs' & L & F & Hb).
    split; [done|]. exists (evs ++ evs'). cbn [concat]. rewrite !length_app. split_and!; [lia|by eapply fresh_run_app|by rewrite brun_app, E1].
Qed.

(** The shutdown never serves. *)
Definition no_serve (s : list action) : Prop := Serve ∉ s.

Lemma act_keeps a : a ≠ Serve → keeps no_serve (act a).
Proof. intros Ha s Hs. unfold no_serve in *. cbn. set_solver. Qed.

Lemma FullShutdown_keeps {A} parent : keeps no_serve (FullShutdown (A := A) parent).
Proof.
  unfold FullShutdown. apply keeps_bind.
  - destruct parent as [ln|]; [destruct (_ || _); [by apply act_keeps|apply keeps_mret]|apply keeps_mret].
  - intros _. apply keeps_bind; [by apply act_keeps|intros _; apply keeps_lift].
Qed.

Ltac quiet := repeat first
  [ apply keeps_mret | apply keeps_lift | apply FullShutdown_keeps | apply act_keeps; discriminate | apply keeps_bind
  | match goal with |- ∀ _, _ => intros ? end
  | match goal with |- keeps _ (match ?x with _ => _ end) => destruct x end ].

Lemma prepare_keeps sharding taf w : keeps no_serve (prepare sharding taf w).
Proof. unfold prepare, read_config, start_workers, open_listener, NewTCPListener, NewTLSListener, load_sharding, mark_start. quiet. Qed.

Lemma FullShutdown_Ret {A} parent s s' (a : A) : FullShutdown parent s ≠ (s', Ret a).
Proof. unfold FullShutdown. intros (s1 & x & _ & (s2 & y & _ & H)%io_bind_inv)%io_bind_inv. done. Qed.

Lemma read_config_Ret sharding taf w s s' g : read_config sharding taf w s = (s', Ret g) → init_config sharding taf (w_hera w) (w_ops w) = Ret g.
Proof.
  unfold read_config. destruct (w_log w); cbn [negb]; [|by intros ?%FullShutdown_Ret]. destruct (init_config _ _ _ _) as [g'|e| | |]; try done; [by intros [= _ ->]|]. by intros ?%FullShutdown_Ret.
Qed.

Lemma start_workers_Ret g w s s' b : start_workers g w s = (s', Ret b) →
  ∃ ops, gOpsConfig g = Some ops ∧ RestartWorkerPool (w_env w) (w_forks w) (init (gAppConfig g) ops) = Ret b.
Proof.
  unfold start_workers. destruct (numWorkersCh g); [done|]. destruct (gOpsConfig g) as [ops|]; [|done]. intros H. exists ops. split; [done|].
  destruct (RestartWorkerPool _ _ _) as [b'|e| | |]; try done; [|by apply FullShutdown_Ret in H].
  apply io_bind_inv in H as (s1 & x & _ & [= _ ->]). done.
Qed.

Lemma load_sharding_Ret app w s s' st : load_sharding app w s = (s', Ret st) → EnableSharding app = true →
  ShardLoad.InitShardingCfg (Sharding app) (w_map w) (w_wl w) (ShardLoad.mkState None None) = Ret st.
Proof.
  unfold load_sharding. intros H Es. rewrite Es in H. destruct (ShardLoad.InitShardingCfg _ _ _ _) as [st'|e| | |]; try done; [|by apply FullShutdown_Ret in H].
  apply io_bind_inv in H as (s1 & x & _ & [= _ ->]). done.
Qed.

(** The parts of a start that succeeds. *)
Lemma prepare_Ret sharding taf w s s' app b st : prepare sharding taf w s = (s', Ret (app, b, st)) →
  ∃ g ops b0, init_config sharding taf (w_hera w) (w_ops w) = Ret g ∧ app = gAppConfig g ∧ gOpsConfig g = Some ops ∧
    RestartWorkerPool (w_env w) (w_forks w) (init app ops) = Ret b0 ∧ wait_healthy app (w_waits w) b0 = Ret b ∧
    (EnableSharding app = true → ShardLoad.InitShardingCfg (Sharding app) (w_map w) (w_wl w) (ShardLoad.mkState None None) = Ret st).
Proof.
  unfold prepare. intros (s1 & x1 & _ & H)%io_bind_inv. apply io_bind_inv in H as (s2 & g & Hg%read_config_Ret & H).
  do 4 (apply io_bind_inv in H as (? & ? & _ & H)). apply io_bind_inv in H as (? & b0 & Hb%start_workers_Ret & H).
  do 6 (apply io_bind_inv in H as (? & ? & _ & H)). apply io_bind_inv in H as (? & b1 & Hw & H).
  apply io_bind_inv in H as (? & ? & _ & H). apply io_bind_inv in H as (? & st' & Hs & H). apply io_bind_inv in H as (? & ? & _ & [= _ <- <- <-]).
  destruct Hb as (ops & Ho & Hr). exists g, ops, b0. split_and!; try done.
  - destruct (GetWorkerPool _ b0) as [p|e| | |]; try done; [by injection Hw|by apply FullShutdown_Ret in Hw].
  - intros Hsh. by eapply load_sharding_Ret.
Qed.

(** The configuration that [InitConfig] accepts has as many pools as the broker expects. *)
Lemma valid_shards sharding taf app : app_valid sharding taf app → 0 <= NumOfShards (Sharding app) <= shard_count app ∧ EnableSharding app = sharding.
Proof.
  intros (H1 & _ & _ & _ & [H2 _] & _ & H3 & _). rewrite H1. split; [|done]. unfold shard_count. rewrite H1. rewrite (proj2 (Z.eqb_neq _ _)) by lia.
  destruct sharding; cbn [negb orb]; [lia|]. rewrite H3 by done. lia.
Qed.

(** An event within a pool starts no process. *)
Lemma fresh_waits_pool app k (o : Op) (b : B) : fresh_waits app [[EvPool k o]] b.
Proof. cbn [fresh_waits fresh_run fresh_event]. destruct (bstep app (EvPool k o) b), (brun app [EvPool k o] b); done. Qed.

(** C15: Connections are served only when everything they need is there: the configuration
    has been validated, the workers of all pools have been started and every process among
    them is known to the broker, one of them is connected to the database, and with a shard
    map every bucket is routed as a complete table says. When any step fails the server is
    not started at all. *)
Theorem serves_when_ready sharding taf w : NoDup (omap id (concat (w_forks w).*1)) → (0 ∉ omap id (concat (w_forks w).*1)) →
  (length (concat (w_forks w).*2) + length (concat (w_waits w)) <= limit)%nat →
  (∀ app ops b0, RestartWorkerPool (w_env w) (w_forks w) (init app ops) = Ret b0 → fresh_waits app (w_waits w) b0) →
  match Run sharding taf w [] with
  | (acts, Ret (app, b, st)) =>
    acts !! (length acts - 1)%nat = Some Serve ∧ app_valid sharding taf app ∧ reached (limit := limit) app b ∧ ready app b = true ∧
    (sharding = true → UseShardMap (Sharding app) = true →
      ∃ rows, ShardLoad.complete (Sharding app) rows ∧ ShardLoad.routes (Sharding app) st rows)
  | (acts, _) => Serve ∉ acts
  end.
Proof.
  intros Hfp Hfz Hl Hfw. unfold Run. pose proof (prepare_keeps sharding taf w []) as Hk. unfold mbind at 1. unfold io_bind at 1.
  destruct (prepare sharding taf w []) as [acts r] eqn:Ep. cbn [fst] in Hk. destruct r as [[[app b] st]| | | |]; try (apply Hk; apply not_elem_of_nil).
  cbn. destruct (prepare_Ret _ _ _ _ _ _ _ _ Ep) as (g & ops & b0 & Hg & -> & Ho & Hr & Hw & Hs).
  pose proof (init_config_ok _ _ _ _ _ Hg) as Hv. destruct (valid_shards _ _ _ Hv) as [Hn Hsh].
  destruct (wait_healthy_ok _ _ _ _ (Hfw _ _ _ Hr) Hw) as (R & evs & L & F & Hb). split_and!; try done.
  - rewrite length_app. cbn. rewrite lookup_app_r by lia. by replace (length acts + 1 - 1 - length acts)%nat with 0%nat by lia.
  - exists b0, ops, (w_env w), (w_forks w), evs. split_and!; [|done|lia|done|done].
    split; [done|]. apply Forall_forall. intros pid Hp. split; [set_solver|]. by intros ->.
  - intros -> Hu. specialize (Hs Hsh). destruct Hv as (_ & _ & _ & _ & [HN _] & Hm & _). destruct (Hm eq_refl) as [HM _].
    destruct (ShardLoad.InitShardingCfg_ok (Sharding (gAppConfig g)) (w_map w) (w_wl w)) as [(i & s & _ & _ & _ & H)|[_ E2]];
      [lia|lia|done| |congruence].
    destruct H as [[_ ?]|[(_ & _ & ?)|(_ & rows & _ & C & H)]]; [congruence..|]. exists rows. split; [done|].
    destruct H as [[_ ?]|[(_ & _ & ?)|(_ & _ & st' & E2 & Rt)]]; [congruence..|]. rewrite E2 in Hs. by injection Hs as <-.
Qed.

(** Without an ops configuration the start hangs for good, with nothing but a message
    in the log: the broker waits for the number of workers, which nobody sends. *)
Theorem start_hangs_without_ops sharding taf w g : w_name w ≠ [] → w_log w = true → w_pidfile w = true → w_ops w = None →
  init_config sharding taf (w_hera w) (w_ops w) = Ret g → (Run sharding taf w []).2 = Hang.
Proof.
  intros Hn Hlog Hp Ho Hg. assert (Hch : numWorkersCh g = []).
  { revert Hg. rewrite Ho. unfold init_config. destruct (w_hera w) as [lines|]; [|done]. cbv zeta. destruct (TxtConfig.GetInt _ _); [|done].
    destruct (if sharding then _ else _); try done. cbn [mbind result_bind fmap option_fmap option_map]. by intros <-%Ret_inj. }
  unfold Run, prepare. destruct (w_name w) as [|c nm]; [done|]. rewrite Hp. unfold read_config, start_workers, mark_start. rewrite Hlog, Hg. cbn [negb].
  destruct (w_release w) as [r|]; [destruct (bool_decide (r = []))|]; unfold mbind, io_bind, mret, io_ret, act; cbn [snd]; by rewrite Hch.
Qed.
End run.

(** ** A start that succeeds *)

Definition ex_healthy (p : ring_pool) : Z := WorkerPool.numHealthyWorkers p.
Definition ex_world (ops : option (bytes * option (list bytes))) : world (E := pool_env) (Op := pool_op) :=
  mkWorld (str "hera-test") None 4711 1700000000 (Some sample_hera) true ops true (Some (str "v1"))
    ex_here ex_forks [[EvPool (0, 0, 0) ex_op]] true (mkTls true true false true true true) (λ _ _, ShardLoad.NoAnswer) ShardLoad.NoAnswer.
Definition ex_ops : option (bytes * option (list bytes)) := Some (str "./hera.txt", Some sample_ops).

Lemma serves_when_ready_witness : ∃ acts app b st, Run (P := ring_pool) ex_healthy false false (ex_world ex_ops) [] = (acts, Ret (app, b, st)) ∧
  acts !! (length acts - 1)%nat = Some Serve ∧ ready ex_healthy app b = true.
Proof.
  pose proof (serves_when_ready (P := ring_pool) (ok := pool_ok (qrep := RingQueue.rep)) (limit := backlog_limit) ex_healthy false false (ex_world ex_ops)) as H.
  destruct (Run (P := ring_pool) ex_healthy false false (ex_world ex_ops) []) as [acts r] eqn:Er.
  assert (Hr : match r with Ret _ => True | _ => False end).
  { replace r with (Run (P := ring_pool) ex_healthy false false (ex_world ex_ops) []).2 by (by rewrite Er). vm_compute. exact I. }
  destruct r as [[[app b] st]| | | |]; try contradiction Hr. destruct H as (H1 & _ & _ & H2 & _).
  - apply (bool_decide_unpack _). vm_compute. exact I.
  - apply (bool_decide_unpack _). vm_compute. exact I.
  - unfold backlog_limit. cbn. lia.
  - intros app' ops' b0 _. apply fresh_waits_pool.
  - exists acts, app, b, st. split; [reflexivity|]. split; [exact H1|exact H2].
Defined.

Lemma start_hangs_without_ops_witness : (Run (P := ring_pool) ex_healthy false false (ex_world None) []).2 = Hang.
Proof.
  destruct (init_config false false (Some sample_hera) None) as [g| | | |] eqn:Eg; try (exfalso; revert Eg; vm_compute; discriminate).
  apply (start_hangs_without_ops (P := ring_pool) ex_healthy false false (ex_world None) g); [discriminate|reflexivity|reflexivity|reflexivity|exact Eg].
Defined.

End Startup.
