(* ===== verification/Utilities.v ===== *)
(** * Utilities of the proxy: lib/util.go, utility/logger/logger.go, lib/stats.go,
    lib/profiler.go and lib/loopdriver.go. *)

From S2P Require Import Prelude GoIO ConfigFile Codes Murmur3 Netstring Config Fmt.
From stdpp Require Import base list strings.
From Stdlib Require Import ZArith Lia.
Import Codes Netstring.
Open Scope Z_scope.

(** ** lib/util.go *)
Module Util.

Definition ParseBool (s : bytes) : result bool :=
  if bool_decide (s ∈ [str "1"; str "t"; str "T"; str "true"; str "TRUE"; str "True"; str "y"; str "Y"]) then Ret true
  else if bool_decide (s ∈ [str "0"; str "f"; str "F"; str "false"; str "FALSE"; str "False"; str "n"; str "N"]) then Ret false
  else Error (errors_New (str "ParseBool syntax error")).

Definition DebugString (data : bytes) : bytes :=
  if 200 <? zlen data then take 90 data ++ str "..." ++ drop (length data - 90) data else data.

(** The host of an address. *)
Definition IPAddrStr (address : bytes) : bytes :=
  match address with
  | [] => []
  | _ =>
    let lidx := Fmt.LastIndex address (str ":") in
    if lidx =? -1 then address else take (Z.to_nat lidx) address
  end.

Definition NetstringFromBytes (data : bytes) : result Packet := (NewNetstring (bytes_NewReader data)).2.

Definition is_prepare (cmd : Z) : bool := (cmd =? CmdPrepare) || (cmd =? CmdPrepareV2) || (cmd =? CmdPrepareSpecial).

(** The first netstring that prepares a statement. *)
Fixpoint first_prepare (l : list Packet) : option Packet :=
  match l with
  | [] => None
  | p :: l => if is_prepare (Cmd p) then Some p else first_prepare l
  end.

Definition ExtractSQLHash (request : Packet) : result (option Z) :=
  if IsMySQL request then Ret None
  else
    match (if Cmd request =? CodeSubCommand - 48 then SubNetstrings request else Ret [request]) with
    | Ret nss => Ret ((λ p, SQLHash.GetSQLHash (Payload p)) <$> first_prepare nss)
    | Error _ => Ret None
    | Panic => Panic
    | Fatal => Fatal
    | Hang => Hang
    end.

(** A text for the log is at most 200 bytes long: a longer one is cut to its first and
    last 90 bytes, and one of at most 200 bytes is not changed. *)
Theorem DebugString_bounded (data : bytes) :
  zlen (DebugString data) <= 200 ∧ (zlen data <= 200 → DebugString data = data) ∧
  (200 < zlen data → zlen (DebugString data) = 183 ∧ take 90 (DebugString data) = take 90 data ∧
     drop 93 (DebugString data) = drop (length data - 90) data).
Proof.
  unfold DebugString. destruct (Z.ltb_spec 200 (zlen data)) as [H|H]; [|split_and!; [done|done|lia]].
  assert (L1 : length (take 90 data) = 90%nat) by (rewrite length_take; lia).
  assert (L2 : length (drop (length data - 90) data) = 90%nat) by (rewrite length_drop; lia).
  rewrite !length_app, L1, L2. split_and!; [cbn; lia|lia|]. intros _. split_and!; [cbn; lia| |].
  - rewrite take_app_le by lia. by rewrite take_ge by lia.
  - rewrite app_assoc, drop_app_ge by (rewrite length_app, L1; cbn; lia). by rewrite length_app, L1.
Qed.

Lemma last_index_none c i (s : bytes) : c ∉ s → Fmt.last_index_from i s [c] = -1.
Proof.
  revert i. induction s as [|x s IH]; intros i Hc; [done|]. apply not_elem_of_cons in Hc as [Hx Hc]. cbn [Fmt.last_index_from]. rewrite IH by done.
  cbn [Z.eqb Fmt.HasPrefix]. by rewrite (proj2 (Z.eqb_neq x c)) by done.
Qed.

Lemma last_index_app c i (s1 s2 : bytes) : 0 <= i → c ∉ s2 → Fmt.last_index_from i (s1 ++ c :: s2) [c] = i + zlen s1.
Proof.
  revert i. induction s1 as [|x s1 IH]; intros i Hi Hc; cbn [app Fmt.last_index_from].
  - rewrite last_index_none by done. cbn [Z.eqb Fmt.HasPrefix]. rewrite Z.eqb_refl. cbn. lia.
  - rewrite IH by (try done; lia). rewrite (proj2 (Z.eqb_neq _ _)) by lia. cbn [length]. lia.
Qed.

(** The address without its port, also of an IPv6 host. *)
Lemma IPAddrStr_host (host port : bytes) : 58 ∉ port → IPAddrStr (host ++ [58] ++ port) = host.
Proof.
  intros Hp. unfold IPAddrStr. destruct (host ++ [58] ++ port) eqn:E; [by destruct host|]. rewrite <- E. clear E.
  unfold Fmt.LastIndex. change (str ":") with [58]. cbn [app]. rewrite last_index_app by (try done; lia).
  rewrite (proj2 (Z.eqb_neq _ _)) by lia. rewrite Z.add_0_l, Nat2Z.id. apply take_app_length.
Qed.

(** The hash of a statement is that of the worker and of the coordinator. *)
Lemma ExtractSQLHash_plain (p : Packet) : IsMySQL p = false → Cmd p ≠ CodeSubCommand - 48 →
  ExtractSQLHash p = Ret (if is_prepare (Cmd p) then Some (SQLHash.GetSQLHash (Payload p)) else None).
Proof. intros H1 H2. unfold ExtractSQLHash. rewrite H1, (proj2 (Z.eqb_neq _ _)) by done. cbn [first_prepare]. by destruct (is_prepare (Cmd p)). Qed.

End Util.

(** ** utility/logger/logger.go *)
Module Logger.

Definition Alert : Z := 0.
Definition Warning : Z := 1.
Definition Info : Z := 2.
Definition Debug : Z := 3.
Definition Verbose : Z := 4.

Definition prefixStr : list bytes := [str "alert:"; str "warn:"; str "info:"; str "debug:"; str "verbose:"].

(** The lines written and the alerts sent to CAL. *)
Record logger := mkLogger { severity : Z; procName : bytes; lines : list bytes; alerts : list bytes }.

Definition createLogger (procName : bytes) (severity : Z) : logger := mkLogger severity procName [] [].

Definition V (sev : Z) (l : logger) : bool := sev <=? severity l.

(** The file name without its directory. *)
Definition base_name (file : bytes) : bytes :=
  let slash := Fmt.LastIndex file (str "/") in
  if 0 <=? slash then drop (Z.to_nat slash + 1) file else file.

(** [fmt.Println] of strings, without the newline: spaces between all of them. [fmt.Sprint]
    puts none between strings. *)
Fixpoint Sprintln (args : list bytes) : bytes :=
  match args with
  | [] => []
  | [a] => a
  | a :: args => a ++ str " " ++ Sprintln args
  end.

(** [Log]: [caller] is the file and the line of the call, [args] the arguments, each as it
    is printed. The severity indexes the prefixes. An alert also goes to CAL, where the
    arguments are strings. *)
Definition Log (caller : option (bytes * Z)) (sev : Z) (args : list bytes) (l : logger) : result logger :=
  if sev <=? severity l then
    let '(file, line) := match caller with Some (f, n) => (base_name f, n) | None => (str "???", 1) end in
    prefix ← index_get prefixStr sev;
    let text := (prefix ++ str " [" ++ procName l ++ str " " ++ file ++ str ":" ++ itoa line ++ str "]") :: args in
    Ret (mkLogger (severity l) (procName l) (lines l ++ [Sprintln text]) (if sev =? Alert then alerts l ++ [concat text] else alerts l))
  else Ret l.

(** [SetLogVerbosity]: the name of the level is looked up even if nothing is printed. *)
Definition SetLogVerbosity (caller : option (bytes * Z)) (sev : Z) (l : logger) : result logger :=
  let sev := if Verbose <? sev then Verbose else sev in
  name ← index_get prefixStr sev;
  l ← Log caller Info [str "Change log level to"; name] l;
  Ret (mkLogger sev (procName l) (lines l) (alerts l)).

(** [openFileTimeout]: what opening the file gives within a second, [None] when it has
    not come back by then. *)
Definition openFileTimeout (opened : option (result unit)) : result unit :=
  match opened with
  | Some r => r
  | None => Error (errors_New (str "OpenFileTimeout took too long"))
  end.

(** [CreateLogger]: the logger from then on, which is the old one when the file cannot be
    opened, and whether the standard output and error of the process now go to the file. *)
Definition CreateLogger (opened : option (result unit)) (procName : bytes) (severity : Z) (old : logger) : logger * bool * result unit :=
  match openFileTimeout opened with
  | Ret _ => (createLogger procName severity, true, Ret tt)
  | Error _ => (old, false, Error (errors_New (str "Failed! open log file")))
  | r => (old, false, r)
  end.

(** A log level that is not negative takes effect, more than the most verbose one being
    the most verbose, and from then on exactly the messages up to that level are written; a
    negative one crashes the process. *)
Theorem SetLogVerbosity_spec caller sev l :
  (0 <= sev → severity l <= Verbose → ∃ l', SetLogVerbosity caller sev l = Ret l' ∧ severity l' = Z.min sev Verbose ∧
    ∀ s args caller', Alert <= s <= Verbose → ∃ l'', Log caller' s args l' = Ret l'' ∧
      length (lines l'') = (length (lines l') + (if (s <=? sev)%Z then 1 else 0))%nat) ∧
  (sev < 0 → SetLogVerbosity caller sev l = Panic).
Proof.
  assert (Hp : ∀ s, 0 <= s <= 4 → ∃ x, index_get prefixStr s = Ret x).
  { intros s Hs. assert (s = 0 ∨ s = 1 ∨ s = 2 ∨ s = 3 ∨ s = 4) as Hc by lia. by repeat destruct Hc as [->|Hc]; subst; eexists. }
  split.
  - intros Hs Hl. unfold SetLogVerbosity. set (sev' := if Verbose <? sev then Verbose else sev).
    assert (Hs' : sev' = Z.min sev Verbose) by (subst sev'; destruct (Z.ltb_spec Verbose sev); lia). clearbody sev'. unfold Verbose in *.
    destruct (Hp sev') as [nm ->]; [lia|]. cbn [mbind result_bind].
    assert (HL : ∀ c s m l0, 0 <= s <= 4 → ∃ l1, Log c s m l0 = Ret l1 ∧ length (lines l1) = (length (lines l0) + (if (s <=? severity l0)%Z then 1 else 0))%nat).
    { intros c s m l0 Hs0. unfold Log. destruct (s <=? severity l0); [|exists l0; split; [done|lia]].
      destruct (match c with Some _ => _ | None => _ end) as [f n]. destruct (Hp s Hs0) as [x ->]. cbn [mbind result_bind].
      eexists. split; [done|]. cbn [lines]. rewrite length_app. cbn. lia. }
    destruct (HL caller Info [str "Change log level to"; nm] l) as (l1 & -> & _); [unfold Info; lia|]. cbn [mbind result_bind].
    eexists. split; [done|]. split; [done|]. intros s msg c' [H1 H2]. unfold Alert in *.
    destruct (HL c' s msg (mkLogger sev' (procName l1) (lines l1) (alerts l1))) as (l2 & E2 & L2); [lia|]. exists l2. split; [done|].
    rewrite L2. cbn [lines severity]. f_equal. rewrite Hs'. destruct (Z.leb_spec s (Z.min sev 4)), (Z.leb_spec s sev); lia.
  - intros Hs. unfold SetLogVerbosity, Verbose. rewrite (proj2 (Z.ltb_ge 4 sev)) by lia. unfold index_get. by rewrite (proj2 (Z.leb_gt 0 sev)).
Qed.

End Logger.

(** ** lib/stats.go *)
Module Stats.

(** The loop of [getInt]: field [cnt] is being read, [pos] is wanted. *)
Fixpoint get_loop (data : bytes) (cnt pos ret : Z) (found : bool) : Z * bool * bytes :=
  match data with
  | [] => (ret, found, [])
  | c :: d =>
    if cnt =? pos then
      if (48 <=? c) && (c <=? 57) then get_loop d cnt pos (i64 (i64 (ret * 10) + (c - 48))) true else (ret, found, data)
    else get_loop d (if c =? 32 then cnt + 1 else cnt) pos ret found
  end.

(** The number in field [pos] and what follows the byte after it. *)
Definition getInt (data : bytes) (pos : Z) : result (Z * bytes) :=
  let '(ret, found, rest) := get_loop data 1 pos 0 false in
  if (found : bool) then Ret (ret, drop 1 rest) else Error (errors_New (str "Field not found")).

(** One turn of [GoStats]: the data of the event, from the contents of /proc/<pid>/stat when
    it can be read. *)
Definition field (name : bytes) (pos : Z) (f : Z → Z) (st : list (bytes * Z) * option bytes) : list (bytes * Z) * option bytes :=
  match st with
  | (evt, Some data) =>
    match getInt data pos with
    | Ret (v, data) => (evt ++ [(name, f v)], Some data)
    | _ => (evt, None)
    end
  | _ => st
  end.

Definition go_stats (goroutines : Z) (file : option bytes) : list (bytes * Z) :=
  (field (str "rss") 1 (λ v, i64 (v * 4))
    (field (str "vss") 3 id
      (field (str "threads") 5 id
        (field (str "stime") 1 (λ v, Z.quot v 100)
          (field (str "utime") 14 (λ v, Z.quot v 100)
            ([(str "goroutines", goroutines)], file)))))).1.

(** Fields with a space between them. *)
Fixpoint join (fs : list bytes) : bytes :=
  match fs with
  | [] => []
  | [f] => f
  | f :: fs => f ++ 32 :: join fs
  end.

Definition field_ok (f : bytes) : Prop := 32 ∉ f.

Lemma get_loop_skip f rest cnt pos ret found : field_ok f → cnt < pos →
  get_loop (f ++ 32 :: rest) cnt pos ret found = get_loop rest (cnt + 1) pos ret found.
Proof.
  intros Hf Hc. induction f as [|c f IH]; cbn [app get_loop]; rewrite (proj2 (Z.eqb_neq cnt pos)) by lia; [done|].
  apply not_elem_of_cons in Hf as [Hne Hf]. rewrite (proj2 (Z.eqb_neq c 32)) by done. by apply IH.
Qed.

Lemma digits_val_ge a ds : Forall is_digit ds → 0 <= a → a <= digits_val a ds.
Proof.
  intros Hd. revert a. induction Hd as [|d ds Hx Hd IH]; intros a Ha; [cbn; lia|]. unfold digits_val in *. cbn [fold_left].
  unfold is_digit in Hx. specialize (IH (a * 10 + (d - 48))). lia.
Qed.

Lemma get_loop_digits ds rest pos a found : Forall is_digit ds → match rest with [] => True | c :: _ => ¬ is_digit c end →
  0 <= a → digits_val a ds < 2 ^ 63 → get_loop (ds ++ rest) pos pos a found = (digits_val a ds, match ds with [] => found | _ => true end, rest).
Proof.
  intros Hd Hr. revert a found. induction Hd as [|d ds Hx Hd IH]; intros a found Ha Hv; cbn [app].
  - destruct rest as [|c rest]; cbn [get_loop]; [done|]. rewrite Z.eqb_refl.
    destruct (_ && _) eqn:B; [|done]. apply andb_true_iff in B as [B1%Z.leb_le B2%Z.leb_le]. destruct Hr. unfold is_digit. lia.
  - cbn [get_loop]. rewrite Z.eqb_refl. unfold is_digit in Hx. rewrite (proj2 (Z.leb_le 48 d)), (proj2 (Z.leb_le d 57)) by lia. cbn [andb].
    assert (Ev : digits_val a (d :: ds) = digits_val (a * 10 + (d - 48)) ds) by done. rewrite Ev in *.
    pose proof (digits_val_ge (a * 10 + (d - 48)) ds Hd). rewrite (i64_id (a * 10)), i64_id by (unfold in_i64; lia).
    rewrite IH by (try done; lia). by destruct ds.
Qed.

Lemma join_cons f fs : fs ≠ [] → join (f :: fs) = f ++ 32 :: join fs.
Proof. by destruct fs. Qed.

Lemma getInt_field pre ds fs : Forall field_ok pre → Forall is_digit ds → ds ≠ [] → digits_val 0 ds < 2 ^ 63 → fs ≠ [] →
  getInt (join (pre ++ ds :: fs)) (zlen pre + 1) = Ret (digits_val 0 ds, join fs).
Proof.
  intros Hp Hd Hne Hv Hfs. unfold getInt.
  assert (E : ∀ cnt, get_loop (join (pre ++ ds :: fs)) cnt (cnt + zlen pre) 0 false = (digits_val 0 ds, true, 32 :: join fs)).
  { induction Hp as [|f pre Hf Hp IH]; intros cnt; cbn [app length].
    - rewrite join_cons, Z.add_0_r, get_loop_digits; try done; [by destruct ds|]. unfold is_digit. lia.
    - rewrite join_cons by (by destruct pre). rewrite get_loop_skip by (try done; lia). rewrite <- (IH (cnt + 1)). f_equal. lia. }
  rewrite Z.add_comm, E. done.
Qed.

(** A decimal number of a field. *)
Definition num (ds : bytes) : Prop := Forall is_digit ds ∧ ds ≠ [] ∧ digits_val 0 ds < 2 ^ 63.

Lemma field_num name f pre ds fs evt : Forall field_ok pre → num ds → fs ≠ [] →
  field name (zlen pre + 1) f (evt, Some (join (pre ++ ds :: fs))) = (evt ++ [(name, f (digits_val 0 ds))], Some (join fs)).
Proof. intros Hp (H1 & H2 & H3) Hf. unfold field. by rewrite getInt_field. Qed.

(** From the line that Linux gives of the process, the report has the times in seconds,
    the threads, the virtual size and the resident size, which are fields 14, 15, 20, 23
    and 24, provided that no field before them has a space in it. *)
Theorem go_stats_fields goroutines a ut st b th c vs rs rest :
  Forall field_ok (a ++ b ++ c) → length a = 13%nat → length b = 4%nat → length c = 2%nat → rest ≠ [] →
  Forall num [ut; st; th; vs; rs] →
  go_stats goroutines (Some (join (a ++ ut :: st :: b ++ th :: c ++ vs :: rs :: rest))) =
    [(str "goroutines", goroutines); (str "utime", Z.quot (digits_val 0 ut) 100); (str "stime", Z.quot (digits_val 0 st) 100);
     (str "threads", digits_val 0 th); (str "vss", digits_val 0 vs); (str "rss", i64 (digits_val 0 rs * 4))].
Proof.
  intros Hf La Lb Lc Hr Hn. apply Forall_app in Hf as [Fa [Fb Fc]%Forall_app]. rewrite !Forall_cons in Hn. destruct Hn as (N1 & N2 & N3 & N4 & N5 & _).
  unfold go_stats. change 14 with (Z.of_nat 13 + 1). rewrite <- La, field_num by (try done; by destruct b).
  pose proof (field_num (str "stime") (λ v, Z.quot v 100) [] st (b ++ th :: c ++ vs :: rs :: rest)) as E2. cbn [length app] in E2. change (Z.of_nat 0 + 1) with 1 in E2.
  rewrite E2 by (try done; by destruct b). change 5 with (Z.of_nat 4 + 1). rewrite <- Lb, field_num by (try done; by destruct c).
  change 3 with (Z.of_nat 2 + 1). rewrite <- Lc, field_num by done.
  pose proof (field_num (str "rss") (λ v, i64 (v * 4)) [] rs rest) as E5. cbn [length app] in E5. change (Z.of_nat 0 + 1) with 1 in E5. by rewrite E5.
Qed.

Definition ex_stat : bytes :=
  str "4711 (mux) S 1 4711 4711 0 -1 4194560 1000 0 0 0 250 130 0 0 20 0 9 0 8000 123456 789 18446744073709551615".

Lemma go_stats_fields_witness : go_stats 12 (Some ex_stat) =
  [(str "goroutines", 12); (str "utime", 2); (str "stime", 1); (str "threads", 9); (str "vss", 123456); (str "rss", 3156)].
Proof.
  apply (go_stats_fields 12
    [str "4711"; str "(mux)"; str "S"; str "1"; str "4711"; str "4711"; str "0"; str "-1"; str "4194560"; str "1000"; str "0"; str "0"; str "0"]
    (str "250") (str "130") [str "0"; str "0"; str "20"; str "0"] (str "9") [str "0"; str "8000"] (str "123456") (str "789") [str "18446744073709551615"]).
  - apply (bool_decide_unpack _). vm_compute. exact I.
  - reflexivity.
  - reflexivity.
  - reflexivity.
  - discriminate.
  - repeat constructor; vm_compute; congruence.
Defined.

(** A name with a space shifts the fields. *)
Lemma spaced_name_shifts : go_stats 12 (Some (str "4711 (my mux) S 1 4711 4711 0 -1 4194560 1000 0 0 0 250 130 0 0 20 0 9 0 8000 123456 789 18446744073709551615")) =
  [(str "goroutines", 12); (str "utime", 0); (str "stime", 2); (str "threads", 0); (str "vss", 8000); (str "rss", 493824)].
Proof. vm_compute. reflexivity. Qed.

End Stats.

(** ** lib/profiler.go *)
Module Profiler.

Inductive action : Set :=
  | StartCPU (file : bytes)
  | StopCPU
  | BlockRate (rate : Z) (dump : bool)
  | CollectGarbage
  | SetTwoTask (value : bytes).

(** The argument of a command: what lies between its second byte and the line end, of a
    buffer of 100 bytes of which [n] have been read. *)
Definition argument (buff : bytes) (n : Z) : result bytes := slice buff 2 (n - 2).

(** [strconv.Atoi] with its error ignored. *)
Definition atoi0 (s : bytes) : Z := (GoStrings.ParseInt 64 s).1.

(** What a command does; [n] is what [Read] returned. *)
Definition command (buff : bytes) (n : Z) : result (option action) :=
  c ← index_get buff 0;
  if c =? 115 then f ← argument buff n; Ret (Some (StartCPU f))
  else if c =? 101 then Ret (Some StopCPU)
  else if c =? 98 then r ← argument buff n; Ret (Some (BlockRate (atoi0 r) (atoi0 r =? 0)))
  else if c =? 103 then Ret (Some CollectGarbage)
  else if c =? 116 then v ← argument buff n; Ret (Some (SetTwoTask v))
  else Ret None.

(** [Read] into the buffer: what arrives takes the place of its first bytes. *)
Definition refill (data buff : bytes) : bytes := data ++ drop (length data) buff.

(** The commands of one connection, each a read of at most the buffer; the end of the list
    is a read that fails. What was done, and whether the proxy survived. *)
Fixpoint session (reads : list bytes) (buff : bytes) : list action * result unit :=
  match reads with
  | [] => ([], Ret tt)
  | r :: reads =>
    let buff := refill r buff in
    match command buff (zlen r) with
    | Ret a => let '(acts, res) := session reads buff in (option_list a ++ acts, res)
    | Panic => ([], Panic)
    | Error e => ([], Error e)
    | Fatal => ([], Fatal)
    | Hang => ([], Hang)
    end
  end.

(** The loop over the connections, one at a time, each with a buffer of its own; [None] is
    an [Accept] that fails, whose error is dropped and whose connection is nil. It goes on
    for as long as there are connections. *)
Fixpoint serve (conns : list (option (list bytes))) : list action * result unit :=
  match conns with
  | [] => ([], Hang)
  | None :: _ => ([], Panic)
  | Some reads :: conns =>
    match session reads (replicate 100 0) with
    | (acts, Ret _) => let '(acts', res) := serve conns in (acts ++ acts', res)
    | (acts, res) => (acts, res)
    end
  end.

(** [CheckEnableProfiling]: [listens] is whether the port of the commands is free. *)
Definition CheckEnableProfiling (enabled listens : bool) (conns : list (option (list bytes))) : list action * result unit :=
  if enabled && listens then serve conns else ([], Ret tt).

(** A command with an argument that is typed without one crashes the proxy: the
    argument is cut out of the buffer without a look at what was read. *)
Theorem short_command_panics (buff : bytes) (n : Z) c : head buff = Some c → c ∈ [115; 98; 116] → n < 4 → command buff n = Panic.
Proof.
  intros Hb Hc Hn. destruct buff as [|c' buff]; [done|]. injection Hb as ->. unfold command. change (index_get (c :: buff) 0) with (Ret c).
  cbn [mbind result_bind]. assert (Ha : argument (c :: buff) n = Panic).
  { unfold argument, slice. by rewrite (proj2 (Z.leb_gt 2 (n - 2))), andb_false_r by lia. }
  rewrite Ha. repeat (apply elem_of_cons in Hc as [->|Hc]; [done|]). by apply not_elem_of_nil in Hc.
Qed.

Lemma short_command_panics_witness : command (str "s" ++ replicate 99 0) 3 = Panic.
Proof. apply (short_command_panics (str "s" ++ replicate 99 0) 3 115); [reflexivity|by left|lia]. Defined.

(** A line that is a command and has an argument when the command takes one. *)
Definition line_ok (r : bytes) : Prop := r ≠ [] ∧ (length r <= 100)%nat ∧ (∀ c, head r = Some c → c ∈ [115; 98; 116] → 4 <= zlen r).

Lemma refill_length data buff : (length data <= length buff)%nat → length (refill data buff) = length buff.
Proof. unfold refill. rewrite length_app, length_drop. lia. Qed.

Lemma command_ok r buff : length buff = 100%nat → line_ok r → ∃ a, command (refill r buff) (zlen r) = Ret a.
Proof.
  intros Hb (Hne & Hl & Ha). assert (Hlen : length (refill r buff) = 100%nat) by (rewrite refill_length; lia).
  assert (Harg : 4 <= zlen r → ∃ v, argument (refill r buff) (zlen r) = Ret v).
  { intros H4. unfold argument, slice. rewrite Hlen. rewrite !(proj2 (Z.leb_le _ _)) by lia. eauto. }
  destruct r as [|c r]; [done|]. specialize (Ha c eq_refl).
  unfold command. change (index_get (refill (c :: r) buff) 0) with (Ret c). cbn [mbind result_bind].
  destruct (Z.eqb_spec c 115) as [->|]; [destruct Harg as [v ->]; [apply Ha; by left|eauto]|].
  destruct (Z.eqb_spec c 101) as [->|]; [eauto|].
  destruct (Z.eqb_spec c 98) as [->|]; [destruct Harg as [v ->]; [apply Ha; right; by left|eauto]|].
  destruct (Z.eqb_spec c 103) as [->|]; [eauto|].
  destruct (Z.eqb_spec c 116) as [->|]; [destruct Harg as [v ->]; [apply Ha; do 2 right; by left|eauto]|]. eauto.
Qed.

Lemma session_ok reads buff : length buff = 100%nat → Forall line_ok reads → (session reads buff).2 = Ret tt.
Proof.
  intros Hb F. revert buff Hb. induction F as [|r reads Hr F IH]; intros buff Hb; [done|]. cbn [session].
  destruct (command_ok r buff Hb Hr) as [a ->]. specialize (IH (refill r buff)). destruct (session reads (refill r buff)) as [acts res].
  apply IH. destruct Hr as (_ & Hl & _). rewrite refill_length; lia.
Qed.

(** Well-formed lines never crash the proxy, whatever the connections before left. *)
Theorem profiler_survives conns : Forall (Forall line_ok) conns → (serve (Some <$> conns)).2 = Hang.
Proof.
  induction 1 as [|reads conns Hr F IH]; [done|]. cbn [fmap list_fmap serve].
  pose proof (session_ok reads (replicate 100 0) ltac:(by rewrite length_replicate) Hr) as E.
  destruct (session reads _) as [acts res]. cbn [snd] in E. subst res. destruct (serve (Some <$> conns)) as [acts' res']. apply IH.
Qed.

Lemma profiler_survives_witness : (serve [Some [str "s x" ++ [13; 10]; str "e" ++ [13; 10]]; Some [str "g"]]).2 = Hang.
Proof.
  apply (profiler_survives [[str "s x" ++ [13; 10]; str "e" ++ [13; 10]]; [str "g"]]).
  repeat constructor; try discriminate; try (cbn; lia); cbn; intros c [= <-] Hc; try lia; exfalso; revert Hc; apply (bool_decide_unpack _); vm_compute; exact I.
Defined.

End Profiler.

(** ** lib/loopdriver.go *)
Module LoopDriver.

(** The answer to the selection of a shard. *)
Definition select_shard (s : stream) : stream * result unit :=
  match NewNetstring s with
  | (s, Ret a) =>
    if Cmd a =? RcOK then (s, Ret tt) else (s, Error (errors_New (str "HERA_SET_SHARD_ID response: " ++ Serialized a)))
  | (s, Error e) => (s, Error (errors_New (str "Failed to set shardID: " ++ Error_text e)))
  | (s, Panic) => (s, Panic)
  | (s, Fatal) => (s, Fatal)
  | (s, Hang) => (s, Hang)
  end.

(** [Open]: what is written to the other end of the pipe, whose answers are [s]. *)
Definition Open (sharding : bool) (url : bytes) (s : stream) : bytes * (stream * result unit) :=
  let fields := Fmt.Split url (str ":") in
  if (0 <? zlen url) && (length fields =? 3)%nat && sharding then
    (Serialized (NewNetstringFrom CmdSetShardID (default [] (head fields))), select_shard s)
  else ([], (s, Ret tt)).

Lemma drop_sep (a c : bytes) : drop (length a + length [58 : byte]) (a ++ 58 :: c) = c.
Proof. rewrite <- drop_drop, drop_app_length. done. Qed.

Lemma Split_url (a b c : bytes) : Forall (λ x, x ≠ 58) a → Forall (λ x, x ≠ 58) b → Forall (λ x, x ≠ 58) c →
  Fmt.Split (a ++ 58 :: b ++ 58 :: c) (str ":") = [a; b; c].
Proof.
  intros Ha Hb Hc. unfold Fmt.Split. change (str ":") with [58]. rewrite length_app. cbn [length]. rewrite length_app. cbn [length].
  replace (length a + S (length b + S (length c)))%nat with (S (S (length a + length b + length c))) by lia. cbn [Fmt.split_loop].
  rewrite Fmt.Index_byte by done. rewrite (proj2 (Z.ltb_ge _ 0)) by lia. rewrite Nat2Z.id, take_app_length. f_equal.
  rewrite drop_sep. rewrite Fmt.Index_byte by done. rewrite (proj2 (Z.ltb_ge _ 0)) by lia. rewrite Nat2Z.id, take_app_length. f_equal.
  rewrite drop_sep.
  destruct (length a + length b + length c)%nat; cbn [Fmt.split_loop]; [done|]. by rewrite Fmt.Index_byte_none.
Qed.

(** A loop connection to a shard first asks for the shard, and is open when the proxy
    agrees. *)
Lemma Open_shard (n : Z) (s : stream) : 0 <= n →
  Open true (itoa n ++ str ":0:0") s = (Serialized (NewNetstringFrom CmdSetShardID (itoa n)), select_shard s).
Proof.
  intros Hn. destruct (Fmt.itoa_numeral n Hn) as (Hd & Hne & _).
  assert (Ha : Forall (λ x, x ≠ 58) (itoa n)) by (eapply Forall_impl; [exact Hd|]; unfold is_digit; intros x Hx; lia).
  assert (Es : Fmt.Split (itoa n ++ str ":0:0") (str ":") = [itoa n; [48]; [48]]) by (apply (Split_url (itoa n) [48] [48]); try done; by repeat constructor).
  unfold Open. rewrite Es. destruct (itoa n ++ str ":0:0") as [|x l] eqn:El; [by destruct (itoa n)|].
  cbn [length Nat.eqb andb]. by rewrite (proj2 (Z.ltb_lt 0 _)) by lia.
Qed.

End LoopDriver.
