(* ===== verification/Dial.v ===== *)
(** * Opening a connection to the proxy (client/gosqldriver/tcp/driver.go,
    client/gosqldriver/tls/driver.go), and the commands of the driver that the proxy answers
    itself: the driver composed with the session of lib/coordinator.go. *)

From S2P Require Import Prelude GoIO Codes Netstring ConfigFile Config Fmt WorkerClient Coordinator MysqlPackets Connection ClientDriver StateLog Utilities.
From stdpp Require Import base list strings relations.
From Stdlib Require Import ZArith Lia.
Open Scope Z_scope.

Module Dial.
Import Codes Netstring GoStrings ClientDriver.

(** ** The drivers *)

(** The command the driver introduces itself with. *)
Definition hello (pid : Z) (host : bytes) : Packet :=
  NewNetstringFrom CmdClientInfo
    (str "PID: " ++ itoa pid ++ str ",HOST: " ++ host ++ str ", EXEC: " ++ itoa pid ++ str "@" ++ host ++
     str ", Poolname: unset, Command: init, null, Name: GO_driver").

(** What both drivers do on a new connection, whose reads are [s] and whose writes are
    answered by [answers]: the commands sent, and the connection. *)
Definition introduce (pid : Z) (host : bytes) (answers : list (option go_error)) (s : stream) :
    list Packet * result heraConnection :=
  let h := hello pid host in
  match head answers with
  | Some (Some _) => ([h], Error (errors_New (str "Failed custom auth, failed to send client info")))
  | _ =>
    ([h],
     match ReadNext (NewNetstringReader s) with
     | (r, Ret _) => Ret (NewHeraConnection (reader r) (tail answers))
     | (_, Error _) => Error (errors_New (str "Failed to read server info"))
     | (_, Panic) => Panic
     | (_, Fatal) => Fatal
     | (_, Hang) => Hang
     end)
  end.

(** [Open] of the TCP driver; [dial] is what the network gives for an address. *)
Definition tcp_Open (dial : bytes → option go_error) (url : bytes) (pid : Z) (host : bytes)
    (answers : list (option go_error)) (s : stream) : list Packet * result heraConnection :=
  match dial url with
  | Some e => ([], Error e)
  | None => introduce pid host answers s
  end.

(** [Open] of the TLS driver: the address follows a prefix of two bytes. *)
Definition tls_Open (dial : bytes → option go_error) (url : bytes) (pid : Z) (host : bytes)
    (answers : list (option go_error)) (s : stream) : list Packet * result heraConnection :=
  match slice_from url 2 with
  | Ret ipport =>
    match dial ipport with
    | Some e => ([], Error e)
    | None => introduce pid host answers s
    end
  | _ => ([], Panic)
  end.

(** ** What the proxy writes *)

(** The bytes the session writes to its client when it handles a command itself. *)
Definition session_answer (app : Config.Config) (hostname poolName : bytes) (p : Packet) (s : Coordinator.Session) : option bytes :=
  match Coordinator.processMuxCommand app hostname poolName p (s, Coordinator.mkWorld [] [] [] [] [] []) with
  | ((_, w), Ret true) => Some (concat (omap (λ a, match a with Coordinator.ToClient d => Some d | _ => None end) (Coordinator.log w)))
  | _ => None
  end.

(** The buffer of the handshake is large. *)
#[local] Opaque Connection.sendHandshake.

(** The bytes that greet a new client. *)
Definition greeting (connection_id : Z) : list bytes :=
  let c := (Connection.sendHandshake (Connection.mkConn (mkStream [] io_EOF) connection_id [])).1 in
  omap (λ a, match a with Connection.Written d => Some d | _ => None end) (Connection.c_log c).

(** ** The pipe of the loop driver *)

(** [net.Pipe] has no buffer: a write waits until the other end has read all of it. *)
Inductive pipe_op : Type := PWrite (d : bytes) | PRead.

Definition still (d : bytes) (ops : list pipe_op) : list pipe_op := match d with [] => ops | _ => PWrite d :: ops end.

Inductive pipe_step : list pipe_op * list pipe_op → list pipe_op * list pipe_op → Prop :=
  | pipe_right d1 d2 a b : d1 ≠ [] → pipe_step (PWrite (d1 ++ d2) :: a, PRead :: b) (still d2 a, b)
  | pipe_left d1 d2 a b : d1 ≠ [] → pipe_step (PRead :: a, PWrite (d1 ++ d2) :: b) (a, still d2 b).

(** The first operations of the two ends: [Open] of the loop driver, and the handler of the
    connection, which greets its client and waits for the response. *)
Definition loop_ops (sharding : bool) (url : bytes) : list pipe_op :=
  match (LoopDriver.Open sharding url (mkStream [] io_EOF)).1 with
  | [] => []
  | d => [PWrite d; PRead]
  end.

Definition handler_ops (connection_id : Z) : list pipe_op := map PWrite (greeting connection_id) ++ [PRead].

(** ** Properties *)

Lemma NewNetstring_unknown (s : stream) b l : unread s = b :: l → b ≠ 1 → ∃ s' e, NewNetstring s = (s', Error e).
Proof.
  intros Hu Hb. unfold NewNetstring.
  destruct (bufio.ReadByte_some (bufio.NewReader s) b l Hu) as (b1 & -> & _). rewrite (proj2 (Z.eqb_neq b 1)) by done.
  destruct (b =? 0); eauto.
Qed.

Lemma ReadNext_unknown (s : stream) b l : unread s = b :: l → b ≠ 1 → ∃ r e, ReadNext (NewNetstringReader s) = (r, Error e).
Proof.
  intros Hu Hb. destruct (NewNetstring_unknown s b l Hu Hb) as (s' & e & E). unfold ReadNext.
  rewrite Nat.add_comm. cbn [ReadNext_loop Nat.add NewNetstringReader ns nss next reader]. rewrite lookup_nil, E. eauto.
Qed.

Lemma greeting_eq id : greeting id = [Mysql.header 58 0 ++ Connection.handshake_bytes id].
Proof.
  unfold greeting. rewrite Connection.sendHandshake_eq. unfold Connection.written. cbn [Connection.c_log Connection.connection_id].
  generalize (Mysql.header 58 0 ++ Connection.handshake_bytes id) as d. done.
Qed.

Lemma introduce_unknown pid host answers (s : stream) b l : unread s = b :: l → b ≠ 1 → (∀ e, head answers ≠ Some (Some e)) →
  introduce pid host answers s = ([hello pid host], Error (errors_New (str "Failed to read server info"))).
Proof.
  intros Hu Hb Ha. unfold introduce. destruct (ReadNext_unknown s b l Hu Hb) as (r & e & ->).
  destruct (head answers) as [[e'|]|]; [by destruct (Ha e')|done..].
Qed.

(** The reader of a first netstring takes the indicator byte for a digit of the length. *)
Lemma Init_refuses (s : stream) rest : unread s = 1 :: rest →
  (NewInitNetstring s).2 = Error (errors_New (str "Expected digit reading length")).
Proof.
  intros Hu. unfold NewInitNetstring, parse_netstring. rewrite Hu. cbn [length].
  destruct (Read_byte s 1 rest Hu) as (s' & E & _). unfold mbind, io_bind. cbn [read_length]. unfold mbind, io_bind. by rewrite E.
Qed.

(** No connection of the Go driver to this proxy opens: the proxy greets every client
    with the handshake of the MySQL protocol, whose first byte is not the indicator of a
    netstring, so that both drivers, having sent their introduction, fail to read the
    answer; a proxy set to netstrings refuses the introduction. *)
Theorem driver_meets_handshake (id pid : Z) (host url : bytes) (dial : bytes → option go_error) (s : stream) (rest : bytes)
    (answers : list (option go_error)) :
  unread s = concat (greeting id) ++ rest → (∀ e, head answers ≠ Some (Some e)) → (∀ a, dial a = None) →
  let failed := ([hello pid host], Error (errors_New (str "Failed to read server info"))) in
  tcp_Open dial url pid host answers s = failed ∧
  (2 <= zlen url → tls_Open dial url pid host answers s = failed) ∧
  (NewInitNetstring (bytes_NewReader (Serialized (hello pid host)))).2 = Error (errors_New (str "Expected digit reading length")).
Proof.
  intros Hu Ha Hd. rewrite greeting_eq in Hu. cbn [concat] in Hu. rewrite app_nil_r in Hu.
  change (unread s = 58 :: ([0; 0; 0] ++ Connection.handshake_bytes id) ++ rest) in Hu.
  assert (Hi : introduce pid host answers s = ([hello pid host], Error (errors_New (str "Failed to read server info"))))
    by (eapply introduce_unknown; [exact Hu|lia|exact Ha]).
  split_and!.
  - unfold tcp_Open. by rewrite Hd.
  - intros Hl. unfold tls_Open, slice_from. rewrite (proj2 (Z.leb_le 2 _)) by done. cbn. by rewrite Hd.
  - eapply Init_refuses. unfold hello. rewrite From_Serialized. unfold unread. cbn [stream_Reader bytes_NewReader chunks concat]. by rewrite app_nil_r.
Qed.

(** With sharding on, the connections through which the proxy loads its own shard map
    and maintenance table never open: the loop driver and the handler of its connection both
    start with a write to a pipe without a buffer, and neither is ever read. *)
Theorem loop_driver_deadlocks (n id : Z) : 0 <= n →
  loop_ops true (itoa n ++ str ":0:0") ≠ [] ∧
  ∀ st, rtc pipe_step (loop_ops true (itoa n ++ str ":0:0"), handler_ops id) st → st = (loop_ops true (itoa n ++ str ":0:0"), handler_ops id).
Proof.
  intros Hn. unfold loop_ops, handler_ops. rewrite LoopDriver.Open_shard, greeting_eq by done. cbn [fst map Datatypes.app].
  destruct (Serialized (NewNetstringFrom CmdSetShardID (itoa n))) as [|x l] eqn:El; [by rewrite From_Serialized in El|].
  split; [done|]. intros st Hst. inversion Hst as [|? y ? Hs]; [done|]. inversion Hs.
Qed.

(** ** Commands the session answers *)

(** A connection that has read everything so far and whose next bytes are [d]. *)
Definition awaits (c : heraConnection) (d : bytes) : Prop := ∃ st rest, h_reader c = NewNetstringReader st ∧ unread st = d ++ rest.

Lemma getResponse_unknown c b d : awaits c (b :: d) → b ≠ 1 → ∃ c' e, getResponse c = (c', Error e).
Proof.
  intros (st & rest & E & Hu) Hb. destruct (ReadNext_unknown st b (d ++ rest) Hu Hb) as (r & e & Er).
  unfold getResponse. rewrite E, Er. eauto.
Qed.

Lemma getResponse_From c cmd payload : 0 < cmd < 2 ^ 63 → zlen (Serialized (NewNetstringFrom cmd payload)) < 2 ^ 62 →
  awaits c (Serialized (NewNetstringFrom cmd payload)) → ∃ c' p, getResponse c = (c', Ret p) ∧ Cmd p = cmd ∧ Payload p = payload.
Proof.
  intros Hc Hl (st & rest & E & Hu). destruct (NewNetstring_From_ok st cmd payload rest) as (st' & p & Ep & Hcmd & Hp & _); [lia|done..|].
  unfold getResponse, ReadNext. rewrite E, Nat.add_comm. cbn [ReadNext_loop Nat.add NewNetstringReader ns nss next reader].
  rewrite lookup_nil, Ep. change (CodeSubCommand - 48) with 0. rewrite (proj2 (Z.eqb_neq _ _)) by lia. cbn. eauto.
Qed.

(** Writing a command does not change what the connection will read. *)
Lemma exec_awaits cmd payload c d : awaits c d → ∃ c', ignore_error (exec cmd payload) c = (c', Ret tt) ∧ awaits c' d.
Proof.
  intros (st & rest & E & Hu). unfold ignore_error, exec, execNs.
  destruct (head (h_answers c)) as [[e|]|]; (eexists; split; [reflexivity|]; by exists st, rest).
Qed.

(** The answers of the session, whatever it is doing. *)
Lemma answers_count app hostname poolName p s : IsMySQL p = false → Cmd p = CmdGetNumShards →
  session_answer app hostname poolName p s = Some (Serialized (NewNetstringFrom RcOK (itoa (Config.NumOfShards (Config.Sharding app))))).
Proof.
  intros Hm Hc. unfold session_answer, Coordinator.processMuxCommand. rewrite Hm, Hc.
  generalize (Serialized (NewNetstringFrom RcOK (itoa (Config.NumOfShards (Config.Sharding app))))) as d. intros d.
  change (Some (d ++ []) = Some d). by rewrite app_nil_r.
Qed.

Lemma answers_end app hostname poolName p s : IsMySQL p = false → Cmd p ∈ [CmdCommit; CmdRollback] → Coordinator.worker s = None →
  session_answer app hostname poolName p s = Some (str "1:5,").
Proof.
  intros Hm Hc Hw. unfold session_answer, Coordinator.processMuxCommand. rewrite Hm. destruct s. cbn in Hw. subst.
  rewrite !elem_of_cons, elem_of_nil in Hc. by destruct Hc as [->|[->|[]]].
Qed.

(** The driver learns the number of shards of the proxy: what the session answers is
    read back by the driver as the configured number, whatever the session is doing. *)
Theorem shard_count_roundtrip app hostname poolName s c d : 0 <= Config.NumOfShards (Config.Sharding app) < 2 ^ 63 →
  session_answer app hostname poolName (NewNetstringFrom CmdGetNumShards []) s = Some d → awaits c d →
  ∃ c', GetNumShards c = (c', Ret (Config.NumOfShards (Config.Sharding app))).
Proof.
  intros Hn Hd Hc. rewrite answers_count in Hd by done. injection Hd as <-. unfold GetNumShards.
  destruct (exec_awaits CmdGetNumShards [] c _ Hc) as (c1 & E1 & Hc1). rewrite (io_bind_Ret _ _ _ _ _ E1).
  destruct (getResponse_From c1 RcOK (itoa (Config.NumOfShards (Config.Sharding app)))) as (c2 & p & E2 & Hcmd & Hp); [done| |done|].
  { pose proof (length_From RcOK (itoa (Config.NumOfShards (Config.Sharding app))) ltac:(done)) as Hl. pose proof (length_itoa _ Hn). lia. }
  rewrite (io_bind_Ret _ _ _ _ _ E2). exists c2. unfold check_ok. rewrite Hcmd, Hp. change (Fmt.format "%d") with [Fmt.Dint].
  rewrite (Fmt.Sscanf_end _ _ (Fmt.itoa_numeral _ (proj1 Hn))) by lia. done.
Qed.

(** A commit or rollback outside of a transaction fails in the driver although the
    session answers that it succeeded: the answer is written without the indicator byte
    that the driver expects in front of every netstring. *)
Theorem idle_commit_unreadable app hostname poolName s c d cmd : cmd ∈ [CmdCommit; CmdRollback] → Coordinator.worker s = None →
  session_answer app hostname poolName (NewNetstringFrom cmd []) s = Some d → awaits c d →
  d = str "1:5," ∧ ∃ c' e, tx_cmd cmd true c = (c', Error e).
Proof.
  intros Hcmd Hw Hd Hc. rewrite answers_end in Hd by done. injection Hd as <-. split; [done|]. unfold tx_cmd. cbn [negb].
  destruct (exec_awaits cmd [] c _ Hc) as (c1 & E1 & Hc1). unfold ignore_error in E1.
  unfold mbind, io_bind. destruct (exec cmd [] c) as [c2 [[]|e| | |]]; simplify_eq/=; [|eauto].
  destruct (getResponse_unknown c1 49 (str ":5,") Hc1) as (c3 & e & ->); [lia|]. eauto.
Qed.

(** ** Concrete runs *)

Definition ex_dial : bytes → option go_error := λ _, None.
Definition ex_greeted : stream := mkStream [Mysql.header 58 0 ++ Connection.handshake_bytes 1] io_EOF.

Lemma driver_meets_handshake_witness :
  tcp_Open ex_dial (str "127.0.0.1:10101") 77 (str "web") [] ex_greeted =
    ([hello 77 (str "web")], Error (errors_New (str "Failed to read server info"))).
Proof.
  refine (proj1 (driver_meets_handshake 1 77 (str "web") (str "127.0.0.1:10101") ex_dial ex_greeted [] [] _ _ _)).
  - rewrite greeting_eq. reflexivity.
  - intros e. discriminate.
  - reflexivity.
Defined.

Lemma loop_driver_deadlocks_witness : loop_ops true (str "0:0:0") ≠ [] ∧
  ∀ st, rtc pipe_step (loop_ops true (str "0:0:0"), handler_ops 1) st → st = (loop_ops true (str "0:0:0"), handler_ops 1).
Proof. apply (loop_driver_deadlocks 0 1). lia. Defined.

Definition ex_conn (d : bytes) : heraConnection := NewHeraConnection (mkStream [d] io_EOF) [].

Lemma shard_count_roundtrip_witness :
  ∃ c', GetNumShards (ex_conn (Serialized (NewNetstringFrom RcOK (str "5")))) = (c', Ret 5).
Proof.
  apply (shard_count_roundtrip StateLog.sample_app (str "db") (str "pool") Coordinator.NewCoordinator
    (ex_conn (Serialized (NewNetstringFrom RcOK (str "5")))) (Serialized (NewNetstringFrom RcOK (str "5")))).
  - split; [discriminate|reflexivity].
  - vm_compute. reflexivity.
  - exists (mkStream [Serialized (NewNetstringFrom RcOK (str "5"))] io_EOF), []. split; vm_compute; reflexivity.
Defined.

Lemma idle_commit_unreadable_witness : ∃ c' e, tx_cmd CmdCommit true (ex_conn (str "1:5,")) = (c', Error e).
Proof.
  refine (proj2 (idle_commit_unreadable StateLog.sample_app (str "db") (str "pool") Coordinator.NewCoordinator (ex_conn (str "1:5,"))
    (str "1:5,") CmdCommit _ _ _ _)).
  - left.
  - reflexivity.
  - vm_compute. reflexivity.
  - exists (mkStream [str "1:5,"] io_EOF), []. split; vm_compute; reflexivity.
Defined.
End Dial.
