(* ===== verification/WorkerLink.v ===== *)
(** * The connection between the proxy and a worker (lib/workerclient.go, lib/util.go): the
    bytes written to the worker, and the loop that reads its answers from the socket and
    hands them to the session. *)

From S2P Require Import Prelude GoIO Codes Netstring MysqlPackets Config WorkerClient Fmt Adapter CmdProcessor WorkerCmd WorkerFacts WorkerService.
From stdpp Require Import base list strings.
From Stdlib Require Import ZArith Lia.
Open Scope Z_scope.

Module WorkerLink.
Import Codes Netstring WorkerClient.

(** ** Writing *)

(** [WriteAll]: the answers of the writer are the bytes it took and its error; [out] is
    what it has taken. Every write is of all the data. *)
Fixpoint WriteAll (answers : list (Z * option go_error)) (data : bytes) (towrite : Z) (out : bytes) : bytes * result unit :=
  if 0 <? towrite then
    match answers with
    | [] => (out, Hang)
    | (n, err) :: answers =>
      let out := out ++ take (Z.to_nat n) data in
      match err with
      | Some e => (out, Error e)
      | None => WriteAll answers data (towrite - n) out
      end
    end
  else (out, Ret tt).

(** [Write]: the state of the worker, what its socket took and whether it is terminated;
    [conn] is whether the connection is still there. *)
Definition link_Write (conn : bool) (answers : list (Z * option go_error)) (ns : Packet) (nsCount : Z) (w : WorkerClient) :
    WorkerClient * bytes * bool * result unit :=
  let w := Write nsCount w in
  if negb conn then (w, [], false, Error (errors_New (str "writing to a closed workerconn")))
  else
    let '(out, r) := WriteAll answers (Serialized ns) (zlen (Serialized ns)) [] in
    (w, out, match r with Error _ => true | _ => false end, r).

(** ** Reading *)

(** One packet of either kind. When neither reader finds one, the packet of the second,
    which is nil, is logged. *)
Definition read_packet : io stream Packet := λ s,
  match NewNetstring s with
  | (s, Error WRONGPACKET) =>
    match Mysql.NewMySQLPacket s with
    | (s, Error _) => (s, Panic)
    | x => x
    end
  | x => x
  end.

(** [doRead] on the socket: every turn takes at least a byte of it. *)
Fixpoint doRead_loop (fuel : nat) (st : read_state) : io stream read_state := λ s,
  match fuel with
  | O => (s, Hang)
  | S fuel =>
    match read_packet s with
    | (s, Ret ns) =>
      match read_one ns st with
      | Ret (st, true) => doRead_loop fuel st s
      | Ret (st, false) => (s, Ret st)
      | Error e => (s, Error e)
      | Panic => (s, Panic)
      | Fatal => (s, Fatal)
      | Hang => (s, Hang)
      end
    | (s, Error _) => (s, Ret (flush st))
    | (s, Panic) => (s, Panic)
    | (s, Fatal) => (s, Fatal)
    | (s, Hang) => (s, Hang)
    end
  end.

Definition doRead_conn (status : Z) : io stream read_state := λ s,
  doRead_loop (S (length (unread s))) (mkRead status [] []) s.

(** ** Attaching *)

(** What attaching does besides reading: the pool is told that the worker is ready and
    counts it as healthy, the session gets messages, and in the end the process is
    terminated and its connection closed. *)
Inductive attach_act : Set :=
  | SetState (st : Z)
  | Ready
  | IncHealthy
  | DecHealthy
  | Sends (m : workerMsg)
  | Terminates
  | Closes.

(** The deferred calls of [attachToWorker], which also run when it panics. *)
Definition deferred : list attach_act := [Terminates; Closes].

(** [attachToWorker]; [pool] is whether the broker finds the pool of the worker. The pool
    it does not find is nil, and the count of its healthy workers is that of a nil pool. *)
Definition attachToWorker (pool : bool) (w : WorkerClient) (s : stream) : WorkerClient * list attach_act * result unit :=
  match NewNetstring s with
  | (s, Ret ns) =>
    match control_message ns w with
    | None =>
      (w, deferred, Error (errors_New (str "Expected control message (" ++ itoa CmdControlMsg ++ str ") instead got (" ++ itoa (Cmd ns) ++ str ")")))
    | Some w =>
      let w := set_status wsAcpt w in
      if pool then
        match (doRead_conn (Status w) s).2 with
        | Ret rs => (set_status (rd_status rs) w,
                     [SetState wsAcpt; Ready; IncHealthy] ++ (Sends <$> rd_sent rs) ++ [DecHealthy] ++ deferred, Ret tt)
        | r => (w, [SetState wsAcpt; Ready; IncHealthy] ++ deferred, _ ← r; Ret tt)
        end
      else (w, [SetState wsAcpt] ++ deferred, Panic)
    end
  | (_, Error e) => (w, deferred, Error e)
  | (_, Panic) => (w, deferred, Panic)
  | (_, Fatal) => (w, deferred, Fatal)
  | (_, Hang) => (w, [], Hang)
  end.

(** [AttachToWorker]: the connection of a worker that failed is closed and forgotten; the
    last component is whether the worker still has its connection. *)
Definition AttachToWorker (pool : bool) (w : WorkerClient) (s : stream) : WorkerClient * list attach_act * result unit * bool :=
  let '(w, acts, r) := attachToWorker pool w s in
  match r with
  | Error _ => (w, acts ++ [Closes], r, false)
  | _ => (w, acts, r, true)
  end.

(** [GetNetstring]: a message without a parsed packet parses its bytes, and one that does
    not parse has none. *)
Definition GetNetstring (ns : option Packet) (data : bytes) : option Packet :=
  match ns with
  | Some _ => ns
  | None => match (NewNetstring (bytes_NewReader data)).2 with Ret p => Some p | _ => None end
  end.

(** ** Properties of writing *)

(** What the contract of [io.Writer] asks for: no more than the data is taken, and less
    only with an error. *)
Definition writer_ok (data : bytes) (a : Z * option go_error) : Prop := 0 <= a.1 <= zlen data ∧ (a.1 < zlen data → a.2 ≠ None).

(** With a writer that keeps the contract of [io.Writer], [WriteAll] ends after one
    write: it succeeds exactly when all the data was taken, once, and otherwise what was
    taken is a prefix of the data. *)
Theorem WriteAll_once (data : bytes) (a : Z * option go_error) rest : data ≠ [] → writer_ok data a →
  WriteAll (a :: rest) data (zlen data) [] = (take (Z.to_nat a.1) data, match a.2 with Some e => Error e | None => Ret tt end) ∧
  (a.2 = None → take (Z.to_nat a.1) data = data).
Proof.
  intros Hne ((Hn & Hm) & Hs). destruct a as [n err]. cbn [fst snd] in *. cbn [WriteAll].
  rewrite (proj2 (Z.ltb_lt 0 _)) by (destruct data; [done|cbn; lia]). destruct err as [e|]; [done|].
  assert (n = zlen data) as -> by (destruct (Z_lt_ge_dec n (zlen data)) as [Hlt|]; [by apply Hs in Hlt|lia]).
  rewrite Z.sub_diag, Nat2Z.id, firstn_all. split; [by destruct rest|done].
Qed.

(** ** Properties of reading *)

Definition framed (p : Packet) : Prop :=
  ∃ cmd payload, p = NewNetstringFrom cmd payload ∧ 0 <= cmd < 2 ^ 63 ∧ zlen (Serialized p) <= 4096.

Lemma read_framed p rest cs e : framed p → zlen (Serialized p ++ rest) <= 4096 →
  read_packet (mkStream ((Serialized p ++ rest) :: cs) e) = (mkStream cs e, Ret p).
Proof.
  intros (cmd & payload & -> & Hc & _) Hl. unfold read_packet. by rewrite NewNetstring_in_chunk.
Qed.

Lemma read_closed : read_packet (mkStream [] io_EOF) = (mkStream [] io_EOF, Error io_EOF).
Proof. done. Qed.

Lemma doRead_loop_refines pkts fuel st : Forall framed pkts → (length pkts < fuel)%nat →
  (doRead_loop fuel st (mkStream (map Serialized pkts) io_EOF)).2 = doRead pkts st.
Proof.
  revert fuel st. induction pkts as [|p pkts IH]; intros [|fuel] st F Hf; cbn [length] in Hf; try lia; cbn [map doRead_loop doRead].
  { by rewrite read_closed. }
  apply Forall_cons in F as [Hp F]. rewrite <- (app_nil_r (Serialized p)), read_framed; [|done|rewrite app_nil_r; by destruct Hp as (?&?&?&?&?)].
  destruct (read_one p st) as [[st' []]|?| | |]; cbn [mbind result_bind]; [|done..]. apply IH; [done|lia].
Qed.

Lemma framed_bytes pkts : Forall framed pkts → (length pkts <= length (concat (map Serialized pkts)))%nat.
Proof.
  induction 1 as [|p pkts (cmd & payload & -> & _) F IH]; cbn [length map concat]; [lia|]. rewrite From_Serialized, length_app. cbn [length]. lia.
Qed.

(** When the socket delivers the packets of a worker one read each, of at most 4096 bytes,
    reading from the socket is the relay of those packets. *)
Lemma doRead_conn_ok status pkts : Forall framed pkts →
  (doRead_conn status (mkStream (map Serialized pkts) io_EOF)).2 = doRead pkts (mkRead status [] []).
Proof.
  intros F. apply doRead_loop_refines; [done|]. pose proof (framed_bytes pkts F). cbn. lia.
Qed.

(** An end of response that reaches the proxy in the same read as the packet before it
    is lost: the session gets the data and is never told that the worker has finished. *)
Theorem coalesced_eor_lost status data eor : framed data → Cmd data ≠ CmdEOR → Cmd data ≠ CmdControlMsg →
  framed eor → Cmd eor = CmdEOR → zlen (Serialized data ++ Serialized eor) <= 4096 →
  ∃ st, (doRead_conn status (mkStream [Serialized data ++ Serialized eor] io_EOF)).2 = Ret st ∧
    rd_sent st = [data_msg (Serialized data)] ∧ eors st = 0%nat.
Proof.
  intros Hd He Hc _ _ Hl. assert (Hm : IsMySQL data = false) by (by destruct Hd as (? & ? & -> & _)).
  unfold doRead_conn. cbn [doRead_loop]. rewrite read_framed by done. unfold read_one at 1. rewrite Hm.
  rewrite (proj2 (Z.eqb_neq _ CmdEOR)), (proj2 (Z.eqb_neq _ CmdControlMsg)) by done. cbn [flush rd_payload rd_sent rd_status Datatypes.app].
  destruct (length (unread _)) eqn:E.
  { cbn in E. rewrite app_nil_r, length_app in E. destruct Hd as (cmd & payload & -> & _). by rewrite From_Serialized in E. }
  cbn [doRead_loop]. rewrite read_closed. eexists. split; [done|]. by split.
Qed.

Lemma read_broken e : e ≠ io_EOF → (read_packet (mkStream [] e)).2 = Panic.
Proof. by destruct e. Qed.

(** A packet that does not end the reading. *)
Definition relayable (p : Packet) : Prop := framed p ∧ eor_ok p ∧ Cmd p ≠ CmdControlMsg.

Lemma doRead_loop_broken pkts fuel st e : e ≠ io_EOF → Forall relayable pkts → (length pkts < fuel)%nat →
  (doRead_loop fuel st (mkStream (map Serialized pkts) e)).2 = Panic.
Proof.
  intros He. revert fuel st. induction pkts as [|p pkts IH]; intros [|fuel] st F Hf; cbn [length] in Hf; try lia; cbn [map doRead_loop].
  { pose proof (read_broken e He) as Hp. destruct (read_packet (mkStream [] e)) as [s r]. cbn in Hp. by subst r. }
  apply Forall_cons in F as [(Hp & Ho & Hc) F]. rewrite <- (app_nil_r (Serialized p)), read_framed; [|done|rewrite app_nil_r; by destruct Hp as (?&?&?&?&?)].
  destruct (read_one_spec p st) as (st' & -> & _); [|done|apply IH; [done|lia]].
  by rewrite (proj2 (Z.eqb_neq _ CmdControlMsg)), andb_false_r.
Qed.

(** Any failure to read from a worker other than the end of its stream is taken for a
    packet of the MySQL protocol, whatever was read before, and reading that packet panics
    the proxy. *)
Theorem broken_connection_panics status pkts e : e ≠ io_EOF → Forall relayable pkts →
  (doRead_conn status (mkStream (map Serialized pkts) e)).2 = Panic.
Proof.
  intros He F. apply doRead_loop_broken; [done..|]. pose proof (framed_bytes pkts) as Hl.
  change (length pkts < S (length (concat (map Serialized pkts))))%nat. specialize (Hl ltac:(eapply Forall_impl; [exact F|by intros p (? & _)])). lia.
Qed.

(** ** Properties of attaching *)

Lemma read_one_no_error ns st e : read_one ns st ≠ Error e.
Proof.
  unfold read_one. destruct (IsMySQL ns); [done|]. destruct (Cmd ns =? CmdEOR); [|by destruct (Cmd ns =? CmdControlMsg)].
  unfold read_eor, slice_from, index_get. repeat (case_match; cbn [mbind result_bind]; try done).
Qed.

Lemma doRead_loop_no_error fuel st s e : (doRead_loop fuel st s).2 ≠ Error e.
Proof.
  revert st s. induction fuel as [|fuel IH]; intros st s; cbn [doRead_loop]; [done|]. destruct (read_packet s) as [s' [ns|?| | |]]; [|done..].
  pose proof (read_one_no_error ns st) as Hn. destruct (read_one ns st) as [[st' []]|e'| | |]; [apply IH|done|by destruct (Hn e')|done..].
Qed.

(** A worker is made ready only by a control message, and once; the pool counts it as
    healthy exactly while its messages are relayed, and however the attachment returns, its
    process is terminated and its connection is closed. Without a control message, or on an
    error before it, nothing but that happens. *)
Theorem attach_lifecycle pool w s w' acts r conn : AttachToWorker pool w s = (w', acts, r, conn) →
  (∃ e, r = Error e ∧ acts = deferred ++ [Closes] ∧ conn = false ∧ w' = w) ∨
  (∃ ns rs, (NewNetstring s).2 = Ret ns ∧ Cmd ns = CmdControlMsg ∧ r = Ret tt ∧ Status w' = rd_status rs ∧
     acts = [SetState wsAcpt; Ready; IncHealthy] ++ (Sends <$> rd_sent rs) ++ [DecHealthy] ++ deferred) ∨
  (r = Panic ∨ r = Fatal ∨ r = Hang).
Proof.
  unfold AttachToWorker, attachToWorker, control_message. intros E.
  destruct (NewNetstring s) as [s' [ns|e| | |]]; simplify_eq; [|by left; eauto 8|by auto..].
  destruct (Z.eqb_spec (Cmd ns) CmdControlMsg) as [Hc|]; simplify_eq; [|by left; eauto 8].
  destruct pool; simplify_eq; [|by auto]. unfold doRead_conn in E.
  pose proof (doRead_loop_no_error (S (length (unread s'))) (mkRead (Status (set_status wsAcpt (match Payload ns with [] => w | p => set_racID (rac_loop p 0) w end))) [] []) s') as Hn.
  destruct ((doRead_loop _ _ s').2) as [rs|e| | |]; cbn [mbind result_bind] in E; simplify_eq; [|by destruct (Hn e)|by auto..].
  right; left. exists ns, rs. by split_and!.
Qed.

Section ready.
Context {D Tx Stmt Rows Res : Type} `{!SqlDB D Tx Stmt Rows Res} `{!EqDecision Stmt}.
Abbreviation Wk := (WorkerCmd.CmdProc Tx Stmt Rows Res * WorkerCmd.World D)%type.

(** The database the worker is built for can be used: the environment is complete, and one
    of the MySQL data sources can be opened, passes the check that it can be written to;
    for Oracle [sql.Open] takes the data source, which does not connect. *)
Definition db_ok (su : WorkerService.setup) : Prop :=
  let user := WorkerService.su_user su in
  let pass := WorkerService.su_pass su in
  let ds := WorkerService.su_ds su in
  user ≠ [] ∧ pass ≠ [] ∧ ds ≠ [] ∧
  match WorkerService.su_database su with
  | WorkerService.MysqlWorker => ∃ curDs, curDs ∈ Fmt.Split ds (str "||") ∧
      let name := user ++ str ":" ++ pass ++ str "@" ++ curDs in
      WorkerService.su_open su name = None ∧ WorkerService.writable su name = true
  | WorkerService.OracleWorker => WorkerService.su_open su (user ++ str "/" ++ pass ++ str "@" ++ ds) = None
  end.

Lemma InitDB_ok su : WorkerService.InitDB su = None ↔ db_ok su.
Proof.
  unfold WorkerService.InitDB, db_ok. destruct (WorkerService.su_database su).
  - rewrite Adapter.Mysql.InitDB_err. unfold WorkerService.sql_Open. split.
    + intros (? & ? & ? & c & d & ? & Ho & ?). split_and!; [done..|]. exists c. split; [done|].
      cbv zeta. destruct (WorkerService.su_open su _) eqn:E; [done|]. by injection Ho as <-.
    + intros (? & ? & ? & c & ? & Ho & ?). split_and!; [done..|]. eexists c, _. split; [done|]. by rewrite Ho.
  - unfold Adapter.Oracle.InitDB, WorkerService.sql_Open. repeat case_bool_decide; [naive_solver..|].
    destruct (WorkerService.su_open su _); naive_solver.
Qed.

Definition setup_ok (su : WorkerService.setup) : Prop :=
  WorkerService.su_config su ≠ None ∧ WorkerService.su_log su = true ∧ db_ok su.

Lemma start_up_ok su (s : Wk) : setup_ok su →
  WorkerService.start_up su s = (_ ← WorkerCmd.WriteAll WorkerService.ready_msg; mret true) s.
Proof.
  intros (Hc & Hl & Hd). unfold WorkerService.start_up. destruct (WorkerService.su_config su); [|done].
  by rewrite Hl, (proj2 (InitDB_ok su) Hd).
Qed.

Lemma start_up_not_ok su (s : Wk) : ¬ setup_ok su → WorkerService.start_up su s = (s, Ret false).
Proof.
  intros Hn. unfold WorkerService.start_up. destruct (WorkerService.su_config su) eqn:Hc; [|done].
  destruct (WorkerService.su_log su) eqn:Hl; [|done]. destruct (WorkerService.InitDB su) eqn:Hd; [done|].
  destruct Hn. split_and!; [by rewrite Hc|done|by apply InitDB_ok].
Qed.

(** The bytes a worker has written, as the proxy receives them: one read for each write. *)
Definition received (s : Wk) : list bytes := snd <$> WorkerCmd.w_out s.2.

(** C16: The pool is told that a worker is ready exactly when the worker has found its
    configuration, its log file and a complete environment and its adapter has initialized
    the database: for MySQL when one of the data sources could be opened and passes the check
    that it takes writes, for Oracle when [sql.Open] takes the data source, without a
    connection. Such a worker is made ready, whatever it sends after that, if the socket
    takes its first message; one that lacks something ends without a message, which the
    proxy takes for a failure to attach. *)
Theorem ready_iff_initialised su (s : Wk) w : WorkerCmd.w_out s.2 = [] →
  CmdProcessor.writeAll (WorkerCmd.next_writer s.2) (Serialized WorkerService.ready_msg) 0 = (Serialized WorkerService.ready_msg, Ret tt) →
  let '(s', r) := WorkerService.start_up su s in
  (setup_ok su → r = Ret true ∧ ∀ cs e, Ready ∈ (AttachToWorker true w (mkStream (received s' ++ cs) e)).1.1.2) ∧
  (¬ setup_ok su → r = Ret false ∧ (AttachToWorker true w (mkStream (received s') io_EOF)).1.1.2 = deferred ++ [Closes]).
Proof.
  intros Ho Hw.
  assert (E : (WorkerCmd.WriteAll WorkerService.ready_msg s).2 = Ret None ∧
    WorkerCmd.w_out (WorkerCmd.WriteAll WorkerService.ready_msg s).1.2 = WorkerCmd.w_out s.2 ++ [(WorkerService.ready_msg, Serialized WorkerService.ready_msg)])
    by (unfold WorkerCmd.WriteAll; rewrite Hw; done).
  destruct (WorkerService.start_up su s) as [s' r] eqn:Es. split; intros Hs.
  - rewrite start_up_ok in Es by done. unfold mbind, io_bind in Es.
    destruct (WorkerCmd.WriteAll WorkerService.ready_msg s) as [s1 r1]. destruct E as [E1 E2]. cbn [fst snd] in E1, E2. subst r1.
    injection Es as <- <-. split; [done|]. intros cs e. unfold received. rewrite E2, Ho. cbn [app fmap list_fmap snd].
    unfold AttachToWorker, attachToWorker. rewrite <- (app_nil_r (Serialized WorkerService.ready_msg)).
    unfold WorkerService.ready_msg at 1. rewrite NewNetstring_in_chunk; [|done|vm_compute; discriminate].
    unfold control_message. cbn [Cmd]. change (Cmd (NewNetstringFrom CmdControlMsg (str "0 MyDB")) =? CmdControlMsg) with true. cbv iota zeta.
    destruct (doRead_conn _ _).2; right; by left.
  - rewrite start_up_not_ok in Es by done. injection Es as <- <-. split; [done|]. unfold received. by rewrite Ho.
Qed.
End ready.

(** ** Concrete runs *)

Definition ex_value : Packet := NewNetstringFrom 3 (str "42").
Definition ex_eor : Packet := NewNetstringFrom CmdEOR (str "0" ++ [0; 1]).

Lemma ex_framed : framed ex_value ∧ framed ex_eor.
Proof. split; (eexists _, _; split; [reflexivity|]; split; [split; [vm_compute; discriminate|reflexivity]|vm_compute; discriminate]). Qed.

Lemma WriteAll_once_witness :
  WriteAll [(3, Some io_EOF)] (str "abcd") 4 [] = (str "abc", Error io_EOF) ∧ (Some io_EOF = None → str "abc" = str "abcd").
Proof. apply (WriteAll_once (str "abcd") (3, Some io_EOF) []); [discriminate|]. split; [cbn; lia|done]. Defined.

(** A writer that takes less without an error is given the data from its start again. *)
Lemma WriteAll_repeats : WriteAll [(2, None); (2, None)] (str "abcd") 4 [] = (str "abab", Ret tt).
Proof. done. Qed.

(** A worker that says it is ready, answers and goes away. *)
Definition ex_worker : WorkerClient := NewWorker (Config.mkOpsConfig 0 4 0 0 0 0 200 0) 7 0 0 0.

Lemma attach_lifecycle_witness : ∃ w' acts r conn,
  AttachToWorker true ex_worker (mkStream [Serialized (NewNetstringFrom CmdControlMsg (str "12 db")); Serialized ex_value] io_EOF) = (w', acts, r, conn) ∧
  racID w' = 12 ∧ acts = [SetState wsAcpt; Ready; IncHealthy; Sends (data_msg (Serialized ex_value)); DecHealthy; Terminates; Closes] ∧
  r = Ret tt ∧ conn = true.
Proof.
  eexists _, _, _, _. split; [vm_compute; reflexivity|].
  edestruct (attach_lifecycle true ex_worker (mkStream [Serialized (NewNetstringFrom CmdControlMsg (str "12 db")); Serialized ex_value] io_EOF))
    as [(e & He & _)|H]; [vm_compute; reflexivity|discriminate He|].
  clear H. split_and!; reflexivity.
Defined.

(** A worker with two MySQL data sources, the first of which takes only reads. *)
Definition ex_setup (second : bool) : WorkerService.setup :=
  WorkerService.mkSetup (Some [str "log_level=2"]) true WorkerService.MysqlWorker (str "app") (str "secret") (str "tcp(db1)/t||tcp(db2)/t") true
    (λ _, None)
    (λ name, WorkerService.mkHealth true true true (Some (inr (if second && bool_decide (name = str "app:secret@tcp(db2)/t") then 0 else 1)))).

Lemma ex_setup_ok : setup_ok (ex_setup true).
Proof.
  split; [discriminate|]. split; [reflexivity|]. split_and!; try discriminate. cbv beta iota zeta.
  exists (str "tcp(db2)/t"). split; [|split; reflexivity]. vm_compute. right. left.
Qed.

Lemma ready_iff_initialised_witness :
  Ready ∈ (AttachToWorker true ex_worker (mkStream (received (WorkerService.start_up (ex_setup true) (WorkerFacts.Toy.proc, WorkerFacts.Toy.world 1)).1) io_EOF)).1.1.2 ∧
  (WorkerService.start_up (ex_setup false) (WorkerFacts.Toy.proc, WorkerFacts.Toy.world 1)).2 = Ret false.
Proof.
  split.
  - pose proof (ready_iff_initialised (ex_setup true) (WorkerFacts.Toy.proc, WorkerFacts.Toy.world 1) ex_worker eq_refl eq_refl) as H.
    destruct (WorkerService.start_up _ _) as [s' r]. destruct H as [H _]. destruct (H ex_setup_ok) as [_ H'].
    specialize (H' [] io_EOF). by rewrite app_nil_r in H'.
  - vm_compute. reflexivity.
Defined.

Lemma coalesced_eor_lost_witness :
  ∃ st, (doRead_conn wsBusy (mkStream [Serialized ex_value ++ Serialized ex_eor] io_EOF)).2 = Ret st ∧
    rd_sent st = [data_msg (Serialized ex_value)] ∧ eors st = 0%nat.
Proof.
  apply (coalesced_eor_lost wsBusy ex_value ex_eor); try (apply ex_framed); try discriminate; vm_compute; try reflexivity; discriminate.
Defined.

Lemma broken_connection_panics_witness :
  (doRead_conn wsBusy (mkStream [Serialized ex_value] (errors_New (str "connection reset by peer")))).2 = Panic.
Proof.
  apply (broken_connection_panics wsBusy [ex_value]); [discriminate|]. constructor; [|constructor].
  split; [apply ex_framed|]. split; [by intros _ ?|discriminate].
Defined.
End WorkerLink.
