(* ===== verification/Background.v ===== *)
(** * Loops and settings around the main components: the pace of the saturation recovery
    (lib/adaptivequemgr.go), the signals of a worker (worker/shared/workerservice.go), the
    certificates of the MySQL worker (worker/mysqlworker/main.go) and the name of the ops
    configuration (config/ops_config.go). *)

From S2P Require Import Prelude GoIO Codes ConfigFile OpsFile Config Fmt Regexp StateLog RacMaint.
From stdpp Require Import base list strings.
From Stdlib Require Import ZArith Lia.
Open Scope Z_scope.

(** ** Saturation recovery *)
Module SatRecovery.
Import Config.

Definition disabled : Z := 2 ^ 63 - 1.

(** [time.Sleep(time.Millisecond * d)], in milliseconds: a negative duration returns at
    once. *)
Definition slept (d : Z) : Z := Z.max 0 (Z.quot (i64 (1000000 * d)) 1000000).

(** The configuration in force at each time, which a reload changes. *)
Section loop.
Context (app : Config) (opsAt : Z → OpsConfig) (shard : Z).

Definition freq (t : Z) : Z := GetSatRecoverFreqMs app (opsAt t) shard.

(** The time of the next recovery and what remains of the fuel: while the recovery is
    switched off it looks every thirty seconds. *)
Fixpoint wait_enabled (fuel : nat) (t : Z) : result (Z * nat) :=
  match fuel with
  | O => Hang
  | S fuel => if freq t =? disabled then wait_enabled fuel (t + 30000) else Ret (t + slept (freq t), fuel)
  end.

(** [runSaturationRecovery] from the time [t]: the times of its first recoveries. *)
Fixpoint runSaturationRecovery (n fuel : nat) (t : Z) : list Z :=
  match n with
  | O => []
  | S n => match wait_enabled fuel t with Ret (t, fuel) => t :: runSaturationRecovery n fuel t | _ => [] end
  end.

Lemma slept_id d : 0 <= d <= 2 ^ 40 → slept d = d.
Proof.
  intros Hd. unfold slept. rewrite i64_id by (unfold in_i64; lia). rewrite Z.mul_comm, Z.quot_mul by lia. lia.
Qed.

Lemma wait_enabled_later fuel t t' fuel' f : (∀ t, freq t = disabled ∨ f <= freq t <= 2 ^ 40) → 0 <= f →
  wait_enabled fuel t = Ret (t', fuel') → t + f <= t'.
Proof.
  intros Hf Hr. revert t. induction fuel as [|fuel IH]; intros t; cbn [wait_enabled]; [done|].
  destruct (Z.eqb_spec (freq t) disabled) as [_|Hn]; [intros ?%IH; lia|]. intros [= <- <-].
  destruct (Hf t); [done|]. rewrite slept_id by lia. lia.
Qed.
End loop.

(** The throttle holds whatever the reloads of the configuration: while no
    configuration in force asks for a shorter interval than [f], the [i]-th recovery, which
    ends the request of at most one worker, is not before [i] intervals have passed. *)
Theorem recovery_throttled app opsAt shard f n fuel t i x :
  (∀ t, freq app opsAt shard t = disabled ∨ f <= freq app opsAt shard t <= 2 ^ 40) → 0 <= f →
  runSaturationRecovery app opsAt shard n fuel t !! i = Some x → t + (Z.of_nat i + 1) * f <= x.
Proof.
  intros Hf Hr. revert fuel t i. induction n as [|n IH]; intros fuel t i; cbn [runSaturationRecovery]; [by rewrite lookup_nil|].
  destruct (wait_enabled app opsAt shard fuel t) as [[t1 fuel1]|?| | |] eqn:E; try by rewrite lookup_nil.
  pose proof (wait_enabled_later _ _ _ _ _ _ _ _ Hf Hr E) as H1. destruct i as [|i]; cbn [lookup list_lookup]; [intros [= <-]; lia|].
  intros ?%IH. lia.
Qed.

Definition ex_ops (t : Z) : OpsConfig := if t <? 1000 then mkOpsConfig 0 4 0 0 0 0 200 0 else mkOpsConfig 0 4 0 0 0 0 200 10.
Definition ex_first : Z := default 0 (runSaturationRecovery StateLog.sample_app ex_ops 0 2 10 0 !! 0%nat).

Lemma recovery_throttled_witness : 0 + (Z.of_nat 0 + 1) * 2500 <= ex_first.
Proof.
  apply (recovery_throttled StateLog.sample_app ex_ops 0 2500 2 10 0 0%nat ex_first).
  - intros t. unfold freq, ex_ops. destruct (t <? 1000); vm_compute; [by left|right; split; discriminate].
  - lia.
  - vm_compute. reflexivity.
Defined.
End SatRecovery.

(** ** The signals of a worker *)
Module Signals.

Inductive signal : Set := SIGHUP | SIGTERM.
Definition signalRecover : Z := 1.
Definition signalExit : Z := 2.

(** [waitForSignal] on the signals that reach its channel, which holds one and drops what
    comes while it is full: what the loop of the worker is told. After the request to exit
    the channel is closed, but the signals still go to it. *)
Fixpoint waitForSignal (sigs : list signal) : list Z * result unit :=
  match sigs with
  | [] => ([], Ret tt)
  | SIGHUP :: sigs => let '(l, r) := waitForSignal sigs in (signalRecover :: l, r)
  | [SIGTERM] => ([signalExit], Ret tt)
  | SIGTERM :: _ => ([signalExit], Panic)
  end.

(** Every signal up to the request to exit is passed on in order; one after it is a send
    on a closed channel. *)
Lemma waitForSignal_spec n sigs : waitForSignal (replicate n SIGHUP ++ SIGTERM :: sigs) =
  (replicate n signalRecover ++ [signalExit], match sigs with [] => Ret tt | _ => Panic end).
Proof. induction n as [|n IH]; cbn; [by destruct sigs|]. by rewrite IH. Qed.
End Signals.

(** ** The certificates of the MySQL worker *)
Module Certs.

(** A file of the directory: its name, and what is in it: nothing readable, no
    certificate, or certificates. *)
Inductive content : Type := Unreadable | NoCert | Cert (pem : bytes).

(** The loop of [main] that registers the certificates, by the name of the file without
    its ending. *)
Definition register (files : list (bytes * content)) : list (bytes * bytes) :=
  omap (λ f, if RacMaint.HasSuffix f.1 (str ".pem") then
               match f.2 with Cert pem => Some (take (length f.1 - 4) f.1, pem) | _ => None end
             else None) files.

(** A data source that names [tls=name] finds the certificates of [name.pem]. *)
Lemma register_spec name pem files : (name, pem) ∈ register files ↔ (name ++ str ".pem", Cert pem) ∈ files.
Proof.
  unfold register. rewrite list_elem_of_omap. split.
  - intros ([f c] & Hin & E). cbn [fst snd] in E. destruct (RacMaint.HasSuffix f (str ".pem")) eqn:Hs; [|done].
    destruct c as [| |pem']; simplify_eq. apply andb_true_iff in Hs as [_ Hs%bool_decide_eq_true].
    change (length (str ".pem")) with 4%nat in Hs. by rewrite <- Hs, take_drop.
  - intros Hin. eexists. split; [exact Hin|]. cbn [fst snd]. unfold RacMaint.HasSuffix. rewrite length_app.
    change (length (str ".pem")) with 4%nat. rewrite (proj2 (Z.leb_le _ _)) by lia. rewrite Nat.add_sub, drop_app_length, take_app_length.
    by rewrite bool_decide_true.
Qed.
End Certs.

(** ** The name of the ops configuration *)
Module OpsName.
Import GoStrings Regexp.

(** The application in the name of a pool: a name of a stage or of a proving ground has it
    after the first underscore. *)
Definition app_name (poolName : bytes) : bytes :=
  let idx := Fmt.Index (ToUpper poolName) (str "STAGE") in
  let idx := if idx <? 0 then Fmt.Index (ToUpper poolName) (str ".PG") else idx in
  if 0 <=? idx then
    let idx := Fmt.Index poolName (str "_") in
    if idx <? 0 then str "default" else drop (Z.to_nat (idx + 1)) poolName
  else poolName.

(** The longest start of a text of which every byte passes. *)
Fixpoint span (f : byte → bool) (s : bytes) : bytes * bytes :=
  match s with
  | [] => ([], [])
  | c :: t => if f c then let '(a, b) := span f t in (c :: a, b) else ([], s)
  end.

(** [^/x/web[0-9]*/?[^-/]*(-WACK)?], leftmost and greedy; no choice of it can make a later
    part fail. Empty when there is no match. *)
Definition web_dir (s : bytes) : bytes :=
  if Fmt.HasPrefix s (str "/x/web") then
    let '(ds, t) := span (λ c, (48 <=? c) && (c <=? 57)) (drop 6 s) in
    let '(sl, t) := (if Fmt.HasPrefix t (str "/") then (str "/", drop 1 t) else ([], t)) in
    let '(w, t) := span (λ c, negb ((c =? 45) || (c =? 47))) t in
    str "/x/web" ++ ds ++ sl ++ w ++ (if Fmt.HasPrefix t (str "-WACK") then str "-WACK" else [])
  else [].

(** [configName]: the pool name of the CAL configuration, and the working directory. *)
Definition configName (poolName dir : result bytes) : result bytes :=
  p ← poolName;
  let appname := app_name p in
  d ← dir;
  Ret (match web_dir d with
       | [] => str "./" ++ appname ++ str ".txt"
       | w => w ++ str "/opscfg/" ++ appname ++ str ".txt"
       end).

Lemma span_app f s : (span f s).1 ++ (span f s).2 = s.
Proof. induction s as [|c s IH]; [done|]. cbn. destruct (f c); [|done]. destruct (span f s). cbn in *. by rewrite IH. Qed.

Lemma span_all f s : Forall (λ c, f c = true) (span f s).1.
Proof. induction s as [|c s IH]; cbn; [done|]. destruct (f c) eqn:E; [|done]. destruct (span f s). cbn in *. by constructor. Qed.

Definition web_re : re :=
  Seq (lit (str "/x/web")) (Seq (Star (Class (λ c, (48 <=? c) && (c <=? 57)))) (Seq (Opt (lit [47]))
    (Seq (Star (Class (λ c, negb ((c =? 45) || (c =? 47))))) (Opt (lit (str "-WACK")))))).

Lemma HasPrefix_split s p : Fmt.HasPrefix s p = true → s = p ++ drop (length p) s.
Proof.
  revert s. induction p as [|c p IH]; intros s; [done|]. destruct s as [|x s]; [done|]. cbn. intros [->%Z.eqb_eq H%IH]%andb_true_iff. by rewrite <- H.
Qed.

(** The directory is a start of the working directory that the expression matches, and
    empty exactly when no start of it does. *)
Lemma web_dir_matches s : (web_dir s ≠ [] → ∃ rest, s = web_dir s ++ rest ∧ matches web_re (web_dir s) rest) ∧
  (web_dir s = [] → ∀ p rest, s = p ++ rest → ¬ matches web_re p rest).
Proof.
  unfold web_dir. destruct (Fmt.HasPrefix s (str "/x/web")) eqn:Hp.
  - apply HasPrefix_split in Hp. change (length (str "/x/web")) with 6%nat in Hp. set (t0 := drop 6 s) in *.
    pose proof (span_app (λ c, (48 <=? c) && (c <=? 57)) t0) as E1. pose proof (span_all (λ c, (48 <=? c) && (c <=? 57)) t0) as F1.
    destruct (span _ t0) as [ds t1]. cbn [fst snd] in E1, F1.
    assert (∃ sl t2, (if Fmt.HasPrefix t1 (str "/") then (str "/", drop 1 t1) else ([], t1)) = (sl, t2) ∧ t1 = sl ++ t2 ∧ (sl = [47] ∨ sl = []))
      as (sl & t2 & -> & E2 & Hsl).
    { destruct (Fmt.HasPrefix t1 (str "/")) eqn:H2; [apply HasPrefix_split in H2; eauto 8|]. exists [], t1. auto. }
    pose proof (span_app (λ c, negb ((c =? 45) || (c =? 47))) t2) as E3. pose proof (span_all (λ c, negb ((c =? 45) || (c =? 47))) t2) as F3.
    destruct (span _ t2) as [w t3]. cbn [fst snd] in E3, F3. split; [intros _|done].
    assert (∃ k t4, (if Fmt.HasPrefix t3 (str "-WACK") then str "-WACK" else []) = k ∧ t3 = k ++ t4 ∧ (k = str "-WACK" ∨ k = [])) as (k & t4 & -> & E4 & Hk).
    { destruct (Fmt.HasPrefix t3 (str "-WACK")) eqn:H4; [apply HasPrefix_split in H4; eauto 8|]. exists [], t3. auto. }
    exists t4. rewrite Hp, <- E1, E2, <- E3, E4. split; [by rewrite <- !app_assoc|].
    unfold web_re, Opt. rewrite matches_Seq. exists (str "/x/web"), (ds ++ sl ++ w ++ k). rewrite matches_lit. split_and!; [done..|].
    rewrite matches_Seq. exists ds, (sl ++ w ++ k). rewrite matches_Star_Class. split_and!; [done..|].
    rewrite matches_Seq. exists sl, (w ++ k). rewrite matches_Alt, matches_lit, matches_Eps. split_and!; [done..|].
    rewrite matches_Seq. exists w, k. rewrite matches_Star_Class, matches_Alt, matches_lit, matches_Eps. by split_and!.
  - split; [done|]. intros _ p rest -> Hm. unfold web_re in Hm. rewrite matches_Seq in Hm. destruct Hm as (s1 & s2 & -> & H1 & _).
    rewrite matches_lit in H1. by subst s1.
Qed.
(** The text of an error of the configuration; that of the system is [sys]. *)
Definition cfg_text (sys : bytes) (e : TxtConfig.cfg_error) : bytes :=
  match e with
  | TxtConfig.ErrNotFound => str "Key not found"
  | TxtConfig.ErrInvalidConfig => str "Config object is invalid"
  | TxtConfig.ErrInvalidConfigValue => str "Config entry invalid format"
  | TxtConfig.ErrOpen => sys
  end.

(** [getCalPoolName] from the lines of cal_client.txt. *)
Definition getCalPoolName (cal : option (list bytes)) : result bytes :=
  match cal with
  | None => Error (errors_New (str "open cal_client.txt"))
  | Some lines =>
    match TxtConfig.GetString (TxtConfig.newTxtConfig lines) (str "cal_pool_name") with
    | inl v => Ret v
    | inr e => Error (errors_New (cfg_text [] e))
    end
  end.

(** [InitOpsConfig]: [files] are the files that can be opened. *)
Definition InitOpsConfig (cal : option (list bytes)) (dir : result bytes) (files : bytes → option (list bytes)) :
    result (OpsFile.opsConfig * option TxtConfig.cfg_error) :=
  name ← configName (getCalPoolName cal) dir;
  Ret (OpsFile.InitOpsConfigWithName name (files name)).

(** [Dump] of a configuration, whose entries come in the order of the iteration over its map,
    and of the ops configuration. *)
Definition Dump (entries : list (bytes * bytes)) : bytes :=
  concat ((λ e, e.1 ++ str ": " ++ e.2 ++ [10]) <$> entries).

Definition ops_Dump (sys : bytes) (entries : list (bytes * bytes)) (c : OpsFile.opsConfig) : bytes :=
  match OpsFile.ops_err c with
  | Some e => cfg_text sys e
  | None => Dump entries
  end.

Lemma Split_last c pre s : c ∉ s → List.last (Split c (pre ++ c :: s)) [] = s.
Proof.
  intros Hs. assert (E : Split c s = [s]).
  { induction s as [|x s IH]; [done|]. apply not_elem_of_cons in Hs as [Hx Hs]. cbn [Split]. rewrite (proj2 (Z.eqb_neq x c)) by done. by rewrite IH. }
  assert (H : ∀ l, List.last (Split c (l ++ c :: s)) [] = s ∧ (1 < length (Split c (l ++ c :: s)))%nat).
  { induction l as [|x l [IH Hl]]; cbn [app Split]; [by rewrite Z.eqb_refl, E; split; [|cbn; lia]|].
    destruct (x =? c); [destruct (Split c (l ++ c :: s)) eqn:El; [by cbn in Hl; lia|cbn [List.last length] in *; split; [done|lia]]|].
    destruct (Split c (l ++ c :: s)) as [|f [|g fs]]; cbn [length] in Hl; [lia|lia|]. cbn [List.last length] in *. split; [done|lia]. }
  by apply H.
Qed.

(** The entries of the ops configuration are looked up under the name of the application in
    the pool name of CAL, in whichever directory the file is found. *)
Theorem InitOpsConfig_prefix cal dir files p d : getCalPoolName cal = Ret p → dir = Ret d → 47 ∉ app_name p →
  ∃ c e, InitOpsConfig cal dir files = Ret (c, e) ∧ OpsFile.keyPrefix c = str "opscfg." ++ app_name p ++ str ".server." ∧
    ∃ path, OpsFile.cfgName c = path ++ str "/" ++ app_name p ++ str ".txt".
Proof.
  intros Hp -> Hs. unfold InitOpsConfig, configName. rewrite Hp. cbn [mbind result_bind].
  set (name := match web_dir d with [] => _ | _ => _ end). assert (∃ path, name = path ++ 47 :: (app_name p ++ str ".txt")) as [path Hn].
  { subst name. destruct (web_dir d) as [|x w]; [by exists [46]|]. exists ((x :: w) ++ str "/opscfg"). by rewrite <- app_assoc. }
  assert (Hb : OpsFile.Base name = app_name p ++ str ".txt").
  { unfold OpsFile.Base. rewrite Hn. apply Split_last. rewrite not_elem_of_app. split; [done|]. apply (bool_decide_unpack _). vm_compute. exact I. }
  unfold OpsFile.InitOpsConfigWithName, OpsFile.Load. rewrite Hb.
  replace (length (app_name p ++ str ".txt") - 4)%nat with (length (app_name p)) by (rewrite length_app; cbn; lia). rewrite take_app_length.
  destruct (files name); (eexists _, _; split; [reflexivity|split; [done|exists path; exact Hn]]).
Qed.

Lemma InitOpsConfig_prefix_witness :
  ∃ c e, InitOpsConfig (Some [str "cal_pool_name=stage2_occ"]) (Ret (str "/x/web12/live-WACK/bin")) (λ _, Some []) = Ret (c, e) ∧
    OpsFile.keyPrefix c = str "opscfg.occ.server." ∧ OpsFile.cfgName c = str "/x/web12/live-WACK/opscfg/occ.txt".
Proof.
  destruct (InitOpsConfig_prefix (Some [str "cal_pool_name=stage2_occ"]) (Ret (str "/x/web12/live-WACK/bin")) (λ _, Some []) (str "stage2_occ") (str "/x/web12/live-WACK/bin"))
    as (c & e & H & _ & _); [vm_compute; reflexivity|reflexivity|apply (bool_decide_unpack _); vm_compute; exact I|].
  exists c, e. split; [exact H|]. assert (E := H). vm_compute in E. injection E as <- <-. by split.
Defined.

End OpsName.
