(* ===== verification/WireToWire.v ===== *)
(** * A query from the wire of the client to the database and back: the handler of the
    connection, the session, the pool, the worker and the reader of its answers, composed. *)

From S2P Require Import Prelude GoIO Codes RingQueue Netstring MysqlPackets Config ShardMap Sharding Regexp SqlParser Fmt Adapter WorkerClient AdaptiveQueue WorkerPool CmdProcessor WorkerCmd WorkerFacts WorkerRuns WorkerService Coordinator CoordinatorFacts SessionRuns StateLog Connection WorkerLink EndToEnd.
From stdpp Require Import base list gmap strings.
From Stdlib Require Import ZArith Lia.
Open Scope Z_scope.

Module WireToWire.
Import Codes Netstring.

Section session.
Context (app : Config.Config) (ops : Config.OpsConfig).
Context (smap : option ShardMap.records) (wlcfg : option (gmap ShardMap.key ShardMap.ShardMapRecord)).
Context (broker : Coordinator.PoolRef → option go_error) (info : bool) (hostname poolName : bytes).
Import Coordinator WorkerClient Config.

Definition rw_pool : PoolRef := mkPool wtypeRW 0.

(** What a session does for one request that keeps no worker. *)
Definition served (ns : Packet) (m : workerMsg) (id : Z) (ticket : bytes) (data : bytes) : list action :=
  let wk := mkRef rw_pool id in
  [Heard (Client (Some ns)); Got wk rw_pool ticket; ToWorker wk ns 1; SqlStart wk 0; Heard (FromWorker (Some m)); ToClient data; SqlEnd wk; Counted wk; MadeIdle wk;
   Returned rw_pool wk ticket].

Lemma handleMux_mysql ns s w : IsMySQL ns = true → Cmd ns ≠ COM_STMT_PREPARE → Serialized ns ≠ [] →
  handleMux app smap wlcfg hostname poolName ns (s, w) = ((set_nss [] (set_isRead false s), w), Ret false).
Proof.
  intros Hm Hc Hs. unfold handleMux. unfold mbind at 1, io_bind at 1, modify at 1. rewrite Hm. cbn [negb].
  unfold mbind at 1, io_bind at 1, modify at 1. rewrite (proj2 (Z.eqb_neq _ _) Hc). unfold processMuxCommand. rewrite Hm.
  unfold slice_from. rewrite (proj2 (Z.leb_le 1 _)) by (destruct (Serialized ns); [done|cbn; lia]). done.
Qed.

Lemma dispatch_serves ns id ticket m x data : EnableTAF app = false → broker rw_pool = None →
  IsMySQL ns = true → msg_free m = true → msg_data m = x :: data →
  let s := set_nss [] (set_isRead false (set_nss [] NewCoordinator)) in
  ∃ s', dispatch app ops broker info ns (s, mkWorld [FromWorker (Some m)] [inr (id, ticket)] [] [] [] [Heard (Client (Some ns))]) =
    ((s', mkWorld [] [] [] [] [] (served ns m id ticket data)), Ret true) ∧ worker s' = None.
Proof.
  intros Ht Hb Hm Hf Hd s. subst s. unfold dispatch, gets_s, mbind, io_bind. cbn [fst snd worker set_nss set_isRead NewCoordinator]. rewrite Ht.
  unfold dispatchRequest, gets_s, mbind, io_bind. cbn -[wait_worker get_from request_on]. unfold get_from. change (mkPool wtypeRW 0) with rw_pool. rewrite Hb.
  unfold GetWorker. cbn [gets fst snd log events sends replies answers Datatypes.app].
  unfold request_on, doRequest, send_request, gets_s, mbind, io_bind. cbn -[wait_worker]. rewrite Hm. cbn -[wait_worker].
  unfold wait_events. cbn [fst snd events length].
  match goal with |- context [wait_worker _ _ (S ?f) ?wk false ?t (?s0, ?w0)] =>
    destruct (SessionRuns.relay_one ops info f wk t m [] s0 w0 eq_refl eq_refl) as [t' E]; rewrite E; clear E end.
  rewrite Hf. unfold SessionRuns.with_log, SessionRuns.stripped. rewrite Hd. cbn. eexists. by split.
Qed.

(** A request that the worker answers and is then free, on a new session, which then waits
    for the next one. *)
Lemma session_serves ns id ticket m x data : EnableTAF app = false → broker rw_pool = None →
  IsMySQL ns = true → Cmd ns ≠ COM_STMT_PREPARE → Serialized ns ≠ [] → msg_free m = true → msg_data m = x :: data →
  ∃ s, Run app ops smap wlcfg broker info hostname poolName
      (NewCoordinator, mkWorld [Client (Some ns); FromWorker (Some m)] [inr (id, ticket)] [] [] [] []) =
    ((s, mkWorld [] [] [] [] [] (served ns m id ticket data)), Hang) ∧ worker s = None.
Proof.
  intros Ht Hb Hm Hc Hs Hf Hd. destruct (dispatch_serves ns id ticket m x data Ht Hb Hm Hf Hd) as (s' & E & Hw).
  exists s'. split; [|done]. unfold Run. cbn [snd events length run_loop]. unfold mbind, io_bind. cbn [next_event fst snd events].
  unfold on_client, mbind, io_bind, modify. cbn [fst snd]. rewrite handleMux_mysql by done.
  unfold gets_s. cbn [fst snd]. cbn [worker set_nss set_isRead NewCoordinator Datatypes.id]. unfold mret, io_ret.
  cbn [gets sends replies answers log Datatypes.app]. by rewrite E.
Qed.
End session.

(** ** The worker *)

Import Connection.

(** A worker that is waiting reads a command as the handler of the connection passed it on. *)
Lemma worker_reads warn k f : cmd_ok k →
  ∃ r, WorkerService.read_next warn (WorkerService.new_reader (mkStream [Serialized (cmd_packet k)] f)) = (r, Ret (Some (cmd_packet k))).
Proof.
  intros [Hq Hl]. unfold WorkerService.read_next, WorkerService.new_reader. cbn [WorkerService.use_netstring].
  unfold WorkerService.mysql_ReadNext, Mysql.ReadNext. cbn [WorkerService.sock Mysql.preader].
  destruct (Mysql.NewMySQLPacket_ok (cmd_sqid k) (cmd_code k) (cmd_args k) (Serialized (cmd_packet k)) [] [] f) as (p & Ep & Hp); [done|done| |].
  { cbn [cmd_packet Serialized length]. unfold wire. rewrite length_app, Mysql.length_header. cbn. lia. }
  unfold Mysql.NewMySQLPacketFrom in Ep. rewrite Mysql.packet_from_eq in Ep. injection Ep as <-.
  destruct Hp as (s' & E & _); [by rewrite !app_nil_r|].
  rewrite E. by eexists.
Qed.

Section worker.
Import Adapter WorkerCmd WorkerRuns.
Context {D Tx Stmt Rows Res : Type} `{!SqlDB D Tx Stmt Rows Res} `{!EqDecision Stmt}.
Context (adapter : CmdProcessorAdapter).
Abbreviation WSt := (CmdProc Tx Stmt Rows Res * World D)%type.

(** A turn of the worker does what [ProcessCmd] does, one request later. *)
Lemma turn_state ns (s : WSt) : (WorkerService.turn adapter (WorkerService.Received (Some ns)) s).1 =
  (ProcessCmd adapter (Some ns) (WorkerService.next_rqId 1 s.1, s.2)).1.
Proof.
  cbn [WorkerService.turn]. rewrite modify_bind. unfold mbind, io_bind.
  destruct (ProcessCmd _ _ _) as [s1 [[e|]| | | |]]; done.
Qed.

Lemma worker_answers ns c q (s : WSt) d1 res d2 n d3 i : unprepared s → IsMySQL ns = true → Cmd ns = COM_QUERY → Payload ns = c :: q →
  db_Exec q (w_db s.2) = (d1, inr res) → res_RowsAffected res d1 = (d2, inr n) → res_LastInsertId res d2 = (d3, inr i) →
  let s' := (WorkerService.turn adapter (WorkerService.Received (Some ns)) s).1 in
  w_db s'.2 = d3 ∧ ∃ more b, w_out s'.2 = w_out s.2 ++ [(NewNetstringFrom WorkerClient.CmdEOR
    (CmdProcessor.eor_payload (CmdProcessor.eor_code WorkerClient.EORFree more) (u16 (CmdProcessor.cp_rqId (core s.1) + 1)) (Some (ok_packet (Sqid ns) n i))), b)].
Proof.
  intros Hu Hm Hc Hp Hdb Hn Hi. cbv zeta. rewrite turn_state.
  pose proof (query_outcome adapter (WorkerService.next_rqId 1 s.1, s.2) ns c q Hu Hm Hc Hp) as H. cbn [snd] in H. rewrite Hdb in H. exact (H d2 n d3 i Hn Hi).
Qed.
End worker.

(** ** The answer *)

Lemma length_ok_packet sqid n i : zlen (Serialized (WorkerRuns.ok_packet sqid n i)) <= 28.
Proof.
  cbn [WorkerRuns.ok_packet Serialized length]. rewrite !length_app, Mysql.length_header. cbn [length]. rewrite !length_app. cbn [length].
  assert (Hl : ∀ z, zlen (Mysql.lenenc (u64 z)) <= 9).
  { intros z. rewrite Mysql.length_lenenc by apply u64_range. unfold Mysql.calculateLenEnc. repeat case_match; lia. }
  pose proof (Hl n). pose proof (Hl i). lia.
Qed.

Definition answer (rq sqid n i : Z) : Packet :=
  NewNetstringFrom WorkerClient.CmdEOR (CmdProcessor.eor_payload WorkerClient.EORFree rq (Some (WorkerRuns.ok_packet sqid n i))).

Lemma answer_framed rq sqid n i : WorkerLink.framed (answer rq sqid n i).
Proof.
  eexists _, _. split; [reflexivity|]. split; [split; [vm_compute; discriminate|reflexivity]|].
  pose proof (length_ok_packet sqid n i) as Hl. unfold answer. etrans; [apply length_From|]; [split; [vm_compute; discriminate|reflexivity]| |];
    unfold CmdProcessor.eor_payload; rewrite length_app; cbn [length]; lia.
Qed.

Lemma answer_read st rq sqid n i : in_u16 rq →
  ∃ rs m, (WorkerLink.doRead_conn st (mkStream [Serialized (answer rq sqid n i)] io_EOF)).2 = Ret rs ∧
    WorkerClient.rd_sent rs = [m] ∧ WorkerClient.msg_free m = true ∧
    WorkerClient.msg_data m = Serialized (WorkerRuns.ok_packet sqid n i).
Proof.
  intros Hrq. pose proof (WorkerLink.doRead_conn_ok st [answer rq sqid n i]) as E. cbn [map] in E. rewrite E by (constructor; [apply answer_framed|constructor]).
  cbn [WorkerClient.doRead]. unfold WorkerClient.read_one. change (IsMySQL (answer rq sqid n i)) with false. change (Cmd (answer rq sqid n i) =? WorkerClient.CmdEOR) with true.
  rewrite (CmdProcessor.read_eor_payload _ WorkerClient.EORFree rq (Some (WorkerRuns.ok_packet sqid n i))); [|done|done|unfold answer; apply From_Payload].
  eexists _, _. split; [reflexivity|]. split; [reflexivity|]. by split.
Qed.

(** ** The whole way *)

(** The handler while its client waits for the answer to its only command. *)
Lemma handler_passes info d k f c : dialogue_ok d → commands d = [k] →
  channel (c_log (HandleConnection info [NextPacket] (mkConn (mkStream (dialogue_wire d) f) c [])).1) = [Coordinator.Client (Some (cmd_packet k))].
Proof.
  intros Hd Hk. pose proof (HandleConnection_commands info d [] [] f c Hd) as E. rewrite Hk in E. cbn [length replicate Datatypes.app] in E.
  rewrite app_nil_r in E. rewrite E. unfold mbind, io_bind. cbn [handle_loop lift fst c_log]. by rewrite channel_app, channel_forwards.
Qed.

Section whole.
Import Adapter WorkerCmd WorkerRuns.
Context {D Tx Stmt Rows Res : Type} `{!SqlDB D Tx Stmt Rows Res} `{!EqDecision Stmt}.
Context {Q : Type} `{!Queue AdaptiveQueue.wref Q} {qrep : Q → list AdaptiveQueue.wref → Prop} `{!QueueLaws AdaptiveQueue.wref Q qrep}.
Context (adapter : CmdProcessorAdapter).
Context (app : Config.Config) (ops : Config.OpsConfig).
Context (smap : option ShardMap.records) (wlcfg : option (gmap ShardMap.key ShardMap.ShardMapRecord)).
Context (broker : Coordinator.PoolRef → option go_error) (info : bool) (hostname poolName : bytes).

(** The pool before and after it has handed out a worker: the first that is free and ready,
    under a ticket that is its own; and in whatever state the pool is when the worker comes
    back with that ticket, it is checked in. *)
Definition lent (pool pool1 : WorkerPool.WorkerPool Q) (l : list AdaptiveQueue.wref) (w : AdaptiveQueue.wref) (ticket : bytes) : Prop :=
  WorkerPool.obtained pool pool1 l w ticket ∧
  ∀ e pool2 l2, WorkerPool.inv (qrep := qrep) ∅ pool2 l2 → WorkerPool.checkoutTickets pool2 !! w = Some ticket →
    WorkerPool.status_of pool2 w ≠ WorkerClient.wsQuce →
    ∃ pool3 l3, WorkerPool.ReturnWorker app ops e (Some w) ticket pool2 = Ret (pool3, WorkerPool.Nothing) ∧
      WorkerPool.inv (qrep := qrep) ∅ pool3 l3 ∧
      WorkerPool.checkoutTickets pool3 = delete w (WorkerPool.checkoutTickets pool2) ∧ (l3 ≡ₚ w :: l2 ∨ l3 = l2).

Lemma GetWorker_lends e q t h tmo pool pool1 l w ticket : WorkerPool.inv (qrep := qrep) ∅ pool l →
  WorkerPool.waiting pool !! q = None → Z.of_nat (size (WorkerPool.waiting pool)) + 1 < 2 ^ 31 →
  WorkerPool.GetWorker app e q t h tmo pool = Ret (pool1, WorkerPool.Got w ticket) → lent pool pool1 l w ticket.
Proof.
  intros I Hq Hs E. destruct (WorkerPool.GetWorker_ok app ∅ e q t h tmo pool l I Hq Hs) as (p' & out & l' & E' & _ & _ & _ & H).
  rewrite E in E'. apply Ret_inj in E' as [= <- <-]. split; [apply H|]. intros e' pool2 l2 I2 Ht Hst.
  assert (Hn : (w < WorkerPool.next pool2)%nat) by (apply (WorkerPool.inv_known _ _ _ I2); right; left; by exists ticket).
  destruct (WorkerPool.ReturnWorker_ok app ops ∅ e' w ticket pool2 l2 I2 Hn) as (p3 & out & l3 & E3 & I3 & _ & _ & H3); [done|].
  rewrite bool_decide_eq_true_2, (proj2 (Z.eqb_neq _ _) Hst) in H3 by done. cbn in H3. destruct H3 as (-> & ? & ?). by exists p3, l3.
Qed.

(** C10: A statement of a MySQL client that is not a query makes its whole way. If the
    handshake and the command each come in one read, fail-over is off and the pool of shard 0
    hands the session a worker that has not prepared anything: the bytes of the client become
    one command of its session; the session sends it to the worker it was given, the first
    that is free and ready in the pool, under a ticket of its own; the worker reads the
    command that was sent, from one read, and has the database run exactly the text of the
    client; and if the database does that without an error the worker writes one end of
    response. If that says free, with no request waiting, and reaches the proxy in one read,
    it becomes one message, with which the session sends the client the OK packet with the
    numbers of the database, returns the worker with its ticket and waits for the next
    command; and the pool checks the worker in, in whatever state the pool then is, unless
    the worker is quiesced. *)
Theorem query_wire_to_wire (d : dialogue) (k : command) (f : go_error) (conn_id st : Z) e q t h tmo
    (pool pool1 : WorkerPool.WorkerPool Q) l w (ticket : bytes)
    (s : CmdProc Tx Stmt Rows Res * World D) d1 res d2 n d3 i :
  dialogue_ok d → commands d = [k] → cmd_code k = COM_QUERY → (SqlParser.Parse (cmd_args k)).1 = false →
  Config.EnableTAF app = false → broker rw_pool = None →
  WorkerPool.inv (qrep := qrep) ∅ pool l → WorkerPool.waiting pool !! q = None → Z.of_nat (size (WorkerPool.waiting pool)) + 1 < 2 ^ 31 →
  WorkerPool.GetWorker app e q t h tmo pool = Ret (pool1, WorkerPool.Got w ticket) →
  unprepared s →
  db_Exec (cmd_args k) (w_db s.2) = (d1, inr res) → res_RowsAffected res d1 = (d2, inr n) → res_LastInsertId res d2 = (d3, inr i) →
  let requests := channel (c_log (HandleConnection info [NextPacket] (mkConn (mkStream (dialogue_wire d) f) conn_id [])).1) in
  lent pool pool1 l w ticket ∧
  ∃ ns p b, requests = [Coordinator.Client (Some ns)] ∧
    (WorkerService.read_next true (WorkerService.new_reader (mkStream [Serialized ns] f))).2 = Ret (Some ns) ∧
    (let s' := (WorkerService.turn adapter (WorkerService.Received (Some ns)) s).1 in
     w_db s'.2 = d3 ∧ w_out s'.2 = w_out s.2 ++ [(p, b)]) ∧
    (WorkerFacts.eor_of p = Some WorkerClient.EORFree →
     ∃ rs m sx, (WorkerLink.doRead_conn st (mkStream [Serialized p] io_EOF)).2 = Ret rs ∧ WorkerClient.rd_sent rs = [m] ∧
       Coordinator.Run app ops smap wlcfg broker info hostname poolName (Coordinator.NewCoordinator,
           Coordinator.mkWorld (requests ++ [Coordinator.FromWorker (Some m)]) [inr (Z.of_nat w, ticket)] [] [] [] []) =
         ((sx, Coordinator.mkWorld [] [] [] [] [] (served ns m (Z.of_nat w) ticket (drop 1 (Serialized (ok_packet (cmd_sqid k) n i))))), Hang) ∧
       Coordinator.worker sx = None).
Proof.
  intros Hd Hk Hcode _ Ht Hb HI Hq Hsz Hget Hu Hdb Hn Hi requests. split; [by eapply GetWorker_lends|].
  subst requests. rewrite (handler_passes info d k f conn_id Hd Hk).
  assert (Hck : cmd_ok k) by (destruct Hd as (_ & _ & _ & _ & F & _); rewrite Hk in F; by inversion F).
  destruct (worker_reads true k f Hck) as [r Er].
  destruct (worker_answers adapter (cmd_packet k) (cmd_code k) (cmd_args k) s d1 res d2 n d3 i Hu eq_refl Hcode eq_refl Hdb Hn Hi) as (Edb & more & b & Eo).
  eexists (cmd_packet k), _, b. split; [done|]. split; [by rewrite Er|]. split; [by split; [|exact Eo]|]. intros He.
  rewrite WorkerFacts.eor_of_From in He by (by destruct more). assert (more = false) as -> by (by destruct more).
  destruct (answer_read st (u16 (CmdProcessor.cp_rqId (core s.1) + 1)) (cmd_sqid k) n i (u16_range _)) as (rs & m & E1 & E2 & E3 & E4).
  destruct (session_serves app ops smap wlcfg broker info hostname poolName (cmd_packet k) (Z.of_nat w) ticket m 0 (drop 1 (Serialized (ok_packet (cmd_sqid k) n i))))
    as (sx & E5 & E6); try done.
  { change (cmd_code k ≠ Codes.COM_STMT_PREPARE). by rewrite Hcode. }
  exists rs, m, sx. by split_and!.
Qed.
End whole.

(** ** A concrete run *)

Definition ex_cmd : command := mkCommand 0 Codes.COM_QUERY (str "insert into t values (1)").
Definition ex_dialogue : dialogue := mkDialogue 1 (replicate 32 1 ++ [0; 0]) [ex_cmd].

Lemma ex_dialogue_ok : dialogue_ok ex_dialogue.
Proof.
  unfold dialogue_ok. split_and!; try (cbn; lia); [|done|repeat constructor; cbn; lia|by repeat constructor].
  repeat constructor; cbn; lia.
Qed.

Definition ex_requests : list Coordinator.event :=
  channel (c_log (HandleConnection false [NextPacket] (mkConn (mkStream (dialogue_wire ex_dialogue) io_EOF) 5 [])).1).

Definition ex_db : WorkerFacts.Toy.D := [WorkerFacts.Toy.CRun (cmd_args ex_cmd) []].

(** A pool with two free workers, of which the one that was ready first is handed out. *)
Definition ex_pool := WorkerPool.example_pool WorkerPool.example_ops1.
Definition ex_pool1 : WorkerPool.WorkerPool RingQueue.ringQueue :=
  match WorkerPool.GetWorker WorkerPool.ex_app WorkerPool.ex_env 9 77 5 None ex_pool with Ret (p, _) => p | _ => ex_pool end.

Lemma query_wire_to_wire_witness : ∃ ns p b, ex_requests = [Coordinator.Client (Some ns)] ∧
  (let s' := (WorkerService.turn Adapter.Mysql.mysqlAdapter (WorkerService.Received (Some ns)) (WorkerFacts.Toy.proc, WorkerFacts.Toy.world 2)).1 in
   WorkerCmd.w_out s'.2 = [] ++ [(p, b)]) ∧
  WorkerPool.checkoutTickets ex_pool !! 1%nat = None ∧
  (WorkerFacts.eor_of p = Some WorkerClient.EORFree →
   ∃ rs m sx, (WorkerLink.doRead_conn WorkerClient.wsBusy (mkStream [Serialized p] io_EOF)).2 = Ret rs ∧
     Coordinator.Run WorkerPool.ex_app WorkerPool.ex_cfg None None (λ _, None) false [] [] (Coordinator.NewCoordinator,
         Coordinator.mkWorld (ex_requests ++ [Coordinator.FromWorker (Some m)]) [inr (1, str "77")] [] [] [] []) =
       ((sx, Coordinator.mkWorld [] [] [] [] [] (served ns m 1 (str "77") (drop 1 (Serialized (WorkerRuns.ok_packet 0 1 7))))), Hang)).
Proof.
  destruct (WorkerPool.example_inv WorkerPool.example_ops1) as [l I]; [vm_compute; reflexivity|vm_compute; reflexivity|].
  destruct (query_wire_to_wire (SqlDB0 := WorkerFacts.Toy.toy) (qrep := RingQueue.rep) Adapter.Mysql.mysqlAdapter WorkerPool.ex_app WorkerPool.ex_cfg None None (λ _, None) false [] []
    ex_dialogue ex_cmd io_EOF 5 WorkerClient.wsBusy WorkerPool.ex_env 9 77 5 None ex_pool ex_pool1 l 1 (str "77")
    (WorkerFacts.Toy.proc, WorkerFacts.Toy.world 2) ex_db tt ex_db 1 ex_db 7)
    as ([Hl _] & ns & p & b & H1 & _ & [_ H2] & H3).
  - exact ex_dialogue_ok.
  - reflexivity.
  - reflexivity.
  - vm_compute. reflexivity.
  - reflexivity.
  - reflexivity.
  - exact I.
  - vm_compute. reflexivity.
  - vm_compute. reflexivity.
  - vm_compute. reflexivity.
  - exact (conj eq_refl (conj eq_refl eq_refl)).
  - reflexivity.
  - reflexivity.
  - reflexivity.
  - exists ns, p, b. split; [exact H1|]. split; [exact H2|]. split; [apply Hl|].
    intros He. destruct (H3 He) as (rs & m & sx & H4 & _ & H5 & _).
    exists rs, m, sx. split; [exact H4|exact H5].
Defined.
End WireToWire.
