(* ===== verification/SharedPool.v ===== *)
(** * Sessions that share a pool (lib/coordinator.go, lib/workerpool.go): the session of every
    client, the recovery of stranded workers and the pool's own goroutines, in any
    interleaving; no worker is ever held twice. *)

From S2P Require Import Prelude GoIO Codes Netstring ConfigFile Config AdaptiveQueue WorkerClient RingQueue WorkerPool ShardMap Coordinator CoordinatorFacts.
From stdpp Require Import base list gmap strings.
From Stdlib Require Import ZArith Lia.
Open Scope Z_scope.

Module SharedPool.
Import Config Coordinator CoordinatorFacts.
Abbreviation wref := AdaptiveQueue.wref.

Section shared.
Context {Q : Type} `{!Queue wref Q}.
Context (app : Config) (ops : OpsConfig).

(** The pool the sessions share, by the name they have for it. *)
Context (pr : PoolRef).

(** [logs] are the actions of each session so far; [recovering] the workers and tickets given
    to goroutines of [Recover] that have not returned them. *)
Record system := mkSystem {
  pool : WorkerPool.WorkerPool Q;
  logs : nat → list action;
  recovering : list (wref * bytes)
}.

Definition worker_of (w : wref) : WorkerRef := mkRef pr (Z.of_nat w).
Definition wref_of (wk : WorkerRef) : wref := Z.to_nat (wk_id wk).

Definition record (i : nat) (a : action) (f : nat → list action) : nat → list action :=
  λ j, if decide (i = j) then f j ++ [a] else f j.

Definition pool_step (o : WorkerPool.op) (p : WorkerPool.WorkerPool Q) : result (WorkerPool.WorkerPool Q * WorkerPool.outcome) :=
  WorkerPool.step app ops (pl_type pr) (pl_shard pr) o p.

(** The parts of a call of [GetWorker]. *)
Definition asking (o : WorkerPool.op) : bool :=
  match o with WorkerPool.OpGet _ _ _ _ _ | WorkerPool.OpWake _ _ _ => true | _ => false end.

Definition returning (o : WorkerPool.op) : bool :=
  match o with WorkerPool.OpReturn _ _ _ => true | _ => false end.

Inductive event : Type :=
  | Asks (i : nat) (o : WorkerPool.op)
  | Acts (i : nat) (e : WorkerPool.env) (a : action)
  | Recovers (e : WorkerPool.env) (w : wref) (ticket : bytes)
  | Runs (o : WorkerPool.op).

(** One step: a session's call of [GetWorker] begins or is woken, and gets a worker or not; a
    session acts, which may return a worker to the pool or start its recovery; a recovery
    returns its worker; or the pool does anything else. *)
Definition sys_step (ev : event) (s : system) : result system :=
  match ev with
  | Asks i o =>
    if asking o then
      '(p, out) ← pool_step o (pool s);
      Ret (mkSystem p
             (match out with WorkerPool.Got w tk => record i (Got (worker_of w) pr tk) (logs s) | _ => logs s end)
             (recovering s))
    else Ret s
  | Acts i e a =>
    match a with
    | Got wk p _ =>
      if decide (p = pr) then Ret s else if decide (wk_pool wk = pr) then Ret s
      else Ret (mkSystem (pool s) (record i a (logs s)) (recovering s))
    | Returned p wk tk =>
      if decide (p = pr) then
        '(p', _) ← pool_step (WorkerPool.OpReturn e (Some (wref_of wk)) tk) (pool s);
        Ret (mkSystem p' (record i a (logs s)) (recovering s))
      else Ret (mkSystem (pool s) (record i a (logs s)) (recovering s))
    | Recovering p wk tk _ =>
      Ret (mkSystem (pool s) (record i a (logs s))
             (if decide (p = pr) then (wref_of wk, tk) :: recovering s else recovering s))
    | _ => Ret (mkSystem (pool s) (record i a (logs s)) (recovering s))
    end
  | Recovers e w tk =>
    match remove1 (λ x, x = (w, tk)) (recovering s) with
    | Some rest =>
      '(p, _) ← pool_step (WorkerPool.OpReturn e (Some w) tk) (pool s);
      Ret (mkSystem p (logs s) rest)
    | None => Ret s
    end
  | Runs o =>
    if asking o || returning o then Ret s
    else '(p, _) ← pool_step o (pool s); Ret (mkSystem p (logs s) (recovering s))
  end.

Fixpoint sys_run (es : list event) (s : system) : result system :=
  match es with
  | [] => Ret s
  | ev :: es => s ← sys_step ev s; sys_run es s
  end.

(** What a session holds, of the workers it may hold [n] of. *)
Definition held (n : nat) (s : system) (i : nat) : list attachment := default [] (ledger n (logs s i) []).

(** ** Who has a worker *)

Context {qrep : Q → list wref → Prop} `{!QueueLaws wref Q qrep}.

(** The workers that are out, each with its session, or none for a recovery, and ticket. *)
Abbreviation owners := (gmap wref (option nat * bytes)).

Abbreviation ours a := (at_pool a = pr).

Record holds (i : nat) (h : list attachment) (o : owners) : Prop := {
  h_once : NoDup (filter (λ a, ours a) h);
  h_ours a : a ∈ h → ours a → ∃ w, at_worker a = worker_of w ∧ o !! w = Some (Some i, at_ticket a);
  h_others a : a ∈ h → ¬ ours a → wk_pool (at_worker a) ≠ pr
}.

Lemma remove1_Permutation {A} (P : A → Prop) `{!∀ x, Decision (P x)} l l' : remove1 P l = Some l' →
  ∃ x, P x ∧ l ≡ₚ x :: l'.
Proof.
  revert l'. induction l as [|y l IH]; intros l'; cbn; [done|]. case_decide; [intros [= <-]; by exists y|].
  destruct (remove1 P l) as [r|]; [|done]. intros [= <-]. destruct (IH r eq_refl) as (x & Hx & E). exists x.
  split; [done|]. rewrite E. constructor.
Qed.

(** A session that gives up an attachment keeps the others, whatever becomes of that worker. *)
Lemma holds_less i h h' a o : holds i h o → h ≡ₚ a :: h' → holds i h' o.
Proof.
  intros [H1 H2 H3] E. constructor.
  - rewrite E, filter_cons in H1. case_decide; [by inversion H1|done].
  - intros b Hb. apply H2. rewrite E. by constructor.
  - intros b Hb. apply H3. rewrite E. by constructor.
Qed.

Lemma holds_gone i h h' a o o' w : holds i h o → h ≡ₚ a :: h' → ours a → at_worker a = worker_of w →
  (∀ v, v ≠ w → o' !! v = o !! v) → holds i h' o'.
Proof.
  intros H E Ha Hw Ho. destruct (holds_less _ _ _ _ _ H E) as [G1 G2 G3]. constructor; [done| |done].
  intros b Hb Hob. destruct (G2 b Hb Hob) as (v & Ev & Eo). exists v. split; [done|]. rewrite Ho; [done|]. intros ->.
  destruct H as [H1 H2 H3]. rewrite E, filter_cons, decide_True in H1 by done. inversion H1 as [|? ? Hn]. apply Hn.
  assert (b = a) as <-; [|by apply list_elem_of_filter]. destruct (H2 a) as (v' & Ev' & Eo'); [rewrite E; by constructor|done|].
  assert (v' = w) as -> by (rewrite Hw in Ev'; injection Ev'; lia). destruct a, b; cbn in *. congruence.
Qed.

Lemma holds_other j h o o' w x : holds j h o → o !! w = x → (∀ tk, x ≠ Some (Some j, tk)) →
  (∀ v, v ≠ w → o' !! v = o !! v) → holds j h o'.
Proof.
  intros [H1 H2 H3] Hx Hn Ho. constructor; [done| |done]. intros b Hb Hob. destruct (H2 b Hb Hob) as (v & Ev & Eo).
  exists v. split; [done|]. rewrite Ho; [done|]. intros ->. rewrite Hx in Eo. by eapply Hn.
Qed.

Lemma holds_more i h o w tk : holds i h o → o !! w = None →
  holds i (mkAtt (worker_of w) pr tk :: h) (<[w := (Some i, tk)]> o).
Proof.
  intros H Hw. destruct (holds_other i h o (<[w := (Some i, tk)]> o) w None H Hw) as [G1 G2 G3]; [done|by intros v ?; rewrite lookup_insert_ne|].
  constructor.
  - rewrite filter_cons, decide_True by done. constructor; [|done]. intros [_ Hin]%list_elem_of_filter.
    destruct (h_ours _ _ _ H _ Hin eq_refl) as (v & Ev & Eo). cbn in Ev. assert (v = w) as -> by (injection Ev; lia). congruence.
  - intros a [->|Ha]%elem_of_cons Ho; [|by apply G2]. exists w. by rewrite lookup_insert_eq.
  - intros a [->|Ha]%elem_of_cons Ho; [done|by apply G3].
Qed.

Lemma record_holds n i a f o o' :
  (∀ j h, ledger n (f j) [] = Some h → holds j h o) →
  (∀ h h', holds i h o → ledger_step n h a = Some h' → holds i h' o') →
  (∀ j h, j ≠ i → holds j h o → holds j h o') →
  ∀ j h, ledger n (record i a f j) [] = Some h → holds j h o'.
Proof.
  intros Hf Hi Hj j h. unfold record. case_decide as E; [subst j|intros El; apply Hj; auto].
  rewrite ledger_app. destruct (ledger n (f i) []) as [h0|] eqn:E0; [|done]. cbn.
  destruct (ledger_step n h0 a) as [h1|] eqn:E1; [|done]. intros [= <-]. by eapply Hi; [apply Hf|].
Qed.

(** ** The invariant of the system *)

Context (n : nat).

Record sys_ok (k : nat) (s : system) (l : list wref) (o : owners) : Prop := {
  s_pool : WorkerPool.inv (qrep := qrep) (dom o) (pool s) l;
  s_small : (size (WorkerPool.waiting (pool s)) <= k)%nat;
  s_holds i h : ledger n (logs s i) [] = Some h → holds i h o;
  s_once : NoDup (recovering s);
  s_rec w tk : (w, tk) ∈ recovering s → o !! w = Some (None, tk)
}.

(** The actions that move no worker of this pool. *)
Definition plain (a : action) : bool :=
  match a with
  | Got wk p _ => negb (bool_decide (p = pr)) && negb (bool_decide (wk_pool wk = pr))
  | Returned p _ _ | Recovering p _ _ _ => negb (bool_decide (p = pr))
  | _ => true
  end.

Lemma plain_holds i h h' o a : plain a = true → holds i h o → ledger_step n h a = Some h' → holds i h' o.
Proof.
  intros Hp H. destruct a; cbn in Hp |- *; try (by intros [= <-]); try (by case_decide; [intros [= <-]|]);
    try (by intros (x & _ & E)%remove1_Permutation; eapply holds_less).
  destruct (decide (length h < n)%nat); [|done]. intros [= <-]. apply andb_true_iff in Hp as [Hp%negb_true_iff%bool_decide_eq_false Hw%negb_true_iff%bool_decide_eq_false].
  destruct H as [H1 H2 H3]. constructor.
  - by rewrite filter_cons, decide_False.
  - intros a [->|Ha]%elem_of_cons Ho; [done|by apply H2].
  - intros a [->|Ha]%elem_of_cons Ho; [done|by apply H3].
Qed.

Lemma ok_plain k s l o i a : sys_ok k s l o → plain a = true →
  sys_ok (S k) (mkSystem (pool s) (record i a (logs s)) (recovering s)) l o.
Proof.
  intros [] Hp. constructor; cbn; try done; [lia|]. apply (record_holds n i a (logs s) o o); try done.
  intros h h'. by apply plain_holds.
Qed.

Lemma pool_step_ok X k o p l p' out : WorkerPool.inv (qrep := qrep) X p l → WorkerPool.spares X o p →
  (size (WorkerPool.waiting p) <= k)%nat → Z.of_nat k + 1 < 2 ^ 31 → pool_step o p = Ret (p', out) →
  ∃ l', WorkerPool.inv (qrep := qrep) X p' l' ∧ (size (WorkerPool.waiting p') <= S k)%nat ∧
    ∀ w tk, out = WorkerPool.Got w tk → (w ∉ X) ∧ WorkerPool.inv (qrep := qrep) ({[w]} ∪ X) p' l'.
Proof.
  intros I HX Hs Hk E. destruct (WorkerPool.step_ok app ops (pl_type pr) (pl_shard pr) X o p l p' out I HX) as (l' & I' & Hs'); [lia|done|].
  exists l'. split; [done|]. split; [lia|]. intros w tk ->.
  destruct (WorkerPool.step_gives app ops (pl_type pr) (pl_shard pr) X o p l p' w tk I) as [H1 H2]; [lia|done|].
  split; [done|]. by eapply WorkerPool.inv_more_out.
Qed.

(** A worker is returned, by a session or by its recovery: nobody has it any more. *)
Lemma ok_return k s l o e w tk p out : sys_ok k s l o → Z.of_nat k + 1 < 2 ^ 31 →
  pool_step (WorkerPool.OpReturn e (Some w) tk) (pool s) = Ret (p, out) →
  ∃ l', WorkerPool.inv (qrep := qrep) (dom (delete w o)) p l' ∧ (size (WorkerPool.waiting p) <= S k)%nat.
Proof.
  intros [] Hk E.
  destruct (pool_step_ok (dom (delete w o)) k (WorkerPool.OpReturn e (Some w) tk) (pool s) l p out) as (l' & I' & Hs & _); try done.
  - apply (WorkerPool.inv_sub_out (dom o)); [done|]. rewrite dom_delete_L. set_solver.
  - cbn. intros _. rewrite dom_delete_L. set_solver.
  - by exists l'.
Qed.

Lemma ok_Returned k s l o i e wk tk p out : sys_ok k s l o → Z.of_nat k + 1 < 2 ^ 31 →
  pool_step (WorkerPool.OpReturn e (Some (wref_of wk)) tk) (pool s) = Ret (p, out) →
  is_Some (ledger n (record i (Returned pr wk tk) (logs s) i) []) →
  ∃ l' o', sys_ok (S k) (mkSystem p (record i (Returned pr wk tk) (logs s)) (recovering s)) l' o'.
Proof.
  intros H Hk E [h1 E1]. destruct (ok_return _ _ _ _ _ _ _ _ _ H Hk E) as (l' & I' & Hs).
  unfold record in E1. rewrite decide_True, ledger_app in E1 by done.
  destruct (ledger n (logs s i) []) as [h|] eqn:Eh; [|done]. cbn in E1.
  destruct (remove1 _ h) as [h'|] eqn:Er; [|done]. apply remove1_Permutation in Er as (a & -> & Ep).
  destruct (h_ours _ _ _ (s_holds _ _ _ _ H i h Eh) (mkAtt wk pr tk)) as (w & Ew & Eo); [rewrite Ep; by constructor|done|].
  cbn in Ew, Eo. subst wk. assert (wref_of (worker_of w) = w) as Ewr by (unfold wref_of; cbn; lia). rewrite Ewr in *.
  assert (Ho : ∀ v, v ≠ w → delete w o !! v = o !! v) by (intros v ?; by rewrite lookup_delete_ne).
  exists l', (delete w o). destruct H. constructor; cbn; try done.
  - apply (record_holds n i _ (logs s) o); [done| |].
    + intros g g' Hg (a & -> & Eg)%remove1_Permutation. by eapply (holds_gone i g g' _ o).
    + intros j g Hj Hg. eapply (holds_other j g o); [done|exact Eo|congruence|done].
  - intros v t Hv. specialize (s_rec0 v t Hv). rewrite Ho; [done|]. intros ->. congruence.
Qed.

Lemma ok_Recovering k s l o i wk tk c : sys_ok k s l o →
  is_Some (ledger n (record i (Recovering pr wk tk c) (logs s) i) []) →
  ∃ l' o', sys_ok (S k) (mkSystem (pool s) (record i (Recovering pr wk tk c) (logs s)) ((wref_of wk, tk) :: recovering s)) l' o'.
Proof.
  intros H [h1 E1]. unfold record in E1. rewrite decide_True, ledger_app in E1 by done.
  destruct (ledger n (logs s i) []) as [h|] eqn:Eh; [|done]. cbn in E1.
  destruct (remove1 _ h) as [h'|] eqn:Er; [|done]. apply remove1_Permutation in Er as (a & -> & Ep).
  destruct (h_ours _ _ _ (s_holds _ _ _ _ H i h Eh) (mkAtt wk pr tk)) as (w & Ew & Eo); [rewrite Ep; by constructor|done|].
  cbn in Ew, Eo. subst wk. assert (wref_of (worker_of w) = w) as Ewr by (unfold wref_of; cbn; lia). rewrite Ewr in *.
  assert (Ho : ∀ v, v ≠ w → <[w := (None, tk)]> o !! v = o !! v) by (intros v ?; by rewrite lookup_insert_ne).
  exists l, (<[w := (None, tk)]> o). destruct H. constructor; cbn; try done.
  - eapply WorkerPool.inv_sub_out; [done|]. rewrite dom_insert_L. apply elem_of_dom_2 in Eo. set_solver.
  - lia.
  - apply (record_holds n i _ (logs s) o); [done| |].
    + intros g g' Hg (a & -> & Eg)%remove1_Permutation. by eapply (holds_gone i g g' _ o).
    + intros j g Hj Hg. eapply (holds_other j g o); [done|exact Eo|congruence|done].
  - constructor; [|done]. intros Hin. specialize (s_rec0 _ _ Hin). congruence.
  - intros v t [[= -> ->]|Hv]%elem_of_cons; [by rewrite lookup_insert_eq|].
    specialize (s_rec0 v t Hv). rewrite Ho; [done|]. intros ->. congruence.
Qed.

Lemma ok_Recovers k s l o e w tk rest p out : sys_ok k s l o → Z.of_nat k + 1 < 2 ^ 31 →
  remove1 (λ x, x = (w, tk)) (recovering s) = Some rest →
  pool_step (WorkerPool.OpReturn e (Some w) tk) (pool s) = Ret (p, out) →
  ∃ l' o', sys_ok (S k) (mkSystem p (logs s) rest) l' o'.
Proof.
  intros H Hk (x & -> & Ep)%remove1_Permutation E. destruct (ok_return _ _ _ _ _ _ _ _ _ H Hk E) as (l' & I' & Hs). destruct H.
  assert (Eo : o !! w = Some (None, tk)) by (apply s_rec0; rewrite Ep; by constructor).
  assert (Ho : ∀ v, v ≠ w → delete w o !! v = o !! v) by (intros v ?; by rewrite lookup_delete_ne).
  rewrite Ep in s_once0. inversion s_once0 as [|? ? Hn Hd]. exists l', (delete w o). constructor; cbn; try done.
  - intros i h Eh. eapply (holds_other i h o); [by apply s_holds0|exact Eo|congruence|done].
  - intros v t Hv. assert (Hv' : o !! v = Some (None, t)) by (apply s_rec0; rewrite Ep; by constructor).
    rewrite Ho; [done|]. intros ->. rewrite Eo in Hv'. injection Hv' as ->. done.
Qed.

Lemma ok_Got k s l o i w tk p l' : sys_ok k s l o → WorkerPool.inv (qrep := qrep) ({[w]} ∪ dom o) p l' → w ∉ dom o →
  (size (WorkerPool.waiting p) <= S k)%nat →
  sys_ok (S k) (mkSystem p (record i (Got (worker_of w) pr tk) (logs s)) (recovering s)) l' (<[w := (Some i, tk)]> o).
Proof.
  intros [] I Hw%not_elem_of_dom Hs.
  assert (Ho : ∀ v, v ≠ w → <[w := (Some i, tk)]> o !! v = o !! v) by (intros v ?; by rewrite lookup_insert_ne).
  constructor; cbn; try done.
  - by rewrite dom_insert_L.
  - apply (record_holds n i _ (logs s) o); [done| |].
    + intros h h' Hh. cbn. case_decide; [|done]. intros [= <-]. by apply holds_more.
    + intros j h _ Hh. by eapply (holds_other j h o).
  - intros v t Hv. rewrite Ho; [by apply s_rec0|]. intros ->. specialize (s_rec0 _ _ Hv). congruence.
Qed.

Lemma sys_step_ok k s l o ev s' : sys_ok k s l o → Z.of_nat k + 1 < 2 ^ 31 → sys_step ev s = Ret s' →
  (∀ i, is_Some (ledger n (logs s' i) [])) → ∃ l' o', sys_ok (S k) s' l' o'.
Proof.
  intros H Hk E Hl. assert (Hsame : ∃ l' o', sys_ok (S k) s l' o') by (exists l, o; destruct H; constructor; try done; lia).
  destruct ev as [i c|i e a|e w tk|c]; cbn [sys_step] in E.
  - destruct (asking c) eqn:Ec; [|by apply Ret_inj in E as <-]. apply bind_Ret in E as ([p out] & E1 & <-%Ret_inj).
    destruct (pool_step_ok (dom o) k c (pool s) l p out) as (l' & I' & Hs & Hg); try done; [apply H|by destruct c|apply H|].
    destruct out as [|w tk| |err]; [|destruct (Hg w tk eq_refl) as [Hw I2]; eexists _, _; by apply (ok_Got k s l o)|..];
      exists l', o; destruct H; by constructor.
  - destruct a as [|wk p tk| | | | | |p wk tk|p wk tk c| | | | | | | |];
      try (apply Ret_inj in E as <-; exists l, o; by apply ok_plain).
    + case_decide as H1; [by apply Ret_inj in E as <-|]. case_decide as H2; [by apply Ret_inj in E as <-|].
      apply Ret_inj in E as <-. exists l, o. apply ok_plain; [done|]. cbn. by rewrite !bool_decide_eq_false_2.
    + case_decide as H1; [subst p|apply Ret_inj in E as <-; exists l, o; apply ok_plain; [done|]; cbn; by rewrite bool_decide_eq_false_2].
      apply bind_Ret in E as ([p out] & E1 & <-%Ret_inj). eapply ok_Returned; [done..|exact (Hl i)].
    + apply Ret_inj in E as <-. case_decide as H1; [subst p; eapply ok_Recovering; [done|exact (Hl i)]|].
      exists l, o. apply ok_plain; [done|]. cbn. by rewrite bool_decide_eq_false_2.
  - destruct (remove1 _ _) as [rest|] eqn:Er; [|by apply Ret_inj in E as <-].
    apply bind_Ret in E as ([p out] & E1 & <-%Ret_inj). by eapply ok_Recovers.
  - destruct (asking c || returning c) eqn:Ec; [by apply Ret_inj in E as <-|]. apply bind_Ret in E as ([p out] & E1 & <-%Ret_inj).
    destruct (pool_step_ok (dom o) k c (pool s) l p out) as (l' & I' & Hs & _); try done; [apply H|by destruct c|apply H|].
    exists l', o. destruct H. by constructor.
Qed.

(** ** Runs *)

Lemma record_prefix i a f j : f j `prefix_of` record i a f j.
Proof. unfold record. case_decide; [by eexists|done]. Qed.

Lemma sys_step_prefix ev s s' i : sys_step ev s = Ret s' → logs s i `prefix_of` logs s' i.
Proof.
  destruct ev as [j c|j e a|e w tk|c]; cbn [sys_step].
  - destruct (asking c); [|by intros <-%Ret_inj]. intros ([p out] & _ & <-%Ret_inj)%bind_Ret.
    destruct out; cbn; try done. apply record_prefix.
  - destruct a; try (intros <-%Ret_inj; apply record_prefix).
    + case_decide; [by intros <-%Ret_inj|]. case_decide; intros <-%Ret_inj; [done|apply record_prefix].
    + case_decide; [intros ([q out] & _ & <-%Ret_inj)%bind_Ret|intros <-%Ret_inj]; apply record_prefix.
  - destruct (remove1 _ _); [|by intros <-%Ret_inj]. by intros ([p out] & _ & <-%Ret_inj)%bind_Ret.
  - destruct (_ || _); [by intros <-%Ret_inj|]. by intros ([p out] & _ & <-%Ret_inj)%bind_Ret.
Qed.

Lemma sys_run_prefix es s s' i : sys_run es s = Ret s' → logs s i `prefix_of` logs s' i.
Proof.
  revert s. induction es as [|ev es IH]; intros s; cbn [sys_run]; [by intros <-%Ret_inj|].
  intros (s1 & E & H)%bind_Ret. etrans; [by eapply sys_step_prefix|by apply IH].
Qed.

Lemma ledger_prefix l1 l2 : l1 `prefix_of` l2 → is_Some (ledger n l2 []) → is_Some (ledger n l1 []).
Proof. intros [k ->]. rewrite ledger_app. destruct (ledger n l1 []); [by eexists|by intros [? ?]]. Qed.

Lemma sys_run_ok es k s l o s' : sys_ok k s l o → Z.of_nat k + Z.of_nat (length es) < 2 ^ 31 → sys_run es s = Ret s' →
  (∀ i, is_Some (ledger n (logs s' i) [])) → ∃ k' l' o', sys_ok k' s' l' o'.
Proof.
  revert k s l o. induction es as [|ev es IH]; intros k s l o H Hk; cbn [sys_run].
  { intros <-%Ret_inj _. by exists k, l, o. }
  intros (s1 & E & Hr)%bind_Ret Hl. cbn [length] in Hk.
  destruct (sys_step_ok k s l o ev s1 H) as (l1 & o1 & H1); [lia|done| |].
  { intros i. eapply ledger_prefix; [by eapply sys_run_prefix|done]. }
  eapply (IH (S k)); [done|lia|done|done].
Qed.

Lemma init_ok e size started p : WorkerPool.Init app ops e size started = Ret (p, true) →
  sys_ok 0 (mkSystem p (λ _, []) []) [] ∅.
Proof.
  intros E. destruct (WorkerPool.Init_ok app ops (qrep := qrep) e size started p true E) as [I Hw].
  constructor; cbn; try done; [by rewrite Hw| |constructor|by intros ? ? ?%elem_of_nil].
  intros i h [= <-]. constructor; [constructor|by intros ? ?%elem_of_nil..].
Qed.

End shared.

Section sessions.
Context {Q : Type} `{!Queue wref Q} {qrep : Q → list wref → Prop} `{!QueueLaws wref Q qrep}.
Context (app : Config) (ops : OpsConfig).
Context (smap : option ShardMap.records) (wlcfg : option (gmap ShardMap.key ShardMap.ShardMapRecord)).
Context (broker : PoolRef → option go_error) (info : bool) (hostname poolName : bytes).

(** What a session has done at some point, whatever its client, its timers, its workers and the
    pools do. *)
Definition session_log (l : list action) : Prop := ∃ w, log w = [] ∧
  l `prefix_of` log (Run app ops smap wlcfg broker info hostname poolName (NewCoordinator, w)).1.2.

Definition limit : nat := if EnableSharding app then 2 else 1.

Lemma session_log_ledger l : EnableTAF app = false → session_log l → is_Some (ledger limit l []).
Proof.
  intros Ht (w & Hw & Hp). eapply ledger_prefix; [exact Hp|].
  pose proof (Run_ledger app ops smap wlcfg broker info hostname poolName w Ht Hw) as H.
  destruct (Run _ _ _ _ _ _ _ _ _) as [[s w'] r]. destruct H as (h & E & _). by eexists.
Qed.

(** C1: Sessions never share a worker. Any number of sessions run against one pool, with
    recoveries and with all the pool's own goroutines (starts, exits and restarts of workers,
    resizing, recycling, time-outs, saturation) in any interleaving. In every state without a
    crash, two attachments to one worker of the pool are one and the same attachment of one
    session, and a worker that a session holds is not among the free workers of the pool:
    also when the worker has exited meanwhile and its ticket is void. *)
Theorem workers_not_shared (pr : PoolRef) e size started p0 es (s : system) :
  EnableTAF app = false → WorkerPool.Init app ops e size started = Ret (p0, true) → Z.of_nat (length es) < 2 ^ 31 →
  sys_run app ops pr es (mkSystem p0 (λ _, []) []) = Ret s → (∀ i, session_log (logs s i)) →
  (∀ i j a b, a ∈ held limit s i → b ∈ held limit s j → at_worker a = at_worker b → wk_pool (at_worker a) = pr →
     i = j ∧ a = b) ∧
  ∃ l, qrep (WorkerPool.activeQ (pool s)) l ∧
    ∀ i a, a ∈ held limit s i → wk_pool (at_worker a) = pr → wref_of (at_worker a) ∉ l.
Proof.
  intros Ht Hi He Hr Hs. assert (Hl : ∀ i, is_Some (ledger limit (logs s i) [])) by (intros i; by apply session_log_ledger).
  destruct (sys_run_ok app ops pr limit es 0 _ [] ∅ s (init_ok app ops pr limit e size started p0 Hi)) as (k & l & o & H); [lia|done|done|].
  assert (Ho : ∀ i a, a ∈ held limit s i → wk_pool (at_worker a) = pr →
    ∃ w, at_worker a = worker_of pr w ∧ at_pool a = pr ∧ o !! w = Some (Some i, at_ticket a)).
  { intros i a Ha Hp. unfold held in Ha. destruct (Hl i) as [h Eh]. rewrite Eh in Ha. cbn in Ha.
    pose proof (s_holds _ _ _ _ _ _ H i h Eh) as Hh. destruct (decide (at_pool a = pr)) as [E|E].
    - destruct (h_ours _ _ _ _ Hh a Ha E) as (w & E1 & E2). by exists w.
    - by destruct (h_others _ _ _ _ Hh a Ha E). }
  split.
  - intros i j a b Ha Hb E Hp. destruct (Ho i a Ha Hp) as (w & E1 & E2 & E3).
    destruct (Ho j b Hb) as (v & E4 & E5 & E6); [by rewrite <- E|].
    assert (w = v) as -> by (rewrite E1, E4 in E; injection E; lia).
    rewrite E3 in E6. injection E6 as -> E7. split; [done|]. destruct a, b; cbn in *; congruence.
  - exists l. split; [apply (WorkerPool.inv_queue _ _ _ (s_pool _ _ _ _ _ _ H))|]. intros i a Ha Hp.
    destruct (Ho i a Ha Hp) as (w & -> & _ & E3). replace (wref_of (worker_of pr w)) with w by (unfold wref_of; cbn; lia).
    apply (WorkerPool.inv_out _ _ _ (s_pool _ _ _ _ _ _ H)). by eapply elem_of_dom_2.
Qed.

End sessions.
(** ** Two sessions and a recovery

    The first session gets a worker whose answer is cut off, and leaves it to a recovery; the
    second holds the other worker meanwhile. *)

Definition ex_pool_ref : PoolRef := mkPool wtypeRW 0.

Definition ex_world (id : Z) (ticket : bytes) : World :=
  mkWorld [Client (Some sample_query); FromWorker (Some (WorkerClient.mkMsg [0; 1] false false false false 1));
           Ctrl (Some (WorkerClient.mkMsg [] false false false true 0))] [inr (id, ticket)] [] [] [] [].

Definition ex_log (id : Z) (ticket : bytes) : list action :=
  log (Run sample_config sample_opsconfig None None (λ _, None) false (str "host") (str "pool") (NewCoordinator, ex_world id ticket)).1.2.

Definition ex_asks (i : nat) (t : Z) : list event :=
  [Acts i WorkerPool.ex_env (Heard (Client (Some sample_query))); Asks i (WorkerPool.OpGet WorkerPool.ex_env i t 5 None)].

Definition ex_events : list event :=
  [Runs (WorkerPool.OpAttach 0 WorkerPool.ex_control); Runs (WorkerPool.OpAttach 1 WorkerPool.ex_control)] ++
  ex_asks 0 77 ++ ex_asks 1 78 ++ map (Acts 0 WorkerPool.ex_env) (drop 2 (ex_log 0 (str "77"))) ++
  [Runs (WorkerPool.OpExit WorkerPool.ex_env 1 true); Recovers WorkerPool.ex_env 0 (str "77")] ++ ex_asks 2 79.

Definition ex_pool0 : WorkerPool.WorkerPool (RingQueue.ringQueue (A := nat)) :=
  match WorkerPool.Init sample_config sample_opsconfig WorkerPool.ex_env 2 [true; true] with
  | Ret (p, _) => p
  | _ => WorkerPool.empty_pool sample_config WorkerPool.ex_env 2
  end.

Definition ex_start : system := mkSystem ex_pool0 (λ _, []) [].

Definition ex_system : system :=
  match sys_run sample_config sample_opsconfig ex_pool_ref ex_events ex_start with Ret s => s | _ => ex_start end.

Lemma ex_run_eq : sys_run sample_config sample_opsconfig ex_pool_ref ex_events ex_start = Ret ex_system.
Proof.
  assert (H : match sys_run sample_config sample_opsconfig ex_pool_ref ex_events ex_start with Ret _ => true | _ => false end = true)
    by (vm_compute; reflexivity).
  unfold ex_system. by destruct (sys_run _ _ _ _ _).
Qed.

Lemma ex_logs i : session_log sample_config sample_opsconfig None None (λ _, None) false (str "host") (str "pool") (logs ex_system i).
Proof.
  destruct i as [|[|[|i]]].
  - exists (ex_world 0 (str "77")). split; [reflexivity|]. exists []. vm_compute. reflexivity.
  - exists (ex_world 1 (str "78")). split; [reflexivity|]. eexists. vm_compute. reflexivity.
  - exists (ex_world 0 (str "79")). split; [reflexivity|]. eexists. vm_compute. reflexivity.
  - exists (ex_world 0 (str "77")). split; [reflexivity|]. eexists. vm_compute. reflexivity.
Qed.

Lemma workers_not_shared_witness :
  held 1 ex_system 0 = [] ∧ held 1 ex_system 1 = [mkAtt (mkRef ex_pool_ref 1) ex_pool_ref (str "78")] ∧
  held 1 ex_system 2 = [mkAtt (mkRef ex_pool_ref 0) ex_pool_ref (str "79")] ∧
  ∃ l, RingQueue.rep (WorkerPool.activeQ (pool ex_system)) l ∧ (1%nat ∉ l) ∧ (0%nat ∉ l).
Proof.
  assert (H1 : held 1 ex_system 1 = [mkAtt (mkRef ex_pool_ref 1) ex_pool_ref (str "78")]) by (vm_compute; reflexivity).
  assert (H2 : held 1 ex_system 2 = [mkAtt (mkRef ex_pool_ref 0) ex_pool_ref (str "79")]) by (vm_compute; reflexivity).
  split; [vm_compute; reflexivity|]. split; [exact H1|]. split; [exact H2|].
  destruct (workers_not_shared (qrep := RingQueue.rep) sample_config sample_opsconfig None None (λ _, None) false (str "host") (str "pool")
    ex_pool_ref WorkerPool.ex_env 2 [true; true] ex_pool0 ex_events ex_system) as (_ & l & Hq & Hl).
  - reflexivity.
  - vm_compute. reflexivity.
  - vm_compute. reflexivity.
  - exact ex_run_eq.
  - apply ex_logs.
  - exists l. split; [exact Hq|]. change (limit sample_config) with 1%nat in Hl. split.
    + refine (Hl 1%nat (mkAtt (mkRef ex_pool_ref 1) ex_pool_ref (str "78")) _ eq_refl). rewrite H1. constructor.
    + refine (Hl 2%nat (mkAtt (mkRef ex_pool_ref 0) ex_pool_ref (str "79")) _ eq_refl). rewrite H2. constructor.
Defined.

End SharedPool.
