(* ===== verification/SessionSafety.v ===== *)
(** * When a session gives a worker back (lib/coordinator.go, lib/coordinatortaf.go): only
    after the worker has said that it is free. *)

From S2P Require Import Prelude GoIO Codes Netstring ConfigFile Config ShardMap Sharding WorkerClient Regexp SqlParser Fmt Coordinator CoordinatorFacts.
From stdpp Require Import base list gmap strings.
From Stdlib Require Import ZArith Lia.
Open Scope Z_scope.

Module SessionSafety.
Import Codes Netstring Config WorkerClient Coordinator.

Definition says_free (e : event) : bool := match e with FromWorker (Some m) => msg_free m | _ => false end.

(** Whether a worker may be returned after an action: when the last event the session took
    was the message of a worker that it is free, and since then no worker was taken, written
    to or returned. No action is allowed after a return that was not. *)
Definition free_step (free : bool) (a : action) : option bool :=
  match a with
  | Heard e => Some (says_free e)
  | Got _ _ _ | ToWorker _ _ _ => Some false
  | Returned _ _ _ => if free then Some false else None
  | _ => Some free
  end.

Fixpoint free_run (l : list action) (free : bool) : option bool :=
  match l with
  | [] => Some free
  | a :: l => free_step free a ≫= free_run l
  end.

Lemma free_run_app l1 l2 b : free_run (l1 ++ l2) b = free_run l1 b ≫= free_run l2.
Proof. revert b. induction l1 as [|a l1 IH]; intros b; cbn; [done|]. destruct (free_step b a); cbn; [apply IH|done]. Qed.

Definition Free (b : bool) (s : St) : Prop := free_run (log s.2) false = Some b.
Definition Sound (s : St) : Prop := is_Some (free_run (log s.2) false).

(** The session stays sound from [P], and what it returns meets [Q]. *)
Definition ends (P : St → Prop) {A} (m : io St A) (Q : A → St → Prop) : Prop := ∀ s, P s →
  Sound (m s).1 ∧ ∀ a, (m s).2 = Ret a → Q a (m s).1.

Lemma Free_Sound b s : Free b s → Sound s.
Proof. intros H. by exists b. Qed.

Lemma ends_bind P {A B} (m : io St A) R (f : A → io St B) Q :
  ends P m R → (∀ a, ends (R a) (f a) Q) → ends P (m ≫= f) Q.
Proof.
  intros Hm Hf s Hs. destruct (Hm s Hs) as [H1 H2]. unfold mbind, io_bind.
  destruct (m s) as [s' [a| | | |]]; cbn [fst snd] in *; try (split; [done|naive_solver]). by apply Hf, H2.
Qed.

Lemma ends_keeps {A} (m : io St A) : ends Sound m (λ _, Sound) → keeps Sound m.
Proof. intros H s Hs. by apply H. Qed.

Lemma keeps_ends {A} (m : io St A) : keeps Sound m → ends Sound m (λ _, Sound).
Proof. intros H s Hs. specialize (H s Hs). by split. Qed.

(** ** Steps *)

Definition mute (a : action) : bool := match a with Heard _ | Got _ _ _ | ToWorker _ _ _ | Returned _ _ _ => false | _ => true end.

(** The message before a return, and what is between them. *)
Lemma last_message l p w t l3 : is_Some (free_run (l ++ Returned p w t :: l3) false) →
  ∃ lA m lB, l = lA ++ Heard (FromWorker (Some m)) :: lB ∧ msg_free m = true ∧ Forall (λ a, mute a = true) lB.
Proof.
  rewrite free_run_app. destruct (free_run l false) as [b|] eqn:E; [|by intros [? ?]]. cbn.
  destruct b; [intros _|by intros [? ?]]. induction l as [|a l IH] using rev_ind; [done|].
  rewrite free_run_app in E. destruct (free_run l false) as [b|]; [|done]. cbn in E.
  destruct (free_step b a) as [b'|] eqn:Es; [|done]. cbn in E. injection E as ->.
  destruct (mute a) eqn:Ha.
  - assert (b = true) as -> by (destruct a; cbn in Es; try done; by injection Es).
    destruct (IH eq_refl) as (lA & m & lB & -> & ? & ?). exists lA, m, (lB ++ [a]). rewrite <- app_assoc. split_and!; [done..|].
    apply Forall_app. by repeat constructor.
  - destruct a as [e| | | | | | | | | | | | | | | |]; try done; cbn in Es; try (by destruct b).
    destruct e as [|[m|]| | | |]; try done. injection Es as Es. by exists l, m, [].
Qed.

(** A step that neither takes an event nor takes, writes to or returns a worker. *)
Definition steady {A} (m : io St A) : Prop := ∀ b, ends (Free b) m (λ _, Free b).

Definition returning (a : action) : bool := match a with Returned _ _ _ => true | _ => false end.

Lemma free_run_snoc l a b : free_run l false = Some b → free_run (l ++ [a]) false = free_step b a.
Proof. intros H. rewrite free_run_app, H. cbn. by destruct (free_step b a). Qed.

Lemma sound_snoc l a : returning a = false → is_Some (free_run l false) → is_Some (free_run (l ++ [a]) false).
Proof. intros Ha [b H]. rewrite (free_run_snoc l a b H). by destruct a. Qed.

Lemma steady_bind {A B} (m : io St A) (f : A → io St B) : steady m → (∀ a, steady (f a)) → steady (m ≫= f).
Proof. intros Hm Hf b. eapply ends_bind; [apply Hm|]. intros a. apply Hf. Qed.

Lemma steady_keeps {A} (m : io St A) : steady m → keeps Sound m.
Proof. intros Hm s [b Hs]. by apply (Hm b). Qed.

Lemma steady_same {A} (m : io St A) : (∀ s, log (m s).1.2 = log s.2) → steady m.
Proof.
  intros Hm b s Hs. assert (Free b (m s).1) as H by (unfold Free; by rewrite Hm). split; [by eapply Free_Sound|done].
Qed.

Lemma steady_mret {A} (a : A) : steady (mret a).
Proof. by apply steady_same. Qed.
Lemma steady_lift {A} (r : result A) : steady (lift r).
Proof. by apply steady_same. Qed.
Lemma steady_modify f : steady (modify f).
Proof. by apply steady_same. Qed.
Lemma steady_gets_s {A} (f : Session → A) : steady (gets_s f).
Proof. by apply steady_same. Qed.
Lemma steady_ask : steady ask.
Proof. by apply steady_same. Qed.

Lemma steady_act a : mute a = true → steady (act a).
Proof.
  intros Ha b s Hs. assert (Free b (act a s).1) as H by (unfold Free; cbn; rewrite (free_run_snoc _ _ _ Hs); by destruct a).
  split; [by eapply Free_Sound|done].
Qed.

Lemma steady_conn_Write data : steady (conn_Write data).
Proof.
  intros b s Hs. destruct (default None (head (replies s.2))) eqn:E.
  - assert (Free b (conn_Write data s).1) as H by (unfold Free, conn_Write; rewrite E; cbn; by rewrite app_nil_r).
    split; [by eapply Free_Sound|done].
  - assert (Free b (conn_Write data s).1) as H by (unfold Free, conn_Write; rewrite E; cbn; by rewrite (free_run_snoc _ _ _ Hs)).
    split; [by eapply Free_Sound|done].
Qed.

Create HintDb steady.
#[export] Hint Resolve steady_mret steady_lift steady_modify steady_gets_s steady_ask steady_conn_Write : steady.
#[export] Hint Extern 1 (steady (act _)) => (apply steady_act; first [reflexivity | by case_match]) : steady.

Ltac settle :=
  repeat match goal with
  | |- steady (mbind _ _) => apply steady_bind; [|intros ?]
  | |- steady (match ?x with _ => _ end) => destruct x
  | |- steady _ => solve [eauto with steady]
  end.

Lemma keeps_act a : returning a = false → keeps Sound (act a).
Proof. intros Ha s Hs. by apply sound_snoc. Qed.

Lemma keeps_next_event : keeps Sound next_event.
Proof. intros s Hs. unfold next_event. destruct (events s.2); [done|]. by apply sound_snoc. Qed.

Lemma ends_next_event : ends Sound next_event (λ e, Free (says_free e)).
Proof.
  intros s Hs. split; [by apply keeps_next_event|]. unfold next_event. destruct (events s.2) as [|e es]; [done|]. intros a [= <-].
  destruct Hs as [b Hs]. unfold Free. cbn. by rewrite (free_run_snoc _ _ _ Hs).
Qed.

Lemma keeps_write_worker w ns cnt : keeps Sound (write_worker w ns cnt).
Proof.
  intros s Hs. unfold write_worker. assert (Sound (act (ToWorker w ns cnt) s).1) as H by (by apply keeps_act).
  destruct (default None _); [|exact H]. unfold Sound. cbn [fst snd log]. rewrite cons_middle, app_assoc. by apply sound_snoc.
Qed.

Lemma keeps_GetWorker p : keeps Sound (GetWorker p).
Proof.
  intros s Hs. unfold GetWorker. destruct (gets s.2) as [|[e|[id t]] gs]; [done|done|]. by apply sound_snoc.
Qed.

#[export] Hint Resolve keeps_next_event keeps_write_worker keeps_GetWorker : steady.

Ltac still :=
  repeat match goal with
  | |- keeps _ (mbind _ _) => apply keeps_bind; [|intros ?]
  | |- keeps _ (match ?x with _ => _ end) => destruct x
  | |- keeps _ _ => solve [eauto with steady | apply steady_keeps; solve [eauto with steady]]
  end.

(** ** The session *)

Section session.
Context (app : Config) (ops : OpsConfig).
Context (smap : option ShardMap.records) (wlcfg : option (gmap ShardMap.key ShardMap.ShardMapRecord)).
Context (broker : PoolRef → option go_error) (info : bool) (hostname poolName : bytes).

Lemma steady_respond data : steady (respond data).
Proof. unfold respond. settle. Qed.
#[local] Hint Resolve steady_respond : steady.

Lemma steady_respond_all l : steady (respond_all l).
Proof. induction l as [|b l IH]; cbn [respond_all]; settle. Qed.
#[local] Hint Resolve steady_respond_all : steady.

Lemma steady_processError err : steady (processError err).
Proof. unfold processError. settle. Qed.

Lemma steady_client_Write via bf : steady (client_Write info via bf).
Proof. unfold client_Write, preproc_Write. settle. Qed.
#[local] Hint Resolve steady_processError steady_client_Write : steady.

Lemma steady_relay via timer data : steady (relay_data info via timer data).
Proof. unfold relay_data. settle. Qed.

Lemma steady_processSetShardID payload : steady (processSetShardID app payload).
Proof. unfold processSetShardID. settle. Qed.
#[local] Hint Resolve steady_relay steady_processSetShardID : steady.

Lemma steady_processMuxCommand request : steady (processMuxCommand app hostname poolName request).
Proof. unfold processMuxCommand, processClientInfoMuxCommand. settle. Qed.
#[local] Hint Resolve steady_processMuxCommand : steady.

Lemma steady_PreprocessSharding l : steady (PreprocessSharding app smap wlcfg l).
Proof. unfold PreprocessSharding. settle. Qed.
#[local] Hint Resolve steady_PreprocessSharding : steady.

Lemma steady_mux_parts all l : steady (mux_parts app smap wlcfg hostname poolName all l).
Proof. induction l as [|ns l IH]; cbn [mux_parts]; unfold mux_prepare; settle. Qed.
#[local] Hint Resolve steady_mux_parts : steady.

Lemma steady_handleMux request : steady (handleMux app smap wlcfg hostname poolName request).
Proof. unfold handleMux. settle. Qed.
#[local] Hint Resolve steady_handleMux : steady.

(** A request that ended well and does not keep its worker has just heard that it is free. *)
Definition done_with (r : bool * option go_error) (s : St) : Prop := Sound s ∧ (r = (false, None) → Free true s).

Lemma ends_mret_done r : r ≠ (false, None) → ends Sound (mret r) done_with.
Proof. intros Hr s Hs. split; [done|]. by intros a [= <-]. Qed.

Lemma ends_pre P P' {A} (m : io St A) Q : ends P m Q → (∀ s, P' s → P s) → ends P' m Q.
Proof. intros H HP s Hs. apply H, HP, Hs. Qed.

Lemma ends_then {A B} P (m : io St A) (f : A → io St B) Q :
  (∀ s, P s → Sound s) → keeps Sound m → (∀ a, ends Sound (f a) Q) → ends P (m ≫= f) Q.
Proof. intros HP Hm Hf. eapply ends_bind; [|exact Hf]. intros s Hs. split; [by apply Hm, HP|]. intros a _. by apply Hm, HP. Qed.

Lemma ends_wait_worker fuel w via timer : ends Sound (wait_worker ops info fuel w via timer) done_with.
Proof.
  revert timer. induction fuel as [|fuel IH]; intros timer; cbn [wait_worker]; [intros s Hs; by split|].
  eapply ends_bind; [apply ends_next_event|]. intros e.
  assert (HF : ∀ s, Free (says_free e) s → Sound s) by (intros s; apply Free_Sound).
  destruct e as [[ns|]|[msg|]|[msg|]| | |]; try (intros s Hs; split; [by apply HF|done]).
  - apply ends_then; [done|apply steady_keeps, steady_lift|]. intros [cnt|]; [|by apply ends_mret_done].
    apply ends_then; [done|apply keeps_write_worker|]. intros [|]; [apply IH|by apply ends_mret_done].
  - eapply ends_bind; [apply steady_relay|]. intros [[err|] timer'].
    { eapply ends_pre; [by apply ends_mret_done|done]. }
    cbn [says_free]. destruct (msg_free msg).
    + eapply ends_bind; [by apply (steady_act (SqlEnd w) eq_refl true)|]. intros _ s Hs.
      split; [by eapply Free_Sound|]. intros a [= <-]. split; [by eapply Free_Sound|done].
    + eapply ends_pre; [|apply Free_Sound]. destruct (msg_eor msg); [|apply IH].
      apply ends_then; [done|apply steady_keeps, steady_modify|]. intros _. by apply ends_mret_done.
  - destruct (msg_abort msg); [|eapply ends_pre; [apply IH|done]].
    apply ends_then; [done|by apply keeps_act|]. intros _. by apply ends_mret_done.
  - apply ends_then; [done|by apply keeps_act|]. intros _. by apply ends_mret_done.
  - destruct timer; [eapply ends_pre; [by apply ends_mret_done|done]|eapply ends_pre; [apply IH|done]].
  - eapply ends_pre; [by apply ends_mret_done|done].
Qed.

Lemma ends_doRequest w request via timer : ends Sound (doRequest ops info w request via timer) done_with.
Proof.
  unfold doRequest. apply ends_then; [done|unfold send_request; still|]. intros ok.
  eapply ends_bind with (R := done_with).
  - destruct ok; [|by apply ends_mret_done]. apply ends_then; [done|still|]. intros hash.
    apply ends_then; [done|by apply keeps_act|]. intros _ s Hs. apply (ends_wait_worker _ _ _ _ s Hs).
  - intros r s [Hs Hr]. split; [by apply keeps_act|]. intros a. cbn. intros [= <-]. split; [by apply keeps_act|].
    intros E. destruct (steady_act (Counted w) eq_refl true s (Hr E)) as [_ H]. by apply (H tt).
Qed.

Lemma ends_release a err : ends (done_with (false, err)) (release a err) (λ _, Sound).
Proof.
  intros s [Hs Hf]. unfold release. destruct err as [e|].
  - apply keeps_ends; [|done]. unfold Recover. still.
  - assert (Sound (ReturnWorker a s).1) as H; [|by split]. unfold Sound. cbn. rewrite (free_run_snoc _ _ _ (Hf eq_refl)). by eexists.
Qed.

(** A step between the end of a request and the release. *)
Lemma ends_between {A B} r (m : io St A) (f : A → io St B) Q :
  steady m → (∀ a, ends (done_with r) (f a) Q) → ends (done_with r) (m ≫= f) Q.
Proof.
  intros Hm Hf. eapply ends_bind; [|exact Hf]. intros s [Hs Hr]. split; [by apply steady_keeps|]. intros a E. split; [by apply steady_keeps|].
  intros Er. by eapply (Hm true s (Hr Er)).
Qed.

Lemma ends_released a err {B} (m : io St B) : keeps Sound m → ends (done_with (false, err)) (release a err ≫= λ _, m) (λ _, Sound).
Proof. intros Hm. eapply ends_bind; [apply ends_release|]. intros ?. by apply keeps_ends. Qed.

Lemma keeps_request_on a request : keeps Sound (request_on ops info a request).
Proof.
  apply ends_keeps. unfold request_on. eapply ends_bind; [apply ends_doRequest|]. intros [[] err].
  - eapply ends_pre; [apply keeps_ends; still|by intros s []].
  - unfold resetWorkerInfo. apply ends_between; [settle|]. intros _. apply ends_between; [settle|]. intros _.
    apply ends_released. still.
Qed.

Lemma keeps_cross_shard_read a request : keeps Sound (cross_shard_read ops info a request).
Proof.
  unfold cross_shard_read, removeFetchSize. apply keeps_bind; [still|]. intros r. apply ends_keeps.
  eapply ends_bind; [apply ends_doRequest|]. intros [[] err]; (apply ends_between; [settle|]; intros _; apply ends_between; [settle|]; intros _).
  - eapply ends_pre; [apply keeps_ends; unfold Recover; still|by intros s []].
  - apply ends_between; [settle|]. intros _. apply ends_released. still.
Qed.
#[local] Hint Resolve keeps_request_on keeps_cross_shard_read : steady.

Lemma keeps_dispatchRequest request : keeps Sound (dispatchRequest app ops broker info request).
Proof. unfold dispatchRequest, get_from. still. Qed.
#[local] Hint Resolve keeps_dispatchRequest : steady.

Lemma keeps_primary a request {B} (k : option (option go_error) → io St B) : (∀ r, keeps Sound (k r)) →
  keeps Sound ('(wait, err) ← doRequest ops info (at_worker a) request true true; r ← primary_done app a wait err; k r).
Proof.
  intros Hk. apply ends_keeps. eapply ends_bind; [apply ends_doRequest|]. intros [wait err].
  eapply ends_bind with (R := λ _, Sound); [|intros r; by apply keeps_ends]. unfold primary_done.
  apply ends_between; [settle|]. intros p. destruct wait.
  - eapply ends_pre; [apply keeps_ends; unfold Recover; still|by intros s []].
  - do 3 (apply ends_between; [settle|]; intros ?). apply ends_released. still.
Qed.

Lemma keeps_try_primary primary request : keeps Sound (try_primary app ops info primary request).
Proof.
  unfold try_primary. apply keeps_bind; [still|intros use]. apply keeps_bind; [still|intros healthy]. destruct (negb _); [still|].
  apply keeps_bind; [still|]. intros [e|a]; [still|]. apply keeps_bind; [still|]. intros _. apply keeps_primary. intros r. still.
Qed.

Lemma keeps_try_fallback primary fallback ticket request : keeps Sound (try_fallback app ops info primary fallback ticket request).
Proof.
  unfold try_fallback. apply keeps_bind; [still|]. intros [e|a]; [still|]. apply ends_keeps.
  eapply ends_bind; [apply ends_doRequest|]. intros [[] err].
  - eapply ends_pre; [apply keeps_ends; unfold Recover; still|by intros s []].
  - apply ends_between; [settle|]. intros _. apply ends_released. still.
Qed.
#[local] Hint Resolve keeps_try_primary keeps_try_fallback : steady.

Lemma keeps_DispatchTAFSession request : keeps Sound (DispatchTAFSession app ops broker info request).
Proof. unfold DispatchTAFSession, removeFetchSize. still. Qed.
#[local] Hint Resolve keeps_DispatchTAFSession : steady.

Lemma keeps_on_client ns : keeps Sound (on_client app ops smap wlcfg broker info hostname poolName ns).
Proof. unfold on_client, dispatch, Recover, resetWorkerInfo. still. Qed.

(** The attached worker is returned on its message that it is free. *)
Lemma ends_on_worker msg : ends (Free (msg_free msg)) (on_worker msg) (λ _, Sound).
Proof.
  unfold on_worker. eapply ends_bind; [apply steady_modify|]. intros []. eapply ends_bind; [apply steady_gets_s|]. intros a.
  eapply ends_bind with (R := λ _, Free (msg_free msg)); [|intros [err|]].
  - destruct (msg_data msg); [apply steady_mret|apply steady_conn_Write].
  - eapply ends_pre; [apply keeps_ends; unfold idle_worker, Recover; still|apply Free_Sound].
  - destruct (msg_free msg); [|eapply ends_pre; [apply keeps_ends; still|apply Free_Sound]].
    destruct a as [a|]; [|intros s Hs; split; [by eapply Free_Sound|done]].
    do 2 (eapply ends_bind; [by apply steady_act|]; intros ?).
    eapply ends_bind with (R := λ _, Sound); [|intros ?; apply keeps_ends; unfold resetWorkerInfo; still].
    intros s Hs. apply (ends_release a None). split; [by eapply Free_Sound|done].
Qed.

Lemma keeps_run_loop fuel listening idle : keeps Sound (run_loop app ops smap wlcfg broker info hostname poolName fuel listening idle).
Proof.
  revert listening idle. induction fuel as [|fuel IH]; intros listening idle; cbn [run_loop]; [still|].
  apply ends_keeps. eapply ends_bind; [apply ends_next_event|]. intros e.
  destruct e as [[ns|]|[msg|]|[msg|]| | |]; try solve [eapply ends_pre; [apply keeps_ends; still|apply Free_Sound]].
  - eapply ends_pre; [apply keeps_ends|apply Free_Sound]. apply keeps_bind; [apply keeps_on_client|]. intros running.
    apply keeps_bind; [still|]. intros s. destruct running as [[]|]; still.
  - cbn [says_free]. destruct (negb listening); [eapply ends_pre; [apply keeps_ends; still|apply Free_Sound]|].
    eapply ends_bind; [apply ends_on_worker|]. intros running. apply keeps_ends. still.
  - eapply ends_pre; [apply keeps_ends|apply Free_Sound]. destruct (negb listening); [still|].
    destruct (msg_abort msg); [|still]. unfold on_abort, Recover, resetWorkerInfo. still.
  - eapply ends_pre; [apply keeps_ends|apply Free_Sound]. unfold on_ctrl_closed. still.
Qed.

Lemma Run_free (w : World) : log w = [] →
  is_Some (free_run (log (Run app ops smap wlcfg broker info hostname poolName (NewCoordinator, w)).1.2) false).
Proof.
  intros Hw. unfold Run.
  apply (keeps_bind Sound (run_loop _ _ _ _ _ _ _ _ _ _ _) (λ _, act CloseConn)); [apply keeps_run_loop|intros _; by apply keeps_act|].
  exists false. cbn. by rewrite Hw.
Qed.

(** C4: A session returns a worker to its pool only when the last thing it has heard is the
    message of a worker that it is free, and it has taken, written to and returned no worker
    since: whatever the configuration, with sharding and with fail-over, and whatever the
    client, the workers, the timers and the pools do. A worker that is given up in any other
    state is recovered. *)
Theorem workers_returned_free (w : World) : log w = [] →
  is_Some (free_run (log (Run app ops smap wlcfg broker info hostname poolName (NewCoordinator, w)).1.2) false).
Proof. apply Run_free. Qed.

End session.
(** A query that is answered by a worker that is then free. *)
Definition ex_world : World :=
  mkWorld [Client (Some CoordinatorFacts.sample_query); FromWorker (Some (mkMsg [0; 1] true true false false 1))] [inr (7, str "ticket")] [] [] [] [].

Definition ex_log : list action :=
  log (Run CoordinatorFacts.sample_config CoordinatorFacts.sample_opsconfig None None (λ _, None) false (str "host") (str "pool") (NewCoordinator, ex_world)).1.2.

Lemma workers_returned_free_witness : is_Some (free_run ex_log false) ∧
  ∃ p, ex_log !! 9%nat = Some (Returned p (mkRef p 7) (str "ticket")).
Proof.
  split.
  - apply (workers_returned_free CoordinatorFacts.sample_config CoordinatorFacts.sample_opsconfig None None (λ _, None) false (str "host") (str "pool") ex_world).
    reflexivity.
  - eexists. vm_compute. reflexivity.
Defined.

End SessionSafety.
