(* ===== verification/SessionRouting.v ===== *)
(** * The shards a session takes workers of (lib/coordinator.go, lib/coordinatortaf.go,
    lib/coordinatorsharding.go): whatever its client sends, a session asks only for workers of
    configured shards, or, after a reset of its shard or a hang-up, for those of shard -1. *)

From S2P Require Import Prelude GoIO Codes Netstring ConfigFile Config ShardMap Sharding WorkerClient Regexp SqlParser Fmt Coordinator.
From stdpp Require Import base list gmap strings.
From Stdlib Require Import ZArith Lia.
Open Scope Z_scope.

Module SessionRouting.
Import Codes Netstring Config WorkerClient Coordinator.

Section routing.
Context (app : Config) (ops : OpsConfig).
Context (smap : option ShardMap.records) (wlcfg : option (gmap ShardMap.key ShardMap.ShardMapRecord)).
Context (broker : PoolRef → option go_error) (info : bool) (hostname poolName : bytes).
Context (Hok : Sharding.routing_ok (Config.Sharding app) smap wlcfg).

Abbreviation N := (NumOfShards (Config.Sharding app)).

(** ** What a client may do to lose its shard *)

(** HERA_SET_SHARD_ID with -1, alone or as a part of a request. *)
Definition is_reset (p : Packet) : Prop := Cmd p = CmdSetShardID ∧ (GoStrings.ParseInt 32 (Payload p)).1 = -1.

Definition resets (ns : Packet) : Prop := is_reset ns ∨ ∃ l p, SubNetstrings ns = Ret l ∧ p ∈ l ∧ is_reset p.

(** The session has closed the connection, or has heard a reset. *)
Definition excused (l : list action) : Prop :=
  CloseConn ∈ l ∨ ∃ ns, Heard (Client (Some ns)) ∈ l ∧ resets ns.

Definition got_ok (l : list action) (p : PoolRef) : Prop := -1 <= pl_shard p < N ∧ (pl_shard p < 0 → excused l).

Definition routes_ok (l : list action) : Prop := ∀ l1 wk p t l3, l = l1 ++ Got wk p t :: l3 → got_ok l1 p.

Lemma excused_app l l' : excused l → excused (l ++ l').
Proof.
  intros [H|(ns & H & Hr)]; [left|right; exists ns; split; [|done]]; apply elem_of_app; by left.
Qed.

Lemma routes_ok_snoc l a : routes_ok l → match a with Got _ p _ => got_ok l p | _ => True end → routes_ok (l ++ [a]).
Proof.
  intros Hl Ha l1 wk p t l3 E. destruct l3 as [|x l3 _] using rev_ind.
  - apply app_inj_tail in E as [-> ->]. done.
  - rewrite app_comm_cons, app_assoc in E. apply app_inj_tail in E as [-> _]. by eapply Hl.
Qed.

(** ** The invariant *)

Definition chosen (s : Session) : Prop := 0 <= Sharding.shardID (shard s) ∧ 0 <= Sharding.shardID (prevShard s).

Record Inv (s : St) : Prop := {
  i_routes : routes_ok (log s.2);
  i_shard : Sharding.in_range (Config.Sharding app) (shard s.1);
  i_prev : Sharding.in_range (Config.Sharding app) (prevShard s.1);
  i_chosen : excused (log s.2) ∨ chosen s.1
}.

(** While a command is handled that, if it is a reset ([R]), has been heard. *)
Definition J (R : Prop) (s : St) : Prop := Inv s ∧ (R → excused (log s.2)).
Definition JA (R : Prop) (sid : Z) (s : St) : Prop := J R s ∧ Sharding.shardID (shard s.1) = sid.

Lemma JA_log R sid c c' w w' a : JA R sid (c, w) → log w' = log w ++ [a] → shard c' = shard c → prevShard c' = prevShard c →
  match a with Got _ p _ => pl_shard p = sid | _ => True end → JA R sid (c', w').
Proof.
  intros [[[H1 H2 H3 H4] HR] Hs] El Es Ep Ha. cbn in *. split; [|cbn; by rewrite Es]. split; [|cbn; rewrite El; intros; by apply excused_app, HR].
  constructor; cbn; rewrite ?El, ?Es, ?Ep; try done.
  - apply routes_ok_snoc; [done|]. destruct a; try done. split; [rewrite Ha, <- Hs; apply H2|]. intros Hn.
    destruct H4 as [?|[? _]]; [done|]. lia.
  - destruct H4 as [H4|H4]; [left; by apply excused_app|right]. unfold chosen. by rewrite Es, Ep.
Qed.

Lemma JA_same R sid c c' w w' : JA R sid (c, w) → log w' = log w → shard c' = shard c → prevShard c' = prevShard c → JA R sid (c', w').
Proof.
  intros [[[H1 H2 H3 H4] HR] Hs] El Es Ep. cbn in *. split; [|cbn; by rewrite Es]. split; [|cbn; by rewrite El].
  constructor; cbn; rewrite ?El, ?Es, ?Ep; try done. destruct H4 as [H4|H4]; [by left|right]. unfold chosen. by rewrite Es, Ep.
Qed.

Lemma JA_J {A} R (m : io St A) : (∀ sid, keeps (JA R sid) m) → keeps (J R) m.
Proof. intros H s Hs. by apply (H _ s (conj Hs eq_refl)). Qed.

(** ** Steps that leave the shard *)

Section steps.
Context (R : Prop) (sid : Z).
Abbreviation I := (JA R sid).

Lemma k_gets {A} (f : Session → A) : keeps I (gets_s f).
Proof. by intros s. Qed.
Lemma k_modify f : (∀ s, shard (f s) = shard s ∧ prevShard (f s) = prevShard s) → keeps I (modify f).
Proof. intros Hf [c w] Hs. destruct (Hf c). by eapply JA_same. Qed.
Lemma k_act a : match a with Got _ p _ => False | _ => True end → keeps I (act a).
Proof. intros Ha [c w] Hs. eapply JA_log; [exact Hs|reflexivity|done|done|]. by destruct a. Qed.
Lemma k_next_event : keeps I next_event.
Proof. intros [c w] Hs. unfold next_event. cbn. destruct (events w); [done|]. by eapply (JA_log _ _ c c w); [exact Hs|reflexivity|done|done|]. Qed.
Lemma k_ask : keeps I ask.
Proof. intros [c w] Hs. by eapply JA_same. Qed.
Lemma k_conn_Write data : keeps I (conn_Write data).
Proof.
  intros [c w] Hs. unfold conn_Write. cbn. destruct (default None _); [by eapply (JA_same _ _ c c w); [exact Hs|cbn; by rewrite app_nil_r|..]|].
  by eapply (JA_log _ _ c c w); [exact Hs|reflexivity|done|done|].
Qed.
Lemma k_write_worker wk ns cnt : keeps I (write_worker wk ns cnt).
Proof.
  intros [c w] Hs. unfold write_worker. cbn. set (w1 := mkWorld (events w) (gets w) (tail (sends w)) (replies w) (answers w) (log w ++ [ToWorker wk ns cnt])).
  assert (JA R sid (c, w1)) as H1 by (eapply JA_log; [exact Hs|reflexivity|done..]).
  destruct (default None _); [|exact H1]. eapply JA_log; [exact H1| |done|done|]; [cbn; by rewrite <- app_assoc|done].
Qed.
Lemma k_GetWorker p : pl_shard p = sid → keeps I (GetWorker p).
Proof.
  intros Hp [c w] Hs. unfold GetWorker. cbn. destruct (gets w) as [|[e|[id t]] gs]; [done|by eapply JA_same|].
  by eapply JA_log; [exact Hs|reflexivity|done|done|].
Qed.
End steps.

Create HintDb routes.
Hint Resolve k_ask k_next_event k_conn_Write k_write_worker : routes.

Ltac still :=
  repeat match goal with
  | |- keeps _ (mbind _ _) => apply keeps_bind; [|intros ?]
  | |- keeps _ (mret _) => apply keeps_mret
  | |- keeps _ (lift _) => apply keeps_lift
  | |- keeps (JA _ _) (gets_s _) => apply k_gets
  | |- keeps (JA _ _) (act _) => apply k_act; by repeat case_match
  | |- keeps (JA _ _) (modify _) => apply k_modify; intros ?; by repeat case_match
  | |- keeps _ (match ?x with _ => _ end) => destruct x eqn:?
  | |- _ => solve [eauto with routes]
  end.

Lemma k_respond R sid data : keeps (JA R sid) (respond data).
Proof. unfold respond. still. Qed.
Hint Resolve k_respond : routes.

Lemma k_respond_all R sid l : keeps (JA R sid) (respond_all l).
Proof. induction l as [|b l IH]; cbn [respond_all]; still. Qed.

Lemma k_processError R sid err : keeps (JA R sid) (processError err).
Proof. unfold processError. still. Qed.

Lemma k_relay R sid via timer data : keeps (JA R sid) (relay_data info via timer data).
Proof. unfold relay_data, client_Write, preproc_Write. still. Qed.
Hint Resolve k_respond_all k_processError k_relay : routes.

Lemma k_wait_worker R sid fuel w via timer : keeps (JA R sid) (wait_worker ops info fuel w via timer).
Proof. revert timer. induction fuel as [|fuel IH]; intros timer; cbn [wait_worker]; still. Qed.

Lemma k_doRequest R sid w request via timer : keeps (JA R sid) (doRequest ops info w request via timer).
Proof. unfold doRequest, send_request, wait_events. still. intros s Hs. by apply k_wait_worker. Qed.
Hint Resolve k_doRequest : routes.

Lemma k_release R sid a err : keeps (JA R sid) (release a err).
Proof. unfold release, ReturnWorker, Recover. still. Qed.
Hint Resolve k_release : routes.

Lemma k_request_on R sid a request : keeps (JA R sid) (request_on ops info a request).
Proof. unfold request_on, resetWorkerInfo. still. Qed.
Hint Resolve k_request_on : routes.

Lemma k_removeFetchSize R sid request : keeps (JA R sid) (removeFetchSize request).
Proof. unfold removeFetchSize. still. Qed.
Hint Resolve k_removeFetchSize : routes.

(** ** Steps that may move the session *)

Lemma j_modify R f : (∀ s, (shard (f s) = shard s ∨ shard (f s) = prevShard s) ∧ prevShard (f s) = prevShard s) → keeps (J R) (modify f).
Proof.
  intros Hf [c w] [[H1 H2 H3 H4] HR]. destruct (Hf c) as [Hs Hp]. split; [|done]. cbn in *. constructor; cbn; rewrite ?Hp; try done.
  - by destruct Hs as [->| ->].
  - destruct H4 as [?|[? ?]]; [by left|right]. unfold chosen. rewrite Hp. by destruct Hs as [->| ->].
Qed.

(** As [still], where the shard may change. *)
Ltac moves :=
  repeat match goal with
  | |- keeps (J _) (mbind _ _) => apply keeps_bind; [|intros ?]
  | |- keeps (J _) (mret _) => apply keeps_mret
  | |- keeps (J _) (lift _) => apply keeps_lift
  | |- keeps (J _) (modify _) => apply j_modify; intros ?; split; [|by repeat case_match]; first [by left; repeat case_match | by right]
  | |- keeps (J _) (match ?x with _ => _ end) => destruct x eqn:?
  | |- keeps (J _) _ => first [solve [eauto with routes] | apply JA_J; intros ?; solve [still]]
  end.

Lemma j_cross_shard_read R a request : keeps (J R) (cross_shard_read ops info a request).
Proof. unfold cross_shard_read, Recover. moves. Qed.
Hint Resolve j_cross_shard_read : routes.

(** A worker of the shard the session is on. *)
Lemma j_get_from R {B} ty (k : go_error + attachment → io St B) (s : St) : J R s → (∀ g, keeps (J R) (k g)) →
  J R ((g ← get_from broker (mkPool ty (Sharding.shardID (shard s.1))); k g) s).1.
Proof.
  intros Hs Hk. unfold mbind, io_bind. assert (HJ : J R (get_from broker (mkPool ty (Sharding.shardID (shard s.1))) s).1).
  { unfold get_from. destruct (broker _); [exact Hs|]. by apply (k_GetWorker R (Sharding.shardID (shard s.1)) (mkPool ty (Sharding.shardID (shard s.1))) eq_refl s (conj Hs eq_refl)). }
  destruct (get_from _ _ s) as [s' [g| | | |]]; try exact HJ. by apply Hk.
Qed.

Lemma j_dispatchRequest R request : keeps (J R) (dispatchRequest app ops broker info request).
Proof.
  intros s Hs. unfold dispatchRequest, gets_s, mbind at 1, io_bind at 1. cbn [id]. destruct (worker s.1) as [a|].
  - destruct (_ && _); [apply j_get_from; [done|intros g; moves]|].
    assert (keeps (J R) (request_on ops info a request)) as H by (apply JA_J; intros; still). by apply H.
  - apply j_get_from; [done|intros g; moves].
Qed.
Hint Resolve j_dispatchRequest : routes.

Lemma k_primary_done R sid a wait err : keeps (JA R sid) (primary_done app a wait err).
Proof. unfold primary_done, Recover. still. Qed.
Hint Resolve k_primary_done : routes.

Lemma k_try_primary R sid ty request : keeps (JA R sid) (try_primary app ops info (mkPool ty sid) request).
Proof. unfold try_primary. still. by apply k_GetWorker. Qed.

Lemma k_try_fallback R sid p ty ticket request : keeps (JA R sid) (try_fallback app ops info p (mkPool ty sid) ticket request).
Proof. unfold try_fallback, Recover. still. by apply k_GetWorker. Qed.
Hint Resolve k_try_primary k_try_fallback : routes.

(** From the shard [sid] to any. *)
Definition leaves (R : Prop) (sid : Z) {A} (m : io St A) : Prop := ∀ s, JA R sid s → J R (m s).1.

Lemma leaves_bind R sid {A B} (m : io St A) (f : A → io St B) : keeps (JA R sid) m → (∀ a, leaves R sid (f a)) → leaves R sid (m ≫= f).
Proof.
  intros Hm Hf s Hs. specialize (Hm s Hs). unfold mbind, io_bind. destruct (m s) as [s' [a| | | |]]; [by apply Hf|apply Hm..].
Qed.

Lemma leaves_still R sid {A} (m : io St A) : keeps (JA R sid) m → leaves R sid m.
Proof. intros Hm s Hs. by apply Hm. Qed.

Lemma leaves_shard R {B} (k : Z → io St B) : (∀ sid, leaves R sid (k sid)) →
  keeps (J R) (sid ← gets_s (λ s, Sharding.shardID (shard s)); k sid).
Proof. intros H s Hs. exact (H _ s (conj Hs eq_refl)). Qed.

Lemma j_DispatchTAFSession R request : keeps (J R) (DispatchTAFSession app ops broker info request).
Proof.
  unfold DispatchTAFSession. apply keeps_bind; [moves|]. intros request'. apply leaves_shard. intros sid.
  destruct (broker _); [apply leaves_still; still|].
  do 3 (apply leaves_bind; [still|intros ?]). destruct (negb _); [intros s Hs; by apply j_dispatchRequest, Hs|].
  apply leaves_still. still.
Qed.
Hint Resolve j_DispatchTAFSession : routes.

Lemma j_dispatch R request : keeps (J R) (dispatch app ops broker info request).
Proof. unfold dispatch. moves. Qed.
Hint Resolve j_dispatch : routes.

(** ** The commands of the client *)

(** What sharding says, as the session takes it over. *)
Lemma j_rerouted R c f (s : St) : J R s → f s.1 = rerouted c s.1 →
  Sharding.in_range (Config.Sharding app) (Sharding.shard c) → Sharding.in_range (Config.Sharding app) (Sharding.prevShard c) →
  (excused (log s.2) ∨ 0 <= Sharding.shardID (Sharding.shard c) ∧ 0 <= Sharding.shardID (Sharding.prevShard c)) → J R (modify f s).1.
Proof.
  intros [[H1 H2 H3 H4] HR] Hf G1 G2 G3. split; [|done]. cbn. rewrite Hf. by constructor.
Qed.

Lemma j_processSetShardID R payload : ((GoStrings.ParseInt 32 payload).1 = -1 → R) → keeps (J R) (processSetShardID app payload).
Proof.
  intros HR s Hs. unfold processSetShardID, gets_s, mbind at 1, io_bind at 1.
  destruct (Sharding.processSetShardID _ _ payload (routing s.1)) as [c err] eqn:E.
  pose proof Hs as [[H1 H2 H3 H4] HRe].
  destruct (Sharding.processSetShardID_ids _ _ _ _ Hok _ _ _ _ E H2) as (G1 & G2 & G3).
  set (k := λ _ : (), _). enough (J R (modify (rerouted c) s).1) as HJ.
  { unfold mbind, io_bind. assert (keeps (J R) (k tt)) as HK by (subst k; apply JA_J; intros; still). by apply HK. }
  eapply j_rerouted; [done|done|done|by rewrite G2|]. rewrite G2.
  destruct (decide ((GoStrings.ParseInt 32 payload).1 = -1)) as [Hr|Hr]; [left; by apply HRe, HR|].
  destruct H4 as [?|[? ?]]; [by left|right]. split; [by apply G3|done].
Qed.

Lemma j_processMuxCommand R request : (is_reset request → R) → keeps (J R) (processMuxCommand app hostname poolName request).
Proof.
  intros HR. unfold processMuxCommand, processClientInfoMuxCommand.
  destruct (IsMySQL request); [moves|]. apply keeps_bind; [moves|]. intros a.
  destruct (Cmd request =? CmdClientCalCorrelationID); [moves|]. destruct (Cmd request =? CmdServerPingCommand); [moves|].
  destruct (Cmd request =? CmdBacktrace); [moves|]. destruct (Cmd request =? CmdClientInfo); [moves|].
  destruct (_ || _); [moves|]. destruct (Cmd request =? CmdFetch); [moves|]. destruct (is_prepare _); [moves|].
  destruct (Z.eqb_spec (Cmd request) CmdSetShardID) as [Hc|]; [|moves].
  apply keeps_bind; [apply j_processSetShardID; intros Hr; apply HR; by split|]. intros [e|]; moves.
Qed.

(** Answers to the client leave everything but the log. *)
Lemma respond_all_log l (s : St) : ∃ w', respond_all l s = ((s.1, w'), Ret tt) ∧
  ∃ lg, log w' = log s.2 ++ lg ∧ Forall (λ a, match a with ToClient _ => True | _ => False end) lg.
Proof.
  revert s. induction l as [|b l IH]; intros [c w]; cbn [respond_all].
  { exists w. split; [done|]. exists []. by rewrite app_nil_r. }
  unfold respond. unfold mbind at 1 2, io_bind at 1 2, conn_Write. cbn [fst snd mret io_ret].
  set (e := default None _). match goal with |- context [respond_all l (c, ?w1)] => destruct (IH (c, w1)) as (w' & -> & lg & El & Hl) end.
  exists w'. split; [done|]. cbn [log snd] in El. exists (match e with Some _ => [] | None => [ToClient b] end ++ lg).
  rewrite El, <- app_assoc. split; [done|]. apply Forall_app. split; [destruct e; by repeat constructor|done].
Qed.

Lemma routes_ok_app l lg : routes_ok l → Forall (λ a, match a with ToClient _ => True | _ => False end) lg → routes_ok (l ++ lg).
Proof.
  intros Hl. induction lg as [|a lg IH] using rev_ind; [by rewrite app_nil_r|]. intros [H Ha]%Forall_app.
  rewrite app_assoc. apply routes_ok_snoc; [by apply IH|]. apply Forall_cons in Ha as [Ha _]. by destruct a.
Qed.

(** A request that sharding refuses with a hang-up closes the connection. *)
Lemma j_sharded R all : keeps (J R) (err ← PreprocessSharding app smap wlcfg all;
  match err with
  | None => mret false
  | Some (hangup, _) => _ ← (if (hangup : bool) then act CloseConn else mret tt); mret true
  end).
Proof.
  intros s Hs. unfold PreprocessSharding, gets_s, lift. unfold mbind, io_bind.
  destruct (Sharding.PreprocessSharding _ smap wlcfg all (routing s.1)) as [[c out]|e| | |] eqn:E; try exact Hs. cbn [modify fst snd].
  pose proof Hs as [[H1 H2 H3 H4] HR].
  destruct (Sharding.preprocess_ids _ _ _ Hok _ _ _ _ E H2 H3) as [[G1 G2] G3].
  destruct (respond_all_log (Sharding.responses c) (rerouted c s.1, s.2)) as (w' & -> & lg & El & Hl). cbn [fst snd] in *. cbn [mret io_ret].
  assert (HG : (excused (log w') ∨ chosen (rerouted c s.1)) → J R (rerouted c s.1, w')).
  { intros Hc. split; [|intros Hr; cbn; rewrite El; by apply excused_app, HR]. constructor; cbn; [rewrite El; by apply routes_ok_app|done..]. }
  assert (HC : excused (log w') ∨ (Sharding.hangs_up out = false → chosen (rerouted c s.1))).
  { destruct H4 as [H4|[H4 H5]]; [left; rewrite El; by apply excused_app|right]. intros Hh. destruct (G3 H4 H5) as [? ?]. split; by auto. }
  destruct out as [[[] e]|]; [|apply HG; (destruct HC as [HC|HC]; [by left|right; by apply HC])..].
  cbn. assert (HK : J R (rerouted c s.1, mkWorld (events w') (gets w') (sends w') (replies w') (answers w') (log w' ++ [CloseConn]))).
  { split; [|cbn; intros Hr; rewrite El; by apply excused_app, excused_app, HR].
    constructor; cbn; [apply routes_ok_snoc; [rewrite El; by apply routes_ok_app|done]|done|done|].
    left. left. apply elem_of_app. right. by left. }
  exact HK.
Qed.

Lemma j_mux_prepare R ns all : keeps (J R) (mux_prepare app smap wlcfg ns all).
Proof. unfold mux_prepare. apply keeps_bind; [moves|]. intros _. destruct (EnableSharding app); [apply j_sharded|moves]. Qed.
Hint Resolve j_mux_prepare : routes.

Lemma j_mux_parts R all l : (∀ p, p ∈ l → is_reset p → R) → keeps (J R) (mux_parts app smap wlcfg hostname poolName all l).
Proof.
  induction l as [|ns l IH]; intros HR; cbn [mux_parts]; [moves|]. destruct (is_prepare _); [moves|].
  apply keeps_bind; [apply j_processMuxCommand, HR; by left|]. intros [|]; [apply IH; intros p Hp; apply HR; by right|moves].
Qed.

Lemma j_handleMux ns : keeps (J (resets ns)) (handleMux app smap wlcfg hostname poolName ns).
Proof.
  assert (Hself : keeps (J (resets ns)) (processMuxCommand app hostname poolName ns)) by (apply j_processMuxCommand; by left).
  unfold handleMux. apply keeps_bind; [moves|]. intros _. destruct (negb (IsMySQL ns)); [|moves; exact Hself].
  apply keeps_bind; [moves|]. intros _. destruct (IsComposite ns); [|moves; exact Hself].
  destruct (SubNetstrings ns) as [l| | | |] eqn:El; [|moves..]. apply keeps_bind; [moves|]. intros _.
  apply j_mux_parts. intros p Hp Hr. right. by exists l, p.
Qed.

(** ** The main loop *)

Lemma j_on_client ns : keeps (J (resets ns)) (on_client app ops smap wlcfg broker info hostname poolName ns).
Proof.
  unfold on_client, Recover, resetWorkerInfo. apply keeps_bind; [moves|]. intros _.
  apply keeps_bind; [apply j_handleMux|]. intros [|]; moves.
Qed.

Lemma j_on_worker R msg : keeps (J R) (on_worker msg).
Proof. unfold on_worker, idle_worker, Recover, ReturnWorker, resetWorkerInfo. moves. Qed.

Lemma j_on_abort R : keeps (J R) on_abort.
Proof. unfold on_abort, Recover, resetWorkerInfo. moves. Qed.

Lemma j_on_ctrl_closed R : keeps (J R) on_ctrl_closed.
Proof. unfold on_ctrl_closed. moves. Qed.
Hint Resolve j_on_worker j_on_abort j_on_ctrl_closed : routes.

Lemma J_weaken R (s : St) : J R s → J False s.
Proof. intros [H _]. by split. Qed.

(** What is heard is in the log. *)
Lemma j_next {B} (k : event → io St B) :
  (∀ e s, J (match e with Client (Some ns) => resets ns | _ => False end) s → J False (k e s).1) → keeps (J False) (e ← next_event; k e).
Proof.
  intros Hk s Hs. unfold mbind, io_bind. pose proof (k_next_event False _ s (conj Hs eq_refl)) as [HJ _].
  unfold next_event in *. destruct (events s.2) as [|e es]; [done|]. cbn [fst snd] in *. apply Hk. destruct HJ as [HI _]. split; [done|].
  destruct e as [[ns|]| | | | |]; try done. intros Hr. right. exists ns. split; [|done]. apply elem_of_app. right. by left.
Qed.

Lemma j_run_loop fuel listening idle :
  keeps (J False) (run_loop app ops smap wlcfg broker info hostname poolName fuel listening idle).
Proof.
  revert listening idle. induction fuel as [|fuel IH]; intros listening idle; cbn [run_loop]; [moves|].
  apply j_next. intros [[ns|]|m|m| | |] s Hs.
  - assert (HK : ∀ r, keeps (J False) (s0 ← gets_s id; let idle := idle ≫= λ _, Some (idle_ms ops s0) in
      match r with None => run_loop app ops smap wlcfg broker info hostname poolName fuel listening idle
      | Some true => run_loop app ops smap wlcfg broker info hostname poolName fuel (match worker s0 with Some _ => true | None => false end) idle
      | Some false => mret tt end)) by (intros r; apply keeps_bind; [moves|intros s0; cbv zeta; destruct r as [[]|]; [apply IH|moves|apply IH]]).
    pose proof (j_on_client ns s Hs) as HJ%J_weaken. unfold mbind at 1, io_bind at 1.
    destruct (on_client _ _ _ _ _ _ _ _ ns s) as [s1 [r| | | |]]; try exact HJ. by apply HK.
  - exact Hs.
  - revert s Hs. change (keeps (J False) (if negb listening then run_loop app ops smap wlcfg broker info hostname poolName fuel listening idle
      else match m with None => lift Panic | Some msg => running ← on_worker msg; if negb running then mret tt
        else if msg_free msg then run_loop app ops smap wlcfg broker info hostname poolName fuel false (idle ≫= λ _, Some (GetIdleTimeoutMs ops))
        else run_loop app ops smap wlcfg broker info hostname poolName fuel listening idle end)). moves; apply IH.
  - revert s Hs. change (keeps (J False) (if negb listening then run_loop app ops smap wlcfg broker info hostname poolName fuel listening idle
      else match m with None => on_ctrl_closed | Some msg => if msg_abort msg then on_abort
        else run_loop app ops smap wlcfg broker info hostname poolName fuel listening idle end)). moves; apply IH.
  - revert s Hs. change (keeps (J False) (match idle with None => run_loop app ops smap wlcfg broker info hostname poolName fuel listening idle
      | Some ms => _ ← act (DoneMs ms); run_loop app ops smap wlcfg broker info hostname poolName fuel listening None end)). moves; apply IH.
  - by apply IH.
  - by apply IH.
Qed.

Lemma Run_routes (w : World) : log w = [] →
  routes_ok (log (Run app ops smap wlcfg broker info hostname poolName (NewCoordinator, w)).1.2).
Proof.
  intros Hw. unfold Run.
  assert (keeps (J False) (_ ← run_loop app ops smap wlcfg broker info hostname poolName (S (length (events w))) false (Some (GetIdleTimeoutMs ops)); act CloseConn)) as HK.
  { apply keeps_bind; [apply j_run_loop|]. intros _. moves. }
  apply HK. destruct Hok. split; [|done]. constructor; cbn; rewrite ?Hw.
  - intros l1 wk p t l3 E. by destruct l1.
  - unfold Sharding.in_range, Sharding.N. cbn. lia.
  - unfold Sharding.in_range, Sharding.N. cbn. lia.
  - right. by split.
Qed.

(** C11: A session asks only for workers of shards that are configured. Whatever the client
    sends, the workers, the timers and the pools do, with and without sharding, with a shard
    map or a whitelist and with fail-over: every worker it takes is of a shard below the
    number of shards; and it is of a negative shard, -1, only after the session has heard a
    HERA_SET_SHARD_ID that resets the shard to -1, or has closed the connection, as it does
    when sharding refuses a request with a hang-up. *)
Theorem session_routes_valid (w : World) l1 wk p t l3 : log w = [] →
  log (Run app ops smap wlcfg broker info hostname poolName (NewCoordinator, w)).1.2 = l1 ++ Got wk p t :: l3 →
  -1 <= pl_shard p < NumOfShards (Config.Sharding app) ∧
  (pl_shard p = -1 → CloseConn ∈ l1 ∨ ∃ ns, Heard (Client (Some ns)) ∈ l1 ∧ resets ns).
Proof. intros Hw E. destruct (Run_routes w Hw _ _ _ _ _ E) as [H1 H2]. split; [done|]. intros Hp. apply H2. lia. Qed.

End routing.

(** ** Concrete sessions *)

Definition sample_config : Config := gAppConfig sample_init.

(** Two shards with a shard map and without a whitelist. *)
Definition ex_app : Config :=
  mkConfig (CertChainFile sample_config) (KeyFile sample_config) 0 [] 0 0 0 0 0 0 0 0 0 false 0 0 0 0 0 0 0 false
    MySQL true Sharding.example_plain ∅ 0 false (TAF sample_config) false [] [] false [] [] 0 0 0 [] false false false 0.
Definition ex_ops : OpsConfig := mkOpsConfig 0 4 600000 900000 0 0 200 0.

Lemma ex_ok : Sharding.routing_ok (Config.Sharding ex_app) (Some Sharding.example_map) None.
Proof. destruct Sharding.example_ok as [H1 H2 H3 H4]. by constructor. Qed.

Definition set_shard_id (id : bytes) : Packet := NewNetstringFrom CmdSetShardID id.
Definition ex_query : Packet := mkPacket 3 (0 :: [9; 0; 0; 0] ++ 3 :: str "select 1") (3 :: str "select 1") 9 0 true.

Definition ex_world (id : bytes) : World :=
  mkWorld [Client (Some (set_shard_id id)); Client (Some ex_query)] [inr (7, str "ticket")] [] [] [] [].
Definition ex_log (id : bytes) : list action :=
  log (Run ex_app ex_ops (Some Sharding.example_map) None (λ _, None) false [] [] (NewCoordinator, ex_world id)).1.2.

Lemma session_routes_valid_witness :
  ex_log (str "1") !! 3%nat = Some (Got (mkRef (mkPool wtypeRW 1) 7) (mkPool wtypeRW 1) (str "ticket")) ∧ -1 <= 1 < 2.
Proof.
  split; [vm_compute; reflexivity|].
  destruct (session_routes_valid ex_app ex_ops (Some Sharding.example_map) None (λ _, None) false [] [] ex_ok (ex_world (str "1"))
    (take 3 (ex_log (str "1"))) (mkRef (mkPool wtypeRW 1) 7) (mkPool wtypeRW 1) (str "ticket") (drop 4 (ex_log (str "1")))) as [H _].
  - reflexivity.
  - vm_compute. reflexivity.
  - exact H.
Defined.

(** A client that resets its shard and sends a query, which sharding does not look at: the
    session asks for a worker of shard -1. In the broker that index panics. *)
Theorem reset_leaves_no_shard :
  ex_log (str "-1") !! 3%nat = Some (Got (mkRef (mkPool wtypeRW (-1)) 7) (mkPool wtypeRW (-1)) (str "ticket")).
Proof. vm_compute. reflexivity. Qed.

End SessionRouting.
