(* ===== verification/Transactions.v ===== *)
(** * Transactions across sessions: a worker that answers netstring commands has no
    unsettled work when a session gives it back; with MySQL commands an open transaction goes
    back to the pool with its worker. *)

From S2P Require Import Prelude GoIO Codes Netstring MysqlPackets Config ShardMap Sharding Fmt Adapter WorkerClient CmdProcessor WorkerCmd WorkerFacts WorkerRuns WorkerService WorkerJournal Coordinator CoordinatorFacts SessionRuns SessionSafety StateLog Connection WorkerLink EndToEnd WireToWire.
From stdpp Require Import base list gmap strings.
From Stdlib Require Import ZArith Lia.
Open Scope Z_scope.

Module Transactions.
Import Codes Netstring.

(** ** Free messages come from free workers *)

Section read.
Import WorkerClient.

Definition bytes_of (p : Packet) : Prop := Forall is_byte (Payload p).

Definition none_free (s : read_state) : Prop := ∀ m, m ∈ rd_sent s → msg_free m = false.

Lemma none_free_flush s : none_free s → none_free (flush s).
Proof.
  intros H m. unfold flush. destruct (rd_payload s); [apply H|]. cbn [rd_sent].
  intros [Hm| ->%list_elem_of_singleton]%elem_of_app; [by apply H|done].
Qed.

Lemma read_eor_free p s s' : bytes_of p → Cmd p = CmdEOR → read_eor p s = Ret s' → none_free s →
  none_free s' ∨ WorkerFacts.eor_of p = Some EORFree.
Proof.
  intros Hb Hc E Hs. unfold read_eor in E. apply bind_Ret in E as (np & _ & E). apply bind_Ret in E as (b0 & E0 & E).
  apply bind_Ret in E as (b1 & _ & E). apply bind_Ret in E as (b2 & _ & E).
  destruct (Payload p) as [|x payload] eqn:Ep; [done|]. cbn in E0. apply Ret_inj in E0 as ->.
  assert (Hx : is_byte b0) by (unfold bytes_of in Hb; rewrite Ep in Hb; by inversion Hb).
  destruct (Z.eqb_spec (u8 (b0 - 48)) EORFree) as [Hf|Hf].
  - right. unfold WorkerFacts.eor_of. rewrite Hc, Z.eqb_refl, Ep. cbn. f_equal.
    unfold is_byte, in_u8, u8, EORFree in *. Z.div_mod_to_equations. lia.
  - left. destruct (negb _); apply Ret_inj in E as <-; [|exact Hs].
    intros m [Hm| ->%list_elem_of_singleton]%elem_of_app; [by apply Hs|done].
Qed.

Lemma doRead_free pkts : ∀ s s' m, Forall bytes_of pkts → doRead pkts s = Ret s' → none_free s →
  m ∈ rd_sent s' → msg_free m = true → ∃ p, p ∈ pkts ∧ WorkerFacts.eor_of p = Some EORFree.
Proof.
  induction pkts as [|p pkts IH]; intros s s' m Hb E Hs Hm Hf; cbn [doRead] in E.
  { apply Ret_inj in E as <-. apply none_free_flush in Hs. rewrite (Hs m Hm) in Hf. done. }
  apply Forall_cons in Hb as [Hp Hb]. apply bind_Ret in E as ([s1 more] & E1 & E).
  assert (H1 : none_free s1 ∨ WorkerFacts.eor_of p = Some EORFree).
  { unfold read_one in E1. destruct (IsMySQL p); [apply Ret_inj in E1 as [= <- <-]; by left|].
    destruct (Z.eqb_spec (Cmd p) CmdEOR) as [Hc|Hc].
    - apply bind_Ret in E1 as (s2 & E2 & [= <- <-]%Ret_inj). by eapply read_eor_free.
    - left. destruct (Cmd p =? CmdControlMsg); apply Ret_inj in E1 as [= <- <-]; [by apply none_free_flush|].
      intros m'. cbn [rd_sent]. intros [Hm'| ->%list_elem_of_singleton]%elem_of_app; [|done]. revert Hm'. by apply none_free_flush. }
  destruct H1 as [H1|H1]; [|exists p; split; [by constructor|done]].
  destruct more; [|apply Ret_inj in E as <-; rewrite (H1 m Hm) in Hf; done].
  destruct (IH s1 s' m Hb E H1 Hm Hf) as (p' & Hp' & He). exists p'. split; [by constructor|done].
Qed.
End read.

Section returned.
Import Adapter WorkerCmd WorkerRuns WireToWire.
Context {D Tx Stmt Rows Res : Type} `{!SqlDB D Tx Stmt Rows Res} `{!EqDecision Stmt}.
Context (adapter : CmdProcessorAdapter).
Context (app : Config.Config) (ops : Config.OpsConfig).
Context (smap : option ShardMap.records) (wlcfg : option (gmap ShardMap.key ShardMap.ShardMapRecord)).
Context (broker : Coordinator.PoolRef → option go_error) (info : bool) (hostname poolName : bytes).
Abbreviation WSt := (CmdProc Tx Stmt Rows Res * World (D * WorkerJournal.journal))%type.

Abbreviation session w := (Coordinator.Run app ops smap wlcfg broker info hostname poolName (Coordinator.NewCoordinator, w)).

(** ** A worker that is returned *)

(** The worker at its last message, from the account of the session. *)
Lemma ledger_mute n lB : Forall (λ a, SessionSafety.mute a = true) lB → ∀ h h', CoordinatorFacts.ledger n lB h = Some h' →
  ∀ x, x ∈ h' → x ∈ h.
Proof.
  assert (Hr : ∀ (P : Coordinator.attachment → Prop) `{!∀ x, Decision (P x)} l l', CoordinatorFacts.remove1 P l = Some l' → ∀ x, x ∈ l' → x ∈ l).
  { intros P ? l. induction l as [|y l IH]; intros l' E x Hx; cbn in E; [done|]. case_decide; [injection E as <-; by right|].
    destruct (CoordinatorFacts.remove1 P l) as [l''|] eqn:E1; [|done]. injection E as <-.
    apply elem_of_cons in Hx as [->|Hx]; [by left|right; by eapply IH]. }
  induction 1 as [|a lB Ha HB IH]; intros h h' E x Hx; cbn in E; [by injection E as <-|].
  destruct (CoordinatorFacts.ledger_step n h a) as [h1|] eqn:E1; [|done]. cbn in E. specialize (IH _ _ E x Hx).
  destruct a; try done; cbn in E1; try (injection E1 as <-; done); try (by eapply Hr).
  case_decide; [|done]. by injection E1 as <-.
Qed.

Lemma ledger_bound n l : ∀ h h', (length h ≤ n)%nat → CoordinatorFacts.ledger n l h = Some h' → (length h' ≤ n)%nat.
Proof.
  assert (Hr : ∀ (P : Coordinator.attachment → Prop) `{!∀ x, Decision (P x)} l l', CoordinatorFacts.remove1 P l = Some l' → (length l' ≤ length l)%nat).
  { intros P ? l0. induction l0 as [|y l0 IH]; intros l' E; cbn in E; [done|]. case_decide; [injection E as <-; cbn; lia|].
    destruct (CoordinatorFacts.remove1 P l0) as [l''|] eqn:E1; [|done]. injection E as <-. specialize (IH _ eq_refl). cbn. lia. }
  induction l as [|a l IH]; intros h h' Hh E; cbn in E; [by injection E as <-|].
  destruct (CoordinatorFacts.ledger_step n h a) as [h1|] eqn:E1; [|done]. cbn in E. apply (IH h1 h'); [|done].
  destruct a; cbn in E1; try (injection E1 as <-; done); try (apply Hr in E1; lia);
    case_decide; try done; injection E1 as <-; cbn; lia.
Qed.

Lemma held_at_message lA e lB p wk t l3 h :
  CoordinatorFacts.ledger 1 ((lA ++ Coordinator.Heard e :: lB) ++ Coordinator.Returned p wk t :: l3) [] = Some h →
  Forall (λ a, SessionSafety.mute a = true) lB → CoordinatorFacts.ledger 1 lA [] = Some [Coordinator.mkAtt wk p t].
Proof.
  intros Hl HB. rewrite CoordinatorFacts.ledger_app in Hl.
  destruct (CoordinatorFacts.ledger 1 (lA ++ _) []) as [h2|] eqn:E2; [|done]. rewrite CoordinatorFacts.ledger_app in E2.
  destruct (CoordinatorFacts.ledger 1 lA []) as [h1|] eqn:E1; [|done]. cbn in E2, Hl.
  assert (Hin : Coordinator.mkAtt wk p t ∈ h2).
  { destruct (CoordinatorFacts.remove1 _ h2) as [h3|] eqn:Er; [|done]. clear -Er. revert h3 Er.
    induction h2 as [|y h2 IH]; intros h3 E; cbn in E; [done|]. case_decide; [subst y; by left|].
    destruct (CoordinatorFacts.remove1 _ h2) as [h4|] eqn:E4; [|done]. right. by eapply IH. }
  apply (ledger_mute 1 lB HB h1 h2 E2) in Hin. apply ledger_bound in E1; [|cbn; lia].
  destruct h1 as [|x [|? ?]]; [by apply elem_of_nil in Hin| |cbn in E1; lia]. by apply list_elem_of_singleton in Hin as ->.
Qed.

(** A message that the proxy reads from the answer of a worker to a netstring command, which
    has left the worker, after whatever it was asked before, in the given state. *)
Definition answers_with (s' : WSt) (m : WorkerClient.workerMsg) : Prop :=
  ∃ su es d sk more ns out st rs, IsMySQL ns = false ∧
  let s := (WorkerService.Start adapter su es (WorkerJournal.fresh d sk more)).1 in
  s' = (WorkerService.turn adapter (WorkerService.Received (Some ns)) s).1 ∧
  w_out s'.2 = w_out s.2 ++ out ∧ Forall (λ x, bytes_of x.1) out ∧
  WorkerClient.doRead (map fst out) (WorkerClient.mkRead st [] []) = Ret rs ∧ m ∈ WorkerClient.rd_sent rs.

Lemma answers_settled s' m : answers_with s' m → WorkerClient.msg_free m = true → WorkerJournal.settled s'.
Proof.
  intros (su & es & d & sk & more & ns & out & st & rs & Hns & -> & Eo & Hb & Er & Hm) Hf.
  set (s := (WorkerService.Start adapter su es _).1) in *.
  destruct (doRead_free (map fst out) (WorkerClient.mkRead st [] []) rs m) as (pk & Hpk & Hfree); try done.
  { by apply Forall_map. }
  { intros m' Hm'. by apply elem_of_nil in Hm'. }
  rewrite turn_state in *.
  assert (HA : WorkerJournal.Acc ((WorkerService.next_rqId 1 s.1, s.2) : WSt)) by apply WorkerJournal.Start_acc.
  destruct (WorkerJournal.reports_settled adapter ns _ HA Hns) as (l & El' & Fl). cbn [snd] in El'.
  rewrite El' in Eo. apply app_inv_head in Eo as ->. apply list_elem_of_fmap in Hpk as (x & -> & Hx).
  rewrite Forall_forall in Fl. apply (Fl x Hx). by left.
Qed.

(** C3: A session of the proxy never gives back a worker with unsettled work, as long as the
    worker works on netstring commands. With sharding and fail-over off, as the code sets
    them, and provided that each message the session hears while it holds a worker is one the
    proxy reads from that worker's answer to a netstring command: whenever the session
    returns a worker, the last event it took was a message of that very worker, since then
    it has taken no event and no worker and has written to none, and in the state in which
    the worker's process had handled the command of that message it was not in a transaction
    and no statement had run in a transaction of its connection that was not ended. *)
Theorem transaction_not_returned (w : Coordinator.World) (process : Coordinator.WorkerRef → nat → WSt) l1 p wk t l3 :
  Config.EnableTAF app = false → Config.EnableSharding app = false → Coordinator.log w = [] →
  Coordinator.log (session w).1.2 = l1 ++ Coordinator.Returned p wk t :: l3 →
  (∀ lA m lB a, Coordinator.log (session w).1.2 = lA ++ Coordinator.Heard (Coordinator.FromWorker (Some m)) :: lB →
     CoordinatorFacts.ledger 1 lA [] = Some [a] → answers_with (process (Coordinator.at_worker a) (length lA)) m) →
  ∃ lA m lB, l1 = lA ++ Coordinator.Heard (Coordinator.FromWorker (Some m)) :: lB ∧
    CoordinatorFacts.ledger 1 lA [] = Some [Coordinator.mkAtt wk p t] ∧ Forall (λ a, SessionSafety.mute a = true) lB ∧
    inTrans (process wk (length lA)).1 = false ∧ ¬ WorkerJournal.unsettled (WorkerJournal.journal_of (process wk (length lA))).
Proof.
  intros Ht Hsh Hw El Hans.
  pose proof (SessionSafety.Run_free app ops smap wlcfg broker info hostname poolName w Hw) as Hf.
  pose proof (CoordinatorFacts.Run_ledger app ops smap wlcfg broker info hostname poolName w Ht Hw) as Hl.
  destruct (session w) as [[sx wx] r]. cbn [fst snd] in *. destruct Hl as (h & Hl & _). rewrite Hsh in Hl. rewrite El in Hf, Hl.
  destruct (SessionSafety.last_message _ _ _ _ _ Hf) as (lA & m & lB & -> & Hm & HB).
  pose proof (held_at_message _ _ _ _ _ _ _ _ Hl HB) as HA.
  exists lA, m, lB. split_and!; [done..| |];
    (rewrite <- app_assoc in El; specialize (Hans lA m _ _ El HA); cbn [Coordinator.at_worker] in Hans;
     by destruct (answers_settled _ _ Hans Hm)).
Qed.

End returned.

(** ** Transactions of MySQL clients *)

Section leak.
Import Adapter WorkerCmd WorkerRuns WireToWire.
Context {D Tx Stmt Rows Res : Type} `{!SqlDB D Tx Stmt Rows Res} `{!EqDecision Stmt}.
Context (adapter : CmdProcessorAdapter).
Context (app : Config.Config) (ops : Config.OpsConfig).
Context (smap : option ShardMap.records) (wlcfg : option (gmap ShardMap.key ShardMap.ShardMapRecord)).
Context (broker : Coordinator.PoolRef → option go_error) (info : bool) (hostname poolName : bytes).
Abbreviation WSt := (CmdProc Tx Stmt Rows Res * World D)%type.
Abbreviation session w := (Coordinator.Run app ops smap wlcfg broker info hostname poolName (Coordinator.NewCoordinator, w)).

(** A worker that has answered a query of a MySQL client and goes on is as before for the
    next query. *)
Lemma turn_unprepared ns (s s1 : WSt) : IsMySQL ns = true → unprepared s →
  WorkerService.turn adapter (WorkerService.Received (Some ns)) s = (s1, Ret true) → unprepared s1.
Proof.
  intros Hm Hu. cbn [WorkerService.turn]. rewrite modify_bind. intros (s2 & err & E & H)%io_bind_inv.
  destruct err as [err|]; [done|]. apply io_bind_inv in H as (s3 & p & [= <- _] & [= <- _]).
  unfold ProcessCmd in E. rewrite modify_bind, Hm in E.
  eapply process_mysql_unprepared; [|exact E]. exact Hu.
Qed.

(** C14: With MySQL commands an open transaction goes back to the pool. A statement that
    leaves the database in a transaction is answered as any other: the session of its client
    gives the worker back, and the next query that the worker gets, of whatever client, is run
    by the database in the state the first statement left it in. *)
Theorem mysql_transaction_leaks (in_transaction : D → Prop) (ns1 ns2 : Packet) c1 q1 c2 q2 (s s1 : WSt)
    d1 res d2 n d3 i e1 res' e2 n' e3 i' p b st id ticket :
  Config.EnableTAF app = false → broker rw_pool = None → unprepared s →
  IsMySQL ns1 = true → Cmd ns1 = COM_QUERY → Payload ns1 = c1 :: q1 → Serialized ns1 ≠ [] →
  db_Exec q1 (w_db s.2) = (d1, inr res) → res_RowsAffected res d1 = (d2, inr n) → res_LastInsertId res d2 = (d3, inr i) →
  in_transaction d3 →
  WorkerService.turn adapter (WorkerService.Received (Some ns1)) s = (s1, Ret true) →
  w_out s1.2 = w_out s.2 ++ [(p, b)] → WorkerFacts.eor_of p = Some WorkerClient.EORFree →
  IsMySQL ns2 = true → Cmd ns2 = COM_QUERY → Payload ns2 = c2 :: q2 →
  db_Exec q2 d3 = (e1, inr res') → res_RowsAffected res' e1 = (e2, inr n') → res_LastInsertId res' e2 = (e3, inr i') →
  (∃ rs m, (WorkerLink.doRead_conn st (mkStream [Serialized p] io_EOF)).2 = Ret rs ∧ WorkerClient.rd_sent rs = [m] ∧
     Coordinator.Returned rw_pool (Coordinator.mkRef rw_pool id) ticket ∈
       Coordinator.log (session (Coordinator.mkWorld [Coordinator.Client (Some ns1); Coordinator.FromWorker (Some m)] [inr (id, ticket)] [] [] [] [])).1.2) ∧
  in_transaction (w_db s1.2) ∧
  w_db (WorkerService.turn adapter (WorkerService.Received (Some ns2)) s1).1.2 = e3.
Proof.
  intros Ht Hb Hu Hm1 Hc1 Hp1 Hs1 Hdb Hn Hi Htx Et Eo He Hm2 Hc2 Hp2 Hdb2 Hn2 Hi2.
  pose proof (worker_answers adapter ns1 c1 q1 s d1 res d2 n d3 i Hu Hm1 Hc1 Hp1 Hdb Hn Hi) as H. rewrite Et in H. cbn [fst] in H.
  destruct H as (Ed & more & b' & Eo'). rewrite Eo' in Eo. apply app_inv_head in Eo as [= <- <-].
  rewrite WorkerFacts.eor_of_From in He by (by destruct more). assert (more = false) as -> by (by destruct more).
  split; [|split; [by rewrite Ed|]].
  - destruct (answer_read st (u16 (CmdProcessor.cp_rqId (core s.1) + 1)) (Sqid ns1) n i (u16_range _)) as (rs & m & E1 & E2 & E3 & E4).
    exists rs, m. split; [exact E1|]. split; [exact E2|].
    destruct (session_serves app ops smap wlcfg broker info hostname poolName ns1 id ticket m 0 (drop 1 (Serialized (ok_packet (Sqid ns1) n i))))
      as (sx & E5 & E6); try done; [by rewrite Hc1|].
    rewrite E5. cbn [fst snd Coordinator.log]. by apply (list_elem_of_lookup_2 _ 9%nat).
  - destruct (worker_answers adapter ns2 c2 q2 s1 e1 res' e2 n' e3 i') as [H _]; try done; [exact (turn_unprepared ns1 s s1 Hm1 Hu Et)|by rewrite Ed].
Qed.

End leak.

(** ** Concrete runs *)

Section examples.
Import WorkerCmd WorkerService.

Abbreviation toy_turn ns s := (turn (SqlDB0 := WorkerFacts.Toy.toy) Adapter.Mysql.mysqlAdapter (Received (Some ns)) s).
Abbreviation run_session w :=
  (Coordinator.Run StateLog.sample_app StateLog.sample_cfg None None (λ _, None) false [] [] (Coordinator.NewCoordinator, w)).

Definition commit : Packet := NewNetstringFrom CmdCommit [].

(** A client that updates a row and commits: the worker after the update and after the
    commit, and the messages the proxy makes of its answers. *)
Section update.
Import WorkerJournal.
Definition ex_prepare : Packet := NewNetstringFrom CmdPrepare (str "update t set a = 1").
Definition ex_execute : Packet := NewNetstringFrom CmdExecute [].
Definition ex_start (es : list event) : CmdProc unit bytes unit unit * World (WorkerFacts.Toy.D * journal) :=
  (Start Adapter.Mysql.mysqlAdapter WorkerJournal.ex_setup es (fresh [] (replicate 9 [Ret 1000%nat]) [])).1.
Definition ex_after (es : list event) (ns : Packet) := (turn Adapter.Mysql.mysqlAdapter (Received (Some ns)) (ex_start es)).1.
Definition ex_out (es : list event) (ns : Packet) := drop (length (w_out (ex_start es).2)) (w_out (ex_after es ns).2).
Definition ex_read (es : list event) (ns : Packet) : WorkerClient.read_state :=
  match WorkerClient.doRead (map fst (ex_out es ns)) (WorkerClient.mkRead WorkerClient.wsBusy [] []) with
  | Ret rs => rs
  | _ => WorkerClient.mkRead 0 [] []
  end.
Definition ex_msg (es : list event) (ns : Packet) : WorkerClient.workerMsg :=
  default (WorkerClient.data_msg []) (head (WorkerClient.rd_sent (ex_read es ns))).

Definition ex_es1 : list event := [Received (Some ex_prepare)].
Definition ex_es2 : list event := [Received (Some ex_prepare); Received (Some ex_execute)].

Definition ex_world : Coordinator.World :=
  Coordinator.mkWorld [Coordinator.Client (Some ex_prepare); Coordinator.Client (Some ex_execute);
      Coordinator.FromWorker (Some (ex_msg ex_es1 ex_execute)); Coordinator.Client (Some commit);
      Coordinator.FromWorker (Some (ex_msg ex_es2 commit))] [inr (7, str "t")] [] [] [] [].
Definition ex_log : list Coordinator.action :=
  Coordinator.log (Coordinator.Run CoordinatorFacts.sample_config CoordinatorFacts.sample_opsconfig None None (λ _, None) false [] [] (Coordinator.NewCoordinator, ex_world)).1.2.

Definition ex_process (wk : Coordinator.WorkerRef) (k : nat) :=
  if (k <? 10)%nat then ex_after ex_es1 ex_execute else ex_after ex_es2 commit.

Lemma ex_answers es ns : IsMySQL ns = false → w_out (ex_after es ns).2 = w_out (ex_start es).2 ++ ex_out es ns →
  bool_decide (Forall (λ x, bytes_of x.1) (ex_out es ns)) = true →
  WorkerClient.doRead (map fst (ex_out es ns)) (WorkerClient.mkRead WorkerClient.wsBusy [] []) = Ret (ex_read es ns) →
  ex_msg es ns ∈ WorkerClient.rd_sent (ex_read es ns) → answers_with Adapter.Mysql.mysqlAdapter (ex_after es ns) (ex_msg es ns).
Proof.
  intros Hm Ho Hb Hr Hin. exists WorkerJournal.ex_setup, es, [], (replicate 9 [Ret 1000%nat]), [], ns, (ex_out es ns), WorkerClient.wsBusy, (ex_read es ns).
  split; [exact Hm|]. split; [done|]. split; [exact Ho|]. split; [by apply bool_decide_eq_true in Hb|by split].
Qed.

#[local] Instance workerMsg_eq_dec : EqDecision WorkerClient.workerMsg.
Proof. solve_decision. Defined.

Definition ex_message (k : nat) : WorkerClient.workerMsg := if (k <? 10)%nat then ex_msg ex_es1 ex_execute else ex_msg ex_es2 commit.

Definition ex_checked (km : nat * Coordinator.action) : bool :=
  match km.2 with
  | Coordinator.Heard (Coordinator.FromWorker (Some m)) => bool_decide (m = ex_message km.1)
  | _ => true
  end.

Lemma checked_at {A} (L : list A) (f : nat * A → bool) lA x lB : forallb f (imap pair L) = true → L = lA ++ x :: lB → f (length lA, x) = true.
Proof.
  intros Hc ->. rewrite imap_app, forallb_app in Hc. apply andb_true_iff in Hc as [_ Hc]. cbn in Hc.
  apply andb_true_iff in Hc as [Hc _]. by rewrite Nat.add_0_r in Hc.
Qed.

(** The messages of the log are the answers of the worker. *)
Lemma ex_messages lA m lB a : ex_log = lA ++ Coordinator.Heard (Coordinator.FromWorker (Some m)) :: lB →
  answers_with Adapter.Mysql.mysqlAdapter (ex_process (Coordinator.at_worker a) (length lA)) m.
Proof.
  intros E. assert (Hc : forallb ex_checked (imap pair ex_log) = true) by (vm_compute; reflexivity).
  apply (checked_at _ _ _ _ _ Hc), bool_decide_eq_true in E. cbn [fst] in E. rewrite E. unfold ex_message, ex_process.
  destruct (_ <? _)%nat; apply ex_answers; try (vm_compute; reflexivity); vm_compute; constructor.
Qed.

Lemma transaction_not_returned_witness : ∃ k, (k <= 18)%nat ∧
  let s := ex_process (Coordinator.mkRef (Coordinator.mkPool Config.wtypeRW 0) 7) k in
  inTrans s.1 = false ∧ ¬ unsettled (journal_of s).
Proof.
  destruct (transaction_not_returned Adapter.Mysql.mysqlAdapter CoordinatorFacts.sample_config CoordinatorFacts.sample_opsconfig None None (λ _, None) false [] []
    ex_world ex_process (take 18 ex_log) (Coordinator.mkPool Config.wtypeRW 0)
    (Coordinator.mkRef (Coordinator.mkPool Config.wtypeRW 0) 7) (str "t") (drop 19 ex_log)) as (lA & m & lB & El & _ & _ & Hs).
  - reflexivity.
  - reflexivity.
  - reflexivity.
  - vm_compute. reflexivity.
  - intros lA m lB a E _. by eapply ex_messages.
  - exists (length lA). split; [|exact Hs]. apply (f_equal length) in El. rewrite length_app, length_take in El. lia.
Defined.
End update.

(** [begin] by one client, a statement by another. *)
Definition ex_query (q : bytes) : Packet := Connection.cmd_packet (Connection.mkCommand 0 COM_QUERY q).
Definition ex_begin : WorkerFacts.Toy.db_call := WorkerFacts.Toy.CRun (str "begin") [].
Definition ex_insert : WorkerFacts.Toy.db_call := WorkerFacts.Toy.CRun (str "insert into t values (1)") [].
Definition ex_first := (toy_turn (ex_query (str "begin")) (WorkerFacts.Toy.proc, WorkerFacts.Toy.world 2)).
Definition ex_answer : Packet * bytes := default (commit, []) (head (w_out ex_first.1.2)).

Lemma mysql_transaction_leaks_witness :
  (∃ m, Coordinator.Returned WireToWire.rw_pool (Coordinator.mkRef WireToWire.rw_pool 7) (str "t") ∈
     Coordinator.log (run_session (Coordinator.mkWorld [Coordinator.Client (Some (ex_query (str "begin"))); Coordinator.FromWorker (Some m)] [inr (7, str "t")] [] [] [] [])).1.2) ∧
  w_db (toy_turn (ex_query (str "insert into t values (1)")) ex_first.1).1.2 = [ex_begin; ex_insert].
Proof.
  pose proof (mysql_transaction_leaks (SqlDB0 := WorkerFacts.Toy.toy) Adapter.Mysql.mysqlAdapter StateLog.sample_app StateLog.sample_cfg None None (λ _, None) false [] []
    (λ d, ex_begin ∈ d) (ex_query (str "begin")) (ex_query (str "insert into t values (1)"))
    COM_QUERY (str "begin") COM_QUERY (str "insert into t values (1)") (WorkerFacts.Toy.proc, WorkerFacts.Toy.world 2) ex_first.1
    [ex_begin] tt [ex_begin] 1 [ex_begin] 7 [ex_begin; ex_insert] tt [ex_begin; ex_insert] 1 [ex_begin; ex_insert] 7
    ex_answer.1 ex_answer.2 WorkerClient.wsBusy 7 (str "t")) as H.
  destruct H as ((rs & m & _ & _ & H1) & _ & H2).
  - reflexivity.
  - reflexivity.
  - split; [reflexivity|split; reflexivity].
  - reflexivity.
  - reflexivity.
  - reflexivity.
  - discriminate.
  - reflexivity.
  - reflexivity.
  - reflexivity.
  - constructor.
  - vm_compute. reflexivity.
  - vm_compute. reflexivity.
  - vm_compute. reflexivity.
  - reflexivity.
  - reflexivity.
  - reflexivity.
  - reflexivity.
  - reflexivity.
  - reflexivity.
  - split; [by exists m|exact H2].
Defined.
End examples.

End Transactions.
