(* ===== verification/PoolSpec.v ===== *)
(** * What the worker pool promises: leases

    The pool of lib/workerpool.go against an abstract specification of it. The
    specification knows three things of a pool: which workers are free, which are leased and
    under which ticket, and which are still starting. A worker is taken under a new ticket,
    given back with that ticket or lost with its process; whatever else the pool does goes on
    in the background, and only a worker that was starting can become free by it. *)

From S2P Require Import Prelude Codes Netstring Config RingQueue WorkerClient AdaptiveQueue WorkerPool.
From stdpp Require Import base list gmap strings.
From Stdlib Require Import ZArith Lia.
Open Scope Z_scope.

Module PoolSpec.
Import Config WorkerClient WorkerPool.

(** ** The specification *)

Record lease := mkLease { free : gset wref; leased : gmap wref (list Z); coming : gset wref }.

(** What the callers of the pool see: a worker is handed out, a worker is given back and the
    pool takes it or not, the process of a worker is gone. *)
Inductive label : Type :=
  | Take (w : wref) (ticket : list Z)
  | Back (w : wref) (ticket : list Z) (taken : bool)
  | Gone (w : wref).

Inductive sstep : option label → lease → lease → Prop :=
  | s_background s s' : leased s' = leased s → free s' ⊆ free s ∪ coming s →
      (∀ w, w ∈ coming s' → (w ∉ free s') ∧ leased s' !! w = None) → sstep None s s'
  | s_take w tk s : w ∈ free s → (∀ v, leased s !! v ≠ Some tk) →
      sstep (Some (Take w tk)) s (mkLease (free s ∖ {[w]}) (<[w := tk]> (leased s)) (coming s))
  | s_back w tk s : leased s !! w = Some tk →
      sstep (Some (Back w tk true)) s (mkLease ({[w]} ∪ free s) (delete w (leased s)) (coming s))
  | s_refuse w tk s : sstep (Some (Back w tk false)) s s
  | s_gone w s : sstep (Some (Gone w)) s (mkLease (free s ∖ {[w]}) (delete w (leased s)) (coming s)).

(** The traces of the specification: background work is not seen. *)
Inductive sruns : lease → list label → lease → Prop :=
  | sr_done s : sruns s [] s
  | sr_background s s1 s2 tr : sstep None s s1 → sruns s1 tr s2 → sruns s tr s2
  | sr_seen l s s1 s2 tr : sstep (Some l) s s1 → sruns s1 tr s2 → sruns s (l :: tr) s2.

(** A worker is in one place at a time, and no two have the same ticket. *)
Record lease_ok (s : lease) : Prop := {
  lo_free w : w ∈ free s → leased s !! w = None;
  lo_coming w : w ∈ coming s → (w ∉ free s) ∧ leased s !! w = None;
  lo_ticket v w tk : leased s !! v = Some tk → leased s !! w = Some tk → v = w
}.

Lemma sstep_ok l s s' : sstep l s s' → lease_ok s → lease_ok s'.
Proof.
  intros [s0 s1 Hl Hf Hc|w tk s0 Hw Ht|w tk s0 Hw|w tk s0|w s0] [O1 O2 O3].
  - constructor; [|done|rewrite Hl; done]. intros w Hw. rewrite Hl. apply Hf, elem_of_union in Hw as [Hw|Hw]; [auto|by apply O2].
  - constructor; cbn.
    + intros v [Hv Hne]%elem_of_difference. rewrite lookup_insert_ne by set_solver. auto.
    + intros v Hv. destruct (O2 v Hv) as [Hv1 Hv2]. split; [set_solver|]. rewrite lookup_insert_ne; [done|]. intros ->. auto.
    + intros v1 v2 tk' [[<- <-]|[H1 H1']]%lookup_insert_Some [[<- E]|[H2 H2']]%lookup_insert_Some; try done.
      * by destruct (Ht v2).
      * subst tk'. by destruct (Ht v1).
      * by eapply O3.
  - assert (Hw' : leased s0 !! w ≠ None) by congruence. constructor; cbn.
    + intros v [->%elem_of_singleton|Hv]%elem_of_union; [apply lookup_delete_eq|]. rewrite lookup_delete_None. auto.
    + intros v Hv. destruct (O2 v Hv) as [Hv1 Hv2]. rewrite lookup_delete_None. split; [|auto]. set_solver.
    + intros v1 v2 tk' [_ H1]%lookup_delete_Some [_ H2]%lookup_delete_Some. by eapply O3.
  - done.
  - constructor; cbn.
    + intros v [Hv _]%elem_of_difference. rewrite lookup_delete_None. auto.
    + intros v Hv. destruct (O2 v Hv) as [Hv1 Hv2]. rewrite lookup_delete_None. split; [|auto]. set_solver.
    + intros v1 v2 tk' [_ H1]%lookup_delete_Some [_ H2]%lookup_delete_Some. by eapply O3.
Qed.

(** Between two leases of a worker it was given back under the first ticket, or lost. *)
Definition exclusive (tr : list label) : Prop := ∀ tr1 w tk tr2 tk' tr3,
  tr = tr1 ++ Take w tk :: tr2 ++ Take w tk' :: tr3 → Back w tk true ∈ tr2 ∨ Gone w ∈ tr2.

(** A worker that is leased is not handed out again before that. *)
Lemma leased_until s tr s' w tk tr2 tk' tr3 : sruns s tr s' → lease_ok s → leased s !! w = Some tk →
  tr = tr2 ++ Take w tk' :: tr3 → Back w tk true ∈ tr2 ∨ Gone w ∈ tr2.
Proof.
  intros H. revert tr2. induction H as [s|s s1 s2 tr Hs H IH|l s s1 s2 tr Hs H IH]; intros tr2 O Hw E.
  - by destruct tr2.
  - eapply IH; [by eapply sstep_ok|inversion Hs; subst; congruence|done].
  - destruct tr2 as [|l' tr2]; cbn [app] in E; injection E as -> ->.
    + inversion Hs; subst. assert (leased s !! w = None) by (by apply O). congruence.
    + assert (Hn : leased s1 !! w = Some tk ∨ l' = Back w tk true ∨ l' = Gone w).
      { inversion Hs; subst; cbn [leased]; auto.
        - left. rewrite lookup_insert_ne; [done|]. intros ->. assert (leased s !! w = None) by (by apply O). congruence.
        - destruct (decide (w0 = w)) as [->|Hne]; [right; left; congruence|]. left. by rewrite lookup_delete_ne.
        - destruct (decide (w0 = w)) as [->|Hne]; [auto|]. left. by rewrite lookup_delete_ne. }
      destruct Hn as [Hn|[-> | ->]]; [|left; by left|right; by left].
      destruct (IH tr2 (sstep_ok _ _ _ Hs O) Hn eq_refl) as [?|?]; [left|right]; by right.
Qed.

Lemma sruns_cons s l tr s' : sruns s (l :: tr) s' → lease_ok s → ∃ s0 s1, lease_ok s0 ∧ sstep (Some l) s0 s1 ∧ sruns s1 tr s'.
Proof.
  intros H. remember (l :: tr) as t eqn:E. induction H as [s|s s1 s2 t Hs H IH|l' s s1 s2 t Hs H IH]; intros O; [done| |].
  - by apply IH; [|eapply sstep_ok].
  - injection E as -> ->. eauto.
Qed.

Lemma sruns_exclusive s tr s' : sruns s tr s' → lease_ok s → exclusive tr.
Proof.
  intros H O tr1. revert s tr H O. induction tr1 as [|l tr1 IH]; intros s tr H O w tk tr2 tk' tr3 ->;
    destruct (sruns_cons _ _ _ _ H O) as (s0 & s1 & O0 & Hs & H1); pose proof (sstep_ok _ _ _ Hs O0) as O1; [|by eapply (IH s1)].
  eapply leased_until; [exact H1|done| |done]. inversion Hs; subst. cbn. apply lookup_insert_eq.
Qed.

(** ** The pool implements it *)

Section pool.
Context {Q : Type} `{!Queue wref Q} {qrep : Q → list wref → Prop} `{!QueueLaws wref Q qrep}.
Context (app : Config) (ops : OpsConfig) (wtype : HeraWorkerType) (shardID : Z).
Abbreviation inv := (inv (qrep := qrep) ∅).
Abbreviation step := (step app ops wtype shardID).

(** What is seen of a step of the pool. *)
Definition seen (o : op) (p : WorkerPool Q) (out : outcome) : option label :=
  match out, o with
  | Got w tk, _ => Some (Take w tk)
  | _, OpReturn _ (Some w) tk => Some (Back w tk (accepted w tk p))
  | _, OpExit _ w _ => Some (Gone w)
  | _, _ => None
  end.

(** A run of the pool with what is seen of it. *)
Fixpoint trace (os : list op) (p : WorkerPool Q) : result (WorkerPool Q * list label) :=
  match os with
  | [] => Ret (p, [])
  | o :: os => '(p', out) ← step o p; '(p'', tr) ← trace os p'; Ret (p'', option_list (seen o p out) ++ tr)
  end.

(** The specification's view of a pool whose free workers are [l]. *)
Definition abs (p : WorkerPool Q) (l : list wref) : lease := mkLease (list_to_set l) (checkoutTickets p) (starting p).

Lemma abs_ok p l : inv p l → lease_ok (abs p l).
Proof.
  intros I. constructor; cbn.
  - intros w Hw%elem_of_list_to_set. by apply (inv_free _ _ _ I).
  - intros w Hw. rewrite elem_of_list_to_set. by apply (inv_starting _ _ _ I).
  - apply (inv_distinct _ _ _ I).
Qed.

(** The rest of a step is background work. *)
Lemma background s p l : inv p l → leased s = checkoutTickets p → (∀ v, v ∈ l → v ∈ free s ∨ v ∈ coming s) → sstep None s (abs p l).
Proof.
  intros I Ht Hl. constructor; [done| |apply (lo_coming _ (abs_ok p l I))]. intros v Hv%elem_of_list_to_set. apply elem_of_union. auto.
Qed.

Lemma effect_quiet o p l p' l' out : effect o p l p' l' out → seen o p out = None →
  checkoutTickets p' = checkoutTickets p ∧ ∀ v, v ∈ l' → v ∈ l ∨ v ∈ starting p.
Proof.
  destruct out, o as [| | | | | |? [?|] ?| | | | | |]; cbn [effect seen]; try done; intros [Ht Hl] _; (split; [done|]);
    intros v Hv; specialize (Hl v Hv); naive_solver.
Qed.

Lemma step_refines o p l p' out : inv p l → Z.of_nat (size (waiting p)) + 1 < 2 ^ 31 → step o p = Ret (p', out) →
  ∃ l' s, inv p' l' ∧ (size (waiting p') <= S (size (waiting p)))%nat ∧
    match seen o p out with Some x => sstep (Some x) (abs p l) s | None => s = abs p l end ∧ sstep None s (abs p' l').
Proof.
  intros I Hb E. destruct (step_effect app ops wtype shardID ∅ o p l p' out I) as (l' & I' & Hs & He);
    [by destruct o as [| | | | | |? [w|] ?| | | | | |]|done|done|]. exists l'.
  assert (Hq : seen o p out = None → checkoutTickets p' = checkoutTickets p → (∀ v, v ∈ l' → v ∈ l ∨ v ∈ starting p) →
    ∃ s, inv p' l' ∧ (size (waiting p') <= S (size (waiting p)))%nat ∧
    match seen o p out with Some x => sstep (Some x) (abs p l) s | None => s = abs p l end ∧ sstep None s (abs p' l')).
  { intros -> Ht Hl. exists (abs p l). split_and!; try done. apply background; try done. intros v Hv. cbn. rewrite elem_of_list_to_set. auto. }
  destruct (match out with Got w tk => Some (w, tk) | _ => None end) as [[w tk]|] eqn:Eo.
  { destruct out as [|w' tk'| |]; try done. injection Eo as -> ->. destruct He as ((Hi & _ & Hn & Hf & Ht) & Hw & Hl).
    destruct Hi as (i & Hi & _). eexists. split_and!; [done|done| |].
    - apply s_take; [|done]. cbn. apply elem_of_list_to_set. by eapply list_elem_of_lookup_2.
    - apply background; [done|by rewrite Ht|]. intros v Hv. left. cbn. apply elem_of_difference. rewrite elem_of_list_to_set, elem_of_singleton.
      split; [auto|]. by intros ->. }
  destruct (seen o p out) as [x|] eqn:Ex; [|destruct (effect_quiet _ _ _ _ _ _ He Ex) as [Ht Hl]; by apply Hq].
  destruct o as [| | | | | |e [w|] tk|e w st| | | | |]; try (by destruct out).
  - assert (Hx : seen (OpReturn e (Some w) tk) p out = Some (Back w tk (accepted w tk p))) by (by destruct out). rewrite Hx in Ex. injection Ex as <-.
    assert (He' : if accepted w tk p then checkoutTickets p' = delete w (checkoutTickets p) ∧ (l' ≡ₚ w :: l ∨ l' = l) else p' = p ∧ l' = l) by (by destruct out).
    destruct (accepted w tk p) eqn:Ea.
    + apply andb_true_iff in Ea as [Ea%bool_decide_eq_true _]. destruct He' as [Ht Hl]. eexists. split_and!; [done|done|by apply s_back|].
      apply background; [done|by rewrite Ht|]. intros v Hv. left. cbn. rewrite elem_of_union, elem_of_singleton, elem_of_list_to_set.
      destruct Hl as [Hl| ->]; [rewrite Hl in Hv; apply elem_of_cons in Hv|]; auto.
    + destruct He' as [-> ->]. eexists. split_and!; [done|done|apply s_refuse|]. apply background; [done..|]. intros v Hv. left. by apply elem_of_list_to_set.
  - assert (Hx : seen (OpExit e w st) p out = Some (Gone w)) by (by destruct out). rewrite Hx in Ex. injection Ex as <-.
    assert (He' : checkoutTickets p' = delete w (checkoutTickets p) ∧ l' = filter (.≠ w) l) by (by destruct out). destruct He' as [Ht ->].
    eexists. split_and!; [done|done|apply s_gone|]. apply background; [done|by rewrite Ht|].
    intros v [Hv Hv']%list_elem_of_filter. left. cbn. rewrite elem_of_difference, elem_of_list_to_set, elem_of_singleton. done.
Qed.

Lemma trace_refines os p l p' tr : inv p l → Z.of_nat (size (waiting p)) + Z.of_nat (length os) < 2 ^ 31 → trace os p = Ret (p', tr) →
  ∃ l', inv p' l' ∧ sruns (abs p l) tr (abs p' l').
Proof.
  revert p l tr. induction os as [|o os IH]; intros p l tr I Hb; cbn [trace].
  { intros [= <- <-]%Ret_inj. exists l. split; [done|constructor]. }
  intros ([p1 out] & E & H)%bind_Ret. apply bind_Ret in H as ([p2 tr2] & H & [= <- <-]%Ret_inj). cbn [length] in Hb.
  destruct (step_refines o p l p1 out I) as (l1 & s & I1 & Hs & Hx & Hbg); [lia|done|].
  destruct (IH p1 l1 tr2 I1) as (l2 & I2 & Hr); [lia|done|]. exists l2. split; [done|].
  destruct (seen o p out) as [x|]; cbn [option_list Datatypes.app]; [|subst s; by eapply sr_background].
  eapply sr_seen; [done|]. by eapply sr_background.
Qed.

(** C2: The pool implements its specification. What the callers see of any interleaving of
    clients, returns, time-outs, worker starts and exits, resizes and recycling, from the
    start of the pool on, is a trace of the lease machine, in which the checked-out workers
    of the pool are the leased ones and its queue the free ones; so between two times that
    the same worker is handed out, it was given back under the ticket of the first, and the
    pool took it, or its process was gone. *)
Theorem pool_implements_leases e n started p0 os p tr :
  Init app ops e n started = Ret (p0, true) → Z.of_nat (length os) < 2 ^ 31 → trace os p0 = Ret (p, tr) →
  (∃ l, qrep (activeQ p) l ∧ sruns (abs p0 []) tr (abs p l)) ∧ lease_ok (abs p0 []) ∧ exclusive tr.
Proof.
  intros Hi Hb Ht. destruct (Init_ok app ops (qrep := qrep) e n started p0 true Hi) as [I Hw].
  destruct (trace_refines os p0 [] p tr I) as (l & I' & Hr); [by rewrite Hw|done|]. pose proof (abs_ok _ _ I) as O.
  split_and!; [|done|by eapply sruns_exclusive]. exists l. split; [apply (inv_queue _ _ _ I')|done].
Qed.

End pool.

(** ** On the ring buffer *)

(** A worker that starts is handed out, comes back with its ticket, not with another, and is
    handed out again. *)
Definition ex_ops : list op :=
  [OpAttach 0 ex_control; OpGet ex_env 1 77 5 None; OpReturn ex_env (Some 0%nat) (str "1"); OpReturn ex_env (Some 0%nat) (str "77");
   OpGet ex_env 2 78 5 None].

Definition ex_trace : result (WorkerPool RingQueue.ringQueue * list label) :=
  trace (Q := RingQueue.ringQueue (A := nat)) ex_app ex_cfg wtypeRW 0 ex_ops (ex_init 1).

Lemma pool_implements_leases_witness :
  (∃ p, ex_trace = Ret (p, [Take 0 (str "77"); Back 0 (str "1") false; Back 0 (str "77") true; Take 0 (str "78")])) ∧
  exclusive [Take 0 (str "77"); Back 0 (str "1") false; Back 0 (str "77") true; Take 0 (str "78")].
Proof.
  destruct ex_trace as [[p tr]| | | |] eqn:E; try (exfalso; revert E; vm_compute; discriminate).
  assert (Htr : tr = [Take 0 (str "77"); Back 0 (str "1") false; Back 0 (str "77") true; Take 0 (str "78")]).
  { cut (match ex_trace with Ret (_, t) => t | _ => [] end = tr); [|by rewrite E]. intros <-. vm_compute. reflexivity. }
  destruct (pool_implements_leases (Q := RingQueue.ringQueue (A := nat)) (qrep := RingQueue.rep) ex_app ex_cfg wtypeRW 0
    ex_env 1 [true] (ex_init 1) ex_ops p tr) as (_ & _ & H).
  - vm_compute. reflexivity.
  - cbn. lia.
  - exact E.
  - subst tr. split; [by exists p|exact H].
Defined.

End PoolSpec.
