(* ===== verification/Wakeups.v ===== *)
(** * Waiting for a worker: no wake-up is lost (lib/workerpool.go)

    A call of [GetWorker] that finds no worker sleeps on the condition variable of the pool;
    whoever puts a worker into the queue signals it once, and the call that is woken looks
    for a worker again. The calls that never time out are never forgotten: while a worker is
    free and a call waits, a wake-up is on its way. The code says in a comment that a call
    that times out takes the wake-up of another one with it. *)

From S2P Require Import Prelude Codes Netstring Config RingQueue WorkerClient AdaptiveQueue WorkerPool.
From stdpp Require Import base list gmap strings.
From Stdlib Require Import ZArith Lia.
Open Scope Z_scope.

Module Wakeups.
Import Config WorkerClient AdaptiveQueue WorkerPool.

Section pool.
Context {Q : Type} `{!Queue wref Q} {qrep : Q → list wref → Prop} `{!QueueLaws wref Q qrep}.
Context (app : Config) (ops : OpsConfig) (wtype : HeraWorkerType) (shardID : Z).
Abbreviation inv := (inv (qrep := qrep) ∅).
Abbreviation step := (step app ops wtype shardID).

(** ** Operations nobody waits for *)

(** The calls that wait are the same, and no worker falls behind its initialisation. *)
Record calmly (p p' : WorkerPool Q) : Prop := {
  ca_cond : cond p' = cond p;
  ca_woken : woken p' = woken p;
  ca_waiting : waiting p' = waiting p;
  ca_next : (next p <= next p')%nat;
  ca_ready w : (w < next p)%nat → ready (objs p) w = true → ready (objs p') w = true
}.

#[local] Instance calmly_refl : Reflexive calmly.
Proof. by constructor. Qed.

#[local] Instance calmly_trans : Transitive calmly.
Proof. intros p1 p2 p3 [] []. constructor; try congruence; [lia|]. intros w Hw Hr. apply ca_ready1; [lia|auto]. Qed.

Lemma calm_objs (p p' : WorkerPool Q) : objs p' = objs p → next p' = next p → cond p' = cond p → woken p' = woken p → waiting p' = waiting p →
  calmly p p'.
Proof. intros E1 E2 E3 E4 E5. constructor; try done; [by rewrite E2|by rewrite E1]. Qed.

Lemma calm_update f w (p : WorkerPool Q) : (∀ wk, Status (f wk) = Status wk) → calmly p (update f w p).
Proof.
  intros Hf. constructor; try done. intros v _. unfold ready, update. cbn. rewrite lookup_alter. case_decide; [subst v|done].
  destruct (objs p !! w); cbn; [by rewrite Hf|done].
Qed.

Lemma calm_setState st w (p : WorkerPool Q) : wsInit < st → calmly p (setState st w p).
Proof.
  intros Hst. unfold setState. destruct (objs p !! w) as [wk|] eqn:Ew; [|done]. destruct (_ =? _); [done|].
  constructor; try done. intros v _. unfold ready. cbn. rewrite lookup_alter. case_decide as Hd; [|done]. subst v. rewrite Ew. cbn.
  intros _. by apply Z.ltb_lt.
Qed.

Lemma calm_alloc wk (p : WorkerPool Q) : calmly p (alloc wk p).
Proof. constructor; cbn; try done; [lia|]. intros v Hv. unfold ready. by rewrite lookup_insert_ne by lia. Qed.

Lemma calm_spawnWorker e wid started (p : WorkerPool Q) : calmly p (spawnWorker ops e wid started p).1.
Proof. unfold spawnWorker. destruct started; [|done]. transitivity (alloc (set_status wsInit (NewWorker ops wid (now_s e) (rnd e (2 * next p)) (rnd e (2 * next p + 1)))) p); [apply calm_alloc|by apply calm_objs]. Qed.

Lemma calm_spawn_loop e n i started (p : WorkerPool Q) : calmly p (spawn_loop ops e n i started p).1.
Proof.
  revert i started p. induction n as [|n IH]; intros i started p; [done|]. cbn [spawn_loop].
  pose proof (calm_spawnWorker e i (default false (head started)) p) as Hc. destruct (spawnWorker _ _ _ _ _) as [p1 []]; [|done].
  transitivity p1; [done|apply IH].
Qed.

Lemma calm_RestartWorker e w started (p p' : WorkerPool Q) : RestartWorker ops e w started p = Ret p' → calmly p p'.
Proof.
  unfold RestartWorker. intros (wk & _ & H)%bind_Ret. revert H. destruct (_ <=? _).
  - intros ([q b] & _ & <-%Ret_inj)%bind_Ret. destruct (_ =? _); by apply calm_objs.
  - intros ([q b] & _ & H)%bind_Ret. revert H. set (p1 := set_activeQ q _).
    pose proof (calm_spawnWorker e (ID wk) started p1) as Hc. assert (H1 : calmly p p1) by (by apply calm_objs).
    destruct (spawnWorker _ _ _ _ _) as [p2 []]; cbn in Hc; intros <-%Ret_inj; [by transitivity p1|].
    transitivity p1; [done|]. transitivity p2; [done|by apply calm_objs].
Qed.

Lemma calm_Resize e size started (p p' : WorkerPool Q) : Resize ops e size started p = Ret p' → calmly p p'.
Proof.
  unfold Resize. destruct (_ =? _); [by intros <-%Ret_inj|]. destruct (_ <? _).
  - set (p1 := publish _ _). pose proof (calm_spawn_loop e (Z.to_nat (size - currentSize p1)) (currentSize p1) started p1) as Hc.
    assert (H1 : calmly p p1) by (by apply calm_objs).
    destruct (spawn_loop _ _ _ _ _ _) as [p2 []]; cbn in Hc; intros <-%Ret_inj; [|by transitivity p1].
    transitivity p1; [done|]. transitivity p2; [done|by apply calm_objs].
  - intros ([[q killed] n] & _ & <-%Ret_inj)%bind_Ret. by apply calm_objs.
Qed.

Lemma calm_rac_loop e inst tm delay n i (p p' : WorkerPool Q) : rac_loop app e inst tm delay n i p = Ret p' → calmly p p'.
Proof.
  revert i p. induction n as [|n IH]; intros i p; cbn [rac_loop]; [by intros <-%Ret_inj|].
  intros (p1 & E & H)%bind_Ret. transitivity p1; [|by eapply IH]. revert E. unfold rac_one. intros (slot & _ & E)%bind_Ret.
  destruct slot as [w|]; [|by apply Ret_inj in E as <-]. apply bind_Ret in E as (wk & _ & E). revert E.
  destruct (_ && _); intros <-%Ret_inj; [by apply calm_update|done].
Qed.

Lemma calm_lifespan_loop e due cutoff n i (p p' : WorkerPool Q) : lifespan_loop app e due cutoff n i p = Ret p' → calmly p p'.
Proof.
  revert i p. induction n as [|n IH]; intros i p; cbn [lifespan_loop]; [by intros <-%Ret_inj|].
  intros (p1 & E & H)%bind_Ret. transitivity p1; [|by eapply IH]. revert E. unfold lifespan_one. intros (slot & _ & E)%bind_Ret.
  destruct slot as [w|]; [|by apply Ret_inj in E as <-]. apply bind_Ret in E as (wk & _ & E). revert E. destruct (_ && _); [|by intros <-%Ret_inj].
  intros ([q removed] & _ & E)%bind_Ret. set (p2 := set_activeQ q p) in *. assert (H1 : calmly p p2) by (by apply calm_objs).
  assert (H2 : calmly p (terminate w (update (set_exitTime 0) w p2))).
  { transitivity p2; [done|]. transitivity (update (set_exitTime 0) w p2); [by apply calm_update|by apply calm_objs]. }
  revert E. destruct removed; [by intros <-%Ret_inj|]. destruct (_ && _); by intros <-%Ret_inj.
Qed.

Lemma calm_saturation swcnt nowms now order (p : WorkerPool Q) :
  let '(h, m, _) := saturation_recovery app ops wtype shardID (backlogCnt p) swcnt nowms now order (objs p) (aqmanager p) in
  calmly p (set_aqmanager m (set_objs h p)).
Proof.
  unfold saturation_recovery. destruct (shouldRecover _ _ _ _ _ _); [|by apply calm_objs].
  unfold getWorkerToRecover. destruct (oldest_loop _ _ _ _ _ _) as [t [w|]]; [|by apply calm_objs].
  constructor; try done. intros v _. unfold ready. cbn. rewrite !lookup_alter. case_decide; [subst v|done].
  destruct (objs p !! w) as [wk|]; cbn; [|done]. rewrite decide_True by done. cbn. by destruct (length (ctrlCh wk) <=? 4)%nat.
Qed.

(** ** The invariant *)

(** Every free worker is past its initialisation; the calls that wait are exactly those that
    sleep and those that have been woken; and when one sleeps, every free worker has a call
    that has been woken for it. *)
Record awake (p : WorkerPool Q) (l : list wref) : Prop := {
  aw_ready w : w ∈ l → ready (objs p) w = true;
  aw_nodup : NoDup (cond p ++ woken p);
  aw_waiting id : is_Some (waiting p !! id) ↔ id ∈ cond p ++ woken p;
  aw_pending : cond p = [] ∨ (length l <= length (woken p))%nat
}.

Lemma sub_length (l l' : list wref) : NoDup l' → (∀ v, v ∈ l' → v ∈ l) → (length l' <= length l)%nat.
Proof. intros Hn Hs. by apply submseteq_length, NoDup_submseteq. Qed.

Lemma inv_nodup p l : inv p l → NoDup l.
Proof. intros I. eapply qrep_NoDup, (inv_queue _ _ _ I). Qed.

Lemma awake_calm p l p' l' : inv p l → inv p' l' → calmly p p' → (∀ v, v ∈ l' → v ∈ l) → awake p l → awake p' l'.
Proof.
  intros I I' [] Hl []. pose proof (sub_length l l' (inv_nodup _ _ I') Hl). constructor; rewrite ?ca_cond0, ?ca_woken0, ?ca_waiting0; try done.
  - intros w Hw. apply ca_ready0; [|auto]. apply (inv_known _ _ _ I). auto.
  - destruct aw_pending0 as [?|?]; [by left|right; lia].
Qed.

(** A worker that is put into the queue comes with a signal, which wakes the call that sleeps
    longest. *)
Record signalled (p p' : WorkerPool Q) : Prop := {
  sg_cond : cond p' = tail (cond p);
  sg_woken : woken p' = woken p ++ option_list (head (cond p));
  sg_waiting : waiting p' = waiting p;
  sg_next : (next p <= next p')%nat;
  sg_ready w : (w < next p)%nat → ready (objs p) w = true → ready (objs p') w = true
}.

Lemma signalled_Signal p p1 : calmly p p1 → signalled p (Signal p1).
Proof.
  intros [Hc Hw Hwt Hn Hr]. unfold Signal. rewrite Hc. destruct (cond p) as [|id ids] eqn:Ec.
  - constructor; rewrite ?Hc, ?Ec, ?Hw; cbn [tail head option_list]; rewrite ?app_nil_r; done.
  - constructor; cbn [cond woken waiting next objs set_cond set_woken]; rewrite ?Hw, ?Ec; done.
Qed.

Lemma signalled_calm p p1 p2 : signalled p p1 → calmly p1 p2 → signalled p p2.
Proof. intros [] []. constructor; try congruence; [lia|]. intros w Hw Hr. apply ca_ready0; [lia|auto]. Qed.

Lemma awake_signalled w p l p' l' : inv p l → inv p' l' → signalled p p' → ready (objs p') w = true → (∀ v, v ∈ l' → v ∈ w :: l) →
  awake p l → awake p' l'.
Proof.
  intros I I' [] Hw Hl []. pose proof (sub_length (w :: l) l' (inv_nodup _ _ I') Hl) as Hlen. cbn in Hlen.
  assert (Hp : cond p' ++ woken p' ≡ₚ cond p ++ woken p).
  { rewrite sg_cond0, sg_woken0. destruct (cond p) as [|id ids]; cbn; [by rewrite app_nil_r|]. rewrite app_assoc. apply Permutation_app_comm. }
  constructor.
  - intros v [->|Hv]%Hl%elem_of_cons; [done|]. apply sg_ready0; [|auto]. apply (inv_known _ _ _ I). auto.
  - by rewrite Hp.
  - intros id. by rewrite sg_waiting0, aw_waiting0, Hp.
  - rewrite sg_cond0, sg_woken0, length_app. destruct (cond p) as [|id ids]; [by left|]. cbn. destruct aw_pending0 as [?|?]; [done|]. right. lia.
Qed.

(** ** Asking for a worker *)

Lemma dispatch_calm t w (p : WorkerPool Q) : calmly p (dispatch t w p).1 ∧ match (dispatch t w p).2 with Got _ _ | Failed _ => True | _ => False end.
Proof.
  unfold dispatch. destruct (alreadyDispatched _ _ _); [done|]. split; [|done]. cbn [fst].
  etransitivity; [|apply calm_update; intros wk; by destruct (outCh wk) as [[]|]]. by apply calm_objs.
Qed.

(** A call that goes to sleep, and one that fails. *)
Lemma enter_backlog_sleeps e id h tmo (p : WorkerPool Q) :
  match enter_backlog app e id h tmo p with
  | (p', Waits) => cond p' = cond p ++ [id] ∧ woken p' = woken p ∧ dom (waiting p') = {[id]} ∪ dom (waiting p)
  | (p', Failed _) => calmly p p'
  | _ => False
  end.
Proof.
  unfold enter_backlog. destruct (_ =? 0); [done|]. destruct (getBacklogTimeout _ _ _) as [tm lg]. destruct (default tm tmo =? 0); [done|].
  destruct (shouldSoftEvict _ _ _ _ _) as [m evict]. destruct evict; [by apply calm_objs|].
  destruct (_ =? 0); cbn; split_and!; try done; by rewrite dom_insert_L.
Qed.

Lemma awake_none p l : awake p l → Forall (λ v, ready (objs p) v = false) l → l = [].
Proof. intros A F. destruct l as [|w l]; [done|]. apply Forall_cons in F as [F _]. rewrite (aw_ready _ _ A w) in F; [done|by left]. Qed.

Lemma GetWorker_sleeps e id t h tmo (p p' : WorkerPool Q) out : GetWorker app e id t h tmo p = Ret (p', out) →
  match out with
  | Waits => cond p' = cond p ++ [id] ∧ woken p' = woken p ∧ dom (waiting p') = {[id]} ∪ dom (waiting p)
  | _ => calmly p p'
  end.
Proof.
  unfold GetWorker, getActiveWorker. intros ([p1 w] & ([q w'] & _ & [= <- <-]%Ret_inj)%bind_Ret & H)%bind_Ret.
  assert (Hq : calmly p (set_activeQ q p)) by (by apply calm_objs). revert H. destruct w' as [w|]; intros E%Ret_inj.
  - pose proof (dispatch_calm t w (set_activeQ q p)) as [Hc Ho]. rewrite E in Hc, Ho. cbn in Hc, Ho. destruct out; try done; by etransitivity.
  - pose proof (enter_backlog_sleeps e id h tmo (set_activeQ q p)) as He. rewrite E in He. destruct out; try done. by etransitivity.
Qed.

Lemma awake_sleep id p l p' l' : awake p l → waiting p !! id = None → l' = l → Forall (λ v, ready (objs p) v = false) l →
  cond p' = cond p ++ [id] → woken p' = woken p → dom (waiting p') = {[id]} ∪ dom (waiting p) → awake p' l'.
Proof.
  intros A Hid -> F Ec Ew Ed. pose proof (awake_none _ _ A F) as ->. destruct A.
  assert (Hn : id ∉ cond p ++ woken p) by (rewrite <- aw_waiting0, Hid; by intros [? ?]).
  assert (Hp : cond p' ++ woken p' ≡ₚ id :: cond p ++ woken p) by (rewrite Ec, Ew, <- app_assoc; apply Permutation_app_rot || by rewrite Permutation_middle).
  constructor.
  - by intros w ?%not_elem_of_nil.
  - rewrite Hp. by constructor.
  - intros v. rewrite Hp, elem_of_cons, <- aw_waiting0, <- !elem_of_dom, Ed, elem_of_union, elem_of_singleton. done.
  - right. cbn. lia.
Qed.

Lemma awake_get e id t h tmo p l p' out : inv p l → awake p l → waiting p !! id = None → Z.of_nat (size (waiting p)) + 1 < 2 ^ 31 →
  GetWorker app e id t h tmo p = Ret (p', out) → ∃ l', inv p' l' ∧ awake p' l'.
Proof.
  intros I A Hid Hb E. destruct (GetWorker_ok app ∅ e id t h tmo p l I Hid Hb) as (p1 & o1 & l1 & E1 & I1 & [Hl _] & _ & Ho).
  rewrite E1 in E. apply Ret_inj in E as [= <- <-]. pose proof (GetWorker_sleeps _ _ _ _ _ _ _ _ E1) as Hs.
  assert (Hc : calmly p p1 → ∃ l', inv p1 l' ∧ awake p1 l').
  { intros Hc. exists l1. split; [done|]. eapply (awake_calm p l); try done. intros v. by eapply left_over_sub. }
  destruct o1; [done|by apply Hc| |by apply Hc]. destruct Ho as (F & Hll & _), Hs as (Ec & Ew & Ed). exists l1. split; [done|]. by eapply awake_sleep.
Qed.

(** ** Waking up *)

Lemma filter_out (id : nat) ids : NoDup ids → id ∈ ids → S (length (filter (.≠ id) ids)) = length ids.
Proof.
  intros Hn Hid. assert (Hp : id :: filter (.≠ id) ids ≡ₚ ids); [|exact (Permutation_length Hp)].
  apply NoDup_Permutation; [constructor; [|by apply NoDup_filter]; rewrite list_elem_of_filter; naive_solver|done|].
  intros v. rewrite elem_of_cons, list_elem_of_filter. destruct (decide (v = id)); naive_solver.
Qed.

Lemma backlog_wakeup_sleeps e id t wt (p p' : WorkerPool Q) out : backlog_wakeup app e id t wt p = Ret (p', out) →
  match out with
  | Waits => cond p' = cond p ++ [id] ∧ woken p' = woken p ∧ dom (waiting p') = {[id]} ∪ dom (delete id (waiting p))
  | _ => calmly (set_waiting (delete id (waiting p)) p) p'
  end.
Proof.
  unfold backlog_wakeup, getActiveWorker. intros ([p1 w] & ([q w'] & _ & [= <- <-]%Ret_inj)%bind_Ret & H)%bind_Ret.
  set (p2 := publish _ _) in H. assert (Hq : calmly (set_waiting (delete id (waiting p)) p) p2).
  { subst p2. unfold decBacklogCnt, resetIfLastBacklogEntry. destruct w'; repeat case_match; by apply calm_objs. }
  assert (Hw : cond p2 = cond p ∧ woken p2 = woken p ∧ waiting p2 = delete id (waiting p)) by (destruct Hq as [H1 H2 H3 _ _]; by rewrite H1, H2, H3).
  clearbody p2. destruct Hw as (Hw1 & Hw2 & Hw3). revert H. destruct w' as [w|]; intros E%Ret_inj.
  - pose proof (dispatch_calm t w p2) as [Hc Ho]. rewrite E in Hc, Ho. cbn in Hc, Ho. destruct out; try done; by etransitivity.
  - pose proof (enter_backlog_sleeps e id (w_sqlhash wt) (w_timeout wt) p2) as He. rewrite E in He. rewrite Hw1, Hw2, Hw3 in He.
    destruct out; try done. by etransitivity.
Qed.

Lemma awake_wake e id t wt p l p' out : inv p l → awake p l → id ∈ woken p → waiting p !! id = Some wt → Z.of_nat (size (waiting p)) < 2 ^ 31 →
  backlog_wakeup app e id t wt (set_woken (filter (.≠ id) (woken p)) p) = Ret (p', out) → ∃ l', inv p' l' ∧ awake p' l'.
Proof.
  intros I A Hid Hwt Hb E. set (p0 := set_woken _ p) in *. assert (I0 : inv p0 l) by (by destruct I; constructor).
  destruct (wakeup_ok app ∅ e id t wt p0 l I0 Hwt Hb) as (p1 & o1 & l1 & E1 & I1 & [Hl _] & _ & Ho).
  rewrite E1 in E. apply Ret_inj in E as [= <- <-]. pose proof (backlog_wakeup_sleeps _ _ _ _ _ _ _ E1) as Hs. exists l1. split; [done|].
  pose proof (aw_nodup _ _ A) as Hnd. assert (Hd := Hnd). apply NoDup_app in Hd as (Hn1 & Hn2 & Hn3). pose proof (filter_out id (woken p) Hn3 Hid) as Hf.
  assert (Hcid : id ∉ cond p) by (intros Hc; by apply (Hn2 id Hc)).
  assert (Hnd0 : NoDup (cond p ++ filter (.≠ id) (woken p))).
  { apply NoDup_app. split_and!; [done| |by apply NoDup_filter]. intros x Hx [_ Hx']%list_elem_of_filter. by apply (Hn2 x Hx). }
  assert (Hmem : ∀ v, v ∈ cond p ++ filter (.≠ id) (woken p) ↔ v ≠ id ∧ is_Some (waiting p !! v)).
  { intros v. rewrite (aw_waiting _ _ A), !elem_of_app, list_elem_of_filter. split; [|naive_solver]. intros [Hv|[? ?]]; [|auto]. split; [|auto]. by intros ->. }
  assert (Hlen : (length l1 <= length l)%nat ∧ (l = [] ∨ (S (length l1) <= length l)%nat)).
  { destruct Hl as [[w Hp]|[-> F]]; [apply Permutation_length in Hp; cbn in Hp; split; [|right]; lia|].
    split; [done|left]. by eapply (awake_none p). }
  assert (Hr : ∀ v, v ∈ l1 → (v < next p)%nat ∧ ready (objs p) v = true).
  { intros v Hv. assert (v ∈ l) by (by eapply left_over_sub). split; [apply (inv_known _ _ _ I); auto|by apply (aw_ready _ _ A)]. }
  assert (Hpend : cond p = [] ∨ (length l1 <= length (filter (.≠ id) (woken p)))%nat).
  { destruct (aw_pending _ _ A) as [?|?]; [by left|]. right. destruct Hlen as [Hlen [->|Hlt]]; cbn in *; lia. }
  assert (Hcalm : calmly (set_waiting (delete id (waiting p0)) p0) p1 → awake p1 l1).
  { intros []. constructor; rewrite ?ca_cond0, ?ca_woken0, ?ca_waiting0; cbn [cond woken waiting set_waiting set_woken p0]; try done.
    - intros v [Hv1 Hv2]%Hr. by apply ca_ready0.
    - intros v. rewrite Hmem. rewrite <- elem_of_dom, dom_delete_L, elem_of_difference, elem_of_dom, elem_of_singleton. naive_solver. }
  destruct o1; [done|by apply Hcalm| |by apply Hcalm]. destruct Ho as (F & -> & _), Hs as (Ec & Ew & Ed).
  assert (l = []) as -> by (by eapply (awake_none p)). cbn in Ec, Ew.
  assert (Hp : cond p1 ++ woken p1 ≡ₚ id :: cond p ++ filter (.≠ id) (woken p)) by (rewrite Ec, Ew, <- app_assoc; symmetry; apply Permutation_middle).
  constructor; [by intros v ?%not_elem_of_nil| | |right; cbn; lia].
  - rewrite Hp. constructor; [|done]. rewrite Hmem. naive_solver.
  - intros v. rewrite Hp, elem_of_cons, Hmem, <- elem_of_dom, Ed, dom_delete_L, elem_of_union, elem_of_difference, elem_of_singleton, elem_of_dom. cbn [waiting p0 set_woken].
    destruct (decide (v = id)) as [->|]; naive_solver.
Qed.

(** ** Giving a worker to the queue *)

Lemma ready_accepted w (p : WorkerPool Q) : is_Some (objs p !! w) → ready (objs (setState wsAcpt w p)) w = true.
Proof.
  intros [wk Hw]. unfold setState, ready. rewrite Hw. destruct (Status wk =? wsAcpt) eqn:E.
  - rewrite Hw. by apply Z.eqb_eq in E as ->.
  - cbn. by rewrite lookup_alter_eq, Hw.
Qed.

Lemma ready_update f w v (p : WorkerPool Q) : (∀ wk, Status (f wk) = Status wk) → ready (objs (update f w p)) v = ready (objs p) v.
Proof.
  intros Hf. unfold ready, update. cbn. rewrite lookup_alter. case_decide; [subst v|done]. destruct (objs p !! w); cbn; [by rewrite Hf|done].
Qed.

Lemma ready_setState_ne st w v (p : WorkerPool Q) : v ≠ w → ready (objs (setState st w p)) v = ready (objs p) v.
Proof. intros Hv. unfold setState. repeat case_match; try done. unfold ready. cbn. by rewrite lookup_alter_ne by done. Qed.

Lemma adjust_max_Status r wk : Status (adjust_max ops r wk) = Status wk.
Proof. unfold adjust_max. by repeat case_match. Qed.

Lemma drain_Status wk : Status (match outCh wk with Some (_ :: _) => DrainResponseChannel wk | _ => wk end) = Status wk.
Proof. by destruct (outCh wk) as [[]|]. Qed.

(** A returned worker goes into the queue with a signal, or is terminated. *)
Lemma release_signals e w (p p' : WorkerPool Q) : is_Some (objs p !! w) → release app ops e w p = Ret p' →
  (calmly p p' ∧ activeQ p' = activeQ p) ∨ (signalled p p' ∧ ready (objs p') w = true).
Proof.
  intros Hw. unfold release. set (p0 := update _ w p). assert (H0 : calmly p p0) by (apply calm_update, drain_Status).
  set (p1 := setState wsAcpt w p0). assert (H1 : calmly p p1) by (transitivity p0; [done|by apply calm_setState]).
  assert (Hr : ready (objs p1) w = true) by (apply ready_accepted; unfold p0, update; cbn; by rewrite alter_is_Some).
  assert (Hq : activeQ p1 = activeQ p) by (unfold p1, setState; by repeat case_match). clearbody p1.
  intros (wk & _ & H)%bind_Ret. revert H. destruct (_ && _).
  { intros <-%Ret_inj. left. split; [|done]. transitivity p1; [done|by apply calm_objs]. }
  destruct (_ && _).
  { intros <-%Ret_inj. left. split; [|done]. transitivity p1; [done|]. transitivity (update (set_exitTime 0) w p1); [by apply calm_update|by apply calm_objs]. }
  set (p2 := update _ w p1). assert (H2 : calmly p p2) by (transitivity p1; [done|apply calm_update, adjust_max_Status]).
  destruct (_ && _).
  { intros <-%Ret_inj. left. split; [|done]. transitivity p2; [done|by apply calm_objs]. }
  unfold push_free. intros ([q b] & _ & <-%Ret_inj)%bind_Ret. right. split.
  - apply signalled_Signal. transitivity p2; [done|by apply calm_objs].
  - rewrite <- Hr. rewrite <- (ready_update (adjust_max ops (rnd e 1)) w w p1) by apply adjust_max_Status.
    unfold Signal. by destruct (cond _).
Qed.

Lemma same_queue w p l p' l' : inv p l → inv p' l' → activeQ p' = activeQ p → l' ≡ₚ w :: l ∨ l' = l → l' = l.
Proof.
  intros I I' Hq [Hp|?]; [|done]. pose proof (qrep_len _ _ (inv_queue _ _ _ I)) as L1. pose proof (qrep_len _ _ (inv_queue _ _ _ I')) as L2.
  rewrite Hq, L1, Hp in L2. cbn in L2. lia.
Qed.

Lemma awake_return e w ticket p l p' out : inv p l → awake p l → ReturnWorker app ops e w ticket p = Ret (p', out) → ∃ l', inv p' l' ∧ awake p' l'.
Proof.
  intros I A E. destruct w as [w|]; [|apply Ret_inj in E as [= <- <-]; eauto].
  assert (Hw : is_Some (objs p !! w)) by (cbn in E; apply bind_Ret in E as (wk & E & _); unfold deref in E; by destruct (objs p !! w)).
  destruct (ReturnWorker_ok app ops ∅ e w ticket p l I) as (p1 & o1 & l1 & E1 & I1 & _ & _ & H); [by apply (inv_alloc _ _ _ I)|done|].
  rewrite E1 in E. apply Ret_inj in E as [= <- <-]. destruct (_ && _); [|destruct H as (-> & -> & _); eauto]. destruct H as (_ & _ & Hl).
  exists l1. split; [done|]. cbn in E1. apply bind_Ret in E1 as (wk & _ & E1).
  assert (Hsame : p1 = p → awake p1 l1) by (intros ->; by rewrite (same_queue w p l p l1 I I1)).
  destruct (_ =? wsQuce) in E1; [apply Ret_inj in E1 as [= <- <-]; auto|]. destruct (_ || _) in E1; [apply Ret_inj in E1 as [= <- <-]; auto|].
  set (p2 := set_aqmanager _ _) in E1. assert (H2 : calmly p p2) by (by apply calm_objs).
  apply bind_Ret in E1 as (p3 & E1 & [= <- _]%Ret_inj). apply release_signals in E1 as [[Hc Hq]|[Hs Hr]]; [| |done].
  - eapply (awake_calm p l); try done; [by transitivity p2|]. by rewrite (same_queue w p l p3 l1 I I1).
  - eapply (awake_signalled w p l); try done; [by destruct Hs; constructor|]. destruct Hl as [Hl| ->]; [intros v; by rewrite Hl|by right].
Qed.

(** A worker that connects goes into the queue with a signal. *)
Lemma attach_signals w ns wk (p p' : WorkerPool Q) : objs p !! w = Some wk → attach w ns p = Ret p' →
  match control_message ns wk with
  | None => calmly p p'
  | Some _ => signalled p p' ∧ ready (objs p') w = true
  end.
Proof.
  intros Hw. unfold attach, deref at 1. rewrite Hw. cbn [mbind result_bind]. destruct (control_message ns wk) as [wk'|]; [|intros <-%Ret_inj; by apply calm_objs].
  set (p1 := setState wsAcpt w _). assert (Hr : ready (objs p1) w = true) by (apply ready_accepted; cbn; by rewrite lookup_alter_eq, Hw).
  assert (H1 : calmly p p1).
  { constructor; try (by unfold p1, setState; repeat case_match). intros v Hv Hrv. destruct (decide (v = w)) as [->|Hne]; [done|].
    rewrite <- Hrv. unfold p1. rewrite ready_setState_ne by done. unfold ready. cbn. by rewrite lookup_alter_ne by done. }
  clearbody p1. intros (p2 & E & <-%Ret_inj)%bind_Ret. unfold WorkerReady in E. apply bind_Ret in E as ([q b] & _ & E).
  apply bind_Ret in E as (wk2 & _ & E). apply bind_Ret in E as (ws & _ & <-%Ret_inj). split.
  - eapply signalled_calm; [apply (signalled_Signal p (set_workers ws (set_activeQ q p1))); transitivity p1; [done|by apply calm_objs]|].
    etransitivity; [by apply (calm_update (λ wk, set_channels (Some []) (ctrlCh wk) wk) w)|by apply calm_objs].
  - cbn [objs set_attached IncHealthyWorkers set_numHealthyWorkers]. rewrite ready_update by done. rewrite <- Hr. unfold Signal. by destruct (cond _).
Qed.

Lemma awake_attach w ns p l p' : inv p l → awake p l → w ∈ starting p → attach w ns p = Ret p' → ∃ l', inv p' l' ∧ awake p' l'.
Proof.
  intros I A Hs E. destruct (attach_ok ∅ w ns p l p' I Hs E) as (l' & I' & (wk & Hw & ->) & _). pose proof (attach_signals w ns wk p p' Hw E) as H.
  eexists. split; [done|]. destruct (control_message ns wk).
  - destruct H as [Hs' Hr]. eapply (awake_signalled w p l); try done. intros v [?| ->%list_elem_of_singleton]%elem_of_app; [by right|by left].
  - by eapply (awake_calm p l).
Qed.

(** ** All steps *)

(** The steps of calls without a time limit, and of workers that do not fall back to their
    initialisation. *)
Definition patient (o : op) : bool :=
  match o with
  | OpTimeout _ _ => false
  | OpSetState _ st => wsInit <? st
  | _ => true
  end.

(** The steps that neither wait nor give a worker to the queue. *)
Lemma step_calm o p p' out : patient o = true → step o p = Ret (p', out) →
  match o with OpAttach _ _ | OpGet _ _ _ _ _ | OpWake _ _ _ | OpReturn _ _ _ => True | _ => calmly p p' ∧ out = Nothing end.
Proof.
  intros Hp. destruct o; try done; cbn [WorkerPool.step]; unfold quiet.
  - case_bool_decide; intros [= <- <-]%Ret_inj; [|done]. split; [|done]. apply calm_update. intros wk. repeat case_match; done.
  - case_bool_decide; intros [= <- <-]%Ret_inj; [|done]. split; [by apply calm_objs|done].
  - intros (p1 & E & [= <- <-]%Ret_inj)%bind_Ret. split; [by eapply calm_RestartWorker|done].
  - intros (p1 & E & [= <- <-]%Ret_inj)%bind_Ret. split; [by eapply calm_Resize|done].
  - intros (p1 & E & [= <- <-]%Ret_inj)%bind_Ret. split; [by eapply calm_rac_loop|done].
  - intros ([p1 x] & E & [= <- <-]%Ret_inj)%bind_Ret. unfold checkWorkerLifespan in E. destruct (if skipcnt <? 90 then _ else _) as [sk ct].
    apply bind_Ret in E as (p2 & E & [= <- <-]%Ret_inj). split; [by eapply calm_lifespan_loop|done].
  - intros [= <- <-]%Ret_inj. split; [by apply calm_setState, Z.ltb_lt|done].
  - pose proof (calm_saturation swcnt (u32 (mux_ms e)) (now_ms e) order p) as Hc.
    destruct (saturation_recovery _ _ _ _ _ _ _ _ _ _ _) as [[h m] x]. by intros [= <- <-]%Ret_inj.
Qed.

Lemma awake_step o p l p' out : inv p l → awake p l → patient o = true → Z.of_nat (size (waiting p)) + 1 < 2 ^ 31 → step o p = Ret (p', out) →
  ∃ l', inv p' l' ∧ awake p' l'.
Proof.
  intros I A Hp Hb E. destruct (step_effect app ops wtype shardID ∅ o p l p' out I) as (l' & I' & _ & He); [by destruct o as [| | | | | |? [w|] ?| | | | | |]|done|done|].
  pose proof (step_calm o p p' out Hp E) as Hc.
  assert (Hsub : calmly p p' → (∀ v, v ∈ l' → v ∈ l) → ∃ l', inv p' l' ∧ awake p' l') by (intros ? ?; exists l'; split; [done|by eapply (awake_calm p l)]).
  destruct o; try done; try (apply proj1 in Hc as Hq; apply proj2 in Hc; subst out; apply Hsub; [done|by destruct He]); cbn [WorkerPool.step] in E.
  - case_bool_decide; [|apply Ret_inj in E as [= <- <-]; eauto]. apply bind_Ret in E as (p1 & E & [= <- <-]%Ret_inj). by apply (awake_attach w ns p l).
  - destruct (bool_decide (is_Some _)) eqn:Ew; [apply Ret_inj in E as [= <- <-]; eauto|]. apply bool_decide_eq_false, eq_None_not_Some in Ew.
    destruct (_ || _) in E; [apply Ret_inj in E as [= <- <-]; eauto|]. by apply (awake_get e id t sqlhash timeoutMs p l p' out).
  - case_bool_decide as Hid; [|apply Ret_inj in E as [= <- <-]; eauto]. cbn [waiting set_woken] in E.
    destruct (proj2 (aw_waiting _ _ A id)) as [wt Hwt]; [by apply elem_of_app; right|]. rewrite Hwt in E. by apply (awake_wake e id t wt p l p' out); try lia.
  - by apply (awake_return e w ticket p l p' out).
  - destruct Hc as [Hc ->]. apply Hsub; [done|]. destruct He as [_ ->]. by intros v [_ ?]%list_elem_of_filter.
Qed.

Lemma awake_run os p l p' : inv p l → awake p l → forallb patient os = true → Z.of_nat (size (waiting p)) + Z.of_nat (length os) < 2 ^ 31 →
  WorkerPool.run app ops wtype shardID os p = Ret p' → ∃ l', inv p' l' ∧ awake p' l'.
Proof.
  revert p l. induction os as [|o os IH]; intros p l I A Hp Hb; cbn [WorkerPool.run]; [intros <-%Ret_inj; eauto|].
  cbn in Hp. apply andb_true_iff in Hp as [Ho Hp]. cbn [length] in Hb. intros ([p1 out] & E & H)%bind_Ret.
  destruct (awake_step o p l p1 out I A Ho) as (l1 & I1 & A1); [lia|done|].
  destruct (step_ok app ops wtype shardID ∅ o p l p1 out I) as (_ & _ & Hs); [by destruct o as [| | | | | |? [w|] ?| | | | | |]|lia|done|].
  eapply IH; try done. lia.
Qed.

(** A call that has been woken while a worker is free gets one. *)
Lemma woken_served e id t p l : inv p l → awake p l → id ∈ woken p → l ≠ [] → (∀ v, checkoutTickets p !! v ≠ Some (itoa (u64 t))) →
  ∃ p' w, step (OpWake e id t) p = Ret (p', Got w (itoa (u64 t))) ∧ w ∈ l.
Proof.
  intros I A Hid Hl Hf. cbn [WorkerPool.step]. rewrite bool_decide_eq_true_2 by done. cbn [waiting set_woken].
  destruct (proj2 (aw_waiting _ _ A id)) as [wt ->]; [by apply elem_of_app; right|]. set (p0 := set_woken _ p).
  assert (I0 : inv p0 l) by (by destruct I; constructor). unfold backlog_wakeup.
  destruct (getActiveWorker_ok ∅ p0 l I0) as (q & l' & w & -> & _ & Hw). cbn [mbind result_bind]. destruct w as [w|]; [|destruct Hw as [_ F]; by apply (awake_none p) in F].
  destruct Hw as (_ & Hp & _). assert (Hin : w ∈ l) by (rewrite Hp; by left). set (p3 := publish _ _).
  assert (Ed : dispatchedWorkers (aqmanager p3) = checkoutTickets p).
  { rewrite <- (inv_tickets _ _ _ I). subst p3 p0. unfold decBacklogCnt, resetIfLastBacklogEntry. by repeat case_match. }
  unfold dispatch. assert (Ha : alreadyDispatched (itoa (u64 t)) w (aqmanager p3) = false); [|rewrite Ha; eauto].
  unfold alreadyDispatched. rewrite Ed, (inv_free _ _ _ I w Hin). cbn. apply not_true_is_false. intros ([v tk] & Hv & Heq%bool_decide_eq_true)%existsb_exists.
  apply (Hf v). rewrite Heq. apply elem_of_map_to_list. by apply list_elem_of_In.
Qed.

Lemma init_loop_quiet e k i started (p : WorkerPool Q) : let p' := (init_loop ops e k i started p).1 in cond p' = cond p ∧ woken p' = woken p.
Proof.
  revert i started p. induction k as [|k IH]; intros i started p; [done|]. cbn [init_loop].
  pose proof (calm_spawnWorker e i (default false (head started)) p) as [Hc Hk _ _ _]. destruct (spawnWorker _ _ _ _ _) as [p1 []]; [|done].
  cbn in Hc, Hk. destruct (IH (i + 1) (tail started) (set_currentSize (currentSize p1 + 1) p1)) as [H1 H2]. cbn in H1, H2. by rewrite <- Hc, <- Hk.
Qed.

Lemma Init_awake e n started (p : WorkerPool Q) : Init app ops e n started = Ret (p, true) → cond p = [] ∧ woken p = [].
Proof.
  unfold Init. destruct (_ <? _); [done|]. intros H%Ret_inj. pose proof (init_loop_quiet e (Z.to_nat n) 0 started (empty_pool app e n)) as [H1 H2].
  by rewrite H in H1, H2.
Qed.

(** C9: While no call times out, no wake-up is lost: whatever the interleaving of the other
    steps, the calls that wait are those asleep on the condition variable and those that have
    been woken, and as long as one of them waits beside a free worker, some call has been
    woken; that call, when it runs, gets a free worker under its fresh ticket. When a call
    sleeps, as many calls have been woken as there are free workers. *)
Theorem no_lost_wakeup e0 n started p0 os p : Init app ops e0 n started = Ret (p0, true) → Z.of_nat (length os) < 2 ^ 31 →
  forallb patient os = true → WorkerPool.run app ops wtype shardID os p0 = Ret p →
  ∃ l, qrep (activeQ p) l ∧ (∀ id, is_Some (waiting p !! id) ↔ id ∈ cond p ∨ id ∈ woken p) ∧
    (cond p ≠ [] → (length l <= length (woken p))%nat) ∧
    (waiting p ≠ ∅ → l ≠ [] → ∃ id, id ∈ woken p ∧
      ∀ e t, (∀ v, checkoutTickets p !! v ≠ Some (itoa (u64 t))) →
        ∃ p' w, step (OpWake e id t) p = Ret (p', Got w (itoa (u64 t))) ∧ w ∈ l).
Proof.
  intros Hi Hl Hp Hr. destruct (Init_ok app ops e0 n started p0 true Hi) as [I0 Hw]. destruct (Init_awake _ _ _ _ Hi) as [Hc0 Hk0].
  destruct (awake_run os p0 [] p I0) as (l & I & A); [|done|by rewrite Hw, map_size_empty|done|].
  { constructor; rewrite ?Hc0, ?Hk0; [by intros w ?%not_elem_of_nil|constructor| |by left]. intros id. rewrite Hw, lookup_empty. split; [by intros [? ?]|by intros ?%not_elem_of_nil]. }
  exists l. split_and!; [apply (inv_queue _ _ _ I)|intros id; by rewrite (aw_waiting _ _ A), elem_of_app|intros Hc; by destruct (aw_pending _ _ A)|].
  intros Hwt Hne. assert (Hk : ∃ id, id ∈ woken p); [|destruct Hk as [id Hid]; exists id; split; [done|]; intros e t; by apply woken_served].
  destruct (woken p) as [|id ids] eqn:Ek; [exfalso|exists id; by left]. destruct (map_choose _ Hwt) as (id & wt & Hid).
  pose proof (proj1 (aw_waiting _ _ A id) (mk_is_Some _ _ Hid)) as Hin. rewrite Ek, app_nil_r in Hin.
  destruct (aw_pending _ _ A) as [Hc|Hlen]; [rewrite Hc in Hin; by apply not_elem_of_nil in Hin|]. rewrite Ek in Hlen. by destruct l; cbn in Hlen; [|lia].
Qed.

End pool.

(** ** On the ring buffer *)

(** The only worker is checked out, a second call waits for it, and it is returned. *)
Definition patient_ops : list op :=
  [OpAttach 0 ex_control; OpGet ex_env 9 77 5 None; OpGet ex_env 10 78 5 (Some 100); OpReturn ex_env (Some 0%nat) (str "77")].

Lemma no_lost_wakeup_witness : ∃ p' w, step ex_app ex_cfg wtypeRW 0 (OpWake ex_env 10 78) (example_pool patient_ops) = Ret (p', Got w (itoa (u64 78))).
Proof.
  destruct (no_lost_wakeup ex_app ex_cfg wtypeRW 0 (qrep := RingQueue.rep) ex_env 2 [true; true] (ex_init 2) patient_ops (example_pool patient_ops))
    as (l & Hq & _ & _ & H).
  - vm_compute. reflexivity.
  - vm_compute. reflexivity.
  - vm_compute. reflexivity.
  - vm_compute. reflexivity.
  - destruct H as (id & Hid & H).
    + intros E. assert (N : size (waiting (example_pool patient_ops)) = 1%nat) by (vm_compute; reflexivity). rewrite E in N. discriminate N.
    + intros E. assert (N : q_len (activeQ (example_pool patient_ops)) = 1%nat) by (vm_compute; reflexivity). rewrite (qrep_len _ _ Hq), E in N. discriminate N.
    + assert (Ek : woken (example_pool patient_ops) = [10%nat]) by (vm_compute; reflexivity). rewrite Ek in Hid. apply list_elem_of_singleton in Hid as ->.
      destruct (H ex_env 78) as (p' & w & E & _); [|exists p', w; exact E].
      intros v Hv. assert (Et : checkoutTickets (example_pool patient_ops) = ∅) by (vm_compute; reflexivity). rewrite Et in Hv. discriminate Hv.
Defined.

(** A call that has timed out takes the signal of the returned worker with it: the other call
    that waits sleeps on beside a free worker. *)
Example timeout_takes_wakeup :
  let p := example_pool [OpAttach 0 ex_control; OpGet ex_env 9 77 5 None; OpGet ex_env 10 78 5 (Some 100); OpGet ex_env 11 79 5 (Some 100);
                         OpTimeout ex_env 10; OpReturn ex_env (Some 0%nat) (str "77"); OpWake ex_env 10 80] in
  q_len (activeQ p) = 1%nat ∧ cond p = [11%nat] ∧ woken p = [] ∧ bool_decide (is_Some (waiting p !! 11%nat)) = true.
Proof. vm_compute. done. Qed.
End Wakeups.
