(* ===== verification/JavaNetstring.v ===== *)
(** * The netstrings of the Java client (client/java/jdbc)

    The client writes its commands into a buffer, which [flush] sends as one netstring
    (client/NetstringWriter.java), and reads the answers with [NetstringReader] and
    [NetStringObj]. The file shows what the client reads of what it writes, and what the
    gateway's codec (utility/encoding/netstring) makes of it and of its answers. An exception
    of Java is an error; one that no signature names, as of an index out of range, is [Panic]. *)

From S2P Require Import Prelude GoIO Netstring.
From stdpp Require Import base list strings.
From Stdlib Require Import ZArith Lia.
Open Scope Z_scope.

Module JavaNetstring.
Import Netstring.

(** ** util/HeraJdbcConverter.java: numbers *)

Definition MIN_VALUE : Z := - 2 ^ 63.
Definition MIN_LONG_VALUE : bytes := str "-9223372036854775808".

(** The [do] loop, from the last place of the buffer on; a [long] has at most 19 digits. *)
Fixpoint digit_loop (fuel : nat) (x pos : Z) (out : bytes) : result (bytes * Z) :=
  match fuel with
  | O => Hang
  | S fuel =>
    out ← index_set out pos (u8 (Z.rem x 10 + 48));
    let pos := pos - 1 in
    let x := Z.quot x 10 in
    if x =? 0 then Ret (out, pos) else digit_loop fuel x pos out
  end.

(** The number at the end of [out], and the place where it starts. *)
Definition long2hera (x : Z) (out : bytes) : result (bytes * Z) :=
  if (x <? 0) && (x =? MIN_VALUE) then
    if zlen out <? zlen MIN_LONG_VALUE then Panic
    else Ret (overwrite out 0 MIN_LONG_VALUE, zlen MIN_LONG_VALUE)
  else
    let negative := x <? 0 in
    let x := if negative then i64 (x * -1) else x in
    '(out, pos) ← digit_loop 64 x (zlen out - 1) out;
    if (negative : bool) then
      out ← index_set out pos 45;
      Ret (out, pos - 1 + 1)
    else Ret (out, pos + 1).

Definition int2hera := long2hera.

(** ** client/NetstringWriter.java *)

Definition TMP_BUFF_LEN : Z := 20.

Record NetstringWriter := mkWriter {
  baos : bytes;
  out : bytes;
  tmp_buff : bytes;
  tmp_buff2 : bytes;
  cmd_count : Z
}.

Definition new_NetstringWriter : NetstringWriter := mkWriter [] [] (replicate 20 0) (replicate 20 0) 0.

(** [baos.write(buf, pos, TMP_BUFF_LEN - pos)] *)
Definition tmp_tail (buf : bytes) (pos : Z) : result bytes := slice buf pos TMP_BUFF_LEN.

Definition add_long (_cmd : bytes) (_data : Z) (w : NetstringWriter) : result NetstringWriter :=
  '(b2, pos2) ← long2hera _data (tmp_buff2 w);
  '(b1, pos) ← int2hera (i32 (zlen _cmd + (TMP_BUFF_LEN - pos2) + 1)) (tmp_buff w);
  len ← tmp_tail b1 pos;
  num ← tmp_tail b2 pos2;
  Ret (mkWriter (baos w ++ len ++ [colon] ++ _cmd ++ [space] ++ num ++ [comma]) (out w) b1 b2 (i32 (cmd_count w + 1))).

Definition add_data (_cmd _data : bytes) (w : NetstringWriter) : result NetstringWriter :=
  '(b1, pos) ← int2hera (i32 (i32 (zlen _cmd + zlen _data) + 1)) (tmp_buff w);
  len ← tmp_tail b1 pos;
  Ret (mkWriter (baos w ++ len ++ [colon] ++ _cmd ++ [space] ++ _data ++ [comma]) (out w) b1 (tmp_buff2 w) (i32 (cmd_count w + 1))).

Definition add_cmd (_cmd : bytes) (w : NetstringWriter) : result NetstringWriter :=
  '(b1, pos) ← int2hera (zlen _cmd) (tmp_buff w);
  len ← tmp_tail b1 pos;
  Ret (mkWriter (baos w ++ len ++ [colon] ++ _cmd ++ [comma]) (out w) b1 (tmp_buff2 w) (i32 (cmd_count w + 1))).

(** The count of the commands stays. *)
Definition reset (w : NetstringWriter) : NetstringWriter := mkWriter [] (out w) (tmp_buff w) (tmp_buff2 w) (cmd_count w).

(** [up]: the connection takes the bytes. *)
Definition flush (up : bool) (w : NetstringWriter) : result NetstringWriter :=
  if cmd_count w =? 1 then
    if negb up then Error (errors_New (str "IOException"))
    else Ret (mkWriter [] (out w ++ baos w) (tmp_buff w) (tmp_buff2 w) 0)
  else
    '(b1, pos) ← int2hera (i32 (1 + 1 + zlen (baos w))) (tmp_buff w);
    len ← tmp_tail b1 pos;
    if negb up then Error (errors_New (str "IOException"))
    else Ret (mkWriter [] (out w ++ len ++ [colon; 48; space] ++ baos w ++ [comma]) b1 (tmp_buff2 w) 0).

(** ** util/NetStringObj.java *)

Record NetStringObj := mkNetStringObj { command : Z; data : bytes }.

Section input.
Context {S : Type} `{!Reader S}.

(** [is.read()]: -1 at the end of the stream. *)
Definition read : io S Z := λ s,
  match Read 1 s with
  | (s, Ret d) => (s, Ret (hd 0 d))
  | (s, Error io_EOF) => (s, Ret (-1))
  | (s, Error e) => (s, Error e)
  | (s, Panic) => (s, Panic)
  | (s, Fatal) => (s, Fatal)
  | (s, Hang) => (s, Hang)
  end.

Definition not_numeric (b : Z) : go_error := errors_New (str "Invalid character in stream: expected numeric. ByteValue = " ++ itoa b).
Definition end_of_stream : go_error := errors_New (str "Unexpected end of stream").

Fixpoint length_loop (fuel : nat) (delimiter b nslength : Z) : io S Z :=
  if negb (b =? delimiter) && negb (b =? -1) then
    match fuel with
    | O => lift Hang
    | Datatypes.S fuel =>
      let digit := b - 48 in
      if (digit <? 0) || (10 <=? digit) then fail (not_numeric b)
      else
        b ← read;
        length_loop fuel delimiter b (i32 (i32 (nslength * 10) + digit))
    end
  else if b =? -1 then fail end_of_stream
  else mret nslength.

Definition getNSLength (delimiter : Z) : io S Z := λ s,
  (b ← read; length_loop (Datatypes.S (length (unread s))) delimiter b 0) s.

(** The number read and the bytes it took. *)
Fixpoint limited_loop (fuel : nat) (delimiter b bytesRemaining m_result m_bytesRead : Z) : io S (Z * Z) :=
  if negb (b =? delimiter) && (0 <=? bytesRemaining) then
    match fuel with
    | O => lift Hang
    | Datatypes.S fuel =>
      let digit := b - 48 in
      if (digit <? 0) || (10 <=? digit) then fail (not_numeric b)
      else
        let m_result := i64 (i64 (m_result * 10) + digit) in
        if bytesRemaining =? 0 then mret (m_result, m_bytesRead)
        else
          b ← read;
          if b <? 0 then
            if 0 <? bytesRemaining then fail end_of_stream else mret (m_result, m_bytesRead)
          else limited_loop fuel delimiter b (bytesRemaining - 1) m_result (m_bytesRead + 1)
    end
  else mret (m_result, m_bytesRead).

Definition readLimitedStream (bytesRemaining delimiter : Z) : io S (Z * Z) :=
  if bytesRemaining <=? 0 then mret (0, 0)
  else
    b ← read;
    if 0 <=? b then limited_loop (Z.to_nat bytesRemaining) delimiter b (bytesRemaining - 1) 0 1
    else limited_loop (Z.to_nat bytesRemaining) delimiter b bytesRemaining 0 0.

Definition getNSCommand (maxStreamLengthLength : Z) : io S (Z * Z) := readLimitedStream maxStreamLengthLength space.

Fixpoint bytes_loop (fuel : nat) (bytesRead : bytes) (bytesRemaining : Z) : io S bytes :=
  if zlen bytesRead <? bytesRemaining then
    match fuel with
    | O => lift Hang
    | Datatypes.S fuel => λ s,
      match Read (bytesRemaining - zlen bytesRead) s with
      | (s, Ret d) => bytes_loop fuel (bytesRead ++ d) bytesRemaining s
      | (s, Error io_EOF) => (s, Error end_of_stream)
      | (s, Error e) => (s, Error e)
      | (s, Panic) => (s, Panic)
      | (s, Fatal) => (s, Fatal)
      | (s, Hang) => (s, Hang)
      end
    end
  else mret bytesRead.

Definition readXBytes (bytesRemaining : Z) : io S bytes :=
  if bytesRemaining <=? 0 then mret [] else bytes_loop (Z.to_nat bytesRemaining) [] bytesRemaining.

Definition readFromInputStream : io S NetStringObj :=
  nsLength ← getNSLength colon;
  '(local_command, nsCommandBytesRead) ← getNSCommand nsLength;
  local_data ← readXBytes (nsLength - nsCommandBytesRead);
  c ← read;
  if negb (c =? comma) then fail (errors_New (str "Netstring object not properly terminated"))
  else mret (mkNetStringObj local_command local_data).
End input.

Definition writeToOutputStream (o : NetStringObj) : bytes :=
  let sCommand := itoa (command o) in
  let length := zlen sCommand + (if 0 <? zlen (data o) then 1 + zlen (data o) else 0) in
  itoa length ++ [colon] ++ sCommand ++ (if 0 <? zlen (data o) then space :: data o else []) ++ [comma].

(** The loop over the objects in the data, with the objects so far; every object takes a byte
    at least. *)
Fixpoint fill_loop (fuel : nat) (responses : list NetStringObj) (s : stream) : list NetStringObj * result unit :=
  if (0 <? length (unread s))%nat then
    match fuel with
    | O => (responses, Hang)
    | S fuel =>
      let '(s, r) := readFromInputStream s in
      match r with
      | Ret nso => fill_loop fuel (responses ++ [nso]) s
      | _ => (responses, _ ← r; Ret tt)
      end
    end
  else (responses, Ret tt).

Definition getDataAsNetStringObjects (o : NetStringObj) : result (list NetStringObj) :=
  let '(nsobjs, r) := fill_loop (length (data o)) [] (bytes_NewReader (data o)) in
  _ ← r; Ret nsobjs.

(** ** client/NetstringReader.java *)

(** The list of the reader after [parse], which is cleared first. *)
Definition parse {S} `{!Reader S} (s : S) : S * (list NetStringObj * result unit) :=
  let '(s, r) := readFromInputStream s in
  match r with
  | Ret obj =>
    if command obj =? 0 then (s, fill_loop (length (data obj)) [] (bytes_NewReader (data obj)))
    else (s, ([obj], Ret tt))
  | _ => (s, ([], _ ← r; Ret tt))
  end.

(** ** Numbers *)

Lemma digits_fuel f g n acc : 0 <= n < 10 ^ Z.of_nat f → 0 <= n < 10 ^ Z.of_nat g → (0 < f)%nat → (0 < g)%nat → digits f n acc = digits g n acc.
Proof.
  revert g n acc. induction f as [|f IH]; intros g n acc Hf Hg H0 H1; [lia|]. destruct g as [|g]; [lia|]. cbn [digits].
  destruct (Z.eqb_spec (n / 10) 0) as [E|E]; [done|]. rewrite !Nat2Z.inj_succ, !Z.pow_succ_r in * by lia.
  assert (0 < n / 10) by (pose proof (Z.div_pos n 10); lia).
  assert (n / 10 < 10 ^ Z.of_nat f ∧ n / 10 < 10 ^ Z.of_nat g) as [? ?] by (split; apply Z.div_lt_upper_bound; lia).
  apply IH; [lia|lia| |]; [destruct f|destruct g]; cbn in *; lia.
Qed.

Lemma digit_loop_ok fuel k x pos out : (0 < k <= fuel)%nat → 0 <= x < 10 ^ Z.of_nat k → Z.of_nat k <= pos + 1 → pos < zlen out →
  ∃ out' pos', digit_loop fuel x pos out = Ret (out', pos') ∧ length out' = length out ∧ pos - Z.of_nat k <= pos' < pos ∧
    drop (Z.to_nat (pos' + 1)) out' = digits fuel x (drop (Z.to_nat (pos + 1)) out).
Proof.
  revert k x pos out. induction fuel as [|fuel IH]; intros k x pos out Hk Hx Hp Ho; [lia|]. cbn [digit_loop digits].
  rewrite index_set_ok by lia. cbn [mbind result_bind]. rewrite Z.rem_mod_nonneg, Z.quot_div_nonneg by lia.
  pose proof (Z.mod_pos_bound x 10). rewrite u8_id by go_lia. set (out1 := <[_ := _]> out).
  assert (Hd : drop (Z.to_nat pos) out1 = 48 + x mod 10 :: drop (Z.to_nat (pos + 1)) out).
  { subst out1. rewrite (drop_S _ (x mod 10 + 48)) by (apply list_lookup_insert_eq; lia).
    rewrite drop_insert_lt by lia. f_equal; [lia|]. f_equal. lia. }
  assert (Hl : length out1 = length out) by apply length_insert. clearbody out1. destruct (Z.eqb_spec (x / 10) 0) as [E|E].
  - exists out1, (pos - 1). split_and!; [done|done|lia|lia|]. by replace (pos - 1 + 1) with pos by lia.
  - assert (0 < x / 10) by (pose proof (Z.div_pos x 10); lia). destruct k as [|k]; [lia|]. rewrite Nat2Z.inj_succ, Z.pow_succ_r in Hx by lia.
    assert (x / 10 < 10 ^ Z.of_nat k) by (apply Z.div_lt_upper_bound; lia). assert (0 < k)%nat by (destruct k; cbn in *; lia).
    destruct (IH k (x / 10) (pos - 1) out1) as (out' & pos' & -> & Hl' & Hp' & Hd'); [lia|lia|lia|lia|].
    exists out', pos'. split_and!; [done|congruence|lia|lia|]. rewrite Hd'. f_equal. rewrite <- Hd. do 2 f_equal. lia.
Qed.

Lemma long2hera_ok x out : - 2 ^ 63 < x < 2 ^ 63 → length out = 20%nat →
  ∃ out' pos, long2hera x out = Ret (out', pos) ∧ length out' = 20%nat ∧ 0 <= pos <= 20 ∧ drop (Z.to_nat pos) out' = itoa x.
Proof.
  intros Hx Hl. unfold long2hera, MIN_VALUE. rewrite (proj2 (Z.eqb_neq x _)), andb_false_r by lia.
  assert (Hi : ∀ n, 0 <= n < 2 ^ 63 → digits 64 n [] = digits (S (Z.to_nat (Z.log2 n))) n []).
  { intros n Hn. apply digits_fuel; [cbn; lia| |lia|lia]. split; [lia|]. rewrite Nat2Z.inj_succ, Z2Nat.id by apply Z.log2_nonneg.
    destruct (Z.eq_dec n 0) as [->|]; [done|]. apply Z.lt_le_trans with (2 ^ Z.succ (Z.log2 n)); [apply Z.log2_spec; lia|apply Z.pow_le_mono_l; lia]. }
  assert (Hd : ∀ n, 0 <= n < 2 ^ 63 → ∃ out' pos, digit_loop 64 n (zlen out - 1) out = Ret (out', pos) ∧ length out' = 20%nat ∧ 0 <= pos < 19 ∧
    drop (Z.to_nat (pos + 1)) out' = digits (S (Z.to_nat (Z.log2 n))) n []).
  { intros n Hn. destruct (digit_loop_ok 64 19 n (zlen out - 1) out) as (o & q & E & H1 & H2 & H3); [lia|cbn; lia|lia|lia|].
    exists o, q. rewrite <- Hi by done. rewrite (drop_ge out) in H3 by lia. split_and!; [done|lia|lia|lia|done]. }
  unfold itoa. destruct (Z.ltb_spec x 0).
  - replace (x * -1) with (- x) by lia. rewrite i64_id by go_lia. destruct (Hd (- x)) as (o & q & -> & H1 & H2 & H3); [lia|]. cbn [mbind result_bind].
    rewrite index_set_ok by lia. cbn [mbind result_bind]. eexists _, _. split; [done|]. rewrite length_insert. split_and!; [done|lia|lia|].
    replace (q - 1 + 1) with q by lia. rewrite (drop_S _ 45) by (apply list_lookup_insert_eq; lia). rewrite drop_insert_lt by lia. f_equal.
    rewrite <- H3. f_equal. lia.
  - destruct (Hd x) as (o & q & -> & H1 & H2 & H3); [lia|]. cbn [mbind result_bind]. eexists _, _. split_and!; [done|done|lia|lia|done].
Qed.

Lemma tmp_tail_ok buf pos : length buf = 20%nat → 0 <= pos <= 20 → tmp_tail buf pos = Ret (drop (Z.to_nat pos) buf).
Proof.
  intros Hl Hp. unfold tmp_tail, slice, TMP_BUFF_LEN. rewrite !(proj2 (Z.leb_le _ _)) by lia. cbn [andb]. f_equal.
  apply take_ge. rewrite length_drop. lia.
Qed.

(** ** The bytes that are written *)

(** The three kinds of command the client adds. *)
Inductive request :=
  | AddLong (_cmd : bytes) (_data : Z)
  | AddData (_cmd _data : bytes)
  | AddCmd (_cmd : bytes).

Definition add (r : request) (w : NetstringWriter) : result NetstringWriter :=
  match r with
  | AddLong c x => add_long c x w
  | AddData c d => add_data c d w
  | AddCmd c => add_cmd c w
  end.

Definition name_of (r : request) : bytes := match r with AddLong c _ | AddData c _ | AddCmd c => c end.
Definition payload_of (r : request) : bytes := match r with AddLong _ x => itoa x | AddData _ d => d | AddCmd _ => [] end.
Definition text_of (r : request) : bytes := match r with AddCmd c => c | _ => name_of r ++ space :: payload_of r end.

(** A netstring around a text. *)
Definition wrapped (body : bytes) : bytes := frame (itoa (zlen body)) body.

Lemma text_is_body r : is_body (name_of r) (payload_of r) (text_of r).
Proof. destruct r; cbn; [by right|by right|by left]. Qed.

(** The number of a long is not the smallest, and the text is below 2^31 bytes. *)
Definition fits (r : request) : Prop :=
  match r with AddLong _ x => - 2 ^ 63 < x < 2 ^ 63 | _ => True end ∧ zlen (text_of r) < 2 ^ 31 - 1.

Definition buffers (w : NetstringWriter) : Prop := length (tmp_buff w) = 20%nat ∧ length (tmp_buff2 w) = 20%nat.

Lemma add_ok r w : buffers w → fits r →
  ∃ w', add r w = Ret w' ∧ buffers w' ∧ baos w' = baos w ++ wrapped (text_of r) ∧ out w' = out w ∧ cmd_count w' = i32 (cmd_count w + 1).
Proof.
  intros [B1 B2] [Hf Hl]. unfold wrapped, frame. destruct r as [c x|c d|c]; cbn [add text_of name_of payload_of] in *.
  - destruct (long2hera_ok x (tmp_buff2 w)) as (b2 & p2 & E2 & L2 & P2 & D2); [done|done|]. unfold add_long. rewrite E2. cbn [mbind result_bind].
    assert (Hn : zlen (itoa x) = 20 - p2) by (rewrite <- D2, length_drop; lia). rewrite length_app, length_cons in Hl. unfold TMP_BUFF_LEN. rewrite (i32_id (zlen c + _ + 1)) by go_lia.
    destruct (long2hera_ok (zlen c + (20 - p2) + 1) (tmp_buff w)) as (b1 & p1 & E1 & L1 & P1 & D1); [lia|done|]. unfold int2hera. rewrite E1. cbn [mbind result_bind].
    rewrite (tmp_tail_ok b1), (tmp_tail_ok b2) by done. cbn [mbind result_bind]. rewrite D1, D2. eexists. split; [done|]. split; [by split|]. split; [|done].
    cbn [baos]. f_equal. f_equal; [f_equal; rewrite length_app, length_cons; lia|]. by simplify_list_eq.
  - rewrite length_app, length_cons in Hl. unfold add_data. rewrite (i32_id (zlen c + zlen d)), (i32_id (_ + zlen d + 1)) by go_lia.
    destruct (long2hera_ok (zlen c + zlen d + 1) (tmp_buff w)) as (b1 & p1 & E1 & L1 & P1 & D1); [lia|done|]. unfold int2hera. rewrite E1. cbn [mbind result_bind].
    rewrite (tmp_tail_ok b1) by done. cbn [mbind result_bind]. rewrite D1. eexists. split; [done|]. split; [by split|]. split; [|done].
    cbn [baos]. f_equal. f_equal; [f_equal; rewrite length_app, length_cons; lia|]. by simplify_list_eq.
  - unfold add_cmd. destruct (long2hera_ok (zlen c) (tmp_buff w)) as (b1 & p1 & E1 & L1 & P1 & D1); [lia|done|]. unfold int2hera. rewrite E1. cbn [mbind result_bind].
    rewrite (tmp_tail_ok b1) by done. cbn [mbind result_bind]. rewrite D1. eexists. split; [done|]. split; [by split|]. split; [|done].
    cbn [baos]. by simplify_list_eq.
Qed.

(** ** Reading a netstring *)

Section read_lemmas.
Context {S : Type} `{!Reader S, !ReaderLaws S}.
Implicit Types s : S.

Lemma read_ok b l s : unread s = b :: l → ∃ s', read s = (s', Ret b) ∧ unread s' = l ∧ final s' = final s.
Proof. intros Hu. destruct (Read_byte s b l Hu) as (s' & E & H). exists s'. split; [|done]. unfold read. by rewrite E. Qed.

Lemma length_loop_ok fuel d ds rest len s : Forall is_digit (d :: ds) → unread s = ds ++ colon :: rest → 0 <= len →
  digits_val len (d :: ds) < 2 ^ 31 → (length (d :: ds) < fuel)%nat →
  ∃ s', length_loop fuel colon d len s = (s', Ret (digits_val len (d :: ds))) ∧ unread s' = rest ∧ final s' = final s.
Proof.
  revert fuel d len s. induction ds as [|d' ds IH]; intros fuel d len s F Hu Hl Hv Hf; (destruct fuel as [|fuel]; [cbn in Hf; lia|]); cbn [length_loop];
    apply Forall_cons in F as [Hd F]; unfold is_digit in Hd; rewrite (proj2 (Z.eqb_neq d colon)), (proj2 (Z.eqb_neq d (-1))) by (unfold colon; lia); cbn [negb andb];
    rewrite (proj2 (Z.ltb_ge _ _)), (proj2 (Z.leb_gt 10 _)) by lia; cbn [orb]; rewrite digits_val_cons in Hv |- *;
    pose proof (digits_val_mono (len * 10 + (d - 48)) _ ltac:(lia) F); rewrite (i32_id (len * 10)), i32_id by go_lia.
  - destruct (read_ok colon rest s Hu) as (s' & E & Hu' & Hf'). exists s'. split; [|done]. rewrite (io_bind_Ret _ _ _ _ _ E). by destruct fuel.
  - destruct (read_ok d' (ds ++ colon :: rest) s Hu) as (s' & E & Hu' & Hf'). rewrite (io_bind_Ret _ _ _ _ _ E).
    destruct (IH fuel d' (len * 10 + (d - 48)) s') as (s2 & E2 & Hu2 & Hf2); [done|done|lia|done|cbn in *; lia|].
    exists s2. split_and!; [done|done|congruence].
Qed.

Lemma getNSLength_ok ds rest s : Forall is_digit ds → ds ≠ [] → digits_val 0 ds < 2 ^ 31 → unread s = ds ++ colon :: rest →
  ∃ s', getNSLength colon s = (s', Ret (digits_val 0 ds)) ∧ unread s' = rest ∧ final s' = final s.
Proof.
  intros F Hne Hv Hu. destruct ds as [|d ds]; [done|]. destruct (read_ok d (ds ++ colon :: rest) s Hu) as (s1 & E & Hu1 & Hf1).
  unfold getNSLength. rewrite (io_bind_Ret _ _ _ _ _ E).
  destruct (length_loop_ok (Datatypes.S (length (unread s))) d ds rest 0 s1) as (s2 & E2 & Hu2 & Hf2); [done|done|lia|done|rewrite Hu; cbn; rewrite length_app; lia|].
  exists s2. split_and!; [done|done|congruence].
Qed.

(** The loop stops at the space, or at the end of the text. *)
Lemma limited_loop_ok fuel d ds payload body rest res n s : Forall is_digit (d :: ds) → is_body ds payload body → unread s = body ++ rest → 0 <= res →
  digits_val res (d :: ds) < 2 ^ 63 → (length body < fuel)%nat →
  ∃ s', limited_loop fuel space d (zlen body) res n s = (s', Ret (digits_val res (d :: ds), n + zlen body - zlen payload)) ∧
    unread s' = payload ++ rest ∧ final s' = final s.
Proof.
  revert fuel d body res n s. induction ds as [|d' ds IH]; intros fuel d body res n s F Hb Hu Hr Hv Hf; (destruct fuel as [|fuel]; [lia|]); cbn [limited_loop];
    apply Forall_cons in F as [Hd F]; unfold is_digit in Hd; rewrite (proj2 (Z.eqb_neq d space)), (proj2 (Z.leb_le 0 (zlen body))) by (unfold space; lia); cbn [negb andb];
    rewrite (proj2 (Z.ltb_ge (d - 48) _)), (proj2 (Z.leb_gt 10 _)) by lia; cbn [orb]; rewrite digits_val_cons in Hv |- *;
    pose proof (digits_val_mono (res * 10 + (d - 48)) _ ltac:(lia) F); rewrite (i64_id (res * 10)), i64_id by go_lia.
  - destruct (is_body_nil _ _ Hb) as [[-> ->]| ->].
    + exists s. split_and!; [|done|done]. replace (n + zlen [] - zlen []) with n by (cbn; lia). done.
    + cbn [length]. rewrite (proj2 (Z.eqb_neq _ 0)) by lia. destruct (read_ok space (payload ++ rest) s Hu) as (s' & E & Hu' & Hf'). exists s'. split; [|done].
      rewrite (io_bind_Ret _ _ _ _ _ E). replace (n + Z.of_nat (Datatypes.S (length payload)) - zlen payload) with (n + 1) by lia. by destruct fuel.
  - destruct (is_body_cons _ _ _ _ Hb) as (body' & -> & Hb'). cbn [length] in *. rewrite (proj2 (Z.eqb_neq _ 0)) by lia.
    destruct (read_ok d' (body' ++ rest) s Hu) as (s' & E & Hu' & Hf'). rewrite (io_bind_Ret _ _ _ _ _ E).
    apply Forall_cons in F as [Hd' F']. rewrite (proj2 (Z.ltb_ge d' 0)) by (unfold is_digit in Hd'; lia).
    destruct (IH fuel d' body' (res * 10 + (d - 48)) (n + 1) s') as (s2 & E2 & Hu2 & Hf2); [by constructor|done|done|lia|done|lia|].
    exists s2. replace (Z.of_nat (Datatypes.S (length body')) - 1) with (zlen body') by lia. split_and!; [rewrite E2; do 3 f_equal; lia|done|congruence].
Qed.

Lemma getNSCommand_ok ds payload body rest s : Forall is_digit ds → ds ≠ [] → is_body ds payload body → digits_val 0 ds < 2 ^ 63 → unread s = body ++ rest →
  ∃ s', getNSCommand (zlen body) s = (s', Ret (digits_val 0 ds, zlen body - zlen payload)) ∧ unread s' = payload ++ rest ∧ final s' = final s.
Proof.
  intros F Hne Hb Hv Hu. destruct ds as [|d ds]; [done|]. destruct (is_body_cons _ _ _ _ Hb) as (body' & -> & Hb').
  unfold getNSCommand, readLimitedStream. cbn [length]. rewrite (proj2 (Z.leb_gt _ 0)) by lia. destruct (read_ok d (body' ++ rest) s Hu) as (s1 & E & Hu1 & Hf1).
  rewrite (io_bind_Ret _ _ _ _ _ E). rewrite (proj2 (Z.leb_le 0 d)) by (apply Forall_cons in F as [Hd _]; unfold is_digit in Hd; lia).
  replace (Z.of_nat (Datatypes.S (length body')) - 1) with (zlen body') by lia.
  destruct (limited_loop_ok (Z.to_nat (Z.of_nat (Datatypes.S (length body')))) d ds payload body' rest 0 1 s1) as (s2 & E2 & Hu2 & Hf2); [done|done|done|lia|done|lia|].
  exists s2. split_and!; [rewrite E2; do 3 f_equal; lia|done|congruence].
Qed.

Lemma bytes_loop_ok fuel got want rest s n : unread s = want ++ rest → n = zlen got + zlen want → (length want <= fuel)%nat →
  ∃ s', bytes_loop fuel got n s = (s', Ret (got ++ want)) ∧ unread s' = rest ∧ final s' = final s.
Proof.
  revert got want s. induction fuel as [|fuel IH]; intros got want s Hu -> Hf; (destruct want as [|b want]; [cbn [bytes_loop]; rewrite (proj2 (Z.ltb_ge _ _)) by (cbn; lia); exists s; by rewrite app_nil_r|]); cbn in Hf; [lia|].
  cbn [bytes_loop]. rewrite (proj2 (Z.ltb_lt _ _)) by (cbn; lia).
  destruct (Read_some (zlen got + zlen (b :: want) - zlen got) s) as (s1 & d & E & Hd & Hl & Hu1 & Hf1); [cbn; lia|by rewrite Hu|]. rewrite E.
  assert (Hsplit : ∃ want', b :: want = d ++ want' ∧ unread s1 = want' ++ rest).
  { exists (drop (length d) (b :: want)). rewrite Hu in Hu1. pose proof (f_equal (take (length d)) Hu1) as Ht. pose proof (f_equal (drop (length d)) Hu1) as Hr.
    rewrite take_app_length, take_app_le in Ht by (cbn in *; lia). rewrite drop_app_length, drop_app_le in Hr by (cbn in *; lia).
    split; [|done]. rewrite <- Ht at 1. by rewrite take_drop. }
  destruct Hsplit as (want' & Hw & Hu2).
  assert (length d + length want' = Datatypes.S (length want))%nat by (rewrite <- length_app, <- Hw; done). assert (0 < length d)%nat by (destruct d; [done|cbn; lia]).
  destruct (IH (got ++ d) want' s1) as (s2 & E2 & Hu3 & Hf3); [done|rewrite length_app; cbn [length]; lia|lia|].
  exists s2. rewrite <- app_assoc, <- Hw in E2. split_and!; [exact E2|done|congruence].
Qed.

Lemma readFromInputStream_ok ds payload body rest s : Forall is_digit ds → ds ≠ [] → is_body ds payload body → digits_val 0 ds < 2 ^ 63 →
  zlen body < 2 ^ 31 → unread s = wrapped body ++ rest →
  ∃ s', readFromInputStream s = (s', Ret (mkNetStringObj (digits_val 0 ds) payload)) ∧ unread s' = rest ∧ final s' = final s.
Proof.
  intros F Hne Hb Hv Hl Hu. destruct (itoa_spec (zlen body)) as (Fl & Nl & Vl); [lia|]. unfold wrapped, frame in Hu. unfold readFromInputStream.
  destruct (getNSLength_ok (itoa (zlen body)) (body ++ comma :: rest) s) as (s1 & E1 & Hu1 & Hf1); [done|done|lia|rewrite Hu; by simplify_list_eq|].
  rewrite (io_bind_Ret _ _ _ _ _ E1), Vl. destruct (getNSCommand_ok ds payload body (comma :: rest) s1) as (s2 & E2 & Hu2 & Hf2); [done|done|done|done|done|].
  rewrite (io_bind_Ret _ _ _ _ _ E2). replace (zlen body - (zlen body - zlen payload)) with (zlen payload) by lia.
  assert (Hx : ∃ s3, readXBytes (zlen payload) s2 = (s3, Ret payload) ∧ unread s3 = comma :: rest ∧ final s3 = final s2).
  { unfold readXBytes. destruct payload as [|b payload]; [exists s2; done|]. rewrite (proj2 (Z.leb_gt _ 0)) by (cbn; lia).
    apply (bytes_loop_ok _ [] (b :: payload)); [done|done|cbn; lia]. }
  destruct Hx as (s3 & E3 & Hu3 & Hf3). rewrite (io_bind_Ret _ _ _ _ _ E3). destruct (read_ok comma rest s3 Hu3) as (s4 & E4 & Hu4 & Hf4).
  rewrite (io_bind_Ret _ _ _ _ _ E4). exists s4. split_and!; [done|done|congruence].
Qed.
End read_lemmas.

(** ** A request from the writer to the readers *)

(** The name of a command is a number. *)
Definition named (r : request) : Prop := Forall is_digit (name_of r) ∧ name_of r ≠ [] ∧ 0 < digits_val 0 (name_of r) < 2 ^ 63.

Definition obj_of (r : request) : NetStringObj := mkNetStringObj (digits_val 0 (name_of r)) (payload_of r).
Definition written (rs : list request) : bytes := concat (map (λ r, wrapped (text_of r)) rs).

(** What [flush] sends for the commands that have been added. *)
Definition message (rs : list request) : bytes :=
  match rs with [_] => written rs | _ => wrapped (48 :: space :: written rs) end.

Fixpoint add_all (rs : list request) (w : NetstringWriter) : result NetstringWriter :=
  match rs with
  | [] => Ret w
  | r :: rs => w ← add r w; add_all rs w
  end.

Definition fresh (w : NetstringWriter) : Prop := buffers w ∧ baos w = [] ∧ cmd_count w = 0.

Lemma wrapped_cons body : ∃ b l, wrapped body = b :: l.
Proof. unfold wrapped, frame. destruct (itoa (zlen body)); by eexists _, _. Qed.

Lemma written_length rs : (length rs <= length (written rs))%nat.
Proof.
  induction rs as [|r rs IH]; [done|]. unfold written. cbn. rewrite length_app. destruct (wrapped_cons (text_of r)) as (b & l & ->). cbn. unfold written in IH. lia.
Qed.

Lemma add_all_ok rs w : buffers w → Forall fits rs → 0 <= cmd_count w → cmd_count w + zlen rs < 2 ^ 31 →
  ∃ w', add_all rs w = Ret w' ∧ buffers w' ∧ baos w' = baos w ++ written rs ∧ out w' = out w ∧ cmd_count w' = cmd_count w + zlen rs.
Proof.
  revert w. induction rs as [|r rs IH]; intros w B F H0 Hc; [exists w; split; [done|]; split; [done|]; split_and!; [by rewrite app_nil_r|done|cbn; lia]|].
  apply Forall_cons in F as [Fr F]. cbn [add_all length] in *. destruct (add_ok r w B Fr) as (w1 & -> & B1 & A1 & O1 & C1). cbn [mbind result_bind].
  rewrite i32_id in C1 by go_lia. destruct (IH w1) as (w2 & -> & B2 & A2 & O2 & C2); [done|done|lia|lia|].
  exists w2. split; [done|]. split; [done|]. split_and!; [|congruence|lia]. rewrite A2, A1. unfold written. cbn. by rewrite app_assoc.
Qed.

Lemma flush_ok rs w : buffers w → baos w = written rs → cmd_count w = zlen rs → zlen (written rs) + 2 < 2 ^ 31 →
  ∃ w', flush true w = Ret w' ∧ fresh w' ∧ out w' = out w ++ message rs.
Proof.
  intros [B1 B2] Hb Hc Hl. unfold flush. rewrite Hc, Hb. destruct (Z.eqb_spec (zlen rs) 1) as [E|E].
  - eexists. split; [done|]. split; [by repeat split|]. cbn. by destruct rs as [|r [|]]; cbn in *; try lia.
  - cbn [negb]. rewrite i32_id by go_lia. destruct (long2hera_ok (1 + 1 + zlen (written rs)) (tmp_buff w)) as (b1 & p1 & E1 & L1 & P1 & D1); [lia|done|].
    unfold int2hera. rewrite E1. cbn [mbind result_bind]. rewrite tmp_tail_ok by done. cbn [mbind result_bind]. rewrite D1.
    eexists. split; [done|]. split; [by repeat split|]. cbn [out]. f_equal.
    assert (Hm : message rs = wrapped (48 :: space :: written rs)) by (by destruct rs as [|r [|]]; cbn in E; [|lia|]). rewrite Hm. unfold wrapped, frame.
    cbn [length]. replace (Z.of_nat (Datatypes.S (Datatypes.S (length (written rs))))) with (1 + 1 + zlen (written rs)) by lia. by simplify_list_eq.
Qed.

Lemma fill_loop_ok fuel rs acc s : Forall named rs → Forall fits rs → unread s = written rs → (length rs <= fuel)%nat →
  fill_loop fuel acc s = (acc ++ map obj_of rs, Ret tt).
Proof.
  revert rs acc s. induction fuel as [|fuel IH]; intros rs acc s Hn Hf Hu Hl; (destruct rs as [|r rs]; [cbn [fill_loop]; rewrite Hu, app_nil_r; done|]); cbn in Hl; [lia|].
  apply Forall_cons in Hn as [(F & Hne & Hv) Hn]. apply Forall_cons in Hf as [Fr Hf]. cbn [fill_loop]. change (written (r :: rs)) with (wrapped (text_of r) ++ written rs) in Hu.
  rewrite (proj2 (Nat.ltb_lt 0 _)) by (rewrite Hu, length_app; destruct (wrapped_cons (text_of r)) as (b & l & ->); cbn; lia).
  destruct (readFromInputStream_ok (name_of r) (payload_of r) (text_of r) (written rs) s) as (s1 & E & Hu1 & _); [done|done|apply text_is_body|lia|destruct Fr; lia|done|].
  rewrite E. pose proof (IH rs (acc ++ [obj_of r]) s1 Hn Hf Hu1 ltac:(lia)) as E2. rewrite <- app_assoc in E2. exact E2.
Qed.

(** The netstring of a message: its command, and what it carries. *)
Lemma message_framed rs : Forall named rs → Forall fits rs → zlen (written rs) + 2 < 2 ^ 31 → rs ≠ [] →
  ∃ ds payload body, message rs = wrapped body ∧ is_body ds payload body ∧ Forall is_digit ds ∧ ds ≠ [] ∧ digits_val 0 ds < 2 ^ 63 ∧ zlen body < 2 ^ 31 ∧
    match rs with [r] => ds = name_of r ∧ payload = payload_of r | _ => ds = [48] ∧ payload = written rs end.
Proof.
  intros Hn Hf Hl Hne. destruct rs as [|r [|r2 rs]]; [done| |].
  - apply Forall_cons in Hn as [(F & N & V) _]. apply Forall_cons in Hf as [[_ Hr] _]. exists (name_of r), (payload_of r), (text_of r).
    split; [cbn; unfold written; cbn; by rewrite app_nil_r|]. split; [apply text_is_body|]. split_and!; [done|done|lia|lia|done|done].
  - exists [48], (written (r :: r2 :: rs)), (48 :: space :: written (r :: r2 :: rs)). split; [done|]. split; [by right|].
    split_and!; [apply Forall_cons; split; [unfold is_digit; lia|constructor]|done|by vm_compute|cbn [length]; lia|done|done].
Qed.

(** ** The readers end *)

Section termination.
Context {S : Type} `{!Reader S, !ReaderLaws S}.
Implicit Types s : S.

(** A byte is taken, or the stream is at its end. *)
Lemma read_cases s : (∃ b l s', unread s = b :: l ∧ read s = (s', Ret b) ∧ unread s' = l) ∨
  (∃ s', unread s = [] ∧ unread s' = [] ∧ (read s = (s', Ret (-1)) ∨ ∃ e, read s = (s', Error e))).
Proof.
  destruct (unread s) as [|b l] eqn:Eu.
  - right. destruct (Read_end 1 s) as (s' & E & Hu & _); [lia|done|]. exists s'. unfold read. rewrite E. split_and!; [done|done|]. destruct (final s); eauto.
  - left. destruct (read_ok b l s Eu) as (s' & E & Hu & _). by exists b, l, s'.
Qed.

(** [m] returns, and leaves no more than there was. *)
Definition returns {A} (m : io S A) s : Prop := (m s).2 ≠ Hang ∧ (length (unread (m s).1) <= length (unread s))%nat.

Lemma returns_bind {A B} (m : io S A) (f : A → io S B) s : returns m s → (∀ s' a, m s = (s', Ret a) → returns (f a) s') → returns (m ≫= f) s.
Proof.
  unfold returns, mbind, io_bind. intros [H1 H2] Hf. destruct (m s) as [s' [a| | | |]] eqn:E; try done. cbn in H2. destruct (Hf s' a eq_refl) as [H3 H4]. split; [done|lia].
Qed.

Lemma returns_read s : returns read s.
Proof. destruct (read_cases s) as [(b & l & s' & Hu & E & Hu')|(s' & Hu & Hu' & [E|[e E]])]; unfold returns; rewrite E; cbn; rewrite Hu, Hu'; split; done || (cbn; lia). Qed.

Lemma length_loop_returns fuel d b len s : (length (unread s) < fuel)%nat → returns (length_loop fuel d b len) s.
Proof.
  revert b len s. induction fuel as [|fuel IH]; intros b len s Hf; [lia|]. cbn [length_loop]. destruct (_ && _); [|by destruct (_ =? _)]. destruct (_ || _); [done|].
  apply returns_bind; [apply returns_read|]. intros s' b' E. destruct (read_cases s) as [(b2 & l & s2 & Hu & E2 & Hu2)|(s2 & Hu & Hu2 & [E2|[e E2]])]; rewrite E2 in E; simplify_eq.
  - apply IH. rewrite Hu in Hf. cbn in Hf. lia.
  - destruct fuel; cbn [length_loop]; rewrite andb_false_r; done.
Qed.

Lemma getNSLength_returns s : returns (getNSLength colon) s ∧ ∀ s' n, getNSLength colon s = (s', Ret n) → (length (unread s') < length (unread s))%nat.
Proof.
  unfold getNSLength. destruct (read_cases s) as [(b & l & s1 & Hu & E & Hu1)|(s1 & Hu & Hu1 & [E|[e E]])].
  - pose proof (length_loop_returns (Datatypes.S (length (unread s))) colon b 0 s1) as [H1 H2]; [rewrite Hu, Hu1; cbn; lia|].
    unfold returns. rewrite (io_bind_Ret _ _ _ _ _ E). split; [split; [done|rewrite Hu1 in H2; rewrite Hu at 2; cbn [length]; lia]|].
    intros s' n E'. rewrite E' in H2. cbn [fst] in H2. rewrite Hu1 in H2. rewrite Hu. cbn [length]. lia.
  - unfold returns. rewrite (io_bind_Ret _ _ _ _ _ E). cbn. rewrite Hu1. split; [split; [done|cbn; lia]|done].
  - unfold returns. rewrite (io_bind_Error _ _ _ _ _ E). cbn. rewrite Hu1. split; [split; [done|cbn; lia]|done].
Qed.

Lemma limited_loop_returns fuel d b rem res n s : rem < Z.of_nat fuel → returns (limited_loop fuel d b rem res n) s.
Proof.
  revert b rem res n s. induction fuel as [|fuel IH]; intros b rem res n s Hf; cbn [limited_loop]; (destruct (_ && _) eqn:Ec; [|done]).
  { apply andb_true_iff in Ec as [_ Ec%Z.leb_le]. lia. }
  destruct (_ || _); [done|]. destruct (_ =? 0); [done|]. apply returns_bind; [apply returns_read|]. intros s' b' _. destruct (b' <? 0); [by destruct (0 <? rem)|]. apply IH. lia.
Qed.

Lemma getNSCommand_returns len s : returns (getNSCommand len) s.
Proof.
  unfold getNSCommand, readLimitedStream. destruct (Z.leb_spec len 0); [done|]. apply returns_bind; [apply returns_read|]. intros s' b _. destruct (Z.leb_spec 0 b).
  - apply limited_loop_returns. lia.
  - destruct (Z.to_nat len) as [|f] eqn:Ef; [lia|]. cbn [limited_loop]. rewrite (proj2 (Z.ltb_lt (b - 48) 0)) by lia. cbn [orb]. by destruct (_ && _).
Qed.

(** The bytes come from the stream. *)
Lemma bytes_loop_returns fuel got n s : n - zlen got <= Z.of_nat fuel →
  returns (bytes_loop fuel got n) s ∧ ∀ s' l, bytes_loop fuel got n s = (s', Ret l) → (length l + length (unread s') = length got + length (unread s))%nat.
Proof.
  revert got s. induction fuel as [|fuel IH]; intros got s Hf; cbn [bytes_loop]; destruct (Z.ltb_spec (zlen got) n); [lia|by split; [split|intros s' l [= <- <-]]| |by split; [split|intros s' l [= <- <-]]].
  unfold returns. destruct (unread s) as [|b u] eqn:Eu.
  - destruct (Read_end (n - zlen got) s) as (s1 & E & Hu1 & _); [lia|done|]. rewrite E. destruct (final s); cbn; rewrite ?Hu1; (split; [split; [done|cbn; lia]|done]).
  - destruct (Read_some (n - zlen got) s) as (s1 & d & E & Hd & Hl & Hu1 & _); [lia|by rewrite Eu|]. rewrite E. rewrite Eu in Hu1.
    pose proof (f_equal length Hu1) as Hlen. rewrite length_app in Hlen. assert (0 < length d)%nat by (destruct d; [done|cbn; lia]).
    destruct (IH (got ++ d) s1) as [[H1 H2] H3]; [rewrite length_app; lia|]. split; [split; [done|lia]|]. intros s' l E'. apply H3 in E'. rewrite length_app in E'. lia.
Qed.

Lemma readXBytes_returns n s : returns (readXBytes n) s ∧ ∀ s' l, readXBytes n s = (s', Ret l) → (length l + length (unread s') = length (unread s))%nat.
Proof.
  unfold readXBytes. destruct (Z.leb_spec n 0); [split; [done|by intros s' l [= <- <-]]|]. destruct (bytes_loop_returns (Z.to_nat n) [] n s) as [H1 H2]; [cbn; lia|]. by split.
Qed.

Lemma readFromInputStream_returns s : returns readFromInputStream s ∧
  ∀ s' o, readFromInputStream s = (s', Ret o) → (length (data o) + length (unread s') < length (unread s))%nat.
Proof.
  unfold readFromInputStream. destruct (getNSLength_returns s) as [R1 D1]. split.
  - apply returns_bind; [done|]. intros s1 n _. apply returns_bind; [apply getNSCommand_returns|]. intros s2 [c k] _. apply returns_bind; [apply readXBytes_returns|].
    intros s3 l _. apply returns_bind; [apply returns_read|]. intros s4 c4 _. by destruct (negb _).
  - intros s' o (s1 & n & E1 & H)%io_bind_inv. apply D1 in E1. apply io_bind_inv in H as (s2 & [c k] & E2 & H). apply io_bind_inv in H as (s3 & l & E3 & H).
    apply io_bind_inv in H as (s4 & c4 & E4 & H). destruct (negb _); [done|]. injection H as <- <-. cbn [data].
    pose proof (getNSCommand_returns n s1) as [_ R2]. rewrite E2 in R2. cbn in R2. destruct (readXBytes_returns (n - k) s2) as [_ R3]. apply R3 in E3.
    pose proof (returns_read s3) as [_ R4]. rewrite E4 in R4. cbn in R4. lia.
Qed.
End termination.

Lemma fill_loop_returns fuel acc s : (length (unread s) <= fuel)%nat →
  (fill_loop fuel acc s).2 ≠ Hang ∧ (length (fill_loop fuel acc s).1 <= length acc + length (unread s))%nat.
Proof.
  revert acc s. induction fuel as [|fuel IH]; intros acc s Hf; cbn [fill_loop]; (destruct (Nat.ltb_spec 0 (length (unread s))); [|cbn; split; [done|lia]]); [lia|].
  destruct (readFromInputStream_returns s) as [[H1 H2] H3]. destruct (readFromInputStream s) as [s1 r] eqn:E. cbn in H1, H2. destruct r as [o| | | |]; try (by cbn; split; [done|lia]).
  specialize (H3 s1 o eq_refl). destruct (IH (acc ++ [o]) s1) as [I1 I2]; [lia|]. rewrite length_app in I2. cbn [length] in I2. split; [done|lia].
Qed.

(** The objects of a parse come from the bytes it takes. *)
Lemma parse_returns {S : Type} `{!Reader S, !ReaderLaws S} (s s' : S) l r : parse s = (s', (l, r)) →
  r ≠ Hang ∧ (length l + length (unread s') <= length (unread s))%nat.
Proof.
  unfold parse. destruct (readFromInputStream_returns s) as [[H1 H2] H3]. destruct (readFromInputStream s) as [s1 r1] eqn:E. cbn in H1, H2.
  destruct r1 as [o| | | |]; try (intros [= <- <- <-]; cbn; split; [done|lia]). specialize (H3 s1 o eq_refl). destruct (_ =? 0); [|intros [= <- <- <-]; cbn; split; [done|lia]].
  destruct (fill_loop_returns (length (data o)) [] (bytes_NewReader (data o))) as [F1 F2]; [cbn; by rewrite app_nil_r|]. cbn [unread stream_Reader] in F2.
  destruct (fill_loop _ _ _) as [l2 r2]. intros [= <- <- <-]. cbn in F1, F2. rewrite app_nil_r in F2. split; [done|lia].
Qed.

(** C32: What the Java client sends is read back: the commands that are added to its writer
    and flushed leave as one message, and the writer is empty again; the reader of the client
    reads the message as these commands, and the gateway's reader of a client without the
    type byte reads it as the command, or as a composite netstring that carries the texts of
    all of them, however the bytes are split into reads and whatever follows. *)
Theorem java_requests_read {S : Type} `{!Reader S, !ReaderLaws S} (s : S) rs w rest :
  fresh w → rs ≠ [] → Forall named rs → Forall fits rs → zlen (written rs) + 2 < 2 ^ 31 → unread s = message rs ++ rest →
  (∃ w1 w2, add_all rs w = Ret w1 ∧ flush true w1 = Ret w2 ∧ out w2 = out w ++ message rs ∧ fresh w2) ∧
  (∃ s', parse s = (s', (map obj_of rs, Ret tt)) ∧ unread s' = rest) ∧
  (∃ s' p, NewInitNetstring s = (s', Ret p) ∧
    match rs with
    | [r] => Cmd p = digits_val 0 (name_of r) ∧ Payload p = payload_of r
    | _ => IsComposite p = true ∧ Payload p = written rs
    end).
Proof.
  intros (B & Hb & Hc) Hne Hn Hf Hl Hu. pose proof (written_length rs) as Hlen.
  destruct (message_framed rs Hn Hf Hl Hne) as (ds & payload & body & Hm & Hbody & F & Nd & Vd & Lb & Hcase). split; [|split].
  - destruct (add_all_ok rs w B Hf) as (w1 & E1 & B1 & A1 & O1 & C1); [lia|lia|]. rewrite Hb in A1. rewrite Hc in C1.
    destruct (flush_ok rs w1 B1 A1) as (w2 & E2 & F2 & O2); [lia|done|]. exists w1, w2. rewrite O2, O1. done.
  - rewrite Hm in Hu. destruct (readFromInputStream_ok ds payload body rest s F Nd Hbody Vd Lb Hu) as (s1 & E & Hu1 & _).
    unfold parse. exists s1. rewrite E. cbn [command]. split; [|done]. destruct rs as [|r [|r2 rs]]; [done| |].
    + destruct Hcase as [-> ->]. apply Forall_cons in Hn as [(_ & _ & Hv) _]. by rewrite (proj2 (Z.eqb_neq _ 0)) by lia.
    + destruct Hcase as [-> ->]. cbn [digits_val fold_left Z.eqb data].
      rewrite (fill_loop_ok (length (written (r :: r2 :: rs))) (r :: r2 :: rs) []); [done|done|done|apply app_nil_r|done].
  - rewrite Hm in Hu. destruct (itoa_spec (zlen body)) as (Fl & Nl & Vl); [lia|].
    destruct (parse_body_ok (itoa (zlen body)) ds payload body rest s Hbody Fl F Vl Vd) as (s1 & last & E & _); [|done|].
    + unfold frame. rewrite length_app, length_cons, length_app. pose proof (length_itoa (zlen body)). cbn. lia.
    + unfold NewInitNetstring. eexists _, _. split; [exact E|]. destruct rs as [|r [|r2 rs]]; [done| |]; by destruct Hcase as [-> ->].
Qed.

Definition ex_requests : list request := [AddData (str "25") (str "select 1"); AddCmd (str "4"); AddLong (str "7") (-20)].

Lemma ex_requests_named : Forall named ex_requests ∧ Forall fits ex_requests.
Proof.
  split; repeat (apply Forall_cons; split); try apply Forall_nil_2;
    repeat split; try (vm_compute; congruence); try (vm_compute; reflexivity); repeat (apply Forall_cons; split); try apply Forall_nil_2; unfold is_digit; cbn; lia.
Defined.

Lemma java_requests_read_witness : ∃ s', parse (mkStream [message ex_requests] io_EOF) = (s', (map obj_of ex_requests, Ret tt)) ∧ unread s' = [].
Proof.
  destruct ex_requests_named as [Hn Hf].
  destruct (java_requests_read (mkStream [message ex_requests] io_EOF) ex_requests new_NetstringWriter []) as (_ & H & _).
  - repeat split.
  - discriminate.
  - exact Hn.
  - exact Hf.
  - vm_compute. reflexivity.
  - vm_compute. reflexivity.
  - exact H.
Defined.

(** ** What does not pass *)

(** The gateway asks for the type byte before every netstring inside a composite one: it
    finds a digit there, and refuses every composite request of the Java client. *)
Theorem java_composite_refused rs p : Payload p = written rs → rs ≠ [] → SubNetstrings p = Error UNKNOWNPACKET.
Proof.
  intros Hp Hne. unfold SubNetstrings. rewrite Hp. destruct rs as [|r rs]; [done|]. unfold written. cbn [map concat]. unfold wrapped, frame.
  destruct (itoa_spec (zlen (text_of r))) as (F & N & _); [lia|]. destruct (itoa (zlen (text_of r))) as [|d ds]; [done|]. apply Forall_cons in F as [Hd _]. unfold is_digit in Hd.
  set (l := concat _). cbn [app sub_loop]. unfold NewNetstring. set (all := d :: _).
  destruct (bufio.ReadByte_some (bufio.NewReader (bytes_NewReader all)) d (tail all)) as (b & -> & _); [cbn; by rewrite app_nil_r|].
  by rewrite (proj2 (Z.eqb_neq d 1)), (proj2 (Z.eqb_neq d 0)) by lia.
Qed.



(** The smallest number is put at the start of the buffer while the place returned is its
    end: a command is sent with no number. *)
Theorem smallest_number_dropped : ∃ w, add_long (str "7") MIN_VALUE new_NetstringWriter = Ret w ∧ baos w = str "2:7 ,".
Proof. eexists. split; vm_compute; reflexivity. Qed.

(** [reset] forgets the commands and keeps their count: after one command and a reset,
    [flush] sends nothing. *)
Theorem reset_keeps_count c w w1 : fresh w → add_cmd c w = Ret w1 → flush true (reset w1) = Ret (mkWriter [] (out w) (tmp_buff w1) (tmp_buff2 w1) 0).
Proof.
  intros (_ & Hb & Hc) E. unfold add_cmd in E. apply bind_Ret in E as ([b1 pos] & _ & E). apply bind_Ret in E as (len & _ & <-%Ret_inj).
  unfold flush, reset. cbn. rewrite Hc. cbn. by rewrite app_nil_r.
Qed.

End JavaNetstring.
