(* ===== verification/JavaHash.v ===== *)
(** * The shard bucket as the Java client computes it (client/java/jdbc)

    [getScuttleID] of util/HeraJdbcUtil.java hashes the eight bytes of a number with
    util/MurmurHash3.java. The hash is that of the gateway (lib/murmur3.go), in signed
    arithmetic; the bytes are not those the gateway hashes. *)

From S2P Require Import Prelude Codes Netstring Murmur3 Config ShardMap Sharding.
From stdpp Require Import base list strings.
From Stdlib Require Import ZArith Lia.
Open Scope Z_scope.

Module JavaHash.
Import Murmur3.

(** ** The operators of Java on [int] *)

Definition i8 (z : Z) : Z := (z + 2 ^ 7) mod 2 ^ 8 - 2 ^ 7.
Definition shl (x n : Z) : Z := i32 (Z.shiftl x n).
Definition ushr (x n : Z) : Z := i32 (Z.shiftr (u32 x) n).
Definition imul (x y : Z) : Z := i32 (x * y).

(** ** util/MurmurHash3.java *)

Definition ROTL32 (x n : Z) : Z := Z.lor (shl x n) (ushr x (32 - n)).

(** [data[i]], a signed byte; the hash indexes below [offset + len]. *)
Definition byte_at (data : bytes) (i : Z) : Z := i8 (nth (Z.to_nat i) data 0).
Definition masked (data : bytes) (i : Z) : Z := Z.land (byte_at data i) 0xff.

(** The three lines on [k1] in the loop and in the tail. *)
Definition mix_k1 (k1 : Z) : Z := imul (ROTL32 (imul k1 (i32 0xcc9e2d51)) 15) (i32 0x1b873593).

Definition word_at (data : bytes) (i : Z) : Z :=
  Z.lor (Z.lor (Z.lor (masked data i) (shl (masked data (i + 1)) 8)) (shl (masked data (i + 2)) 16)) (shl (byte_at data (i + 3)) 24).

Definition mix_h1 (h1 k1 : Z) : Z := i32 (imul (ROTL32 (Z.lxor h1 (mix_k1 k1)) 13) 5 + i32 0xe6546b64).

Fixpoint word_loop (fuel : nat) (data : bytes) (i roundedEnd h1 : Z) : Z :=
  match fuel with
  | O => h1
  | S fuel =>
    if i <? roundedEnd then word_loop fuel data (i + 4) roundedEnd (mix_h1 h1 (word_at data i)) else h1
  end.

(** The switch with its fallthroughs. *)
Definition tail_k1 (data : bytes) (roundedEnd len h1 : Z) : Z :=
  let sw := Z.land len 0x03 in
  let k1 := if sw =? 3 then shl (masked data (roundedEnd + 2)) 16 else 0 in
  let k1 := if 2 <=? sw then Z.lor k1 (shl (masked data (roundedEnd + 1)) 8) else k1 in
  if 1 <=? sw then Z.lxor h1 (mix_k1 (Z.lor k1 (masked data roundedEnd))) else h1.

Definition fmix (h1 : Z) : Z :=
  let h1 := Z.lxor h1 (ushr h1 16) in
  let h1 := imul h1 (i32 0x85ebca6b) in
  let h1 := Z.lxor h1 (ushr h1 13) in
  let h1 := imul h1 (i32 0xc2b2ae35) in
  Z.lxor h1 (ushr h1 16).

Definition murmurhash3_x86_32 (data : bytes) (offset len seed : Z) : Z :=
  let roundedEnd := i32 (offset + Z.land len (i32 0xfffffffc)) in
  let h1 := word_loop (length data) data offset roundedEnd seed in
  let h1 := tail_k1 data roundedEnd len h1 in
  fmix (Z.lxor h1 len).

(** ** util/HeraJdbcUtil.java *)

(** [Long.parseLong] of a text in ASCII: an optional sign and digits, within the range of a
    [long]. It also takes the decimal digits of other scripts, which are left out. *)
Definition parseLong (t : bytes) : result Z :=
  let bad := Error (errors_New (str "NumberFormatException")) in
  let '(neg, ds) := match t with 45 :: ds => (true, ds) | 43 :: ds => (false, ds) | _ => (false, t) end in
  if (length ds =? 0)%nat || negb (forallb (λ b, (48 <=? b) && (b <=? 57)) ds) then bad
  else
    let n := if (neg : bool) then - digits_val 0 ds else digits_val 0 ds in
    if (- 2 ^ 63 <=? n) && (n <? 2 ^ 63) then Ret n else bad.

Definition getByte (l : Z) : bytes := map (λ i : nat, u8 (Z.land 0xff (Z.shiftr l (Z.of_nat i * 8)))) (seq 0 8).

Definition MAX_SCUTTLE_BUCKETS : Z := 1024.

Definition getScuttleID (_data : bytes) : result Z :=
  l ← parseLong _data;
  let lByte := getByte l in
  let hash := murmurhash3_x86_32 lByte 0 (zlen lByte) 0x183d1db4 in
  Ret (i32 (Z.rem (Z.land hash 0xffffffff) MAX_SCUTTLE_BUCKETS)).

(** ** The hash is that of the gateway *)

Lemma u32_i32 z : u32 (i32 z) = u32 z.
Proof. unfold u32, i32. rewrite Zminus_mod_idemp_l. f_equal. lia. Qed.

Lemma u32_land z : u32 z = Z.land z (Z.ones 32).
Proof. unfold u32. by rewrite Z.land_ones by lia. Qed.

Lemma u32_lxor a b : u32 (Z.lxor a b) = Z.lxor (u32 a) (u32 b).
Proof. rewrite !u32_land. apply Z.bits_inj'. intros n Hn. rewrite !Z.land_spec, !Z.lxor_spec, !Z.land_spec. by destruct (Z.testbit a n), (Z.testbit b n), (Z.testbit (Z.ones 32) n). Qed.

Lemma u32_lor a b : u32 (Z.lor a b) = Z.lor (u32 a) (u32 b).
Proof. rewrite !u32_land. apply Z.land_lor_distr_l. Qed.

Lemma u32_mul a b : u32 (a * b) = u32 (u32 a * u32 b).
Proof. unfold u32. by rewrite <- Z.mul_mod by lia. Qed.

Lemma u32_shl x n : 0 <= n → u32 (shl x n) = u32 (Z.shiftl (u32 x) n).
Proof. intros Hn. unfold shl. rewrite u32_i32. unfold u32. rewrite !Z.shiftl_mul_pow2 by done. by rewrite Z.mul_mod_idemp_l by lia. Qed.

Lemma u32_u32 z : u32 (u32 z) = u32 z.
Proof. apply u32_id, u32_range. Qed.

Lemma u32_ushr x n : 0 <= n → u32 (ushr x n) = Z.shiftr (u32 x) n.
Proof. intros Hn. unfold ushr. rewrite u32_i32. apply u32_id, shiftr_u32; [done|apply u32_range]. Qed.

Lemma u32_ROTL32 x n : 0 <= n <= 32 → u32 (ROTL32 x n) = rotl (u32 x) n.
Proof. intros Hn. unfold ROTL32, rotl. by rewrite u32_lor, u32_shl, u32_ushr by lia. Qed.

Lemma u32_imul x c : u32 (imul x c) = u32 (u32 x * u32 c).
Proof. unfold imul. by rewrite u32_i32, u32_mul. Qed.

Lemma u32_mix_k1 k : u32 (mix_k1 k) = scramble (u32 k).
Proof. unfold mix_k1, scramble. rewrite u32_imul, u32_ROTL32, u32_imul, !u32_i32 by lia. done. Qed.

Lemma u32_mix_h1 h k : u32 (mix_h1 h k) = step (u32 h) (u32 k).
Proof.
  unfold mix_h1, step. rewrite u32_i32. unfold u32 at 1. rewrite Z.add_mod by lia. fold (u32 (imul (ROTL32 (Z.lxor h (mix_k1 k)) 13) 5)). fold (u32 (i32 0xe6546b64)).
  rewrite u32_imul, u32_i32, u32_ROTL32, u32_lxor, u32_mix_k1 by lia. unfold u32. rewrite <- Z.add_mod by lia. done.
Qed.

Lemma u32_fmix h len : u32 (fmix (Z.lxor h len)) = finalize (u32 h) len.
Proof.
  unfold fmix, finalize. cbv zeta. rewrite !u32_lxor, !u32_ushr, !u32_imul, !u32_i32, !u32_lxor, !u32_ushr, !u32_imul, !u32_i32, !u32_lxor, !u32_ushr, !u32_lxor by lia. done.
Qed.

Lemma masked_ok data i : Forall is_byte data → masked data i = nth (Z.to_nat i) data 0.
Proof.
  intros F. unfold masked, byte_at, i8. set (b := nth _ _ _).
  assert (Hb : is_byte b) by (subst b; destruct (nth_in_or_default (Z.to_nat i) data 0) as [Hin| ->]; [by eapply Forall_forall, list_elem_of_In|unfold is_byte; go_lia]).
  change 0xff with (Z.ones 8). rewrite Z.land_ones by lia. rewrite Zminus_mod_idemp_l. replace (b + 2 ^ 7 - 2 ^ 7) with b by lia. apply u8_id, Hb.
Qed.

Lemma byte_at_shl data i : Forall is_byte data → u32 (shl (byte_at data i) 24) = Z.shiftl (nth (Z.to_nat i) data 0) 24.
Proof.
  intros F. pose proof (masked_ok data i F) as Hm. unfold masked in Hm. change 0xff with (Z.ones 8) in Hm. rewrite Z.land_ones in Hm by lia.
  rewrite u32_shl by lia. unfold u32. rewrite !Z.shiftl_mul_pow2 by lia. rewrite Z.mul_mod_idemp_l by lia. rewrite <- Hm. change (2 ^ 32) with (2 ^ 8 * 2 ^ 24).
  by rewrite Z.mul_mod_distr_r by lia.
Qed.

Lemma nth_pre (pre l : bytes) k : nth (Z.to_nat (zlen pre + Z.of_nat k)) (pre ++ l) 0 = nth k l 0.
Proof. replace (Z.to_nat (zlen pre + Z.of_nat k)) with (length pre + k)%nat by lia. apply (key_at_app pre l k). Qed.

Lemma u32_byte_shl b n : is_byte b → 0 <= n <= 24 → u32 (shl b n) = Z.shiftl b n.
Proof.
  unfold is_byte, in_u8. intros Hb Hn. rewrite u32_shl, (u32_id b) by go_lia. apply u32_id. unfold in_u32. rewrite Z.shiftl_mul_pow2 by lia.
  assert (2 ^ n <= 2 ^ 24) by (apply Z.pow_le_mono_r; lia). nia.
Qed.

Lemma word_at_ok pre b0 b1 b2 b3 rest : Forall is_byte (pre ++ b0 :: b1 :: b2 :: b3 :: rest) →
  u32 (word_at (pre ++ b0 :: b1 :: b2 :: b3 :: rest) (zlen pre)) = le_word [b0; b1; b2; b3].
Proof.
  intros F. pose proof F as [_ G]%Forall_app. rewrite !Forall_cons in G. destruct G as (H0 & H1 & H2 & H3 & _). unfold word_at.
  rewrite !u32_lor, byte_at_shl, !masked_ok by done. replace (zlen pre) with (zlen pre + Z.of_nat 0) at 1 by lia.
  change 1 with (Z.of_nat 1). change 2 with (Z.of_nat 2) at 1. change 3 with (Z.of_nat 3). rewrite !nth_pre. cbn [nth].
  rewrite !u32_byte_shl by (done || lia). unfold is_byte in *. rewrite (u32_id b0) by go_lia.
  rewrite (lor_le_word b1), (lor_le_word b2), (lor_le_word b3) by go_lia. unfold le_word. cbn [foldr]. lia.
Qed.

Lemma rounded len : 0 <= len < 2 ^ 31 → i32 (0 + Z.land len (i32 0xfffffffc)) = len - len mod 4.
Proof.
  intros Hl. change (i32 0xfffffffc) with (Z.lnot (Z.ones 2)). rewrite <- Z.ldiff_land, Z.ldiff_ones_r, Z.shiftl_mul_pow2, Z.shiftr_div_pow2 by lia.
  change (2 ^ 2) with 4. pose proof (Z.div_mod len 4). pose proof (Z.mod_pos_bound len 4). rewrite i32_id; go_lia.
Qed.

Lemma tail_ok pre rest len h : Forall is_byte (pre ++ rest) → (length rest < 4)%nat → len mod 4 = zlen rest →
  u32 (tail_k1 (pre ++ rest) (zlen pre) len h) = body rest (u32 h).
Proof.
  intros F Hl Hm. pose proof F as [_ G]%Forall_app. unfold tail_k1. change (Z.land len 0x03) with (Z.land len (Z.ones 2)). rewrite Z.land_ones by lia. change (2 ^ 2) with 4. rewrite Hm.
  assert (N : ∀ k : nat, masked (pre ++ rest) (zlen pre + Z.of_nat k) = nth k rest 0) by (intros k; rewrite masked_ok by done; apply nth_pre).
  pose proof (N 0%nat) as N0. rewrite Z.add_0_r in N0. pose proof (N 1%nat) as N1. pose proof (N 2%nat) as N2. change (Z.of_nat 1) with 1 in N1. change (Z.of_nat 2) with 2 in N2.
  rewrite N0, N1, N2. clear N N0 N1 N2 F Hm. unfold is_byte in G.
  destruct rest as [|b0 [|b1 [|b2 [|]]]]; cbn [length] in Hl; try lia; cbn [length nth]; [done|..]; rewrite ?Forall_cons in G; change (Z.of_nat 1) with 1; change (Z.of_nat 2) with 2; change (Z.of_nat 3) with 3; cbn [Z.eqb Pos.eqb Z.leb Z.compare Pos.compare Pos.compare_cont].
  - destruct G as [H0 _]. rewrite u32_lxor, u32_mix_k1, Z.lor_0_l. cbn [body]. do 2 f_equal. rewrite u32_id by go_lia. unfold le_word. cbn [foldr]. lia.
  - destruct G as (H0 & H1 & _). rewrite u32_lxor, u32_mix_k1, Z.lor_0_l, u32_lor, u32_byte_shl, (u32_id b0) by (done || go_lia). cbn [body]. do 2 f_equal.
    rewrite Z.lor_comm, lor_le_word by go_lia. unfold le_word. cbn [foldr]. lia.
  - destruct G as (H0 & H1 & H2 & _). rewrite u32_lxor, u32_mix_k1, !u32_lor, !u32_byte_shl, (u32_id b0) by (done || go_lia). cbn [body]. do 2 f_equal.
    rewrite Z.lor_comm, (Z.lor_comm (Z.shiftl b2 16)), Z.lor_assoc, (lor_le_word b1), (lor_le_word b2) by go_lia. unfold le_word. cbn [foldr]. lia.
Qed.

Lemma loop_ok fuel pre rest len h roundedEnd : Forall is_byte (pre ++ rest) → (length rest <= fuel)%nat → len mod 4 = zlen rest mod 4 →
  roundedEnd = zlen pre + zlen rest - zlen rest mod 4 →
  u32 (tail_k1 (pre ++ rest) roundedEnd len (word_loop fuel (pre ++ rest) (zlen pre) roundedEnd h)) = body rest (u32 h).
Proof.
  revert pre rest h. induction fuel as [|fuel IH]; intros pre rest h F Hl Hm Hr.
  { destruct rest; cbn in Hl; [|lia]. cbn [word_loop]. replace roundedEnd with (zlen pre) by (rewrite Hr; cbn [length]; change (Z.of_nat 0) with 0; rewrite Z.mod_0_l by lia; lia). apply tail_ok; [done|cbn; lia|exact Hm]. }
  cbn [word_loop]. destruct (Z.ltb_spec (zlen pre) roundedEnd).
  - destruct rest as [|b0 [|b1 [|b2 [|b3 rest]]]]; try (exfalso; rewrite Z.mod_small in Hr by (cbn [length]; lia); lia).
    assert (Hm4 : zlen (b0 :: b1 :: b2 :: b3 :: rest) mod 4 = zlen rest mod 4).
    { cbn [length]. replace (Z.of_nat (S (S (S (S (length rest)))))) with (zlen rest + 1 * 4) by lia. apply Z.mod_add. lia. }
    set (h' := mix_h1 h _). assert (Hh : u32 h' = step (u32 h) (le_word [b0; b1; b2; b3])) by (subst h'; by rewrite u32_mix_h1, word_at_ok).
    replace (pre ++ b0 :: b1 :: b2 :: b3 :: rest) with ((pre ++ [b0; b1; b2; b3]) ++ rest) in * by by rewrite <- app_assoc.
    replace (zlen pre + 4) with (zlen (pre ++ [b0; b1; b2; b3])) by (rewrite length_app; cbn; lia).
    rewrite IH; [|done|cbn in Hl; lia|congruence|rewrite length_app; cbn [length] in *; lia]. by rewrite Hh.
  - assert (Hs : (length rest < 4)%nat). { pose proof (Z.mod_pos_bound (zlen rest) 4). pose proof (Z.div_mod (zlen rest) 4). lia. }
    rewrite (Z.mod_small (zlen rest)) in Hm, Hr by lia. replace roundedEnd with (zlen pre) by lia. by apply tail_ok.
Qed.

Lemma murmur_ok data : Forall is_byte data → zlen data < 2 ^ 31 → u32 (murmurhash3_x86_32 data 0 (zlen data) 0x183d1db4) = Murmur3 data.
Proof.
  intros F Hl. unfold murmurhash3_x86_32. rewrite rounded by lia. rewrite u32_fmix, Murmur3_body by done. f_equal.
  by rewrite (loop_ok (length data) [] data (zlen data) 0x183d1db4).
Qed.

Lemma getByte_ok l : getByte l = le_bytes 8 l.
Proof.
  assert (Hu : ∀ x, u8 (Z.land 0xff x) = u8 x).
  { intros x. change 0xff with (Z.ones 8). rewrite Z.land_comm, Z.land_ones by lia. unfold u8. by rewrite Z.mod_mod by lia. }
  unfold getByte. cbn [seq map le_bytes]. rewrite !Hu, !Z.shiftr_shiftr by lia. by rewrite Z.shiftr_0_r.
Qed.

Lemma digits_checked ds : Forall is_digit ds → forallb (λ b, (48 <=? b) && (b <=? 57)) ds = true.
Proof. intros F. apply forallb_forall. intros b Hb. rewrite Forall_forall in F. apply list_elem_of_In, F in Hb. unfold is_digit in Hb. by rewrite !(proj2 (Z.leb_le _ _)) by lia. Qed.

Lemma parseLong_itoa l : in_i64 l → parseLong (itoa l) = Ret l.
Proof.
  unfold in_i64. intros Hl. assert (Hn : ∀ n, 0 <= n → Forall is_digit (itoa n) ∧ itoa n ≠ [] ∧ digits_val 0 (itoa n) = n) by apply itoa_spec.
  destruct (Z.ltb_spec l 0).
  - assert (Hi : itoa l = 45 :: itoa (- l)) by (unfold itoa; rewrite (proj2 (Z.ltb_lt l 0)), (proj2 (Z.ltb_ge (- l) 0)) by lia; done).
    destruct (Hn (- l)) as (F & N & V); [lia|]. unfold parseLong. rewrite Hi, V, digits_checked by done. destruct (itoa (- l)); [done|]. cbn [length Nat.eqb orb negb].
    rewrite Z.opp_involutive. by rewrite (proj2 (Z.leb_le _ _)), (proj2 (Z.ltb_lt _ _)) by lia.
  - destruct (Hn l) as (F & N & V); [lia|]. unfold parseLong. destruct (itoa l) as [|d ds] eqn:E; [done|]. assert (Hd : is_digit d) by (by apply Forall_cons in F as [? _]).
    assert (Hsplit : match d :: ds with 45 :: ds => (true, ds) | 43 :: ds => (false, ds) | _ => (false, d :: ds) end = (false, d :: ds)).
    { unfold is_digit in Hd. destruct d as [|q|q]; [done| |done]. repeat (destruct q as [q|q|]; try done; try lia). }
    rewrite Hsplit, digits_checked, V by done. cbn [length Nat.eqb orb negb]. by rewrite (proj2 (Z.leb_le _ _)), (proj2 (Z.ltb_lt _ _)) by lia.
Qed.

(** C38: The client and the gateway have the same hash: on every byte string the signed hash
    of the Java client is the hash of lib/murmur3.go. The bucket the client computes for the
    text of a number is the hash of the eight bytes of the number, low byte first, modulo
    1024. *)
Theorem java_hash_agrees data l : Forall is_byte data → zlen data < 2 ^ 31 → in_i64 l →
  u32 (murmurhash3_x86_32 data 0 (zlen data) 0x183d1db4) = Murmur3 data ∧
  getScuttleID (itoa l) = Ret (Murmur3 (le_bytes 8 l) mod 1024).
Proof.
  intros F Hz Hl. split; [by apply murmur_ok|]. unfold getScuttleID. rewrite parseLong_itoa by done. cbn [mbind result_bind]. rewrite getByte_ok.
  assert (Fb : Forall is_byte (le_bytes 8 l)) by (repeat (apply Forall_cons; split; [apply u8_range|]); apply Forall_nil_2).
  change 0xffffffff with (Z.ones 32). rewrite <- u32_land. rewrite (murmur_ok (le_bytes 8 l) Fb) by (cbn; lia). unfold MAX_SCUTTLE_BUCKETS.
  rewrite Z.rem_mod_nonneg by (apply Murmur3_nonneg || lia). pose proof (Z.mod_pos_bound (Murmur3 (le_bytes 8 l)) 1024). rewrite i32_id; [done|]. go_lia.
Qed.

Lemma java_hash_agrees_witness : getScuttleID (itoa (-3)) = Ret (Murmur3 (le_bytes 8 (-3)) mod 1024).
Proof. apply (java_hash_agrees [0x9a; 0xbc] (-3)); [bytes_ok|vm_compute; reflexivity|unfold in_i64; lia]. Defined.

(** ** The gateway takes another bucket *)

(** The gateway hashes the low byte of the number eight times: for the key 258 the client
    computes one bucket and the gateway looks up another. *)
Theorem java_bucket_differs cfg recs : Config.ShardingAlgoHash cfg = true → Config.ShardKeyValueTypeIsString cfg = false → Config.MaxScuttleBuckets cfg = 1024 →
  ∃ b1 b2, getScuttleID (str "258") = Ret b1 ∧ Sharding.getShardRec cfg (Some recs) (inr 258) = index_get recs b2 ∧ b1 ≠ b2.
Proof.
  intros H1 H2 H3. unfold Sharding.getShardRec. rewrite H1, H2, H3, Sharding.key_bytes_8. cbn [mbind result_bind]. eexists _, _.
  split; [vm_compute; reflexivity|]. split; [reflexivity|]. vm_compute. discriminate.
Qed.

End JavaHash.
