(* ===== verification/JavaClient.v ===== *)
(** * The Java client (client/java/jdbc)

    [HeraClientImpl] drives one connection: it adds commands to its writer, flushes them and
    reads the answers as netstring objects, skipping the messages that the statement still
    runs. Module [JavaErrors] is the conversion of the error texts (util/HeraJdbcUtil.java);
    module [JavaClient] is client/HeraClientImpl.java over any input stream. The server is one
    that sends netstrings without the type byte. CAL transactions and logging are left out; a
    text is its bytes, in ASCII. *)

From S2P Require Import Prelude GoIO Netstring Fmt JavaNetstring JavaHash.
From stdpp Require Import base list strings.
From Stdlib Require Import ZArith Lia.
Open Scope Z_scope.

(** ** Error texts (util/HeraJdbcUtil.java) *)

Module JavaErrors.

Definition parseInt (t : bytes) : result Z :=
  n ← JavaHash.parseLong t;
  if (- 2 ^ 31 <=? n) && (n <? 2 ^ 31) then Ret n else Error (errors_New (str "NumberFormatException")).

(** The [put]s that fill the map, in their order; a range is the loop over it. *)
Definition SQLERRORTOSQLSTATEMAP : list (Z * Z * bytes) :=
  [(0, 0, str "00000"); (2126, 2126, str "07008"); (2121, 2121, str "08003"); (3000, 3099, str "0A000");
   (1427, 1427, str "21000"); (2112, 2112, str "21000"); (1800, 1899, str "22008"); (1479, 1479, str "22024");
   (1480, 1480, str "22024"); (1424, 1424, str "22025"); (1, 1, str "23000"); (2290, 2299, str "23000");
   (2091, 2091, str "40000"); (2092, 2092, str "40000"); (370, 429, str "60000"); (600, 899, str "60000");
   (6430, 6449, str "60000"); (7200, 7999, str "60000"); (9700, 9999, str "60000"); (18, 35, str "61000");
   (50, 68, str "61000"); (2376, 2399, str "61000"); (4020, 4039, str "61000"); (100, 120, str "62000");
   (440, 569, str "62000"); (150, 159, str "63000"); (2128, 2128, str "63000"); (2700, 2899, str "63000");
   (3100, 3199, str "63000"); (6200, 6249, str "63000"); (200, 369, str "64000"); (1100, 1250, str "64000");
   (6500, 6599, str "65000"); (6000, 6149, str "66000"); (6250, 6429, str "66000"); (6600, 6999, str "66000");
   (12100, 12299, str "66000"); (12500, 12599, str "66000"); (430, 439, str "67000"); (570, 599, str "69000");
   (7000, 7199, str "69000"); (10000, 10999, str "90000"); (1000, 1099, str "72000"); (1400, 1489, str "72000");
   (1495, 1499, str "72000"); (1500, 1699, str "72000"); (2400, 2419, str "72000"); (2425, 2449, str "72000");
   (4060, 4069, str "72000"); (8000, 8190, str "72000"); (12000, 12019, str "72000"); (12300, 12499, str "72000");
   (12700, 21999, str "72000"); (2100, 2100, str "82100"); (2101, 2101, str "82101"); (2102, 2102, str "82102");
   (2103, 2103, str "82103"); (2104, 2104, str "82104"); (2105, 2105, str "82105"); (2106, 2106, str "82106");
   (2107, 2107, str "82107"); (2108, 2108, str "82108"); (2109, 2109, str "82109"); (2110, 2110, str "82110");
   (2111, 2111, str "82111"); (2113, 2113, str "82112"); (2115, 2115, str "82113"); (2116, 2116, str "82114");
   (2119, 2119, str "82115"); (2120, 2120, str "82116"); (2122, 2122, str "82117"); (2123, 2123, str "82118");
   (2125, 2125, str "82119"); (2127, 2127, str "82120"); (2129, 2129, str "82121"); (2130, 2130, str "82122");
   (1095, 1095, str "02000"); (1403, 1403, str "02000"); (1401, 1401, str "22001"); (1406, 1406, str "22001");
   (1405, 1405, str "22002"); (2124, 2124, str "22002"); (1426, 1426, str "22003"); (1438, 1438, str "22003");
   (1455, 1455, str "22003"); (1457, 1457, str "22003"); (1476, 1476, str "22012"); (911, 911, str "22019");
   (1425, 1425, str "22019"); (1411, 1411, str "22022"); (1025, 1025, str "22023"); (1488, 1488, str "22023");
   (4000, 4019, str "22023"); (1001, 1001, str "24000"); (1002, 1002, str "24000"); (1003, 1003, str "24000");
   (1410, 1410, str "24000"); (8006, 8006, str "24000"); (2114, 2114, str "24000"); (2117, 2117, str "24000");
   (2118, 2118, str "24000"); (2122, 2122, str "24000"); (22, 22, str "42000"); (251, 251, str "42000");
   (900, 999, str "42000"); (1031, 1031, str "42000"); (1490, 1490, str "42000"); (1491, 1491, str "42000");
   (1492, 1492, str "42000"); (1493, 1493, str "42000"); (1700, 1799, str "42000"); (1900, 2099, str "42000");
   (2140, 2289, str "42000"); (2420, 2424, str "42000"); (2450, 2499, str "42000"); (3276, 3299, str "42000");
   (4040, 4059, str "42000"); (4070, 4099, str "42000"); (1402, 1402, str "44000")].

(** A later [put] replaces an earlier one. *)
Definition state_of (code : Z) : option bytes :=
  fold_left (λ found '(lo, hi, st), if (lo <=? code) && (code <=? hi) then Some st else found) SQLERRORTOSQLSTATEMAP None.

Definition ERRORCODE_LEN : Z := 9.
Definition DEFAULT_SQLSTATE : bytes := str "99999".

Definition ErrorToSqlErrorCodeConverter (errorMessage : bytes) : option bytes :=
  let fromIndex := Fmt.Index errorMessage (str "ORA-") in
  if (0 <=? fromIndex) && (fromIndex + ERRORCODE_LEN <=? zlen errorMessage) then
    Some (take 9 (drop (Z.to_nat fromIndex) errorMessage))
  else
    let fromIndex := Fmt.Index errorMessage (str "SQL-") in
    if (0 <=? fromIndex) && (fromIndex + ERRORCODE_LEN <=? zlen errorMessage) then
      Some (take 9 (drop (Z.to_nat fromIndex) errorMessage))
    else None.

Definition ErrorToSqlStateAndVendorCodeConverter (errorMessage : bytes) : result (bytes * Z) :=
  match ErrorToSqlErrorCodeConverter errorMessage with
  | Some errorCode =>
    if 4 <? zlen errorCode then
      code ← parseInt (drop 4 errorCode);
      Ret (default DEFAULT_SQLSTATE (state_of code), code)
    else Ret (DEFAULT_SQLSTATE, 0)
  | None => Ret (DEFAULT_SQLSTATE, 0)
  end.

Definition SUCCESS_NO_INFO : Z := -2.
Definition EXECUTE_FAILED : Z := -3.

(** [indexOf(' ', from)] *)
Definition indexOf (c from : Z) (t : bytes) : Z :=
  let from := Z.max 0 from in
  match list_find (λ b, b = c) (drop (Z.to_nat from) t) with
  | Some (i, _) => from + Z.of_nat i
  | None => -1
  end.

Fixpoint counts_loop (n : nat) (errorMessage : bytes) (index : Z) (counts : list Z) : result (list Z) :=
  match n with
  | O => Ret counts
  | S n =>
    let endIndex := indexOf 32 index errorMessage in
    t ← slice errorMessage index endIndex;
    i ← parseInt t;
    counts ← index_set counts i EXECUTE_FAILED;
    counts_loop n errorMessage (indexOf 32 (endIndex + 1) errorMessage + 1) counts
  end.

(** The outcome of every query of a batch: any exception of the first part marks all of them. *)
Definition getArrayCounts (errorMessage : bytes) (_num_queries : nat) : result (list Z) :=
  let fromIndex := indexOf 32 0 errorMessage + 1 in
  let index := indexOf 32 fromIndex errorMessage in
  match (t ← slice errorMessage fromIndex index; parseInt t) with
  | Ret n => counts_loop (Z.to_nat (Z.quot n 2)) errorMessage (index + 1) (replicate _num_queries SUCCESS_NO_INFO)
  | _ => Ret (replicate _num_queries EXECUTE_FAILED)
  end.

(** The single codes that come before a range that holds them lose their state: the state of
    a cardinality violation, of an unterminated string, of an invalid escape, and of a
    transaction that was rolled back. *)
Theorem states_overwritten :
  map state_of [1427; 1479; 1480; 1424; 2091; 2092; 911] =
    [Some (str "72000"); Some (str "72000"); Some (str "72000"); Some (str "72000"); Some (str "42000"); Some (str "42000"); Some (str "42000")] ∧
  ErrorToSqlStateAndVendorCodeConverter (str "ORA-01427: single-row subquery returns more than one row") = Ret (str "72000", 1427).
Proof. vm_compute. done. Qed.

End JavaErrors.

(** ** client/HeraClientImpl.java *)

Module JavaClient.
Import JavaNetstring JavaErrors.

Create HintDb ends.

(** constants/HeraConstants.java *)
Definition HERA_SQL_ERROR : Z := 1.
Definition HERA_ERROR : Z := 2.
Definition HERA_VALUE : Z := 3.
Definition HERA_OK : Z := 5.
Definition HERA_NO_MORE_DATA : Z := 6.
Definition HERA_STILL_EXECUTING : Z := 7.
Definition HERA_MARKDOWN : Z := 8.
Definition SERVER_ALIVE : Z := 1009.

Definition HERA_BIND_NAME := str "2".
Definition HERA_BIND_VALUE := str "3".
Definition HERA_EXECUTE := str "4".
Definition HERA_COLS := str "6".
Definition HERA_FETCH := str "7".
Definition HERA_COMMIT := str "8".
Definition HERA_ROLLBACK := str "9".
Definition HERA_BIND_TYPE := str "10".
Definition HERA_CLIENT_INFO := str "11".
Definition HERA_BIND_OUT_NAME := str "13".
Definition HERA_COLS_INFO := str "22".
Definition HERA_ARRAY_LENGTH := str "23".
Definition HERA_ARRAY_MAX_VALUESZ := str "24".
Definition HERA_PREPARE_V2 := str "25".
Definition HERA_SHARD_KEY := str "27".
Definition HERA_GET_NUM_SHARDS := str "28".
Definition HERA_SET_SHARD_ID := str "29".
Definition CLIENT_CAL_CORRELATION_ID := str "2006".
Definition SERVER_PING_COMMAND := str "1008".

(** constants/BindType.java *)
Inductive BindType :=
  | HERA_TYPE_STRING | HERA_TYPE_BLOB | HERA_TYPE_CLOB | HERA_TYPE_RAW
  | HERA_TYPE_BLOB_SINGLE_ROUND | HERA_TYPE_CLOB_SINGLE_ROUND | HERA_TYPE_TIMESTAMP | HERA_TYPE_TIMESTAMP_TZ.

Definition getValue (t : BindType) : Z :=
  match t with
  | HERA_TYPE_STRING => 0 | HERA_TYPE_BLOB => 1 | HERA_TYPE_CLOB => 2 | HERA_TYPE_RAW => 3
  | HERA_TYPE_BLOB_SINGLE_ROUND => 4 | HERA_TYPE_CLOB_SINGLE_ROUND => 5 | HERA_TYPE_TIMESTAMP => 6 | HERA_TYPE_TIMESTAMP_TZ => 7
  end.

Inductive State := INITIAL | FETCH_CMD_NEEDED | FETCH_CMD_SENT | FETCH_IN_PROGRESS | FETCH_DONE.

(** util/HeraColumnMeta.java *)
Record HeraColumnMeta := mkMeta { name : bytes; type : Z; width : Z; precision : Z; scale : Z }.

(** The exceptions; the last four are unchecked. [HeraClientException] has the SQL state and
    the code of the vendor. *)
Inductive exn :=
  | IOException
  | HeraIOException
  | HeraProtocolException (msg : bytes)
  | HeraTimeoutException (msg : bytes)
  | HeraClientException (msg : bytes) (sqlState : option bytes) (vendorCode : Z)
  | HeraInternalErrorException (msg : bytes)
  | NumberFormatException
  | NoSuchElementException
  | ConcurrentModificationException
  | RuntimeException.

Inductive outcome (A : Type) :=
  | Val (a : A)
  | Throw (e : exn)
  | Diverge.
Arguments Val {A} a.
Arguments Throw {A} e.
Arguments Diverge {A}.

(** What the client is made with, the clock, and what CAL and the machine say of it. *)
Record settings := mkSettings {
  connTimeout : Z;
  columnNamesEnabled : bool;
  columnInfoEnabled : bool;
  clock : nat → Z;
  heraHostName : bytes;
  correlationId : bytes;
  poolStack : option bytes;
  clientInfo : bytes;
  info_poolStack : bytes
}.

Section client.
Context {S : Type} `{!Reader S} (cfg : settings).

(** [responses] is the list of the reader; [response] the cursor of the iterator over it, and
    whether the list is still the one it was made for. [up]: the connection takes bytes;
    [ticks]: how often the clock was read. *)
Record HeraClientImpl := mkClient {
  input : S;
  responses : list NetStringObj;
  response : option (nat * bool);
  os : NetstringWriter;
  up : bool;
  ticks : nat;
  state : State;
  rows : Z;
  columns : Z;
  colMetaData : option (list HeraColumnMeta);
  sql : bytes;
  byteCount : Z
}.

Definition M (A : Type) : Type := HeraClientImpl → HeraClientImpl * outcome A.
#[local] Instance M_ret : MRet M := λ A a c, (c, Val a).
#[local] Instance M_bind : MBind M := λ A B f m c,
  match m c with
  | (c, Val a) => f a c
  | (c, Throw e) => (c, Throw e)
  | (c, Diverge) => (c, Diverge)
  end.

#[local] Instance M_fmap : FMap M := λ A B f m, m ≫= λ a, mret (f a).

Definition throw {A} (e : exn) : M A := λ c, (c, Throw e).
Definition modify (f : HeraClientImpl → HeraClientImpl) : M unit := λ c, (f c, Val tt).
Definition gets {A} (f : HeraClientImpl → A) : M A := λ c, (c, Val (f c)).

(** An exception of [m] as another one. *)
Definition rethrow (f : exn → exn) {A} (m : M A) : M A := λ c,
  match m c with (c, Throw e) => (c, Throw (f e)) | r => r end.

Definition wrap_io (e : exn) : exn := match e with IOException => HeraIOException | _ => e end.
Definition wrap_number (e : exn) : exn :=
  match e with NumberFormatException => HeraClientException (str "Exception:") None 0 | _ => e end.

Definition set_link (s : S) (l : list NetStringObj) (r : option (nat * bool)) (c : HeraClientImpl) : HeraClientImpl :=
  mkClient s l r (os c) (up c) (ticks c) (state c) (rows c) (columns c) (colMetaData c) (sql c) (byteCount c).
Definition set_os (w : NetstringWriter) (c : HeraClientImpl) : HeraClientImpl :=
  mkClient (input c) (responses c) (response c) w (up c) (ticks c) (state c) (rows c) (columns c) (colMetaData c) (sql c) (byteCount c).
Definition set_ticks (n : nat) (c : HeraClientImpl) : HeraClientImpl :=
  mkClient (input c) (responses c) (response c) (os c) (up c) n (state c) (rows c) (columns c) (colMetaData c) (sql c) (byteCount c).
Definition set_state (x : State) (c : HeraClientImpl) : HeraClientImpl :=
  mkClient (input c) (responses c) (response c) (os c) (up c) (ticks c) x (rows c) (columns c) (colMetaData c) (sql c) (byteCount c).
Definition set_rows (x : Z) (c : HeraClientImpl) : HeraClientImpl :=
  mkClient (input c) (responses c) (response c) (os c) (up c) (ticks c) (state c) x (columns c) (colMetaData c) (sql c) (byteCount c).
Definition set_columns (x : Z) (c : HeraClientImpl) : HeraClientImpl :=
  mkClient (input c) (responses c) (response c) (os c) (up c) (ticks c) (state c) (rows c) x (colMetaData c) (sql c) (byteCount c).
Definition set_colMetaData (x : option (list HeraColumnMeta)) (c : HeraClientImpl) : HeraClientImpl :=
  mkClient (input c) (responses c) (response c) (os c) (up c) (ticks c) (state c) (rows c) (columns c) x (sql c) (byteCount c).
Definition set_sql (x : bytes) (c : HeraClientImpl) : HeraClientImpl :=
  mkClient (input c) (responses c) (response c) (os c) (up c) (ticks c) (state c) (rows c) (columns c) (colMetaData c) x (byteCount c).
Definition set_byteCount (x : Z) (c : HeraClientImpl) : HeraClientImpl :=
  mkClient (input c) (responses c) (response c) (os c) (up c) (ticks c) (state c) (rows c) (columns c) (colMetaData c) (sql c) x.

(** The constructor. *)
Definition new_HeraClientImpl (s : S) (up : bool) : HeraClientImpl :=
  mkClient s [] None new_NetstringWriter up 0 INITIAL 0 0 None [] 0.

(** *** The connection *)

Definition os_add (r : request) : M unit := λ c,
  match add r (os c) with Ret w => (set_os w c, Val tt) | _ => (c, Throw RuntimeException) end.

Definition os_flush : M unit := λ c,
  match flush (up c) (os c) with
  | Ret w => (set_os w c, Val tt)
  | Error _ => (c, Throw IOException)
  | _ => (c, Throw RuntimeException)
  end.

(** [response = is.parse()]: the list changes also when the parse fails. *)
Definition is_parse : M unit := λ c,
  let '(s, (l, r)) := parse (input c) in
  match r with
  | Ret _ => (set_link s l (Some (0%nat, true)) c, Val tt)
  | Hang => (set_link s l (response c) c, Diverge)
  | _ => (set_link s l ((λ '(k, _), (k, false)) <$> response c) c, Throw IOException)
  end.

Definition hasNext (c : HeraClientImpl) : bool :=
  match response c with Some (k, _) => negb (k =? length (responses c))%nat | None => false end.

Definition next : M NetStringObj := λ c,
  match response c with
  | Some (k, true) =>
    match responses c !! k with
    | Some o => (set_link (input c) (responses c) (Some (Datatypes.S k, true)) c, Val o)
    | None => (c, Throw NoSuchElementException)
    end
  | Some (_, false) => (c, Throw ConcurrentModificationException)
  | None => (c, Throw RuntimeException)
  end.

Definition currentTimeMillis : M Z := λ c, (set_ticks (Datatypes.S (ticks c)) c, Val (clock cfg (ticks c))).

Definition connectionMetaInfo : bytes := str "{Connection Info:{HeraBoxName:" ++ heraHostName cfg ++ str "}}".

Definition getResponse (_cmd : bytes) : M NetStringObj :=
  rethrow wrap_io is_parse;;
  more ← gets hasNext;
  if (more : bool) then next else throw (HeraProtocolException (str "Invalid response for " ++ _cmd)).

(** Every turn takes an object, from the list or from the stream. *)
Fixpoint response_loop (fuel : nat) (start : Z) : M NetStringObj :=
  match fuel with
  | O => λ c, (c, Diverge)
  | Datatypes.S fuel =>
    more ← gets hasNext;
    (if (more : bool) then mret tt else is_parse);;
    obj ← next;
    if command obj =? HERA_STILL_EXECUTING then
      now ← currentTimeMillis;
      if connTimeout cfg <? now - start then throw (HeraTimeoutException (str "Timeout waiting for response"))
      else response_loop fuel start
    else mret obj
  end.

Definition objects (c : HeraClientImpl) : nat := Datatypes.S (length (responses c) + length (unread (input c))).

Definition read_response : M NetStringObj :=
  rethrow wrap_io (
    start ← currentTimeMillis;
    fuel ← gets objects;
    response_loop fuel start).

Definition check_error {A} (obj : NetStringObj) : M A :=
  let errorMessage := data obj in
  match ErrorToSqlStateAndVendorCodeConverter errorMessage with
  | Ret (st, code) =>
    let cmd := i32 (command obj) in
    throw (if cmd =? HERA_SQL_ERROR then HeraClientException (str "SQL error: " ++ errorMessage) (Some st) code
           else if cmd =? HERA_ERROR then HeraClientException (str "Hera error: " ++ errorMessage ++ connectionMetaInfo) (Some st) 0
           else if cmd =? HERA_MARKDOWN then HeraClientException (str "Hera markdown: " ++ errorMessage) (Some st) 0
           else HeraClientException (str "Unknown error: cmd=" ++ itoa (command obj) ++ str ", data=" ++ errorMessage) None 0)
  | _ => throw NumberFormatException
  end.

Definition int_data (obj : NetStringObj) : M Z :=
  match parseInt (data obj) with Ret n => mret n | _ => throw NumberFormatException end.

(** An answer that has to be a value, as a number and as a text; [num] is what becomes of the
    exception of a bad number. *)
Definition read_int (num : exn → exn) : M Z :=
  obj ← read_response;
  if command obj =? HERA_VALUE then rethrow num (int_data obj) else check_error obj.

Definition read_text : M bytes :=
  obj ← read_response;
  if command obj =? HERA_VALUE then mret (data obj) else check_error obj.

(** *** Requests *)

Definition sendCalCorrId : M unit :=
  os_add (AddData CLIENT_CAL_CORRELATION_ID
    (str "CorrId=" ++ correlationId cfg ++ match poolStack cfg with Some st => str "&PoolStack: " ++ st | None => [] end)).

Definition prepare (_sql : bytes) : M unit :=
  sendCalCorrId;;
  os_add (AddData HERA_PREPARE_V2 _sql);;
  modify (set_sql _sql).

Definition bind_type (_type : BindType) : M unit :=
  match _type with HERA_TYPE_STRING => mret tt | _ => os_add (AddLong HERA_BIND_TYPE (getValue _type)) end.

Definition bind (_variable : bytes) (_type : BindType) (_value : bytes) : M unit :=
  os_add (AddData HERA_BIND_NAME _variable);;
  bind_type _type;;
  os_add (AddData HERA_BIND_VALUE _value).

Definition bindOut (_variable : bytes) : M unit := os_add (AddData HERA_BIND_OUT_NAME _variable).

Fixpoint add_values (_values : list bytes) : M unit :=
  match _values with
  | [] => mret tt
  | v :: vs => os_add (AddData HERA_BIND_VALUE v);; add_values vs
  end.

Definition bindArray (_variable : bytes) (_max_sz : Z) (_type : BindType) (_values : list bytes) : M unit :=
  os_add (AddData HERA_BIND_NAME _variable);;
  bind_type _type;;
  os_add (AddData HERA_ARRAY_LENGTH (itoa (zlen _values)));;
  os_add (AddData HERA_ARRAY_MAX_VALUESZ (itoa _max_sz));;
  add_values _values.

Definition shardKey (_data : bytes) : M unit := os_add (AddData HERA_SHARD_KEY _data).

(** *** Columns *)

(** The loop over the columns, in [execQuery] and in [iterateColumns]; the latter turns a bad
    number into an exception of its own. *)
Fixpoint meta_loop (num : exn → exn) (n : nat) : M (list HeraColumnMeta) :=
  match n with
  | O => mret []
  | Datatypes.S n =>
    nm ← read_text;
    meta ← (if columnInfoEnabled cfg then
              t ← read_int num;
              w ← read_int num;
              p ← read_int num;
              sc ← read_int num;
              mret (mkMeta nm t w p sc)
            else mret (mkMeta nm 0 0 0 0));
    metas ← meta_loop num n;
    mret (meta :: metas)
  end.

Definition column_list (num : exn → exn) : M (list HeraColumnMeta) :=
  n ← read_int num;
  modify (set_columns n);;
  meta_loop num (Z.to_nat n).

Definition iterateColumns : M (option (list HeraColumnMeta)) :=
  if columnNamesEnabled cfg || columnInfoEnabled cfg then Some <$> column_list wrap_number else mret None.

(** *** Statements *)

Definition counts : M unit :=
  n ← read_int id;
  modify (set_columns n);;
  n ← read_int id;
  modify (set_rows n).

Definition commit_answer (label what : bytes) : M unit :=
  resp ← getResponse label;
  if negb (command resp =? HERA_OK) then throw (HeraClientException (what ++ itoa (i32 (command resp))) None 0) else mret tt.

Definition execute (_num_rows : Z) (_add_commit : bool) : M bool :=
  os_add (AddCmd HERA_EXECUTE);;
  rethrow wrap_io (
    os_flush;;
    counts;;
    n ← gets columns;
    if 0 <? n then
      (if columnInfoEnabled cfg then os_add (AddCmd HERA_COLS_INFO);; os_flush
       else if columnNamesEnabled cfg then os_add (AddCmd HERA_COLS);; os_flush
       else mret tt);;
      modify (set_state FETCH_CMD_SENT);;
      os_add (AddLong HERA_FETCH _num_rows);;
      os_flush;;
      metas ← iterateColumns;
      modify (set_colMetaData metas);;
      mret true
    else
      (if _add_commit then
         os_add (AddCmd HERA_COMMIT);;
         os_flush;;
         commit_answer (str "HERA_AUTO_COMMIT") (str "commit: Error ")
       else mret tt);;
      mret false).

Definition execQuery (_num_rows : Z) (_column_meta : bool) : M (option (list HeraColumnMeta)) :=
  os_add (AddCmd HERA_EXECUTE);;
  (if _column_meta then
     if columnInfoEnabled cfg then os_add (AddCmd HERA_COLS_INFO)
     else if columnNamesEnabled cfg then os_add (AddCmd HERA_COLS) else mret tt
   else mret tt);;
  modify (set_state FETCH_CMD_SENT);;
  os_add (AddLong HERA_FETCH _num_rows);;
  rethrow wrap_io (
    os_flush;;
    counts;;
    if _column_meta && (columnNamesEnabled cfg || columnInfoEnabled cfg) then Some <$> column_list id else mret None).

(** The [finally] block; its exception replaces that of the statement. *)
Definition handlecommit (do_commit : bool) : M unit :=
  if do_commit then commit_answer (str "HERA_AUTO_COMMIT") (str "commit: Error ") else mret tt.

Definition try_finally (m : M unit) (fin : outcome unit → M unit) : M unit := λ c,
  match m c with
  | (c, Diverge) => (c, Diverge)
  | (c, r) => match fin r c with (c, Val _) => (c, r) | r' => r' end
  end.

(** No commit is expected after an [IOException] of the flush or a time-out; an error of the
    connection while the answer is read is a [HeraIOException]. *)
Definition execDML (_add_commit : bool) : M unit :=
  os_add (AddCmd HERA_EXECUTE);;
  (if _add_commit then os_add (AddCmd HERA_COMMIT) else mret tt);;
  rethrow wrap_io (try_finally (os_flush;; counts)
    (λ r, handlecommit (match r with Throw IOException | Throw (HeraTimeoutException _) => false | _ => _add_commit end))).

(** *** Rows *)

(** One row, or the end of the rows: [None]. *)
Fixpoint row_loop (n : nat) (row : list bytes) : M (option (list bytes)) :=
  match n with
  | O => mret (Some row)
  | Datatypes.S n =>
    obj ← read_response;
    if command obj =? HERA_NO_MORE_DATA then modify (set_state FETCH_DONE);; mret None
    else if command obj =? HERA_OK then modify (set_state FETCH_CMD_NEEDED);; mret None
    else if command obj =? HERA_VALUE then
      modify (λ c, set_byteCount (i32 (byteCount c + zlen (data obj))) c);;
      row_loop n (row ++ [data obj])
    else check_error obj
  end.

(** Every row takes an object. *)
Fixpoint rows_loop (fuel : nat) (i _rows : Z) (ret : list (list bytes)) : M (list (list bytes)) :=
  if i <? _rows then
    match fuel with
    | O => λ c, (c, Diverge)
    | Datatypes.S fuel =>
      n ← gets columns;
      if n <=? 0 then
        q ← gets sql;
        throw (HeraInternalErrorException (str "For the query '" ++ q ++ str "' the number of column is incorrect: " ++ itoa n))
      else
        row ← row_loop (Z.to_nat n) [];
        match row with
        | Some row => rows_loop fuel (i + 1) _rows (ret ++ [row])
        | None => mret ret
        end
    end
  else mret ret.

Definition load_results (_rows : Z) : M (list (list bytes)) :=
  modify (set_byteCount 0);;
  fuel ← gets objects;
  rows_loop fuel 0 _rows [].

Definition MAX_VALUE : Z := 2 ^ 31 - 1.

Definition fetch (_num_rows : Z) : M (list (list bytes)) :=
  st ← gets state;
  match st with
  | FETCH_DONE => mret []
  | _ =>
    (match st with
     | FETCH_CMD_NEEDED =>
       os_add (AddLong HERA_FETCH _num_rows);;
       rethrow wrap_io os_flush;;
       modify (set_state FETCH_CMD_SENT)
     | _ => mret tt
     end);;
    load_results MAX_VALUE
  end.

Definition fetchOutBindVars (_bind_var_count : Z) : M (list (list bytes)) :=
  n ← read_int wrap_number;
  modify (set_rows n);;
  modify (set_columns _bind_var_count);;
  load_results n.

(** *** Other commands *)

Definition commit : M unit :=
  os_add (AddCmd HERA_COMMIT);;
  rethrow wrap_io os_flush;;
  commit_answer (str "HERA_COMMIT") (str "commit: Error ").

Definition rollback : M unit :=
  os_add (AddCmd HERA_ROLLBACK);;
  rethrow wrap_io os_flush;;
  commit_answer (str "HERA_ROLLBACK") (str "rollback: Error ").

(** The name is appended when it is empty. *)
Definition sendClientInfo (info nm : bytes) : M bytes :=
  let buffer := clientInfo cfg ++ str ", Command: " ++ info ++ str ", " ++ info_poolStack cfg ++
                (if (length nm =? 0)%nat then str ", Name: " ++ nm else []) in
  os_add (AddData HERA_CLIENT_INFO buffer);;
  rethrow wrap_io os_flush;;
  resp ← getResponse (str "HERA_CLIENT_INFO");
  if negb (command resp =? HERA_OK) then throw (HeraClientException (str "HERA_CLIENT_INFO: Error " ++ itoa (i32 (command resp))) None 0)
  else mret (data resp).

Definition getNumShards : M Z :=
  os_add (AddCmd HERA_GET_NUM_SHARDS);;
  rethrow wrap_io os_flush;;
  resp ← getResponse (str "HERA_GET_NUM_SHARDS");
  if negb (command resp =? HERA_OK) then throw (HeraClientException (str "commit: Error " ++ itoa (i32 (command resp))) None 0)
  else int_data resp.

Definition setShard (_shard_id : Z) : M unit :=
  os_add (AddLong HERA_SET_SHARD_ID _shard_id);;
  rethrow wrap_io os_flush;;
  resp ← getResponse (str "HERA_SET_SHARD_ID");
  if negb (command resp =? HERA_OK) then
    throw (HeraClientException (str "setShard(" ++ itoa _shard_id ++ str ") error code: " ++ itoa (i32 (command resp)) ++ str ": " ++ data resp) None 0)
  else mret tt.

Definition ping : M unit :=
  os_add (AddData SERVER_PING_COMMAND []);;
  rethrow wrap_io os_flush;;
  resp ← getResponse (str "HERA_CLIENT_PING");
  if negb (command resp =? SERVER_ALIVE) then throw (HeraClientException (str "HeraClient::sendPing(): Error " ++ itoa (command resp)) None 0)
  else mret tt.

Definition reset : M unit := modify (λ c, set_os (JavaNetstring.reset (os c)) c).

(** ** What a server sends *)

(** The command of an object is not that of a composite one. *)
Definition good (o : NetStringObj) : Prop := 0 < command o < 2 ^ 63 ∧ zlen (data o) < 2 ^ 30.

Definition request_of (o : NetStringObj) : request :=
  match data o with [] => AddCmd (itoa (command o)) | _ => AddData (itoa (command o)) (data o) end.

Lemma request_of_ok o : good o → named (request_of o) ∧ fits (request_of o) ∧ obj_of (request_of o) = o ∧ wrapped (text_of (request_of o)) = writeToOutputStream o.
Proof.
  intros [Hc Hd]. destruct (itoa_spec (command o)) as (F & N & V); [lia|]. pose proof (length_itoa (command o)) as Hi. unfold named, fits, obj_of, wrapped, Netstring.frame, writeToOutputStream, request_of.
  destruct o as [cm d]. cbn [command data] in *. destruct d as [|b d]; cbn [name_of payload_of text_of].
  - split; [split_and!; try done; lia|]. split; [split; [done|lia]|]. split; [by rewrite V|]. cbn. by rewrite Z.add_0_r.
  - split; [split_and!; try done; lia|]. split; [split; [done|rewrite length_app, length_cons; lia]|]. split; [by rewrite V|].
    rewrite (proj2 (Z.ltb_lt 0 _)) by (cbn; lia). rewrite length_app, length_cons.
    replace (Z.of_nat (length (itoa cm) + Datatypes.S (length (b :: d)))) with (zlen (itoa cm) + (1 + zlen (b :: d))) by lia. by simplify_list_eq.
Qed.

(** The bytes of a list of objects, alone or in composite netstrings. *)
Inductive wire : bytes → list NetStringObj → Prop :=
  | wire_nil : wire [] []
  | wire_one o bs l : good o → wire bs l → wire (writeToOutputStream o ++ bs) (o :: l)
  | wire_many os bs l : os ≠ [] → Forall good os → zlen (concat (map writeToOutputStream os)) + 2 < 2 ^ 31 → wire bs l →
      wire (wrapped (48 :: Netstring.space :: concat (map writeToOutputStream os)) ++ bs) (os ++ l).

Lemma written_objects l : Forall good l → concat (map writeToOutputStream l) = written (map request_of l) ∧
  Forall named (map request_of l) ∧ Forall fits (map request_of l) ∧ map obj_of (map request_of l) = l.
Proof.
  induction 1 as [|o l Ho _ (IH1 & IH2 & IH3 & IH4)]; [done|]. destruct (request_of_ok o Ho) as (H1 & H2 & H3 & H4).
  cbn [map concat]. split_and!; [|by constructor|by constructor|by rewrite H3, IH4]. unfold written. cbn. rewrite H4. f_equal. exact IH1.
Qed.

Lemma wire_length bs l : wire bs l → (length l <= length bs)%nat.
Proof.
  induction 1 as [|o bs l Ho _ IH|os bs l Hne Ho _ _ IH]; [done| |].
  - destruct (request_of_ok o Ho) as (_ & _ & _ & <-). destruct (wrapped_cons (text_of (request_of o))) as (b & r & ->). rewrite length_app. cbn. lia.
  - destruct (written_objects os Ho) as (-> & _). pose proof (written_length (map request_of os)) as Hw. rewrite length_map in Hw.
    rewrite !length_app. unfold wrapped, Netstring.frame. rewrite length_app. cbn [length]. rewrite length_app. cbn [length]. lia.
Qed.

(** ** Reading the answers *)

Context `{!ReaderLaws S}.
Implicit Types c : HeraClientImpl.

Lemma parse_wire (s : S) l : wire (unread s) l → l ≠ [] →
  ∃ s' now later, parse s = (s', (now, Ret tt)) ∧ now ≠ [] ∧ l = now ++ later ∧ wire (unread s') later.
Proof.
  intros Hw Hne. inversion Hw as [E1 E2|o bs l' Ho Hw' E1 E2|os' bs l' Hos Ho Hl Hw' E1 E2]; subst; [done| |].
  - destruct (request_of_ok o Ho) as ((F & N & V) & [_ Hf] & Hobj & Hwr). rewrite <- Hwr in E1.
    destruct (readFromInputStream_ok (name_of (request_of o)) (payload_of (request_of o)) (text_of (request_of o)) bs s) as (s' & E & Hu & _);
      [done|done|apply text_is_body|lia|lia|by rewrite <- E1|].
    exists s', [o], l'. unfold parse. rewrite E. cbn [command]. rewrite (proj2 (Z.eqb_neq _ 0)) by lia. unfold obj_of in Hobj. rewrite Hobj, Hu. done.
  - destruct (written_objects os' Ho) as (Hwr & Hn & Hf & Hobj). rewrite Hwr in *. set (rs := map request_of os') in *.
    destruct (readFromInputStream_ok [48] (written rs) (48 :: Netstring.space :: written rs) bs s) as (s' & E & Hu & _);
      [apply Forall_cons; split; [unfold is_digit; lia|constructor]|done|by right|by vm_compute|cbn [length]; lia|by rewrite <- E1|].
    exists s', os', l'. unfold parse. rewrite E. cbn [command digits_val fold_left Z.eqb data].
    rewrite (fill_loop_ok (length (written rs)) rs []); [|done|done|apply app_nil_r|apply written_length]. rewrite Hobj, Hu. done.
Qed.

(** The objects the client will read: the rest of its list, and those on the wire. *)
Definition ahead c (l : list NetStringObj) : Prop :=
  ∃ later, wire (unread (input c)) later ∧
    match response c with
    | Some (k, true) => (k <= length (responses c))%nat ∧ l = drop k (responses c) ++ later
    | Some (_, false) => False
    | None => l = later
    end.

(** Reading an answer changes nothing of the statement. *)
Definition kept c c' : Prop :=
  os c' = os c ∧ up c' = up c ∧ state c' = state c ∧ rows c' = rows c ∧ columns c' = columns c ∧ colMetaData c' = colMetaData c ∧
  sql c' = sql c.

Lemma ahead_objects c l : ahead c l → (length l < objects c)%nat.
Proof.
  intros (later & Hw & Hr). apply wire_length in Hw. unfold objects. destruct (response c) as [[k []]|]; [destruct Hr as [? ->]|done|subst l; lia].
  rewrite length_app, length_drop. lia.
Qed.

Definition next_object : M NetStringObj := more ← gets hasNext; (if (more : bool) then mret tt else is_parse);; next.

Lemma next_object_ok c o l : ahead c (o :: l) → ∃ c', next_object c = (c', Val o) ∧ ahead c' l ∧ kept c c' ∧ ticks c' = ticks c.
Proof.
  intros (later & Hw & Hr). unfold next_object, mbind, M_bind, gets.
  assert (Hparse : ∀ c, wire (unread (input c)) (o :: l) → ∃ c', (is_parse ≫= λ _, next) c = (c', Val o) ∧ ahead c' l ∧ kept c c' ∧ ticks c' = ticks c).
  { clear Hw Hr later. intros d Hw. destruct (parse_wire (input d) (o :: l) Hw) as (s' & now & later & E & Hn & El & Hw'); [done|].
    destruct now as [|o' now]; [done|]. cbn in El. injection El as <- ->. unfold mbind, M_bind, is_parse. rewrite E. cbn. eexists. split; [done|].
    split; [|done]. exists later. split; [done|]. cbn. split; [lia|]. by rewrite drop_0. }
  unfold hasNext. destruct (response c) as [[k []]|] eqn:Er; [|done|].
  - destruct Hr as [Hk Hd]. destruct (Nat.eqb_spec k (length (responses c))) as [->|Hne]; cbn [negb].
    + rewrite drop_all in Hd. cbn in Hd. subst later. exact (Hparse c Hw).
    + unfold next. cbn. rewrite Er. destruct (responses c !! k) as [o'|] eqn:Eo; [|apply lookup_ge_None in Eo; lia].
      rewrite (drop_S _ o') in Hd by done. injection Hd as <- ->. eexists. split; [done|]. split; [|done]. exists later. split; [done|]. cbn. split; [|done].
      apply lookup_lt_Some in Eo. lia.
  - subst later. exact (Hparse c Hw).
Qed.

(** ** Every call ends *)

(** The objects that may still come. *)
Definition load c : nat :=
  (match response c with Some (k, _) => length (responses c) - k | None => 0 end + length (unread (input c)))%nat.

(** [m] ends in a value or an exception. *)
Definition ending {A} (m : M A) c : Prop := (m c).2 ≠ Diverge ∧ (load (m c).1 <= load c)%nat.
Definition ends_always {A} (m : M A) : Prop := ∀ c, ending m c.

Lemma ending_bind {A B} (m : M A) (f : A → M B) c : ending m c → (∀ c' a, m c = (c', Val a) → ending (f a) c') → ending (m ≫= f) c.
Proof.
  unfold ending, mbind, M_bind. intros [H1 H2] Hf. destruct (m c) as [c' [a| |]] eqn:E; try done. cbn in H2. destruct (Hf c' a eq_refl) as [H3 H4]. split; [done|lia].
Qed.

Lemma ends_seq {A B} (m : M A) (f : A → M B) : ends_always m → (∀ a, ends_always (f a)) → ends_always (m ≫= f).
Proof. intros Hm Hf c. apply ending_bind; [apply Hm|]. intros c' a _. apply Hf. Qed.

Lemma ends_ret {A} (a : A) : ends_always (mret a).
Proof. by intros c. Qed.

Lemma ends_throw {A} e : ends_always (A := A) (throw e).
Proof. by intros c. Qed.

Lemma ends_gets {A} (f : HeraClientImpl → A) : ends_always (gets f).
Proof. by intros c. Qed.

Lemma ends_modify f : (∀ c, load (f c) = load c) → ends_always (modify f).
Proof. intros Hf c. split; [done|]. cbn. by rewrite Hf. Qed.

Lemma ends_rethrow {A} f (m : M A) : ends_always m → ends_always (rethrow f m).
Proof. intros Hm c. destruct (Hm c) as [H1 H2]. unfold ending, rethrow. by destruct (m c) as [c' [a|e|]]. Qed.

Lemma ends_if {A} (b : bool) (m1 m2 : M A) : ends_always m1 → ends_always m2 → ends_always (if b then m1 else m2).
Proof. by destruct b. Qed.

Lemma ends_os_add r : ends_always (os_add r).
Proof. intros c. unfold ending, os_add. by destruct (add r (os c)). Qed.

Lemma ends_os_flush : ends_always os_flush.
Proof. intros c. unfold ending, os_flush. by destruct (flush (up c) (os c)). Qed.

Lemma ends_check_error {A} o : ends_always (A := A) (check_error o).
Proof. intros c. unfold check_error. by destruct (ErrorToSqlStateAndVendorCodeConverter (data o)) as [[]| | | |]. Qed.

Lemma ends_int_data o : ends_always (int_data o).
Proof. intros c. unfold int_data. by destruct (parseInt (data o)). Qed.

Lemma ends_currentTimeMillis : ends_always currentTimeMillis.
Proof. by intros c. Qed.

Lemma ends_is_parse : ends_always is_parse.
Proof.
  intros c. unfold ending, is_parse. destruct (parse (input c)) as [s [l r]] eqn:E. apply parse_returns in E as [H1 H2].
  destruct r; try done; (split; [done|]); unfold load; cbn; destruct (response c) as [[k v]|]; cbn; lia.
Qed.

(** An object that is taken is gone. *)
Lemma next_ends c : ending next c ∧ ∀ c' o, next c = (c', Val o) → (load c' < load c)%nat.
Proof.
  unfold ending, next. destruct (response c) as [[k []]|] eqn:Er; [|by split..]. destruct (responses c !! k) as [o|] eqn:Eo; [|by split].
  apply lookup_lt_Some in Eo. unfold load. cbn. rewrite Er. split; [split; [done|lia]|]. intros c' o' [= <- <-]. cbn. lia.
Qed.

#[local] Hint Resolve ends_seq ends_ret ends_throw ends_gets ends_rethrow ends_if ends_os_add ends_os_flush ends_check_error ends_int_data ends_is_parse ends_currentTimeMillis : ends.

Lemma next_object_ends c : ending next_object c ∧ ∀ c' o, next_object c = (c', Val o) → (load c' < load c)%nat.
Proof.
  unfold next_object. split.
  - apply ends_seq; [auto with ends|]. intros more. apply ends_seq; [auto with ends|]. intros _ c'. apply next_ends.
  - intros c' o. unfold mbind, M_bind, gets. pose proof (ends_if (hasNext c) (mret tt) is_parse (ends_ret tt) ends_is_parse c) as [_ H].
    destruct ((if hasNext c then mret tt else is_parse) c) as [c1 [[]| |]]; try done. intros E. apply next_ends in E. cbn in H. lia.
Qed.

Lemma response_loop_ends fuel start c : (load c < fuel)%nat →
  ending (response_loop fuel start) c ∧ ∀ c' o, response_loop fuel start c = (c', Val o) → (load c' < load c)%nat.
Proof.
  revert c. induction fuel as [|fuel IH]; intros c Hf; [lia|]. destruct (next_object_ends c) as [[H1 H2] H3].
  assert (Hu : response_loop (Datatypes.S fuel) start c = (obj ← next_object; if command obj =? HERA_STILL_EXECUTING then
      (now ← currentTimeMillis; if connTimeout cfg <? now - start then throw (HeraTimeoutException (str "Timeout waiting for response")) else response_loop fuel start)
     else mret obj) c).
  { cbn [response_loop]. unfold next_object, mbind, M_bind. destruct (gets hasNext c) as [c2 [more| |]]; try done. by destruct ((if (more : bool) then mret tt else is_parse) c2) as [c3 [[]| |]]. }
  unfold ending. rewrite Hu. unfold mbind at 1 3 5, M_bind at 1 3 5. destruct (next_object c) as [c1 [o| |]] eqn:E; [|by split..]. cbn in H2. specialize (H3 c1 o eq_refl).
  destruct (_ =? _); [|cbn; split; [split; [done|lia]|by intros c' o' [= <- <-]]]. unfold mbind, M_bind, currentTimeMillis.
  destruct (_ <? _); [cbn; split; [split; [done|exact H2]|done]|]. destruct (IH (set_ticks (Datatypes.S (ticks c1)) c1)) as [[I1 I2] I3]; [change (load c1 < fuel)%nat; lia|].
  change (load (set_ticks (Datatypes.S (ticks c1)) c1)) with (load c1) in *. split; [split; [done|lia]|]. intros c' o' E'. apply I3 in E'. lia.
Qed.

Lemma load_objects c : (load c < objects c)%nat.
Proof. unfold load, objects. destruct (response c) as [[k v]|]; lia. Qed.

Lemma read_response_ends c : ending read_response c ∧ ∀ c' o, read_response c = (c', Val o) → (load c' < load c)%nat.
Proof.
  set (c0 := set_ticks (Datatypes.S (ticks c)) c). destruct (response_loop_ends (objects c0) (clock cfg (ticks c)) c0) as [[H1 H2] H3]; [apply load_objects|].
  change (load c0) with (load c) in *. unfold ending, read_response, rethrow, mbind, M_bind, currentTimeMillis, gets. fold c0.
  destruct (response_loop (objects c0) (clock cfg (ticks c)) c0) as [c1 [o|e|]]; cbn in *; [split; [done|]|by split|done]. intros c' o' [= <- <-]. by apply (H3 c1 o).
Qed.

Lemma ends_read_response : ends_always read_response.
Proof. intros c. apply read_response_ends. Qed.

Lemma ends_next : ends_always next.
Proof. intros c. apply next_ends. Qed.

Lemma ends_getResponse label : ends_always (getResponse label).
Proof. apply ends_seq; [auto with ends|]. intros _. apply ends_seq; [auto with ends|]. intros more. apply ends_if; [apply ends_next|auto with ends]. Qed.

#[local] Hint Resolve ends_read_response ends_next ends_getResponse : ends.
#[local] Hint Extern 1 (ends_always (modify _)) => apply ends_modify; done : ends.

(** A call that is made of calls that end. *)
Ltac ends := repeat match goal with |- ends_always (mbind _ _) => apply ends_seq; [auto with ends|intros ?] end; auto with ends.

Lemma ends_read_int num : ends_always (read_int num).
Proof. unfold read_int. ends. Qed.

Lemma ends_read_text : ends_always read_text.
Proof. unfold read_text. ends. Qed.

#[local] Hint Resolve ends_read_int ends_read_text : ends.

Lemma ends_meta_loop num n : ends_always (meta_loop num n).
Proof. induction n as [|n IH]; cbn [meta_loop]; [auto with ends|]. apply ends_seq; [auto with ends|]. intros nm. apply ends_seq; [apply ends_if; ends|]. intros m. ends. Qed.

Lemma ends_column_list num : ends_always (column_list num).
Proof. unfold column_list. apply ends_seq; [auto with ends|]. intros n. apply ends_seq; [auto with ends|]. intros _. apply ends_meta_loop. Qed.

Lemma ends_fmap {A B} (f : A → B) (m : M A) : ends_always m → ends_always (f <$> m).
Proof. intros Hm. unfold fmap, M_fmap. ends. Qed.

Lemma ends_iterateColumns : ends_always iterateColumns.
Proof. unfold iterateColumns. apply ends_if; [|auto with ends]. apply ends_fmap, ends_column_list. Qed.

Lemma ends_counts : ends_always counts.
Proof. unfold counts. ends. Qed.

Lemma ends_commit_answer label what : ends_always (commit_answer label what).
Proof. unfold commit_answer. ends. Qed.

#[local] Hint Resolve ends_iterateColumns ends_counts ends_commit_answer ends_column_list ends_fmap : ends.

Lemma row_loop_ends n row c : ending (row_loop n row) c ∧ ((0 < n)%nat → ∀ c' r, row_loop n row c = (c', Val r) → (load c' < load c)%nat).
Proof.
  revert row c. induction n as [|n IH]; intros row c; [by split; [|lia]|]. cbn [row_loop]. destruct (read_response_ends c) as [[H1 H2] H3].
  unfold ending, mbind, M_bind. destruct (read_response c) as [c1 [o| |]]; [|by split..]. cbn in H2. specialize (H3 c1 o eq_refl).
  destruct (_ =? HERA_NO_MORE_DATA); [cbn; split; [split; [done|exact H2]|intros _ c' r [= <- <-]; exact H3]|].
  destruct (_ =? HERA_OK); [cbn; split; [split; [done|exact H2]|intros _ c' r [= <- <-]; exact H3]|].
  destruct (_ =? HERA_VALUE).
  - cbn [modify]. set (c2 := set_byteCount _ c1). destruct (IH (row ++ [data o]) c2) as [[I1 I2] I3]. change (load c2) with (load c1) in *.
    split; [split; [done|lia]|]. intros _ c' r E. destruct (Nat.eq_dec n 0) as [->|Hn]; [injection E as <- <-; exact H3|]. apply I3 in E; [lia|lia].
  - pose proof (ends_check_error (A := option (list bytes)) o c1) as [I1 I2]. split; [split; [done|lia]|]. intros _ c' r E. unfold check_error in E.
    by destruct (ErrorToSqlStateAndVendorCodeConverter (data o)) as [[]| | | |].
Qed.

Lemma rows_loop_ends fuel i n ret c : (load c < fuel)%nat → ending (rows_loop fuel i n ret) c.
Proof.
  revert i ret c. induction fuel as [|fuel IH]; intros i ret c Hf; [lia|]. cbn [rows_loop]. destruct (i <? n); [|done]. unfold ending, mbind, M_bind. cbn [gets].
  destruct (Z.leb_spec (columns c) 0); [done|]. destruct (row_loop_ends (Z.to_nat (columns c)) [] c) as [[H1 H2] H3].
  destruct (row_loop (Z.to_nat (columns c)) [] c) as [c1 [[row|]| |]]; try done. specialize (H3 ltac:(lia) c1 (Some row) eq_refl). cbn in H2.
  destruct (IH (i + 1) (ret ++ [row]) c1) as [I1 I2]; [lia|]. split; [done|lia].
Qed.

Lemma ends_load_results n : ends_always (load_results n).
Proof.
  intros c. unfold load_results, ending, mbind, M_bind. cbn [modify gets]. apply (rows_loop_ends (objects (set_byteCount 0 c)) 0 n [] (set_byteCount 0 c)), load_objects.
Qed.

Lemma ends_try_finally m f : ends_always m → (∀ r, ends_always (f r)) → ends_always (try_finally m f).
Proof.
  intros Hm Hf c. destruct (Hm c) as [H1 H2]. unfold ending, try_finally. destruct (m c) as [c1 r]. cbn in H1, H2. destruct (Hf r c1) as [F1 F2].
  destruct r; try done; by destruct (f _ c1) as [c2 [[]| |]]; cbn in *; split; done || lia.
Qed.

#[local] Hint Resolve ends_load_results ends_try_finally : ends.

(** The calls of the client. *)
Inductive call :=
  | Prepare (q : bytes)
  | Bind (v : bytes) (t : BindType) (x : bytes)
  | BindOut (v : bytes)
  | BindArray (v : bytes) (max_sz : Z) (t : BindType) (vs : list bytes)
  | Execute (n : Z) (add_commit : bool)
  | ExecQuery (n : Z) (column_meta : bool)
  | ExecDML (add_commit : bool)
  | Fetch (n : Z)
  | FetchOutBindVars (n : Z)
  | Commit
  | Rollback
  | SendClientInfo (info nm : bytes)
  | GetNumShards
  | SetShard (shard : Z)
  | ShardKey (key : bytes)
  | Ping
  | Reset.

Definition perform (x : call) : M unit :=
  match x with
  | Prepare q => prepare q
  | Bind v t x => bind v t x
  | BindOut v => bindOut v
  | BindArray v m t vs => bindArray v m t vs
  | Execute n b => execute n b;; mret tt
  | ExecQuery n b => execQuery n b;; mret tt
  | ExecDML b => execDML b
  | Fetch n => fetch n;; mret tt
  | FetchOutBindVars n => fetchOutBindVars n;; mret tt
  | Commit => commit
  | Rollback => rollback
  | SendClientInfo i nm => sendClientInfo i nm;; mret tt
  | GetNumShards => getNumShards;; mret tt
  | SetShard i => setShard i
  | ShardKey k => shardKey k
  | Ping => ping
  | Reset => reset
  end.

Lemma ends_bind_type t : ends_always (bind_type t).
Proof. unfold bind_type. destruct t; auto with ends. Qed.

Lemma ends_add_values vs : ends_always (add_values vs).
Proof. induction vs as [|v vs IH]; cbn [add_values]; [auto with ends|]. ends. Qed.

#[local] Hint Resolve ends_bind_type ends_add_values : ends.

Lemma ends_execute n b : ends_always (execute n b).
Proof.
  unfold execute. apply ends_seq; [auto with ends|]. intros _. apply ends_rethrow. apply ends_seq; [auto with ends|]. intros _. apply ends_seq; [auto with ends|]. intros _.
  apply ends_seq; [auto with ends|]. intros k. apply ends_if; (apply ends_seq; [repeat apply ends_if; ends|intros _; ends]).
Qed.

Lemma ends_execQuery n b : ends_always (execQuery n b).
Proof.
  unfold execQuery. apply ends_seq; [auto with ends|]. intros _. apply ends_seq; [repeat apply ends_if; auto with ends|]. intros _. ends.
  apply ends_rethrow. apply ends_seq; [auto with ends|]. intros _. apply ends_seq; [auto with ends|]. intros _. apply ends_if; auto with ends.
Qed.

Lemma ends_execDML b : ends_always (execDML b).
Proof.
  unfold execDML. apply ends_seq; [auto with ends|]. intros _. apply ends_seq; [auto with ends|]. intros _. apply ends_rethrow, ends_try_finally; [ends|].
  intros r. unfold handlecommit. apply ends_if; auto with ends.
Qed.

Lemma ends_fetch n : ends_always (fetch n).
Proof.
  unfold fetch. apply ends_seq; [auto with ends|]. intros st. destruct st; try (apply ends_seq; [|intros _; auto with ends]); auto with ends.
Qed.

(** On a stream that ends, every call of the client ends with a result or an exception: no
    loop over netstrings, messages that the statement still runs, columns or rows turns
    without taking bytes of the stream. *)
Theorem java_calls_end x c : (perform x c).2 ≠ Diverge.
Proof.
  assert (H : ends_always (perform x)); [|apply H]. destruct x; cbn [perform]; auto using ends_execDML;
    try (apply ends_seq; [auto using ends_execute, ends_execQuery, ends_fetch|intros _; auto with ends]).
  - unfold prepare, sendCalCorrId. ends.
  - unfold bind. ends.
  - apply ends_os_add.
  - unfold bindArray. ends.
  - unfold fetchOutBindVars. ends.
  - unfold commit. ends.
  - unfold rollback. ends.
  - unfold sendClientInfo. cbv zeta. ends.
  - unfold getNumShards. ends.
  - unfold setShard. ends.
  - apply ends_os_add.
  - unfold ping. ends.
  - unfold reset. auto with ends.
Qed.

(** ** Waiting for an answer *)

Lemma kept_trans c1 c2 c3 : kept c1 c2 → kept c2 c3 → kept c1 c3.
Proof. intros (? & ? & ? & ? & ? & ? & ?) (? & ? & ? & ? & ? & ? & ?). repeat split; congruence. Qed.

Definition timeout : exn := HeraTimeoutException (str "Timeout waiting for response").
Definition is_still (o : NetStringObj) : Prop := command o = HERA_STILL_EXECUTING.

(** One turn of the loop. *)
Lemma response_loop_turn fuel start c o objs : ahead c (o :: objs) → ∃ c1, ahead c1 objs ∧ kept c c1 ∧ ticks c1 = ticks c ∧
  response_loop (Datatypes.S fuel) start c =
    if command o =? HERA_STILL_EXECUTING then
      let c2 := set_ticks (Datatypes.S (ticks c)) c1 in
      if connTimeout cfg <? clock cfg (ticks c) - start then (c2, Throw timeout) else response_loop fuel start c2
    else (c1, Val o).
Proof.
  intros Ha. destruct (next_object_ok c o objs Ha) as (c1 & E & Ha1 & K1 & T1). exists c1. split_and!; [done..|].
  cbn [response_loop]. unfold next_object in E. unfold mbind, M_bind in E |- *. destruct (gets hasNext c) as [c2 [more| |]]; try done.
  destruct ((if (more : bool) then mret tt else is_parse) c2) as [c3 [[]| |]]; try done. rewrite E.
  destruct (_ =? HERA_STILL_EXECUTING); [|done]. unfold currentTimeMillis. rewrite T1. by destruct (_ <? _).
Qed.

(** Whether the [j]-th reading of the clock after the start is too late. *)
Definition late (start : Z) (k j : nat) : Prop := connTimeout cfg < clock cfg (k + j)%nat - start.

Lemma response_loop_spec fuel start stills o l c : Forall is_still stills → ¬ is_still o → ahead c (stills ++ o :: l) →
  (length (stills ++ o :: l) < fuel)%nat →
  (∃ j c', (j < length stills)%nat ∧ late start (ticks c) j ∧ (∀ i, (i < j)%nat → ¬ late start (ticks c) i) ∧
     response_loop fuel start c = (c', Throw timeout) ∧ ahead c' (drop (Datatypes.S j) stills ++ o :: l) ∧ kept c c') ∨
  (∀ j, (j < length stills)%nat → ¬ late start (ticks c) j) ∧
    ∃ c', response_loop fuel start c = (c', Val o) ∧ ahead c' l ∧ kept c c'.
Proof.
  intros Hs Ho. revert fuel c. induction Hs as [|s stills Hs _ IH]; intros fuel c Ha Hl; (destruct fuel as [|fuel]; [cbn in Hl; lia|]).
  - right. split; [intros j Hj; cbn in Hj; lia|]. destruct (response_loop_turn fuel start c o l Ha) as (c1 & Ha1 & K1 & _ & ->).
    exists c1. by rewrite (proj2 (Z.eqb_neq _ _)).
  - destruct (response_loop_turn fuel start c s (stills ++ o :: l) Ha) as (c1 & Ha1 & K1 & T1 & ->).
    rewrite (proj2 (Z.eqb_eq _ _) Hs). cbv zeta. destruct (Z.ltb_spec (connTimeout cfg) (clock cfg (ticks c) - start)) as [Hlt|Hge].
    + left. exists 0%nat. eexists. unfold late. rewrite Nat.add_0_r. split_and!; [cbn; lia|done|intros i Hi; lia|done|exact Ha1|exact K1].
    + assert (Hn : ¬ late start (ticks c) 0) by (unfold late; rewrite Nat.add_0_r; lia).
      assert (Hsh : ∀ j, late start (ticks c) (Datatypes.S j) ↔ late start (Datatypes.S (ticks c)) j)
        by (intros j; unfold late; by rewrite Nat.add_succ_r).
      cbn [length app] in Hl. destruct (IH fuel (set_ticks (Datatypes.S (ticks c)) c1)) as [(j & c' & Hj & L1 & L2 & E & A & K)|(L & c' & E & A & K)];
        [exact Ha1|lia|left|right].
      * exists (Datatypes.S j), c'. cbn [length drop]. split_and!; [lia|by apply Hsh| |done|done|eapply kept_trans; [exact K1|exact K]].
        intros [|i] Hi; [done|]. rewrite Hsh. apply L2. lia.
      * split; [|exists c'; split_and!; [done|done|eapply kept_trans; [exact K1|exact K]]].
        intros [|j] Hj; [done|]. rewrite Hsh. apply L. cbn in Hj. lia.
Qed.

Lemma response_spec stills o l c : Forall is_still stills → ¬ is_still o → ahead c (stills ++ o :: l) →
  (∃ j c', (j < length stills)%nat ∧ late (clock cfg (ticks c)) (Datatypes.S (ticks c)) j ∧
     (∀ i, (i < j)%nat → ¬ late (clock cfg (ticks c)) (Datatypes.S (ticks c)) i) ∧
     read_response c = (c', Throw timeout) ∧ ahead c' (drop (Datatypes.S j) stills ++ o :: l) ∧ kept c c') ∨
  (∀ j, (j < length stills)%nat → ¬ late (clock cfg (ticks c)) (Datatypes.S (ticks c)) j) ∧
    ∃ c', read_response c = (c', Val o) ∧ ahead c' l ∧ kept c c'.
Proof.
  intros Hs Ho Ha. pose proof (ahead_objects _ _ Ha) as Hl. unfold read_response, rethrow, mbind, M_bind, currentTimeMillis, gets.
  destruct (response_loop_spec (objects (set_ticks (Datatypes.S (ticks c)) c)) (clock cfg (ticks c)) stills o l (set_ticks (Datatypes.S (ticks c)) c))
    as [(j & c' & Hj & L1 & L2 & -> & A & K)|(L & c' & -> & A & K)]; [done|done|exact Ha|exact Hl|left|right].
  - by exists j, c'.
  - split; [done|]. by exists c'.
Qed.

(** C27: [read_response] of the Java client passes over the messages that the statement still
    runs: it throws the time-out exception at the first of them that is read more than
    [connTimeout] milliseconds after it began to wait, leaving what follows to be read, and
    if none is that late it returns the first other answer. *)
Theorem java_response_in_time stills o l c : Forall is_still stills → ¬ is_still o → ahead c (stills ++ o :: l) →
  (∃ j c', (j < length stills)%nat ∧ late (clock cfg (ticks c)) (Datatypes.S (ticks c)) j ∧
     (∀ i, (i < j)%nat → ¬ late (clock cfg (ticks c)) (Datatypes.S (ticks c)) i) ∧
     read_response c = (c', Throw timeout) ∧ ahead c' (drop (Datatypes.S j) stills ++ o :: l) ∧ kept c c') ∨
  (∀ j, (j < length stills)%nat → ¬ late (clock cfg (ticks c)) (Datatypes.S (ticks c)) j) ∧
    ∃ c', read_response c = (c', Val o) ∧ ahead c' l ∧ kept c c'.
Proof. apply response_spec. Qed.

(** ** Rows *)

(** Time-outs come into what follows: [disturbed] is whether the server sends messages that
    the statement still runs. *)
Section answers.
Context (disturbed : Prop).

Definition excused : Prop := disturbed ∧ ∃ i j, connTimeout cfg < clock cfg j - clock cfg i.

(** The answers, without the messages that the statement still runs. *)
Definition expects c (l : list NetStringObj) : Prop :=
  ∃ objs, ahead c objs ∧ filter (λ o, ¬ is_still o) objs = l ∧ (Exists is_still objs → disturbed).

(** The outcome of a call: as [Q] says, or a time-out, which leaves the writer alone. *)
Definition timely {A} (sent : bytes) (Q : HeraClientImpl → A → Prop) (r : HeraClientImpl * outcome A) : Prop :=
  match r with
  | (c', Val a) => Q c' a
  | (c', Throw e) => e = timeout ∧ excused ∧ out (os c') = sent
  | (_, Diverge) => False
  end.

Lemma timely_bind {A C} sent (Q : HeraClientImpl → A → Prop) (R : HeraClientImpl → C → Prop) (m : M A) f c :
  timely sent Q (m c) → (∀ c' x, Q c' x → timely sent R (f x c')) → timely sent R ((m ≫= f) c).
Proof. intros Hm Hf. unfold mbind, M_bind. destruct (m c) as [c' [x|e|]]; [by apply Hf|done|done]. Qed.

Lemma timely_rethrow {A} g sent (Q : HeraClientImpl → A → Prop) (m : M A) c : g timeout = timeout → timely sent Q (m c) → timely sent Q (rethrow g m c).
Proof. intros Hg. unfold rethrow. destruct (m c) as [c' [x|e|]]; [done| |done]. intros (-> & He & Ho). by rewrite Hg. Qed.

Lemma timely_mono {A} sent (Q R : HeraClientImpl → A → Prop) r : (∀ c x, Q c x → R c x) → timely sent Q r → timely sent R r.
Proof. intros H. destruct r as [c [x|e|]]; [apply H|done|done]. Qed.

(** The messages before the first answer. *)
Lemma split_stills objs o l : filter (λ o, ¬ is_still o) objs = o :: l →
  ∃ stills rest, objs = stills ++ o :: rest ∧ Forall is_still stills ∧ ¬ is_still o ∧ filter (λ o, ¬ is_still o) rest = l.
Proof.
  induction objs as [|x objs IH]; [done|]. rewrite filter_cons. destruct (decide (¬ is_still x)) as [Hx|Hx].
  - intros [= <- <-]. by exists [], objs.
  - intros (stills & rest & -> & F & Ho & Hr)%IH. exists (x :: stills), rest. split_and!; try done. constructor; [|done].
    unfold is_still in *. destruct (decide (command x = HERA_STILL_EXECUTING)); tauto.
Qed.

Lemma response_read c o l : expects c (o :: l) →
  timely (out (os c)) (λ c' x, x = o ∧ expects c' l ∧ kept c c') (read_response c).
Proof.
  intros (objs & Ha & Hf & Hd). destruct (split_stills objs o l Hf) as (stills & rest & -> & F & Ho & Hr).
  destruct (response_spec stills o rest c F Ho Ha) as [(j & c' & Hj & L & _ & -> & _ & K)|(_ & c' & -> & A & K)].
  - cbn. split_and!; [done| |by destruct K as (-> & _)]. split; [|by eexists _, _]. apply Hd. apply Exists_app. left.
    destruct stills as [|s stills]; [cbn in Hj; lia|]. apply Forall_cons in F as [F _]. by constructor.
  - cbn. split_and!; [done| |done]. exists rest. split_and!; [done|done|]. intros H. apply Hd. apply Exists_app. right. by right.
Qed.

Definition value (v : bytes) : NetStringObj := mkNetStringObj HERA_VALUE v.

Lemma row_loop_ok vals row c l : expects c (map value vals ++ l) →
  timely (out (os c)) (λ c' x, x = Some (row ++ vals) ∧ expects c' l ∧ kept c c') (row_loop (length vals) row c).
Proof.
  revert row c. induction vals as [|v vals IH]; intros row c He; [cbn; rewrite app_nil_r; by repeat split|]. cbn [length row_loop].
  eapply timely_bind; [apply (response_read c (value v) (map value vals ++ l) He)|]. intros c1 x (-> & He1 & K1). cbn [command value Z.eqb].
  pose proof (IH (row ++ [v]) (set_byteCount (i32 (byteCount c1 + zlen v)) c1) He1) as H. cbn [os set_byteCount] in H.
  rewrite <- (proj1 K1). eapply timely_mono; [|exact H]. cbn beta. intros c2 x (-> & He2 & K2). rewrite <- app_assoc.
  split_and!; [done|done|eapply kept_trans; [exact K1|exact K2]].
Qed.

(** The answer that ends the rows of a fetch, and the state after it. *)
Definition ends (fin : NetStringObj) (st : State) : Prop :=
  (command fin = HERA_NO_MORE_DATA ∧ st = FETCH_DONE) ∨ (command fin = HERA_OK ∧ st = FETCH_CMD_NEEDED).

Lemma row_loop_end k row c fin l st : ends fin st → (0 < k)%nat → expects c (fin :: l) →
  timely (out (os c)) (λ c' x, x = None ∧ expects c' l ∧ os c' = os c ∧ state c' = st) (row_loop k row c).
Proof.
  intros Hf Hk He. destruct k as [|k]; [lia|]. cbn [row_loop]. eapply timely_bind; [apply (response_read c fin l He)|].
  intros c1 x (-> & He1 & K1 & _). destruct Hf as [[-> ->]|[-> ->]]; cbn; by split_and!.
Qed.

Lemma rows_loop_ok R fuel i ret c fin l st k : columns c = Z.of_nat k → (0 < k)%nat → Forall (λ row, length row = k) R → ends fin st →
  expects c (concat (map (map value) R) ++ fin :: l) → (length R < fuel)%nat → i + zlen R < MAX_VALUE →
  timely (out (os c)) (λ c' x, x = ret ++ R ∧ expects c' l ∧ os c' = os c ∧ state c' = st) (rows_loop fuel i MAX_VALUE ret c).
Proof.
  intros Hc Hk F Hf. revert fuel i ret c Hc. induction F as [|row R Hrow F IH]; intros fuel i ret c Hc He Hl Hi; (destruct fuel as [|fuel]; [cbn in Hl; lia|]);
    cbn [rows_loop]; rewrite (proj2 (Z.ltb_lt i _)) by (cbn in Hi; lia); unfold mbind at 1, M_bind at 1, gets; rewrite Hc, (proj2 (Z.leb_gt _ 0)), Nat2Z.id by lia.
  - eapply timely_bind; [apply (row_loop_end k [] c fin l st Hf Hk He)|]. intros c' x (-> & He' & Ho & Hs). cbn. by rewrite app_nil_r.
  - cbn [map concat] in He. rewrite <- app_assoc in He. pose proof (row_loop_ok row [] c _ He) as H. rewrite Hrow in H. cbn [app] in H.
    eapply timely_bind; [exact H|]. intros c1 x (-> & He1 & Ko & _ & _ & _ & Kc & _). cbn [length] in *. rewrite <- Ko.
    eapply timely_mono; [|apply (IH fuel (i + 1) (ret ++ [row]) c1); [congruence|done|lia|lia]]. cbn beta. intros c2 x. rewrite <- app_assoc. done.
Qed.

Lemma values_length (R : list (list bytes)) k : (0 < k)%nat → Forall (λ row, length row = k) R → (length R <= length (concat (map (map value) R)))%nat.
Proof. intros Hk. induction 1 as [|row R Hr _ IH]; [done|]. cbn. rewrite length_app, length_map. lia. Qed.

Lemma expects_objects c l : expects c l → (length l < objects c)%nat.
Proof. intros (objs & Ha & <- & _). apply ahead_objects in Ha. pose proof (length_filter (λ o, ¬ is_still o) objs). lia. Qed.

Lemma fetch_ok n R c fin l st k : state c = FETCH_CMD_SENT → columns c = Z.of_nat k → (0 < k)%nat → Forall (λ row, length row = k) R → zlen R < MAX_VALUE →
  ends fin st → expects c (concat (map (map value) R) ++ fin :: l) →
  timely (out (os c)) (λ c' x, x = R ∧ expects c' l ∧ os c' = os c ∧ state c' = st) (fetch n c).
Proof.
  intros Hs Hc Hk F Hl Hf He. unfold fetch, load_results. unfold mbind at 1, M_bind at 1, gets at 1. rewrite Hs.
  unfold mbind, M_bind, mret, M_ret, gets, modify.
  apply (rows_loop_ok R (objects c) 0 [] (set_byteCount 0 c) fin l st k); try done.
  pose proof (expects_objects _ _ He) as Ho. rewrite length_app in Ho. pose proof (values_length R k Hk F). lia.
Qed.

(** ** A query *)

(** The commands that wait for the flush. *)
Definition waits c (rs : list request) : Prop := buffers (os c) ∧ baos (os c) = written rs ∧ cmd_count (os c) = zlen rs.

(** A change of the writer alone, with what it has sent. *)
Definition writer_only c c' (sent : bytes) : Prop := ∃ w, c' = set_os w c ∧ out w = out (os c) ++ sent.

Lemma writer_only_trans c1 c2 c3 a b : writer_only c1 c2 a → writer_only c2 c3 b → writer_only c1 c3 (a ++ b).
Proof. intros (w & -> & H1) (w' & -> & H2). exists w'. split; [done|]. cbn in H2. by rewrite H2, H1, app_assoc. Qed.

Lemma os_add_ok r rs c : waits c rs → fits r → zlen rs + 1 < 2 ^ 31 → ∃ c', os_add r c = (c', Val tt) ∧ waits c' (rs ++ [r]) ∧ writer_only c c' [].
Proof.
  intros (B & Hb & Hc) Hf Hl. unfold os_add. destruct (add_ok r (os c) B Hf) as (w & -> & B' & Hb' & Ho & Hn). rewrite i32_id in Hn by go_lia.
  eexists. split; [done|]. split; [|exists w; split; [done|by rewrite Ho, app_nil_r]]. unfold waits. cbn.
  split; [done|]. split; [|rewrite Hn, length_app; cbn; lia]. rewrite Hb', Hb. unfold written. by rewrite map_app, concat_app, <- (app_nil_r (wrapped _)).
Qed.

Fixpoint adds (rs : list request) : M unit :=
  match rs with
  | [] => mret tt
  | r :: rs => os_add r;; adds rs
  end.

Lemma adds_ok rs ws c : waits c ws → Forall fits rs → zlen ws + zlen rs < 2 ^ 31 → ∃ c', adds rs c = (c', Val tt) ∧ waits c' (ws ++ rs) ∧ writer_only c c' [].
Proof.
  revert ws c. induction rs as [|r rs IH]; intros ws c W F Hl.
  { exists c. split; [done|]. split; [by rewrite app_nil_r|]. exists (os c). split; [by destruct c|by rewrite app_nil_r]. }
  apply Forall_cons in F as [Fr F]. cbn [length] in Hl. destruct (os_add_ok r ws c W Fr) as (c1 & E1 & W1 & O1); [lia|].
  destruct (IH (ws ++ [r]) c1 W1 F) as (c2 & E2 & W2 & O2); [rewrite length_app; cbn; lia|].
  exists c2. cbn [adds]. unfold mbind, M_bind. rewrite E1. rewrite <- app_assoc in W2. split_and!; [done|exact W2|]. apply (writer_only_trans c c1 c2 [] [] O1 O2).
Qed.

Lemma os_flush_ok rs c : waits c rs → up c = true → zlen (written rs) + 2 < 2 ^ 31 →
  ∃ c', os_flush c = (c', Val tt) ∧ fresh (os c') ∧ writer_only c c' (message rs).
Proof.
  intros (B & Hb & Hc) Hu Hl. unfold os_flush. rewrite Hu. destruct (flush_ok rs (os c) B Hb Hc Hl) as (w & -> & Fw & Ho).
  eexists. split; [done|]. split; [exact Fw|]. by exists w.
Qed.

Lemma parseInt_itoa n : in_i32 n → parseInt (itoa n) = Ret n.
Proof.
  unfold in_i32. intros Hn. unfold parseInt. rewrite JavaHash.parseLong_itoa by (unfold in_i64; lia). cbn [mbind result_bind].
  by rewrite (proj2 (Z.leb_le _ _)), (proj2 (Z.ltb_lt _ _)) by lia.
Qed.

Lemma read_int_ok num n c l : in_i32 n → expects c (value (itoa n) :: l) →
  timely (out (os c)) (λ c' x, x = n ∧ expects c' l ∧ kept c c') (read_int num c).
Proof.
  intros Hn He. unfold read_int. eapply timely_bind; [apply (response_read c _ l He)|]. intros c1 x (-> & He1 & K).
  cbn [command value Z.eqb data HERA_VALUE]. unfold rethrow, int_data. cbn [data value]. by rewrite parseInt_itoa.
Qed.

Lemma counts_ok k r c l : in_i32 k → in_i32 r → expects c (value (itoa k) :: value (itoa r) :: l) →
  timely (out (os c)) (λ c' _, expects c' l ∧ columns c' = k ∧ rows c' = r ∧ os c' = os c ∧ state c' = state c) (counts c).
Proof.
  intros Hk Hr He. unfold counts. eapply timely_bind; [apply (read_int_ok id k c _ Hk He)|]. intros c1 x (-> & He1 & K1).
  unfold mbind at 1, M_bind at 1, modify at 1. rewrite <- (proj1 K1).
  eapply timely_bind; [apply (read_int_ok id r (set_columns k c1) l Hr He1)|]. intros c2 x (-> & He2 & K2).
  destruct K1 as (? & ? & ? & ? & ? & ? & ?), K2 as (? & ? & ? & ? & ? & ? & ?). cbn in *. split_and!; [exact He2|congruence..].
Qed.

(** The commands of a query. *)
Definition bind_requests (b : bytes * BindType * bytes) : list request :=
  let '(v, t, x) := b in
  [AddData HERA_BIND_NAME v] ++ match t with HERA_TYPE_STRING => [] | _ => [AddLong HERA_BIND_TYPE (getValue t)] end ++ [AddData HERA_BIND_VALUE x].

Definition corr_id : bytes := str "CorrId=" ++ correlationId cfg ++ match poolStack cfg with Some st => str "&PoolStack: " ++ st | None => [] end.

Definition query_requests (q : bytes) (bs : list (bytes * BindType * bytes)) (n : Z) : list request :=
  [AddData CLIENT_CAL_CORRELATION_ID corr_id; AddData HERA_PREPARE_V2 q] ++ concat (map bind_requests bs) ++ [AddCmd HERA_EXECUTE; AddLong HERA_FETCH n].

Fixpoint bind_all (bs : list (bytes * BindType * bytes)) : M unit :=
  match bs with
  | [] => mret tt
  | (v, t, x) :: bs => bind v t x;; bind_all bs
  end.

Lemma adds_app rs1 rs2 c : adds (rs1 ++ rs2) c = (adds rs1;; adds rs2) c.
Proof.
  revert c. induction rs1 as [|r rs1 IH]; intros c; [done|]. cbn [app adds]. unfold mbind, M_bind in *. destruct (os_add r c) as [c1 [[]| |]]; [|done|done]. apply IH.
Qed.

Lemma bind_adds v t x c : bind v t x c = adds (bind_requests (v, t, x)) c.
Proof.
  unfold bind, bind_type, bind_requests. destruct t; cbn [app adds]; unfold mbind, M_bind, mret, M_ret;
    repeat (match goal with |- context [os_add ?r ?d] => destruct (os_add r d) as [? [[]| |]] end; try done).
Qed.

Lemma bind_all_adds bs c : bind_all bs c = adds (concat (map bind_requests bs)) c.
Proof.
  revert c. induction bs as [|[[v t] x] bs IH]; intros c; [done|]. cbn [bind_all map concat]. rewrite adds_app. unfold mbind, M_bind in *. rewrite bind_adds.
  destruct (adds _ c) as [c1 [[]| |]]; [|done|done]. apply IH.
Qed.

Lemma writer_only_facts c c' b : writer_only c c' b → out (os c') = out (os c) ++ b ∧ up c' = up c ∧ state c' = state c ∧ (∀ l, expects c l → expects c' l).
Proof. by intros (w & -> & H). Qed.

Lemma prepare_adds q c c' : adds [AddData CLIENT_CAL_CORRELATION_ID corr_id; AddData HERA_PREPARE_V2 q] c = (c', Val tt) → prepare q c = (set_sql q c', Val tt).
Proof.
  unfold prepare, sendCalCorrId. fold corr_id. cbn [adds]. unfold mbind, M_bind, mret, M_ret. destruct (os_add _ c) as [c1 [[]| |]]; try done.
  destruct (os_add _ c1) as [c2 [[]| |]]; try done. by intros [= ->].
Qed.

Lemma execQuery_ok n k r rs c l : waits c rs → up c = true → Forall fits [AddCmd HERA_EXECUTE; AddLong HERA_FETCH n] →
  zlen (written (rs ++ [AddCmd HERA_EXECUTE; AddLong HERA_FETCH n])) + 2 < 2 ^ 31 → in_i32 k → in_i32 r → expects c (value (itoa k) :: value (itoa r) :: l) →
  let sent := out (os c) ++ message (rs ++ [AddCmd HERA_EXECUTE; AddLong HERA_FETCH n]) in
  timely sent (λ c' x, x = None ∧ expects c' l ∧ columns c' = k ∧ rows c' = r ∧ state c' = FETCH_CMD_SENT ∧ out (os c') = sent)
    (execQuery n false c).
Proof.
  intros W Hu F Hl Hk Hr He sent. rewrite !Forall_cons in F. destruct F as (F1 & F2 & _). pose proof (written_length (rs ++ [AddCmd HERA_EXECUTE; AddLong HERA_FETCH n])) as Hlen.
  rewrite length_app in Hlen. cbn [length] in Hlen. destruct (os_add_ok (AddCmd HERA_EXECUTE) rs c W F1) as (c1 & E1 & W1 & O1); [lia|].
  apply writer_only_facts in O1 as (O1 & U1 & _ & X1).
  destruct (os_add_ok (AddLong HERA_FETCH n) (rs ++ [AddCmd HERA_EXECUTE]) (set_state FETCH_CMD_SENT c1)) as (c2 & E2 & W2 & O2); [exact W1|done|rewrite length_app; cbn; lia|].
  apply writer_only_facts in O2 as (O2 & U2 & S2 & X2). cbn in O2, U2, S2. rewrite <- app_assoc in W2.
  destruct (os_flush_ok _ c2 W2) as (c3 & E3 & F3 & O3); [congruence|done|]. apply writer_only_facts in O3 as (O3 & U3 & S3 & X3).
  assert (H3 : out (os c3) = sent) by (unfold sent; rewrite O3, O2, O1, !app_nil_r; done).
  pose proof (counts_ok k r c3 l Hk Hr (X3 _ (X2 _ (X1 _ He)))) as H. rewrite H3 in H.
  unfold execQuery. unfold mbind at 1, M_bind at 1. rewrite E1. unfold mbind at 1, M_bind at 1, mret at 1, M_ret at 1.
  unfold mbind at 1, M_bind at 1, modify at 1. unfold mbind at 1, M_bind at 1. rewrite E2.
  apply timely_rethrow; [done|]. unfold mbind at 1, M_bind at 1. rewrite E3. eapply timely_bind; [exact H|].
  intros c4 x (X4 & C4 & R4 & O4 & S4). cbn. split_and!; try done; congruence.
Qed.

(** A query, up to its first fetch. *)
Definition query (q : bytes) (bs : list (bytes * BindType * bytes)) (n : Z) : M (list (list bytes)) :=
  prepare q;; bind_all bs;; execQuery n false;; fetch n.

Lemma query_ok q bs n k r R fin st l c : up c = true → fresh (os c) → Forall fits (query_requests q bs n) →
  zlen (written (query_requests q bs n)) + 2 < 2 ^ 31 → (0 < k)%nat → in_i32 (Z.of_nat k) → in_i32 r → zlen R < MAX_VALUE →
  Forall (λ row, length row = k) R → ends fin st →
  expects c (value (itoa (Z.of_nat k)) :: value (itoa r) :: concat (map (map value) R) ++ fin :: l) →
  let sent := out (os c) ++ message (query_requests q bs n) in
  timely sent (λ c' x, x = R ∧ state c' = st ∧ expects c' l ∧ out (os c') = sent) (query q bs n c).
Proof.
  intros Hu (B & Hb & Hc) F Hl Hk0 Hk Hr HR FR Hf He sent. pose proof (written_length (query_requests q bs n)) as Hlen.
  pose proof F as [F1 [F2 F3]%Forall_app]%Forall_app. assert (Hq : length (query_requests q bs n) = (4 + length (concat (map bind_requests bs)))%nat) by (unfold query_requests; rewrite !length_app; cbn [length]; lia).
  assert (W0 : waits c []) by (split; [exact B|by split]). destruct (adds_ok _ [] c W0 F1) as (c1 & E1 & W1 & O1); [cbn; lia|]. apply writer_only_facts in O1 as (O1 & U1 & _ & X1).
  destruct (adds_ok _ _ (set_sql q c1) W1 F2) as (c2 & E2 & W2 & O2); [cbn [app length]; lia|]. apply writer_only_facts in O2 as (O2 & U2 & _ & X2). cbn in O2, U2.
  assert (Hout : out (os c2) ++ message ((([] ++ [AddData CLIENT_CAL_CORRELATION_ID corr_id; AddData HERA_PREPARE_V2 q]) ++ concat (map bind_requests bs)) ++
    [AddCmd HERA_EXECUTE; AddLong HERA_FETCH n]) = sent) by (unfold sent, query_requests; rewrite O2, O1, !app_nil_r, <- app_assoc; done).
  unfold query. unfold mbind at 1, M_bind at 1. rewrite (prepare_adds q c c1 E1). unfold mbind at 1, M_bind at 1. rewrite bind_all_adds, E2.
  eapply timely_bind.
  { rewrite <- Hout. apply (execQuery_ok n (Z.of_nat k) r _ c2 (concat (map (map value) R) ++ fin :: l) W2);
      [congruence|exact F3|by rewrite <- app_assoc|done|done|by apply X2, X1]. }
  intros c3 x (_ & X3 & C3 & R3 & S3 & O3). rewrite Hout in O3. rewrite <- O3.
  eapply timely_mono; [|by apply (fetch_ok n R c3 fin l st k)]. cbn beta. intros c4 y (-> & X4 & O4 & S4). by rewrite O4.
Qed.
End answers.

(** C26: A query of the Java client, without a request for the columns' names, over a
    connection on which netstrings come without the type byte (the answers of this version's
    gateway have it and are refused): the correlation id, the statement, its binds, the
    execution and the first fetch are sent as one message. When the server answers with
    the number of columns, of rows, and the values of the rows, alone or together in
    netstrings, with any messages in between that the statement still runs, the outcome is
    exactly these rows, and the client knows whether there are more; or, only if there are
    such messages and two readings of the clock lie more than [connTimeout] apart, the
    time-out exception. *)
Theorem java_query_rows q bs n k r R fin st l objs c : up c = true → fresh (os c) → Forall fits (query_requests q bs n) →
  zlen (written (query_requests q bs n)) + 2 < 2 ^ 31 → (0 < k)%nat → in_i32 (Z.of_nat k) → in_i32 r → zlen R < MAX_VALUE →
  Forall (λ row, length row = k) R → ends fin st → ahead c objs →
  filter (λ o, ¬ is_still o) objs = value (itoa (Z.of_nat k)) :: value (itoa r) :: concat (map (map value) R) ++ fin :: l →
  let '(c', res) := query q bs n c in
  out (os c') = out (os c) ++ message (query_requests q bs n) ∧
  (res = Val R ∧ state c' = st ∧ (∃ objs', ahead c' objs' ∧ filter (λ o, ¬ is_still o) objs' = l) ∨
   res = Throw timeout ∧ Exists is_still objs ∧ ∃ i j, connTimeout cfg < clock cfg j - clock cfg i).
Proof.
  intros Hu Hfr F Hl Hk0 Hk Hr HR FR Hf Ha Hobjs.
  pose proof (query_ok (Exists is_still objs) q bs n k r R fin st l c Hu Hfr F Hl Hk0 Hk Hr HR FR Hf) as H.
  unfold timely in H. destruct (query q bs n c) as [c' [x|e|]]; (destruct H as (H1 & H2 & H3) || destruct H); try (by exists objs).
  - subst x. destruct H3 as [(objs' & ? & ? & _) H3]. split; [done|]. left. split_and!; [done..|]. by exists objs'.
  - subst e. split; [done|]. right. destruct H2 as [? ?]. done.
Qed.

(** The name of a client never leaves it: [sendClientInfo] appends it when it is empty. *)
Theorem client_name_left_out info nm1 nm2 c : nm1 ≠ [] → nm2 ≠ [] → sendClientInfo info nm1 c = sendClientInfo info nm2 c.
Proof. intros H1 H2. unfold sendClientInfo. by destruct nm1, nm2. Qed.

End client.

(** ** An example *)

Definition ex_settings : settings := mkSettings 1000 false false (λ _, 0) (str "box") (str "NotSet") None (str "PID: 1") (str "null").
Definition ex_rows : list (list bytes) := [[str "1"; str "ann"]; [str "2"; []]].
Definition still : NetStringObj := mkNetStringObj HERA_STILL_EXECUTING [].
Definition no_more : NetStringObj := mkNetStringObj HERA_NO_MORE_DATA [].

(** The number of columns and rows alone, a message in between, the rows together. *)
Definition ex_answers : stream :=
  mkStream [writeToOutputStream (value (str "2")); writeToOutputStream (value (str "0")); writeToOutputStream still;
            wrapped (48 :: Netstring.space :: concat (map writeToOutputStream (map value (concat ex_rows)))); writeToOutputStream no_more] io_EOF.

Definition ex_client : HeraClientImpl := new_HeraClientImpl ex_answers true.
Definition ex_binds : list (bytes * BindType * bytes) := [(str "id", HERA_TYPE_STRING, str "7"); (str "raw", HERA_TYPE_RAW, str "x")].

Lemma ex_good v : zlen v < 2 ^ 30 → good (value v).
Proof. intros H. split; [cbn; unfold HERA_VALUE; lia|exact H]. Defined.

Definition ex_objects : list NetStringObj := [value (str "2"); value (str "0"); still] ++ map value (concat ex_rows) ++ [no_more].

Lemma ex_ahead : ahead ex_client ex_objects.
Proof.
  eexists. split; [|reflexivity]. unfold ex_objects. cbn [app].
  apply wire_one; [apply ex_good; vm_compute; reflexivity|]. apply wire_one; [apply ex_good; vm_compute; reflexivity|].
  apply wire_one; [split; [cbn; unfold HERA_STILL_EXECUTING; lia|vm_compute; reflexivity]|].
  apply (wire_many (map value (concat ex_rows))); [discriminate| |vm_compute; reflexivity|].
  - cbn. repeat (apply Forall_cons; split; [apply ex_good; vm_compute; reflexivity|]). apply Forall_nil_2.
  - apply wire_one; [split; [cbn; unfold HERA_NO_MORE_DATA; lia|vm_compute; reflexivity]|]. apply wire_nil.
Defined.

Lemma java_query_rows_witness : ∃ c', query ex_settings (str "select id, name from t where id=:id and raw=:raw") ex_binds 0 ex_client = (c', Val ex_rows) ∧
  state c' = FETCH_DONE ∧ out (os c') = message (query_requests ex_settings (str "select id, name from t where id=:id and raw=:raw") ex_binds 0).
Proof.
  pose proof (java_query_rows ex_settings (str "select id, name from t where id=:id and raw=:raw") ex_binds 0 2 0 ex_rows no_more FETCH_DONE [] ex_objects ex_client) as H.
  destruct (query _ _ _ _ _) as [c' res]. destruct H as [Ho [(-> & Hs & _)|(_ & _ & i & j & Hlt)]].
  - reflexivity.
  - repeat split.
  - repeat (apply Forall_cons; split; [split; [cbn; lia || exact I|vm_compute; reflexivity]|]). apply Forall_nil_2.
  - vm_compute. reflexivity.
  - lia.
  - unfold in_i32. lia.
  - unfold in_i32. lia.
  - vm_compute. reflexivity.
  - repeat (apply Forall_cons; split; [reflexivity|]). apply Forall_nil_2.
  - left. split; reflexivity.
  - exact ex_ahead.
  - vm_compute. reflexivity.
  - exists c'. split; [reflexivity|]. split; [exact Hs|exact Ho].
  - cbn in Hlt. lia.
Defined.

(** A clock on which the second message comes too late. *)
Definition slow_settings : settings := mkSettings 1000 false false (λ i, 700 * Z.of_nat i) (str "box") (str "NotSet") None (str "PID: 1") (str "null").
Definition slow_client : HeraClientImpl := new_HeraClientImpl (mkStream (map writeToOutputStream [still; still; no_more]) io_EOF) true.

Lemma java_response_in_time_witness : ∃ c', read_response slow_settings slow_client = (c', Throw timeout) ∧ ahead c' [no_more].
Proof.
  assert (Hg : good still) by (split; [cbn; unfold HERA_STILL_EXECUTING; lia|vm_compute; reflexivity]).
  destruct (java_response_in_time slow_settings [still; still] no_more [] slow_client) as [(j & c' & Hj & L & _ & E & A & _)|(L & _)].
  - repeat constructor.
  - discriminate.
  - eexists. split; [|reflexivity]. apply wire_one; [exact Hg|]. apply wire_one; [exact Hg|].
    apply wire_one; [split; [cbn; unfold HERA_NO_MORE_DATA; lia|vm_compute; reflexivity]|]. apply wire_nil.
  - exists c'. split; [exact E|]. destruct j as [|[|j]]; [vm_compute in L; discriminate L|exact A|cbn in Hj; lia].
  - exfalso. apply (L 1%nat); vm_compute; [lia|reflexivity].
Defined.

End JavaClient.
