(* ===== verification/JavaStatements.v ===== *)
(** * The statements of the Java client (client/java/jdbc, util/HeraStatementsCache.java)

    A statement is parsed once: the question marks outside of comments become the parameters
    [:p1], [:p2] and so on. The parsed statements are kept in a map of bounded size
    (util/BoundLRUCaches.java). Module [JavaSql] is the scan of the text, [JavaCache] the map.
    The call escape, the hint of the shard key and the names of parameters, which are found
    with regular expressions, are left out; a text is its bytes, in ASCII. *)

From S2P Require Import Prelude Fmt.
From stdpp Require Import base list strings.
From Stdlib Require Import ZArith Lia.
Open Scope Z_scope.

(** ** The scan *)

Module JavaSql.

Definition slash : byte := 47.
Definition star : byte := 42.
Definition mark : byte := 63.

(** [buildParamName], also behind the table of the first hundred names. *)
Definition paramName (_index : Z) : bytes := str "p" ++ itoa _index.

(** Where a comment ends that is open at the start of [t]: the text up to its end, and the rest. *)
Fixpoint end_comment (t : bytes) : option (bytes * bytes) :=
  match t with
  | 42 :: 47 :: rest => Some ([42; 47], rest)
  | b :: rest =>
    match end_comment rest with
    | Some (c, rest) => Some (b :: c, rest)
    | None => None
    end
  | [] => None
  end.

(** The loop of [helperParseSQL] on the rest of the text: the text built and the number of
    parameters. Every turn takes a character. *)
Fixpoint scan (fuel : nat) (sql sb : bytes) (paramCount : Z) : result (bytes * Z) :=
  match sql with
  | [] => Ret (sb, paramCount)
  | b :: rest =>
    match fuel with
    | O => Hang
    | S fuel =>
      match b =? slash, rest with
      | true, 42 :: body =>
        match end_comment body with
        | Some (c, rest) => scan fuel rest (sb ++ slash :: star :: c) paramCount
        | None => scan fuel body (sb ++ [slash; star]) paramCount
        end
      | _, _ =>
        if b =? mark then scan fuel rest (sb ++ str ":" ++ paramName (paramCount + 1)) (paramCount + 1)
        else scan fuel rest (sb ++ [b]) paramCount
      end
    end
  end.

Definition helperParseSQL (_sql : bytes) : result (bytes * Z) := scan (length _sql) _sql [] 0.

(** ** What it does *)

(** The pieces of a statement. *)
Inductive piece :=
  | Comment (body : bytes)
  | Param
  | Char (b : byte).

(** The text of a piece, and the number of parameters after it. *)
Definition print (p : piece) : bytes :=
  match p with
  | Comment body => [slash; star] ++ body ++ [star; slash]
  | Param => [mark]
  | Char b => [b]
  end.

Definition numbered (p : piece) (n : Z) : bytes * Z :=
  match p with
  | Param => (str ":" ++ paramName (n + 1), n + 1)
  | _ => (print p, n)
  end.

Fixpoint number (ps : list piece) (n : Z) : bytes * Z :=
  match ps with
  | [] => ([], n)
  | p :: ps =>
    let '(t, n) := numbered p n in
    let '(ts, n) := number ps n in
    (t ++ ts, n)
  end.

Definition source (ps : list piece) : bytes := concat (map print ps).

(** A comment ends at its end and not before; a character is no mark, and no slash before a
    star. *)
Fixpoint well (ps : list piece) : Prop :=
  match ps with
  | [] => True
  | Comment body :: ps => (∀ rest, end_comment (body ++ [star; slash] ++ rest) = Some (body ++ [star; slash], rest)) ∧ well ps
  | Param :: ps => well ps
  | Char b :: ps => b ≠ mark ∧ (b = slash → head (source ps) ≠ Some star) ∧ well ps
  end.

Lemma scan_char fuel b rest sb n : b ≠ mark → (b = slash → head rest ≠ Some star) →
  scan (S fuel) (b :: rest) sb n = scan fuel rest (sb ++ [b]) n.
Proof.
  intros Hm Hs. cbn [scan]. rewrite (proj2 (Z.eqb_neq b mark)) by done. destruct (Z.eqb_spec b slash) as [->|]; [|done].
  destruct rest as [|x rest]; [done|]. specialize (Hs eq_refl). cbn in Hs. assert (x ≠ 42) by (intros ->; by apply Hs).
  destruct x as [|q|q]; try done. repeat (destruct q as [q|q|]; try done).
Qed.

Lemma scan_ok ps fuel sb n : well ps → (length (source ps) <= fuel)%nat →
  scan fuel (source ps) sb n = Ret (sb ++ (number ps n).1, (number ps n).2).
Proof.
  revert fuel sb n. induction ps as [|p ps IH]; intros fuel sb n W Hl; [destruct fuel; cbn; by rewrite app_nil_r|].
  unfold source in *. cbn [map concat number] in *. rewrite length_app in Hl. destruct p as [body| |b]; cbn [print numbered] in *.
  - destruct W as [We W]. destruct fuel as [|fuel]; [cbn in Hl; lia|]. rewrite <- !app_assoc. cbn [app scan]. change (slash =? slash) with true.
    change (47 =? slash) with true. cbn. pose proof (We (concat (map print ps))) as E. cbn [app] in E. rewrite E.
    rewrite IH; [|done|cbn in Hl; rewrite length_app in Hl; lia]. destruct (number ps n) as [ts n']. cbn [fst snd]. f_equal. f_equal. by simplify_list_eq.
  - destruct fuel as [|fuel]; [cbn in Hl; lia|]. cbn [app scan]. change (mark =? slash) with false. cbn [Z.eqb Pos.eqb mark]. rewrite IH; [|done|cbn in Hl; lia].
    destruct (number ps (n + 1)) as [ts n']. cbn [fst snd]. by rewrite <- !app_assoc.
  - destruct W as (Hm & Hs & W). destruct fuel as [|fuel]; [cbn in Hl; lia|]. cbn [app]. rewrite scan_char; [|done|exact Hs]. rewrite IH; [|done|cbn in Hl; lia].
    destruct (number ps n) as [ts n']. cbn [fst snd]. by rewrite <- app_assoc.
Qed.

Lemma end_comment_length t c rest : end_comment t = Some (c, rest) → (length rest < length t)%nat.
Proof.
  revert c rest. induction t as [|b t IH]; intros c rest; [done|]. intros H.
  assert (Hc : (∃ u, b :: t = 42 :: 47 :: u ∧ Some ([42; 47], u) = Some (c, rest)) ∨ ∃ c' , end_comment t = Some (c', rest)).
  { cbn in H. destruct b as [|q|q]; try (destruct (end_comment t) as [[c' r']|]; [injection H as <- <-; right; eauto|done]).
    repeat (destruct q as [q|q|]; try (destruct (end_comment t) as [[c' r']|]; [injection H as <- <-; right; eauto|done])).
    destruct t as [|x t]; [done|]. destruct x as [|q|q]; try (destruct (end_comment _) as [[c' r']|]; [injection H as <- <-; right; eauto|done]).
    repeat (destruct q as [q|q|]; try (destruct (end_comment _) as [[c' r']|]; [injection H as <- <-; right; eauto|done])). left. eauto. }
  destruct Hc as [(u & -> & [= _ <-])|[c' E]]; [cbn; lia|]. apply IH in E. cbn. lia.
Qed.

(** The scan always ends. *)
Lemma scan_returns fuel t sb n : (length t <= fuel)%nat → ∃ r, scan fuel t sb n = Ret r.
Proof.
  revert t sb n. induction fuel as [|fuel IH]; intros t sb n Hl; (destruct t as [|b t]; [by eexists|]); cbn [length] in Hl; [lia|].
  assert (Hc : (∃ body, b = slash ∧ t = 42 :: body) ∨ (b ≠ slash ∨ head t ≠ Some star)).
  { destruct (decide (b = slash)) as [->|]; [|auto]. destruct t as [|x t]; [auto|]. destruct (decide (x = 42)) as [->|]; [eauto|]. right. right. cbn. unfold star. congruence. }
  destruct Hc as [(body & -> & ->)|Hc].
  - cbn [scan]. change (slash =? slash) with true. cbn iota. destruct (end_comment body) as [[c rest]|] eqn:E; [apply end_comment_length in E|]; apply IH; cbn in Hl; lia.
  - destruct (decide (b = mark)) as [->|Hm]; [cbn [scan]; change (mark =? slash) with false; apply IH; lia|].
    rewrite scan_char; [apply IH; lia|done|]. intros ->. by destruct Hc.
Qed.

(** The marks of a statement become its parameters: a statement made of comments,
    question marks and other characters is parsed to the same text with the marks outside of
    comments numbered from the first to the last, and their number; and every text is
    parsed. *)
Theorem marks_numbered ps t : well ps → helperParseSQL (source ps) = Ret (number ps 0) ∧ ∃ r, helperParseSQL t = Ret r.
Proof.
  intros W. unfold helperParseSQL. split; [|by apply scan_returns]. rewrite scan_ok by done. by destruct (number ps 0).
Qed.

Definition ex_pieces : list piece := [Char 61; Comment (str "?"); Char 47; Param; Char 44; Param].

Lemma ex_well : well ex_pieces.
Proof. repeat split; discriminate. Defined.

Lemma marks_numbered_witness : helperParseSQL (str "=/*?*//?,?") = Ret (str "=/*?*//:p1,:p2", 2).
Proof.
  destruct (marks_numbered ex_pieces [] ex_well) as [H _].
  assert (Es : source ex_pieces = str "=/*?*//?,?") by (vm_compute; reflexivity).
  assert (En : number ex_pieces 0 = (str "=/*?*//:p1,:p2", 2)) by (vm_compute; reflexivity).
  rewrite Es, En in H. exact H.
Defined.

(** A question mark inside a literal is a parameter too. *)
Theorem literal_mark_replaced : helperParseSQL (str "select * from t where q='why?'") = Ret (str "select * from t where q='why:p1'", 1).
Proof. vm_compute. reflexivity. Qed.

End JavaSql.

(** ** The map of parsed statements *)

Module JavaCache.
Section cache.
Context {T : Type} (max : nat).

(** The entries in the order in which they were added: [get] does not move them. *)
Definition BoundLRUCaches : Type := list (bytes * T).

Definition get (k : bytes) (m : BoundLRUCaches) : option T := snd <$> find (λ e, bool_decide (e.1 = k)) m.

Definition removeEldestEntry (m : BoundLRUCaches) : bool := (max <? length m)%nat.

Definition put (k : bytes) (v : T) (m : BoundLRUCaches) : BoundLRUCaches :=
  match get k m with
  | Some _ => map (λ e, if bool_decide (e.1 = k) then (k, v) else e) m
  | None =>
    let m := m ++ [(k, v)] in
    if removeEldestEntry m then tail m else m
  end.

(** [parse]: the entry made for a statement. *)
Definition getEntry (parse : bytes → T) (_sql : bytes) (m : BoundLRUCaches) : BoundLRUCaches * T :=
  match get _sql m with
  | Some e => (m, e)
  | None => let e := parse _sql in (put _sql e m, e)
  end.

Fixpoint entries (parse : bytes → T) (sqls : list bytes) (m : BoundLRUCaches) : BoundLRUCaches * list T :=
  match sqls with
  | [] => (m, [])
  | q :: sqls =>
    let '(m, e) := getEntry parse q m in
    let '(m, es) := entries parse sqls m in
    (m, e :: es)
  end.

Lemma get_in k m v : get k m = Some v → (k, v) ∈ m.
Proof.
  unfold get. destruct (find _ m) as [[k' v']|] eqn:E; [|done]. cbn. intros [= ->]. apply find_some in E as [Hin Hk%bool_decide_eq_true]. cbn in Hk. subst k'. by apply list_elem_of_In.
Qed.

Lemma getEntry_ok parse q m : Forall (λ e, e.2 = parse e.1) m → (length m <= max)%nat →
  let '(m', e) := getEntry parse q m in e = parse q ∧ Forall (λ e, e.2 = parse e.1) m' ∧ (length m' <= max)%nat.
Proof.
  intros F Hl. unfold getEntry, put. destruct (get q m) as [v|] eqn:E.
  - apply get_in in E. rewrite Forall_forall in F. split; [by apply (F _ E)|]. split; [by apply Forall_forall|done].
  - assert (F' : Forall (λ e, e.2 = parse e.1) (m ++ [(q, parse q)])) by (apply Forall_app; split; [done|by constructor]). unfold removeEldestEntry.
    split; [done|]. destruct (Nat.ltb_spec max (length (m ++ [(q, parse q)]))) as [H|H]; [|done]. rewrite length_app in H. cbn in H.
    destruct m as [|e m]; cbn in *; [split; [constructor|lia]|]. apply Forall_cons in F' as [_ F']. split; [done|]. rewrite length_app. cbn. lia.
Qed.

(** The map never has more entries than its bound, and every statement gets its own entry. *)
Theorem entries_right parse sqls : (length (entries parse sqls []).1 <= max)%nat ∧ (entries parse sqls []).2 = map parse sqls.
Proof.
  assert (H : ∀ m, Forall (λ e, e.2 = parse e.1) m → (length m <= max)%nat → (length (entries parse sqls m).1 <= max)%nat ∧ (entries parse sqls m).2 = map parse sqls);
    [|apply H; [constructor|cbn; lia]].
  induction sqls as [|q sqls IH]; intros m F Hl; [done|]. cbn [entries map]. pose proof (getEntry_ok parse q m F Hl) as Hg. destruct (getEntry parse q m) as [m1 e].
  destruct Hg as (-> & F1 & L1). destruct (IH m1 F1 L1) as [H1 H2]. destruct (entries parse sqls m1) as [m2 es]. cbn in *. by rewrite H2.
Qed.
End cache.

(** The entry that goes is the one that was added first, also when it was used last. *)
Theorem oldest_not_least_used : map fst (entries 2 id [str "a"; str "b"; str "a"; str "c"] []).1 = [str "b"; str "c"].
Proof. vm_compute. reflexivity. Qed.

End JavaCache.
